(* ===== verification/_CoqProject ===== *)
-Q . S2P
Prelude.v
GoNet.v
GoCrypto.v
SpecTypes.v
SpecCanonical.v
SpecValidate.v
SpecSamples.v
NetFacts.v
SpecFacts.v
SpecTheorems.v
SpecChecksum.v
SpecAccepted.v
Hostname.v
TargetDns.v
Health.v
Meter.v
Capabilities.v
Iam.v
ClusterTypes.v
ClusterValidate.v
PlanJson.v
PlanFacts.v
Scheduler.v
PlaceFacts.v
ClusterCompile.v
Rollout.v
RolloutFacts.v
RolloutStages.v
RolloutCompose.v
FabricCompiler.v
NftCompiler.v
TcCompiler.v
DataplaneFacts.v
NftFacts.v
TcFacts.v
FabricFacts.v
AgentStore.v
Reconciler.v
ReconcilerFacts.v
ReconcilerSafety.v
ReconcilerOutcome.v
ReconcilerWorld.v
ControlDb.v
ControlNodes.v
ControlPublish.v
ControlRollout.v
ControlStore.v
ControlFacts.v
ControlLedger.v
ControlOps.v
ControlVips.v
ControlSchedule.v
ControlEnforce.v
ControlHistory.v
ControlWire.v
ControlCommands.v
ControlAcks.v
ControlServer.v
AgentClient.v
ControlLoop.v
ControlUsage.v
ControlSession.v
ControlIdentity.v
ControlIdentityFacts.v
ControlExpiry.v
Password.v
ManagementServer.v
ManagementForwards.v
ManagementLimiter.v
ManagementAccess.v
ManagementPlans.v
ManagementTenants.v
Enrollment.v
EnrollmentStore.v
EnrollmentFacts.v
Executors.v
FabricExecutor.v
ExecutorFacts.v
ExecutorNft.v
Maintenance.v
