(* ===== verification/Prelude.v ===== *)
(** * Flux: a verification of the forwarding controller and its agents

    Flux forwards TCP and UDP ports on a set of nodes. A Controller keeps one
    cluster plan (nodes, fabrics between them, pools of backends, forwards of
    tenants), places every forward on nodes, compiles one desired state for each
    node and publishes the states in stages. An Agent on each node receives its
    state over a control stream, compiles it to an nftables table, to traffic
    control and to fabric links, applies it, reports what it has applied and how
    much traffic passed. People use a management server; a node joins by a token.
    The sources are under [src/internal/]; every path below is relative to it.

    ** The files and what they model

    What the program uses of Go and of cryptography: [GoNet] (integers of a
    width, time, [netip], base64, [strconv]), [GoCrypto] (SHA-256, X25519), both
    executable. A [uintN] is an [N] and every operation that can leave its width
    wraps; a time is a number of nanoseconds; maps are [gmap]s.

    A node's desired state, [spec/]: [SpecTypes] the data, [SpecCanonical] and
    [SpecChecksum] the canonical form, its JSON and its checksum, [SpecValidate]
    the validator, message by message, [Hostname] DNS names. [SpecFacts],
    [SpecTheorems] and [SpecAccepted] hold what the others rely on: the validator
    accepts exactly a set of states that is defined without its loops and maps.

    The cluster, [cluster/]: [ClusterTypes] the plan, [ClusterValidate] its
    validator, [PlanJson] its JSON, [Scheduler] the placement ([Place]),
    [ClusterCompile] one state per node ([Compile]), [Rollout] the stages. Facts
    are in [PlanFacts], [PlaceFacts], [RolloutFacts], [RolloutStages] and
    [RolloutCompose].

    The dataplane, [dataplane/]: [FabricCompiler], [NftCompiler] and [TcCompiler]
    are the three compilers, [DataplaneFacts], [NftFacts], [TcFacts] and
    [FabricFacts] relate the programs to the state, and to each other (the marks
    of the table are those of the shaper and of the fabric's rules). [Executors]
    and [FabricExecutor] run the tools of the kernel; with [ExecutorFacts] and
    [ExecutorNft] they say what is done to a machine whatever the tools answer.

    The Agent, [agent/]: [AgentStore] the durable record and its file,
    [Reconciler] the state machine over kernel and store, with [ReconcilerFacts],
    [ReconcilerSafety], [ReconcilerOutcome] and, over the real file store,
    [ReconcilerWorld]; [Health] ([health/engine.go]) the probes, [Meter]
    ([meter/], [usage/]) the counters, [AgentClient] ([agent/controlclient/]) its
    end of the stream, [Maintenance] ([agent/maintenance/]) its upgrade and
    removal.

    The Controller, [controller/]: [ControlDb] the database, [ControlNodes],
    [ControlPublish], [ControlRollout], [ControlStore], [ControlVips],
    [ControlSchedule] and [ControlEnforce] the operations of [controller/store],
    [TargetDns] ([targetdns/]) addresses of host names, [Capabilities] and
    [ControlWire] ([control/protocol.go] and the messages), [ControlCommands] the
    broker, [ControlServer] its end of the stream. [ControlFacts],
    [ControlLedger], [ControlOps] and [ControlHistory] are the invariants of the
    database over every operation; [ControlAcks] what it answers a node;
    [ControlLoop], [ControlUsage] and [ControlSession] both ends together.

    People, [controller/iam], [controller/management]: [Iam] the policy of a
    tenant, [Password] the hashes, [ControlIdentity] accounts and sessions with
    [ControlIdentityFacts] and [ControlExpiry], [ManagementServer] and
    [ManagementForwards] the requests, with [ManagementLimiter],
    [ManagementAccess], [ManagementPlans] and [ManagementTenants].

    Joining, [securechannel/key.go], [controller/enrollment], [agent/enrollment]:
    [Enrollment], with [EnrollmentStore] and [EnrollmentFacts].

    ** How the parts are put together

    State is explicit. A transaction of the store is a function from the database
    to an error or the changed database ([ControlDb.Tx]); a request, an event of
    the stream or a sweep is a function of the state it may change. The
    Reconciler runs over a world it does not see into: kernel and store are
    records of operations ([Reconciler.Env]), and what it relies on of the store is
    a class ([ReconcilerSafety.StoreLaws]) that [ReconcilerWorld] discharges for the file store.
    The executors have the types those records ask for
    ([FabricExecutor.backend]). Machines are step relations with every
    interleaving: the operations of the store ([ControlHistory]), the stream with
    its messages in flight ([ControlLoop]), an enrollment ([EnrollmentFacts]).

    ** What the theorems show

    - Data: validation against a reference definition, canonical forms and
      checksums that agree, exact rules of a tenant's policy.
    - Decisions: a placement is sound, optimal where it chooses and within
      capacity; a compiled state is valid and the sum of its placements; the
      stages of a rollout reach the target and never strand a path.
    - The kernel: the table, the shaper and the fabric do for each forward what
      the state asks; the fabric's executor touches nothing but its own; an
      installed table is recognised.
    - The Agent: its record only moves forward and is written before the kernel;
      success means verified; usage is charged once; an upgrade installs nothing
      but what was released.
    - The stream: no session ends with a loss of data, what is sent is accepted,
      what is reported is recorded; usage older than ten minutes is the exception.
    - The Controller: a gapless immutable history of generations and of plans;
      accounts well formed; requests only for live sessions; a tenant changes
      only its own; logins throttled; an enrollment completes in spite of failures.
    Where the code does not do what it means to, a theorem shows that instead
    ([ControlUsage], [ControlExpiry], [ExecutorFacts.gone_route_not_tolerated]).

    ** Parameters

    What is not code of the repository is an argument: [Idna] with its laws, DNS
    answers, [Argon2], [Noise] with its laws, what the tools of the kernel answer
    ([Runner]), the kernel and the operating system under the Reconciler, what an
    upgrade downloads and unpacks ([Web], [Archive], [UrlParser], [Program]), the
    clock and random bytes. The order in which Go ranges over a map is one too
    ([MapRange], [StateRange], [StringRange], [Iam.exit_first]), known only to be a
    permutation. Every class has an instance, at which
    the witnesses are evaluated.

    ** Fuel

    Recursion that is not structural is bounded by the length of its input: the
    white space of a text ([Hostname.skip_all], [Executors.fields_from]), its
    escapes ([SpecChecksum.escape]) and encodings ([ControlNodes.base64url],
    [ControlIdentity.lower_bytes]) consume at least one byte a step; an IPv6
    address has at most eight groups; the blocks and rounds of SHA-256 are
    counted; the search for a free VIP ([ControlVips.scan_prefix]) has one step
    more than there are addresses in use, and each step but the last meets another
    of them. Loops of the code over slices and maps are structural.

    ** What is not modelled

    The transport (gRPC, HTTP, the Noise handshakes of [securechannel/]), the text
    of JSON that is read back (it is represented by the value it was made from),
    log lines and headers; the SQLite driver, its files and backups
    ([controller/archive], [store/sqlite.go]); pages that only read (usage,
    system, lists of nodes), install commands and the commands that the
    management server sends a node to check a target, to upgrade or to uninstall
    ([management/commands.go], [management/system.go], [management/usage.go]), of
    [controlclient/commands.go] the check and the uninstall after acceptance, and
    [agent/serviceinstall]; creation of the WireGuard key and
    the netlink calls of [dataplane/conntrack]; the flags and wiring of [cmd/] and
    the generated code of [gen/]. They are I/O, or other people's code, around the
    decisions that are modelled. *)
From stdpp Require Export base tactics gmap strings list sorting pretty.
From Stdlib Require Export NArith ZArith Lia.
From Stdlib Require Strings.Ascii.
Export Stdlib.Strings.Ascii (ascii(..)).
Export (notations) Stdlib.Strings.Ascii.

Declare Scope flux_scope.
Delimit Scope flux_scope with flux.
Open Scope flux_scope.

Create HintDb flux.

(** * Issue lists

    Every [Validate] of the program accumulates human-readable issues in a
    slice and fails when the slice is not empty. *)

(** [if cond { issues = append(issues, msg) }] *)
Definition when (b : bool) (msg : string) : list string :=
  if b then [msg] else [].

Lemma when_nil b msg : when b msg = [] ↔ b = false.
Proof. by destruct b. Qed.

Lemma app_nil_iff {A} (l k : list A) : l ++ k = [] ↔ l = [] ∧ k = [].
Proof. destruct l; cbn; intuition congruence. Qed.

(** A [for i, x := range l] loop whose body updates local maps [s] and reports
    issues. *)
Fixpoint vloop {St X : Type} (step : nat → X → St → St * list string)
    (i : nat) (l : list X) (s : St) : St * list string :=
  match l with
  | [] => (s, [])
  | x :: l' =>
      let '(s1, e1) := step i x s in
      let '(s2, e2) := vloop step (1 + i) l' s1 in
      (s2, e1 ++ e2)
  end.

Section vloop.
Context {St X : Type} (step : nat → X → St → St * list string).

Lemma vloop_app i l1 l2 s :
  vloop step i (l1 ++ l2) s =
  let '(s1, e1) := vloop step i l1 s in
  let '(s2, e2) := vloop step (i + length l1) l2 s1 in
  (s2, e1 ++ e2).
Proof.
  revert i s. induction l1 as [|x l1 IH]; intros i s; cbn.
  - rewrite Nat.add_0_r. by destruct (vloop step i l2 s).
  - destruct (step i x s) as [s1 e1].
    specialize (IH (S i) s1). cbn in IH. rewrite IH.
    destruct (vloop step (S i) l1 s1) as [s2 e2].
    replace (i + S (length l1)) with (S (i + length l1)) by lia.
    destruct (vloop step (S (i + length l1)) l2 s2) as [s3 e3].
    by rewrite app_assoc.
Qed.

(** The invariant rule for a loop that reported nothing: [I done s] holds of
    the elements processed so far and of the local state. *)
Lemma vloop_inv (I : list X → St → Prop) l s0 s1 :
  I [] s0 →
  (∀ done x s s', I done s → step (length done) x s = (s', []) →
                  I (done ++ [x]) s') →
  vloop step 0 l s0 = (s1, []) → I l s1.
Proof.
  intros H0 Hstep. revert s1.
  induction l as [|x l IH] using rev_ind; intros s1 Hrun.
  { by injection Hrun as <-. }
  rewrite vloop_app in Hrun. cbn in Hrun.
  destruct (vloop step 0 l s0) as [s e] eqn:E1.
  destruct (step (length l) x s) as [s' e'] eqn:E2.
  injection Hrun as <- He. rewrite app_nil_r in He.
  apply app_nil_iff in He as [-> ->]. eauto.
Qed.

(** The converse rule: a loop whose every step is silent is silent. *)
Lemma vloop_silent (I : list X → St → Prop) l s0 :
  I [] s0 →
  (∀ done x rest s, l = done ++ x :: rest → I done s →
     ∃ s', step (length done) x s = (s', []) ∧ I (done ++ [x]) s') →
  ∃ s1, vloop step 0 l s0 = (s1, []) ∧ I l s1.
Proof.
  intros H0 Hstep.
  enough (∀ done rest, l = done ++ rest →
            ∃ s, vloop step 0 done s0 = (s, []) ∧ I done s) as H.
  { apply (H l []). by rewrite app_nil_r. }
  induction done as [|x done IH] using rev_ind; intros rest Hl.
  { by exists s0. }
  rewrite <-app_assoc in Hl. destruct (IH _ Hl) as (s & Hrun & HI).
  destruct (Hstep done x rest s Hl HI) as (s' & Hs & HI').
  exists s'. split; [|done]. rewrite vloop_app, Hrun. cbn. by rewrite Hs.
Qed.
End vloop.

(** * Loops that stop at the first error *)
Fixpoint eloop {E St X : Type} (step : nat → X → St → E + St) (i : nat) (l : list X) (s : St) :
    E + St :=
  match l with
  | [] => inr s
  | x :: l' =>
      match step i x s with
      | inl e => inl e
      | inr s' => eloop step (S i) l' s'
      end
  end.

Lemma eloop_app {E St X} (step : nat → X → St → E + St) i l1 l2 s :
  eloop step i (l1 ++ l2) s =
  match eloop step i l1 s with inl e => inl e | inr s1 => eloop step (i + length l1) l2 s1 end.
Proof.
  revert i s. induction l1 as [|x l1 IH]; intros i s; cbn.
  - by rewrite Nat.add_0_r.
  - destruct (step i x s); [done|]. rewrite IH. cbn. by rewrite Nat.add_succ_r.
Qed.

(** The invariant rule for a loop that reached its end. *)
Lemma eloop_inv {E St X} (step : nat → X → St → E + St) (I : list X → St → Prop) l s0 s1 :
  I [] s0 →
  (∀ done x s s', done ++ [x] `prefix_of` l → I done s → step (length done) x s = inr s' →
                  I (done ++ [x]) s') →
  eloop step 0 l s0 = inr s1 → I l s1.
Proof.
  intros H0 Hstep. revert s1.
  induction l as [|x l IH] using rev_ind; intros s1 Hrun; [by injection Hrun as <-|].
  rewrite eloop_app in Hrun. destruct (eloop step 0 l s0) as [e|s] eqn:E1; [done|].
  cbn in Hrun. destruct (step (length l) x s) as [e|s'] eqn:E2; [done|]. injection Hrun as <-.
  eapply Hstep; [done| |done]. apply IH; [|done].
  intros done y t t' Hpre. apply Hstep. by apply prefix_app_r.
Qed.

Lemma eloop_ext {E St X} (step step' : nat → X → St → E + St) i l s :
  (∀ i x s, step i x s = step' i x s) → eloop step i l s = eloop step' i l s.
Proof.
  intros H. revert i s. induction l as [|x l IH]; intros i s; cbn; [done|].
  rewrite H. by destruct (step' i x s).
Qed.

(** A loop that only checks has checked every element. *)
Lemma eloop_unit {E X} (step : nat → X → unit → E + unit) i l x :
  eloop step i l tt = inr tt → x ∈ l → ∃ j, step j x tt = inr tt.
Proof.
  revert i. induction l as [|y l IH]; intros i; cbn; [by intros _ ?%elem_of_nil|].
  destruct (step i y tt) as [e|[]] eqn:E0; [done|]. intros Hl [->|Hx]%elem_of_cons; eauto.
Qed.

(** The body of a loop that parses elements and refuses a key seen before. *)
Definition distinct {E X K : Type} `{Countable K} (check : nat → X → E + K) (dup : X → K → E)
    (i : nat) (x : X) (st : gset K * list K) : E + (gset K * list K) :=
  match check i x with
  | inl e => inl e
  | inr k =>
      if bool_decide (k ∈ st.1) then inl (dup x k) else inr ({[k]} ∪ st.1, st.2 ++ [k])
  end.

Lemma distinct_loop {E X K : Type} `{Countable K} (check : nat → X → E + K) dup
    (ok : X → option K) i l seen out seen' out' :
  (∀ i x k, check i x = inr k ↔ ok x = Some k) →
  eloop (distinct check dup) i l (seen, out) = inr (seen', out') ↔
  ∃ ks, mapM ok l = Some ks ∧ NoDup ks ∧ (∀ k, k ∈ ks → k ∉ seen)
        ∧ out' = out ++ ks ∧ seen' = list_to_set ks ∪ seen.
Proof.
  intros Hok. revert i seen out. induction l as [|x l IH]; intros i seen out; cbn.
  { split.
    - intros [= <- <-]. exists []. rewrite app_nil_r.
      split_and!; [done|constructor| |done|set_solver]. by intros ? ?%elem_of_nil.
    - intros (ks & [= <-] & _ & _ & -> & ->). rewrite app_nil_r. do 2 f_equal. set_solver. }
  unfold distinct at 1. destruct (check i x) as [e|k] eqn:E0.
  { split; [done|]. intros (ks & Hm & _). destruct (ok x) as [k|] eqn:Ex; [|done].
    apply (Hok i) in Ex. congruence. }
  apply Hok in E0. rewrite E0. cbn. destruct (bool_decide (k ∈ seen)) eqn:Ek.
  { apply bool_decide_eq_true in Ek. split; [done|]. intros (ks & Hm & _ & Hseen & _).
    destruct (mapM ok l) as [ks'|]; [|done]. injection Hm as <-.
    exfalso. apply (Hseen k); [left|done]. }
  apply bool_decide_eq_false in Ek. rewrite IH. split.
  - intros (ks & Hm & Hnd & Hseen & -> & ->). exists (k :: ks). rewrite Hm. split_and!.
    + done.
    + constructor; [|done]. intros Hk. apply (Hseen k Hk). set_solver.
    + intros k' [->|Hk']%elem_of_cons; [done|]. specialize (Hseen k' Hk'). set_solver.
    + by rewrite <-app_assoc.
    + cbn. set_solver.
  - intros (ks & Hm & Hnd & Hseen & -> & ->). destruct (mapM ok l) as [ks'|]; [|done].
    injection Hm as <-. apply NoDup_cons in Hnd as [Hk Hnd]. exists ks'. split_and!; [done..| | |].
    + intros k' Hk'. apply not_elem_of_union. split; [set_solver|]. apply Hseen. by right.
    + by rewrite <-app_assoc.
    + cbn. set_solver.
Qed.

(** * String order

    Go compares strings bytewise; so does [String.compare]. *)
Definition str_lt (a b : string) : bool := String.ltb a b.

Lemma str_lt_spec a b : str_lt a b = negb (bool_decide (String.le b a)).
Proof.
  unfold str_lt, String.ltb, String.le, String.leb.
  rewrite String.compare_antisym.
  by destruct (String.compare b a).
Qed.

Lemma str_lt_false a b : str_lt a b = false ↔ String.le b a.
Proof. rewrite str_lt_spec, negb_false_iff. apply bool_decide_eq_true. Qed.

(** * Sorting, as [sort.Slice] *)

(** What a [less] callback must satisfy for the sorted order to be meaningful:
    a strict weak order. *)
Class LessOrder {A} (less : A → A → bool) : Prop := {
  less_asym a b : less a b = true → less b a = false;
  less_ntrans a b c : less b a = false → less c b = false → less c a = false;
}.

Section sort_slice.
Context {A : Type} (less : A → A → bool).

Fixpoint insert_sorted (x : A) (l : list A) : list A :=
  match l with
  | [] => [x]
  | y :: l' => if less y x then y :: insert_sorted x l' else x :: l
  end.

(** [sort.Slice] with callback [less]. Elements that [less] does not
    separate keep their relative order, as Go's insertion sort leaves them;
    for longer slices Go does not specify that order, and no theorem relies
    on it. *)
Definition sort_slice (l : list A) : list A := foldr insert_sorted [] l.

Definition not_after (a b : A) : Prop := less b a = false.

Lemma insert_sorted_perm x l : insert_sorted x l ≡ₚ x :: l.
Proof.
  induction l as [|y l IH]; cbn; [done|].
  destruct (less y x); [|done]. rewrite IH. constructor.
Qed.

Lemma sort_slice_perm l : sort_slice l ≡ₚ l.
Proof.
  induction l as [|x l IH]; cbn; [done|].
  by rewrite insert_sorted_perm, IH.
Qed.

Lemma elem_of_sort_slice x l : x ∈ sort_slice l ↔ x ∈ l.
Proof. by rewrite sort_slice_perm. Qed.

Lemma length_sort_slice l : length (sort_slice l) = length l.
Proof. by rewrite sort_slice_perm. Qed.

Context `{!LessOrder less}.

#[local] Instance not_after_trans : Transitive not_after.
Proof. intros a b c. unfold not_after. apply less_ntrans. Qed.

Lemma insert_sorted_sorted x l :
  StronglySorted not_after l → StronglySorted not_after (insert_sorted x l).
Proof.
  induction 1 as [|y l Hl IH Hy]; cbn.
  { repeat constructor. }
  destruct (less y x) eqn:E.
  - constructor; [done|].
    rewrite Forall_forall in Hy |- *. intros z.
    rewrite insert_sorted_perm, elem_of_cons. intros [->|Hz]; [|by apply Hy].
    by apply less_asym.
  - constructor; [by constructor|]. constructor; [done|].
    eapply Forall_impl; [done|]. intros z Hz. by etrans.
Qed.

Lemma sort_slice_sorted l : StronglySorted not_after (sort_slice l).
Proof. induction l; cbn; [constructor|by apply insert_sorted_sorted]. Qed.

Lemma sort_slice_id l : StronglySorted not_after l → sort_slice l = l.
Proof.
  induction 1 as [|y l Hl IH Hy]; [done|].
  change (insert_sorted y (sort_slice l) = y :: l). rewrite IH.
  destruct Hy as [|z l Hz _]; cbn; [done|]. unfold not_after in Hz.
  by rewrite Hz.
Qed.

Lemma sort_slice_idemp l : sort_slice (sort_slice l) = sort_slice l.
Proof. apply sort_slice_id, sort_slice_sorted. Qed.

(** Whatever sorting algorithm is used, the result is the same as soon as the
    keys separate the elements. *)
Lemma sort_slice_unique l1 l2 :
  (∀ x y, x ∈ l1 → y ∈ l1 → not_after x y → not_after y x → x = y) →
  l1 ≡ₚ l2 → sort_slice l1 = sort_slice l2.
Proof.
  intros Hkey Hp.
  apply (StronglySorted_unique_strong not_after).
  - intros x y. rewrite !elem_of_sort_slice. intros Hx Hy.
    apply Hkey; [done|]. by rewrite Hp.
  - apply sort_slice_sorted.
  - apply sort_slice_sorted.
  - by rewrite !sort_slice_perm.
Qed.

Lemma sort_slice_head_least l x k y :
  sort_slice l = x :: k → y ∈ l → less y x = false.
Proof.
  intros Hs Hy. pose proof (sort_slice_sorted l) as Hss.
  rewrite Hs in Hss. inv Hss. rewrite <-elem_of_sort_slice, Hs in Hy.
  apply elem_of_cons in Hy as [->|Hy].
  - destruct (less x x) eqn:E; [|done]. by rewrite (less_asym _ _ E) in E.
  - rewrite Forall_forall in H2. by apply H2.
Qed.

Lemma sort_slice_last_greatest l x y :
  last (sort_slice l) = Some x → y ∈ l → less x y = false.
Proof.
  rewrite last_Some. intros [k Hk] Hy. pose proof (sort_slice_sorted l) as Hss.
  rewrite <-elem_of_sort_slice, Hk in Hy. rewrite Hk in Hss. clear Hk.
  induction k as [|z k IH]; cbn in *.
  - apply list_elem_of_singleton in Hy as ->. destruct (less x x) eqn:E; [|done].
    by rewrite (less_asym _ _ E) in E.
  - inv Hss. apply elem_of_cons in Hy as [->|Hy]; [|by apply IH].
    rewrite Forall_forall in H2. apply H2. apply elem_of_app. right. by left.
Qed.
End sort_slice.

#[export] Instance N_ltb_order : LessOrder N.ltb.
Proof. split; intros *; rewrite ?N.ltb_lt, ?N.ltb_ge; lia. Qed.

Lemma sort_slice_map {A B} (less : A → A → bool) (less' : B → B → bool)
    (f : A → B) l :
  (∀ a b, less' (f a) (f b) = less a b) →
  sort_slice less' (map f l) = map f (sort_slice less l).
Proof.
  intros Hf. induction l as [|x l IH]; [done|].
  change (insert_sorted less' (f x) (sort_slice less' (map f l)) =
          map f (insert_sorted less x (sort_slice less l))).
  rewrite IH. generalize (sort_slice less l) as k. clear IH l.
  induction k as [|y k IH]; cbn; [done|]. rewrite Hf.
  destruct (less y x); cbn; congruence.
Qed.

(** Ordering by a string key: [a.Key < b.Key]. *)
Definition less_by {A} (key : A → string) (a b : A) : bool :=
  str_lt (key a) (key b).

(** Ordering by a first key, then, where it does not separate, by a second:
    [if a.K == b.K { return less2(a, b) }; return less1(a, b)]. *)
Definition less_lex {A} (less1 less2 : A → A → bool) (a b : A) : bool :=
  if negb (less1 a b) && negb (less1 b a) then less2 a b else less1 a b.

#[export] Instance less_by_order {A} (key : A → string) :
  LessOrder (less_by key).
Proof.
  unfold less_by. split; intros *; rewrite ?str_lt_false.
  - rewrite str_lt_spec, negb_true_iff, bool_decide_eq_false.
    intros Hn. destruct (total String.le (key a) (key b)); done.
  - intros ??. by etrans.
Qed.

#[export] Instance less_lex_order {A} (less1 less2 : A → A → bool) :
  LessOrder less1 → LessOrder less2 → LessOrder (less_lex less1 less2).
Proof.
  intros H1 H2. unfold less_lex. split; intros *.
  - pose proof (less_asym (less := less1) a b).
    pose proof (less_asym (less := less2) a b).
    destruct (less1 a b), (less1 b a); naive_solver.
  - pose proof (less_asym (less := less1) c a).
    pose proof (less_asym (less := less1) b a).
    pose proof (less_asym (less := less1) c b).
    pose proof (less_ntrans (less := less1) a b c).
    pose proof (less_ntrans (less := less1) b c a).
    pose proof (less_ntrans (less := less1) c a b).
    pose proof (less_ntrans (less := less1) c b a).
    pose proof (less_ntrans (less := less1) a c b).
    pose proof (less_ntrans (less := less1) b a c).
    pose proof (less_ntrans (less := less2) a b c).
    destruct (less1 b a), (less1 a b), (less1 c b), (less1 b c), (less1 a c),
      (less1 c a); naive_solver.
Qed.

Lemma less_by_antisym {A} (key : A → string) a b :
  not_after (less_by key) a b → not_after (less_by key) b a → key a = key b.
Proof.
  unfold not_after, less_by. rewrite !str_lt_false.
  intros ??. by apply (anti_symm String.le).
Qed.

Lemma less_lex_by_antisym {A} (key1 key2 : A → string) a b :
  not_after (less_lex (less_by key1) (less_by key2)) a b →
  not_after (less_lex (less_by key1) (less_by key2)) b a →
  (key1 a, key2 a) = (key1 b, key2 b).
Proof.
  unfold not_after, less_lex.
  pose proof (less_by_antisym key1 a b) as H1.
  pose proof (less_by_antisym key2 a b) as H2. unfold not_after in *.
  destruct (less_by key1 a b) eqn:E1, (less_by key1 b a) eqn:E2; cbn;
    try done; intros; f_equal; auto.
Qed.

(** * Lists with distinct keys *)
Lemma NoDup_key_inj {A K} (key : A → K) (l : list A) x y :
  NoDup (key <$> l) → x ∈ l → y ∈ l → key x = key y → x = y.
Proof.
  intros Hnd [i Hi]%list_elem_of_lookup [j Hj]%list_elem_of_lookup Heq.
  assert (i = j) as ->; [|congruence].
  apply (NoDup_lookup (key <$> l) i j (key x)); [done|..];
    rewrite list_lookup_fmap, ?Hi, ?Hj; cbn; congruence.
Qed.

(** A slice sorted by keys that are distinct does not depend on the order it
    was collected in. *)
Lemma sort_slice_keyed {A K} (less : A → A → bool) `{!LessOrder less} (key : A → K) l1 l2 :
  (∀ x y, not_after less x y → not_after less y x → key x = key y) →
  NoDup (key <$> l1) → l1 ≡ₚ l2 → sort_slice less l1 = sort_slice less l2.
Proof.
  intros Hkey Hnd Hp. apply sort_slice_unique; [done| |done].
  intros x y Hx Hy ??. eapply NoDup_key_inj; eauto.
Qed.

(** ** Comparators that only behave on the elements at hand *)
Lemma insert_sorted_ext {A} (less less' : A → A → bool) x l :
  (∀ y, y ∈ l → less y x = less' y x) → insert_sorted less x l = insert_sorted less' x l.
Proof.
  induction l as [|y l IH]; intros H; cbn; [done|]. rewrite (H y) by left.
  destruct (less' y x); [|done]. f_equal. apply IH. intros z Hz. apply H. by right.
Qed.

Lemma sort_slice_ext {A} (less less' : A → A → bool) l :
  (∀ x y, x ∈ l → y ∈ l → less x y = less' x y) → sort_slice less l = sort_slice less' l.
Proof.
  induction l as [|x l IH]; intros H; [done|].
  change (insert_sorted less x (sort_slice less l) = insert_sorted less' x (sort_slice less' l)).
  rewrite IH by (intros; apply H; by right). apply insert_sorted_ext.
  intros y Hy. rewrite elem_of_sort_slice in Hy. apply H; [by right|left].
Qed.

(** ** Indexing a slice by a key: [for _, x := range l { m[x.Key] = x }] *)
Definition index_by {A} (key : A → string) (l : list A) : gmap string A :=
  foldl (λ m x, <[key x := x]> m) ∅ l.

Lemma index_by_snoc {A} (key : A → string) l x :
  index_by key (l ++ [x]) = <[key x := x]> (index_by key l).
Proof. unfold index_by. by rewrite foldl_app. Qed.

Lemma index_by_key {A} (key : A → string) l k x :
  index_by key l !! k = Some x → x ∈ l ∧ key x = k.
Proof.
  induction l as [|y l IH] using rev_ind; [done|]. rewrite index_by_snoc.
  destruct (decide (k = key y)) as [->|Hne].
  - rewrite lookup_insert_eq. intros [= ->]. split; [|done].
    apply elem_of_app. right. by apply list_elem_of_singleton.
  - rewrite lookup_insert_ne by done. intros [H ->]%IH. split; [|done].
    apply elem_of_app. by left.
Qed.

Lemma index_by_NoDup {A} (key : A → string) l k x :
  NoDup (key <$> l) → index_by key l !! k = Some x ↔ x ∈ l ∧ key x = k.
Proof.
  intros Hnd. split; [apply index_by_key|]. intros [Hx <-].
  induction l as [|y l IH] using rev_ind; [by apply elem_of_nil in Hx|].
  rewrite fmap_app in Hnd. apply NoDup_app in Hnd as (Hnd & Hnew & _). rewrite index_by_snoc.
  apply elem_of_app in Hx as [Hx|Hx%list_elem_of_singleton].
  - rewrite lookup_insert_ne; [by apply IH|]. intros Heq.
    apply (Hnew (key x)); [by apply list_elem_of_fmap_2|]. rewrite <- Heq.
    by apply list_elem_of_singleton.
  - subst. by rewrite lookup_insert_eq.
Qed.

(** * Taking silent checks apart *)

Lemma when_app_nil b msg l : when b msg ++ l = [] ↔ b = false ∧ l = [].
Proof. by rewrite app_nil_iff, when_nil. Qed.

(** Split a hypothesis that says that no issue was reported. *)
Ltac split_issues H :=
  lazymatch type of H with
  | (_, _) = (_, _) =>
      let H1 := fresh H in let H2 := fresh H in
      injection H as H1 H2; split_issues H2
  | when _ _ = [] => apply when_nil in H
  | _ ++ _ = [] =>
      let H1 := fresh H in let H2 := fresh H in
      apply app_nil_iff in H as [H1 H2]; split_issues H1; split_issues H2
  | _ => idtac
  end.

(** Turn boolean facts into propositions. *)
Ltac reflect_bool :=
  repeat match goal with
  | H : negb _ = true |- _ => apply negb_true_iff in H
  | H : negb _ = false |- _ => apply negb_false_iff in H
  | H : _ && _ = true |- _ => apply andb_true_iff in H as [? ?]
  | H : _ || _ = false |- _ => apply orb_false_iff in H as [? ?]
  | H : bool_decide _ = true |- _ => apply bool_decide_eq_true in H
  | H : bool_decide _ = false |- _ => apply bool_decide_eq_false in H
  | H : N.eqb _ _ = true |- _ => apply N.eqb_eq in H
  | H : N.eqb _ _ = false |- _ => apply N.eqb_neq in H
  | H : N.ltb _ _ = true |- _ => apply N.ltb_lt in H
  | H : N.ltb _ _ = false |- _ => apply N.ltb_ge in H
  | H : N.leb _ _ = true |- _ => apply N.leb_le in H
  | H : N.leb _ _ = false |- _ => apply N.leb_gt in H
  | H : Nat.ltb _ _ = true |- _ => apply Nat.ltb_lt in H
  | H : Nat.ltb _ _ = false |- _ => apply Nat.ltb_ge in H
  | H : Z.ltb _ _ = true |- _ => apply Z.ltb_lt in H
  | H : Z.ltb _ _ = false |- _ => apply Z.ltb_ge in H
  | H : Z.leb _ _ = true |- _ => apply Z.leb_le in H
  | H : Z.leb _ _ = false |- _ => apply Z.leb_gt in H
  end.
