(* ===== verification/GoNet.v ===== *)
(** The part of Go's standard library that the program's decisions depend on:
    fixed-width integers, [net/netip] addresses and prefixes with their parsers
    and printers, [net.SplitHostPort], [strconv.ParseUint],
    [base64.StdEncoding] and [time.Time]. *)
From S2P Require Import Prelude.

Open Scope N_scope.

(** * Machine integers

    Unsigned integers are [N]; the operations that can leave the width wrap. *)
Definition wrap (w n : N) : N := n mod 2 ^ w.
Definition uadd (w a b : N) : N := wrap w (a + b).
Definition usub (w a b : N) : N := wrap w (a + 2 ^ w - wrap w b).

Lemma uadd_small w a b : a + b < 2 ^ w → uadd w a b = a + b.
Proof. intros. unfold uadd, wrap. by rewrite N.mod_small. Qed.

Lemma usub_small w a b : a < 2 ^ w → b ≤ a → usub w a b = a - b.
Proof.
  intros Ha Hb. unfold usub, wrap. rewrite (N.mod_small b) by lia.
  replace (a + 2 ^ w - b) with (a - b + 1 * 2 ^ w) by lia.
  rewrite N.Div0.mod_add. apply N.mod_small. lia.
Qed.

(** * Time

    A [time.Time] is the number of nanoseconds since Go's zero time, so that the
    zero value is [0]; a [time.Duration] is a number of nanoseconds. *)
Definition Time := Z.
Definition Second : Z := 1000000000.
Definition Millisecond : Z := 1000000.
Definition Time_IsZero (t : Time) : bool := Z.eqb t 0.
Definition Time_Before (t u : Time) : bool := Z.ltb t u.
Definition Time_After (t u : Time) : bool := Z.ltb u t.
Definition Time_Add (t : Time) (d : Z) : Time := (t + d)%Z.
(** [Sub] saturates at the limits of a signed 64-bit duration. *)
Definition Time_Sub (t u : Time) : Z :=
  Z.max (- 2 ^ 63) (Z.min (2 ^ 63 - 1) (t - u)).

(** * Bytes and characters *)
Definition byte_in (lo hi : ascii) (c : ascii) : bool :=
  (Strings.Ascii.N_of_ascii lo <=? Strings.Ascii.N_of_ascii c) && (Strings.Ascii.N_of_ascii c <=? Strings.Ascii.N_of_ascii hi).

Definition chars (s : string) : list ascii := String.list_ascii_of_string s.
Definition of_chars (l : list ascii) : string := String.string_of_list_ascii l.

Definition index_byte (c : ascii) (l : list ascii) : option nat :=
  fst <$> list_find (c =.) l.
Definition last_index_byte (c : ascii) (l : list ascii) : option nat :=
  (λ i, (length l - 1 - i)%nat) <$> index_byte c (rev l).

Definition digit_val (c : ascii) : option N :=
  if byte_in "0" "9" c then Some (Strings.Ascii.N_of_ascii c - Strings.Ascii.N_of_ascii "0") else None.

Definition hex_val (c : ascii) : option N :=
  if byte_in "0" "9" c then Some (Strings.Ascii.N_of_ascii c - Strings.Ascii.N_of_ascii "0")
  else if byte_in "a" "f" c then Some (Strings.Ascii.N_of_ascii c - Strings.Ascii.N_of_ascii "a" + 10)
  else if byte_in "A" "F" c then Some (Strings.Ascii.N_of_ascii c - Strings.Ascii.N_of_ascii "A" + 10)
  else None.

Definition hex_digit (n : N) : ascii :=
  if n <? 10 then Strings.Ascii.ascii_of_N (Strings.Ascii.N_of_ascii "0" + n)
  else Strings.Ascii.ascii_of_N (Strings.Ascii.N_of_ascii "a" + (n - 10)).

Fixpoint digits_val (l : list ascii) (acc : N) : option N :=
  match l with
  | [] => Some acc
  | c :: l' => d ← digit_val c; digits_val l' (acc * 10 + d)
  end.

(** [strconv.ParseUint(s, 10, w)] *)
Definition ParseUint (w : N) (s : string) : option N :=
  match chars s with
  | [] => None
  | l => n ← digits_val l 0; if n <? 2 ^ w then Some n else None
  end.

(** Lower-case hexadecimal without leading zeros, as [%x]. *)
Fixpoint hex_fuel (fuel : nat) (n : N) (acc : list ascii) : list ascii :=
  match fuel with
  | O => acc
  | S f =>
      let acc' := hex_digit (n mod 16) :: acc in
      if n / 16 =? 0 then acc' else hex_fuel f (n / 16) acc'
  end.
Definition show_hex (n : N) : string :=
  of_chars (hex_fuel (S (N.to_nat (N.size n))) n []).

(** Decimal, as [%d]. *)
Definition show (n : N) : string := pretty n.
Definition show_nat (n : nat) : string := pretty n.

(** * [netip.Addr] *)
Inductive Addr : Type :=
  | AddrZero                             (** the zero [Addr], not valid *)
  | Addr4 (bits : N)                     (** an IPv4 address, 32 bits *)
  | Addr6 (bits : N) (zone : string).    (** an IPv6 address, 128 bits *)

#[export] Instance Addr_eq_dec : EqDecision Addr.
Proof. solve_decision. Defined.
#[export] Instance Addr_countable : Countable Addr.
Proof.
  refine (inj_countable' (λ a, match a with
    | AddrZero => inl (inl tt) | Addr4 b => inl (inr b)
    | Addr6 b z => inr (b, z) end)
    (λ s, match s with
    | inl (inl _) => AddrZero | inl (inr b) => Addr4 b
    | inr (b, z) => Addr6 b z end) _).
  by intros [].
Defined.

Definition Addr_IsValid (a : Addr) : bool :=
  match a with AddrZero => false | _ => true end.
Definition Addr_Is4 (a : Addr) : bool :=
  match a with Addr4 _ => true | _ => false end.
Definition Addr_Is4In6 (a : Addr) : bool :=
  match a with Addr6 b _ => N.shiftr b 32 =? 0xffff | _ => false end.
Definition Addr_Unmap (a : Addr) : Addr :=
  match a with
  | Addr6 b _ => if Addr_Is4In6 a then Addr4 (b mod 2 ^ 32) else a
  | _ => a
  end.
Definition Addr_IsUnspecified (a : Addr) : bool :=
  match a with
  | AddrZero => false
  | Addr4 b => b =? 0
  | Addr6 b z => (b =? 0) && bool_decide (z = "")
  end.
Definition Addr_IsMulticast (a : Addr) : bool :=
  match Addr_Unmap a with
  | AddrZero => false
  | Addr4 b => N.land (N.shiftr b 24) 0xf0 =? 0xe0
  | Addr6 b _ => N.shiftr b 120 =? 0xff
  end.
Definition Addr_BitLen (a : Addr) : N :=
  match a with AddrZero => 0 | Addr4 _ => 32 | Addr6 _ _ => 128 end.

Lemma Unmap_idemp a : Addr_Unmap (Addr_Unmap a) = Addr_Unmap a.
Proof.
  destruct a as [|b|b z]; cbn; [done..|].
  destruct (N.shiftr b 32 =? 0xffff) eqn:E; cbn; [done|]. by rewrite E.
Qed.

Lemma Unmap_Is4 a : Addr_Is4 a = true → Addr_Unmap a = a.
Proof. by destruct a. Qed.

Lemma Is4In6_Unmap a : Addr_Is4In6 (Addr_Unmap a) = false.
Proof.
  destruct a as [|b|b z]; cbn; [done..|].
  by destruct (N.shiftr b 32 =? 0xffff) eqn:E; cbn.
Qed.

(** [Addr.Less] *)
Definition Addr_Less (a b : Addr) : bool :=
  if Addr_BitLen a <? Addr_BitLen b then true
  else if Addr_BitLen b <? Addr_BitLen a then false
  else match a, b with
       | Addr4 x, Addr4 y => x <? y
       | Addr6 x z, Addr6 y z' =>
           if x <? y then true else if y <? x then false else str_lt z z'
       | _, _ => false
       end.

(** ** Printing *)
Definition show_v4 (b : N) : string :=
  let oct i := show (N.land (N.shiftr b i) 255) in
  (oct 24 +:+ "." +:+ oct 16 +:+ "." +:+ oct 8 +:+ "." +:+ oct 0).

Definition v6_groups (b : N) : list N :=
  (λ i, N.land (N.shiftr b (16 * (7 - i))) 0xffff) <$> [0;1;2;3;4;5;6;7].

Fixpoint zero_run (l : list N) : nat :=
  match l with n :: l' => if n =? 0 then S (zero_run l') else 0 | [] => 0 end.

Definition longest_zero_run (l : list N) : nat * nat :=
  foldl (λ '(start, len) i,
           let n := zero_run (drop i l) in
           if (2 <=? n)%nat && (len <? n)%nat then (i, n) else (start, len))
        (0%nat, 0%nat) (seq 0 8).

Definition show_v6 (b : N) : string :=
  let gs := v6_groups b in
  let '(start, len) := longest_zero_run gs in
  let part l := String.concat ":" (show_hex <$> l) in
  if (len =? 0)%nat then part gs
  else (part (take start gs) +:+ "::" +:+ part (drop (start + len) gs)).

Definition Addr_String (a : Addr) : string :=
  let zone z := (if bool_decide (z = "") then "" else "%" +:+ z) in
  match a with
  | AddrZero => "invalid IP"
  | Addr4 b => show_v4 b
  | Addr6 b z =>
      if Addr_Is4In6 a then ("::ffff:" +:+ show_v4 (b mod 2 ^ 32) +:+ zone z)
      else (show_v6 b +:+ zone z)
  end.

(** ** Parsing *)
Fixpoint parse_v4_fields (l : list ascii) (prev : option ascii) (val dig : N)
    (acc : list N) : option (list N) :=
  match l with
  | [] => if (length acc <? 3)%nat then None else Some (acc ++ [val])
  | c :: l' =>
      match digit_val c with
      | Some d =>
          if (dig =? 1) && (val =? 0) then None
          else if 255 <? val * 10 + d then None
          else parse_v4_fields l' (Some c) (val * 10 + d) (dig + 1) acc
      | None =>
          if negb (bool_decide (c = "."%char)) then None
          else if bool_decide (prev = None) || bool_decide (l' = [])
                  || bool_decide (prev = Some "."%char) then None
          else if (length acc =? 3)%nat then None
          else parse_v4_fields l' (Some c) 0 0 (acc ++ [val])
      end
  end.

Definition be_bytes (width : N) (l : list N) : N :=
  foldl (λ acc x, acc * 2 ^ width + x) 0 l.

Definition parse_v4 (l : list ascii) : option Addr :=
  fs ← parse_v4_fields l None 0 0 []; Some (Addr4 (be_bytes 8 fs)).

(** The hexadecimal digits a group starts with: their number, their value and
    the rest; [None] for more than four digits. *)
Fixpoint hex_group (l : list ascii) (off acc : N) : option (N * N * list ascii) :=
  match l with
  | c :: l' =>
      match hex_val c with
      | Some d => if 3 <? off then None else hex_group l' (off + 1) (acc * 16 + d)
      | None => Some (off, acc, l)
      end
  | [] => Some (off, acc, [])
  end.

Record v6_parse := V6Parse { v6_out : list N; v6_ellipsis : option nat; v6_rest : list ascii }.

(** The group loop of [netip.parseIPv6]; eight rounds fill an address. *)
Fixpoint parse_v6_loop (fuel : nat) (st : v6_parse) : option v6_parse :=
  match fuel with
  | O => Some st
  | S fuel' =>
      let '(V6Parse out ell s) := st in
      '(off, acc, rest) ← hex_group s 0 0;
      if off =? 0 then None
      else if bool_decide (head rest = Some "."%char) then
        if bool_decide (ell = None) && negb (length out =? 6)%nat then None
        else if (6 <? length out)%nat then None
        else fs ← parse_v4_fields s None 0 0 [];
             let n := be_bytes 8 fs in
             Some (V6Parse (out ++ [n / 2 ^ 16; n mod 2 ^ 16]) ell [])
      else
        let out' := out ++ [acc] in
        match rest with
        | [] => Some (V6Parse out' ell [])
        | c :: rest' =>
            if negb (bool_decide (c = ":"%char)) then None
            else match rest' with
                 | [] => None
                 | c2 :: rest'' =>
                     if bool_decide (c2 = ":"%char) then
                       if bool_decide (ell = None) then
                         match rest'' with
                         | [] => Some (V6Parse out' (Some (length out')) [])
                         | _ => parse_v6_loop fuel'
                                  (V6Parse out' (Some (length out')) rest'')
                         end
                       else None
                     else parse_v6_loop fuel' (V6Parse out' ell rest')
                 end
        end
  end.

Definition parse_v6 (l : list ascii) : option Addr :=
  '(s, zone) ← match index_byte "%" l with
               | None => Some (l, [])
               | Some i => match drop (S i) l with
                           | [] => None
                           | z => Some (take i l, z)
                           end
               end;
  let zone := of_chars zone in
  let lead := match s with ":"%char :: ":"%char :: _ => true | _ => false end in
  let s' := if lead then drop 2 s else s in
  if lead && bool_decide (s' = []) then Some (Addr6 0 zone)
  else
    '(V6Parse out ell rest) ←
      parse_v6_loop 8 (V6Parse [] (if lead then Some 0%nat else None) s');
    if negb (bool_decide (rest = [])) then None
    else if (length out <? 8)%nat then
      e ← ell;
      let pad := repeat 0 (8 - length out) in
      Some (Addr6 (be_bytes 16 (take e out ++ pad ++ drop e out)) zone)
    else if bool_decide (ell = None) then Some (Addr6 (be_bytes 16 out) zone)
    else None.

(** [netip.ParseAddr] *)
Definition ParseAddr (s : string) : option Addr :=
  let l := chars s in
  match list_find (λ c, c ∈ ["."; ":"; "%"]%char) l with
  | Some (_, "."%char) => parse_v4 l
  | Some (_, ":"%char) => parse_v6 l
  | _ => None
  end.

(** * [netip.Prefix] *)
Record Prefix : Type := MkPrefix {
  p_addr : Addr;
  p_bits : Z;          (** [-1] for a prefix that is not valid *)
}.
#[export] Instance Prefix_eq_dec : EqDecision Prefix.
Proof. solve_decision. Defined.

Definition PrefixZero : Prefix := MkPrefix AddrZero (-1).

Definition Addr_WithoutZone (a : Addr) : Addr :=
  match a with Addr6 b _ => Addr6 b "" | _ => a end.

Definition PrefixFrom (a : Addr) (bits : Z) : Prefix :=
  if Addr_IsValid a && (0 <=? bits)%Z && (bits <=? Z.of_N (Addr_BitLen a))%Z
  then MkPrefix (Addr_WithoutZone a) bits
  else MkPrefix (Addr_WithoutZone a) (-1).

Definition Prefix_IsValid (p : Prefix) : bool := (0 <=? p_bits p)%Z.

(** Keep the [k] high bits of a [w]-bit address. *)
Definition mask_bits (w k b : N) : N := N.shiftl (N.shiftr b (w - k)) (w - k).

Definition Prefix_Masked (p : Prefix) : Prefix :=
  if Prefix_IsValid p then
    match p_addr p with
    | AddrZero => PrefixZero
    | Addr4 b => MkPrefix (Addr4 (mask_bits 32 (Z.to_N (p_bits p)) b)) (p_bits p)
    | Addr6 b _ => MkPrefix (Addr6 (mask_bits 128 (Z.to_N (p_bits p)) b) "") (p_bits p)
    end
  else PrefixZero.

Definition Prefix_Contains (p : Prefix) (a : Addr) : bool :=
  Prefix_IsValid p &&
  match p_addr p, a with
  | Addr4 x, Addr4 y =>
      mask_bits 32 (Z.to_N (p_bits p)) x =? mask_bits 32 (Z.to_N (p_bits p)) y
  | Addr6 x _, Addr6 y z =>
      bool_decide (z = "") &&
      (mask_bits 128 (Z.to_N (p_bits p)) x =? mask_bits 128 (Z.to_N (p_bits p)) y)
  | _, _ => false
  end.

Definition Prefix_String (p : Prefix) : string :=
  if Prefix_IsValid p
  then (Addr_String (p_addr p) +:+ "/" +:+ show (Z.to_N (p_bits p)))
  else "invalid Prefix".

(** [netip.ParsePrefix] *)
Definition ParsePrefix (s : string) : option Prefix :=
  let l := chars s in
  i ← last_index_byte "/" l;
  a ← ParseAddr (of_chars (take i l));
  let bs := drop (S i) l in
  let zoned := match a with Addr6 _ z => negb (bool_decide (z = "")) | _ => false end in
  if zoned then None
  else if (1 <? length bs)%nat && negb (match bs with c :: _ => byte_in "1" "9" c | _ => false end)
  then None
  else n ← ParseUint 63 (of_chars bs);
       if Addr_BitLen a <? n then None else Some (PrefixFrom a (Z.of_N n)).

(** * [net.SplitHostPort] *)
Definition SplitHostPort (hostport : string) : option (string * string) :=
  let l := chars hostport in
  i ← last_index_byte ":" l;
  '(host, j, k) ←
    (if bool_decide (head l = Some "["%char) then
       e ← index_byte "]" l;
       if (S e =? i)%nat then Some (take (e - 1) (drop 1 l), 1%nat, S e) else None
     else
       let host := take i l in
       if bool_decide (index_byte ":" host = None) then Some (host, 0%nat, 0%nat)
       else None);
  if negb (bool_decide (index_byte "[" (drop j l) = None)) then None
  else if negb (bool_decide (index_byte "]" (drop k l) = None)) then None
  else Some (of_chars host, of_chars (drop (S i) l)).

(** * [base64.StdEncoding.DecodeString]: carriage returns and newlines are
    skipped and padding is required. *)
Definition b64_val (c : ascii) : option N :=
  let n := Strings.Ascii.N_of_ascii c in
  if byte_in "A" "Z" c then Some (n - 65)
  else if byte_in "a" "z" c then Some (n - 97 + 26)
  else if byte_in "0" "9" c then Some (n - 48 + 52)
  else if bool_decide (c = "+"%char) then Some 62
  else if bool_decide (c = "/"%char) then Some 63
  else None.

Fixpoint b64_decode (l : list ascii) : option (list N) :=
  match l with
  | [] => Some []
  | a :: b :: "="%char :: "="%char :: [] =>
      x ← b64_val a; y ← b64_val b; Some [x * 4 + y / 16]
  | a :: b :: c :: "="%char :: [] =>
      x ← b64_val a; y ← b64_val b; z ← b64_val c;
      Some [x * 4 + y / 16; (y mod 16) * 16 + z / 4]
  | a :: b :: c :: d :: l' =>
      x ← b64_val a; y ← b64_val b; z ← b64_val c; t ← b64_val d;
      rest ← b64_decode l';
      Some (x * 4 + y / 16 :: (y mod 16) * 16 + z / 4 :: (z mod 4) * 64 + t :: rest)
  | _ => None
  end.

Definition Base64Decode (s : string) : option (list N) :=
  b64_decode (filter (λ c, c ∉ [Strings.Ascii.ascii_of_N 10; Strings.Ascii.ascii_of_N 13]) (chars s)).

(** * Printing and parsing IPv4 round-trip *)
Lemma chars_app s t : chars (s +:+ t) = chars s ++ chars t.
Proof.
  unfold chars. induction s as [|c s IH]; [done|].
  change (String.String c s +:+ t) with (String.String c (s +:+ t)). cbn. by rewrite IH.
Qed.

Lemma of_chars_chars s : of_chars (chars s) = s.
Proof. apply Strings.String.string_of_list_ascii_of_string. Qed.

Definition octets : list N := N.of_nat <$> seq 0 256.

Lemma octet_in o : o < 256 → o ∈ octets.
Proof.
  intros Ho. apply list_elem_of_fmap. exists (N.to_nat o). split; [lia|].
  apply elem_of_seq. lia.
Qed.

(** What the digits at the head of a field do to the parser's accumulators. *)
Fixpoint digits_run (l : list ascii) (val dig : N) : option (N * N) :=
  match l with
  | [] => Some (val, dig)
  | c :: l' =>
      d ← digit_val c;
      if (dig =? 1) && (val =? 0) then None
      else if 255 <? val * 10 + d then None
      else digits_run l' (val * 10 + d) (dig + 1)
  end.

Lemma digits_run_parse ds l prev val dig v d acc :
  digits_run ds val dig = Some (v, d) →
  parse_v4_fields (ds ++ l) prev val dig acc
  = parse_v4_fields l (match last ds with Some c => Some c | None => prev end) v d acc.
Proof.
  revert prev val dig. induction ds as [|c ds IH]; intros prev val dig; cbn.
  { by intros [= <- <-]. }
  destruct (digit_val c) as [x|]; cbn; [|done].
  destruct (_ && _); [done|]. destruct (255 <? _); [done|].
  intros H. rewrite (IH _ _ _ H). rewrite last_cons.
  by destruct (last ds).
Qed.

Definition octet_ok (o : N) : bool :=
  match digits_run (chars (show o)) 0 0, last (chars (show o)) with
  | Some (v, _), Some c =>
      (v =? o) && negb (bool_decide (c = "."%char))
      && forallb (byte_in "0" "9") (chars (show o))
  | _, _ => false
  end.

Lemma octets_ok : forallb octet_ok octets = true.
Proof. vm_compute. done. Qed.

Lemma octet_is_ok o : o < 256 → octet_ok o = true.
Proof.
  intros Ho. pose proof octets_ok as Hall. rewrite forallb_forall in Hall.
  apply Hall, list_elem_of_In, octet_in, Ho.
Qed.

(** The characters of an octet, read in front of anything. *)
Lemma octet_parse o prev acc :
  o < 256 →
  ∃ c dig, c ≠ "."%char ∧
    ∀ l, parse_v4_fields (chars (show o) ++ l) prev 0 0 acc
         = parse_v4_fields l (Some c) o dig acc.
Proof.
  intros Ho. pose proof (octet_is_ok o Ho) as Hall. unfold octet_ok in Hall.
  destruct (digits_run (chars (show o)) 0 0) as [[v d]|] eqn:E; [|done].
  destruct (last (chars (show o))) as [c|] eqn:Hc; [|done].
  apply andb_true_iff in Hall as [Hall _].
  apply andb_true_iff in Hall as [->%N.eqb_eq Hd%negb_true_iff%bool_decide_eq_false].
  exists c, d. split; [done|]. intros l.
  by rewrite (digits_run_parse _ _ _ _ _ _ _ _ E), Hc.
Qed.

Lemma octet_dot_parse o prev acc l :
  o < 256 → l ≠ [] → (length acc < 3)%nat →
  parse_v4_fields (chars (show o) ++ "."%char :: l) prev 0 0 acc
  = parse_v4_fields l (Some "."%char) 0 0 (acc ++ [o]).
Proof.
  intros Ho Hl Ha. destruct (octet_parse o prev acc Ho) as (c & dig & Hc & ->).
  cbn -[bool_decide length app]. rewrite bool_decide_eq_true_2 by done. cbn -[bool_decide length app].
  rewrite (bool_decide_eq_false_2 (Some c = None)) by done.
  rewrite (bool_decide_eq_false_2 (l = [])) by done.
  rewrite (bool_decide_eq_false_2 (Some c = Some "."%char)) by congruence. cbn -[app].
  destruct (length acc) as [|[|[|n]]]; [done..|lia].
Qed.

Lemma parse_show_v4 b : b < 2 ^ 32 → parse_v4 (chars (show_v4 b)) = Some (Addr4 b).
Proof.
  intros Hb. unfold parse_v4, show_v4.
  assert (∀ i, N.land (N.shiftr b i) 255 < 256) as Ho.
  { intros i. change 255 with (N.ones 8). rewrite N.land_ones. by apply N.mod_lt. }
  assert (∀ o s, chars (show o +:+ "." +:+ s) = chars (show o) ++ "."%char :: chars s) as E.
  { intros o s. rewrite !chars_app. done. }
  rewrite !E.
  assert (∀ o, o < 256 → chars (show o) ≠ []) as Hne.
  { intros o Hlt Hn. pose proof (octet_is_ok o Hlt) as Hok.
    unfold octet_ok in Hok. rewrite Hn in Hok. done. }
  assert (∀ o l, o < 256 → chars (show o) ++ l ≠ []) as Hne'.
  { intros o l Hlt [Hn _]%app_nil_iff. by apply (Hne o). }
  do 2 (rewrite octet_dot_parse; [|apply Ho|by apply Hne'|cbn; lia]).
  rewrite octet_dot_parse; [|apply Ho|by apply Hne|cbn; lia].
  destruct (octet_parse (N.land (N.shiftr b 0) 255) (Some "."%char)
    ((([] ++ [N.land (N.shiftr b 24) 255]) ++ [N.land (N.shiftr b 16) 255])
       ++ [N.land (N.shiftr b 8) 255]) (Ho 0)) as (c & dig & _ & H).
  specialize (H []). rewrite app_nil_r in H. rewrite H. cbn.
  f_equal. f_equal. change 255 with (N.ones 8). rewrite !N.land_ones, !N.shiftr_div_pow2.
  change (2 ^ 8) with 256. change (2 ^ 24) with 16777216. change (2 ^ 16) with 65536.
  change (2 ^ 0) with 1. change (2 ^ 32) with 4294967296 in Hb. zify. Z.to_euclidean_division_equations. lia.
Qed.

Lemma show_v4_inj a b : a < 2 ^ 32 → b < 2 ^ 32 → show_v4 a = show_v4 b → a = b.
Proof.
  intros Ha Hb H. apply parse_show_v4 in Ha, Hb. rewrite H in Ha. congruence.
Qed.

Lemma slash_notin_show o : o < 256 → "/"%char ∉ chars (show o).
Proof.
  intros Ho Hin. pose proof (octet_is_ok o Ho) as Hok. unfold octet_ok in Hok.
  destruct (digits_run _ _ _) as [[v d]|]; [|done]. destruct (last _); [|done].
  apply andb_true_iff in Hok as [_ Hok]. rewrite forallb_forall in Hok.
  apply list_elem_of_In, Hok in Hin. done.
Qed.

Lemma slash_notin_show_v4 b : "/"%char ∉ chars (show_v4 b).
Proof.
  assert (∀ i, N.land (N.shiftr b i) 255 < 256) as Ho.
  { intros i. change 255 with (N.ones 8). rewrite N.land_ones. by apply N.mod_lt. }
  unfold show_v4. rewrite !chars_app, !elem_of_app.
  pose proof (slash_notin_show _ (Ho 24)). pose proof (slash_notin_show _ (Ho 16)).
  pose proof (slash_notin_show _ (Ho 8)). pose proof (slash_notin_show _ (Ho 0)).
  assert ("/"%char ∉ chars ".") by (apply (bool_decide_unpack _); done).
  tauto.
Qed.

Lemma app_cons_inj {A} (a : A) l1 r1 l2 r2 :
  a ∉ l1 → a ∉ l2 → l1 ++ a :: r1 = l2 ++ a :: r2 → l1 = l2 ∧ r1 = r2.
Proof.
  revert l2. induction l1 as [|x l1 IH]; intros [|y l2] H1 H2; cbn.
  - by intros [= ->].
  - intros [= ? ?]; subst. set_solver.
  - intros [= ? ?]; subst. set_solver.
  - intros H. injection H as -> H. apply IH in H as [-> ->]; set_solver.
Qed.

Lemma chars_inj s t : chars s = chars t → s = t.
Proof. intros H. rewrite <-(of_chars_chars s), H. apply of_chars_chars. Qed.

(** Fields joined with a slash are determined by the joint string. *)
Lemma slash_inj s1 t1 s2 t2 :
  "/"%char ∉ chars s1 → "/"%char ∉ chars s2 →
  s1 +:+ "/" +:+ t1 = s2 +:+ "/" +:+ t2 → s1 = s2 ∧ t1 = t2.
Proof.
  intros H1 H2 H%(f_equal chars). rewrite !chars_app in H.
  apply app_cons_inj in H as [Ha Hb]; [|done..].
  split; by apply chars_inj.
Qed.

(** The prefixes a validated state carries: IPv4, with all bits in range. *)
Definition prefix_v4 (p : Prefix) : Prop :=
  ∃ x k, p = MkPrefix (Addr4 x) (Z.of_N k) ∧ x < 2 ^ 32 ∧ k ≤ 32.

Lemma Prefix_String_inj p q :
  prefix_v4 p → prefix_v4 q → Prefix_String p = Prefix_String q → p = q.
Proof.
  intros (x & k & -> & Hx & Hk) (y & j & -> & Hy & Hj).
  unfold Prefix_String, Prefix_IsValid; cbn -[show]. rewrite !N2Z.id.
  rewrite !(proj2 (Z.leb_le _ _)) by lia.
  intros [Hs Hs']%slash_inj; try apply slash_notin_show_v4.
  apply show_v4_inj in Hs as ->; [|done..].
  unfold show in Hs'. apply (inj pretty) in Hs' as ->. done.
Qed.
