(* ===== verification/GoCrypto.v ===== *)
(** The two primitives of Go's [crypto] tree the program's decisions depend on:
    SHA-256 (checksums, canary selection, counter names) and X25519 (rejection
    of low-order WireGuard keys), both executable. *)
From S2P Require Import Prelude GoNet.

(** * SHA-256 (FIPS 180-4) *)
Module SHA256.
(** 32-bit words; wrapping around is masking. *)
Definition mask32 : N := 0xffffffff.
Definition add32 (a b : N) : N := N.land (a + b) mask32.
Definition rotr (n x : N) : N :=
  N.lor (N.shiftr x n) (N.land (N.shiftl x (32 - n)) mask32).
Definition not32 (x : N) : N := N.lxor x mask32.
Definition ch (x y z : N) : N := N.lxor (N.land x y) (N.land (not32 x) z).
Definition maj (x y z : N) : N :=
  N.lxor (N.lxor (N.land x y) (N.land x z)) (N.land y z).
Definition bsig0 (x : N) : N := N.lxor (N.lxor (rotr 2 x) (rotr 13 x)) (rotr 22 x).
Definition bsig1 (x : N) : N := N.lxor (N.lxor (rotr 6 x) (rotr 11 x)) (rotr 25 x).
Definition ssig0 (x : N) : N := N.lxor (N.lxor (rotr 7 x) (rotr 18 x)) (N.shiftr x 3).
Definition ssig1 (x : N) : N := N.lxor (N.lxor (rotr 17 x) (rotr 19 x)) (N.shiftr x 10).

(** The constants are the fractional parts, to 32 bits, of the square roots of
    the first 8 primes and of the cube roots of the first 64. *)
Definition is_prime (n : N) : bool :=
  forallb (λ d, negb (n mod N.of_nat d =? 0)) (seq 2 (N.to_nat n - 2)).

Definition primes : list N :=
  Eval vm_compute in filter (λ n, is_prime n) (map N.of_nat (seq 2 310)).

(** Integer cube root below [2 ^ bits], from its most significant bit. *)
Fixpoint cube_root (bits : nat) (acc n : N) : N :=
  match bits with
  | O => acc
  | S k =>
      let next := acc + 2 ^ N.of_nat k in
      cube_root k (if next * next * next <=? n then next else acc) n
  end.

Definition K : list N :=
  Eval vm_compute in map (λ p, cube_root 36 0 (p * 2 ^ 96) mod 2 ^ 32) primes.

Record regs := Regs { ra : N; rb : N; rc : N; rd : N; re : N; rf : N; rg : N; rh : N }.

Definition initial (i : nat) : N := N.sqrt (nth i primes 0 * 2 ^ 64) mod 2 ^ 32.

Definition H0 : regs :=
  Eval vm_compute in
  Regs (initial 0) (initial 1) (initial 2) (initial 3)
       (initial 4) (initial 5) (initial 6) (initial 7).

(** The message schedule, kept most recent word first. *)
Fixpoint schedule (fuel : nat) (w : list N) : list N :=
  match fuel with
  | O => w
  | S f =>
      let at_ i := nth (i - 1) w 0 in
      schedule f
        (add32 (add32 (ssig1 (at_ 2%nat)) (at_ 7%nat))
               (add32 (ssig0 (at_ 15%nat)) (at_ 16%nat)) :: w)
  end.

Definition round (r : regs) (kw : N * N) : regs :=
  let '(Regs a b c d e f g h) := r in
  let t1 := add32 (add32 (add32 h (bsig1 e)) (add32 (ch e f g) kw.1)) kw.2 in
  let t2 := add32 (bsig0 a) (maj a b c) in
  Regs (add32 t1 t2) a b c (add32 d t1) e f g.

Definition compress (r : regs) (block : list N) : regs :=
  let w := rev (schedule 48 (rev block)) in
  let r' := foldl round r (combine K w) in
  Regs (add32 (ra r) (ra r')) (add32 (rb r) (rb r')) (add32 (rc r) (rc r'))
       (add32 (rd r) (rd r')) (add32 (re r) (re r')) (add32 (rf r) (rf r'))
       (add32 (rg r) (rg r')) (add32 (rh r) (rh r')).

Fixpoint words (l : list N) : list N :=
  match l with
  | a :: b :: c :: d :: l' => be_bytes 8 [a; b; c; d] :: words l'
  | _ => []
  end.

Fixpoint blocks (fuel : nat) (l : list N) (r : regs) : regs :=
  match fuel with
  | O => r
  | S f => match l with
           | [] => r
           | _ => blocks f (drop 16 l) (compress r (take 16 l))
           end
  end.

Definition be_split (bytes : nat) (n : N) : list N :=
  (λ i, N.land (N.shiftr n (8 * N.of_nat i)) 255) <$> rev (seq 0 bytes).

Definition pad (l : list N) : list N :=
  let len := length l in
  let zeros := ((119 - len mod 64) mod 64)%nat in
  l ++ 128 :: repeat 0 zeros ++ be_split 8 (8 * N.of_nat len).

(** [sha256.Sum256]: 32 bytes. *)
Definition Sum256 (l : list N) : list N :=
  let ws := words (pad l) in
  let '(Regs a b c d e f g h) := blocks (length ws) ws H0 in
  mbind (be_split 4) [a; b; c; d; e; f; g; h].
End SHA256.

Definition bytes_of (s : string) : list N := Strings.Ascii.N_of_ascii <$> chars s.

(** [hex.EncodeToString] *)
Definition hex_encode (l : list N) : string :=
  of_chars (mbind (λ b, [hex_digit (b / 16); hex_digit (b mod 16)]) l).

(** [hex.EncodeToString(sha256.Sum256([]byte(s))[:])] *)
Definition sha256_hex (s : string) : string := hex_encode (SHA256.Sum256 (bytes_of s)).

Example sha256_abc :
  sha256_hex "abc" =
  "ba7816bf8f01cfea414140de5dae2223b00361a396177a9cb410ff61f20015ad".
Proof. vm_compute. done. Qed.

Example sha256_two_blocks :
  sha256_hex "abcdbcdecdefdefgefghfghighijhijkijkljklmklmnlmnomnopnopq" =
  "248d6a61d20638b8e5c026930c3e6039a33ce45964ff2167f6ecedd419db06c1".
Proof. vm_compute. done. Qed.

(** ** Every digest prints as 64 lower-case hexadecimal digits *)
Definition lower_hex (c : ascii) : bool := byte_in "0" "9" c || byte_in "a" "f" c.

Lemma hex_digit_lower n : n < 16 → lower_hex (hex_digit n) = true.
Proof.
  intros Hn.
  assert (n ∈ N.of_nat <$> seq 0 16) as Hin.
  { apply list_elem_of_fmap. exists (N.to_nat n). split; [lia|]. apply elem_of_seq. lia. }
  revert n Hn Hin. cbn. intros n _.
  rewrite !elem_of_cons, elem_of_nil. intuition subst; done.
Qed.

Lemma length_be_split k n : length (SHA256.be_split k n) = k.
Proof. unfold SHA256.be_split. by rewrite length_fmap, length_rev, length_seq. Qed.

Lemma be_split_bytes k n b : b ∈ SHA256.be_split k n → b < 256.
Proof.
  intros (i & -> & _)%list_elem_of_fmap. change 255 with (N.ones 8).
  rewrite N.land_ones. by apply N.mod_lt.
Qed.

Lemma Sum256_bytes l : length (SHA256.Sum256 l) = 32%nat ∧ Forall (λ b, b < 256) (SHA256.Sum256 l).
Proof.
  unfold SHA256.Sum256. destruct (SHA256.blocks _ _ _). split.
  - cbn -[SHA256.be_split]. rewrite !length_app, !length_be_split. done.
  - apply Forall_forall. intros b. rewrite list_elem_of_bind.
    intros (w & Hb & _). by eapply be_split_bytes.
Qed.

Lemma chars_of_chars l : chars (of_chars l) = l.
Proof. apply Strings.String.list_ascii_of_string_of_list_ascii. Qed.

Lemma hex_encode_spec l :
  Forall (λ b, b < 256) l →
  length (chars (hex_encode l)) = (2 * length l)%nat
  ∧ forallb lower_hex (chars (hex_encode l)) = true.
Proof.
  unfold hex_encode. rewrite chars_of_chars.
  induction 1 as [|b l Hb _ [IHl IHf]]; [done|]. cbn -[hex_digit lower_hex].
  cbn in IHl. rewrite IHl. split; [lia|].
  rewrite !hex_digit_lower; [done|by apply N.mod_lt|].
  apply N.Div0.div_lt_upper_bound. lia.
Qed.

Lemma sha256_hex_spec s :
  length (chars (sha256_hex s)) = 64%nat
  ∧ forallb lower_hex (chars (sha256_hex s)) = true.
Proof.
  destruct (Sum256_bytes (bytes_of s)) as [Hl Hb].
  destruct (hex_encode_spec _ Hb) as [H1 H2]. rewrite Hl in H1. done.
Qed.

(** * X25519 (RFC 7748) *)
Module X25519.
Open Scope Z_scope.
Definition p : Z := 2 ^ 255 - 19.
(** [2^255 = 19] modulo [p], so that a fold of the high bits reduces. *)
Definition fold (a : Z) : Z := Z.land a (2 ^ 255 - 1) + 19 * Z.shiftr a 255.
Definition reduce (a : Z) : Z :=
  let r := fold (fold a) in
  let r := if p <=? r then r - p else r in
  if p <=? r then r - p else r.
Definition fmul (a b : Z) : Z := reduce (a * b).
Definition fadd (a b : Z) : Z := reduce (a + b).
Definition fsub (a b : Z) : Z := reduce (a + p - b).

Fixpoint fpow (a : Z) (n : positive) : Z :=
  match n with
  | xH => a
  | xO m => let h := fpow a m in fmul h h
  | xI m => let h := fpow a m in fmul a (fmul h h)
  end.

Definition le_decode (l : list N) : Z :=
  foldr (λ b acc, Z.of_N b + 256 * acc) 0 l.

(** One step of the Montgomery ladder for the bit [t] of the scalar. *)
Definition ladder_step (x1 k : Z) (st : Z * Z * Z * Z) (t : Z) : Z * Z * Z * Z :=
  let '(x2, z2, x3, z3) := st in
  let bit := Z.testbit k t in
  let '(x2, z2, x3, z3) := if bit then (x3, z3, x2, z2) else (x2, z2, x3, z3) in
  let a := fadd x2 z2 in let aa := fmul a a in
  let b := fsub x2 z2 in let bb := fmul b b in
  let e := fsub aa bb in
  let c := fadd x3 z3 in let d := fsub x3 z3 in
  let da := fmul d a in let cb := fmul c b in
  let x3 := fmul (fadd da cb) (fadd da cb) in
  let z3 := fmul x1 (fmul (fsub da cb) (fsub da cb)) in
  let x2 := fmul aa bb in
  let z2 := fmul e (fadd aa (fmul 121665 e)) in
  if bit then (x3, z3, x2, z2) else (x2, z2, x3, z3).

Definition clamp (k : Z) : Z :=
  Z.lor (Z.land k (2 ^ 254 - 8)) (2 ^ 254).

(** The shared u-coordinate of a scalar and a public key. *)
Definition shared (scalar public : list N) : Z :=
  let k := clamp (le_decode scalar) in
  let x1 := Z.land (le_decode public) (2 ^ 255 - 1) mod p in
  let '(x2, z2, _, _) :=
    foldl (ladder_step x1 k) (1, 0, x1, 1) (Z.of_nat <$> rev (seq 0 255)) in
  fmul x2 (fpow z2 (Z.to_pos (p - 2))).

Lemma fold_eq a : fold a = a - p * (a / 2 ^ 255).
Proof.
  unfold fold, p. rewrite Z.shiftr_div_pow2 by lia.
  replace (2 ^ 255 - 1) with (Z.ones 255) by done. rewrite Z.land_ones by lia.
  rewrite (Z.mod_eq a (2 ^ 255)) by lia. lia.
Qed.

(** The folding reduction computes the residue of every product of residues. *)
Lemma reduce_spec a : 0 ≤ a < 2 ^ 510 → reduce a = a mod p.
Proof.
  intros Ha. pose proof (fold_eq a) as H1. pose proof (fold_eq (fold a)) as H2.
  assert (0 ≤ a / 2 ^ 255 < 2 ^ 255) as Hq.
  { split; [apply Z.div_pos; lia|]. apply Z.div_lt_upper_bound; [lia|].
    change (2 ^ 255 * 2 ^ 255) with (2 ^ 510). lia. }
  pose proof (Z.mod_pos_bound a (2 ^ 255) ltac:(done)) as Hm.
  rewrite Z.mod_eq in Hm by done.
  assert (0 ≤ fold a < 20 * 2 ^ 255) as Hf by (unfold p in H1; lia).
  assert (0 ≤ fold a / 2 ^ 255 < 20) as Hq2.
  { split; [apply Z.div_pos; lia|]. apply Z.div_lt_upper_bound; lia. }
  pose proof (Z.mod_pos_bound (fold a) (2 ^ 255) ltac:(done)) as Hm2.
  rewrite Z.mod_eq in Hm2 by done.
  assert (0 ≤ fold (fold a) < 2 ^ 255 + 380) as Hff by (unfold p in H2; lia).
  set (q := a / 2 ^ 255) in *. set (q2 := fold a / 2 ^ 255) in *.
  unfold reduce. change (2 ^ 255) with (p + 19) in Hff.
  assert (p = 2 ^ 255 - 19) as Hp by done.
  destruct (p <=? fold (fold a)) eqn:E1; [apply Z.leb_le in E1|apply Z.leb_gt in E1].
  - rewrite (proj2 (Z.leb_gt _ _)) by lia.
    apply (Z.mod_unique_pos a p (q + q2 + 1)); lia.
  - rewrite (proj2 (Z.leb_gt _ _)) by lia.
    apply (Z.mod_unique_pos a p (q + q2)); lia.
Qed.

(** [PrivateKey.ECDH] fails exactly on an all-zero shared secret. *)
Definition ECDH_ok (scalar public : list N) : bool :=
  negb (shared scalar public =? 0).
End X25519.
