(* ===== verification/SpecTypes.v ===== *)
(** The node-facing data model, [internal/spec/types.go]: everything a node is
    told to realise, field for field. Go's string enumerations stay strings,
    because the wire may carry values outside the enumeration and the validators
    reject them. A pointer to a struct is an [option]. *)
From S2P Require Import Prelude GoNet.

Definition SchemaVersionV1 : N := 1.
Definition SchemaVersionV2 : N := 2.
Definition SchemaVersionV3 : N := 3.
Definition SchemaVersionV4 : N := 4.
Definition SchemaVersionV5 : N := 5.
Definition CurrentSchemaVersion : N := SchemaVersionV5.

Definition SupportedSchemaVersion (version : N) : bool :=
  (version =? SchemaVersionV1) || (version =? SchemaVersionV2)
  || (version =? SchemaVersionV3) || (version =? SchemaVersionV4)
  || (version =? SchemaVersionV5).

Definition SupportedSchemaVersions : list N :=
  [SchemaVersionV1; SchemaVersionV2; SchemaVersionV3; SchemaVersionV4;
   SchemaVersionV5].

Definition Protocol := string.
Definition ProtocolTCP : Protocol := "tcp".
Definition ProtocolUDP : Protocol := "udp".

Definition PathMode := string.
Definition PathDirect : PathMode := "direct".
Definition PathViaExit : PathMode := "via_exit".

Definition Lifecycle := string.
Definition LifecycleActive : Lifecycle := "active".
Definition LifecyclePaused : Lifecycle := "paused".
Definition LifecycleDraining : Lifecycle := "draining".
Definition LifecycleForceDeleting : Lifecycle := "force_deleting".

Definition TrafficDirection := string.
Definition DirectionUpload : TrafficDirection := "upload".
Definition DirectionDownload : TrafficDirection := "download".

Definition SNATMode := string.
Definition SNATMasquerade : SNATMode := "masquerade".
Definition SNATStatic : SNATMode := "static".

Definition QuotaPolicy := string.
Definition QuotaPolicyPause : QuotaPolicy := "pause".

Definition FabricTransport := string.
Definition FabricWireGuard : FabricTransport := "wireguard".
Definition FabricDirectL3 : FabricTransport := "direct_l3".
Definition FabricGRE : FabricTransport := "gre".

Record Endpoint := MkEndpoint {
  ep_Address : Addr;
  ep_Hostname : string;
  ep_Port : N;
}.

Record SNATSpec := MkSNATSpec {
  snat_Mode : SNATMode;
  snat_Address : option Addr;
}.

Record RateLimitSpec := MkRateLimitSpec {
  rl_IngressBitsPerSecond : N;
  rl_EgressBitsPerSecond : N;
  rl_BurstBytes : N;
}.

Record TrafficQuotaSpec := MkTrafficQuotaSpec {
  tq_Bytes : N;
  tq_Policy : QuotaPolicy;
}.

Record WireGuardPeerSpec := MkWireGuardPeerSpec {
  wg_PeerPublicKey : string;
  wg_Endpoint : string;
  wg_ListenPort : N;
  wg_PersistentKeepaliveSeconds : N;
}.

Record GRESpec := MkGRESpec {
  gre_UnderlayLocal : Addr;
  gre_UnderlayRemote : Addr;
  gre_Key : N;
}.

Record FabricLinkSpec := MkFabricLinkSpec {
  fl_ID : string;
  fl_PeerNodeID : string;
  fl_Transport : FabricTransport;
  fl_Interface : string;
  fl_LocalAddress : Prefix;
  fl_PeerAddress : Addr;
  fl_MTU : N;
  fl_RoutingID : N;
  fl_Trusted : bool;
  fl_WireGuard : option WireGuardPeerSpec;
  fl_GRE : option GRESpec;
  fl_ResourceVersion : N;
}.

Record UserPolicySpec := MkUserPolicySpec {
  up_UserID : string;
  up_TrafficClassID : N;
  up_RateLimit : option RateLimitSpec;
  up_TrafficQuota : option TrafficQuotaSpec;
  up_ResourceVersion : N;
}.

Record ProtocolBlockPolicy := MkProtocolBlockPolicy {
  pb_HTTP : bool;
  pb_HTTPS : bool;
  pb_SOCKS : bool;
  pb_TLS : bool;
}.

(** [ProtocolBlockPolicy.Any] *)
Definition ProtocolBlockPolicy_Any (p : ProtocolBlockPolicy) : bool :=
  pb_HTTP p || pb_HTTPS p || pb_SOCKS p || pb_TLS p.

Record HealthCheckSpec := MkHealthCheckSpec {
  hc_PoolID : string;
  hc_BackendID : string;
  hc_Endpoint : Endpoint;
  hc_Protocol : Protocol;
  hc_IntervalSeconds : N;
  hc_TimeoutMilliseconds : N;
  hc_FailureThreshold : N;
  hc_SuccessThreshold : N;
  hc_ResourceVersion : N;
}.

Record ForwardSpec := MkForwardSpec {
  fw_ID : string;
  fw_UserID : string;
  fw_Protocols : list Protocol;
  fw_IngressNodeID : string;
  fw_ExitNodeID : string;
  fw_Listen : Endpoint;
  fw_Target : Endpoint;
  fw_ServiceVIP : option Addr;
  fw_FabricLinkID : string;
  fw_PathMode : PathMode;
  fw_SNAT : SNATSpec;
  fw_TrafficClassID : N;
  fw_RateLimit : option RateLimitSpec;
  fw_TrafficQuota : option TrafficQuotaSpec;
  fw_ExpiresAt : option Time;
  fw_DrainDeadline : option Time;
  fw_Lifecycle : Lifecycle;
  fw_ResourceVersion : N;
}.

Record DesiredState := MkDesiredState {
  ds_SchemaVersion : N;
  ds_NodeID : string;
  ds_Generation : N;
  ds_ManagementDomain : string;
  ds_ServiceCIDRs : list Prefix;
  ds_FabricLinks : list FabricLinkSpec;
  ds_HealthChecks : list HealthCheckSpec;
  ds_UserPolicies : list UserPolicySpec;
  ds_ProtocolBlocks : option ProtocolBlockPolicy;
  ds_Forwards : list ForwardSpec;
}.

Definition ForwardSpecZero : ForwardSpec :=
  MkForwardSpec "" "" [] "" "" (MkEndpoint AddrZero "" 0) (MkEndpoint AddrZero "" 0)
    None "" "" (MkSNATSpec "" None) 0 None None None None "" 0.

Definition UserPolicySpecZero : UserPolicySpec :=
  MkUserPolicySpec "" 0 None None 0.

Definition DesiredStateZero : DesiredState :=
  MkDesiredState 0 "" 0 "" [] [] [] [] None [].

#[export] Instance Endpoint_eq_dec : EqDecision Endpoint.
Proof. solve_decision. Defined.
#[export] Instance SNATSpec_eq_dec : EqDecision SNATSpec.
Proof. solve_decision. Defined.
#[export] Instance RateLimitSpec_eq_dec : EqDecision RateLimitSpec.
Proof. solve_decision. Defined.
#[export] Instance TrafficQuotaSpec_eq_dec : EqDecision TrafficQuotaSpec.
Proof. solve_decision. Defined.
#[export] Instance WireGuardPeerSpec_eq_dec : EqDecision WireGuardPeerSpec.
Proof. solve_decision. Defined.
#[export] Instance GRESpec_eq_dec : EqDecision GRESpec.
Proof. solve_decision. Defined.
#[export] Instance FabricLinkSpec_eq_dec : EqDecision FabricLinkSpec.
Proof. solve_decision. Defined.
#[export] Instance UserPolicySpec_eq_dec : EqDecision UserPolicySpec.
Proof. solve_decision. Defined.
#[export] Instance ProtocolBlockPolicy_eq_dec : EqDecision ProtocolBlockPolicy.
Proof. solve_decision. Defined.
#[export] Instance HealthCheckSpec_eq_dec : EqDecision HealthCheckSpec.
Proof. solve_decision. Defined.
#[export] Instance ForwardSpec_eq_dec : EqDecision ForwardSpec.
Proof. solve_decision. Defined.
#[export] Instance DesiredState_eq_dec : EqDecision DesiredState.
Proof. solve_decision. Defined.

(** [ForwardSpec.EffectiveLifecycle]: what a forward does at wall-clock time
    [now]. An expired forward, or one whose drain has run out, is paused. *)
Definition EffectiveLifecycle (f : ForwardSpec) (now : Time) : Lifecycle :=
  if match fw_ExpiresAt f with Some e => negb (Time_Before now e) | None => false end
  then LifecyclePaused
  else if bool_decide (fw_Lifecycle f = LifecycleDraining)
       && match fw_DrainDeadline f with Some d => negb (Time_Before now d) | None => false end
  then LifecyclePaused
  else fw_Lifecycle f.

(** The instants at which a forward's effective lifecycle may change. *)
Definition lifecycle_deadlines (f : ForwardSpec) : list Time :=
  option_list (fw_ExpiresAt f) ++ option_list (fw_DrainDeadline f).

(** A paused forward stays paused: time only ever stops traffic. *)
Lemma EffectiveLifecycle_paused_later f t1 t2 :
  (t1 ≤ t2)%Z → EffectiveLifecycle f t1 = LifecyclePaused →
  EffectiveLifecycle f t2 = LifecyclePaused.
Proof.
  unfold EffectiveLifecycle, Time_Before. intros Ht.
  destruct (fw_ExpiresAt f) as [e|], (fw_DrainDeadline f) as [d|];
    repeat case_match; rewrite ?andb_true_iff, ?andb_false_iff,
      ?negb_true_iff, ?negb_false_iff, ?Z.ltb_lt, ?Z.ltb_ge in *;
    try done; try lia; intuition (try lia; congruence).
Qed.
