(* ===== verification/SpecCanonical.v ===== *)
(** The canonical form of a desired state, [internal/spec/canonical.go]: two
    states that describe the same intent have the same canonical form, so that
    their checksums agree. *)
From S2P Require Import Prelude GoNet SpecTypes.

(** [canonicalPrefix] *)
Definition canonicalPrefix (prefix : Prefix) : Prefix :=
  if negb (Prefix_IsValid prefix) then prefix
  else
    let address := Addr_Unmap (p_addr prefix) in
    let bits := if Addr_Is4In6 (p_addr prefix) then (p_bits prefix - 96)%Z
                else p_bits prefix in
    Prefix_Masked (PrefixFrom address bits).

(** [canonicalInterfacePrefix] keeps the host bits. *)
Definition canonicalInterfacePrefix (prefix : Prefix) : Prefix :=
  if negb (Prefix_IsValid prefix) then prefix
  else
    let address := Addr_Unmap (p_addr prefix) in
    let bits := if Addr_Is4In6 (p_addr prefix) then (p_bits prefix - 96)%Z
                else p_bits prefix in
    PrefixFrom address bits.

Definition canonicalProtocolBlocks (p : option ProtocolBlockPolicy) :
    option ProtocolBlockPolicy :=
  match p with
  | Some policy => if ProtocolBlockPolicy_Any policy then Some policy else None
  | None => None
  end.

Definition canonicalEndpoint (e : Endpoint) : Endpoint :=
  MkEndpoint (Addr_Unmap (ep_Address e)) "" (ep_Port e).

Definition canonicalLink (link : FabricLinkSpec) : FabricLinkSpec :=
  {| fl_ID := fl_ID link;
     fl_PeerNodeID := fl_PeerNodeID link;
     fl_Transport := fl_Transport link;
     fl_Interface := fl_Interface link;
     fl_LocalAddress := canonicalInterfacePrefix (fl_LocalAddress link);
     fl_PeerAddress := Addr_Unmap (fl_PeerAddress link);
     fl_MTU := fl_MTU link;
     fl_RoutingID := fl_RoutingID link;
     fl_Trusted := fl_Trusted link;
     fl_WireGuard := fl_WireGuard link;
     fl_GRE := (λ gre, MkGRESpec (Addr_Unmap (gre_UnderlayLocal gre))
                         (Addr_Unmap (gre_UnderlayRemote gre)) (gre_Key gre))
                 <$> fl_GRE link;
     fl_ResourceVersion := fl_ResourceVersion link |}.

Definition canonicalCheck (check : HealthCheckSpec) : HealthCheckSpec :=
  {| hc_PoolID := hc_PoolID check;
     hc_BackendID := hc_BackendID check;
     hc_Endpoint := canonicalEndpoint (hc_Endpoint check);
     hc_Protocol := hc_Protocol check;
     hc_IntervalSeconds := hc_IntervalSeconds check;
     hc_TimeoutMilliseconds := hc_TimeoutMilliseconds check;
     hc_FailureThreshold := hc_FailureThreshold check;
     hc_SuccessThreshold := hc_SuccessThreshold check;
     hc_ResourceVersion := hc_ResourceVersion check |}.

Definition canonicalForward (forward : ForwardSpec) : ForwardSpec :=
  {| fw_ID := fw_ID forward;
     fw_UserID := fw_UserID forward;
     fw_Protocols := sort_slice str_lt (fw_Protocols forward);
     fw_IngressNodeID := fw_IngressNodeID forward;
     fw_ExitNodeID := fw_ExitNodeID forward;
     fw_Listen := canonicalEndpoint (fw_Listen forward);
     fw_Target := canonicalEndpoint (fw_Target forward);
     fw_ServiceVIP := Addr_Unmap <$> fw_ServiceVIP forward;
     fw_FabricLinkID := fw_FabricLinkID forward;
     fw_PathMode := fw_PathMode forward;
     fw_SNAT := MkSNATSpec (snat_Mode (fw_SNAT forward))
                  (Addr_Unmap <$> snat_Address (fw_SNAT forward));
     fw_TrafficClassID := fw_TrafficClassID forward;
     fw_RateLimit := fw_RateLimit forward;
     fw_TrafficQuota := fw_TrafficQuota forward;
     fw_ExpiresAt := fw_ExpiresAt forward;
     fw_DrainDeadline := fw_DrainDeadline forward;
     fw_Lifecycle := fw_Lifecycle forward;
     fw_ResourceVersion := fw_ResourceVersion forward |}.

(** The [less] callbacks [Canonical] sorts with. *)
Definition less_prefix : Prefix → Prefix → bool := less_by Prefix_String.
Definition less_link : FabricLinkSpec → FabricLinkSpec → bool := less_by fl_ID.
Definition less_check : HealthCheckSpec → HealthCheckSpec → bool :=
  less_lex (less_by hc_PoolID) (less_by hc_BackendID).
Definition less_policy : UserPolicySpec → UserPolicySpec → bool :=
  less_by up_UserID.
Definition less_forward : ForwardSpec → ForwardSpec → bool := less_by fw_ID.

(** [DesiredState.Canonical] *)
Definition Canonical (s : DesiredState) : DesiredState :=
  {| ds_SchemaVersion := ds_SchemaVersion s;
     ds_NodeID := ds_NodeID s;
     ds_Generation := ds_Generation s;
     ds_ManagementDomain := ds_ManagementDomain s;
     ds_ServiceCIDRs :=
       sort_slice less_prefix (map canonicalPrefix (ds_ServiceCIDRs s));
     ds_FabricLinks := sort_slice less_link (map canonicalLink (ds_FabricLinks s));
     ds_HealthChecks := sort_slice less_check (map canonicalCheck (ds_HealthChecks s));
     ds_UserPolicies := sort_slice less_policy (ds_UserPolicies s);
     ds_ProtocolBlocks := canonicalProtocolBlocks (ds_ProtocolBlocks s);
     ds_Forwards := sort_slice less_forward (map canonicalForward (ds_Forwards s)) |}.

#[export] Instance str_lt_order : LessOrder str_lt.
Proof. exact (less_by_order id). Qed.
#[export] Instance less_check_order : LessOrder less_check.
Proof. unfold less_check. apply _. Qed.

(** * The element normalisers are idempotent *)
Lemma mask_bits_idemp w k b : mask_bits w k (mask_bits w k b) = mask_bits w k b.
Proof. unfold mask_bits. by rewrite N.shiftr_shiftl_l, N.sub_diag, N.shiftl_0_r by lia. Qed.

Lemma Prefix_Masked_idemp p : Prefix_Masked (Prefix_Masked p) = Prefix_Masked p.
Proof.
  destruct p as [a b]. unfold Prefix_Masked at 2 3, Prefix_IsValid at 1 2. cbn.
  destruct (0 <=? b)%Z eqn:E; [|done].
  destruct a as [|x|x z]; cbn; [done|..]; unfold Prefix_Masked, Prefix_IsValid; cbn;
    by rewrite E, mask_bits_idemp.
Qed.

Lemma Addr_WithoutZone_4in6 a : Addr_Is4In6 (Addr_WithoutZone a) = Addr_Is4In6 a.
Proof. by destruct a. Qed.

Lemma canonicalInterfacePrefix_idemp p :
  canonicalInterfacePrefix (canonicalInterfacePrefix p) = canonicalInterfacePrefix p.
Proof.
  unfold canonicalInterfacePrefix at 2 3.
  destruct (Prefix_IsValid p) eqn:Hv; cbn.
  2: { unfold canonicalInterfacePrefix. by rewrite Hv. }
  set (b := if Addr_Is4In6 (p_addr p) then _ else _). clearbody b.
  destruct (0 <=? p_bits (PrefixFrom (Addr_Unmap (p_addr p)) b))%Z eqn:E.
  - unfold canonicalInterfacePrefix, Prefix_IsValid. rewrite E. cbn.
    unfold PrefixFrom in *.
    destruct (Addr_IsValid _ && _ && _) eqn:E2 in E |- *; cbn in *; [|done].
    rewrite Addr_WithoutZone_4in6, Is4In6_Unmap.
    assert (Addr_Unmap (Addr_WithoutZone (Addr_Unmap (p_addr p)))
            = Addr_WithoutZone (Addr_Unmap (p_addr p))) as ->.
    { pose proof (Is4In6_Unmap (p_addr p)) as H.
      destruct (Addr_Unmap (p_addr p)); cbn in *; [done..|]. by rewrite H. }
    assert (∀ a, Addr_IsValid (Addr_WithoutZone a) = Addr_IsValid a) as -> by by intros [].
    assert (∀ a, Addr_BitLen (Addr_WithoutZone a) = Addr_BitLen a) as -> by by intros [].
    assert (∀ a, Addr_WithoutZone (Addr_WithoutZone a) = Addr_WithoutZone a) as -> by by intros [].
    by rewrite E2.
  - unfold canonicalInterfacePrefix, Prefix_IsValid. by rewrite E.
Qed.

Lemma mask_bits_4in6 k b :
  N.shiftr (mask_bits 128 k b) 32 = 0xffff → N.shiftr b 32 = 0xffff.
Proof.
  unfold mask_bits. generalize (128 - k) as d. intros d.
  destruct (decide (d ≤ 32)) as [Hd|Hd].
  - intros <-. replace (N.shiftr (N.shiftl (N.shiftr b d) d) 32)
      with (N.shiftr (N.shiftr b d) (32 - d)).
    + rewrite N.shiftr_shiftr. f_equal. lia.
    + symmetry. by apply N.shiftr_shiftl_r.
  - intros H%(f_equal (λ n, N.testbit n 0)). exfalso.
    rewrite N.shiftr_shiftl_l in H by lia.
    rewrite N.shiftl_spec_low in H by lia. done.
Qed.

Lemma Prefix_Masked_4in6 p :
  Addr_Is4In6 (p_addr p) = false → Addr_Is4In6 (p_addr (Prefix_Masked p)) = false.
Proof.
  unfold Prefix_Masked. destruct (Prefix_IsValid p); [|done].
  destruct (p_addr p) as [|x|x z]; cbn; [done..|].
  rewrite !N.eqb_neq. intros H ?. by apply H, (mask_bits_4in6 _ _ H0).
Qed.

Lemma canonicalPrefix_eq p :
  Prefix_IsValid p = true →
  canonicalPrefix p = Prefix_Masked (canonicalInterfacePrefix p).
Proof.
  intros Hv. unfold canonicalPrefix, canonicalInterfacePrefix. by rewrite Hv.
Qed.

Lemma Prefix_Masked_valid p :
  Prefix_IsValid (Prefix_Masked p) = true → Prefix_IsValid p = true.
Proof. unfold Prefix_Masked. by destruct (Prefix_IsValid p). Qed.

(** On a valid prefix whose address is not IPv4-mapped, canonicalising the
    masked prefix changes nothing. *)
Lemma canonicalInterfacePrefix_masked p :
  canonicalInterfacePrefix p = p → Prefix_IsValid p = true →
  canonicalInterfacePrefix (Prefix_Masked p) = Prefix_Masked p.
Proof.
  intros Hp Hv. unfold canonicalInterfacePrefix in *.
  destruct (Prefix_IsValid (Prefix_Masked p)) eqn:Hm; [|done].
  rewrite Hv in Hp. cbn in *.
  destruct (Addr_Is4In6 (p_addr p)) eqn:H4.
  { exfalso. apply (f_equal p_addr) in Hp. revert Hp. unfold PrefixFrom.
    destruct p as [[|x|x z] b]; cbn in *; try done. rewrite H4. by case_match. }
  rewrite Prefix_Masked_4in6 by done.
  unfold Prefix_Masked in *. rewrite Hv in *.
  destruct p as [[|x|x z] b]; cbn in *; [done|..].
  - revert Hp. unfold PrefixFrom; cbn.
    case_match; [done|]. by intros [= <-].
  - assert ((N.shiftr (mask_bits 128 (Z.to_N b) x) 32 =? 0xffff) = false) as Hn.
    { apply N.eqb_neq. intros Hn%mask_bits_4in6. by apply N.eqb_neq in H4. }
    rewrite Hn. rewrite H4 in Hp. revert Hp. unfold PrefixFrom; cbn.
    case_match; [done|]. by intros [= -> ->].
Qed.

Lemma canonicalPrefix_idemp p : canonicalPrefix (canonicalPrefix p) = canonicalPrefix p.
Proof.
  destruct (Prefix_IsValid p) eqn:Hv.
  2: { assert (canonicalPrefix p = p) as E by (unfold canonicalPrefix; by rewrite Hv).
       by rewrite !E. }
  rewrite (canonicalPrefix_eq p Hv).
  pose proof (canonicalInterfacePrefix_idemp p) as Hi.
  destruct (Prefix_IsValid (canonicalInterfacePrefix p)) eqn:Hv2.
  - pose proof (canonicalInterfacePrefix_masked _ Hi Hv2) as Hm.
    destruct (Prefix_IsValid (Prefix_Masked (canonicalInterfacePrefix p))) eqn:Hv3.
    + by rewrite canonicalPrefix_eq, Hm, Prefix_Masked_idemp.
    + unfold canonicalPrefix. by rewrite Hv3.
  - unfold Prefix_Masked. by rewrite Hv2.
Qed.

Lemma canonicalEndpoint_idemp e : canonicalEndpoint (canonicalEndpoint e) = canonicalEndpoint e.
Proof. destruct e. unfold canonicalEndpoint. cbn. by rewrite Unmap_idemp. Qed.

Lemma canonicalLink_idemp l : canonicalLink (canonicalLink l) = canonicalLink l.
Proof.
  destruct l as [????????? ? [gre|] ?]; unfold canonicalLink; cbn;
    by rewrite canonicalInterfacePrefix_idemp, ?Unmap_idemp.
Qed.

Lemma canonicalCheck_idemp c : canonicalCheck (canonicalCheck c) = canonicalCheck c.
Proof. destruct c. unfold canonicalCheck. cbn. by rewrite canonicalEndpoint_idemp. Qed.

Lemma fmap_Unmap_idemp (o : option Addr) : Addr_Unmap <$> (Addr_Unmap <$> o) = Addr_Unmap <$> o.
Proof. destruct o; cbn; by rewrite ?Unmap_idemp. Qed.

Lemma canonicalForward_idemp f : canonicalForward (canonicalForward f) = canonicalForward f.
Proof.
  destruct f. unfold canonicalForward. cbn -[sort_slice].
  by rewrite !canonicalEndpoint_idemp, !fmap_Unmap_idemp, (sort_slice_idemp str_lt).
Qed.

Lemma canonicalProtocolBlocks_idemp p :
  canonicalProtocolBlocks (canonicalProtocolBlocks p) = canonicalProtocolBlocks p.
Proof.
  destruct p as [p|]; [|done]. unfold canonicalProtocolBlocks.
  destruct (ProtocolBlockPolicy_Any p) eqn:E; [|done]. by rewrite E.
Qed.

(** Normalising the elements of an already sorted, already normalised slice
    leaves it as it is. *)
Lemma canonical_slice_idemp {A} (less : A → A → bool) `{!LessOrder less}
    (f : A → A) (l : list A) :
  (∀ x, f (f x) = f x) →
  sort_slice less (map f (sort_slice less (map f l))) = sort_slice less (map f l).
Proof.
  intros Hf. rewrite <-(sort_slice_idemp less (map f l)) at 2. f_equal.
  assert (∀ x, x ∈ sort_slice less (map f l) → f x = x) as Hfix.
  { intros x. rewrite elem_of_sort_slice. intros (y & -> & _)%list_elem_of_fmap.
    apply Hf. }
  induction (sort_slice less (map f l)) as [|x k IH]; [done|]. cbn.
  rewrite Hfix by left. f_equal. apply IH. intros y Hy. apply Hfix. by right.
Qed.

(** [Canonical] is idempotent, so a published snapshot is already in the form
    its checksum is computed from. *)
Theorem Canonical_idemp s : Canonical (Canonical s) = Canonical s.
Proof.
  destruct s. unfold Canonical. cbn -[sort_slice]. f_equal.
  - apply canonical_slice_idemp; [apply _|apply canonicalPrefix_idemp].
  - apply canonical_slice_idemp; [apply _|apply canonicalLink_idemp].
  - apply canonical_slice_idemp; [apply _|apply canonicalCheck_idemp].
  - apply (sort_slice_idemp less_policy).
  - apply canonicalProtocolBlocks_idemp.
  - apply canonical_slice_idemp; [apply _|apply canonicalForward_idemp].
Qed.
