(* ===== verification/SpecValidate.v ===== *)
(** Validation of a desired state, [internal/spec/validate.go]. The program
    collects every issue before it answers; so does the model, loop by loop,
    with the program's own messages. *)
From S2P Require Import Prelude GoNet GoCrypto SpecTypes SpecCanonical.

Definition MaxForwardsPerSnapshot : nat := N.to_nat 100000.
Definition MaxFabricLinksPerSnapshot : nat := N.to_nat 1024.
Definition MaxServiceCIDRsPerSnapshot : nat := N.to_nat 256.
Definition MaxHealthChecksPerSnapshot : nat := N.to_nat 4096.

(** * The two identifier patterns *)
Definition alnum (c : ascii) : bool :=
  byte_in "A" "Z" c || byte_in "a" "z" c || byte_in "0" "9" c.
Definition name_char (c : ascii) : bool :=
  alnum c || bool_decide (c ∈ ["_"; "."; ":"; "-"]%char).

(** [^[A-Za-z0-9][A-Za-z0-9_.:-]{0,127}$] *)
Definition validIdentifier (value : string) : bool :=
  match chars value with
  | [] => false
  | c :: l => alnum c && forallb name_char l && (length l <=? 127)%nat
  end.

(** [^[A-Za-z0-9_.:-]{1,15}$] *)
Definition interfacePattern (value : string) : bool :=
  let l := chars value in
  (1 <=? length l)%nat && (length l <=? 15)%nat && forallb name_char l.

(** [ValidateIdentifier]: the error message, if any. *)
Definition ValidateIdentifier (name value : string) : option string :=
  if negb (validIdentifier value) then Some (name +:+ " is invalid") else None.

(** * Checks of single values *)
Definition validateRateLimit (name : string) (limit : option RateLimitSpec) : list string :=
  match limit with
  | None => []
  | Some l =>
      when ((rl_IngressBitsPerSecond l =? 0) && (rl_EgressBitsPerSecond l =? 0))
        (name +:+ " must set at least one direction")
      ++ when (rl_BurstBytes l =? 0) (name +:+ ".burst_bytes must be greater than zero")
  end.

Definition validateQuota (name : string) (quota : option TrafficQuotaSpec) : list string :=
  match quota with
  | None => []
  | Some q =>
      when (tq_Bytes q =? 0) (name +:+ ".bytes must be greater than zero")
      ++ when (negb (bool_decide (tq_Policy q = QuotaPolicyPause)))
           (name +:+ ".policy is unsupported")
  end.

Definition validateIPv4 (name : string) (address : Addr) : list string :=
  if negb (Addr_IsValid address) then [name +:+ " is invalid"]
  else
    let address := Addr_Unmap address in
    if negb (Addr_Is4 address) then [name +:+ " must be IPv4"]
    else if Addr_IsUnspecified address then [name +:+ " must be a concrete address"]
    else if Addr_IsMulticast address then [name +:+ " must not be multicast"]
    else [].

Definition validateEndpoint (name : string) (endpoint : Endpoint) : list string :=
  validateIPv4 (name +:+ ".address") (ep_Address endpoint)
  ++ when (negb (bool_decide (ep_Hostname endpoint = "")))
       (name +:+ ".hostname must be resolved by Controller before publication")
  ++ when (ep_Port endpoint =? 0) (name +:+ ".port must be greater than zero").

(** [validateIPv4Prefix]; [None] is the program's empty string. *)
Definition validateIPv4Prefix (name : string) (prefix : Prefix) : option string :=
  if negb (Prefix_IsValid prefix) then Some (name +:+ " is invalid")
  else
    let address := Addr_Unmap (p_addr prefix) in
    if negb (Addr_Is4 address) then Some (name +:+ " must be IPv4")
    else if Addr_IsUnspecified address || Addr_IsMulticast address
    then Some (name +:+ " must be a concrete unicast prefix")
    else if negb (bool_decide (Addr_Unmap (p_addr prefix) = p_addr (canonicalPrefix prefix)))
    then Some (name +:+ " must be network-masked")
    else None.

Definition validateIPv4InterfacePrefix (name : string) (prefix : Prefix) : option string :=
  if negb (Prefix_IsValid prefix) then Some (name +:+ " is invalid")
  else
    let address := Addr_Unmap (p_addr prefix) in
    if negb (Addr_Is4 address) then Some (name +:+ " must be IPv4")
    else if Addr_IsUnspecified address || Addr_IsMulticast address
    then Some (name +:+ " must use a concrete unicast address")
    else
      let bits := if Addr_Is4In6 (p_addr prefix) then (p_bits prefix - 96)%Z
                  else p_bits prefix in
      if (bits <? 1)%Z || (32 <? bits)%Z
      then Some (name +:+ " prefix length is invalid")
      else None.

Definition prefixesOverlap (first second : Prefix) : bool :=
  if negb (Prefix_IsValid first) || negb (Prefix_IsValid second) then false
  else
    let first := canonicalPrefix first in
    let second := canonicalPrefix second in
    Prefix_Contains first (p_addr second) || Prefix_Contains second (p_addr first).

(** [ValidateWireGuardPublicKey]: the error message, if any. The probe is the
    X25519 private key [1, 0, ..., 0]. *)
Definition ValidateWireGuardPublicKey (name encoded : string) : option string :=
  match Base64Decode encoded with
  | Some decoded =>
      if negb (length decoded =? 32)%nat
      then Some (name +:+ " must be a base64-encoded 32-byte key")
      else if forallb (λ v, v =? 0) decoded
      then Some (name +:+ " must not be all zero")
      else if negb (X25519.ECDH_ok (1 :: repeat 0 31) decoded)
      then Some (name +:+ " is a low-order X25519 key")
      else None
  | None => Some (name +:+ " must be a base64-encoded 32-byte key")
  end.

Definition validateWireGuardEndpoint (name endpoint : string) : list string :=
  match SplitHostPort endpoint with
  | Some (host, portText) =>
      if bool_decide (host = "") then [name +:+ ".endpoint must be host:port"]
      else
        when (match ParseUint 16 portText with Some port => port =? 0 | None => true end)
          (name +:+ ".endpoint port is invalid")
        ++ when (match ParseAddr host with
                 | Some address => negb (Addr_Is4 (Addr_Unmap address))
                                   || Addr_IsUnspecified address || Addr_IsMulticast address
                 | None => true
                 end)
             (name +:+ ".endpoint host must be a concrete IPv4 address")
  | None => [name +:+ ".endpoint must be host:port"]
  end.

Definition validateWireGuard (name : string) (peer : WireGuardPeerSpec) : list string :=
  option_list (ValidateWireGuardPublicKey (name +:+ ".peer_public_key") (wg_PeerPublicKey peer))
  ++ validateWireGuardEndpoint name (wg_Endpoint peer)
  ++ when (wg_ListenPort peer =? 0) (name +:+ ".listen_port must be greater than zero")
  ++ when (3600 <? wg_PersistentKeepaliveSeconds peer)
       (name +:+ ".persistent_keepalive_seconds must not exceed 3600").

Definition validateGRE (name : string) (gre : GRESpec) : list string :=
  validateIPv4 (name +:+ ".underlay_local") (gre_UnderlayLocal gre)
  ++ validateIPv4 (name +:+ ".underlay_remote") (gre_UnderlayRemote gre)
  ++ when (Addr_IsValid (gre_UnderlayLocal gre) && Addr_IsValid (gre_UnderlayRemote gre)
           && bool_decide (Addr_Unmap (gre_UnderlayLocal gre) = Addr_Unmap (gre_UnderlayRemote gre)))
       (name +:+ " underlay endpoints must differ")
  ++ when (gre_Key gre =? 0) (name +:+ ".key must be greater than zero").

(** [name[i]] *)
Definition at_index (name : string) (i : nat) : string :=
  name +:+ "[" +:+ show_nat i +:+ "]".

(** The issues of an inner [for j, x := range l] that only reports. *)
Definition each {A} (f : nat → A → list string) (l : list A) : list string :=
  mjoin (imap f l).

(** * [Validate], section by section *)

(** The scalar fields and the size limits. *)
Definition validate_header (s : DesiredState) : list string :=
  when (negb (SupportedSchemaVersion (ds_SchemaVersion s)))
    "schema_version must be one of 1, 2, 3, 4 or 5"
  ++ when (negb (validIdentifier (ds_NodeID s))) "node_id is invalid"
  ++ when (ds_Generation s =? 0) "generation must be greater than zero"
  ++ (if negb (bool_decide (ds_ManagementDomain s = "")) then
        when (ds_SchemaVersion s <? SchemaVersionV4) "management_domain requires schema_version 4"
        ++ when (negb (validIdentifier (ds_ManagementDomain s))) "management_domain is invalid"
      else [])
  ++ when (MaxForwardsPerSnapshot <? length (ds_Forwards s))%nat "forwards exceeds limit 100000"
  ++ when (MaxFabricLinksPerSnapshot <? length (ds_FabricLinks s))%nat
       "fabric_links exceeds limit 1024"
  ++ when (MaxServiceCIDRsPerSnapshot <? length (ds_ServiceCIDRs s))%nat
       "service_cidrs exceeds limit 256"
  ++ when (MaxHealthChecksPerSnapshot <? length (ds_HealthChecks s))%nat
       "health_checks exceeds limit 4096".

(** One service CIDR; the state is the list of canonical CIDRs so far. *)
Definition validate_cidr (i : nat) (prefix : Prefix) (serviceCIDRs : list Prefix) :
    list Prefix * list string :=
  let name := at_index "service_cidrs" i in
  match validateIPv4Prefix name prefix with
  | Some issue => (serviceCIDRs, [issue])
  | None =>
      let prefix := canonicalPrefix prefix in
      (serviceCIDRs ++ [prefix],
       each (λ j existing, when (prefixesOverlap prefix existing)
               (name +:+ " overlaps " +:+ at_index "service_cidrs" j)) serviceCIDRs)
  end.

(** What an older schema version may not carry. *)
Definition validate_schema (s : DesiredState) : list string :=
  when ((ds_SchemaVersion s <? SchemaVersionV3)
        && (negb (length (ds_ServiceCIDRs s) =? 0)%nat || negb (length (ds_FabricLinks s) =? 0)%nat))
    "service_cidrs and fabric_links require schema_version 3"
  ++ when ((ds_SchemaVersion s <? SchemaVersionV4) && negb (length (ds_HealthChecks s) =? 0)%nat)
       "health_checks requires schema_version 4"
  ++ when ((ds_SchemaVersion s <? SchemaVersionV5)
           && match ds_ProtocolBlocks s with Some p => ProtocolBlockPolicy_Any p | None => false end)
       "protocol_blocks requires schema_version 5".

(** The maps the fabric-link loop keeps. *)
Record link_maps := LinkMaps {
  lm_links : gmap string FabricLinkSpec;       (** [fabricLinks] *)
  lm_routing : gmap N string;                  (** [routingOwners] *)
  lm_interfaces : gmap string FabricTransport; (** [interfaceOwners] *)
  lm_locals : gmap Addr (string * FabricTransport * string); (** [localAddressOwners] *)
}.

Definition validate_link_transport (prefix : string) (link : FabricLinkSpec) : list string :=
  if bool_decide (fl_Transport link = FabricWireGuard) then
    match fl_WireGuard link with
    | None => [prefix +:+ ".wireguard is required"]
    | Some wg => validateWireGuard (prefix +:+ ".wireguard") wg
    end
    ++ when (bool_decide (is_Some (fl_GRE link))) (prefix +:+ ".gre must be empty for wireguard")
  else if bool_decide (fl_Transport link = FabricDirectL3) then
    when (negb (fl_Trusted link)) (prefix +:+ " direct_l3 requires trusted=true")
    ++ when (bool_decide (is_Some (fl_WireGuard link)) || bool_decide (is_Some (fl_GRE link)))
         (prefix +:+ " direct_l3 must not contain wireguard or gre settings")
  else if bool_decide (fl_Transport link = FabricGRE) then
    when (negb (fl_Trusted link)) (prefix +:+ " gre requires trusted=true")
    ++ match fl_GRE link with
       | None => [prefix +:+ ".gre is required"]
       | Some gre => validateGRE (prefix +:+ ".gre") gre
       end
    ++ when (bool_decide (is_Some (fl_WireGuard link))) (prefix +:+ ".wireguard must be empty for gre")
  else [prefix +:+ ".transport is unsupported"].

(** The local and peer addresses of a link. *)
Definition validate_link_local (prefix : string) (link : FabricLinkSpec)
    (serviceCIDRs : list Prefix)
    (owners : gmap Addr (string * FabricTransport * string)) :
    gmap Addr (string * FabricTransport * string) * list string :=
  match validateIPv4InterfacePrefix (prefix +:+ ".local_address") (fl_LocalAddress link) with
  | Some issue => (owners, [issue])
  | None =>
      let local := Addr_Unmap (p_addr (fl_LocalAddress link)) in
      let '(owners', e) :=
        match owners !! local with
        | Some (name, transport, device) =>
            if negb (bool_decide (transport = FabricDirectL3))
               || negb (bool_decide (fl_Transport link = FabricDirectL3))
               || negb (bool_decide (device = fl_Interface link))
            then (owners, [prefix +:+ ".local_address conflicts with " +:+ name])
            else (<[local := (prefix, fl_Transport link, fl_Interface link)]> owners, [])
        | None => (<[local := (prefix, fl_Transport link, fl_Interface link)]> owners, [])
        end in
      (owners',
       e ++ each (λ j serviceCIDR,
              when (prefixesOverlap (Prefix_Masked (fl_LocalAddress link)) serviceCIDR)
                (prefix +:+ ".local_address overlaps " +:+ at_index "service_cidrs" j))
              serviceCIDRs)
  end.

Definition validate_link_peer (prefix : string) (link : FabricLinkSpec)
    (serviceCIDRs : list Prefix) : list string :=
  validateIPv4 (prefix +:+ ".peer_address") (fl_PeerAddress link)
  ++ (if Prefix_IsValid (fl_LocalAddress link) && Addr_IsValid (fl_PeerAddress link) then
        let localPrefix := Prefix_Masked (fl_LocalAddress link) in
        let peer := Addr_Unmap (fl_PeerAddress link) in
        when (negb (Prefix_Contains localPrefix peer)
              || bool_decide (peer = Addr_Unmap (p_addr (fl_LocalAddress link))))
          (prefix +:+ ".peer_address must be a different address inside local_address prefix")
        ++ each (λ j serviceCIDR, when (Prefix_Contains serviceCIDR peer)
                   (prefix +:+ ".peer_address overlaps " +:+ at_index "service_cidrs" j))
             serviceCIDRs
      else []).

(** Only direct-L3 links may share an interface. *)
Definition interface_conflict (link : FabricLinkSpec)
    (owners : gmap string FabricTransport) : bool :=
  match owners !! fl_Interface link with
  | Some owner => negb (bool_decide (owner = FabricDirectL3))
                  || negb (bool_decide (fl_Transport link = FabricDirectL3))
  | None => false
  end.

(** One fabric link. *)
Definition validate_link (nodeID : string) (serviceCIDRs : list Prefix)
    (i : nat) (link : FabricLinkSpec) (m : link_maps) : link_maps * list string :=
  let prefix := at_index "fabric_links" i in
  let '(links, e_id) :=
    if negb (validIdentifier (fl_ID link)) then (lm_links m, [prefix +:+ ".id is invalid"])
    else match lm_links m !! fl_ID link with
         | Some _ => (lm_links m, [prefix +:+ ".id is duplicated"])
         | None => (<[fl_ID link := link]> (lm_links m), [])
         end in
  let e_peer :=
    when (negb (validIdentifier (fl_PeerNodeID link)) || bool_decide (fl_PeerNodeID link = nodeID))
      (prefix +:+ ".peer_node_id is invalid or refers to this node") in
  let '(interfaces, e_if) :=
    if negb (interfacePattern (fl_Interface link))
    then (lm_interfaces m, [prefix +:+ ".interface is invalid"])
    else if interface_conflict link (lm_interfaces m)
    then (lm_interfaces m, [prefix +:+ ".interface conflicts with another managed fabric"])
    else (<[fl_Interface link := fl_Transport link]> (lm_interfaces m), []) in
  let '(locals, e_local) := validate_link_local prefix link serviceCIDRs (lm_locals m) in
  let e_addr := validate_link_peer prefix link serviceCIDRs in
  let e_mtu := when ((fl_MTU link <? 1280) || (9000 <? fl_MTU link))
                 (prefix +:+ ".mtu must be between 1280 and 9000") in
  let '(routing, e_routing) :=
    if (fl_RoutingID link =? 0) || (fl_RoutingID link =? 65535)
    then (lm_routing m, [prefix +:+ ".routing_id is reserved"])
    else match lm_routing m !! fl_RoutingID link with
         | Some owner => (lm_routing m, [prefix +:+ ".routing_id conflicts with " +:+ owner])
         | None => (<[fl_RoutingID link := prefix]> (lm_routing m), [])
         end in
  let e_version := when (fl_ResourceVersion link =? 0)
                     (prefix +:+ ".resource_version must be greater than zero") in
  (LinkMaps links routing interfaces locals,
   e_id ++ e_peer ++ e_if ++ e_local ++ e_addr ++ e_mtu ++ e_routing ++ e_version
   ++ validate_link_transport prefix link).

(** One health check; the state is the set of probed pool/backend pairs. *)
Definition validate_check (serviceCIDRs : list Prefix) (i : nat) (check : HealthCheckSpec)
    (seen : gset (string * string)) : gset (string * string) * list string :=
  let prefix := at_index "health_checks" i in
  let key := (hc_PoolID check, hc_BackendID check) in
  let '(seen', e_dup) :=
    if bool_decide (key ∈ seen) then (seen, [prefix +:+ " duplicates a pool/backend probe"])
    else ({[key]} ∪ seen, []) in
  (seen',
   when (negb (validIdentifier (hc_PoolID check))) (prefix +:+ ".pool_id is invalid")
   ++ when (negb (validIdentifier (hc_BackendID check))) (prefix +:+ ".backend_id is invalid")
   ++ e_dup
   ++ validateEndpoint (prefix +:+ ".endpoint") (hc_Endpoint check)
   ++ when (negb (bool_decide (hc_Protocol check = ProtocolTCP))) (prefix +:+ ".protocol must be tcp")
   ++ when ((hc_IntervalSeconds check <? 1) || (300 <? hc_IntervalSeconds check))
        (prefix +:+ ".interval_seconds must be between 1 and 300")
   ++ (if (hc_TimeoutMilliseconds check <? 100) || (30000 <? hc_TimeoutMilliseconds check)
       then [prefix +:+ ".timeout_milliseconds must be between 100 and 30000"]
       else when (negb (hc_IntervalSeconds check =? 0)
                  && (wrap 32 (hc_IntervalSeconds check * 1000) <? hc_TimeoutMilliseconds check))
              (prefix +:+ ".timeout_milliseconds must not exceed interval_seconds"))
   ++ when ((hc_FailureThreshold check <? 1) || (10 <? hc_FailureThreshold check))
        (prefix +:+ ".failure_threshold must be between 1 and 10")
   ++ when ((hc_SuccessThreshold check <? 1) || (10 <? hc_SuccessThreshold check))
        (prefix +:+ ".success_threshold must be between 1 and 10")
   ++ when (hc_ResourceVersion check =? 0)
        (prefix +:+ ".resource_version must be greater than zero")
   ++ each (λ j serviceCIDR,
              when (Prefix_Contains serviceCIDR (Addr_Unmap (ep_Address (hc_Endpoint check))))
                (prefix +:+ ".endpoint.address overlaps " +:+ at_index "service_cidrs" j))
        serviceCIDRs).

(** Allocation of a traffic class to [prefix]; shared by user policies and
    forwards. *)
Definition claim_class (prefix : string) (classID : N) (classOwners : gmap N string) :
    gmap N string * list string :=
  if classID =? 0 then (classOwners, [])
  else if (classID =? 1) || (classID =? 65535)
  then (classOwners, [prefix +:+ ".traffic_class_id is reserved"])
  else match classOwners !! classID with
       | Some owner =>
           (classOwners, [prefix +:+ ".traffic_class_id conflicts with " +:+ owner])
       | None => (<[classID := prefix]> classOwners, [])
       end.

(** One user policy; the state is the set of users and the class owners. *)
Definition validate_policy (i : nat) (policy : UserPolicySpec)
    (st : gset string * gmap N string) : (gset string * gmap N string) * list string :=
  let '(users, classOwners) := st in
  let prefix := at_index "user_policies" i in
  let '(users', e_id) :=
    if negb (validIdentifier (up_UserID policy)) then (users, [prefix +:+ ".user_id is invalid"])
    else if bool_decide (up_UserID policy ∈ users)
    then (users, [prefix +:+ ".user_id is duplicated"])
    else ({[up_UserID policy]} ∪ users, []) in
  let '(classOwners', e_class) := claim_class prefix (up_TrafficClassID policy) classOwners in
  ((users', classOwners'),
   e_id
   ++ when (up_ResourceVersion policy =? 0) (prefix +:+ ".resource_version must be greater than zero")
   ++ when (bool_decide (up_RateLimit policy = None) && bool_decide (up_TrafficQuota policy = None))
        (prefix +:+ " must set rate_limit or traffic_quota")
   ++ validateRateLimit (prefix +:+ ".rate_limit") (up_RateLimit policy)
   ++ validateQuota (prefix +:+ ".traffic_quota") (up_TrafficQuota policy)
   ++ e_class).

(** * Forwards *)

(** [listenKey]: address, protocol and port. *)
Definition listenKey : Type := Addr * Protocol * N.

Record forward_maps := ForwardMaps {
  fm_ids : gset string;               (** [ids] *)
  fm_classes : gmap N string;         (** [classOwners] *)
  fm_listeners : gmap listenKey string;
  fm_vips : gmap Addr string;         (** [serviceVIPOwners] *)
}.

(** The address and port traffic of the forward is matched by on this node: at
    the exit of a cross-node path it is the service VIP. *)
Definition forward_match (nodeID : string) (forward : ForwardSpec) : Addr * N :=
  match fw_ServiceVIP forward with
  | Some vip =>
      if bool_decide (fw_PathMode forward = PathViaExit)
         && bool_decide (nodeID = fw_ExitNodeID forward)
      then (Addr_Unmap vip, ep_Port (fw_Target forward))
      else (Addr_Unmap (ep_Address (fw_Listen forward)), ep_Port (fw_Listen forward))
  | None => (Addr_Unmap (ep_Address (fw_Listen forward)), ep_Port (fw_Listen forward))
  end.

Definition listen_key (nodeID : string) (forward : ForwardSpec) (protocol : Protocol) : listenKey :=
  let '(address, port) := forward_match nodeID forward in (address, protocol, port).

(** One protocol of a forward; the state is the protocols seen and the
    listeners claimed. *)
Definition validate_protocol (nodeID prefix : string) (forward : ForwardSpec)
    (_ : nat) (protocol : Protocol) (st : gset Protocol * gmap listenKey string) :
    (gset Protocol * gmap listenKey string) * list string :=
  let '(seen, listeners) := st in
  if negb (bool_decide (protocol = ProtocolTCP)) && negb (bool_decide (protocol = ProtocolUDP))
  then (st, [prefix +:+ ".protocols contains unsupported value " +:+ protocol])
  else if bool_decide (protocol ∈ seen)
  then (st, [prefix +:+ ".protocols contains duplicate " +:+ protocol])
  else
    let key := listen_key nodeID forward protocol in
    match listeners !! key with
    | Some owner =>
        (({[protocol]} ∪ seen, listeners),
         [prefix +:+ " listener conflicts with forward " +:+ owner])
    | None => (({[protocol]} ∪ seen, <[key := fw_ID forward]> listeners), [])
    end.

(** Ownership of a service VIP: one forward per VIP. *)
Definition claim_vip (prefix : string) (forward : ForwardSpec) (vip : Addr)
    (vips : gmap Addr string) : gmap Addr string * list string :=
  match vips !! vip with
  | Some owner =>
      if negb (bool_decide (owner = fw_ID forward))
      then (vips, [prefix +:+ ".service_vip conflicts with forward " +:+ owner])
      else (<[vip := fw_ID forward]> vips, [])
  | None => (<[vip := fw_ID forward]> vips, [])
  end.

(** [switch forward.PathMode] *)
Definition validate_path (s : DesiredState) (serviceCIDRs : list Prefix)
    (fabricLinks : gmap string FabricLinkSpec) (prefix : string) (forward : ForwardSpec)
    (vips : gmap Addr string) : gmap Addr string * list string :=
  if bool_decide (fw_PathMode forward = PathDirect) then
    (vips,
     when (negb (bool_decide (fw_ExitNodeID forward = "")))
       (prefix +:+ ".exit_node_id must be empty for direct path")
     ++ when (bool_decide (is_Some (fw_ServiceVIP forward)))
          (prefix +:+ ".service_vip must be empty for direct path")
     ++ when (negb (bool_decide (fw_FabricLinkID forward = "")))
          (prefix +:+ ".fabric_link_id must be empty for direct path")
     ++ when (negb (bool_decide (fw_IngressNodeID forward = ds_NodeID s)))
          (prefix +:+ " direct path is not assigned to this node"))
  else if bool_decide (fw_PathMode forward = PathViaExit) then
    let e_nodes :=
      when (ds_SchemaVersion s <? SchemaVersionV3)
        (prefix +:+ " via_exit path requires schema_version 3")
      ++ when (negb (validIdentifier (fw_ExitNodeID forward)))
           (prefix +:+ ".exit_node_id is required for via_exit path")
      ++ when (bool_decide (fw_ExitNodeID forward = fw_IngressNodeID forward))
           (prefix +:+ ".exit_node_id must differ from ingress_node_id")
      ++ when (negb (bool_decide (ds_NodeID s = fw_IngressNodeID forward))
               && negb (bool_decide (ds_NodeID s = fw_ExitNodeID forward)))
           (prefix +:+ " via_exit path is not assigned to this node") in
    let '(vips', e_vip) :=
      match fw_ServiceVIP forward with
      | None => (vips, [prefix +:+ ".service_vip is required for via_exit path"])
      | Some value =>
          let vip := Addr_Unmap value in
          let contained := existsb (λ c, Prefix_Contains c vip) serviceCIDRs in
          let '(vips', e_owner) := claim_vip prefix forward vip vips in
          (vips', validateIPv4 (prefix +:+ ".service_vip") value
                  ++ when (negb contained) (prefix +:+ ".service_vip is outside service_cidrs")
                  ++ e_owner)
      end in
    let e_link :=
      if negb (validIdentifier (fw_FabricLinkID forward))
      then [prefix +:+ ".fabric_link_id is required for via_exit path"]
      else match fabricLinks !! fw_FabricLinkID forward with
           | None => [prefix +:+ ".fabric_link_id does not exist"]
           | Some link =>
               let expectedPeer := if bool_decide (ds_NodeID s = fw_ExitNodeID forward)
                                   then fw_IngressNodeID forward else fw_ExitNodeID forward in
               when (negb (bool_decide (fl_PeerNodeID link = expectedPeer)))
                 (prefix +:+ ".fabric_link_id peer does not match the opposite node")
           end in
    (vips', e_nodes ++ e_vip ++ e_link)
  else (vips, [prefix +:+ ".path_mode is unsupported"]).

Definition supported_lifecycle (l : Lifecycle) : bool :=
  bool_decide (l ∈ [LifecycleActive; LifecyclePaused; LifecycleDraining; LifecycleForceDeleting]).

(** [switch forward.SNAT.Mode] *)
Definition validate_snat (prefix : string) (snat : SNATSpec) : list string :=
  if bool_decide (snat_Mode snat = SNATMasquerade) then
    when (bool_decide (is_Some (snat_Address snat)))
      (prefix +:+ ".snat.address must be empty for masquerade")
  else if bool_decide (snat_Mode snat = SNATStatic) then
    match snat_Address snat with
    | None => [prefix +:+ ".snat.address is required for static mode"]
    | Some a => validateIPv4 (prefix +:+ ".snat.address") a
    end
  else [prefix +:+ ".snat.mode is unsupported"].

(** Addresses of a forward must stay out of the service ranges. *)
Definition validate_forward_ranges (prefix : string) (forward : ForwardSpec)
    (serviceCIDRs : list Prefix) : list string :=
  each (λ j serviceCIDR,
    when (Prefix_Contains serviceCIDR (Addr_Unmap (ep_Address (fw_Listen forward))))
      (prefix +:+ ".listen.address overlaps " +:+ at_index "service_cidrs" j)
    ++ when (Prefix_Contains serviceCIDR (Addr_Unmap (ep_Address (fw_Target forward))))
         (prefix +:+ ".target.address overlaps " +:+ at_index "service_cidrs" j)
    ++ when (match snat_Address (fw_SNAT forward) with
             | Some a => Prefix_Contains serviceCIDR (Addr_Unmap a) | None => false end)
         (prefix +:+ ".snat.address overlaps " +:+ at_index "service_cidrs" j)) serviceCIDRs.

(** Expiry, drain deadline and the fields schema version 1 does not have. *)
Definition validate_forward_times (s : DesiredState) (prefix : string) (forward : ForwardSpec) :
    list string :=
  when (match fw_ExpiresAt forward with Some t => Time_IsZero t | None => false end)
    (prefix +:+ ".expires_at must not be zero")
  ++ (if bool_decide (fw_Lifecycle forward = LifecycleDraining)
      then when (match fw_DrainDeadline forward with Some t => Time_IsZero t | None => true end)
             (prefix +:+ ".drain_deadline is required while draining")
      else when (bool_decide (is_Some (fw_DrainDeadline forward)))
             (prefix +:+ ".drain_deadline is only valid while draining"))
  ++ when ((ds_SchemaVersion s =? SchemaVersionV1)
           && (negb (fw_TrafficClassID forward =? 0)
               || bool_decide (is_Some (fw_RateLimit forward))
               || bool_decide (is_Some (fw_TrafficQuota forward))
               || bool_decide (is_Some (fw_ExpiresAt forward))
               || bool_decide (is_Some (fw_DrainDeadline forward))
               || bool_decide (fw_Lifecycle forward = LifecycleForceDeleting)))
       (prefix +:+ " uses fields that require schema_version 2").

(** One forward. *)
Definition validate_forward (s : DesiredState) (serviceCIDRs : list Prefix)
    (fabricLinks : gmap string FabricLinkSpec) (i : nat) (forward : ForwardSpec)
    (m : forward_maps) : forward_maps * list string :=
  let prefix := at_index "forwards" i in
  let '(ids, e_id) :=
    if negb (validIdentifier (fw_ID forward)) then (fm_ids m, [prefix +:+ ".id is invalid"])
    else if bool_decide (fw_ID forward ∈ fm_ids m)
    then (fm_ids m, [prefix +:+ ".id is duplicated"])
    else ({[fw_ID forward]} ∪ fm_ids m, []) in
  let '(classes, e_class) := claim_class prefix (fw_TrafficClassID forward) (fm_classes m) in
  let '((_, listeners), e_protocols) :=
    vloop (validate_protocol (ds_NodeID s) prefix forward) 0 (fw_Protocols forward)
      (∅, fm_listeners m) in
  let '(vips, e_path) := validate_path s serviceCIDRs fabricLinks prefix forward (fm_vips m) in
  (ForwardMaps ids classes listeners vips,
   e_id
   ++ when (negb (validIdentifier (fw_UserID forward))) (prefix +:+ ".user_id is invalid")
   ++ when (negb (validIdentifier (fw_IngressNodeID forward))) (prefix +:+ ".ingress_node_id is invalid")
   ++ when (fw_ResourceVersion forward =? 0) (prefix +:+ ".resource_version must be greater than zero")
   ++ e_class
   ++ validateEndpoint (prefix +:+ ".listen") (fw_Listen forward)
   ++ validateEndpoint (prefix +:+ ".target") (fw_Target forward)
   ++ when (bool_decide (fw_Protocols forward = [])) (prefix +:+ ".protocols must not be empty")
   ++ e_protocols
   ++ e_path
   ++ when (negb (supported_lifecycle (fw_Lifecycle forward))) (prefix +:+ ".lifecycle is unsupported")
   ++ validate_snat prefix (fw_SNAT forward)
   ++ validateRateLimit (prefix +:+ ".rate_limit") (fw_RateLimit forward)
   ++ validateQuota (prefix +:+ ".traffic_quota") (fw_TrafficQuota forward)
   ++ validate_forward_ranges prefix forward serviceCIDRs
   ++ validate_forward_times s prefix forward).

(** [DesiredState.Validate]: the issues found, none when the state is valid. *)
Definition Validate (s : DesiredState) : list string :=
  let e_header := validate_header s in
  let '(serviceCIDRs, e_cidrs) := vloop validate_cidr 0 (ds_ServiceCIDRs s) [] in
  let e_schema := validate_schema s in
  let '(links, e_links) :=
    vloop (validate_link (ds_NodeID s) serviceCIDRs) 0 (ds_FabricLinks s)
      (LinkMaps ∅ ∅ ∅ ∅) in
  let '(_, e_checks) := vloop (validate_check serviceCIDRs) 0 (ds_HealthChecks s) ∅ in
  let '((_, classOwners), e_policies) :=
    vloop validate_policy 0 (ds_UserPolicies s) (∅, ∅) in
  let e_v1 := when ((ds_SchemaVersion s =? SchemaVersionV1) && negb (length (ds_UserPolicies s) =? 0)%nat)
                "user_policies requires schema_version 2" in
  let '(_, e_forwards) :=
    vloop (validate_forward s serviceCIDRs (lm_links links)) 0 (ds_Forwards s)
      (ForwardMaps ∅ classOwners ∅ ∅) in
  e_header ++ e_cidrs ++ e_schema ++ e_links ++ e_checks ++ e_policies ++ e_v1 ++ e_forwards.

(** The state is accepted: [Validate() == nil]. *)
Definition Valid (s : DesiredState) : Prop := Validate s = [].
#[export] Instance Valid_dec s : Decision (Valid s) := decide (Validate s = []).

(** [ValidationError.Error] *)
Definition ValidationError_Error (issues : list string) : string :=
  "invalid desired state: " +:+ Strings.String.concat "; " issues.
