(* ===== verification/SpecSamples.v ===== *)
(** Concrete desired states the witnesses evaluate: a direct forward with a
    tenant rate limit, and both ends of a cross-node forward. *)
From S2P Require Import Prelude GoNet SpecTypes.

Definition ip (a b c d : N) : Addr := Addr4 (be_bytes 8 [a; b; c; d]).
Definition endpoint (a : Addr) (port : N) : Endpoint := MkEndpoint a "" port.

Definition sample_forward : ForwardSpec :=
  {| fw_ID := "web"; fw_UserID := "tenant-a"; fw_Protocols := [ProtocolUDP; ProtocolTCP];
     fw_IngressNodeID := "node-a"; fw_ExitNodeID := "";
     fw_Listen := endpoint (ip 192 0 2 10) 8080; fw_Target := endpoint (ip 198 51 100 20) 80;
     fw_ServiceVIP := None; fw_FabricLinkID := ""; fw_PathMode := PathDirect;
     fw_SNAT := MkSNATSpec SNATMasquerade None; fw_TrafficClassID := 0;
     fw_RateLimit := None; fw_TrafficQuota := None; fw_ExpiresAt := Some 1000%Z;
     fw_DrainDeadline := None; fw_Lifecycle := LifecycleActive; fw_ResourceVersion := 7 |}.

Definition sample_policy : UserPolicySpec :=
  {| up_UserID := "tenant-a"; up_TrafficClassID := 16;
     up_RateLimit := Some (MkRateLimitSpec 1000000 2000000 65536);
     up_TrafficQuota := Some (MkTrafficQuotaSpec 1000000000 QuotaPolicyPause);
     up_ResourceVersion := 1 |}.

Definition sample_link : FabricLinkSpec :=
  {| fl_ID := "a-b"; fl_PeerNodeID := "node-b"; fl_Transport := FabricDirectL3;
     fl_Interface := "eth1"; fl_LocalAddress := MkPrefix (ip 10 0 0 1) 30;
     fl_PeerAddress := ip 10 0 0 2; fl_MTU := 1500; fl_RoutingID := 3; fl_Trusted := true;
     fl_WireGuard := None; fl_GRE := None; fl_ResourceVersion := 1 |}.

Definition sample_tunnel : ForwardSpec :=
  {| fw_ID := "tunnel"; fw_UserID := "tenant-a"; fw_Protocols := [ProtocolTCP];
     fw_IngressNodeID := "node-a"; fw_ExitNodeID := "node-b";
     fw_Listen := endpoint (ip 192 0 2 10) 9090; fw_Target := endpoint (ip 198 51 100 21) 443;
     fw_ServiceVIP := Some (ip 10 90 0 5); fw_FabricLinkID := "a-b"; fw_PathMode := PathViaExit;
     fw_SNAT := MkSNATSpec SNATStatic (Some (ip 203 0 113 5)); fw_TrafficClassID := 17;
     fw_RateLimit := Some (MkRateLimitSpec 500000 0 65536); fw_TrafficQuota := None;
     fw_ExpiresAt := None; fw_DrainDeadline := Some 500%Z;
     fw_Lifecycle := LifecycleDraining; fw_ResourceVersion := 2 |}.

Definition sample_check : HealthCheckSpec :=
  {| hc_PoolID := "pool"; hc_BackendID := "b1"; hc_Endpoint := endpoint (ip 198 51 100 20) 80;
     hc_Protocol := ProtocolTCP; hc_IntervalSeconds := 5; hc_TimeoutMilliseconds := 1000;
     hc_FailureThreshold := 3; hc_SuccessThreshold := 2; hc_ResourceVersion := 4 |}.

(** The ingress node of both forwards. *)
Definition sample_state : DesiredState :=
  {| ds_SchemaVersion := CurrentSchemaVersion; ds_NodeID := "node-a"; ds_Generation := 5;
     ds_ManagementDomain := "cluster:main";
     ds_ServiceCIDRs := [MkPrefix (ip 10 91 0 0) 16; MkPrefix (ip 10 90 0 0) 16];
     ds_FabricLinks := [sample_link]; ds_HealthChecks := [sample_check];
     ds_UserPolicies := [sample_policy];
     ds_ProtocolBlocks := Some (MkProtocolBlockPolicy false false true false);
     ds_Forwards := [sample_forward; sample_tunnel] |}.

(** A node that forwards nothing yet. *)
Definition idle_state : DesiredState :=
  {| ds_SchemaVersion := CurrentSchemaVersion; ds_NodeID := "node-a"; ds_Generation := 5;
     ds_ManagementDomain := "m"; ds_ServiceCIDRs := []; ds_FabricLinks := [];
     ds_HealthChecks := []; ds_UserPolicies := []; ds_ProtocolBlocks := None; ds_Forwards := [] |}.

(** The same intent, written in another order and with an IPv4-mapped address. *)
Definition sample_state_reordered : DesiredState :=
  {| ds_SchemaVersion := CurrentSchemaVersion; ds_NodeID := "node-a"; ds_Generation := 5;
     ds_ManagementDomain := "cluster:main";
     ds_ServiceCIDRs := [MkPrefix (ip 10 90 0 0) 16; MkPrefix (ip 10 91 0 0) 16];
     ds_FabricLinks := [sample_link]; ds_HealthChecks := [sample_check];
     ds_UserPolicies := [sample_policy];
     ds_ProtocolBlocks := Some (MkProtocolBlockPolicy false false true false);
     ds_Forwards :=
       [sample_tunnel;
        {| fw_ID := "web"; fw_UserID := "tenant-a"; fw_Protocols := [ProtocolTCP; ProtocolUDP];
           fw_IngressNodeID := "node-a"; fw_ExitNodeID := "";
           fw_Listen := endpoint (Addr6 (0xffff * 2 ^ 32 + be_bytes 8 [192; 0; 2; 10]) "") 8080;
           fw_Target := endpoint (ip 198 51 100 20) 80;
           fw_ServiceVIP := None; fw_FabricLinkID := ""; fw_PathMode := PathDirect;
           fw_SNAT := MkSNATSpec SNATMasquerade None; fw_TrafficClassID := 0;
           fw_RateLimit := None; fw_TrafficQuota := None; fw_ExpiresAt := Some 1000%Z;
           fw_DrainDeadline := None; fw_Lifecycle := LifecycleActive;
           fw_ResourceVersion := 7 |}] |}.

(** The exit node of the cross-node forward. *)
Definition sample_exit_state : DesiredState :=
  {| ds_SchemaVersion := CurrentSchemaVersion; ds_NodeID := "node-b"; ds_Generation := 5;
     ds_ManagementDomain := "cluster:main"; ds_ServiceCIDRs := [MkPrefix (ip 10 90 0 0) 16];
     ds_FabricLinks :=
       [{| fl_ID := "a-b"; fl_PeerNodeID := "node-a"; fl_Transport := FabricDirectL3;
           fl_Interface := "eth1"; fl_LocalAddress := MkPrefix (ip 10 0 0 2) 30;
           fl_PeerAddress := ip 10 0 0 1; fl_MTU := 1500; fl_RoutingID := 3; fl_Trusted := true;
           fl_WireGuard := None; fl_GRE := None; fl_ResourceVersion := 1 |}];
     ds_HealthChecks := []; ds_UserPolicies := []; ds_ProtocolBlocks := None;
     ds_Forwards := [sample_tunnel] |}.
