(* ===== verification/NetFacts.v ===== *)
(** Text round trips of IPv4 addresses and prefixes: what [netip] prints, it
    parses back, and what it parses is in range. *)
From S2P Require Import Prelude.
From S2P Require Import GoNet.
From S2P Require Import SpecCanonical.

(** * Parsed addresses are in range *)
Lemma parse_v4_fields_range l prev val dig acc fs :
  val ≤ 255 → Forall (λ x, x ≤ 255) acc → (length acc ≤ 3)%nat →
  parse_v4_fields l prev val dig acc = Some fs →
  Forall (λ x, x ≤ 255) fs ∧ length fs = 4%nat.
Proof.
  revert prev val dig acc. induction l as [|c l IH]; intros prev val dig acc Hv Ha Hl; cbn -[N.leb N.ltb Nat.ltb Nat.eqb].
  - destruct (length acc <? 3)%nat eqn:E; [done|]. apply Nat.ltb_ge in E. intros [= <-].
    rewrite length_app. cbn. split; [|lia]. apply Forall_app. by repeat constructor.
  - destruct (digit_val c) as [d|].
    + destruct (_ && _); [done|]. destruct (255 <? _) eqn:E; [done|]. apply N.ltb_ge in E.
      by apply IH.
    + destruct (negb _); [done|]. destruct (_ || _); [done|].
      destruct (length acc =? 3)%nat eqn:E; [done|]. apply Nat.eqb_neq in E.
      apply IH; [done| |rewrite length_app; cbn; lia]. apply Forall_app. by repeat constructor.
Qed.

Lemma parse_v4_range l b : parse_v4 l = Some (Addr4 b) → b < 2 ^ 32.
Proof.
  unfold parse_v4. destruct (parse_v4_fields l None 0 0 []) as [fs|] eqn:E; cbn; [|done].
  apply parse_v4_fields_range in E as [Hf Hlen]; [|lia|constructor|cbn; lia].
  intros [= <-]. destruct fs as [|f0 [|f1 [|f2 [|f3 [|]]]]]; try done.
  rewrite !Forall_cons in Hf. cbn -[N.mul N.pow N.lt]. change (2 ^ 8) with 256.
  change (2 ^ 32) with 4294967296. lia.
Qed.

Lemma ParseAddr_v4_range s b : ParseAddr s = Some (Addr4 b) → b < 2 ^ 32.
Proof.
  unfold ParseAddr. destruct (list_find _ _) as [[i c]|]; [|done].
  assert (parse_v6 (chars s) ≠ Some (Addr4 b)) as H6.
  { unfold parse_v6, mbind, option_bind. intros H.
    repeat (case_match; simplify_eq; try done). }
  intros H. assert (parse_v4 (chars s) = Some (Addr4 b)); [|by eapply parse_v4_range].
  repeat (case_match; simplify_eq; try done).
Qed.

(** * Printed addresses parse back *)
Lemma dot_first s t :
  forallb (byte_in "0" "9") (chars s) = true →
  ∃ i, list_find (λ c, c ∈ ["."; ":"; "%"]%char) (chars (s +:+ "." +:+ t)) = Some (i, "."%char).
Proof.
  rewrite !chars_app. generalize (chars s). intros l. induction l as [|c l IH]; intros Hl.
  - exists 0%nat. done.
  - cbn in Hl. apply andb_true_iff in Hl as [Hc Hl]. destruct (IH Hl) as [i Hi].
    exists (S i). cbn -[elem_of]. rewrite decide_False.
    + change (list_find _ _) with
        (list_find (λ c, c ∈ ["."; ":"; "%"]%char) (l ++ chars "." ++ chars t)).
      rewrite Hi. done.
    + rewrite !elem_of_cons, elem_of_nil. intros [->|[->|[->|[]]]]; done.
Qed.

Lemma show_octet_digits o : o < 256 → forallb (byte_in "0" "9") (chars (show o)) = true.
Proof.
  intros Ho. pose proof (octet_is_ok o Ho) as Hok. unfold octet_ok in Hok.
  destruct (digits_run _ _ _) as [[v d]|]; [|done]. destruct (last _); [|done].
  by apply andb_true_iff in Hok as [_ Hok].
Qed.

Lemma ParseAddr_show b : b < 2 ^ 32 → ParseAddr (show_v4 b) = Some (Addr4 b).
Proof.
  intros Hb. pose proof (parse_show_v4 b Hb) as Hp. unfold ParseAddr.
  assert (N.land (N.shiftr b 24) 255 < 256) as Ho.
  { change 255 with (N.ones 8). rewrite N.land_ones. by apply N.mod_lt. }
  destruct (dot_first (show (N.land (N.shiftr b 24) 255))
    (show (N.land (N.shiftr b 16) 255) +:+ "." +:+ show (N.land (N.shiftr b 8) 255)
     +:+ "." +:+ show (N.land (N.shiftr b 0) 255)) (show_octet_digits _ Ho)) as [i Hi].
  unfold show_v4 at 1. rewrite Hi. exact Hp.
Qed.

(** * Prefixes *)
Lemma last_slash l r :
  "/"%char ∉ r → last_index_byte "/" (l ++ "/"%char :: r) = Some (length l).
Proof.
  intros Hr. unfold last_index_byte, index_byte.
  rewrite rev_app_distr. cbn [rev]. rewrite <- app_assoc. cbn [app].
  assert (∀ k m, "/"%char ∉ k → list_find (λ x, "/"%char = x) (k ++ "/"%char :: m)
                              = Some (length k, "/"%char)) as Hf.
  { intros k m Hk. induction k as [|c k IH]; [done|]. apply not_elem_of_cons in Hk as [Hc Hk].
    cbn. rewrite decide_False by done. by rewrite (IH Hk). }
  rewrite Hf.
  - cbn. f_equal. rewrite length_app, length_rev. cbn. lia.
  - by rewrite <- in_rev, <- list_elem_of_In || rewrite list_elem_of_In, <- in_rev, <- list_elem_of_In.
Qed.

(** The two digits of a prefix length. *)
Definition bits_text_ok (k : N) : bool :=
  let l := chars (show k) in
  negb ((1 <? length l)%nat && negb (match l with c :: _ => byte_in "1" "9" c | _ => false end))
  && bool_decide (ParseUint 63 (of_chars l) = Some k)
  && bool_decide ("/"%char ∉ l).

Lemma bits_text k : k ≤ 32 → bits_text_ok k = true.
Proof.
  intros Hk. assert (forallb bits_text_ok (N.of_nat <$> seq 0 33) = true) as H
    by (vm_compute; reflexivity).
  rewrite forallb_forall in H. apply H, list_elem_of_In, list_elem_of_fmap.
  exists (N.to_nat k). split; [lia|]. apply elem_of_seq. lia.
Qed.

Lemma ParsePrefix_String p : prefix_v4 p → ParsePrefix (Prefix_String p) = Some p.
Proof.
  intros (x & k & -> & Hx & Hk). pose proof (bits_text k Hk) as Ht. unfold bits_text_ok in Ht.
  apply andb_true_iff in Ht as [[Ht1 Ht2]%andb_true_iff Ht3].
  apply bool_decide_eq_true in Ht2, Ht3. apply negb_true_iff in Ht1.
  unfold Prefix_String, Prefix_IsValid. cbn -[show show_v4 String.append].
  rewrite (proj2 (Z.leb_le _ _)) by lia. rewrite N2Z.id.
  unfold ParsePrefix. rewrite !chars_app.
  change (chars "/" ++ chars (show k)) with ("/"%char :: chars (show k)).
  rewrite last_slash by done. cbn [mbind option_bind].
  rewrite take_app_length. rewrite of_chars_chars, ParseAddr_show by done. cbn [mbind option_bind].
  rewrite drop_app_ge by lia. replace (S (length (chars (show_v4 x))) - length (chars (show_v4 x)))%nat
    with 1%nat by lia. cbn [drop]. rewrite drop_0, Ht1, Ht2. cbn -[PrefixFrom N.ltb].
  replace (32 <? k) with false by (symmetry; apply N.ltb_ge; lia).
  unfold PrefixFrom. cbn. rewrite !(proj2 (Z.leb_le _ _)) by lia. done.
Qed.

Lemma ParsePrefix_v4 s p :
  ParsePrefix s = Some p → Addr_Is4 (p_addr p) = true → prefix_v4 p.
Proof.
  unfold ParsePrefix. destruct (last_index_byte _ _) as [i|]; cbn [mbind option_bind]; [|done].
  destruct (ParseAddr _) as [a|] eqn:Ea; cbn [mbind option_bind]; [|done].
  destruct (match a with Addr6 _ z => _ | _ => false end); [done|].
  destruct (_ && _); [done|].
  destruct (ParseUint _ _) as [n|]; cbn [mbind option_bind]; [|done].
  destruct (Addr_BitLen a <? n) eqn:En; [done|]. apply N.ltb_ge in En. intros [= <-].
  unfold PrefixFrom. destruct (_ && _) eqn:E; intros H4; destruct a as [|b|b z]; try done.
  - exists b, n. cbn in En |- *. split_and!; [done| |done]. by eapply ParseAddr_v4_range.
  - exfalso. cbn -[Z.leb] in E. cbn in En. rewrite !(proj2 (Z.leb_le _ _)) in E by lia. done.
Qed.

Lemma mask_bits_below w k b : mask_bits w k b ≤ b.
Proof.
  unfold mask_bits. rewrite N.shiftl_mul_pow2, N.shiftr_div_pow2, N.mul_comm.
  apply N.Div0.mul_div_le.
Qed.

Lemma Masked_v4 p : prefix_v4 p → prefix_v4 (Prefix_Masked p).
Proof.
  intros (x & k & -> & Hx & Hk). unfold Prefix_Masked, Prefix_IsValid. cbn.
  rewrite (proj2 (Z.leb_le _ _)) by lia. rewrite N2Z.id.
  eexists _, k. split_and!; [done| |done]. eapply N.le_lt_trans; [apply mask_bits_below|done].
Qed.
