(* ===== verification/SpecFacts.v ===== *)
(** What an accepted desired state guarantees. The dataplane compilers and the
    reconciler rely on these facts and never on the validator's text. *)
From S2P Require Import Prelude GoNet GoCrypto SpecTypes SpecCanonical SpecValidate.

Lemma each_nil {A} (f : nat → A → list string) l j x :
  each f l = [] → l !! j = Some x → f j x = [].
Proof.
  unfold each. intros H Hj.
  assert (f j x ∈ imap f l) as Hin.
  { apply list_elem_of_lookup. exists j. rewrite list_lookup_imap, Hj. done. }
  destruct (f j x) as [|y k]; [done|]. exfalso.
  apply (not_elem_of_nil y). rewrite <-H. apply list_elem_of_join. eexists. split; [|done]. left.
Qed.

(** * The validator, taken apart *)
Lemma validIdentifier_slash value :
  validIdentifier value = true → "/"%char ∉ chars value.
Proof.
  unfold validIdentifier. destruct (chars value) as [|c l]; [done|].
  intros [[Hc Hl]%andb_true_iff _]%andb_true_iff. rewrite forallb_forall in Hl.
  intros [<-|Hin]%elem_of_cons; [done|].
  apply list_elem_of_In, Hl in Hin. done.
Qed.

Lemma Valid_inv s :
  Valid s →
  ∃ cidrs links checks users classes fm,
    validate_header s = []
    ∧ vloop validate_cidr 0 (ds_ServiceCIDRs s) [] = (cidrs, [])
    ∧ validate_schema s = []
    ∧ vloop (validate_link (ds_NodeID s) cidrs) 0 (ds_FabricLinks s) (LinkMaps ∅ ∅ ∅ ∅)
      = (links, [])
    ∧ vloop (validate_check cidrs) 0 (ds_HealthChecks s) ∅ = (checks, [])
    ∧ vloop validate_policy 0 (ds_UserPolicies s) (∅, ∅) = ((users, classes), [])
    ∧ vloop (validate_forward s cidrs (lm_links links)) 0 (ds_Forwards s)
        (ForwardMaps ∅ classes ∅ ∅) = (fm, []).
Proof.
  unfold Valid, Validate.
  destruct (vloop validate_cidr _ _ _) as [cidrs e1] eqn:E1.
  destruct (vloop (validate_link _ _) _ _ _) as [links e2] eqn:E2.
  destruct (vloop (validate_check _) _ _ _) as [checks e3] eqn:E3.
  destruct (vloop validate_policy _ _ _) as [[users classes] e4] eqn:E4.
  destruct (vloop (validate_forward _ _ _) _ _ _) as [fm e5] eqn:E5.
  intros H. split_issues H. subst. by do 6 eexists.
Qed.

(** ** Traffic classes *)
Lemma claim_class_silent prefix c owners owners' :
  claim_class prefix c owners = (owners', []) →
  (c = 0 ∧ owners' = owners)
  ∨ (c ≠ 0 ∧ c ≠ 1 ∧ c ≠ 65535 ∧ owners !! c = None ∧ owners' = <[c := prefix]> owners).
Proof.
  unfold claim_class. destruct (c =? 0) eqn:E0.
  { intros [= ->]. reflect_bool. by left. }
  destruct ((c =? 1) || (c =? 65535)) eqn:E1; [done|].
  destruct (owners !! c) eqn:E2; [done|]. intros [= <-]. reflect_bool. by right.
Qed.

(** The allocated classes of a list of optional claims. *)
Definition nonzero (l : list N) : list N := filter (λ c, c ≠ 0) l.

Definition classes_inv (claims : list N) (owners : gmap N string) : Prop :=
  NoDup (nonzero claims)
  ∧ (∀ c, c ∈ nonzero claims → c ≠ 1 ∧ c ≠ 65535)
  ∧ (∀ c, is_Some (owners !! c) ↔ c ∈ nonzero claims).

Lemma classes_inv_step claims prefix c owners owners' :
  classes_inv claims owners → claim_class prefix c owners = (owners', []) →
  classes_inv (claims ++ [c]) owners'.
Proof.
  intros (Hnd & Hres & Hdom) Hc. unfold classes_inv, nonzero in *.
  rewrite filter_app.
  apply claim_class_silent in Hc as [[-> ->]|(H0 & H1 & H2 & Hn & ->)].
  { rewrite filter_cons_False, filter_nil, app_nil_r by (intros ?; done). done. }
  rewrite filter_cons_True, filter_nil by done.
  assert (c ∉ filter (λ c, c ≠ 0) claims) as Hnin.
  { rewrite <-Hdom, Hn. by intros [? ?]. }
  split_and!.
  - apply NoDup_app. split_and!; [done| |apply NoDup_singleton].
    intros x Hx ->%list_elem_of_singleton. done.
  - intros x. rewrite elem_of_app, list_elem_of_singleton. intros [?| ->]; [by apply Hres|done].
  - intros x. rewrite lookup_insert_is_Some, elem_of_app, list_elem_of_singleton, Hdom.
    destruct (decide (c = x)); naive_solver.
Qed.

(** ** Service ranges *)
Lemma validateIPv4Prefix_silent name p :
  validateIPv4Prefix name p = None →
  Prefix_IsValid p = true
  ∧ (∃ x, Addr_Unmap (p_addr p) = Addr4 x ∧ p_addr (canonicalPrefix p) = Addr4 x).
Proof.
  unfold validateIPv4Prefix.
  destruct (Prefix_IsValid p) eqn:Hv; cbn; [|done].
  destruct (Addr_Is4 _) eqn:H4; cbn; [|done].
  destruct (_ || _); [done|]. case_bool_decide as Hc; [|done]. intros _.
  split; [done|]. destruct (Addr_Unmap (p_addr p)) as [|x|x z]; try done.
  by exists x.
Qed.

(** ** Forwards, one at a time *)
Lemma validate_protocol_silent node prefix f i p seen ls seen' ls' :
  validate_protocol node prefix f i p (seen, ls) = ((seen', ls'), []) →
  (p = ProtocolTCP ∨ p = ProtocolUDP)
  ∧ p ∉ seen ∧ seen' = {[p]} ∪ seen
  ∧ ls !! listen_key node f p = None
  ∧ ls' = <[listen_key node f p := fw_ID f]> ls.
Proof.
  unfold validate_protocol.
  destruct (negb _ && negb _) eqn:Ep; [done|].
  destruct (bool_decide (p ∈ seen)) eqn:Hs; [done|]. apply bool_decide_eq_false in Hs.
  destruct (ls !! _) eqn:El; [done|]. intros [= <- <-].
  split_and!; try done.
  apply andb_false_iff in Ep as [Ep|Ep]; reflect_bool; auto.
Qed.

(** The keys a forward listens on at this node. *)
Definition listen_keys (node : string) (f : ForwardSpec) : list listenKey :=
  listen_key node f <$> fw_Protocols f.

(** The protocol loop of one forward claims exactly one key per protocol. *)
Lemma validate_protocols_silent node prefix f ls seen' ls' :
  vloop (validate_protocol node prefix f) 0 (fw_Protocols f) (∅, ls) = ((seen', ls'), []) →
  NoDup (fw_Protocols f)
  ∧ Forall (λ p, p = ProtocolTCP ∨ p = ProtocolUDP) (fw_Protocols f)
  ∧ Forall (λ k, ls !! k = None) (listen_keys node f)
  ∧ (∀ k, is_Some (ls' !! k) ↔ is_Some (ls !! k) ∨ k ∈ listen_keys node f).
Proof.
  unfold listen_keys.
  set (I := λ (done : list Protocol) (st : gset Protocol * gmap listenKey string),
    NoDup done
    ∧ Forall (λ p, p = ProtocolTCP ∨ p = ProtocolUDP) done
    ∧ Forall (λ k, ls !! k = None) (listen_key node f <$> done)
    ∧ (∀ p, p ∈ st.1 ↔ p ∈ done)
    ∧ (∀ k, is_Some (st.2 !! k) ↔ is_Some (ls !! k) ∨ k ∈ (listen_key node f <$> done))).
  intros H. assert (I (fw_Protocols f) (seen', ls')) as (H1 & H2 & H3 & _ & H5); [|done].
  eapply vloop_inv; [..|exact H]; clear H.
  { split_and!; [constructor..|set_solver|cbn; set_solver]. }
  intros done p [seen l1] [seen2 l2] (Hnd & Hpr & Hf & Hs & Hd) Hstep.
  cbn in *. apply (validate_protocol_silent _ _ _ (length done)) in Hstep as (Hp & Hni & -> & Hn & ->).
  unfold I. rewrite !fmap_app. split_and!.
  - apply NoDup_app. split_and!; [done| |apply NoDup_singleton].
    intros x Hx ->%list_elem_of_singleton. by apply Hni, Hs.
  - apply Forall_app. by split; [|constructor].
  - apply Forall_app. split; [done|]. constructor; [|constructor].
    apply eq_None_not_Some. intros Hs1. eapply eq_None_not_Some; [exact Hn|]. apply Hd. by left.
  - intros x. cbn. rewrite elem_of_union, elem_of_singleton, elem_of_app, list_elem_of_singleton, Hs.
    tauto.
  - intros k. cbn. rewrite lookup_insert_is_Some, elem_of_app, Hd. cbn.
    rewrite list_elem_of_singleton.
    destruct (decide (listen_key node f p = k)); naive_solver.
Qed.

(** The facts about one accepted forward that do not depend on the others. *)
Record forward_ok (s : DesiredState) (cidrs : list Prefix)
    (links : gmap string FabricLinkSpec) (f : ForwardSpec) : Prop := {
  fo_id : validIdentifier (fw_ID f) = true;
  fo_user : validIdentifier (fw_UserID f) = true;
  fo_ingress : validIdentifier (fw_IngressNodeID f) = true;
  fo_version : fw_ResourceVersion f ≠ 0;
  fo_listen : ∃ n, validateEndpoint n (fw_Listen f) = [];
  fo_target : ∃ n, validateEndpoint n (fw_Target f) = [];
  fo_protocols : fw_Protocols f ≠ [];
  fo_path : ∃ n vips vips', validate_path s cidrs links n f vips = (vips', []);
  fo_lifecycle : supported_lifecycle (fw_Lifecycle f) = true;
  fo_snat : ∃ n, validate_snat n (fw_SNAT f) = [];
  fo_rate : ∃ n, validateRateLimit n (fw_RateLimit f) = [];
  fo_quota : ∃ n, validateQuota n (fw_TrafficQuota f) = [];
  fo_ranges : ∃ n, validate_forward_ranges n f cidrs = [];
  fo_times : ∃ n, validate_forward_times s n f = [];
}.

Lemma validate_forward_silent s cidrs links i f m m' :
  validate_forward s cidrs links i f m = (m', []) →
  forward_ok s cidrs links f
  ∧ fw_ID f ∉ fm_ids m ∧ fm_ids m' = {[fw_ID f]} ∪ fm_ids m
  ∧ claim_class (at_index "forwards" i) (fw_TrafficClassID f) (fm_classes m)
    = (fm_classes m', [])
  ∧ (∃ seen, vloop (validate_protocol (ds_NodeID s) (at_index "forwards" i) f) 0
               (fw_Protocols f) (∅, fm_listeners m) = ((seen, fm_listeners m'), []))
  ∧ validate_path s cidrs links (at_index "forwards" i) f (fm_vips m) = (fm_vips m', []).
Proof.
  unfold validate_forward.
  destruct (negb (validIdentifier (fw_ID f))) eqn:Eid;
    [by destruct (claim_class _ _ _), (vloop _ _ _ _) as [[? ?] ?], (validate_path _ _ _ _ _ _)|].
  case_bool_decide as Hin;
    [by destruct (claim_class _ _ _), (vloop _ _ _ _) as [[? ?] ?], (validate_path _ _ _ _ _ _)|].
  destruct (claim_class _ _ _) as [cl e1] eqn:E1.
  destruct (vloop _ _ _ _) as [[seen ls] e2] eqn:E2.
  destruct (validate_path _ _ _ _ _ _) as [vips e3] eqn:E3.
  intros H. split_issues H. subst. cbn. reflect_bool.
  split; [split; eauto|split_and!; eauto].
Qed.

(** ** All the forwards *)
Lemma validate_forwards_silent s cidrs links claims classes fm :
  classes_inv claims classes →
  vloop (validate_forward s cidrs links) 0 (ds_Forwards s) (ForwardMaps ∅ classes ∅ ∅)
    = (fm, []) →
  NoDup (fw_ID <$> ds_Forwards s)
  ∧ Forall (forward_ok s cidrs links) (ds_Forwards s)
  ∧ NoDup (ds_Forwards s ≫= listen_keys (ds_NodeID s))
  ∧ classes_inv (claims ++ (fw_TrafficClassID <$> ds_Forwards s)) (fm_classes fm)
  ∧ Forall (λ f, NoDup (fw_Protocols f)
                 ∧ Forall (λ p, p = ProtocolTCP ∨ p = ProtocolUDP) (fw_Protocols f))
      (ds_Forwards s).
Proof.
  intros Hcl H.
  set (I := λ (done : list ForwardSpec) (m : forward_maps),
    NoDup (fw_ID <$> done)
    ∧ Forall (forward_ok s cidrs links) done
    ∧ NoDup (done ≫= listen_keys (ds_NodeID s))
    ∧ classes_inv (claims ++ (fw_TrafficClassID <$> done)) (fm_classes m)
    ∧ Forall (λ f, NoDup (fw_Protocols f)
                 ∧ Forall (λ p, p = ProtocolTCP ∨ p = ProtocolUDP) (fw_Protocols f)) done
    ∧ (∀ x, x ∈ fm_ids m ↔ x ∈ (fw_ID <$> done))
    ∧ (∀ k, is_Some (fm_listeners m !! k) ↔ k ∈ (done ≫= listen_keys (ds_NodeID s)))).
  assert (I (ds_Forwards s) fm) as (H1 & H2 & H3 & H4 & H5 & _); [|done].
  eapply vloop_inv; [..|exact H]; clear H.
  { unfold I. cbn. rewrite app_nil_r.
    split_and!; [constructor..|done|constructor|set_solver|].
    intros k. rewrite lookup_empty. split; [by intros [? ?]|by intros ?%elem_of_nil]. }
  intros done f m m' (Hid & Hok & Hks & Hc & Hp & Hids & Hls) Hstep.
  apply validate_forward_silent in Hstep as (Hf & Hnew & Hids' & Hclass & [seen Hprot] & _).
  apply validate_protocols_silent in Hprot as (Hnd & Hsup & Hfree & Hdom).
  unfold I. rewrite !fmap_app, bind_app. cbn. rewrite app_nil_r.
  assert (∀ k, k ∈ (done ≫= listen_keys (ds_NodeID s)) → k ∈ listen_keys (ds_NodeID s) f → False)
    as Hdisj.
  { intros k Hk1%Hls Hk2. rewrite Forall_forall in Hfree.
    rewrite (Hfree k Hk2) in Hk1. by destruct Hk1. }
  split_and!.
  - apply NoDup_app. split_and!; [done| |apply NoDup_singleton].
    intros x Hx ->%list_elem_of_singleton. by apply Hnew, Hids.
  - apply Forall_app. by split; [|constructor].
  - apply NoDup_app. split_and!; [done|by intros k ??; eapply Hdisj|].
    apply NoDup_fmap_2; [|done]. intros p q. unfold listen_key.
    destruct (forward_match _ f). by intros [= ->].
  - rewrite app_assoc. by eapply classes_inv_step.
  - apply Forall_app. by split; [|constructor].
  - intros x. rewrite Hids', elem_of_union, elem_of_singleton, elem_of_app,
      list_elem_of_singleton, Hids. tauto.
  - intros k. by rewrite Hdom, elem_of_app, Hls.
Qed.

(** ** User policies *)
Record policy_ok (p : UserPolicySpec) : Prop := {
  po_user : validIdentifier (up_UserID p) = true;
  po_version : up_ResourceVersion p ≠ 0;
  po_limits : up_RateLimit p ≠ None ∨ up_TrafficQuota p ≠ None;
  po_rate : ∃ n, validateRateLimit n (up_RateLimit p) = [];
  po_quota : ∃ n, validateQuota n (up_TrafficQuota p) = [];
}.

Lemma validate_policies_silent policies users classes :
  vloop validate_policy 0 policies (∅, ∅) = ((users, classes), []) →
  NoDup (up_UserID <$> policies)
  ∧ Forall policy_ok policies
  ∧ classes_inv (up_TrafficClassID <$> policies) classes.
Proof.
  intros H.
  set (I := λ (done : list UserPolicySpec) (st : gset string * gmap N string),
    NoDup (up_UserID <$> done) ∧ Forall policy_ok done
    ∧ classes_inv (up_TrafficClassID <$> done) st.2
    ∧ (∀ x, x ∈ st.1 ↔ x ∈ (up_UserID <$> done))).
  assert (I policies (users, classes)) as (H1 & H2 & H3 & _); [|done].
  eapply vloop_inv; [..|exact H]; clear H.
  { split_and!; [constructor..| |set_solver].
    unfold classes_inv, nonzero. cbn. split_and!; [constructor|set_solver|].
    intros c. rewrite lookup_empty. split; [by intros [? ?]|by intros ?%elem_of_nil]. }
  intros done p [us cl] st' (Hnd & Hok & Hcl & Hus) Hstep. unfold validate_policy in Hstep.
  destruct (claim_class _ _ _) as [cl' e] eqn:Ec.
  destruct (negb (validIdentifier (up_UserID p))) eqn:Eid; [done|].
  destruct (bool_decide (up_UserID p ∈ us)) eqn:Ein; [done|].
  split_issues Hstep. subst. reflect_bool. cbn in *.
  unfold I. rewrite !fmap_app. cbn. split_and!.
  - apply NoDup_app. split_and!; [done| |apply NoDup_singleton].
    intros x Hx ->%list_elem_of_singleton. by apply Ein, Hus.
  - apply Forall_app. split; [done|]. constructor; [|constructor]. split; eauto.
    match goal with H : _ && _ = false |- _ => apply andb_false_iff in H as [H|H] end;
      reflect_bool; auto.
  - by eapply classes_inv_step.
  - intros x. rewrite elem_of_union, elem_of_singleton, elem_of_app,
      list_elem_of_singleton, Hus. tauto.
Qed.

(** ** Fabric links *)
Record link_ok (node : string) (cidrs : list Prefix) (l : FabricLinkSpec) : Prop := {
  lo_id : validIdentifier (fl_ID l) = true;
  lo_peer : validIdentifier (fl_PeerNodeID l) = true;
  lo_other : fl_PeerNodeID l ≠ node;
  lo_interface : interfacePattern (fl_Interface l) = true;
  lo_local : ∃ n, validateIPv4InterfacePrefix n (fl_LocalAddress l) = None;
  lo_addresses : ∃ n, validate_link_peer n l cidrs = [];
  lo_mtu : 1280 ≤ fl_MTU l ≤ 9000;
  lo_routing : fl_RoutingID l ≠ 0 ∧ fl_RoutingID l ≠ 65535;
  lo_version : fl_ResourceVersion l ≠ 0;
  lo_transport : ∃ n, validate_link_transport n l = [];
}.

Lemma validate_link_local_silent n l cidrs owners owners' :
  validate_link_local n l cidrs owners = (owners', []) →
  ∃ n', validateIPv4InterfacePrefix n' (fl_LocalAddress l) = None.
Proof.
  unfold validate_link_local.
  destruct (validateIPv4InterfacePrefix _ _) eqn:E; [done|]. eauto.
Qed.

Lemma validate_link_silent node cidrs i l m m' :
  validate_link node cidrs i l m = (m', []) →
  link_ok node cidrs l
  ∧ lm_links m !! fl_ID l = None ∧ lm_links m' = <[fl_ID l := l]> (lm_links m)
  ∧ lm_routing m !! fl_RoutingID l = None
  ∧ lm_routing m' = <[fl_RoutingID l := at_index "fabric_links" i]> (lm_routing m).
Proof.
  unfold validate_link.
  destruct (negb (validIdentifier (fl_ID l))) eqn:Eid;
    [|destruct (lm_links m !! fl_ID l) eqn:El];
  (destruct (negb (interfacePattern _)) eqn:Eif;
    [|destruct (interface_conflict l (lm_interfaces m)) eqn:Eown]);
  (destruct (validate_link_local _ _ _ _) as [locals e1] eqn:E1);
  (destruct ((fl_RoutingID l =? 0) || (fl_RoutingID l =? 65535)) eqn:Er;
    [|destruct (lm_routing m !! fl_RoutingID l) eqn:Erl]); try done;
  intros H; split_issues H; try done.
  subst. apply validate_link_local_silent in E1. reflect_bool.
  split; [split; eauto; lia|done].
Qed.

Lemma validate_links_silent node cidrs links m :
  vloop (validate_link node cidrs) 0 links (LinkMaps ∅ ∅ ∅ ∅) = (m, []) →
  NoDup (fl_ID <$> links) ∧ NoDup (fl_RoutingID <$> links)
  ∧ Forall (link_ok node cidrs) links
  ∧ (∀ id l, lm_links m !! id = Some l ↔ l ∈ links ∧ fl_ID l = id).
Proof.
  intros H.
  set (I := λ (done : list FabricLinkSpec) (m : link_maps),
    NoDup (fl_ID <$> done) ∧ NoDup (fl_RoutingID <$> done)
    ∧ Forall (link_ok node cidrs) done
    ∧ (∀ id l, lm_links m !! id = Some l ↔ l ∈ done ∧ fl_ID l = id)
    ∧ (∀ r, is_Some (lm_routing m !! r) ↔ r ∈ (fl_RoutingID <$> done))).
  assert (I links m) as (H1 & H2 & H3 & H4 & _); [|done].
  eapply vloop_inv; [..|exact H]; clear H.
  { split_and!; [constructor..| |]; cbn; intros ?; intros;
      rewrite lookup_empty; [split; [done|by intros [?%elem_of_nil _]]|].
    split; [by intros [? ?]|by intros ?%elem_of_nil]. }
  intros done l ms ms' (Hid & Hr & Hok & Hl & Hrs) Hstep.
  apply validate_link_silent in Hstep as (Hlok & Hnew & Hlinks & Hrnew & Hrouting).
  unfold I. rewrite !fmap_app, Hlinks, Hrouting. cbn. split_and!.
  - apply NoDup_app. split_and!; [done| |apply NoDup_singleton].
    intros x (l' & -> & Hin)%list_elem_of_fmap Heq%list_elem_of_singleton.
    assert (lm_links ms !! fl_ID l' = Some l') as E by by apply Hl.
    rewrite Heq in E. congruence.
  - apply NoDup_app. split_and!; [done| |apply NoDup_singleton].
    intros x Hx ->%list_elem_of_singleton. apply Hrs in Hx. rewrite Hrnew in Hx. by destruct Hx.
  - apply Forall_app. by split; [|constructor].
  - intros id l'. rewrite lookup_insert_Some, elem_of_app, list_elem_of_singleton, Hl.
    split; [naive_solver|]. intros [[Hin| ->] <-]; [|by left].
    right. split; [|done]. intros Heq. rewrite Heq in Hnew.
    assert (lm_links ms !! fl_ID l' = Some l') by by apply Hl. congruence.
  - intros r. rewrite lookup_insert_is_Some, elem_of_app, list_elem_of_singleton, Hrs.
    destruct (decide (fl_RoutingID l = r)); naive_solver.
Qed.

(** ** Service ranges *)
Lemma prefixesOverlap_sym p q : prefixesOverlap p q = prefixesOverlap q p.
Proof. unfold prefixesOverlap. rewrite (orb_comm (negb _)). case_match; [done|]. apply orb_comm. Qed.

Lemma validate_cidrs_silent ps cidrs :
  vloop validate_cidr 0 ps [] = (cidrs, []) →
  cidrs = canonicalPrefix <$> ps
  ∧ Forall (λ p, ∃ n, validateIPv4Prefix n p = None) ps
  ∧ (∀ i j p q, i ≠ j → cidrs !! i = Some p → cidrs !! j = Some q →
                prefixesOverlap p q = false).
Proof.
  intros H.
  set (I := λ (done : list Prefix) (cs : list Prefix),
    cs = canonicalPrefix <$> done
    ∧ Forall (λ p, ∃ n, validateIPv4Prefix n p = None) done
    ∧ (∀ i j p q, i ≠ j → cs !! i = Some p → cs !! j = Some q →
                prefixesOverlap p q = false)).
  assert (I ps cidrs) as HI; [|exact HI].
  eapply vloop_inv; [..|exact H]; clear H.
  { split_and!; [done|constructor|]. intros i j p q _ Hi. by rewrite lookup_nil in Hi. }
  intros done p cs cs' (-> & Hok & Hd) Hstep. unfold validate_cidr in Hstep.
  destruct (validateIPv4Prefix _ p) eqn:Ep; [done|]. injection Hstep as <- Hstep.
  unfold I. rewrite fmap_app. cbn. split_and!.
  - done.
  - apply Forall_app. split; [done|]. constructor; [eauto|constructor].
  - assert (∀ j q, (canonicalPrefix <$> done) !! j = Some q →
              prefixesOverlap (canonicalPrefix p) q = false) as Hnew.
    { intros j q Hj. eapply each_nil in Hstep; [|exact Hj]. by apply when_nil in Hstep. }
    intros i j x y Hij [Hi|[Hi Hx]]%lookup_app_Some [Hj|[Hj Hy]]%lookup_app_Some.
    + by eapply Hd.
    + apply list_lookup_singleton_Some in Hy as [? <-].
      rewrite prefixesOverlap_sym. by eapply Hnew.
    + apply list_lookup_singleton_Some in Hx as [? <-]. by eapply Hnew.
    + apply list_lookup_singleton_Some in Hx as [? <-].
      apply list_lookup_singleton_Some in Hy as [? <-]. exfalso. apply Hij. lia.
Qed.

(** ** Health checks *)
Record check_ok (c : HealthCheckSpec) : Prop := {
  co_pool : validIdentifier (hc_PoolID c) = true;
  co_backend : validIdentifier (hc_BackendID c) = true;
  co_endpoint : ∃ n, validateEndpoint n (hc_Endpoint c) = [];
  co_protocol : hc_Protocol c = ProtocolTCP;
  co_interval : 1 ≤ hc_IntervalSeconds c ≤ 300;
  co_timeout : 100 ≤ hc_TimeoutMilliseconds c ≤ 30000;
  co_fits : hc_TimeoutMilliseconds c ≤ hc_IntervalSeconds c * 1000;
  co_failure : 1 ≤ hc_FailureThreshold c ≤ 10;
  co_success : 1 ≤ hc_SuccessThreshold c ≤ 10;
  co_version : hc_ResourceVersion c ≠ 0;
}.

Definition check_key (c : HealthCheckSpec) : string * string := (hc_PoolID c, hc_BackendID c).

Lemma validate_checks_silent cidrs checks seen :
  vloop (validate_check cidrs) 0 checks ∅ = (seen, []) →
  NoDup (check_key <$> checks) ∧ Forall check_ok checks.
Proof.
  intros H.
  set (I := λ (done : list HealthCheckSpec) (st : gset (string * string)),
    NoDup (check_key <$> done) ∧ Forall check_ok done
    ∧ (∀ k, k ∈ st ↔ k ∈ (check_key <$> done))).
  assert (I checks seen) as (H1 & H2 & _); [|done].
  eapply vloop_inv; [..|exact H]; clear H.
  { split_and!; [constructor..|set_solver]. }
  intros done c st st' (Hnd & Hok & Hs) Hstep. unfold validate_check in Hstep.
  destruct (bool_decide ((hc_PoolID c, hc_BackendID c) ∈ st)) eqn:Ein;
    [split_issues Hstep; done|].
  destruct ((hc_TimeoutMilliseconds c <? 100) || (30000 <? hc_TimeoutMilliseconds c)) eqn:Et;
    [split_issues Hstep; done|].
  split_issues Hstep. reflect_bool. subst. unfold I. rewrite !fmap_app. cbn. split_and!.
  - apply NoDup_app. split_and!; [done| |apply NoDup_singleton].
    intros x Hx ->%list_elem_of_singleton. by apply Ein, Hs.
  - apply Forall_app. split; [done|]. constructor; [|constructor].
    split; try done; try lia; eauto.
    match goal with H : _ && _ = false |- _ => apply andb_false_iff in H as [H|H] end;
      reflect_bool; [lia|].
    unfold wrap in *. rewrite N.mod_small in *; [done|].
    change (2 ^ 32) with 4294967296. lia.
  - intros k. rewrite elem_of_union, elem_of_singleton, elem_of_app,
      list_elem_of_singleton, Hs. unfold check_key. tauto.
Qed.
