(* ===== verification/SpecTheorems.v ===== *)
(** The contract of [DesiredState.Validate] and [DesiredState.Canonical] towards
    the rest of the program, with witnesses on the sample states. *)
From S2P Require Import Prelude GoNet GoCrypto SpecTypes SpecCanonical SpecValidate SpecSamples SpecFacts.

(** * Consequences of validity used by other components *)
Lemma Valid_cidrs s :
  Valid s →
  ∃ cidrs, cidrs = canonicalPrefix <$> ds_ServiceCIDRs s
    ∧ Forall (λ p, ∃ n, validateIPv4Prefix n p = None) (ds_ServiceCIDRs s)
    ∧ (∀ i j p q, i ≠ j → cidrs !! i = Some p → cidrs !! j = Some q →
                  prefixesOverlap p q = false)
    ∧ NoDup (fl_ID <$> ds_FabricLinks s) ∧ NoDup (fl_RoutingID <$> ds_FabricLinks s)
    ∧ Forall (link_ok (ds_NodeID s) cidrs) (ds_FabricLinks s)
    ∧ NoDup (check_key <$> ds_HealthChecks s) ∧ Forall check_ok (ds_HealthChecks s)
    ∧ NoDup (up_UserID <$> ds_UserPolicies s) ∧ Forall policy_ok (ds_UserPolicies s)
    ∧ NoDup (fw_ID <$> ds_Forwards s)
    ∧ NoDup (ds_Forwards s ≫= listen_keys (ds_NodeID s))
    ∧ (∃ owners, classes_inv ((up_TrafficClassID <$> ds_UserPolicies s)
                              ++ (fw_TrafficClassID <$> ds_Forwards s)) owners)
    ∧ (∃ links, (∀ id l, links !! id = Some l ↔ l ∈ ds_FabricLinks s ∧ fl_ID l = id)
                ∧ Forall (forward_ok s cidrs links) (ds_Forwards s))
    ∧ Forall (λ f, NoDup (fw_Protocols f)
                 ∧ Forall (λ p, p = ProtocolTCP ∨ p = ProtocolUDP) (fw_Protocols f))
        (ds_Forwards s).
Proof.
  intros (cidrs & links & checks & users & classes & fm & _ & Hc & _ & Hl & Hh & Hp & Hf)%Valid_inv.
  apply validate_cidrs_silent in Hc as (-> & Hc1 & Hc2).
  apply validate_links_silent in Hl as (Hl1 & Hl2 & Hl3 & Hl4).
  apply validate_checks_silent in Hh as (Hh1 & Hh2).
  apply validate_policies_silent in Hp as (Hp1 & Hp2 & Hp3).
  eapply validate_forwards_silent in Hf as (Hf1 & Hf2 & Hf3 & Hf4 & Hf5); [|exact Hp3].
  eexists. split_and!; eauto.
Qed.

Lemma Valid_header s : Valid s → validate_header s = [].
Proof. by intros (? & ? & ? & ? & ? & ? & ? & _)%Valid_inv. Qed.

Lemma Valid_checks s :
  Valid s → NoDup (check_key <$> ds_HealthChecks s) ∧ Forall check_ok (ds_HealthChecks s).
Proof. intros (? & _ & _ & _ & _ & _ & _ & H1 & H2 & _)%Valid_cidrs. done. Qed.

(** * Listeners *)

(** In an accepted state no two forwards (nor two protocols of one) claim
    the same matching address, protocol and port on the node, and forward IDs
    are unique: the dataplane's lookup sets are unambiguous. *)
Theorem Valid_listeners_unique s :
  Valid s →
  NoDup (fw_ID <$> ds_Forwards s)
  ∧ NoDup (ds_Forwards s ≫= listen_keys (ds_NodeID s)).
Proof. intros (cidrs & H)%Valid_cidrs. tauto. Qed.

Lemma Valid_listeners_unique_witness :
  Valid sample_state ∧ length (ds_Forwards sample_state ≫= listen_keys "node-a") = 3%nat
  ∧ NoDup (fw_ID <$> ds_Forwards sample_state)
  ∧ NoDup (ds_Forwards sample_state ≫= listen_keys (ds_NodeID sample_state)).
Proof.
  split; [vm_compute; reflexivity|]. split; [vm_compute; reflexivity|].
  apply Valid_listeners_unique. vm_compute. reflexivity.
Defined.

(** * Traffic classes *)

(** The traffic classes allocated to policies and forwards of an accepted
    state are pairwise different and none is a reserved class of the shaper. *)
Theorem Valid_classes_exclusive s :
  Valid s →
  let claims := (up_TrafficClassID <$> ds_UserPolicies s)
                ++ (fw_TrafficClassID <$> ds_Forwards s) in
  NoDup (nonzero claims) ∧ ∀ c, c ∈ nonzero claims → c ≠ 1 ∧ c ≠ 65535.
Proof.
  intros (cidrs & _ & _ & _ & _ & _ & _ & _ & _ & _ & _ & _ & _ & (owners & H) & _)%Valid_cidrs.
  destruct H as (H1 & H2 & _). done.
Qed.

Lemma Valid_classes_exclusive_witness :
  Valid sample_state
  ∧ nonzero ((up_TrafficClassID <$> ds_UserPolicies sample_state)
             ++ (fw_TrafficClassID <$> ds_Forwards sample_state)) = [16; 17]
  ∧ NoDup (nonzero ((up_TrafficClassID <$> ds_UserPolicies sample_state)
             ++ (fw_TrafficClassID <$> ds_Forwards sample_state))).
Proof.
  split; [vm_compute; reflexivity|]. split; [vm_compute; reflexivity|].
  apply (Valid_classes_exclusive sample_state). vm_compute. reflexivity.
Defined.

(** * Cross-node paths *)
Lemma validate_path_via s cidrs links n f vips vips' :
  fw_PathMode f = PathViaExit →
  validate_path s cidrs links n f vips = (vips', []) →
  SchemaVersionV3 ≤ ds_SchemaVersion s
  ∧ fw_ExitNodeID f ≠ fw_IngressNodeID f
  ∧ (ds_NodeID s = fw_IngressNodeID f ∨ ds_NodeID s = fw_ExitNodeID f)
  ∧ (∃ vip, fw_ServiceVIP f = Some vip ∧ validateIPv4 (n +:+ ".service_vip") vip = []
            ∧ existsb (λ c, Prefix_Contains c (Addr_Unmap vip)) cidrs = true)
  ∧ (∃ link, links !! fw_FabricLinkID f = Some link
       ∧ fl_PeerNodeID link = if bool_decide (ds_NodeID s = fw_ExitNodeID f)
                              then fw_IngressNodeID f else fw_ExitNodeID f).
Proof.
  unfold validate_path. intros Hp.
  rewrite (bool_decide_eq_false_2 (fw_PathMode f = PathDirect)) by (rewrite Hp; discriminate).
  rewrite bool_decide_eq_true_2 by done.
  destruct (fw_ServiceVIP f) as [vip|]; [|intros H; split_issues H; done].
  destruct (claim_vip _ _ _ _) as [v1 e1].
  destruct (negb (validIdentifier (fw_FabricLinkID f))); [intros H; split_issues H; done|].
  destruct (links !! fw_FabricLinkID f) as [link|]; intros H; split_issues H; [|done].
  reflect_bool. split_and!; try done.
  - match goal with H : _ && _ = false |- _ => apply andb_false_iff in H as [H|H] end;
      reflect_bool; auto.
  - eauto.
  - eauto.
Qed.

Lemma Valid_path_resolved s f :
  Valid s → f ∈ ds_Forwards s → fw_PathMode f = PathViaExit →
  fw_ExitNodeID f ≠ fw_IngressNodeID f
  ∧ (ds_NodeID s = fw_IngressNodeID f ∨ ds_NodeID s = fw_ExitNodeID f)
  ∧ (∃ vip x, fw_ServiceVIP f = Some vip ∧ Addr_Unmap vip = Addr4 x
       ∧ ∃ c, c ∈ ds_ServiceCIDRs s ∧ Prefix_Contains (canonicalPrefix c) (Addr4 x) = true)
  ∧ (∃ link, link ∈ ds_FabricLinks s ∧ fl_ID link = fw_FabricLinkID f
       ∧ fl_PeerNodeID link = if bool_decide (ds_NodeID s = fw_ExitNodeID f)
                              then fw_IngressNodeID f else fw_ExitNodeID f).
Proof.
  intros Hv Hin Hp. apply Valid_cidrs in Hv
    as (cidrs & -> & _ & _ & _ & _ & _ & _ & _ & _ & _ & _ & _ & _ & (links & Hl & Hf) & _).
  rewrite Forall_forall in Hf. destruct (fo_path _ _ _ _ (Hf f Hin)) as (n & v & v' & Hpath).
  apply validate_path_via in Hpath as (_ & Hne & Hends & (vip & Hvip & Hv4 & Hc) & (link & Hlk & Hpeer));
    [|done].
  split; [done|]. split; [done|]. split.
  - exists vip. unfold validateIPv4 in Hv4.
    destruct (negb (Addr_IsValid vip)); [done|].
    destruct (Addr_Unmap vip) as [|x|x z] eqn:Hx; try done. exists x. split_and!; [done..|].
    apply existsb_exists in Hc as (c & Hcin & Hcc). apply list_elem_of_In in Hcin.
    apply list_elem_of_fmap in Hcin as (c' & -> & Hc'). eauto.
  - apply Hl in Hlk as [? ?]. eauto.
Qed.

(** A cross-node forward of an accepted state is complete: the node is one
    of its two distinct ends, its service VIP is a concrete IPv4 address inside
    one of the service ranges, and the fabric link it names exists on the node
    and leads to the opposite end. *)
Theorem Valid_via_exit_resolved s f :
  Valid s → f ∈ ds_Forwards s → fw_PathMode f = PathViaExit →
  fw_ExitNodeID f ≠ fw_IngressNodeID f
  ∧ (ds_NodeID s = fw_IngressNodeID f ∨ ds_NodeID s = fw_ExitNodeID f)
  ∧ (∃ vip x, fw_ServiceVIP f = Some vip ∧ Addr_Unmap vip = Addr4 x
       ∧ ∃ c, c ∈ ds_ServiceCIDRs s ∧ Prefix_Contains (canonicalPrefix c) (Addr4 x) = true)
  ∧ (∃ link, link ∈ ds_FabricLinks s ∧ fl_ID link = fw_FabricLinkID f
       ∧ fl_PeerNodeID link = if bool_decide (ds_NodeID s = fw_ExitNodeID f)
                              then fw_IngressNodeID f else fw_ExitNodeID f).
Proof. apply Valid_path_resolved. Qed.

Lemma Valid_via_exit_resolved_witness :
  Valid sample_exit_state ∧ sample_tunnel ∈ ds_Forwards sample_exit_state
  ∧ ∃ link, link ∈ ds_FabricLinks sample_exit_state ∧ fl_PeerNodeID link = "node-a".
Proof.
  assert (Valid sample_exit_state) as Hv by (vm_compute; reflexivity).
  assert (sample_tunnel ∈ ds_Forwards sample_exit_state) as Hin by (left).
  split; [exact Hv|]. split; [exact Hin|].
  destruct (Valid_via_exit_resolved _ _ Hv Hin eq_refl) as (_ & _ & _ & link & H1 & _ & H2).
  exists link. split; [exact H1|]. rewrite H2. reflexivity.
Defined.

(** * Service ranges *)

(** Keeping fewer high bits only coarsens the comparison. *)
Lemma mask_bits_coarser w k j x y :
  k ≤ j → j ≤ w → mask_bits w j x = mask_bits w j y → mask_bits w k x = mask_bits w k y.
Proof.
  unfold mask_bits. intros Hk Hj H%(f_equal (λ n, N.shiftr n (w - k))).
  rewrite !N.shiftr_shiftl_r in H by lia.
  rewrite !N.shiftr_shiftr in H.
  replace (w - j + (w - k - (w - j))) with (w - k) in H by lia. by rewrite H.
Qed.

Lemma canonical_v4 n p :
  validateIPv4Prefix n p = None →
  ∃ x k, canonicalPrefix p = MkPrefix (Addr4 x) (Z.of_N k) ∧ k ≤ 32 ∧ mask_bits 32 k x = x.
Proof.
  intros (Hv & x & Hx & Hc)%validateIPv4Prefix_silent. revert Hc.
  unfold canonicalPrefix. rewrite Hv. cbn. rewrite Hx.
  set (b := if Addr_Is4In6 (p_addr p) then _ else _). clearbody b.
  unfold PrefixFrom, Prefix_Masked, Prefix_IsValid. cbn.
  destruct ((0 <=? b)%Z && (b <=? 32)%Z) eqn:E; cbn; [|done].
  reflect_bool. rewrite (proj2 (Z.leb_le 0 b)) by lia. cbn. intros _.
  exists (mask_bits 32 (Z.to_N b) x), (Z.to_N b).
  rewrite Z2N.id, mask_bits_idemp by lia. split_and!; [done|lia|done].
Qed.

Lemma overlap_shared n n' p q a :
  validateIPv4Prefix n p = None → validateIPv4Prefix n' q = None →
  Prefix_Contains (canonicalPrefix p) a = true →
  Prefix_Contains (canonicalPrefix q) a = true →
  prefixesOverlap (canonicalPrefix p) (canonicalPrefix q) = true.
Proof.
  intros (x & k & Hp & Hk & Hx)%canonical_v4 (y & j & Hq & Hj & Hy)%canonical_v4.
  unfold prefixesOverlap. rewrite !canonicalPrefix_idemp, Hp, Hq.
  unfold Prefix_Contains, Prefix_IsValid. cbn.
  rewrite !(proj2 (Z.leb_le 0 _)) by lia. cbn. rewrite !N2Z.id.
  destruct a as [|z|z zone]; [done| |done]. rewrite !N.eqb_eq. intros H1 H2.
  apply orb_true_iff. rewrite !N.eqb_eq.
  destruct (N.le_ge_cases k j) as [Hle|Hle]; [left|right].
  - rewrite H1. symmetry. by eapply mask_bits_coarser.
  - rewrite H2. symmetry. by eapply mask_bits_coarser.
Qed.

(** The service ranges of an accepted state share no address, so every
    service VIP belongs to exactly one range. *)
Theorem Valid_ranges_disjoint s i j p q a :
  Valid s →
  ds_ServiceCIDRs s !! i = Some p → ds_ServiceCIDRs s !! j = Some q →
  Prefix_Contains (canonicalPrefix p) a = true →
  Prefix_Contains (canonicalPrefix q) a = true → i = j.
Proof.
  intros (cidrs & -> & Hok & Hd & _)%Valid_cidrs Hi Hj Hp Hq.
  destruct (decide (i = j)) as [|Hne]; [done|exfalso].
  rewrite Forall_lookup in Hok.
  destruct (Hok _ _ Hi) as [n Hn], (Hok _ _ Hj) as [n' Hn'].
  pose proof (overlap_shared _ _ _ _ _ Hn Hn' Hp Hq) as Ho.
  rewrite (Hd i j _ _ Hne) in Ho; [done|..]; by rewrite list_lookup_fmap, ?Hi, ?Hj.
Qed.

Lemma Valid_ranges_disjoint_witness :
  Valid sample_state
  ∧ Prefix_Contains (canonicalPrefix (MkPrefix (ip 10 90 0 0) 16)) (ip 10 90 0 5) = true
  ∧ 1%nat = 1%nat.
Proof.
  split; [vm_compute; reflexivity|]. split; [vm_compute; reflexivity|].
  apply (Valid_ranges_disjoint sample_state 1 1 (MkPrefix (ip 10 90 0 0) 16)
           (MkPrefix (ip 10 90 0 0) 16) (ip 10 90 0 5)); vm_compute; reflexivity.
Defined.

(** Every probe of an accepted state fits in its interval and has
    thresholds the health engine can reach, and no pool/backend pair is probed
    twice. *)
Theorem Valid_health_bounds s :
  Valid s →
  NoDup (check_key <$> ds_HealthChecks s)
  ∧ ∀ c, c ∈ ds_HealthChecks s →
      1 ≤ hc_IntervalSeconds c ≤ 300
      ∧ 100 ≤ hc_TimeoutMilliseconds c ≤ hc_IntervalSeconds c * 1000
      ∧ 1 ≤ hc_FailureThreshold c ≤ 10 ∧ 1 ≤ hc_SuccessThreshold c ≤ 10.
Proof.
  intros (cidrs & _ & _ & _ & _ & _ & _ & Hnd & Hok & _)%Valid_cidrs.
  split; [done|]. intros c Hc. rewrite Forall_forall in Hok. destruct (Hok c Hc). lia.
Qed.

Lemma Valid_health_bounds_witness :
  Valid sample_state ∧ NoDup (check_key <$> ds_HealthChecks sample_state).
Proof.
  split; [vm_compute; reflexivity|].
  apply (Valid_health_bounds sample_state). vm_compute. reflexivity.
Defined.

(** * The canonical form *)

(** The addresses a Go program can hold. *)
Definition addr_wf (a : Addr) : Prop :=
  match a with AddrZero => True | Addr4 b => b < 2 ^ 32 | Addr6 b _ => b < 2 ^ 128 end.

Lemma mask_bits_le w k b : mask_bits w k b ≤ b.
Proof.
  unfold mask_bits. rewrite N.shiftl_mul_pow2, N.shiftr_div_pow2, N.mul_comm.
  apply N.Div0.mul_div_le.
Qed.

Lemma canonicalPrefix_v4 n p :
  addr_wf (p_addr p) → validateIPv4Prefix n p = None → prefix_v4 (canonicalPrefix p).
Proof.
  intros Hwf Hn. destruct (canonical_v4 _ _ Hn) as (x & k & Hp & Hk & _).
  exists x, k. split_and!; [done| |done].
  apply validateIPv4Prefix_silent in Hn as (_ & y & Hy & Hc). rewrite Hp in Hc.
  cbn in Hc. injection Hc as ->. destruct (p_addr p) as [|b|b z]; cbn in *; [done| |].
  - by injection Hy as <-.
  - destruct (N.shiftr b 32 =? 0xffff); [|done]. injection Hy as <-. by apply N.mod_lt.
Qed.

(** Two states that list the same elements, up to order and spelling of
    addresses. *)
Definition same_intent (s t : DesiredState) : Prop :=
  ds_SchemaVersion s = ds_SchemaVersion t ∧ ds_NodeID s = ds_NodeID t
  ∧ ds_Generation s = ds_Generation t ∧ ds_ManagementDomain s = ds_ManagementDomain t
  ∧ canonicalProtocolBlocks (ds_ProtocolBlocks s) = canonicalProtocolBlocks (ds_ProtocolBlocks t)
  ∧ map canonicalPrefix (ds_ServiceCIDRs s) ≡ₚ map canonicalPrefix (ds_ServiceCIDRs t)
  ∧ map canonicalLink (ds_FabricLinks s) ≡ₚ map canonicalLink (ds_FabricLinks t)
  ∧ map canonicalCheck (ds_HealthChecks s) ≡ₚ map canonicalCheck (ds_HealthChecks t)
  ∧ ds_UserPolicies s ≡ₚ ds_UserPolicies t
  ∧ map canonicalForward (ds_Forwards s) ≡ₚ map canonicalForward (ds_Forwards t).

Lemma keys_separate {A K} (key : A → K) (g : A → A) (l : list A) x y :
  NoDup (key <$> l) → (∀ a, key (g a) = key a) →
  x ∈ map g l → y ∈ map g l → key x = key y → x = y.
Proof.
  intros Hnd Hg (a & -> & Ha)%list_elem_of_fmap (b & -> & Hb)%list_elem_of_fmap.
  rewrite !Hg. intros Heq. f_equal.
  apply list_elem_of_lookup in Ha as [i Hi], Hb as [j Hj].
  assert (i = j) as ->.
  { apply (NoDup_lookup (key <$> l) i j (key a)); [done|..];
      rewrite list_lookup_fmap, ?Hi, ?Hj; cbn; congruence. }
  congruence.
Qed.

Lemma less_check_antisym a b :
  not_after less_check a b → not_after less_check b a → check_key a = check_key b.
Proof. apply less_lex_by_antisym. Qed.

(** The canonical form depends only on what is configured: two lists of the
    same elements, in any order and with any spelling of IPv4 addresses, have
    the same canonical form (hence the same checksum). *)
Theorem Canonical_order_insensitive s t :
  Valid s → Forall (λ p, addr_wf (p_addr p)) (ds_ServiceCIDRs s) →
  same_intent s t → Canonical s = Canonical t.
Proof.
  intros (cidrs & -> & Hc & _ & Hl & _ & _ & Hh & _ & Hp & _ & Hf & _)%Valid_cidrs Hwf
    (H1 & H2 & H3 & H4 & H5 & H6 & H7 & H8 & H9 & H10).
  unfold Canonical. f_equal; try done.
  - apply sort_slice_unique; [apply _| |done]. intros x y Hx Hy Hxy Hyx.
    assert (∀ z, z ∈ map canonicalPrefix (ds_ServiceCIDRs s) → prefix_v4 z) as Hv4.
    { intros z (p & -> & Hin)%list_elem_of_fmap. rewrite Forall_forall in Hc, Hwf.
      destruct (Hc p Hin) as [n Hn]. eapply canonicalPrefix_v4; eauto. }
    apply Prefix_String_inj; auto. by apply less_by_antisym.
  - apply sort_slice_unique; [apply _| |done]. intros x y Hx Hy Hxy Hyx.
    eapply (keys_separate fl_ID canonicalLink); eauto. by apply less_by_antisym.
  - apply sort_slice_unique; [apply _| |done]. intros x y Hx Hy Hxy Hyx.
    eapply (keys_separate check_key canonicalCheck); eauto. by apply less_check_antisym.
  - apply sort_slice_unique; [apply _| |done]. intros x y Hx Hy Hxy Hyx.
    eapply (keys_separate up_UserID id); eauto; rewrite ?map_id; auto.
    by apply less_by_antisym.
  - apply sort_slice_unique; [apply _| |done]. intros x y Hx Hy Hxy Hyx.
    eapply (keys_separate fw_ID canonicalForward); eauto. by apply less_by_antisym.
Qed.

Lemma Canonical_order_insensitive_witness :
  sample_state ≠ sample_state_reordered
  ∧ Canonical sample_state = Canonical sample_state_reordered.
Proof.
  split; [apply (bool_decide_unpack _); vm_compute; exact I|].
  apply Canonical_order_insensitive.
  - vm_compute. reflexivity.
  - repeat constructor.
  - unfold same_intent. split_and!; try reflexivity.
    + apply Permutation_swap.
    + replace (map canonicalForward (ds_Forwards sample_state)) with
        [canonicalForward sample_forward; canonicalForward sample_tunnel] by reflexivity.
      replace (map canonicalForward (ds_Forwards sample_state_reordered)) with
        [canonicalForward sample_tunnel; canonicalForward sample_forward]
        by (vm_compute; reflexivity).
      apply Permutation_swap.
Defined.
