(* ===== verification/SpecChecksum.v ===== *)
(** [DesiredState.Checksum]: the SHA-256 of the JSON encoding of the canonical
    form. The encoding is the one [encoding/json] gives to the struct tags of
    [internal/spec/types.go]; times are encoded in UTC. *)
From S2P Require Import Prelude GoNet GoCrypto SpecTypes SpecCanonical SpecValidate SpecSamples SpecFacts SpecTheorems.

(** * [encoding/json] *)
Inductive json :=
  | JNull
  | JBool (b : bool)
  | JNum (n : N)
  | JStr (s : string)
  | JArr (l : list json)
  | JObj (l : list (string * json)).

Module Json.
Definition within (lo hi n : N) : bool := (lo <=? n) && (n <=? hi).
Definition cont (n : N) : bool := within 0x80 0xbf n.

(** Length of the well-formed UTF-8 sequence [l] starts with; 0 if none. *)
Definition utf8_len (l : list N) : nat :=
  match l with
  | a :: l1 =>
      if a <? 0x80 then 1%nat
      else match l1 with
      | b :: l2 =>
          if within 0xc2 0xdf a && cont b then 2%nat
          else match l2 with
          | c :: l3 =>
              if cont c && ((a =? 0xe0) && within 0xa0 0xbf b
                            || within 0xe1 0xec a && cont b
                            || (a =? 0xed) && within 0x80 0x9f b
                            || within 0xee 0xef a && cont b) then 3%nat
              else match l3 with
              | d :: _ =>
                  if cont c && cont d && ((a =? 0xf0) && within 0x90 0xbf b
                                          || within 0xf1 0xf3 a && cont b
                                          || (a =? 0xf4) && within 0x80 0x8f b) then 4%nat
                  else 0%nat
              | [] => 0%nat
              end
          | [] => 0%nat
          end
      | [] => 0%nat
      end
  | [] => 0%nat
  end.

Definition escape_ascii (a : N) : list N :=
  if a =? 0x22 then [0x5c; 0x22]
  else if a =? 0x5c then [0x5c; 0x5c]
  else if a =? 8 then bytes_of "\b" else if a =? 12 then bytes_of "\f"
  else if a =? 10 then bytes_of "\n" else if a =? 13 then bytes_of "\r"
  else if a =? 9 then bytes_of "\t"
  else if (a <? 0x20) || (a =? 0x3c) || (a =? 0x3e) || (a =? 0x26)
  then bytes_of "\u00" ++ (Strings.Ascii.N_of_ascii <$> [hex_digit (a / 16); hex_digit (a mod 16)])
  else [a].

Fixpoint escape (fuel : nat) (l : list N) : list N :=
  match fuel, l with
  | S f, a :: l' =>
      match utf8_len l with
      | 0%nat => bytes_of "\ufffd" ++ escape f l'
      | 1%nat => escape_ascii a ++ escape f l'
      | n =>
          let rune := take n l in
          (if bool_decide (rune = [0xe2; 0x80; 0xa8]) then bytes_of "\u2028"
           else if bool_decide (rune = [0xe2; 0x80; 0xa9]) then bytes_of "\u2029"
           else rune) ++ escape f (drop n l)
      end
  | _, _ => []
  end.

Definition print_string (s : string) : list N :=
  let l := bytes_of s in [0x22] ++ escape (length l) l ++ [0x22].

Definition intersperse (ls : list (list N)) : list N :=
  match ls with
  | [] => []
  | l :: rest => l ++ mbind (λ x, [0x2c] ++ x) rest
  end.

Fixpoint print (j : json) : list N :=
  match j with
  | JNull => bytes_of "null"
  | JBool b => bytes_of (if b then "true" else "false")
  | JNum n => bytes_of (show n)
  | JStr s => print_string s
  | JArr l => [0x5b] ++ intersperse (map print l) ++ [0x5d]
  | JObj l =>
      [0x7b] ++ intersperse (map (λ kv, print_string kv.1 ++ [0x3a] ++ print kv.2) l) ++ [0x7d]
  end.

(** [json:"key,omitempty"] for the kinds of fields the structs have. *)
Definition omit_str (k s : string) : list (string * json) :=
  if bool_decide (s = "") then [] else [(k, JStr s)].
Definition omit_num (k : string) (n : N) : list (string * json) :=
  if n =? 0 then [] else [(k, JNum n)].
Definition omit_bool (k : string) (b : bool) : list (string * json) :=
  if b then [(k, JBool b)] else [].
Definition omit_ptr {A} (k : string) (f : A → json) (o : option A) : list (string * json) :=
  match o with Some a => [(k, f a)] | None => [] end.
Definition omit_list {A} (k : string) (f : A → json) (l : list A) : list (string * json) :=
  match l with [] => [] | _ => [(k, JArr (map f l))] end.
(** A slice without [omitempty]: the canonical form's empty slices are nil. *)
Definition nil_list {A} (f : A → json) (l : list A) : json :=
  match l with [] => JNull | _ => JArr (map f l) end.

Definition addr (a : Addr) : json :=
  JStr (match a with AddrZero => "" | _ => Addr_String a end).
Definition prefix (p : Prefix) : json :=
  JStr (if bool_decide (p = PrefixZero) then "" else Prefix_String p).
End Json.

(** * [time.Time] in RFC 3339 with nanoseconds *)
Module Rfc3339.
Open Scope Z_scope.
(** Year, month and day of the [days]-th day since 1 January of year 1. *)
Definition civil (days : Z) : Z * Z * Z :=
  let z := days + 306 in
  let era := z / 146097 in
  let doe := z mod 146097 in
  let yoe := (doe - doe / 1460 + doe / 36524 - doe / 146096) / 365 in
  let doy := doe - (365 * yoe + yoe / 4 - yoe / 100) in
  let mp := (5 * doy + 2) / 153 in
  let d := doy - (153 * mp + 2) / 5 + 1 in
  let m := if mp <? 10 then mp + 3 else mp - 9 in
  (yoe + era * 400 + (if m <=? 2 then 1 else 0), m, d).

Fixpoint padded (width : nat) (n : Z) (acc : list ascii) : list ascii :=
  match width with
  | O => acc
  | S w => padded w (n / 10) (hex_digit (Z.to_N (n mod 10)) :: acc)
  end.
Definition pad (width : nat) (n : Z) : string := of_chars (padded width n []).

Fixpoint trim_zeros (l : list ascii) : list ascii :=
  match l with "0"%char :: l' => trim_zeros l' | _ => l end.

(** [None] when the year does not have four digits: [MarshalJSON] fails. *)
Definition format (t : Time) : option string :=
  let secs := t / Second in
  let ns := t mod Second in
  let '(y, m, d) := civil (secs / 86400) in
  let s := secs mod 86400 in
  if (y <? 0) || (9999 <? y) then None
  else
    let frac := rev (trim_zeros (rev (padded 9 ns []))) in
    Some (pad 4 y +:+ "-" +:+ pad 2 m +:+ "-" +:+ pad 2 d +:+ "T"
          +:+ pad 2 (s / 3600) +:+ ":" +:+ pad 2 (s / 60 mod 60) +:+ ":" +:+ pad 2 (s mod 60)
          +:+ (if bool_decide (frac = []) then "" else "." +:+ of_chars frac) +:+ "Z").
End Rfc3339.

Example rfc3339_zero : Rfc3339.format 0%Z = Some "0001-01-01T00:00:00Z".
Proof. vm_compute. reflexivity. Qed.
Example rfc3339_unix :
  Rfc3339.format ((62135596800 + 1785585600) * Second + 120000000)%Z
  = Some "2026-08-01T12:00:00.12Z".
Proof. vm_compute. reflexivity. Qed.

(** * The structs *)
Definition json_endpoint (e : Endpoint) : json :=
  JObj ([("address", Json.addr (ep_Address e))]
        ++ Json.omit_str "hostname" (ep_Hostname e) ++ [("port", JNum (ep_Port e))]).

Definition json_snat (s : SNATSpec) : json :=
  JObj ([("mode", JStr (snat_Mode s))] ++ Json.omit_ptr "address" Json.addr (snat_Address s)).

Definition json_rate (r : RateLimitSpec) : json :=
  JObj (Json.omit_num "ingress_bits_per_second" (rl_IngressBitsPerSecond r)
        ++ Json.omit_num "egress_bits_per_second" (rl_EgressBitsPerSecond r)
        ++ [("burst_bytes", JNum (rl_BurstBytes r))]).

Definition json_quota (q : TrafficQuotaSpec) : json :=
  JObj [("bytes", JNum (tq_Bytes q)); ("policy", JStr (tq_Policy q))].

Definition json_wireguard (w : WireGuardPeerSpec) : json :=
  JObj ([("peer_public_key", JStr (wg_PeerPublicKey w)); ("endpoint", JStr (wg_Endpoint w));
         ("listen_port", JNum (wg_ListenPort w))]
        ++ Json.omit_num "persistent_keepalive_seconds" (wg_PersistentKeepaliveSeconds w)).

Definition json_gre (g : GRESpec) : json :=
  JObj [("underlay_local", Json.addr (gre_UnderlayLocal g));
        ("underlay_remote", Json.addr (gre_UnderlayRemote g)); ("key", JNum (gre_Key g))].

Definition json_link (l : FabricLinkSpec) : json :=
  JObj ([("id", JStr (fl_ID l)); ("peer_node_id", JStr (fl_PeerNodeID l));
         ("transport", JStr (fl_Transport l)); ("interface", JStr (fl_Interface l));
         ("local_address", Json.prefix (fl_LocalAddress l));
         ("peer_address", Json.addr (fl_PeerAddress l)); ("mtu", JNum (fl_MTU l));
         ("routing_id", JNum (fl_RoutingID l))]
        ++ Json.omit_bool "trusted" (fl_Trusted l)
        ++ Json.omit_ptr "wireguard" json_wireguard (fl_WireGuard l)
        ++ Json.omit_ptr "gre" json_gre (fl_GRE l)
        ++ [("resource_version", JNum (fl_ResourceVersion l))]).

Definition json_policy (p : UserPolicySpec) : json :=
  JObj ([("user_id", JStr (up_UserID p))]
        ++ Json.omit_num "traffic_class_id" (up_TrafficClassID p)
        ++ Json.omit_ptr "rate_limit" json_rate (up_RateLimit p)
        ++ Json.omit_ptr "traffic_quota" json_quota (up_TrafficQuota p)
        ++ [("resource_version", JNum (up_ResourceVersion p))]).

Definition json_blocks (b : ProtocolBlockPolicy) : json :=
  JObj (Json.omit_bool "http" (pb_HTTP b) ++ Json.omit_bool "https" (pb_HTTPS b)
        ++ Json.omit_bool "socks" (pb_SOCKS b) ++ Json.omit_bool "tls" (pb_TLS b)).

Definition json_check (c : HealthCheckSpec) : json :=
  JObj [("pool_id", JStr (hc_PoolID c)); ("backend_id", JStr (hc_BackendID c));
        ("endpoint", json_endpoint (hc_Endpoint c)); ("protocol", JStr (hc_Protocol c));
        ("interval_seconds", JNum (hc_IntervalSeconds c));
        ("timeout_milliseconds", JNum (hc_TimeoutMilliseconds c));
        ("failure_threshold", JNum (hc_FailureThreshold c));
        ("success_threshold", JNum (hc_SuccessThreshold c));
        ("resource_version", JNum (hc_ResourceVersion c))].

Definition json_time (k : string) (t : option Time) : option (list (string * json)) :=
  match t with
  | None => Some []
  | Some t => s ← Rfc3339.format t; Some [(k, JStr s)]
  end.

Definition json_forward (f : ForwardSpec) : option json :=
  expires ← json_time "expires_at" (fw_ExpiresAt f);
  drain ← json_time "drain_deadline" (fw_DrainDeadline f);
  Some (JObj ([("id", JStr (fw_ID f)); ("user_id", JStr (fw_UserID f));
         ("protocols", Json.nil_list JStr (fw_Protocols f));
         ("ingress_node_id", JStr (fw_IngressNodeID f))]
        ++ Json.omit_str "exit_node_id" (fw_ExitNodeID f)
        ++ [("listen", json_endpoint (fw_Listen f)); ("target", json_endpoint (fw_Target f))]
        ++ Json.omit_ptr "service_vip" Json.addr (fw_ServiceVIP f)
        ++ Json.omit_str "fabric_link_id" (fw_FabricLinkID f)
        ++ [("path_mode", JStr (fw_PathMode f)); ("snat", json_snat (fw_SNAT f))]
        ++ Json.omit_num "traffic_class_id" (fw_TrafficClassID f)
        ++ Json.omit_ptr "rate_limit" json_rate (fw_RateLimit f)
        ++ Json.omit_ptr "traffic_quota" json_quota (fw_TrafficQuota f)
        ++ expires ++ drain
        ++ [("lifecycle", JStr (fw_Lifecycle f));
            ("resource_version", JNum (fw_ResourceVersion f))])).

Definition json_desired (s : DesiredState) : option json :=
  forwards ← mapM json_forward (ds_Forwards s);
  Some (JObj ([("schema_version", JNum (ds_SchemaVersion s)); ("node_id", JStr (ds_NodeID s));
         ("generation", JNum (ds_Generation s))]
        ++ Json.omit_str "management_domain" (ds_ManagementDomain s)
        ++ Json.omit_list "service_cidrs" Json.prefix (ds_ServiceCIDRs s)
        ++ Json.omit_list "fabric_links" json_link (ds_FabricLinks s)
        ++ Json.omit_list "health_checks" json_check (ds_HealthChecks s)
        ++ Json.omit_list "user_policies" json_policy (ds_UserPolicies s)
        ++ Json.omit_ptr "protocol_blocks" json_blocks (ds_ProtocolBlocks s)
        ++ [("forwards", Json.nil_list id forwards)])).

(** [DesiredState.Checksum]; [None] is the encoder's error. *)
Definition Checksum (s : DesiredState) : option string :=
  j ← json_desired (Canonical s);
  Some (hex_encode (SHA256.Sum256 (Json.print j))).

(** [^[0-9a-f]{64}$] *)
Definition ValidChecksum (value : string) : bool :=
  (length (chars value) =? 64)%nat && forallb lower_hex (chars value).

Lemma Checksum_Canonical s : Checksum (Canonical s) = Checksum s.
Proof. unfold Checksum. by rewrite Canonical_idemp. Qed.

(** A checksum, when there is one, is a lower-case SHA-256 value, and a
    state has the checksum of its canonical form. *)
Theorem Checksum_canonical_valid s :
  Checksum (Canonical s) = Checksum s
  ∧ ∀ c, Checksum s = Some c → ValidChecksum c = true.
Proof.
  split; [apply Checksum_Canonical|]. intros c. unfold Checksum.
  destruct (json_desired _) as [j|]; cbn -[hex_encode]; [|done]. intros [= <-].
  destruct (Sum256_bytes (Json.print j)) as [Hl Hb].
  destruct (hex_encode_spec _ Hb) as [H1 H2]. unfold ValidChecksum.
  by rewrite H1, H2, Hl.
Qed.
