(* ===== verification/SpecAccepted.v ===== *)
(** A reference definition of the desired states the validator accepts, without
    its loops, maps and messages, the proof that the two agree, and what follows
    for the canonical form: it is accepted when the state is. *)
From S2P Require Import Prelude GoNet GoCrypto SpecTypes SpecCanonical SpecValidate SpecSamples SpecFacts SpecTheorems SpecChecksum.

(** * Loops that say exactly when they are silent *)
Section vloop.
Context {St X : Type} (step : nat → X → St → St * list string).

(** [A] is the condition on the elements, [I] relates them to the local state. *)
Lemma vloop_iff (A : list X → Prop) (I : list X → St → Prop) l s0 :
  A [] → I [] s0 →
  (∀ done x, A (done ++ [x]) → A done) →
  (∀ done x s, A done → I done s →
     ((step (length done) x s).2 = [] ↔ A (done ++ [x]))
     ∧ (A (done ++ [x]) → I (done ++ [x]) (step (length done) x s).1)) →
  ((vloop step 0 l s0).2 = [] ↔ A l) ∧ (A l → I l (vloop step 0 l s0).1).
Proof.
  intros HA HI Hdown Hstep. induction l as [|x l [IH1 IH2]] using rev_ind; [done|].
  rewrite vloop_app. cbn. destruct (vloop step 0 l s0) as [s e]. cbn in *.
  destruct (step (length l) x s) as [s' e'] eqn:E. cbn. rewrite app_nil_r, app_nil_iff, IH1. split.
  - split.
    + intros [Hl He]. specialize (Hstep l x s Hl (IH2 Hl)). rewrite E in Hstep. by apply Hstep.
    + intros Hl. assert (A l) as Hl' by eauto. split; [done|].
      specialize (Hstep l x s Hl' (IH2 Hl')). rewrite E in Hstep. by apply Hstep.
  - intros Hl. assert (A l) as Hl' by eauto.
    specialize (Hstep l x s Hl' (IH2 Hl')). rewrite E in Hstep. by apply Hstep.
Qed.
End vloop.

Lemma each_nil_iff {A} (f : nat → A → list string) l :
  each f l = [] ↔ ∀ j x, l !! j = Some x → f j x = [].
Proof.
  split; [by intros H j x; apply each_nil|]. unfold each. intros H.
  assert (Forall (λ y, y = []) (imap f l)) as Hall.
  { apply Forall_lookup. intros j y. rewrite list_lookup_imap.
    destruct (l !! j) as [x|] eqn:Hx; [|done]. intros [= <-]. by apply H. }
  induction Hall as [|y k -> _ IH]; [done|]. exact IH.
Qed.

Lemma each_when_iff {A} (b : A → bool) (msg : nat → string) l :
  each (λ j x, when (b x) (msg j)) l = [] ↔ Forall (λ x, b x = false) l.
Proof.
  rewrite each_nil_iff, Forall_lookup. by setoid_rewrite when_nil.
Qed.

Lemma Forall_snoc {A} (P : A → Prop) l x : Forall P (l ++ [x]) ↔ Forall P l ∧ P x.
Proof. rewrite Forall_app, Forall_singleton. done. Qed.

Lemma NoDup_snoc {A} (l : list A) x : NoDup (l ++ [x]) ↔ NoDup l ∧ x ∉ l.
Proof.
  rewrite NoDup_app. split.
  - intros (H1 & H2 & _). split; [done|]. intros Hx. apply (H2 x Hx). by apply list_elem_of_singleton.
  - intros [H1 H2]. split_and!; [done| |apply NoDup_singleton].
    intros y Hy ->%list_elem_of_singleton. done.
Qed.

(** A relation between any two elements of a slice. *)
Definition pairwise {A} (R : A → A → Prop) (l : list A) : Prop := ForallOrdPairs R l.

Lemma pairwise_snoc {A} (R : A → A → Prop) l x :
  pairwise R (l ++ [x]) ↔ pairwise R l ∧ Forall (λ y, R y x) l.
Proof.
  unfold pairwise. induction l as [|y l IH]; cbn.
  - split; [|repeat constructor]. intros _. split; constructor.
  - split.
    + intros H. inv H. apply IH in H3 as [H4 H5]. apply Forall_snoc in H2 as [H2 H6].
      split; constructor; auto.
    + intros [H1 H2]. inv H1. inv H2. constructor; [apply Forall_snoc; auto|]. apply IH. auto.
Qed.

Lemma pairwise_perm {A} (R : A → A → Prop) l k :
  (∀ x y, R x y → R y x) → l ≡ₚ k → pairwise R l → pairwise R k.
Proof.
  intros Hsym. unfold pairwise. induction 1 as [|x l k Hp IH|x y l|l k m _ IH1 _ IH2]; [done| |..].
  - intros H. inv H. constructor; [by rewrite <- Hp|auto].
  - intros H. inv H. inv H3. inv H2. constructor; [constructor; auto|]. by constructor.
  - auto.
Qed.

Lemma pairwise_map {A} (R : A → A → Prop) (f : A → A) l :
  (∀ x y, x ∈ l → y ∈ l → R x y → R (f x) (f y)) → pairwise R l → pairwise R (map f l).
Proof.
  unfold pairwise. intros Hf H. induction H as [|x l Hx Hl IH]; cbn; constructor.
  - rewrite Forall_forall in Hx |- *. intros z (y & -> & Hy)%list_elem_of_fmap.
    apply Hf; [left|by right|auto].
  - apply IH. intros y z Hy Hz. apply Hf; by right.
Qed.

(** * Single values *)

(** A concrete unicast IPv4 address, possibly written as an IPv6 one. *)
Definition concrete_v4 (a : Addr) : bool :=
  match Addr_Unmap a with
  | Addr4 x => negb (x =? 0) && negb (Addr_IsMulticast (Addr4 x))
  | _ => false
  end.
Definition endpoint_ok (e : Endpoint) : bool :=
  concrete_v4 (ep_Address e) && bool_decide (ep_Hostname e = "") && negb (ep_Port e =? 0).
Definition rate_ok (limit : option RateLimitSpec) : bool :=
  match limit with
  | None => true
  | Some l => (negb (rl_IngressBitsPerSecond l =? 0) || negb (rl_EgressBitsPerSecond l =? 0))
              && negb (rl_BurstBytes l =? 0)
  end.
Definition quota_ok (quota : option TrafficQuotaSpec) : bool :=
  match quota with
  | None => true
  | Some q => negb (tq_Bytes q =? 0) && bool_decide (tq_Policy q = QuotaPolicyPause)
  end.
(** A network-masked concrete IPv4 prefix. *)
Definition range_ok (p : Prefix) : bool :=
  Prefix_IsValid p && concrete_v4 (p_addr p)
  && bool_decide (Addr_Unmap (p_addr p) = p_addr (canonicalPrefix p)).
(** The address of an interface: a concrete IPv4 address and a length. *)
Definition interface_ok (p : Prefix) : bool :=
  concrete_v4 (p_addr p)
  && (1 <=? p_bits (canonicalInterfacePrefix p))%Z && (p_bits (canonicalInterfacePrefix p) <=? 32)%Z.

Lemma concrete_v4_Unmap a : concrete_v4 (Addr_Unmap a) = concrete_v4 a.
Proof. unfold concrete_v4. by rewrite Unmap_idemp. Qed.
Lemma concrete_v4_inv a : concrete_v4 a = true → ∃ x, Addr_Unmap a = Addr4 x.
Proof. unfold concrete_v4. destruct (Addr_Unmap a); eauto; done. Qed.
Lemma concrete_v4_valid a : concrete_v4 a = true → Addr_IsValid a = true.
Proof. by destruct a. Qed.

Lemma validateIPv4_iff n a : validateIPv4 n a = [] ↔ concrete_v4 a = true.
Proof.
  unfold validateIPv4, concrete_v4. destruct (Addr_IsValid a) eqn:Hv; cbn -[Addr_IsMulticast]; [|by destruct a].
  destruct (Addr_Unmap a) as [|x|x z] eqn:E; cbn -[Addr_IsMulticast]; try done.
  destruct (x =? 0); cbn -[Addr_IsMulticast]; [done|].
  by destruct (Addr_IsMulticast _).
Qed.

Lemma validateEndpoint_iff n e : validateEndpoint n e = [] ↔ endpoint_ok e = true.
Proof.
  unfold validateEndpoint, endpoint_ok.
  rewrite !app_nil_iff, !when_nil, validateIPv4_iff, !andb_true_iff, !negb_false_iff, negb_true_iff.
  tauto.
Qed.

Lemma validateRateLimit_iff n l : validateRateLimit n l = [] ↔ rate_ok l = true.
Proof.
  destruct l as [l|]; cbn; [|done].
  rewrite !app_nil_iff, !when_nil.
  destruct (rl_IngressBitsPerSecond l =? 0), (rl_EgressBitsPerSecond l =? 0), (rl_BurstBytes l =? 0);
    cbn; naive_solver.
Qed.

Lemma validateQuota_iff n q : validateQuota n q = [] ↔ quota_ok q = true.
Proof.
  destruct q as [q|]; cbn; [|done].
  rewrite !app_nil_iff, !when_nil, andb_true_iff, negb_true_iff, negb_false_iff. tauto.
Qed.

Lemma validateIPv4Prefix_iff n p : validateIPv4Prefix n p = None ↔ range_ok p = true.
Proof.
  unfold validateIPv4Prefix, range_ok, concrete_v4.
  destruct (Prefix_IsValid p); cbn -[Addr_IsMulticast]; [|done].
  destruct (Addr_Unmap (p_addr p)) as [|x|x z]; cbn -[Addr_IsMulticast]; try done.
  destruct (x =? 0); cbn -[Addr_IsMulticast]; [done|].
  destruct (Addr_IsMulticast _); cbn; [done|]. case_bool_decide; naive_solver.
Qed.

Lemma interface_bits p x :
  Prefix_IsValid p = true → Addr_Unmap (p_addr p) = Addr4 x →
  let bits := if Addr_Is4In6 (p_addr p) then (p_bits p - 96)%Z else p_bits p in
  canonicalInterfacePrefix p
  = MkPrefix (Addr4 x) (if ((0 <=? bits) && (bits <=? 32))%Z then bits else -1)%Z.
Proof.
  intros Hv Hx. cbn. unfold canonicalInterfacePrefix. rewrite Hv, Hx. cbn.
  unfold PrefixFrom. cbn -[Z.leb]. by destruct (_ && _)%Z.
Qed.

Lemma validateIPv4InterfacePrefix_iff n p :
  validateIPv4InterfacePrefix n p = None ↔ interface_ok p = true.
Proof.
  unfold validateIPv4InterfacePrefix, interface_ok.
  destruct (Prefix_IsValid p) eqn:Hv; cbn.
  2: { split; [done|]. intros [[_ H]%andb_true_iff _]%andb_true_iff. exfalso.
       unfold canonicalInterfacePrefix, Prefix_IsValid in *. rewrite Hv in H. cbn in H. lia. }
  unfold concrete_v4.
  destruct (Addr_Unmap (p_addr p)) as [|x|x z] eqn:Hx; cbn -[Addr_IsMulticast]; try done.
  rewrite (interface_bits p x Hv Hx). cbn -[Addr_IsMulticast].
  destruct (x =? 0); cbn -[Addr_IsMulticast]; [done|].
  destruct (Addr_IsMulticast _); cbn; [done|].
  set (b := if Addr_Is4In6 (p_addr p) then _ else _).
  destruct (b <? 1)%Z eqn:E1; cbn.
  { split; [done|]. intros [H1 H2]%andb_true_iff. case_match; lia. }
  destruct (32 <? b)%Z eqn:E2; cbn.
  { split; [done|]. intros [H1 H2]%andb_true_iff. case_match; lia. }
  split; [|done]. intros _. rewrite (proj2 (Z.leb_le 0 b)) by lia.
  rewrite (proj2 (Z.leb_le b 32)) by lia. cbn. apply andb_true_iff. lia.
Qed.

(** ** Transports *)
Definition public_key_ok (encoded : string) : bool :=
  match Base64Decode encoded with
  | Some decoded => (length decoded =? 32)%nat && negb (forallb (λ v, v =? 0) decoded)
                    && X25519.ECDH_ok (1 :: repeat 0 31) decoded
  | None => false
  end.
Definition host_port_ok (endpoint : string) : bool :=
  match SplitHostPort endpoint with
  | Some (host, portText) =>
      negb (bool_decide (host = ""))
      && match ParseUint 16 portText with Some port => negb (port =? 0) | None => false end
      && match ParseAddr host with
         | Some a => Addr_Is4 (Addr_Unmap a) && negb (Addr_IsUnspecified a) && negb (Addr_IsMulticast a)
         | None => false
         end
  | None => false
  end.
Definition wireguard_ok (w : WireGuardPeerSpec) : bool :=
  public_key_ok (wg_PeerPublicKey w) && host_port_ok (wg_Endpoint w)
  && negb (wg_ListenPort w =? 0) && (wg_PersistentKeepaliveSeconds w <=? 3600).
Definition gre_ok (g : GRESpec) : bool :=
  concrete_v4 (gre_UnderlayLocal g) && concrete_v4 (gre_UnderlayRemote g)
  && negb (bool_decide (Addr_Unmap (gre_UnderlayLocal g) = Addr_Unmap (gre_UnderlayRemote g)))
  && negb (gre_Key g =? 0).
Definition transport_ok (l : FabricLinkSpec) : bool :=
  if bool_decide (fl_Transport l = FabricWireGuard) then
    match fl_WireGuard l with Some w => wireguard_ok w | None => false end
    && bool_decide (fl_GRE l = None)
  else if bool_decide (fl_Transport l = FabricDirectL3) then
    fl_Trusted l && bool_decide (fl_WireGuard l = None) && bool_decide (fl_GRE l = None)
  else if bool_decide (fl_Transport l = FabricGRE) then
    fl_Trusted l && match fl_GRE l with Some g => gre_ok g | None => false end
    && bool_decide (fl_WireGuard l = None)
  else false.

Lemma option_list_nil {A} (o : option A) : option_list o = [] ↔ o = None.
Proof. by destruct o. Qed.

Lemma validateWireGuard_iff n w : validateWireGuard n w = [] ↔ wireguard_ok w = true.
Proof.
  unfold validateWireGuard, wireguard_ok.
  rewrite !app_nil_iff, !when_nil, option_list_nil, !andb_true_iff, negb_true_iff, N.ltb_ge, N.leb_le.
  assert (ValidateWireGuardPublicKey (n +:+ ".peer_public_key") (wg_PeerPublicKey w) = None
          ↔ public_key_ok (wg_PeerPublicKey w) = true) as ->.
  { unfold ValidateWireGuardPublicKey, public_key_ok. destruct (Base64Decode _) as [d|]; [|done].
    destruct (_ =? 32)%nat; [|done]. cbn [negb andb]. destruct (forallb _ d); [done|].
    destruct (X25519.ECDH_ok _ d); done. }
  assert (validateWireGuardEndpoint n (wg_Endpoint w) = [] ↔ host_port_ok (wg_Endpoint w) = true) as ->;
    [|tauto].
  unfold validateWireGuardEndpoint, host_port_ok. destruct (SplitHostPort _) as [[h p]|]; [|done].
  case_bool_decide; [done|]. rewrite app_nil_iff, !when_nil, !andb_true_iff.
  destruct (ParseUint 16 p), (ParseAddr h); rewrite ?orb_false_iff, ?andb_true_iff, ?negb_true_iff,
    ?negb_false_iff; cbn; intuition congruence.
Qed.

Lemma validateGRE_iff n g : validateGRE n g = [] ↔ gre_ok g = true.
Proof.
  unfold validateGRE, gre_ok.
  rewrite !app_nil_iff, !when_nil, !validateIPv4_iff, !andb_true_iff, !negb_true_iff.
  destruct (concrete_v4 (gre_UnderlayLocal g)) eqn:E1; [|naive_solver].
  destruct (concrete_v4 (gre_UnderlayRemote g)) eqn:E2; [|naive_solver].
  rewrite (concrete_v4_valid _ E1), (concrete_v4_valid _ E2). cbn. tauto.
Qed.

Lemma bool_decide_None {A} (o : option A) :
  bool_decide (is_Some o) = false ↔ match o with None => True | Some _ => False end.
Proof. by destruct o. Qed.

Lemma validate_link_transport_iff n l : validate_link_transport n l = [] ↔ transport_ok l = true.
Proof.
  unfold validate_link_transport, transport_ok.
  destruct (bool_decide (fl_Transport l = FabricWireGuard)),
    (bool_decide (fl_Transport l = FabricDirectL3)), (bool_decide (fl_Transport l = FabricGRE));
    try done;
    rewrite !app_nil_iff, !when_nil, ?orb_false_iff, ?negb_false_iff, ?andb_true_iff,
      ?bool_decide_eq_true, ?bool_decide_None;
    destruct (fl_WireGuard l) as [w|], (fl_GRE l); rewrite ?validateWireGuard_iff, ?validateGRE_iff;
    naive_solver.
Qed.

(** * Service ranges *)
Definition ranges (s : DesiredState) : list Prefix := map canonicalPrefix (ds_ServiceCIDRs s).
(** No range contains the address. *)
Definition clear_of (rs : list Prefix) (a : Addr) : Prop :=
  Forall (λ c, Prefix_Contains c (Addr_Unmap a) = false) rs.
Definition apart (p q : Prefix) : Prop := prefixesOverlap p q = false.

Lemma range_ok_v4 p :
  range_ok p = true → ∃ x k, canonicalPrefix p = MkPrefix (Addr4 x) (Z.of_N k).
Proof.
  intros H. destruct (canonical_v4 "" p) as (x & k & Hp & _); [by apply validateIPv4Prefix_iff|eauto].
Qed.

Lemma range_ok_valid p : range_ok p = true → Prefix_IsValid p = true.
Proof. unfold range_ok. by intros [[? _]%andb_true_iff _]%andb_true_iff. Qed.

Lemma range_ok_canonical p : range_ok p = true → range_ok (canonicalPrefix p) = true.
Proof.
  intros H. destruct (range_ok_v4 _ H) as (x & k & Hp). unfold range_ok in H |- *.
  rewrite canonicalPrefix_idemp, Hp in *. cbn -[concrete_v4] in *.
  apply andb_true_iff in H as [[_ Hc]%andb_true_iff Hb]. apply bool_decide_eq_true in Hb.
  rewrite <- concrete_v4_Unmap, Hb in Hc. rewrite Hc. unfold Prefix_IsValid. cbn.
  rewrite (proj2 (Z.leb_le 0 _)) by lia. cbn. by rewrite bool_decide_eq_true_2.
Qed.

Lemma overlap_canonical_l p q :
  range_ok p = true → prefixesOverlap (canonicalPrefix p) q = prefixesOverlap p q.
Proof.
  intros H. unfold prefixesOverlap. rewrite canonicalPrefix_idemp, (range_ok_valid _ H).
  by rewrite (range_ok_valid _ (range_ok_canonical _ H)).
Qed.

Lemma validate_cidrs_iff ps :
  ((vloop validate_cidr 0 ps []).2 = []
   ↔ Forall (λ p, range_ok p = true) ps ∧ pairwise apart ps)
  ∧ (Forall (λ p, range_ok p = true) ps ∧ pairwise apart ps →
     (vloop validate_cidr 0 ps []).1 = map canonicalPrefix ps).
Proof.
  apply (vloop_iff validate_cidr (λ l, Forall (λ p, range_ok p = true) l ∧ pairwise apart l)
           (λ l cs, cs = map canonicalPrefix l)).
  - split; constructor.
  - done.
  - intros l p. rewrite Forall_snoc, pairwise_snoc. tauto.
  - intros l p cs [Hl Hp] ->. rewrite Forall_snoc, pairwise_snoc, map_app. unfold validate_cidr.
    destruct (validateIPv4Prefix _ p) eqn:E.
    + assert (range_ok p ≠ true) as Hn by by rewrite <- validateIPv4Prefix_iff, E.
      split; [split; [done|tauto]|tauto].
    + apply validateIPv4Prefix_iff in E. split; [|done]. cbn.
      rewrite (each_when_iff (prefixesOverlap (canonicalPrefix p))), Forall_map.
      assert (Forall (λ x, prefixesOverlap (canonicalPrefix p) (canonicalPrefix x) = false) l
              ↔ Forall (λ x, apart x p) l) as ->; [|tauto].
      rewrite !Forall_forall in *. apply forall_proper. intros x.
      split; intros H Hx; specialize (H Hx); specialize (Hl x Hx); unfold apart in *.
      * rewrite overlap_canonical_l, prefixesOverlap_sym, overlap_canonical_l in H; done.
      * rewrite overlap_canonical_l, prefixesOverlap_sym, overlap_canonical_l; done.
Qed.

(** * Fabric links *)
Record link_fine (node : string) (rs : list Prefix) (l : FabricLinkSpec) : Prop := {
  lf_id : validIdentifier (fl_ID l) = true;
  lf_peer : validIdentifier (fl_PeerNodeID l) = true;
  lf_other : fl_PeerNodeID l ≠ node;
  lf_interface : interfacePattern (fl_Interface l) = true;
  lf_local : interface_ok (fl_LocalAddress l) = true;
  lf_apart : Forall (apart (Prefix_Masked (fl_LocalAddress l))) rs;
  lf_address : concrete_v4 (fl_PeerAddress l) = true;
  lf_inside : Prefix_Contains (Prefix_Masked (fl_LocalAddress l)) (Addr_Unmap (fl_PeerAddress l)) = true;
  lf_distinct : Addr_Unmap (fl_PeerAddress l) ≠ Addr_Unmap (p_addr (fl_LocalAddress l));
  lf_clear : clear_of rs (fl_PeerAddress l);
  lf_mtu : 1280 ≤ fl_MTU l ≤ 9000;
  lf_routing : fl_RoutingID l ≠ 0 ∧ fl_RoutingID l ≠ 65535;
  lf_version : fl_ResourceVersion l ≠ 0;
  lf_transport : transport_ok l = true;
}.

Definition local_of (l : FabricLinkSpec) : Addr := Addr_Unmap (p_addr (fl_LocalAddress l)).

(** Two links of a node: an interface may be shared by direct links only, and
    a local address only on a shared interface. *)
Definition direct (l : FabricLinkSpec) : Prop := fl_Transport l = FabricDirectL3.
Record links_agree (l k : FabricLinkSpec) : Prop := {
  la_id : fl_ID l ≠ fl_ID k;
  la_routing : fl_RoutingID l ≠ fl_RoutingID k;
  la_interface : fl_Interface l = fl_Interface k → direct l ∧ direct k;
  la_local : local_of l = local_of k → direct l ∧ direct k ∧ fl_Interface l = fl_Interface k;
}.

Definition links_inv (done : list FabricLinkSpec) (m : link_maps) : Prop :=
  (∀ id l, lm_links m !! id = Some l ↔ l ∈ done ∧ fl_ID l = id)
  ∧ (∀ r, is_Some (lm_routing m !! r) ↔ r ∈ (fl_RoutingID <$> done))
  ∧ (∀ i t, lm_interfaces m !! i = Some t ↔ ∃ l, l ∈ done ∧ fl_Interface l = i ∧ fl_Transport l = t)
  ∧ (∀ a t i, (∃ n, lm_locals m !! a = Some (n, t, i))
       ↔ ∃ l, l ∈ done ∧ local_of l = a ∧ fl_Transport l = t ∧ fl_Interface l = i).

Lemma validate_link_peer_iff n l rs :
  interface_ok (fl_LocalAddress l) = true →
  validate_link_peer n l rs = [] ↔
  concrete_v4 (fl_PeerAddress l) = true
  ∧ Prefix_Contains (Prefix_Masked (fl_LocalAddress l)) (Addr_Unmap (fl_PeerAddress l)) = true
  ∧ Addr_Unmap (fl_PeerAddress l) ≠ Addr_Unmap (p_addr (fl_LocalAddress l))
  ∧ clear_of rs (fl_PeerAddress l).
Proof.
  intros Hl. unfold validate_link_peer. rewrite app_nil_iff, validateIPv4_iff.
  destruct (concrete_v4 (fl_PeerAddress l)) eqn:E; [|naive_solver].
  rewrite (concrete_v4_valid _ E).
  assert (Prefix_IsValid (fl_LocalAddress l) = true) as ->.
  { destruct (Prefix_IsValid (fl_LocalAddress l)) eqn:Hv; [done|]. exfalso.
    unfold interface_ok in Hl. apply andb_true_iff in Hl as [[_ H]%andb_true_iff _].
    unfold canonicalInterfacePrefix in H. unfold Prefix_IsValid in *. rewrite Hv in H. cbn in H. lia. }
  cbn. rewrite app_nil_iff, when_nil, orb_false_iff, negb_false_iff, bool_decide_eq_false.
  rewrite (each_when_iff (λ c, Prefix_Contains c (Addr_Unmap (fl_PeerAddress l)))). unfold clear_of. tauto.
Qed.

Lemma validate_link_local_iff n rs done l m :
  links_inv done m →
  ((validate_link_local n l rs (lm_locals m)).2 = [] ↔
     interface_ok (fl_LocalAddress l) = true
     ∧ Forall (apart (Prefix_Masked (fl_LocalAddress l))) rs
     ∧ (∀ k, k ∈ done → local_of k = local_of l →
             direct k ∧ direct l ∧ fl_Interface k = fl_Interface l))
  ∧ ((validate_link_local n l rs (lm_locals m)).2 = [] →
     ∃ name, (validate_link_local n l rs (lm_locals m)).1
             = <[local_of l := (name, fl_Transport l, fl_Interface l)]> (lm_locals m)).
Proof.
  intros (_ & _ & _ & Hm). unfold validate_link_local.
  destruct (validateIPv4InterfacePrefix _ _) eqn:E.
  { assert (interface_ok (fl_LocalAddress l) ≠ true) by by rewrite <- validateIPv4InterfacePrefix_iff, E.
    cbn. naive_solver. }
  apply validateIPv4InterfacePrefix_iff in E. fold (local_of l).
  destruct (lm_locals m !! local_of l) as [[[name t] i]|] eqn:Hl.
  - destruct (proj1 (Hm (local_of l) t i)) as (k & Hk & Hka & <- & <-); [eauto|].
    destruct (negb (bool_decide (fl_Transport k = FabricDirectL3)) || _ || _) eqn:Eb; cbn.
    { split; [|done]. split; [done|]. intros (_ & _ & H). destruct (H k Hk Hka) as (H1 & H2 & H3).
      unfold direct in *. by rewrite !bool_decide_eq_true_2 in Eb. }
    reflect_bool. rewrite (each_when_iff (λ c, prefixesOverlap _ c)). split; [|eauto].
    split; [|tauto]. intros Hr. split_and!; [done..|]. intros k' Hk' Hka'.
    destruct (proj2 (Hm (local_of l) (fl_Transport k') (fl_Interface k'))) as [n' Hn']; [eauto|].
    rewrite Hl in Hn'. injection Hn' as <- Ht Hi. unfold direct. rewrite <- Ht, <- Hi. done.
  - cbn. rewrite (each_when_iff (λ c, prefixesOverlap _ c)). split; [|eauto].
    split; [|tauto]. intros Hr. split_and!; [done..|]. intros k Hk Hka. exfalso.
    destruct (proj2 (Hm (local_of l) (fl_Transport k) (fl_Interface k))) as [n' Hn']; [eauto|congruence].
Qed.

Lemma interface_conflict_iff done l m :
  links_inv done m →
  interface_conflict l (lm_interfaces m) = false
  ↔ ∀ k, k ∈ done → fl_Interface k = fl_Interface l → direct k ∧ direct l.
Proof.
  intros (_ & _ & Hm & _). unfold interface_conflict, direct.
  destruct (lm_interfaces m !! fl_Interface l) as [t|] eqn:E.
  - rewrite orb_false_iff, !negb_false_iff, !bool_decide_eq_true. split.
    + intros [-> ?] k Hk Hi. split; [|done].
      assert (lm_interfaces m !! fl_Interface l = Some (fl_Transport k)) by (apply Hm; eauto). congruence.
    + intros H. apply Hm in E as (k & Hk & Hi & <-). by apply H.
  - split; [|done]. intros _ k Hk Hi. exfalso.
    assert (lm_interfaces m !! fl_Interface l = Some (fl_Transport k)) by (apply Hm; eauto). congruence.
Qed.

Lemma validate_link_iff node rs done l m :
  links_inv done m →
  ((validate_link node rs (length done) l m).2 = []
   ↔ link_fine node rs l ∧ Forall (λ k, links_agree k l) done)
  ∧ ((validate_link node rs (length done) l m).2 = [] →
     ∃ name n', (validate_link node rs (length done) l m).1
       = LinkMaps (<[fl_ID l := l]> (lm_links m)) (<[fl_RoutingID l := name]> (lm_routing m))
           (<[fl_Interface l := fl_Transport l]> (lm_interfaces m))
           (<[local_of l := (n', fl_Transport l, fl_Interface l)]> (lm_locals m))).
Proof.
  intros Hm. unfold validate_link. set (p := at_index _ _).
  destruct (if negb (validIdentifier (fl_ID l)) then _ else _) as [links e1] eqn:E1.
  destruct (if negb (interfacePattern (fl_Interface l)) then _ else _) as [ifs e2] eqn:E2.
  destruct (validate_link_local_iff p rs done l m Hm) as [Hl1 Hl2].
  destruct (validate_link_local p l rs (lm_locals m)) as [locals e3] eqn:E3.
  destruct (if (fl_RoutingID l =? 0) || _ then _ else _) as [routing e4] eqn:E4.
  cbn in Hl1, Hl2 |- *.
  assert ((e1 = [] ↔ validIdentifier (fl_ID l) = true ∧ ∀ k, k ∈ done → fl_ID k ≠ fl_ID l)
          ∧ (e1 = [] → links = <[fl_ID l := l]> (lm_links m))) as [H1 H1'].
  { destruct Hm as (Hm & _). revert E1. destruct (validIdentifier (fl_ID l)); cbn; [|intros [= <- <-]; naive_solver].
    destruct (lm_links m !! fl_ID l) as [k|] eqn:Hk; intros [= <- <-]; cbn.
    - apply Hm in Hk as [Hk Heq]. naive_solver.
    - split; [|done]. split; [|done]. intros _. split; [done|]. intros k Hin Heq.
      assert (lm_links m !! fl_ID l = Some k) by (apply Hm; eauto). congruence. }
  assert ((e2 = [] ↔ interfacePattern (fl_Interface l) = true
                     ∧ ∀ k, k ∈ done → fl_Interface k = fl_Interface l → direct k ∧ direct l)
          ∧ (e2 = [] → ifs = <[fl_Interface l := fl_Transport l]> (lm_interfaces m))) as [H2 H2'].
  { rewrite <- (interface_conflict_iff done l m Hm). revert E2.
    destruct (interfacePattern (fl_Interface l)), (interface_conflict l (lm_interfaces m)); cbn;
      intros [= <- <-]; naive_solver. }
  assert ((e4 = [] ↔ (fl_RoutingID l ≠ 0 ∧ fl_RoutingID l ≠ 65535)
                     ∧ ∀ k, k ∈ done → fl_RoutingID k ≠ fl_RoutingID l)
          ∧ (e4 = [] → routing = <[fl_RoutingID l := p]> (lm_routing m))) as [H4 H4'].
  { destruct Hm as (_ & Hm & _). revert E4.
    destruct ((fl_RoutingID l =? 0) || (fl_RoutingID l =? 65535)) eqn:Eb.
    { intros [= <- <-]. apply orb_true_iff in Eb. rewrite !N.eqb_eq in Eb. naive_solver. }
    reflect_bool. destruct (lm_routing m !! fl_RoutingID l) as [o|] eqn:Ho; intros [= <- <-].
    - destruct (proj1 (list_elem_of_fmap _ _ _) (proj1 (Hm (fl_RoutingID l)) (ex_intro _ o Ho)))
        as (k & Hk & Hin). naive_solver.
    - split; [|done]. split; [|done]. intros _. split; [done|]. intros k Hin Heq.
      assert (is_Some (lm_routing m !! fl_RoutingID l)) as [? ?]; [|congruence].
      apply Hm. rewrite <- Heq. by apply list_elem_of_fmap_2. }
  rewrite !app_nil_iff, !when_nil, !orb_false_iff, negb_false_iff, bool_decide_eq_false,
    !N.ltb_ge, N.eqb_neq, validate_link_transport_iff, H1, H2, Hl1, H4,
    (Forall_forall (λ k, links_agree k l)). clear E1 E2 E3 E4.
  split.
  - split.
    + intros (? & ? & ? & (Hi & Ha & ?) & Hpeer & ? & ? & ? & ?).
      apply validate_link_peer_iff in Hpeer as (? & ? & ? & ?); [|done].
      split; [constructor; first [assumption|tauto]|]. intros k Hk. constructor; naive_solver.
    + intros [[] H]. rewrite validate_link_peer_iff by done.
      split_and!; try tauto; try lia; intros k Hk; try (intros Hx; by apply (H k Hk)); by apply (H k Hk).
  - rewrite <- H1, <- H2, <- Hl1, <- H4. intros (He1 & _ & He2 & He3 & _ & _ & He4 & _).
    destruct (Hl2 He3) as [n' ->]. rewrite (H1' He1), (H2' He2), (H4' He4). eauto.
Qed.

Lemma links_inv_snoc done l m name n' :
  Forall (λ k, links_agree k l) done → links_inv done m →
  links_inv (done ++ [l])
    (LinkMaps (<[fl_ID l := l]> (lm_links m)) (<[fl_RoutingID l := name]> (lm_routing m))
       (<[fl_Interface l := fl_Transport l]> (lm_interfaces m))
       (<[local_of l := (n', fl_Transport l, fl_Interface l)]> (lm_locals m))).
Proof.
  intros Hag (H1 & H2 & H3 & H4). rewrite Forall_forall in Hag. unfold links_inv. cbn. split_and!.
  - intros id k. rewrite lookup_insert_Some, elem_of_app, list_elem_of_singleton, H1. split; [naive_solver|].
    intros [[Hk| ->] <-]; [|by left]. right. split; [|done]. intros Heq. by apply (la_id _ _ (Hag k Hk)).
  - intros r. rewrite lookup_insert_is_Some, fmap_app, elem_of_app, H2. cbn. rewrite list_elem_of_singleton.
    destruct (decide (fl_RoutingID l = r)); naive_solver.
  - intros i t. rewrite lookup_insert_Some, H3. setoid_rewrite elem_of_app.
    setoid_rewrite list_elem_of_singleton. split; [naive_solver|].
    intros (k & [Hk| ->] & <- & <-); [|by left].
    destruct (decide (fl_Interface l = fl_Interface k)) as [Heq|]; [left|right; naive_solver].
    destruct (la_interface _ _ (Hag k Hk) (eq_sym Heq)) as [Hd1 Hd2]. unfold direct in *. by rewrite Hd1, Hd2.
  - intros a t i. setoid_rewrite elem_of_app. setoid_rewrite list_elem_of_singleton. split.
    + intros [n [[<- [= <- <- <-]]|[_ Hn]]%lookup_insert_Some]; [naive_solver|].
      destruct (proj1 (H4 a t i) (ex_intro _ n Hn)) as (k & Hk & ?). exists k. split; [by left|done].
    + intros (k & [Hk| ->] & <- & <- & <-); [|eexists; by rewrite lookup_insert_eq].
      destruct (decide (local_of l = local_of k)) as [Heq|Hne].
      * destruct (la_local _ _ (Hag k Hk) (eq_sym Heq)) as (Hd1 & Hd2 & Hi). unfold direct in *.
        rewrite Heq, lookup_insert_eq, Hd1, Hd2, Hi. eauto.
      * rewrite lookup_insert_ne by done. apply H4. eauto.
Qed.

Lemma links_inv_nil : links_inv [] (LinkMaps ∅ ∅ ∅ ∅).
Proof.
  split_and!; cbn; intros; rewrite lookup_empty.
  - split; [done|by intros [?%elem_of_nil _]].
  - split; [by intros [? ?]|by intros ?%elem_of_nil].
  - split; [done|by intros (? & ?%elem_of_nil & _)].
  - split; [by intros [? ?]|by intros (? & ?%elem_of_nil & _)].
Qed.

Definition links_ok (node : string) (rs : list Prefix) (links : list FabricLinkSpec) : Prop :=
  Forall (link_fine node rs) links ∧ pairwise links_agree links.

Lemma validate_links_iff node rs links :
  let r := vloop (validate_link node rs) 0 links (LinkMaps ∅ ∅ ∅ ∅) in
  (r.2 = [] ↔ links_ok node rs links) ∧ (links_ok node rs links → links_inv links r.1).
Proof.
  apply (vloop_iff (validate_link node rs) (links_ok node rs) links_inv).
  - split; constructor.
  - apply links_inv_nil.
  - intros l p. unfold links_ok. rewrite Forall_snoc, pairwise_snoc. tauto.
  - intros l p m [Hl Hp] Hm. unfold links_ok. rewrite Forall_snoc, pairwise_snoc.
    destruct (validate_link_iff node rs l p m Hm) as [H1 H2]. rewrite H1. split; [tauto|].
    intros [[_ Hf] [_ Ha]]. destruct H2 as (name & n' & ->); [by apply H1|]. by apply links_inv_snoc.
Qed.

(** * Health checks *)
Record check_fine (rs : list Prefix) (c : HealthCheckSpec) : Prop := {
  cf_pool : validIdentifier (hc_PoolID c) = true;
  cf_backend : validIdentifier (hc_BackendID c) = true;
  cf_endpoint : endpoint_ok (hc_Endpoint c) = true;
  cf_protocol : hc_Protocol c = ProtocolTCP;
  cf_interval : 1 ≤ hc_IntervalSeconds c ≤ 300;
  cf_timeout : 100 ≤ hc_TimeoutMilliseconds c ≤ 30000;
  cf_fits : hc_TimeoutMilliseconds c ≤ hc_IntervalSeconds c * 1000;
  cf_failure : 1 ≤ hc_FailureThreshold c ≤ 10;
  cf_success : 1 ≤ hc_SuccessThreshold c ≤ 10;
  cf_version : hc_ResourceVersion c ≠ 0;
  cf_clear : clear_of rs (ep_Address (hc_Endpoint c));
}.

Definition checks_ok (rs : list Prefix) (checks : list HealthCheckSpec) : Prop :=
  Forall (check_fine rs) checks ∧ NoDup (check_key <$> checks).

Lemma timeout_issue_iff (a b : string) t i :
  1 ≤ i ≤ 300 →
  (if (t <? 100) || (30000 <? t) then [a]
   else when (negb (i =? 0) && (wrap 32 (i * 1000) <? t)) b) = []
  ↔ 100 ≤ t ≤ 30000 ∧ t ≤ i * 1000.
Proof.
  intros Hi. unfold wrap. rewrite N.mod_small by (change (2 ^ 32) with 4294967296; lia).
  rewrite (proj2 (N.eqb_neq i 0)) by lia. cbn.
  destruct ((t <? 100) || (30000 <? t)) eqn:E.
  - split; [done|]. apply orb_true_iff in E. rewrite !N.ltb_lt in E. lia.
  - reflect_bool. rewrite when_nil, N.ltb_ge. lia.
Qed.

Lemma validate_checks_iff rs checks :
  (vloop (validate_check rs) 0 checks ∅).2 = [] ↔ checks_ok rs checks.
Proof.
  apply (vloop_iff (validate_check rs) (checks_ok rs) (λ l seen, ∀ k, k ∈ seen ↔ k ∈ (check_key <$> l))).
  - split; constructor.
  - set_solver.
  - intros l c. unfold checks_ok. rewrite Forall_snoc, fmap_app. cbn. rewrite NoDup_snoc. tauto.
  - intros l c seen [Hl Hnd] Hs. unfold checks_ok. rewrite Forall_snoc, fmap_app. cbn. rewrite NoDup_snoc.
    unfold validate_check. set (p := at_index _ _).
    destruct (if bool_decide (_ ∈ seen) then _ else _) as [seen' e] eqn:E.
    assert ((e = [] ↔ check_key c ∉ (check_key <$> l)) ∧ (e = [] → seen' = {[check_key c]} ∪ seen))
      as [He He'].
    { rewrite <- Hs. unfold check_key. case_bool_decide as Hb; injection E as <- <-; naive_solver. }
    cbn -[N.mul]. rewrite !app_nil_iff, !when_nil, He, validateEndpoint_iff, !negb_false_iff,
      !orb_false_iff, !N.ltb_ge, N.eqb_neq, bool_decide_eq_true.
    rewrite (each_when_iff (λ r, Prefix_Contains r (Addr_Unmap (ep_Address (hc_Endpoint c))))).
    split.
    + split.
      * intros (? & ? & ? & ? & ? & ? & Ht & ? & ? & ? & ?).
        rewrite timeout_issue_iff in Ht by lia. split_and!; [done| |done..]. by constructor; try lia.
      * intros [[_ []] [_ ?]]. rewrite timeout_issue_iff by lia. split_and!; try done; lia.
    + intros [_ [_ Hn]] k. rewrite (He' (proj2 He Hn)), elem_of_union, elem_of_singleton, elem_of_app,
        list_elem_of_singleton, Hs. tauto.
Qed.

(** * Traffic classes *)

(** The classes claimed are different and none is reserved; [0] claims none. *)
Definition classes_ok (claims : list N) : Prop :=
  NoDup (nonzero claims) ∧ Forall (λ c, c ≠ 1 ∧ c ≠ 65535) claims.

Lemma nonzero_snoc claims c :
  nonzero (claims ++ [c]) = nonzero claims ++ (if c =? 0 then [] else [c]).
Proof.
  unfold nonzero. rewrite filter_app. f_equal. destruct (N.eqb_spec c 0) as [->|].
  - by rewrite filter_cons_False by (intros H; by apply H).
  - by rewrite filter_cons_True.
Qed.

Definition owners_inv (claims : list N) (owners : gmap N string) : Prop :=
  ∀ c, is_Some (owners !! c) ↔ c ∈ nonzero claims.

Lemma claim_class_iff prefix c claims owners :
  classes_ok claims → owners_inv claims owners →
  ((claim_class prefix c owners).2 = [] ↔ classes_ok (claims ++ [c]))
  ∧ (classes_ok (claims ++ [c]) → owners_inv (claims ++ [c]) (claim_class prefix c owners).1).
Proof.
  intros [Hnd Hall] Ho. unfold classes_ok, owners_inv, claim_class in *. rewrite Forall_snoc, nonzero_snoc.
  destruct (N.eqb_spec c 0) as [->|H0]; [rewrite app_nil_r; cbn; naive_solver|].
  rewrite NoDup_snoc. destruct ((c =? 1) || (c =? 65535)) eqn:E1; cbn.
  { apply orb_true_iff in E1. rewrite !N.eqb_eq in E1. naive_solver. }
  reflect_bool. destruct (owners !! c) as [o|] eqn:Eo; cbn.
  - assert (c ∈ nonzero claims) by (apply Ho; eauto). split; [split; [done|]|]; naive_solver.
  - assert (c ∉ nonzero claims) by (intros [? ?]%Ho; congruence). split; [tauto|].
    intros _ c'. rewrite lookup_insert_is_Some, elem_of_app, list_elem_of_singleton, Ho.
    destruct (decide (c = c')); naive_solver.
Qed.

Lemma classes_ok_prefix l k : classes_ok (l ++ k) → classes_ok l.
Proof.
  unfold classes_ok, nonzero. rewrite filter_app, NoDup_app, Forall_app. tauto.
Qed.

Lemma classes_ok_perm l k : l ≡ₚ k → classes_ok l → classes_ok k.
Proof. unfold classes_ok, nonzero. by intros ->. Qed.

(** * User policies *)
Record policy_fine (p : UserPolicySpec) : Prop := {
  pf_user : validIdentifier (up_UserID p) = true;
  pf_version : up_ResourceVersion p ≠ 0;
  pf_limits : ¬ (up_RateLimit p = None ∧ up_TrafficQuota p = None);
  pf_rate : rate_ok (up_RateLimit p) = true;
  pf_quota : quota_ok (up_TrafficQuota p) = true;
}.

Definition policies_ok (policies : list UserPolicySpec) : Prop :=
  Forall policy_fine policies ∧ NoDup (up_UserID <$> policies)
  ∧ classes_ok (up_TrafficClassID <$> policies).

Lemma validate_policies_iff policies :
  let r := vloop validate_policy 0 policies (∅, ∅) in
  (r.2 = [] ↔ policies_ok policies)
  ∧ (policies_ok policies → owners_inv (up_TrafficClassID <$> policies) r.1.2).
Proof.
  intros r.
  assert ((r.2 = [] ↔ policies_ok policies) ∧ (policies_ok policies →
            (∀ u, u ∈ r.1.1 ↔ u ∈ (up_UserID <$> policies))
            ∧ owners_inv (up_TrafficClassID <$> policies) r.1.2)) as [H1 H2];
    [|split; [exact H1|]; intros H; apply (H2 H)].
  apply (vloop_iff validate_policy policies_ok (λ l st,
    (∀ u, u ∈ st.1 ↔ u ∈ (up_UserID <$> l)) ∧ owners_inv (up_TrafficClassID <$> l) st.2)).
  - split_and!; repeat constructor.
  - split; [set_solver|]. intros c. cbn. rewrite lookup_empty. split; [by intros [? ?]|by intros ?%elem_of_nil].
  - intros l p. unfold policies_ok. rewrite Forall_snoc, !fmap_app. cbn. rewrite NoDup_snoc.
    intros ([? _] & [? _] & ?%classes_ok_prefix). done.
  - intros l p [users owners] (Hl & Hnd & Hc) [Hu Ho]. cbn in Hu, Ho. unfold policies_ok.
    rewrite Forall_snoc, !fmap_app. cbn [fmap list_fmap]. rewrite NoDup_snoc. unfold validate_policy.
    set (n := at_index _ _).
    destruct (claim_class_iff n (up_TrafficClassID p) _ owners Hc Ho) as [Hc1 Hc2].
    destruct (if negb (validIdentifier (up_UserID p)) then _ else _) as [users' e] eqn:E.
    destruct (claim_class _ _ _) as [owners' e'] eqn:Ec. cbn in Hc1, Hc2 |- *.
    assert ((e = [] ↔ validIdentifier (up_UserID p) = true ∧ up_UserID p ∉ (up_UserID <$> l))
            ∧ (e = [] → users' = {[up_UserID p]} ∪ users)) as [He He'].
    { rewrite <- Hu. revert E. destruct (validIdentifier _); cbn [negb]; [|intros [= <- <-]; naive_solver].
      case_bool_decide as Hb; intros [= <- <-]; naive_solver. }
    rewrite !app_nil_iff, !when_nil, He, Hc1, validateRateLimit_iff, validateQuota_iff, N.eqb_neq,
      andb_false_iff, !bool_decide_eq_false. split.
    + split.
      * intros ([? ?] & ? & ? & ? & ? & ?). split_and!; try done. constructor; tauto.
      * intros ([_ []] & [_ ?] & ?). split_and!; try done.
        destruct (decide (up_RateLimit p = None)); tauto.
    + intros ([_ Hp] & [_ Hn] & Hcl). split; [|by apply Hc2].
      intros u. rewrite (He' (proj2 He (conj (pf_user _ Hp) Hn))), elem_of_union, elem_of_singleton,
        elem_of_app, list_elem_of_singleton, Hu. tauto.
Qed.

(** * Forwards *)
Definition snat_ok (snat : SNATSpec) : bool :=
  if bool_decide (snat_Mode snat = SNATMasquerade) then bool_decide (snat_Address snat = None)
  else if bool_decide (snat_Mode snat = SNATStatic)
  then match snat_Address snat with Some a => concrete_v4 a | None => false end
  else false.

(** Schema version 1 has no classes, limits, quotas, deadlines or forced
    deletion. *)
Definition uses_v2 (f : ForwardSpec) : bool :=
  negb (fw_TrafficClassID f =? 0) || bool_decide (is_Some (fw_RateLimit f))
  || bool_decide (is_Some (fw_TrafficQuota f)) || bool_decide (is_Some (fw_ExpiresAt f))
  || bool_decide (is_Some (fw_DrainDeadline f))
  || bool_decide (fw_Lifecycle f = LifecycleForceDeleting).

(** A deadline is set exactly while the forward drains. *)
Definition times_ok (f : ForwardSpec) : bool :=
  match fw_ExpiresAt f with Some t => negb (Time_IsZero t) | None => true end
  && match fw_DrainDeadline f with
     | Some t => bool_decide (fw_Lifecycle f = LifecycleDraining) && negb (Time_IsZero t)
     | None => negb (bool_decide (fw_Lifecycle f = LifecycleDraining))
     end.

Definition opposite (s : DesiredState) (f : ForwardSpec) : string :=
  if bool_decide (ds_NodeID s = fw_ExitNodeID f) then fw_IngressNodeID f else fw_ExitNodeID f.

Record via_exit_fine (s : DesiredState) (f : ForwardSpec) : Prop := {
  ve_version : SchemaVersionV3 ≤ ds_SchemaVersion s;
  ve_exit : validIdentifier (fw_ExitNodeID f) = true;
  ve_ends : fw_ExitNodeID f ≠ fw_IngressNodeID f;
  ve_node : ds_NodeID s = fw_IngressNodeID f ∨ ds_NodeID s = fw_ExitNodeID f;
  ve_vip : ∃ vip, fw_ServiceVIP f = Some vip ∧ concrete_v4 vip = true
                  ∧ Exists (λ c, Prefix_Contains c (Addr_Unmap vip) = true) (ranges s);
  ve_link_id : validIdentifier (fw_FabricLinkID f) = true;
  ve_link : ∃ l, l ∈ ds_FabricLinks s ∧ fl_ID l = fw_FabricLinkID f ∧ fl_PeerNodeID l = opposite s f;
}.

Definition path_fine (s : DesiredState) (f : ForwardSpec) : Prop :=
  (fw_PathMode f = PathDirect ∧ fw_ExitNodeID f = "" ∧ fw_ServiceVIP f = None
   ∧ fw_FabricLinkID f = "" ∧ fw_IngressNodeID f = ds_NodeID s)
  ∨ (fw_PathMode f = PathViaExit ∧ via_exit_fine s f).

Record forward_fine (s : DesiredState) (f : ForwardSpec) : Prop := {
  ff_id : validIdentifier (fw_ID f) = true;
  ff_user : validIdentifier (fw_UserID f) = true;
  ff_ingress : validIdentifier (fw_IngressNodeID f) = true;
  ff_version : fw_ResourceVersion f ≠ 0;
  ff_listen : endpoint_ok (fw_Listen f) = true;
  ff_target : endpoint_ok (fw_Target f) = true;
  ff_some : fw_Protocols f ≠ [];
  ff_protocols : Forall (λ p, p = ProtocolTCP ∨ p = ProtocolUDP) (fw_Protocols f);
  ff_path : path_fine s f;
  ff_lifecycle : supported_lifecycle (fw_Lifecycle f) = true;
  ff_snat : snat_ok (fw_SNAT f) = true;
  ff_rate : rate_ok (fw_RateLimit f) = true;
  ff_quota : quota_ok (fw_TrafficQuota f) = true;
  ff_listen_clear : clear_of (ranges s) (ep_Address (fw_Listen f));
  ff_target_clear : clear_of (ranges s) (ep_Address (fw_Target f));
  ff_snat_clear : ∀ a, snat_Address (fw_SNAT f) = Some a → clear_of (ranges s) a;
  ff_times : times_ok f = true;
  ff_v1 : ds_SchemaVersion s = SchemaVersionV1 → uses_v2 f = false;
}.

(** The service VIP of a cross-node forward. *)
Definition claimed_vip (f : ForwardSpec) : option Addr :=
  if bool_decide (fw_PathMode f = PathViaExit) then Addr_Unmap <$> fw_ServiceVIP f else None.

Lemma validate_snat_iff n s : validate_snat n s = [] ↔ snat_ok s = true.
Proof.
  unfold validate_snat, snat_ok.
  destruct (bool_decide (snat_Mode s = SNATMasquerade)); [by destruct (snat_Address s)|].
  destruct (bool_decide (snat_Mode s = SNATStatic)); [|done].
  destruct (snat_Address s); [apply validateIPv4_iff|done].
Qed.

Lemma validate_forward_times_iff s n f :
  validate_forward_times s n f = []
  ↔ times_ok f = true ∧ (ds_SchemaVersion s = SchemaVersionV1 → uses_v2 f = false).
Proof.
  unfold validate_forward_times, times_ok. rewrite !app_nil_iff, !when_nil.
  fold (uses_v2 f). rewrite (and_assoc _ _ (_ && uses_v2 f = false)). f_equiv.
  - rewrite andb_true_iff. f_equiv; [by destruct (fw_ExpiresAt f) as [t|]; [destruct (Time_IsZero t)|]|].
    destruct (bool_decide (fw_Lifecycle f = LifecycleDraining)), (fw_DrainDeadline f) as [t|];
      rewrite ?when_nil; [destruct (Time_IsZero t)|..]; done.
  - rewrite andb_false_iff, N.eqb_neq. destruct (uses_v2 f); naive_solver.
Qed.

Lemma validate_forward_ranges_iff n f rs :
  validate_forward_ranges n f rs = []
  ↔ clear_of rs (ep_Address (fw_Listen f)) ∧ clear_of rs (ep_Address (fw_Target f))
    ∧ (∀ a, snat_Address (fw_SNAT f) = Some a → clear_of rs a).
Proof.
  unfold validate_forward_ranges, clear_of. rewrite each_nil_iff. setoid_rewrite app_nil_iff.
  setoid_rewrite app_nil_iff. setoid_rewrite when_nil. rewrite !Forall_lookup.
  destruct (snat_Address (fw_SNAT f)) as [a|].
  - setoid_rewrite Forall_lookup. naive_solver.
  - naive_solver.
Qed.

Lemma validate_protocols_iff node n f ls :
  let r := vloop (validate_protocol node n f) 0 (fw_Protocols f) (∅, ls) in
  let A := NoDup (fw_Protocols f) ∧ Forall (λ p, p = ProtocolTCP ∨ p = ProtocolUDP) (fw_Protocols f)
           ∧ Forall (λ k, ls !! k = None) (listen_keys node f) in
  (r.2 = [] ↔ A)
  ∧ (A → ∀ k, is_Some (r.1.2 !! k) ↔ is_Some (ls !! k) ∨ k ∈ listen_keys node f).
Proof.
  intros r A.
  assert ((r.2 = [] ↔ A) ∧ (A → (∀ p, p ∈ r.1.1 ↔ p ∈ fw_Protocols f)
            ∧ (∀ k, is_Some (r.1.2 !! k) ↔ is_Some (ls !! k) ∨ k ∈ listen_keys node f))) as [H1 H2];
    [|split; [exact H1|]; intros H; apply (H2 H)].
  unfold A, listen_keys.
  apply (vloop_iff (validate_protocol node n f)
    (λ l, NoDup l ∧ Forall (λ p, p = ProtocolTCP ∨ p = ProtocolUDP) l
          ∧ Forall (λ k, ls !! k = None) (listen_key node f <$> l))
    (λ l st, (∀ p, p ∈ st.1 ↔ p ∈ l)
       ∧ (∀ k, is_Some (st.2 !! k) ↔ is_Some (ls !! k) ∨ k ∈ (listen_key node f <$> l)))).
  - split_and!; constructor.
  - split; [set_solver|]. intros k. cbn. rewrite elem_of_nil. tauto.
  - intros l p. rewrite NoDup_snoc, Forall_snoc, fmap_app. cbn. rewrite Forall_snoc. tauto.
  - intros l p [seen m] (Hnd & Hs & Hf) [Hseen Hm]. cbn in Hseen, Hm.
    rewrite NoDup_snoc, Forall_snoc, fmap_app. cbn [fmap list_fmap]. rewrite Forall_snoc.
    unfold validate_protocol.
    destruct (negb _ && negb _) eqn:Ep.
    { reflect_bool. cbn. naive_solver. }
    assert (p = ProtocolTCP ∨ p = ProtocolUDP) as Hp.
    { apply andb_false_iff in Ep as [Ep|Ep]; reflect_bool; auto. }
    destruct (bool_decide (p ∈ seen)) eqn:Hin.
    { apply bool_decide_eq_true, Hseen in Hin. cbn. naive_solver. }
    assert (p ∉ l) as Hnew by (intros H%Hseen; by rewrite bool_decide_eq_true_2 in Hin).
    assert (listen_key node f p ∉ (listen_key node f <$> l)) as Hfresh.
    { intros (q & Hq & Hin')%list_elem_of_fmap. revert Hq. unfold listen_key.
      destruct (forward_match node f). by intros [= ->]. }
    destruct (m !! listen_key node f p) as [o|] eqn:El; cbn.
    + destruct (proj1 (Hm _) (ex_intro _ o El)) as [[o' Ho]|]; [|done]. split; [|naive_solver].
      split; [done|]. intros (_ & _ & _ & Hn). congruence.
    + assert (ls !! listen_key node f p = None) as Hn.
      { apply eq_None_not_Some. intros Hso. destruct (proj2 (Hm _) (or_introl Hso)). congruence. }
      split; [tauto|]. intros _. split.
      * intros q. rewrite elem_of_union, elem_of_singleton, elem_of_app, list_elem_of_singleton, Hseen. tauto.
      * intros k. rewrite lookup_insert_is_Some, elem_of_app, list_elem_of_singleton, Hm.
        destruct (decide (listen_key node f p = k)); naive_solver.
Qed.

Lemma existsb_Exists {A} (p : A → bool) l : existsb p l = true ↔ Exists (λ x, p x = true) l.
Proof.
  rewrite existsb_exists, Exists_exists. by setoid_rewrite list_elem_of_In.
Qed.

Definition vips_inv (done : list ForwardSpec) (vips : gmap Addr string) : Prop :=
  ∀ a id, vips !! a = Some id ↔ ∃ f, f ∈ done ∧ claimed_vip f = Some a ∧ fw_ID f = id.

Lemma vips_owned done vips a :
  vips_inv done vips → is_Some (vips !! a) ↔ a ∈ omap claimed_vip done.
Proof.
  intros Hv. rewrite list_elem_of_omap. split.
  - intros [id (f & Hf & Ha & _)%Hv]. eauto.
  - intros (f & Hf & Ha). exists (fw_ID f). apply Hv. eauto.
Qed.

Definition vip_new (done : list ForwardSpec) (f : ForwardSpec) : Prop :=
  ∀ a, claimed_vip f = Some a → a ∉ omap claimed_vip done.

Definition links_resolve (s : DesiredState) (links : gmap string FabricLinkSpec) : Prop :=
  ∀ id l, links !! id = Some l ↔ l ∈ ds_FabricLinks s ∧ fl_ID l = id.

Lemma link_issue_iff s links n m k f :
  links_resolve s links →
  (if negb (validIdentifier (fw_FabricLinkID f)) then [n]
   else match links !! fw_FabricLinkID f with
        | None => [m]
        | Some link => when (negb (bool_decide (fl_PeerNodeID link = opposite s f))) k
        end) = []
  ↔ validIdentifier (fw_FabricLinkID f) = true
    ∧ ∃ l, l ∈ ds_FabricLinks s ∧ fl_ID l = fw_FabricLinkID f ∧ fl_PeerNodeID l = opposite s f.
Proof.
  intros Hl. destruct (validIdentifier _); cbn; [|naive_solver].
  destruct (links !! fw_FabricLinkID f) as [l|] eqn:E.
  - rewrite when_nil, negb_false_iff, bool_decide_eq_true. split.
    + intros Hp. split; [done|]. apply Hl in E as [? ?]. eauto.
    + intros (_ & l' & Hin & Hid & Hp). assert (links !! fw_FabricLinkID f = Some l') by by apply Hl.
      congruence.
  - split; [done|]. intros (_ & l' & Hin & Hid & Hp).
    assert (links !! fw_FabricLinkID f = Some l') by by apply Hl. congruence.
Qed.

Lemma validate_path_iff s links n done f vips :
  links_resolve s links → vips_inv done vips → fw_ID f ∉ (fw_ID <$> done) →
  let r := validate_path s (ranges s) links n f vips in
  (r.2 = [] ↔ path_fine s f ∧ vip_new done f)
  ∧ (r.2 = [] → vips_inv (done ++ [f]) r.1).
Proof.
  intros Hl Hv Hid. unfold validate_path, path_fine, vip_new, claimed_vip, vips_inv in *.
  assert (claimed_vip f = None → ∀ a id, vips !! a = Some id
            ↔ ∃ g, g ∈ done ++ [f] ∧ claimed_vip g = Some a ∧ fw_ID g = id) as Hsame.
  { intros Hc a id. rewrite Hv. setoid_rewrite elem_of_app. setoid_rewrite list_elem_of_singleton.
    split; [naive_solver|]. intros (g & [Hg| ->] & Ha & <-); [eauto|congruence]. }
  case_bool_decide as Hd; cbn zeta.
  { assert (fw_PathMode f ≠ PathViaExit) as Hne by by rewrite Hd.
    rewrite (bool_decide_eq_false_2 _ Hne). cbn [snd fst]. split.
    - rewrite !app_nil_iff, !when_nil, !negb_false_iff, !bool_decide_eq_true, bool_decide_None, Hd.
      destruct (fw_ServiceVIP f); naive_solver.
    - intros _. apply Hsame. unfold claimed_vip. by rewrite (bool_decide_eq_false_2 _ Hne). }
  case_bool_decide as Hvia; [|cbn; naive_solver].
  fold (opposite s f). clear Hsame.
  destruct (fw_ServiceVIP f) as [vip|] eqn:Evip; cbn [fmap option_fmap option_map] in *.
  2: { cbn. split; [|intros H; split_issues H; done]. split; [intros H; split_issues H; done|].
       intros [[[? _]|[_ []]] _]; [done|]. destruct ve_vip0 as (? & ? & _). congruence. }
  set (e_link := if negb (validIdentifier (fw_FabricLinkID f)) then _ else _).
  destruct (claim_vip n f (Addr_Unmap vip) vips) as [vips' e] eqn:Ec. cbn [snd fst].
  assert ((e = [] ↔ Addr_Unmap vip ∉ omap claimed_vip done)
          ∧ (e = [] → vips' = <[Addr_Unmap vip := fw_ID f]> vips)) as [He He'].
  { rewrite <- (vips_owned done vips _ Hv). revert Ec. unfold claim_vip.
    destruct (vips !! Addr_Unmap vip) as [o|] eqn:Eo.
    - case_bool_decide as Ho; intros [= <- <-]; cbn.
      + exfalso. apply Hv in Eo as (g & Hg & _ & <-). apply Hid. rewrite <- Ho. by apply list_elem_of_fmap_2.
      + split; [|done]. split; [done|]. intros []. eauto.
    - intros [= <- <-]. split; [|done]. split; [|done]. intros _ [? ?]. congruence. }
  assert (Hlink : e_link = [] ↔ _) by exact (link_issue_iff s links _ _ _ f Hl).
  clearbody e_link. rewrite !app_nil_iff, !when_nil, Hlink, He, validateIPv4_iff, N.ltb_ge, !negb_false_iff,
    andb_false_iff, !negb_false_iff, !bool_decide_eq_true, bool_decide_eq_false, existsb_Exists.
  split.
  - split.
    + intros ((? & ? & ? & ?) & (? & ? & ?) & ? & ?). split; [|by intros a [= <-]].
      right. split; [done|]. constructor; eauto.
    + intros [[[? _]|[_ []]] Hnew]; [done|]. destruct ve_vip0 as (v & Ev & ? & ?).
      rewrite Evip in Ev. injection Ev as <-. split_and!; eauto.
  - rewrite <- He. intros (_ & (_ & _ & Hen) & _). rewrite (He' Hen). intros a id.
    rewrite lookup_insert_Some, Hv. setoid_rewrite elem_of_app. setoid_rewrite list_elem_of_singleton.
    assert (claimed_vip f = Some (Addr_Unmap vip)) as Hcf.
    { unfold claimed_vip. by rewrite bool_decide_eq_true_2, Evip. }
    split; [naive_solver|]. intros (g & [Hg| ->] & Ha & <-); [|left; naive_solver].
    right. split; [|eauto]. intros <-. apply (proj1 He Hen). apply list_elem_of_omap. eauto.
Qed.

(** The conditions on the forwards of a state, [claims] being the classes of
    its policies. *)
Definition forwards_ok (s : DesiredState) (claims : list N) (l : list ForwardSpec) : Prop :=
  Forall (forward_fine s) l ∧ NoDup (fw_ID <$> l) ∧ NoDup (l ≫= listen_keys (ds_NodeID s))
  ∧ NoDup (omap claimed_vip l) ∧ classes_ok (claims ++ (fw_TrafficClassID <$> l)).

Definition forwards_inv (s : DesiredState) (claims : list N) (l : list ForwardSpec) (m : forward_maps) : Prop :=
  (∀ id, id ∈ fm_ids m ↔ id ∈ (fw_ID <$> l))
  ∧ owners_inv (claims ++ (fw_TrafficClassID <$> l)) (fm_classes m)
  ∧ (∀ k, is_Some (fm_listeners m !! k) ↔ k ∈ (l ≫= listen_keys (ds_NodeID s)))
  ∧ vips_inv l (fm_vips m).

Lemma forwards_ok_snoc s claims l f :
  forwards_ok s claims (l ++ [f]) ↔
  forwards_ok s claims l ∧ forward_fine s f ∧ fw_ID f ∉ (fw_ID <$> l)
  ∧ NoDup (fw_Protocols f)
  ∧ (∀ k, k ∈ (l ≫= listen_keys (ds_NodeID s)) → k ∉ listen_keys (ds_NodeID s) f)
  ∧ vip_new l f ∧ classes_ok (claims ++ (fw_TrafficClassID <$> (l ++ [f]))).
Proof.
  unfold forwards_ok. rewrite Forall_snoc, fmap_app, bind_app, omap_app. cbn [fmap list_fmap mbind list_bind omap list_omap].
  rewrite NoDup_snoc, app_nil_r, NoDup_app.
  assert (NoDup (listen_keys (ds_NodeID s) f) ↔ NoDup (fw_Protocols f)) as ->.
  { unfold listen_keys. split; [apply NoDup_fmap_1|]. apply NoDup_fmap_2. intros p q. unfold listen_key.
    destruct (forward_match _ f). by intros [= ->]. }
  assert (NoDup (omap claimed_vip l ++ match claimed_vip f with Some y => [y] | None => [] end)
          ↔ NoDup (omap claimed_vip l) ∧ vip_new l f) as Hvip.
  { unfold vip_new. destruct (claimed_vip f) as [a|]; [rewrite NoDup_snoc; naive_solver|].
    rewrite app_nil_r. naive_solver. }
  rewrite Hvip, !fmap_app. split; [|tauto]. intros H. split_and!; try tauto.
  destruct H as (_ & _ & _ & _ & H). rewrite app_assoc in H. by apply classes_ok_prefix in H.
Qed.

Lemma validate_forward_iff s claims links l f m :
  links_resolve s links → forwards_ok s claims l → forwards_inv s claims l m →
  ((validate_forward s (ranges s) links (length l) f m).2 = [] ↔ forwards_ok s claims (l ++ [f]))
  ∧ (forwards_ok s claims (l ++ [f]) →
     forwards_inv s claims (l ++ [f]) (validate_forward s (ranges s) links (length l) f m).1).
Proof.
  intros Hlinks Hok (Hi & Ho & Hk & Hv). rewrite forwards_ok_snoc. unfold validate_forward.
  set (n := at_index _ _).
  destruct (if negb (validIdentifier (fw_ID f)) then _ else _) as [ids e1] eqn:E1.
  assert ((e1 = [] ↔ validIdentifier (fw_ID f) = true ∧ fw_ID f ∉ (fw_ID <$> l))
          ∧ (e1 = [] → ids = {[fw_ID f]} ∪ fm_ids m)) as [He1 He1'].
  { rewrite <- Hi. revert E1. destruct (validIdentifier _); cbn [negb]; [|intros [= <- <-]; naive_solver].
    case_bool_decide as Hb; intros [= <- <-]; naive_solver. }
  clear E1. assert (classes_ok (claims ++ (fw_TrafficClassID <$> l))) as Hcl by apply Hok.
  destruct (claim_class_iff n (fw_TrafficClassID f) _ (fm_classes m) Hcl Ho) as [Hc1 Hc2].
  rewrite <- app_assoc in Hc1, Hc2. change [fw_TrafficClassID f] with (fw_TrafficClassID <$> [f]) in Hc1, Hc2.
  rewrite <- fmap_app in Hc1, Hc2.
  destruct (claim_class _ _ _) as [classes e2].
  pose proof (validate_protocols_iff (ds_NodeID s) n f (fm_listeners m)) as Hp. cbn zeta in Hp.
  destruct (vloop _ _ _ _) as [[seen listeners] e3]. destruct Hp as [Hp1 Hp2].
  destruct (validate_path s (ranges s) links n f (fm_vips m)) as [vips e4] eqn:E4.
  assert (fw_ID f ∉ (fw_ID <$> l) → (e4 = [] ↔ path_fine s f ∧ vip_new l f)
            ∧ (e4 = [] → vips_inv (l ++ [f]) vips)) as Hpath.
  { intros Hid. pose proof (validate_path_iff s links n l f (fm_vips m) Hlinks Hv Hid) as H.
    cbn zeta in H. by rewrite E4 in H. }
  clear E4. cbn [fst snd fm_ids fm_classes fm_listeners fm_vips] in *.
  assert (Forall (λ k, fm_listeners m !! k = None) (listen_keys (ds_NodeID s) f)
          ↔ ∀ k, k ∈ (l ≫= listen_keys (ds_NodeID s)) → k ∉ listen_keys (ds_NodeID s) f) as Hfree.
  { rewrite Forall_forall. setoid_rewrite <- Hk. split.
    - intros H k [o Hs] Hin. specialize (H k Hin). congruence.
    - intros H k Hin. apply eq_None_not_Some. intros Hs. by apply (H k). }
  rewrite Hfree in Hp1, Hp2.
  rewrite !app_nil_iff, !when_nil, He1, Hc1, Hp1, !validateEndpoint_iff, !negb_false_iff, N.eqb_neq,
    bool_decide_eq_false, validate_snat_iff, validateRateLimit_iff, validateQuota_iff,
    validate_forward_ranges_iff, validate_forward_times_iff. split.
  - split.
    + intros ([? Hid] & ? & ? & ? & ? & ? & ? & ? & (? & ? & ?) & He4 & ? & ? & ? & ? & (? & ? & ?) & ? & ?).
      apply (Hpath Hid) in He4 as [? ?]. split_and!; done.
    + intros (_ & [] & Hid & ? & ? & ? & ?). rewrite (proj1 (Hpath Hid)). split_and!; done.
  - intros (_ & [] & Hid & Hnd & Hdis & Hvn & Hcls). unfold forwards_inv. cbn. split_and!.
    + intros id. rewrite (He1' (proj2 He1 (conj ff_id0 Hid))), fmap_app. cbn [fmap list_fmap].
      rewrite elem_of_union, elem_of_singleton, elem_of_app, list_elem_of_singleton, Hi. tauto.
    + by apply Hc2.
    + intros k. rewrite Hp2 by done. rewrite bind_app, elem_of_app, Hk. cbn. by rewrite app_nil_r.
    + apply (Hpath Hid), (Hpath Hid). done.
Qed.

Lemma forwards_ok_nil s claims : classes_ok claims → forwards_ok s claims [].
Proof.
  intros H. unfold forwards_ok. cbn. rewrite app_nil_r. split_and!; [constructor..|done].
Qed.

Lemma validate_forwards_iff s claims owners links :
  links_resolve s links → classes_ok claims → owners_inv claims owners →
  (vloop (validate_forward s (ranges s) links) 0 (ds_Forwards s) (ForwardMaps ∅ owners ∅ ∅)).2 = []
  ↔ forwards_ok s claims (ds_Forwards s).
Proof.
  intros Hl Hc Ho.
  apply (vloop_iff (validate_forward s (ranges s) links) (forwards_ok s claims) (forwards_inv s claims)).
  - by apply forwards_ok_nil.
  - split_and!; cbn; [set_solver|by rewrite app_nil_r| |].
    + intros k. rewrite lookup_empty, elem_of_nil. split; [by intros [? ?]|done].
    + intros a id. rewrite lookup_empty. split; [done|]. by intros (? & ?%elem_of_nil & _).
  - intros l f. rewrite forwards_ok_snoc. tauto.
  - intros. by apply validate_forward_iff.
Qed.

(** * Accepted states *)
Record header_fine (s : DesiredState) : Prop := {
  hf_schema : SupportedSchemaVersion (ds_SchemaVersion s) = true;
  hf_node : validIdentifier (ds_NodeID s) = true;
  hf_generation : ds_Generation s ≠ 0;
  hf_domain : ds_ManagementDomain s ≠ "" →
    SchemaVersionV4 ≤ ds_SchemaVersion s ∧ validIdentifier (ds_ManagementDomain s) = true;
  hf_forwards : (length (ds_Forwards s) ≤ MaxForwardsPerSnapshot)%nat;
  hf_links : (length (ds_FabricLinks s) ≤ MaxFabricLinksPerSnapshot)%nat;
  hf_cidrs : (length (ds_ServiceCIDRs s) ≤ MaxServiceCIDRsPerSnapshot)%nat;
  hf_checks : (length (ds_HealthChecks s) ≤ MaxHealthChecksPerSnapshot)%nat;
}.

(** What older schema versions do not have. *)
Record schema_fine (s : DesiredState) : Prop := {
  sf_v3 : ds_SchemaVersion s < SchemaVersionV3 →
    length (ds_ServiceCIDRs s) = 0%nat ∧ length (ds_FabricLinks s) = 0%nat;
  sf_v4 : ds_SchemaVersion s < SchemaVersionV4 → length (ds_HealthChecks s) = 0%nat;
  sf_v5 : ds_SchemaVersion s < SchemaVersionV5 → canonicalProtocolBlocks (ds_ProtocolBlocks s) = None;
  sf_v2 : ds_SchemaVersion s = SchemaVersionV1 → length (ds_UserPolicies s) = 0%nat;
}.

Record accepted (s : DesiredState) : Prop := {
  ac_header : header_fine s;
  ac_schema : schema_fine s;
  ac_ranges : Forall (λ p, range_ok p = true) (ds_ServiceCIDRs s);
  ac_disjoint : pairwise apart (ds_ServiceCIDRs s);
  ac_links : links_ok (ds_NodeID s) (ranges s) (ds_FabricLinks s);
  ac_checks : checks_ok (ranges s) (ds_HealthChecks s);
  ac_policies : policies_ok (ds_UserPolicies s);
  ac_forwards : forwards_ok s (up_TrafficClassID <$> ds_UserPolicies s) (ds_Forwards s);
}.

Lemma validate_header_iff s : validate_header s = [] ↔ header_fine s.
Proof.
  unfold validate_header.
  rewrite !app_nil_iff, !when_nil, !negb_false_iff, N.eqb_neq, !Nat.ltb_ge.
  assert ((if negb (bool_decide (ds_ManagementDomain s = "")) then
        when (ds_SchemaVersion s <? SchemaVersionV4) "management_domain requires schema_version 4"
        ++ when (negb (validIdentifier (ds_ManagementDomain s))) "management_domain is invalid"
      else []) = [] ↔ (ds_ManagementDomain s ≠ "" →
        SchemaVersionV4 ≤ ds_SchemaVersion s ∧ validIdentifier (ds_ManagementDomain s) = true)) as ->.
  { case_bool_decide; cbn [negb]; [naive_solver|].
    rewrite app_nil_iff, !when_nil, negb_false_iff, N.ltb_ge. tauto. }
  split; [by intros (? & ? & ? & ? & ? & ? & ? & ?)|by intros []].
Qed.

Lemma validate_schema_iff s :
  validate_schema s = [] ∧ ((ds_SchemaVersion s =? SchemaVersionV1)
     && negb (length (ds_UserPolicies s) =? 0)%nat) = false ↔ schema_fine s.
Proof.
  unfold validate_schema.
  rewrite !app_nil_iff, !when_nil, !andb_false_iff, !N.ltb_ge, orb_false_iff, !negb_false_iff, N.eqb_neq,
    !Nat.eqb_eq.
  assert (match ds_ProtocolBlocks s with Some p => ProtocolBlockPolicy_Any p | None => false end = false
          ↔ canonicalProtocolBlocks (ds_ProtocolBlocks s) = None) as ->.
  { unfold canonicalProtocolBlocks. destruct (ds_ProtocolBlocks s) as [b|]; [|done].
    by destruct (ProtocolBlockPolicy_Any b). }
  split.
  - intros ((H3 & H4 & H5) & H1). constructor; intros Hv; [destruct H3|destruct H4|destruct H5|destruct H1];
      try done; lia.
  - intros []. split_and!.
    + destruct (N.lt_ge_cases (ds_SchemaVersion s) SchemaVersionV3); auto.
    + destruct (N.lt_ge_cases (ds_SchemaVersion s) SchemaVersionV4); auto.
    + destruct (N.lt_ge_cases (ds_SchemaVersion s) SchemaVersionV5); auto.
    + destruct (decide (ds_SchemaVersion s = SchemaVersionV1)); auto.
Qed.

Lemma Valid_accepted s : Valid s ↔ accepted s.
Proof.
  unfold Valid, Validate. cbv zeta.
  pose proof (validate_cidrs_iff (ds_ServiceCIDRs s)) as [Hc Hc'].
  destruct (vloop validate_cidr 0 (ds_ServiceCIDRs s) []) as [cidrs e1]. cbn [fst snd] in Hc, Hc'.
  pose proof (validate_links_iff (ds_NodeID s) cidrs (ds_FabricLinks s)) as [Hl Hl'].
  destruct (vloop (validate_link _ _) _ _ _) as [links e2]. cbn [fst snd] in Hl, Hl'.
  pose proof (validate_checks_iff cidrs (ds_HealthChecks s)) as Hh.
  destruct (vloop (validate_check _) _ _ _) as [checks e3]. cbn [fst snd] in Hh.
  pose proof (validate_policies_iff (ds_UserPolicies s)) as [Hp Hp'].
  destruct (vloop validate_policy _ _ _) as [[users classes] e4]. cbn [fst snd] in Hp, Hp'.
  pose proof (validate_forwards_iff s (up_TrafficClassID <$> ds_UserPolicies s) classes (lm_links links)) as Hf.
  destruct (vloop (validate_forward s cidrs _) _ _ _) as [fm e5] eqn:E5. cbv beta iota.
  rewrite !app_nil_iff, when_nil, validate_header_iff. pose proof (validate_schema_iff s) as Hs.
  assert (e1 = [] → cidrs = ranges s) as Hr by (intros He; apply Hc', Hc, He).
  assert (e1 = [] → e2 = [] → e4 = [] → e5 = [] ↔
          forwards_ok s (up_TrafficClassID <$> ds_UserPolicies s) (ds_Forwards s)) as Hfo.
  { intros He1 He2 He4. rewrite (Hr He1) in E5. rewrite E5 in Hf. refine (Hf _ _ _).
    - exact (proj1 (Hl' (proj1 Hl He2))).
    - by apply Hp in He4 as (_ & _ & ?).
    - by apply Hp', Hp. }
  split.
  - intros (? & He1 & ? & He2 & He3 & He4 & ? & He5). rewrite (Hr He1) in *.
    pose proof (proj1 Hc He1). constructor; tauto.
  - intros []. assert (e1 = []) as He1 by tauto. rewrite (Hr He1) in *.
    assert (e2 = []) as He2 by tauto. assert (e4 = []) as He4 by tauto. tauto.
Qed.

(** * The canonical form of an accepted state is accepted *)
Lemma ranges_Canonical s : ranges (Canonical s) ≡ₚ ranges s.
Proof.
  unfold ranges, Canonical. cbn -[sort_slice].
  rewrite (fmap_Permutation canonicalPrefix _ _ (sort_slice_perm less_prefix _)), <- list_fmap_compose.
  apply Permutation_refl', list_fmap_ext. intros i p _. apply canonicalPrefix_idemp.
Qed.

Lemma clear_of_Unmap rs a : clear_of rs (Addr_Unmap a) ↔ clear_of rs a.
Proof. unfold clear_of. by rewrite Unmap_idemp. Qed.

Lemma endpoint_ok_canonical e : endpoint_ok e = true → endpoint_ok (canonicalEndpoint e) = true.
Proof.
  unfold endpoint_ok, canonicalEndpoint. cbn. rewrite concrete_v4_Unmap.
  by intros [[-> _]%andb_true_iff ->]%andb_true_iff.
Qed.

Lemma gre_ok_Unmap g :
  gre_ok (MkGRESpec (Addr_Unmap (gre_UnderlayLocal g)) (Addr_Unmap (gre_UnderlayRemote g)) (gre_Key g))
  = gre_ok g.
Proof. unfold gre_ok. cbn. by rewrite !concrete_v4_Unmap, !Unmap_idemp. Qed.

Lemma transport_ok_canonical l : transport_ok l = true → transport_ok (canonicalLink l) = true.
Proof.
  unfold transport_ok. cbn. destruct (fl_GRE l) as [g|]; cbn; rewrite ?gre_ok_Unmap; by repeat case_match.
Qed.

(** The address of an accepted link is not an IPv4-mapped one: its prefix
    contains the peer. *)
Lemma link_local_canonical node rs l :
  link_fine node rs l → canonicalInterfacePrefix (fl_LocalAddress l) = fl_LocalAddress l.
Proof.
  intros []. destruct (concrete_v4_inv _ lf_address0) as [y Hy]. rewrite Hy in lf_inside0.
  destruct (fl_LocalAddress l) as [a k] eqn:El. unfold interface_ok in lf_local0.
  apply andb_true_iff in lf_local0 as [[_ H1]%andb_true_iff H2].
  unfold Prefix_Contains, Prefix_Masked in lf_inside0.
  destruct (Prefix_IsValid (MkPrefix a k)) eqn:Hv; [|done].
  destruct a as [|x|x z]; cbn in lf_inside0; [done| |by rewrite andb_false_r in lf_inside0].
  rewrite (interface_bits _ x Hv eq_refl) in H1, H2 |- *. cbn in *.
  destruct ((0 <=? k) && (k <=? 32))%Z eqn:E; [done|]. cbn in H1. done.
Qed.

Lemma link_fine_canonical node rs rs' l :
  rs ≡ₚ rs' → link_fine node rs l → link_fine node rs' (canonicalLink l).
Proof.
  intros Hp Hl. pose proof (link_local_canonical _ _ _ Hl) as Hlocal. destruct Hl.
  constructor; cbn; rewrite ?Hlocal, ?concrete_v4_Unmap, ?Unmap_idemp; try done.
  - by rewrite <- Hp.
  - apply clear_of_Unmap. unfold clear_of. by rewrite <- Hp.
  - by apply transport_ok_canonical.
Qed.

Lemma local_of_canonical node rs l : link_fine node rs l → local_of (canonicalLink l) = local_of l.
Proof. intros Hl. unfold local_of. cbn. by rewrite (link_local_canonical _ _ _ Hl). Qed.

Lemma links_agree_sym l k : links_agree l k → links_agree k l.
Proof. intros []. constructor; naive_solver. Qed.

Lemma links_ok_canonical node rs rs' links :
  rs ≡ₚ rs' → links_ok node rs links →
  links_ok node rs' (sort_slice less_link (map canonicalLink links)).
Proof.
  intros Hp [Hf Hd]. split.
  - rewrite sort_slice_perm. apply Forall_map. eapply Forall_impl; [exact Hf|].
    intros l Hl. by eapply link_fine_canonical.
  - eapply pairwise_perm; [apply links_agree_sym|symmetry; apply sort_slice_perm|].
    apply pairwise_map; [|done]. intros l k Hl Hk []. rewrite Forall_forall in Hf.
    constructor; cbn; [done..|]. rewrite (local_of_canonical node rs l), (local_of_canonical node rs k); auto.
Qed.

Lemma checks_ok_canonical rs rs' checks :
  rs ≡ₚ rs' → checks_ok rs checks →
  checks_ok rs' (sort_slice less_check (map canonicalCheck checks)).
Proof.
  intros Hp [Hf Hd]. split.
  - rewrite sort_slice_perm. apply Forall_map. eapply Forall_impl; [exact Hf|]. intros c [].
    constructor; cbn; try done.
    + by apply endpoint_ok_canonical.
    + apply clear_of_Unmap. unfold clear_of. by rewrite <- Hp.
  - rewrite sort_slice_perm. by rewrite <- list_fmap_compose.
Qed.

Lemma policies_ok_canonical policies :
  policies_ok policies → policies_ok (sort_slice less_policy policies).
Proof.
  intros (H1 & H2 & H3). pose proof (sort_slice_perm less_policy policies) as Hp. split_and!.
  - by rewrite Hp.
  - by rewrite Hp.
  - eapply classes_ok_perm; [|exact H3]. by rewrite Hp.
Qed.

(** ** Forwards *)
Lemma path_fine_canonical s f : path_fine s f → path_fine (Canonical s) (canonicalForward f).
Proof.
  intros [(? & ? & Hv & ? & ?)|[? []]]; [left; cbn; by rewrite Hv|right]. split; [done|].
  constructor; try done.
  - destruct ve_vip0 as (vip & Hv & Hc & Hin). exists (Addr_Unmap vip). split; [cbn; by rewrite Hv|].
    rewrite concrete_v4_Unmap, Unmap_idemp, ranges_Canonical. done.
  - destruct ve_link0 as (l & Hin & ? & ?). exists (canonicalLink l). split; [|done].
    apply elem_of_sort_slice. by apply list_elem_of_fmap_2.
Qed.

Lemma snat_ok_canonical f : snat_ok (fw_SNAT f) = true → snat_ok (fw_SNAT (canonicalForward f)) = true.
Proof.
  unfold snat_ok. cbn. destruct (snat_Address (fw_SNAT f)); cbn; rewrite ?concrete_v4_Unmap; by repeat case_match.
Qed.

Lemma forward_fine_canonical s f :
  forward_fine s f → forward_fine (Canonical s) (canonicalForward f).
Proof.
  intros []. constructor; try done.
  - by apply endpoint_ok_canonical.
  - by apply endpoint_ok_canonical.
  - cbn -[sort_slice]. intros H%(f_equal length). rewrite length_sort_slice in H. by destruct (fw_Protocols f).
  - cbn -[sort_slice]. by rewrite sort_slice_perm.
  - by apply path_fine_canonical.
  - by apply snat_ok_canonical.
  - apply clear_of_Unmap. unfold clear_of. by rewrite ranges_Canonical.
  - apply clear_of_Unmap. unfold clear_of. by rewrite ranges_Canonical.
  - intros a Ha. cbn [canonicalForward fw_SNAT snat_Address] in Ha.
    destruct (snat_Address (fw_SNAT f)) as [b|]; [|done]. injection Ha as <-.
    apply clear_of_Unmap. unfold clear_of. rewrite ranges_Canonical. by apply ff_snat_clear0.
Qed.

Lemma listen_keys_canonical node f : listen_keys node (canonicalForward f) ≡ₚ listen_keys node f.
Proof.
  unfold listen_keys. cbn -[sort_slice]. rewrite sort_slice_perm. apply Permutation_refl', list_fmap_ext.
  intros i p _. unfold listen_key, forward_match. cbn. rewrite Unmap_idemp.
  destruct (fw_ServiceVIP f) as [vip|]; cbn; [|done]. by rewrite Unmap_idemp.
Qed.

Lemma claimed_vip_canonical f : claimed_vip (canonicalForward f) = claimed_vip f.
Proof. unfold claimed_vip. cbn. case_bool_decide; [apply fmap_Unmap_idemp|done]. Qed.

Lemma bind_canonical node l :
  (map canonicalForward l ≫= listen_keys node) ≡ₚ (l ≫= listen_keys node).
Proof.
  induction l as [|f l IH]; [done|]. cbn [map]. by rewrite !bind_cons, listen_keys_canonical, IH.
Qed.

Lemma omap_canonical l : omap claimed_vip (map canonicalForward l) = omap claimed_vip l.
Proof.
  induction l as [|f l IH]; [done|]. cbn -[claimed_vip canonicalForward].
  by rewrite claimed_vip_canonical, IH.
Qed.

Lemma forwards_ok_canonical s claims claims' l :
  claims ≡ₚ claims' → forwards_ok s claims l →
  forwards_ok (Canonical s) claims' (sort_slice less_forward (map canonicalForward l)).
Proof.
  intros Hc (H1 & H2 & H3 & H4 & H5). pose proof (sort_slice_perm less_forward (map canonicalForward l)) as Hp.
  split_and!.
  - rewrite Hp. apply Forall_map. eapply Forall_impl; [exact H1|]. apply forward_fine_canonical.
  - rewrite Hp. by rewrite <- list_fmap_compose.
  - cbn [ds_NodeID Canonical]. by rewrite Hp, bind_canonical.
  - by rewrite Hp, omap_canonical.
  - eapply classes_ok_perm; [|exact H5]. rewrite Hp, <- list_fmap_compose, Hc. done.
Qed.

Lemma accepted_Canonical s : accepted s → accepted (Canonical s).
Proof.
  intros []. pose proof (ranges_Canonical s) as Hr. constructor.
  - destruct ac_header0. constructor; cbn -[sort_slice]; rewrite ?length_sort_slice, ?length_map; done.
  - destruct ac_schema0. constructor; cbn -[sort_slice];
      rewrite ?length_sort_slice, ?length_map, ?canonicalProtocolBlocks_idemp; done.
  - cbn -[sort_slice]. rewrite sort_slice_perm. apply Forall_map. eapply Forall_impl; [done|].
    apply range_ok_canonical.
  - cbn -[sort_slice].
    eapply pairwise_perm; [|symmetry; apply sort_slice_perm|].
    { intros p q. unfold apart. by rewrite prefixesOverlap_sym. }
    apply pairwise_map; [|done]. intros p q Hp Hq. rewrite Forall_forall in ac_ranges0. unfold apart.
    intros Ha. by rewrite overlap_canonical_l, prefixesOverlap_sym, overlap_canonical_l, prefixesOverlap_sym by auto.
  - by eapply links_ok_canonical.
  - by eapply checks_ok_canonical.
  - by apply policies_ok_canonical.
  - eapply forwards_ok_canonical; [|done]. cbn -[sort_slice]. by rewrite sort_slice_perm.
Qed.

Lemma Valid_Canonical s : Valid s → Valid (Canonical s).
Proof. rewrite !Valid_accepted. apply accepted_Canonical. Qed.

(** C1. The validator is silent on exactly the states of the reference
    definition: independent conditions on the header and on every element, and
    relations between pairs of elements that do not depend on their order. *)
Theorem Validate_accepts_exactly s : Validate s = [] ↔ accepted s.
Proof. apply Valid_accepted. Qed.

(** C18. Canonicalising keeps acceptance, and the canonical form is a fixed
    point with the same checksum: what the Controller stores and the node
    receives is accepted again as it is. *)
Theorem Canonical_accepted s :
  Valid s →
  Valid (Canonical s) ∧ Canonical (Canonical s) = Canonical s ∧ Checksum (Canonical s) = Checksum s.
Proof.
  intros Hv. split; [by apply Valid_Canonical|]. split; [apply Canonical_idemp|]. apply Checksum_Canonical.
Qed.

Lemma Canonical_accepted_witness :
  sample_state_reordered ≠ Canonical sample_state_reordered ∧ Valid (Canonical sample_state_reordered).
Proof.
  split; [apply (bool_decide_unpack _); vm_compute; exact I|].
  apply (Canonical_accepted sample_state_reordered). vm_compute. reflexivity.
Defined.
