(* ===== verification/Hostname.v ===== *)
(** DNS names, [internal/spec/hostname.go]. The IDNA library
    (golang.org/x/net/idna) is not part of the program: [Idna] is what the code
    calls of it, [IdnaLaws] what it documents. *)
From S2P Require Import Prelude.
From S2P Require Import GoNet.
From S2P Require Import GoCrypto.

(** [idna.Lookup.ToASCII]; [None] is its error. *)
Class Idna := ToASCII : string → option string.

(** What the lookup profile documents: the result is ASCII, and it is itself a
    name that is looked up as it is, whatever the case of its letters. *)
Definition is_ascii (s : string) : bool :=
  forallb (λ c, Strings.Ascii.N_of_ascii c <? 128) (chars s).

(** * [strings.TrimSpace] *)

(** The UTF-8 encodings of Unicode's white space. *)
Definition spaces : list (list N) :=
  [[9]; [10]; [11]; [12]; [13]; [32]; [0xc2; 0x85]; [0xc2; 0xa0]; [0xe1; 0x9a; 0x80]]
  ++ ((λ b, [0xe2; 0x80; N.of_nat b]) <$> seq 0x80 11)
  ++ [[0xe2; 0x80; 0xa8]; [0xe2; 0x80; 0xa9]; [0xe2; 0x80; 0xaf]; [0xe2; 0x81; 0x9f];
      [0xe3; 0x80; 0x80]].

(** The rest of [l] after the first of [patterns] it starts with. *)
Definition skip_one (patterns : list (list N)) (l : list N) : option (list N) :=
  head (omap (λ p, if bool_decide (take (length p) l = p) then Some (drop (length p) l) else None)
          patterns).

Fixpoint skip_all (patterns : list (list N)) (fuel : nat) (l : list N) : list N :=
  match fuel with
  | O => l
  | S f => match skip_one patterns l with Some l' => skip_all patterns f l' | None => l end
  end.

Definition to_string (l : list N) : string := of_chars (Strings.Ascii.ascii_of_N <$> l).

Definition TrimSpace (s : string) : string :=
  let l := bytes_of s in
  let l := skip_all spaces (length l) l in
  to_string (rev (skip_all (@rev N <$> spaces) (length l) (rev l))).

(** [strings.TrimSuffix(s, suffix)] for a one-byte suffix. *)
Definition TrimSuffix (s : string) (suffix : ascii) : string :=
  match rev (chars s) with
  | c :: l => if bool_decide (c = suffix) then of_chars (rev l) else s
  | [] => s
  end.

(** [strings.ToLower] on ASCII bytes, the only ones it is applied to here. *)
Definition lower (c : ascii) : ascii :=
  if byte_in "A" "Z" c then Strings.Ascii.ascii_of_N (Strings.Ascii.N_of_ascii c + 32) else c.
Definition ToLower (s : string) : string := of_chars (lower <$> chars s).

(** [strings.Split(s, sep)] for a one-byte separator. *)
Fixpoint split_at (sep : ascii) (l acc : list ascii) : list (list ascii) :=
  match l with
  | [] => [rev acc]
  | c :: l' => if bool_decide (c = sep) then rev acc :: split_at sep l' [] else split_at sep l' (c :: acc)
  end.

(** * [NormalizeHostname] *)
Definition label_char (c : ascii) : bool :=
  byte_in "a" "z" c || byte_in "0" "9" c || bool_decide (c = "-"%char).

Definition check_label (label : list ascii) : option string :=
  if (length label =? 0)%nat || (63 <? length label)%nat
     || bool_decide (head label = Some "-"%char) || bool_decide (last label = Some "-"%char)
  then Some "hostname contains an invalid label"
  else if forallb label_char label then None
  else Some "hostname contains an invalid character".

Fixpoint check_labels (labels : list (list ascii)) : option string :=
  match labels with
  | [] => None
  | label :: rest => match check_label label with Some e => Some e | None => check_labels rest end
  end.

Definition NormalizeHostname `{!Idna} (value : string) : string + string :=
  let value := TrimSpace value in
  let value := TrimSuffix value "." in
  if bool_decide (value = "") then inl "hostname must not be empty"
  else match ToASCII value with
  | None => inl "hostname is invalid"
  | Some value =>
      let value := ToLower value in
      if (253 <? length (chars value))%nat then inl "hostname exceeds 253 characters"
      else match check_labels (split_at "." (chars value) []) with
           | Some e => inl e
           | None => inr value
           end
  end.

(** * What a normalised name is *)
Definition label_ok (label : list ascii) : Prop :=
  (1 ≤ length label ≤ 63)%nat ∧ head label ≠ Some "-"%char ∧ last label ≠ Some "-"%char
  ∧ forallb label_char label = true.

Definition hostname_ok (s : string) : Prop :=
  (length (chars s) ≤ 253)%nat ∧ Forall label_ok (split_at "." (chars s) []).

Class IdnaLaws (I : Idna) : Prop := {
  ToASCII_ascii x y : ToASCII x = Some y → is_ascii y = true;
  ToASCII_stable x y : ToASCII x = Some y → ToASCII (ToLower y) = Some (ToLower y);
}.

Lemma check_label_ok label : check_label label = None ↔ label_ok label.
Proof.
  unfold check_label, label_ok.
  destruct (_ || _) eqn:E.
  - split; [done|]. intros (H1 & H2 & H3 & _).
    rewrite !orb_true_iff, Nat.eqb_eq, Nat.ltb_lt, !bool_decide_eq_true in E.
    destruct E as [[[?|?]|?]|?]; [lia|lia|done|done].
  - rewrite !orb_false_iff, Nat.eqb_neq, Nat.ltb_ge, !bool_decide_eq_false in E.
    destruct (forallb _ _); split; try done; [|naive_solver]. intros _. split_and!; try tauto; lia.
Qed.

Lemma check_labels_ok labels : check_labels labels = None ↔ Forall label_ok labels.
Proof.
  induction labels as [|l ls IH]; cbn; [by split|]. rewrite Forall_cons, <-check_label_ok.
  destruct (check_label l); [naive_solver|]. rewrite IH. tauto.
Qed.

Lemma NormalizeHostname_ok `{!Idna} value h :
  NormalizeHostname value = inr h →
  hostname_ok h ∧ ∃ x y, ToASCII x = Some y ∧ h = ToLower y.
Proof.
  unfold NormalizeHostname. destruct (bool_decide _); [done|].
  destruct (ToASCII _) as [y|] eqn:E; [|done].
  destruct (253 <? _)%nat eqn:El; [done|]. destruct (check_labels _) eqn:Ec; [done|].
  intros [= <-]. split; [|eauto]. split; [by apply Nat.ltb_ge|by apply check_labels_ok].
Qed.

Lemma split_at_ok sep l acc :
  Forall label_ok (split_at sep l acc) →
  Forall (λ c, c = sep ∨ label_char c = true) l ∧ last l ≠ Some sep ∧ rev acc ++ l ≠ [].
Proof.
  revert acc. induction l as [|c l IH]; intros acc; cbn.
  - intros [(H & _) _]%Forall_cons. rewrite app_nil_r. split_and!; [constructor|done|].
    intros Hn. rewrite Hn in H. cbn in H. lia.
  - destruct (bool_decide (c = sep)) eqn:E; reflect_bool.
    + intros [_ (H1 & H2 & H3)%IH]%Forall_cons. split_and!; [constructor; auto| |].
      * destruct l as [|d l]; [done|]. by rewrite last_cons_cons.
      * intros Hn. by apply app_nil in Hn as [_ ?].
    + intros Hf. destruct (IH _ Hf) as (H1 & H2 & H3). split_and!.
      * constructor; [right|done]. clear -Hf E.
        assert (∀ acc, c ∈ acc → Forall label_ok (split_at sep l acc) → label_char c = true) as Hin.
        { clear. induction l as [|d l IH]; intros acc Hc; cbn.
          - intros [(_ & _ & _ & H) _]%Forall_cons. rewrite forallb_forall in H.
            apply H. apply in_rev. rewrite rev_involutive. by apply list_elem_of_In.
          - destruct (bool_decide _).
            + intros [(_ & _ & _ & H) _]%Forall_cons. rewrite forallb_forall in H.
              apply H. apply in_rev. rewrite rev_involutive. by apply list_elem_of_In.
            + apply IH. by right. }
        by apply (Hin (c :: acc)); [left|].
      * rewrite last_cons. destruct (last l) as [d|] eqn:El; [done|]. congruence.
      * intros Hn. by apply app_nil in Hn as [_ ?].
Qed.

Lemma lower_idemp c : lower (lower c) = lower c.
Proof.
  assert (forallb (λ n, bool_decide (lower (lower (Strings.Ascii.ascii_of_nat n))
                                     = lower (Strings.Ascii.ascii_of_nat n))) (seq 0 256) = true)
    as H by (vm_compute; reflexivity).
  rewrite forallb_forall in H. specialize (H (Strings.Ascii.nat_of_ascii c)).
  rewrite Strings.Ascii.ascii_nat_embedding in H. apply bool_decide_eq_true in H; [done|].
  apply in_seq. pose proof (Strings.Ascii.nat_ascii_bounded c). lia.
Qed.

Lemma ToLower_idemp s : ToLower (ToLower s) = ToLower s.
Proof.
  unfold ToLower at 1. unfold ToLower at 1. rewrite chars_of_chars, <- list_fmap_compose.
  unfold ToLower. f_equal. apply list_fmap_ext. intros _ c _. apply lower_idemp.
Qed.

Definition plain (c : ascii) : bool := label_char c || bool_decide (c = "."%char).

Lemma plain_not_space c :
  plain c = true →
  ∀ l, skip_one spaces (Strings.Ascii.N_of_ascii c :: l) = None
       ∧ skip_one (@rev N <$> spaces) (Strings.Ascii.N_of_ascii c :: l) = None.
Proof.
  intros Hc.
  assert (forallb (λ n, implb (plain (Strings.Ascii.ascii_of_nat n))
            (forallb (λ p, negb (bool_decide (head p = Some (Strings.Ascii.N_of_ascii (Strings.Ascii.ascii_of_nat n))))
               && negb (bool_decide (p = [])))
               (spaces ++ (@rev N <$> spaces)))) (seq 0 256) = true) as H
    by (vm_compute; reflexivity).
  rewrite forallb_forall in H. specialize (H (Strings.Ascii.nat_of_ascii c)).
  rewrite Strings.Ascii.ascii_nat_embedding, Hc in H. cbn [implb] in H.
  rewrite forallb_app in H.
  assert (∀ ps l, forallb (λ p, negb (bool_decide (head p = Some (Strings.Ascii.N_of_ascii c)))
               && negb (bool_decide (p = []))) ps = true →
            skip_one ps (Strings.Ascii.N_of_ascii c :: l) = None) as Hskip.
  { intros ps l. induction ps as [|p ps IH]; [done|]. cbn [forallb]. intros [Hp Hps]%andb_true_iff.
    unfold skip_one. cbn -[bool_decide take drop length].
    destruct p as [|a p]; [by rewrite andb_false_r in Hp|].
    rewrite bool_decide_eq_false_2; [by apply IH|].
    cbn [length take]. intros [= ? ?]. subst. rewrite andb_true_r in Hp. cbn [head] in Hp.
    apply negb_true_iff, bool_decide_eq_false in Hp. done. }
  apply andb_true_iff in H as [H1 H2].
  - intros l. split; by apply Hskip.
  - apply in_seq. pose proof (Strings.Ascii.nat_ascii_bounded c). lia.
Qed.

Lemma skip_all_plain ps fuel l :
  (∀ a k, l = a :: k → skip_one ps (a :: k) = None) → skip_one ps [] = None →
  skip_all ps fuel l = l.
Proof. intros H H0. destruct fuel, l as [|a k]; cbn; rewrite ?H0, ?H; done. Qed.

Lemma to_string_bytes s : to_string (bytes_of s) = s.
Proof.
  unfold to_string, bytes_of. rewrite <- list_fmap_compose.
  rewrite (list_fmap_ext _ id); [by rewrite list_fmap_id, of_chars_chars|].
  intros _ c _. apply Strings.Ascii.ascii_N_embedding.
Qed.

Lemma TrimSpace_plain s : forallb plain (chars s) = true → TrimSpace s = s.
Proof.
  intros Hp. rewrite forallb_forall in Hp. unfold TrimSpace.
  assert (∀ a, a ∈ bytes_of s → ∃ c, a = Strings.Ascii.N_of_ascii c ∧ plain c = true) as Hb.
  { intros a (c & -> & Hc)%list_elem_of_fmap. exists c. split; [done|].
    by apply Hp, list_elem_of_In. }
  assert (∀ a k, bytes_of s = a :: k → skip_one spaces (a :: k) = None) as H1.
  { intros a k Hl. destruct (Hb a) as (c & -> & Hc); [rewrite Hl; by left|].
    exact (proj1 (plain_not_space c Hc k)). }
  assert (∀ a k, rev (bytes_of s) = a :: k → skip_one (@rev N <$> spaces) (a :: k) = None) as H2.
  { intros a k Hl. destruct (Hb a) as (c & -> & Hc).
    - apply list_elem_of_In, in_rev. rewrite Hl. by left.
    - exact (proj2 (plain_not_space c Hc k)). }
  rewrite (skip_all_plain _ _ _ H1) by reflexivity.
  rewrite (skip_all_plain _ _ _ H2) by reflexivity.
  by rewrite rev_involutive, to_string_bytes.
Qed.

Lemma hostname_plain s :
  hostname_ok s → forallb plain (chars s) = true ∧ TrimSuffix s "." = s ∧ s ≠ "".
Proof.
  intros [_ Hf]. apply split_at_ok in Hf as (H1 & H2 & H3). split_and!.
  - apply forallb_forall. intros c Hc%list_elem_of_In. rewrite Forall_forall in H1.
    unfold plain. destruct (H1 c Hc) as [->| ->]; [by rewrite orb_true_r|done].
  - unfold TrimSuffix. destruct (rev (chars s)) as [|c l] eqn:E; [done|].
    rewrite bool_decide_eq_false_2; [done|]. intros ->. apply H2.
    apply (f_equal (@rev ascii)) in E. rewrite rev_involutive in E. rewrite E. cbn.
    apply last_snoc.
  - intros ->. done.
Qed.

(** Normalising is stable: a normalised name is its own normal form. *)
Lemma NormalizeHostname_stable `{!Idna} `{!IdnaLaws _} value h :
  NormalizeHostname value = inr h → NormalizeHostname h = inr h.
Proof.
  intros [Hok (x & y & Hxy & ->)]%NormalizeHostname_ok.
  destruct (hostname_plain _ Hok) as (Hp & Hs & Hne). unfold NormalizeHostname.
  rewrite TrimSpace_plain by done. rewrite Hs, bool_decide_eq_false_2 by done.
  rewrite (ToASCII_stable _ _ Hxy), ToLower_idemp. destruct Hok as [Hl Hf].
  rewrite (proj2 (Nat.ltb_ge _ _) Hl). by apply check_labels_ok in Hf as ->.
Qed.

(** An IDNA that knows ASCII names only: enough to run the model. *)
Definition ascii_idna : Idna := λ s, if is_ascii s then Some s else None.

Lemma lower_ascii c :
  Strings.Ascii.N_of_ascii c <? 128 = true → Strings.Ascii.N_of_ascii (lower c) <? 128 = true.
Proof.
  intros Hc. assert (forallb (λ n, implb (N.of_nat n <? 128)
      (Strings.Ascii.N_of_ascii (lower (Strings.Ascii.ascii_of_nat n)) <? 128)) (seq 0 256) = true)
    as H by (vm_compute; reflexivity).
  rewrite forallb_forall in H. specialize (H (Strings.Ascii.nat_of_ascii c)).
  rewrite Strings.Ascii.ascii_nat_embedding in H. unfold Strings.Ascii.nat_of_ascii in H.
  rewrite N2Nat.id, Hc in H. apply H, in_seq.
  pose proof (Strings.Ascii.N_ascii_bounded c). lia.
Qed.

#[export] Instance ascii_idna_laws : IdnaLaws ascii_idna.
Proof.
  split; intros x y; unfold ToASCII, ascii_idna; destruct (is_ascii x) eqn:E; try done;
    intros [= <-]; [done|].
  replace (is_ascii (ToLower x)) with true; [done|]. symmetry. unfold is_ascii in *.
  unfold ToLower. rewrite chars_of_chars. rewrite forallb_forall in E |- *.
  intros c (d & -> & Hd)%list_elem_of_In%list_elem_of_fmap.
  by apply lower_ascii, E, list_elem_of_In.
Qed.

Example NormalizeHostname_sample :
  @NormalizeHostname ascii_idna "  Edge-1.Example.COM. " = inr "edge-1.example.com"
  ∧ @NormalizeHostname ascii_idna "a..b" = inl "hostname contains an invalid label"
  ∧ @NormalizeHostname ascii_idna "a_b" = inl "hostname contains an invalid character".
Proof. vm_compute. done. Qed.

(** A normalised hostname has at most 253 bytes in labels of 1 to 63
    lower-case letters, digits and inner hyphens, and normalising it again
    changes nothing. *)
Theorem NormalizeHostname_normal `{!Idna} `{!IdnaLaws _} value h :
  NormalizeHostname value = inr h → hostname_ok h ∧ NormalizeHostname h = inr h.
Proof.
  intros Hn. split; [by eapply NormalizeHostname_ok|by eapply NormalizeHostname_stable].
Qed.

Lemma NormalizeHostname_normal_witness :
  @NormalizeHostname ascii_idna " Edge.Example. " = inr "edge.example"
  ∧ @NormalizeHostname ascii_idna "edge.example" = inr "edge.example".
Proof.
  assert (@NormalizeHostname ascii_idna " Edge.Example. " = inr "edge.example") as H
    by (vm_compute; reflexivity).
  split; [exact H|].
  exact (proj2 (@NormalizeHostname_normal ascii_idna ascii_idna_laws _ _ H)).
Defined.
