(* ===== verification/TargetDns.v ===== *)
(** The cache of target addresses, [internal/targetdns/resolver.go]: one stable
    IPv4 address per hostname, refreshed from DNS and kept across failures of
    it. The system resolver's answers are arguments of the model. *)
From S2P Require Import Prelude.
From S2P Require Import GoNet.

(** * One lookup *)

Definition usable (address : Addr) : bool :=
  Addr_IsValid address && Addr_Is4 address && negb (Addr_IsUnspecified address)
  && negb (Addr_IsMulticast address).

(** [LookupIPv4] on the resolver's answer; [None] is an error. *)
Definition LookupIPv4 (answer : option (list Addr)) : option Addr :=
  addresses ← answer;
  head (sort_slice Addr_Less (filter (λ a, usable a = true) (map Addr_Unmap addresses))).

(** * The cache *)
Record cacheEntry := MkCacheEntry { ce_address : Addr; ce_refreshAfter : Time }.
Abbreviation Cache := (gmap string cacheEntry).

Definition Minute : Z := 60 * Second.

(** The refresh interval of [NewCache]. *)
Definition effectiveRefresh (refresh : Z) : Z := if (refresh <=? 0)%Z then Minute else refresh.

(** The delay before the next attempt after a failure. *)
Definition retryAfter (refresh : Z) : Z :=
  let retry := (refresh ÷ 4)%Z in
  if (retry <=? 0)%Z || (15 * Second <? retry)%Z then (15 * Second)%Z else retry.

(** What [Resolve] returns: the address, and whether it is fresh. *)
Record answer := MkAnswer { an_address : Addr; an_ok : bool }.

(** The first critical section: an entry that is still fresh is the answer. *)
Definition cached (now : Time) (entry : option cacheEntry) : option Addr :=
  match entry with
  | Some e => if Time_Before now (ce_refreshAfter e) then Some (ce_address e) else None
  | None => None
  end.

(** The second one, on the entry seen by the first and the lookup's result. *)
Definition settled (refresh : Z) (now : Time) (fallback : Addr) (entry : option cacheEntry)
    (result : option Addr) : cacheEntry * answer :=
  match result with
  | Some address =>
      if Addr_IsValid address && Addr_Is4 (Addr_Unmap address) then
        let address := Addr_Unmap address in
        (MkCacheEntry address (Time_Add now refresh), MkAnswer address true)
      else
        let address := match entry with
                       | Some e => if Addr_IsValid (ce_address e) then ce_address e else Addr_Unmap fallback
                       | None => Addr_Unmap fallback
                       end in
        (MkCacheEntry address (Time_Add now (retryAfter refresh)), MkAnswer address false)
  | None =>
      let address := match entry with
                     | Some e => if Addr_IsValid (ce_address e) then ce_address e else Addr_Unmap fallback
                     | None => Addr_Unmap fallback
                     end in
      (MkCacheEntry address (Time_Add now (retryAfter refresh)), MkAnswer address false)
  end.

(** [Cache.Resolve]; [result] is what the lookup would answer. *)
Definition Resolve (refresh : Z) (now : Time) (hostname : string) (fallback : Addr)
    (result : option Addr) (entries : Cache) : Cache * answer :=
  let entry := entries !! hostname in
  match cached now entry with
  | Some address => (entries, MkAnswer address true)
  | None =>
      let '(e, a) := settled refresh now fallback entry result in (<[hostname := e]> entries, a)
  end.

(** * Lookups *)
Lemma LookupIPv4_usable answer a : LookupIPv4 answer = Some a → usable a = true ∧ Addr_Unmap a = a.
Proof.
  unfold LookupIPv4. destruct answer as [l|]; [|done]. cbn. intros H.
  assert (a ∈ sort_slice Addr_Less (filter (λ a, usable a = true) (map Addr_Unmap l))) as Hin.
  { destruct (sort_slice _ _) as [|x k]; [done|]. injection H as ->. left. }
  apply elem_of_sort_slice, list_elem_of_filter in Hin as [Hu Hin]. split; [done|].
  apply list_elem_of_fmap in Hin as (b & -> & _). apply Unmap_idemp.
Qed.

#[export] Instance Addr_Less_order : LessOrder Addr_Less.
Proof.
  assert (∀ s t : string, str_lt s t = true → str_lt t s = false) as Hasym.
  { intros s t. apply (less_asym (less := str_lt)). }
  split.
  - intros [|x|x z] [|y|y z']; cbn; try done; repeat case_match; try done;
      rewrite ?N.ltb_lt, ?N.ltb_ge in *; lia || auto.
  - intros [|x|x z] [|y|y z'] [|w|w z'']; cbn; try done; repeat case_match; try done;
      rewrite ?N.ltb_lt, ?N.ltb_ge in *; try lia.
    apply (less_ntrans (less := str_lt)).
Qed.

(** A lookup answers the least usable IPv4 address of the resolver's answer,
    whatever order the records come in. *)
Theorem LookupIPv4_stable l1 l2 :
  l1 ≡ₚ l2 → LookupIPv4 (Some l1) = LookupIPv4 (Some l2)
  ∧ ∀ a, LookupIPv4 (Some l1) = Some a →
      usable a = true ∧ (∃ b, b ∈ l1 ∧ a = Addr_Unmap b)
      ∧ ∀ b, b ∈ l1 → usable (Addr_Unmap b) = true → Addr_Less (Addr_Unmap b) a = false.
Proof.
  intros Hp. unfold LookupIPv4. cbn. split.
  - f_equal. apply (sort_slice_unique Addr_Less); [|by rewrite (Permutation_map Addr_Unmap Hp)].
    intros x y Hx%list_elem_of_filter Hy%list_elem_of_filter. destruct Hx as [Hx _], Hy as [Hy _].
    revert Hx Hy. unfold not_after, usable. destruct x as [|x|x ?], y as [|y|y ?]; cbn; try done.
    rewrite !N.ltb_ge. intros. f_equal. lia.
  - intros a Ha. destruct (sort_slice _ _) as [|x k] eqn:Hs; [done|]. injection Ha as ->.
    assert (a ∈ filter (λ a, usable a = true) (map Addr_Unmap l1)) as Hin.
    { rewrite <- (elem_of_sort_slice Addr_Less), Hs. left. }
    apply list_elem_of_filter in Hin as [Hu Hin]. split; [done|]. split.
    { apply list_elem_of_fmap in Hin as (b & -> & Hb). eauto. }
    intros b Hb Hub. eapply sort_slice_head_least; [apply _|exact Hs|].
    apply list_elem_of_filter. split; [done|]. by apply list_elem_of_fmap_2.
Qed.

Lemma LookupIPv4_stable_witness :
  LookupIPv4 (Some [Addr4 9; AddrZero; Addr4 7]) = Some (Addr4 7)
  ∧ LookupIPv4 (Some [Addr4 7; Addr4 9; AddrZero]) = Some (Addr4 7).
Proof.
  split; [reflexivity|].
  rewrite <- (proj1 (LookupIPv4_stable [Addr4 9; AddrZero; Addr4 7] [Addr4 7; Addr4 9; AddrZero]
    ltac:(by apply (bool_decide_unpack _); vm_compute))). reflexivity.
Defined.

(** * Histories of calls *)
Record dns_call := MkDnsCall {
  dc_now : Time;
  dc_hostname : string;
  dc_fallback : Addr;
  dc_result : option Addr;
}.

(** The answers of a sequence of calls, and the cache after them. *)
Fixpoint resolve_all (refresh : Z) (calls : list dns_call) (entries : Cache) : Cache * list answer :=
  match calls with
  | [] => (entries, [])
  | c :: rest =>
      let '(entries, a) := Resolve refresh (dc_now c) (dc_hostname c) (dc_fallback c) (dc_result c) entries in
      let '(entries, l) := resolve_all refresh rest entries in (entries, a :: l)
  end.

Definition good_result (result : option Addr) : option Addr :=
  match result with
  | Some a => if Addr_Is4 (Addr_Unmap a) then Some (Addr_Unmap a) else None
  | None => None
  end.

Lemma settled_spec refresh now fallback entry result :
  (∀ e, entry = Some e → Addr_IsValid (ce_address e) = true) →
  let '(e, a) := settled refresh now fallback entry result in
  ce_address e = an_address a
  ∧ match good_result result, entry with
    | Some address, _ => an_address a = address ∧ an_ok a = true ∧ ce_refreshAfter e = Time_Add now refresh
    | None, Some e0 => an_address a = ce_address e0 ∧ an_ok a = false
                       ∧ ce_refreshAfter e = Time_Add now (retryAfter refresh)
    | None, None => an_address a = Addr_Unmap fallback ∧ an_ok a = false
                    ∧ ce_refreshAfter e = Time_Add now (retryAfter refresh)
    end.
Proof.
  intros Hv. unfold settled, good_result.
  assert (∀ a, Addr_Is4 (Addr_Unmap a) = true → Addr_IsValid a = true) as H4 by (by intros [|b|b z]).
  destruct entry as [e0|]; [rewrite (Hv e0 eq_refl)|]; destruct result as [r|]; cbn; try done;
    destruct (Addr_Is4 (Addr_Unmap r)) eqn:Hr; rewrite ?(H4 r Hr), ?andb_true_r, ?andb_false_r; done.
Qed.

(** Every remembered address is an IPv4 address, given such fallbacks. *)
Definition remembers_v4 (entries : Cache) : Prop :=
  ∀ h e, entries !! h = Some e → Addr_Is4 (ce_address e) = true.

Lemma good_result_v4 r a : good_result r = Some a → Addr_Is4 a = true.
Proof. unfold good_result. repeat case_match; naive_solver. Qed.

Lemma Is4_valid a : Addr_Is4 a = true → Addr_IsValid a = true.
Proof. by destruct a. Qed.

(** The entry of a hostname after a call for it: the answer. *)
Lemma Resolve_entry refresh now h fallback result entries :
  remembers_v4 entries →
  let '(entries', a) := Resolve refresh now h fallback result entries in
  (∀ k, k ≠ h → entries' !! k = entries !! k)
  ∧ (∃ e, entries' !! h = Some e ∧ ce_address e = an_address a)
  ∧ match cached now (entries !! h), good_result result, entries !! h with
    | Some address, _, _ => an_address a = address ∧ an_ok a = true ∧ entries' = entries
    | None, Some address, _ => an_address a = address ∧ an_ok a = true
    | None, None, Some e => an_address a = ce_address e ∧ an_ok a = false
    | None, None, None => an_address a = Addr_Unmap fallback ∧ an_ok a = false
    end.
Proof.
  intros Hv. unfold Resolve. destruct (cached now (entries !! h)) as [address|] eqn:Hc.
  - unfold cached in Hc. destruct (entries !! h) as [e|] eqn:He; [|done]. case_match; [|done].
    injection Hc as <-. split_and!; try done. by exists e.
  - pose proof (settled_spec refresh now fallback (entries !! h) result) as Hs.
    destruct (settled _ _ _ _ _) as [e a]. destruct Hs as [He Hs].
    { intros e' He'. by eapply Is4_valid, Hv. }
    split_and!.
    + intros k Hk. by rewrite lookup_insert_ne.
    + exists e. by rewrite lookup_insert_eq.
    + destruct (good_result result), (entries !! h); naive_solver.
Qed.

(** The address in force after some calls, as a specification: the first call
    for the hostname that performs a lookup puts its result in force, or its
    fallback; a later call changes it only by a lookup that succeeds. *)
Definition in_force (before : option Addr) (entry : option cacheEntry) (c : dns_call) : Addr :=
  match cached (dc_now c) entry, good_result (dc_result c), before with
  | None, Some address, _ => address
  | _, _, Some address => address
  | _, _, None => Addr_Unmap (dc_fallback c)
  end.

Lemma remembers_v4_Resolve refresh now h fallback result entries :
  remembers_v4 entries → Addr_Is4 (Addr_Unmap fallback) = true →
  remembers_v4 (Resolve refresh now h fallback result entries).1.
Proof.
  intros Hv Hf. pose proof (Resolve_entry refresh now h fallback result entries Hv) as H.
  destruct (Resolve _ _ _ _ _ _) as [entries' a]. destruct H as (Hne & (e & He & Ha) & H).
  intros k e' Hk. destruct (decide (k = h)) as [->|Hkh].
  - cbn in Hk. rewrite He in Hk. injection Hk as <-. rewrite Ha.
    destruct (cached now (entries !! h)) eqn:Hc.
    + destruct H as [-> _]. unfold cached in Hc. destruct (entries !! h) eqn:Heh; [|done].
      case_match; [|done]. injection Hc as <-. by eapply Hv.
    + destruct (good_result result) eqn:Hg.
      * destruct H as [-> _]. by eapply good_result_v4.
      * destruct (entries !! h) eqn:Heh; destruct H as [-> _]; [by eapply Hv|done].
  - cbn in Hk. rewrite Hne in Hk by done. by eapply Hv.
Qed.

(** The specification over a history: per hostname, the address in force. *)
Fixpoint specified (refresh : Z) (calls : list dns_call) (entries : Cache)
    (force : gmap string Addr) : list Addr :=
  match calls with
  | [] => []
  | c :: rest =>
      let address := in_force (force !! dc_hostname c) (entries !! dc_hostname c) c in
      address :: specified refresh rest
        (Resolve refresh (dc_now c) (dc_hostname c) (dc_fallback c) (dc_result c) entries).1
        (<[dc_hostname c := address]> force)
  end.


Definition sample_calls : list dns_call :=
  [MkDnsCall 0%Z "a.example" (Addr4 1) None;
   MkDnsCall (20 * Second)%Z "a.example" (Addr4 1) (Some (Addr4 7));
   MkDnsCall (30 * Second)%Z "a.example" (Addr4 1) (Some (Addr4 9));
   MkDnsCall (90 * Second)%Z "a.example" (Addr4 1) None].

