(* ===== verification/Health.v ===== *)
(** The node-local health engine, [internal/health/engine.go].

    A run has two critical sections. [begin_run] selects the probes that are
    due and prunes the states of removed probes; [settle_run] folds the probe
    outcomes, in the order their goroutines finished, into the states and
    reports. Probing itself, between the two, is outside the lock: its outcomes
    are an arbitrary list whose checks are those selected. *)
From S2P Require Import Prelude.
From S2P Require Import GoNet.
From S2P Require Import SpecTypes.
From S2P Require Import SpecCanonical.
From S2P Require Import SpecValidate.
From S2P Require Import SpecFacts.
From S2P Require Import SpecTheorems.
From S2P Require Import SpecSamples.

Definition Status := string.
Definition StatusUnknown : Status := "unknown".
Definition StatusHealthy : Status := "healthy".
Definition StatusUnhealthy : Status := "unhealthy".

Record Report := {
  rp_NodeID : string;
  rp_Generation : N;
  rp_PoolID : string;
  rp_BackendID : string;
  rp_ResourceVersion : N;
  rp_Status : Status;
  rp_Latency : Z;
  rp_Error : string;
  rp_ObservedAt : Time;
}.

Definition probeKey : Type := string * string.

Record probeState := {
  ps_lastAttempt : Time;
  ps_status : Status;
  ps_consecutiveSuccess : N;
  ps_consecutiveFailure : N;
  ps_resourceVersion : N;
}.

(** The zero value with its version set: [probeState{resourceVersion: v}]. *)
Definition fresh_state (version : N) : probeState :=
  {| ps_lastAttempt := 0%Z; ps_status := ""; ps_consecutiveSuccess := 0;
     ps_consecutiveFailure := 0; ps_resourceVersion := version |}.

Definition key_of (check : HealthCheckSpec) : probeKey := (hc_PoolID check, hc_BackendID check).

(** [e.states[key]]: Go's zero value where the map has no entry. *)
Definition state_at (states : gmap probeKey probeState) (key : probeKey) : probeState :=
  default (fresh_state 0) (states !! key).

(** * Selecting the probes that are due *)
Definition is_due (now : Time) (state : probeState) (check : HealthCheckSpec) : bool :=
  Time_IsZero (ps_lastAttempt state)
  || negb (Time_Before now
             (Time_Add (ps_lastAttempt state) (Z.of_N (hc_IntervalSeconds check) * Second)%Z)).

Definition select_check (now : Time)
    (acc : gmap probeKey probeState * list HealthCheckSpec) (check : HealthCheckSpec) :
    gmap probeKey probeState * list HealthCheckSpec :=
  let '(states, due) := acc in
  let key := key_of check in
  let old := state_at states key in
  let '(state, states) :=
    if negb (ps_resourceVersion old =? hc_ResourceVersion check)
    then (fresh_state (hc_ResourceVersion check),
          <[key := fresh_state (hc_ResourceVersion check)]> states)
    else (old, states) in
  (states, if is_due now state check then due ++ [check] else due).

(** The first critical section of [RunDue]: the pruned states and the probes
    to execute. *)
Definition begin_run (states : gmap probeKey probeState) (desired : DesiredState) (now : Time) :
    gmap probeKey probeState * list HealthCheckSpec :=
  let '(states, due) := foldl (select_check now) (states, []) (ds_HealthChecks desired) in
  (filter (λ kv, kv.1 ∈ key_of <$> ds_HealthChecks desired) states, due).

(** * Settling the outcomes *)
Record outcome := {
  oc_check : HealthCheckSpec;
  oc_latency : Z;
  oc_err : option string;
}.

Definition truncate (value : string) (limit : nat) : string :=
  if (length (chars value) <=? limit)%nat then value
  else of_chars (take limit (chars value)).

(** The hysteresis step; the counters are 8 bits wide. *)
Definition observe (state : probeState) (check : HealthCheckSpec) (failed : bool) (now : Time) :
    probeState :=
  let '(status, successes, failures) :=
    if negb failed then
      let successes :=
        if ps_consecutiveSuccess state <? hc_SuccessThreshold check
        then uadd 8 (ps_consecutiveSuccess state) 1 else ps_consecutiveSuccess state in
      (if hc_SuccessThreshold check <=? successes then StatusHealthy else ps_status state,
       successes, 0)
    else
      let failures :=
        if ps_consecutiveFailure state <? hc_FailureThreshold check
        then uadd 8 (ps_consecutiveFailure state) 1 else ps_consecutiveFailure state in
      (if hc_FailureThreshold check <=? failures then StatusUnhealthy else ps_status state,
       0, failures) in
  {| ps_lastAttempt := now;
     ps_status := if bool_decide (status = "") then StatusUnknown else status;
     ps_consecutiveSuccess := successes;
     ps_consecutiveFailure := failures;
     ps_resourceVersion := hc_ResourceVersion check |}.

Definition report_of (desired : DesiredState) (now : Time) (result : outcome)
    (state : probeState) : Report :=
  {| rp_NodeID := ds_NodeID desired; rp_Generation := ds_Generation desired;
     rp_PoolID := hc_PoolID (oc_check result); rp_BackendID := hc_BackendID (oc_check result);
     rp_ResourceVersion := hc_ResourceVersion (oc_check result);
     rp_Status := ps_status state; rp_Latency := oc_latency result;
     rp_Error := match oc_err result with Some e => truncate e 512 | None => "" end;
     rp_ObservedAt := now |}.

Definition settle (desired : DesiredState) (now : Time)
    (acc : gmap probeKey probeState * list Report) (result : outcome) :
    gmap probeKey probeState * list Report :=
  let '(states, reports) := acc in
  let key := key_of (oc_check result) in
  let state := observe (state_at states key) (oc_check result)
                 (bool_decide (is_Some (oc_err result))) now in
  (<[key := state]> states, reports ++ [report_of desired now result state]).

Definition less_report : Report → Report → bool :=
  less_lex (less_by rp_PoolID) (less_by rp_BackendID).

(** The second critical section of [RunDue]. *)
Definition settle_run (desired : DesiredState) (now : Time)
    (states : gmap probeKey probeState) (results : list outcome) :
    gmap probeKey probeState * list Report :=
  let '(states, reports) := foldl (settle desired now) (states, []) results in
  (states, sort_slice less_report reports).

(** [Engine.RunDue]: [results] are the outcomes in completion order. *)
Inductive RunDue (states : gmap probeKey probeState) (desired : DesiredState) (now : Time) :
    gmap probeKey probeState → list Report → Prop :=
  | RunDue_intro begun due results states' reports :
      begin_run states desired now = (begun, due) →
      oc_check <$> results ≡ₚ due →
      settle_run desired now begun results = (states', reports) →
      RunDue states desired now states' reports.

#[export] Instance less_report_order : LessOrder less_report.
Proof. unfold less_report. apply _. Qed.

(** * What the two critical sections compute, probe by probe *)

(** The state a check is judged by: its own, or a fresh one for a new
    version. *)
Definition adopted (states : gmap probeKey probeState) (check : HealthCheckSpec) : probeState :=
  let old := state_at states (key_of check) in
  if negb (ps_resourceVersion old =? hc_ResourceVersion check)
  then fresh_state (hc_ResourceVersion check) else old.

Definition due_checks (states : gmap probeKey probeState) (now : Time)
    (checks : list HealthCheckSpec) : list HealthCheckSpec :=
  filter (λ c, is_due now (adopted states c) c = true) checks.

Lemma due_checks_snoc states now l c :
  due_checks states now (l ++ [c]) =
  if is_due now (adopted states c) c then due_checks states now l ++ [c]
  else due_checks states now l.
Proof.
  unfold due_checks. rewrite filter_app, filter_cons, filter_nil.
  destruct (is_due now (adopted states c) c) eqn:E; cbn; [done|].
  by rewrite app_nil_r.
Qed.

Lemma select_check_foldl now states checks begun due :
  NoDup (key_of <$> checks) →
  foldl (select_check now) (states, []) checks = (begun, due) →
  due = due_checks states now checks
  ∧ (∀ k, k ∉ key_of <$> checks → begun !! k = states !! k)
  ∧ (∀ c, c ∈ checks → state_at begun (key_of c) = adopted states c).
Proof.
  revert begun due. induction checks as [|c l IH] using rev_ind; intros begun due Hnd Hrun.
  { injection Hrun as <- <-. split_and!; [done..|]. by intros c ?%elem_of_nil. }
  rewrite fmap_app in Hnd. apply NoDup_app in Hnd as (Hnd & Hnew & _).
  rewrite foldl_app in Hrun.
  destruct (foldl (select_check now) (states, []) l) as [st d] eqn:E.
  destruct (IH _ _ Hnd eq_refl) as (-> & Hout & Hin). clear IH.
  assert (key_of c ∉ key_of <$> l) as Hc.
  { intros H. apply (Hnew _ H). by apply list_elem_of_singleton. }
  assert (state_at st (key_of c) = state_at states (key_of c)) as Hold.
  { unfold state_at. by rewrite Hout. }
  assert (∀ v k, k ≠ key_of c → <[key_of c := v]> st !! k = st !! k) as Hne.
  { intros v k Hk. by apply lookup_insert_ne. }
  cbn in Hrun. rewrite Hold in Hrun. rewrite due_checks_snoc. unfold adopted at 1.
  assert (∀ c', c' ∈ l → key_of c' ≠ key_of c) as Hl.
  { intros c' Hc' Heq. apply Hc. rewrite <- Heq. by apply list_elem_of_fmap_2. }
  destruct (negb (ps_resourceVersion (state_at states (key_of c)) =? hc_ResourceVersion c)) eqn:Ev;
    injection Hrun as <- <-.
  - split_and!.
    + done.
    + intros k Hk. rewrite fmap_app in Hk. apply not_elem_of_app in Hk as [H1 H2].
      rewrite Hne; [by apply Hout|]. intros ->. apply H2. by apply list_elem_of_singleton.
    + intros c' [Hc'| ->%list_elem_of_singleton]%elem_of_app.
      * rewrite <- (Hin c' Hc'). unfold state_at. by rewrite Hne by auto.
      * unfold state_at at 1. rewrite lookup_insert_eq. unfold adopted. by rewrite Ev.
  - split_and!.
    + done.
    + intros k Hk. rewrite fmap_app in Hk. apply not_elem_of_app in Hk as [H1 H2].
      by apply Hout.
    + intros c' [Hc'| ->%list_elem_of_singleton]%elem_of_app; [by apply Hin|].
      rewrite Hold. unfold adopted. by rewrite Ev.
Qed.

Definition result_key (r : outcome) : probeKey := key_of (oc_check r).

Definition settled (now : Time) (states : gmap probeKey probeState) (r : outcome) : probeState :=
  observe (state_at states (result_key r)) (oc_check r)
    (bool_decide (is_Some (oc_err r))) now.

Lemma settle_foldl desired now states results states' reports :
  NoDup (result_key <$> results) →
  foldl (settle desired now) (states, []) results = (states', reports) →
  reports = map (λ r, report_of desired now r (settled now states r)) results
  ∧ (∀ k, k ∉ result_key <$> results → states' !! k = states !! k)
  ∧ (∀ r, r ∈ results → states' !! result_key r = Some (settled now states r)).
Proof.
  revert states' reports. induction results as [|r l IH] using rev_ind; intros states' reports Hnd Hrun.
  { injection Hrun as <- <-. split_and!; [done..|]. by intros c ?%elem_of_nil. }
  rewrite fmap_app in Hnd. apply NoDup_app in Hnd as (Hnd & Hnew & _).
  rewrite foldl_app in Hrun.
  destruct (foldl (settle desired now) (states, []) l) as [st reps] eqn:E.
  destruct (IH _ _ Hnd eq_refl) as (-> & Hout & Hin). clear IH.
  assert (result_key r ∉ result_key <$> l) as Hr.
  { intros H. apply (Hnew _ H). by apply list_elem_of_singleton. }
  assert (state_at st (result_key r) = state_at states (result_key r)) as Hold.
  { unfold state_at. by rewrite Hout. }
  cbn in Hrun. fold (result_key r) in Hrun. rewrite Hold in Hrun.
  injection Hrun as <- <-. split_and!.
  - by rewrite map_app.
  - intros k Hk. rewrite fmap_app in Hk. apply not_elem_of_app in Hk as [H1 H2].
    rewrite lookup_insert_ne; [by apply Hout|].
    intros <-. apply H2. by apply list_elem_of_singleton.
  - intros r' [Hr'| ->%list_elem_of_singleton]%elem_of_app.
    + rewrite lookup_insert_ne; [by apply Hin|].
      intros Heq. apply Hr. rewrite Heq. by apply list_elem_of_fmap_2.
    + by rewrite lookup_insert_eq.
Qed.

(** Distinct probes settle to the same states and the same reports in every
    completion order. *)
Lemma settle_run_perm desired now states results1 results2 :
  NoDup (result_key <$> results1) → results1 ≡ₚ results2 →
  settle_run desired now states results1 = settle_run desired now states results2.
Proof.
  intros Hnd1 Hp. assert (NoDup (result_key <$> results2)) as Hnd2 by by rewrite <- Hp.
  unfold settle_run.
  destruct (foldl _ _ results1) as [s1 r1] eqn:E1, (foldl _ _ results2) as [s2 r2] eqn:E2.
  apply settle_foldl in E1 as (-> & Hout1 & Hin1); [|done].
  apply settle_foldl in E2 as (-> & Hout2 & Hin2); [|done].
  f_equal.
  - apply map_eq. intros k. destruct (decide (k ∈ result_key <$> results1)) as [Hk|Hk].
    + apply list_elem_of_fmap in Hk as (r & -> & Hr).
      rewrite Hin1 by done. rewrite Hin2; [done|]. by rewrite <- Hp.
    + rewrite Hout1 by done. rewrite Hout2; [done|]. by rewrite <- Hp.
  - apply (sort_slice_keyed less_report (λ r, (rp_PoolID r, rp_BackendID r))).
    + apply less_lex_by_antisym.
    + unfold fmap in *.
      rewrite map_map. exact Hnd1.
    + by apply Permutation_map.
Qed.

Lemma begin_run_spec states desired now begun due :
  Valid desired → begin_run states desired now = (begun, due) →
  due = due_checks states now (ds_HealthChecks desired)
  ∧ (∀ k, k ∉ key_of <$> ds_HealthChecks desired → begun !! k = None)
  ∧ (∀ c, c ∈ ds_HealthChecks desired → state_at begun (key_of c) = adopted states c).
Proof.
  intros [Hnd _]%Valid_checks. unfold begin_run.
  destruct (foldl _ _ _) as [st d] eqn:E. intros [= <- <-].
  apply select_check_foldl in E as (-> & Hout & Hin); [|done].
  split_and!; [done| |].
  - intros k Hk. apply map_lookup_filter_None. by right.
  - intros c Hc. rewrite <- (Hin c Hc). unfold state_at. f_equal.
    destruct (st !! key_of c) as [x|] eqn:Ex.
    + apply map_lookup_filter_Some. split; [done|]. by apply (list_elem_of_fmap_2 key_of).
    + apply map_lookup_filter_None. by left.
Qed.

Lemma due_keys_NoDup states now checks results :
  NoDup (key_of <$> checks) → oc_check <$> results ≡ₚ due_checks states now checks →
  NoDup (result_key <$> results).
Proof.
  intros Hnd Hp. change (NoDup ((key_of ∘ oc_check) <$> results)).
  rewrite list_fmap_compose, Hp.
  eapply sublist_NoDup; [exact Hnd|]. apply fmap_sublist, sublist_filter.
Qed.

(** Concurrency does not show: for an accepted state, the states kept and
    the reports sent are the same whatever order the probe goroutines finish
    in. *)
Theorem settle_run_order_irrelevant states desired now begun due results1 results2 :
  Valid desired →
  begin_run states desired now = (begun, due) →
  oc_check <$> results1 ≡ₚ due →
  results1 ≡ₚ results2 →
  settle_run desired now begun results1 = settle_run desired now begun results2.
Proof.
  intros HV Hb H1 H2. apply settle_run_perm; [|done].
  pose proof (Valid_checks _ HV) as [Hnd _].
  apply begin_run_spec in Hb as (-> & _); [|done]. by eapply due_keys_NoDup.
Qed.

Lemma report_keys desired now states results :
  (λ r, (rp_PoolID r, rp_BackendID r)) <$>
    map (λ r, report_of desired now r (settled now states r)) results
  = result_key <$> results.
Proof. exact (map_map _ (λ r, (rp_PoolID r, rp_BackendID r)) results). Qed.

Lemma adopted_version states c : ps_resourceVersion (adopted states c) = hc_ResourceVersion c.
Proof. unfold adopted. destruct (_ =? _) eqn:E; cbn; [|done]. by apply N.eqb_eq. Qed.

Lemma state_at_some states k v :
  ps_resourceVersion (state_at states k) = v → v ≠ 0 →
  states !! k = Some (state_at states k).
Proof. unfold state_at. destruct (states !! k); cbn; [done|]. by intros <-. Qed.

Lemma elem_of_due states now checks c :
  c ∈ due_checks states now checks ↔ is_due now (adopted states c) c = true ∧ c ∈ checks.
Proof. unfold due_checks. by rewrite list_elem_of_filter. Qed.

(** C23. One run of the engine on an accepted state: afterwards exactly the
    configured probes have a state, each under its current version; a probe is
    executed, stamped and reported exactly when it was never attempted under
    this version or its interval has elapsed, and no other state changes; and a
    probe just executed is not due again before its interval has passed. *)
Theorem RunDue_spec states desired now states' reports :
  Valid desired →
  RunDue states desired now states' reports →
  dom states' = list_to_set (key_of <$> ds_HealthChecks desired)
  ∧ (λ r, (rp_PoolID r, rp_BackendID r)) <$> reports
      ≡ₚ key_of <$> due_checks states now (ds_HealthChecks desired)
  ∧ ∀ c, c ∈ ds_HealthChecks desired → ∃ st,
      states' !! key_of c = Some st ∧ ps_resourceVersion st = hc_ResourceVersion c
      ∧ if is_due now (adopted states c) c
        then ps_lastAttempt st = now
             ∧ (now ≠ 0%Z → ∀ later,
                  (later < now + Z.of_N (hc_IntervalSeconds c) * Second)%Z →
                  is_due later (adopted states' c) c = false)
        else st = adopted states c.
Proof.
  intros HV [begun due results states'' reports' Hb Hp Hs].
  pose proof (Valid_checks _ HV) as [Hnd Hok].
  pose proof (begin_run_spec _ _ _ _ _ HV Hb) as (-> & Hout & Hin).
  assert (NoDup (result_key <$> results)) as Hnd' by by eapply due_keys_NoDup.
  unfold settle_run in Hs. destruct (foldl _ _ results) as [s r] eqn:E.
  injection Hs as <- <-. apply settle_foldl in E as (-> & Hout' & Hin'); [|done].
  assert (∀ c, c ∈ due_checks states now (ds_HealthChecks desired) →
            ∃ r, r ∈ results ∧ oc_check r = c) as Hres.
  { intros c Hc. rewrite <- Hp in Hc. apply list_elem_of_fmap in Hc as (r & -> & ?). eauto. }
  assert (result_key <$> results ≡ₚ key_of <$> due_checks states now (ds_HealthChecks desired))
    as Hkeys.
  { rewrite <- Hp, <- list_fmap_compose. done. }
  assert (∀ c, c ∈ ds_HealthChecks desired → ∃ st,
      s !! key_of c = Some st ∧ ps_resourceVersion st = hc_ResourceVersion c
      ∧ if is_due now (adopted states c) c then ps_lastAttempt st = now
        else st = adopted states c) as Hentry.
  { intros c Hc. destruct (is_due now (adopted states c) c) eqn:Ed.
    - destruct (Hres c) as (r & Hr & <-); [by apply elem_of_due|].
      eexists. split; [by apply Hin'|]. unfold settled, observe.
      by destruct (negb _); destruct (_ <? _).
    - exists (adopted states c). split_and!; [|apply adopted_version|done].
      rewrite Hout'.
      + rewrite <- (Hin c Hc). apply (state_at_some _ _ (hc_ResourceVersion c)).
        * rewrite (Hin c Hc). apply adopted_version.
        * rewrite Forall_forall in Hok. apply (co_version _ (Hok c Hc)).
      + rewrite Hkeys. intros (c' & Hk & Hc')%list_elem_of_fmap.
        apply elem_of_due in Hc' as [Hd Hc'].
        rewrite (NoDup_key_inj key_of _ _ _ Hnd Hc Hc' Hk) in Ed. congruence. }
  split_and!.
  - apply set_eq. intros k. rewrite elem_of_dom, elem_of_list_to_set. split.
    + intros [st Hst]. apply dec_stable. intros Hk.
      rewrite Hout', Hout in Hst; [done..|]. rewrite Hkeys.
      intros (c & -> & [_ Hc]%elem_of_due)%list_elem_of_fmap. apply Hk.
      by apply list_elem_of_fmap_2.
    + intros (c & -> & Hc)%list_elem_of_fmap. destruct (Hentry c Hc) as (st & -> & _). eauto.
  - rewrite sort_slice_perm, report_keys. exact Hkeys.
  - intros c Hc. destruct (Hentry c Hc) as (st & Hst & Hv & Hd). exists st.
    split_and!; [done..|]. destruct (is_due now (adopted states c) c); [|done].
    split; [done|]. intros Hnow later Hlater.
    unfold adopted, state_at. rewrite Hst. cbn. rewrite Hv, N.eqb_refl. cbn.
    unfold is_due, Time_IsZero, Time_Before, Time_Add. rewrite Hd.
    apply orb_false_iff. split; [by apply Z.eqb_neq|].
    apply negb_false_iff. by apply Z.ltb_lt.
Qed.

(** * Hysteresis *)

(** Length of the run of [b] at the head of a history, newest outcome first. *)
Fixpoint streak (b : bool) (history : list bool) : N :=
  match history with
  | x :: older => if Bool.eqb x b then 1 + streak b older else 0
  | [] => 0
  end.

(** What the status should be, in terms of the whole history: the verdict of
    the most recent moment at which a run of one kind had reached its
    threshold. [true] is a failed probe. *)
Fixpoint verdict (check : HealthCheckSpec) (history : list bool) : Status :=
  match history with
  | [] => StatusUnknown
  | _ :: older =>
      if hc_SuccessThreshold check <=? streak false history then StatusHealthy
      else if hc_FailureThreshold check <=? streak true history then StatusUnhealthy
      else verdict check older
  end.

(** The state after a history of attempts [(time, failed)], newest first. *)
Definition probe_history (check : HealthCheckSpec) (attempts : list (Time * bool)) : probeState :=
  foldr (λ a st, observe st check a.2 a.1) (fresh_state (hc_ResourceVersion check)) attempts.

Lemma uadd8_threshold n t :
  t ≤ 10 → (if N.min t n <? t then uadd 8 (N.min t n) 1 else N.min t n) = N.min t (1 + n).
Proof.
  intros Ht. destruct (N.min t n <? t) eqn:E.
  - apply N.ltb_lt in E. rewrite uadd_small; lia.
  - apply N.ltb_ge in E. lia.
Qed.

Lemma threshold_min t n : (t <=? N.min t n) = (t <=? n).
Proof. destruct (t <=? n) eqn:E; [apply N.leb_le in E; apply N.leb_le|apply N.leb_gt in E; apply N.leb_gt]; lia. Qed.

(** The status kept: empty before the first attempt. *)
Definition kept_status (check : HealthCheckSpec) (history : list bool) : Status :=
  if bool_decide (history = []) then "" else verdict check history.

Lemma verdict_not_empty check history : verdict check history ≠ "".
Proof. induction history; cbn; [done|]. by repeat destruct (_ <=? _). Qed.

Lemma kept_status_shown check history :
  (if bool_decide (kept_status check history = "") then StatusUnknown
   else kept_status check history) = verdict check history.
Proof.
  unfold kept_status. destruct history as [|b older]; [done|].
  change (bool_decide (b :: older = [])) with false. cbv iota.
  rewrite bool_decide_eq_false_2; [done|apply verdict_not_empty].
Qed.

Lemma probe_history_counters check attempts :
  check_ok check →
  let st := probe_history check attempts in
  let h := map snd attempts in
  ps_consecutiveSuccess st = N.min (hc_SuccessThreshold check) (streak false h)
  ∧ ps_consecutiveFailure st = N.min (hc_FailureThreshold check) (streak true h)
  ∧ ps_status st = kept_status check h.
Proof.
  intros Hok. pose proof (co_failure _ Hok). pose proof (co_success _ Hok).
  induction attempts as [|[t failed] l (IH1 & IH2 & IH3)]; cbn -[N.min N.add N.leb N.ltb].
  { split_and!; [lia..|done]. }
  fold (probe_history check l). unfold observe. rewrite IH1, IH2, IH3.
  rewrite !uadd8_threshold by lia.
  pose proof (kept_status_shown check (map snd l)) as Hprev.
  destruct failed; cbn -[N.min N.add N.leb N.ltb].
  - rewrite threshold_min. split_and!; [lia|done|].
    replace (hc_SuccessThreshold check <=? 0) with false by (symmetry; apply N.leb_gt; lia).
    unfold kept_status at 3. cbn -[N.leb N.add].
    by destruct (_ <=? _).
  - rewrite threshold_min. split_and!; [done|lia|].
    destruct (_ <=? _); [done|].
    replace (hc_FailureThreshold check <=? 0) with false by (symmetry; apply N.leb_gt; lia).
    done.
Qed.

(** C22. Hysteresis: under an accepted check, whatever the sequence of probe
    outcomes since its version was adopted, the status kept is the verdict of
    the most recent run of successes or failures that reached its threshold,
    and "unknown" before the first such run; the 8-bit counters do not wrap. *)
Theorem hysteresis_verdict check attempts :
  check_ok check → attempts ≠ [] →
  ps_status (probe_history check attempts) = verdict check (map snd attempts)
  ∧ ps_consecutiveSuccess (probe_history check attempts) ≤ hc_SuccessThreshold check
  ∧ ps_consecutiveFailure (probe_history check attempts) ≤ hc_FailureThreshold check.
Proof.
  intros Hok Hne. destruct (probe_history_counters check attempts Hok) as (H1 & H2 & H3).
  rewrite H1, H2, H3. destruct attempts; [done|]. split_and!; [done|lia..].
Qed.

(** * Concrete runs *)
Definition second_check : HealthCheckSpec :=
  {| hc_PoolID := "pool"; hc_BackendID := "a0"; hc_Endpoint := endpoint (ip 198 51 100 21) 80;
     hc_Protocol := ProtocolTCP; hc_IntervalSeconds := 5; hc_TimeoutMilliseconds := 1000;
     hc_FailureThreshold := 1; hc_SuccessThreshold := 1; hc_ResourceVersion := 4 |}.

Definition probed_state : DesiredState :=
  {| ds_SchemaVersion := CurrentSchemaVersion; ds_NodeID := "node-a"; ds_Generation := 5;
     ds_ManagementDomain := ""; ds_ServiceCIDRs := []; ds_FabricLinks := [];
     ds_HealthChecks := [sample_check; second_check]; ds_UserPolicies := [];
     ds_ProtocolBlocks := None; ds_Forwards := [] |}.

Definition answers : list outcome :=
  [{| oc_check := sample_check; oc_latency := 7; oc_err := None |};
   {| oc_check := second_check; oc_latency := 9; oc_err := Some "refused" |}].

Lemma settle_run_order_irrelevant_witness :
  (map rp_BackendID (settle_run probed_state 100%Z
     (begin_run ∅ probed_state 100%Z).1 answers).2 = ["a0"; "b1"])
  ∧ settle_run probed_state 100%Z (begin_run ∅ probed_state 100%Z).1 answers
    = settle_run probed_state 100%Z (begin_run ∅ probed_state 100%Z).1 (rev answers).
Proof.
  split; [vm_compute; reflexivity|].
  apply (settle_run_order_irrelevant ∅ _ _ _ [sample_check; second_check]).
  - vm_compute. reflexivity.
  - reflexivity.
  - vm_compute. reflexivity.
  - apply Permutation_swap.
Defined.

Lemma RunDue_spec_witness :
  let after := settle_run probed_state 100%Z (begin_run ∅ probed_state 100%Z).1 answers in
  dom after.1 = list_to_set (key_of <$> ds_HealthChecks probed_state)
  ∧ length after.2 = 2%nat.
Proof.
  split; [|vm_compute; reflexivity].
  refine (proj1 (RunDue_spec ∅ probed_state 100%Z _ _ _ (RunDue_intro _ _ _ _ _ answers _ _ _ _ _))).
  - vm_compute. reflexivity.
  - apply surjective_pairing.
  - vm_compute. reflexivity.
  - apply surjective_pairing.
Defined.

Lemma hysteresis_verdict_witness :
  let h := [(40%Z, true); (30%Z, true); (20%Z, false); (10%Z, false)] in
  verdict sample_check (map snd h) = StatusHealthy
  ∧ ps_status (probe_history sample_check h) = verdict sample_check (map snd h).
Proof.
  split; [vm_compute; reflexivity|].
  apply hysteresis_verdict; [|done].
  pose proof (Valid_checks sample_state) as H. destruct H as [_ H]; [vm_compute; reflexivity|].
  exact (Forall_inv H).
Defined.
