(* ===== verification/Meter.v ===== *)
(** The usage meter, [internal/meter/tracker.go]: absolute kernel counters in,
    deltas and sequence numbers out; and the wire form of a usage batch,
    [internal/usage/types.go]. *)
From S2P Require Import Prelude.
From S2P Require Import GoNet.
From S2P Require Import SpecTypes.
From S2P Require Import SpecValidate.
From S2P Require Import SpecFacts.

Record Sample := MkSample { sm_Name : string; sm_Packets : N; sm_Bytes : N }.
Record Value := MkValue { vl_Packets : N; vl_Bytes : N }.
Record State := MkState { mt_Epoch : string; mt_Sequence : N; mt_Values : gmap string Value }.
Record Delta := MkDelta { dl_Name : string; dl_Packets : N; dl_Bytes : N; dl_Reset : bool }.
Record Batch := MkBatch { bt_Epoch : string; bt_Sequence : N; bt_Deltas : list Delta }.

(** [NewTracker]: the tracker's state, or the error. *)
Definition NewTracker (state : State) : string + State :=
  if (0 <? mt_Sequence state) && bool_decide (mt_Epoch state = "")
  then inl "meter state with a sequence must have an epoch"
  else inr state.

(** The loop that collects the samples of an observation. *)
Fixpoint collect (samples : list Sample) (current : gmap string Value) :
    string + gmap string Value :=
  match samples with
  | [] => inr current
  | sample :: rest =>
      if bool_decide (sm_Name sample = "") then inl "counter name must not be empty"
      else match current !! sm_Name sample with
           | Some _ => inl ("duplicate counter sample " +:+ sm_Name sample)
           | None =>
               collect rest
                 (<[sm_Name sample := MkValue (sm_Packets sample) (sm_Bytes sample)]> current)
           end
  end.

(** One counter of an observation against its previous value; counters are
    64 bits wide. *)
Definition delta_of (epochChanged : bool) (name : string) (value : Value)
    (previous : option Value) : Delta :=
  let reset :=
    epochChanged
    || match previous with
       | None => true
       | Some p => (vl_Packets value <? vl_Packets p) || (vl_Bytes value <? vl_Bytes p)
       end in
  let p := default (MkValue 0 0) previous in
  if reset then MkDelta name (vl_Packets value) (vl_Bytes value) true
  else MkDelta name (usub 64 (vl_Packets value) (vl_Packets p))
                    (usub 64 (vl_Bytes value) (vl_Bytes p)) false.

Definition delta_counts (delta : Delta) : bool :=
  negb (dl_Packets delta =? 0) || negb (dl_Bytes delta =? 0).

(** The deltas of an observation, by counter name. *)
Definition deltas_of (state : State) (epoch : string) (current : gmap string Value) : list Delta :=
  let epochChanged := negb (bool_decide (mt_Epoch state = epoch)) in
  map (λ name, delta_of epochChanged name (default (MkValue 0 0) (current !! name))
                 (mt_Values state !! name))
      (sort_slice str_lt (map_to_list current).*1).

(** [Tracker.Observe]: the new state and the batch, or the error, which leaves
    the state as it was. *)
Definition Observe (state : State) (epoch : string) (samples : list Sample) :
    string + (State * Batch) :=
  if bool_decide (epoch = "") then inl "counter epoch must not be empty"
  else match collect samples ∅ with
  | inl e => inl e
  | inr current =>
      let deltas := deltas_of state epoch current in
      if negb (existsb delta_counts deltas)
      then inr (MkState epoch (mt_Sequence state) current, MkBatch epoch 0 deltas)
      else
        let sequence := uadd 64 (mt_Sequence state) 1 in
        inr (MkState epoch sequence current, MkBatch epoch sequence deltas)
  end.

(** * Usage batches *)
Module Usage.

Record Delta := {
  ud_ForwardID : string;
  ud_Protocol : Protocol;
  ud_Direction : TrafficDirection;
  ud_ResourceVersion : N;
  ud_Packets : N;
  ud_Bytes : N;
  ud_Reset : bool;
}.

Record Batch := {
  ub_NodeID : string;
  ub_Epoch : string;
  ub_Sequence : N;
  ub_Generation : N;
  ub_ObservedAt : Time;
  ub_Deltas : list Delta;
}.

Definition validChecksum (value : string) : bool :=
  (length (chars value) =? 64)%nat
  && forallb (λ c, byte_in "0" "9" c || byte_in "a" "f" c) (chars value).

Definition usage_key (delta : Delta) : string :=
  ud_ForwardID delta +:+ "/" +:+ ud_Protocol delta +:+ "/" +:+ ud_Direction delta
  +:+ "/" +:+ show (ud_ResourceVersion delta).

Fixpoint validate_deltas (i : nat) (deltas : list Delta) (seen : gset string) : option string :=
  match deltas with
  | [] => None
  | delta :: rest =>
      match ValidateIdentifier "usage.forward_id" (ud_ForwardID delta) with
      | Some e => Some e
      | None =>
          if negb (bool_decide (ud_Protocol delta = ProtocolTCP))
             && negb (bool_decide (ud_Protocol delta = ProtocolUDP))
          then Some ("usage delta " +:+ show_nat i +:+ " protocol is invalid")
          else if negb (bool_decide (ud_Direction delta = DirectionUpload))
                  && negb (bool_decide (ud_Direction delta = DirectionDownload))
          then Some ("usage delta " +:+ show_nat i +:+ " direction is invalid")
          else if ud_ResourceVersion delta =? 0
          then Some ("usage delta " +:+ show_nat i +:+ " resource_version is invalid")
          else if bool_decide (usage_key delta ∈ seen)
          then Some ("usage delta " +:+ show_nat i +:+ " is duplicated")
          else validate_deltas (S i) rest ({[usage_key delta]} ∪ seen)
      end
  end.

(** [Batch.Validate] *)
Definition Validate (b : Batch) : option string :=
  match ValidateIdentifier "usage.node_id" (ub_NodeID b) with
  | Some e => Some e
  | None =>
      if negb (validChecksum (ub_Epoch b)) || (ub_Sequence b =? 0) || (ub_Generation b =? 0)
         || Time_IsZero (ub_ObservedAt b)
      then Some "usage batch epoch, sequence, generation, or observed_at is invalid"
      else validate_deltas 0 (ub_Deltas b) ∅
  end.

End Usage.

(** * Collecting samples *)
Definition sample_value (s : Sample) : Value := MkValue (sm_Packets s) (sm_Bytes s).

Lemma collect_spec samples current0 current :
  collect samples current0 = inr current →
  (∀ s, s ∈ samples → current !! sm_Name s = Some (sample_value s))
  ∧ (∀ k, k ∉ sm_Name <$> samples → current !! k = current0 !! k)
  ∧ NoDup (sm_Name <$> samples) ∧ "" ∉ sm_Name <$> samples
  ∧ (∀ s, s ∈ samples → current0 !! sm_Name s = None).
Proof.
  revert current0. induction samples as [|s l IH]; intros c0; cbn.
  { intros [= ->]. split_and!; try set_solver. constructor. }
  destruct (bool_decide _) eqn:E; [done|]. reflect_bool.
  destruct (c0 !! sm_Name s) eqn:Es; [done|].
  intros (H1 & H2 & H3 & H4 & H5)%IH.
  assert (sm_Name s ∉ sm_Name <$> l) as Hs.
  { intros (s' & Heq & Hs')%list_elem_of_fmap. specialize (H5 s' Hs').
    rewrite <- Heq, lookup_insert_eq in H5. done. }
  split_and!.
  - intros s' [->|Hs']%elem_of_cons; [|by auto]. by rewrite H2, lookup_insert_eq.
  - intros k [Hk1 Hk2]%not_elem_of_cons. rewrite H2 by done. by rewrite lookup_insert_ne.
  - by constructor.
  - rewrite elem_of_cons. intros [?|?]; [by apply E|done].
  - intros s' [->|Hs']%elem_of_cons; [done|]. specialize (H5 s' Hs').
    by apply lookup_insert_None in H5 as [? _].
Qed.

Lemma collect_total samples current0 :
  NoDup (sm_Name <$> samples) → "" ∉ sm_Name <$> samples →
  (∀ s, s ∈ samples → current0 !! sm_Name s = None) →
  is_Some (match collect samples current0 with inr c => Some c | inl _ => None end).
Proof.
  revert current0. induction samples as [|s l IH]; intros c0 Hnd Hne Hfresh; cbn; [eauto|].
  apply NoDup_cons in Hnd as [Hs Hnd]. apply not_elem_of_cons in Hne as [Hs' Hne].
  rewrite bool_decide_eq_false_2 by auto. rewrite Hfresh by constructor.
  apply IH; [done..|]. intros s' Hin. apply lookup_insert_None. split.
  - apply Hfresh. by right.
  - intros Heq. apply Hs. rewrite Heq. by apply list_elem_of_fmap_2.
Qed.

(** * Accounting over a sequence of observations *)
Fixpoint observe_all (state : State) (observations : list (string * list Sample)) :
    string + (State * list Batch) :=
  match observations with
  | [] => inr (state, [])
  | (epoch, samples) :: rest =>
      match Observe state epoch samples with
      | inl e => inl e
      | inr (state, batch) =>
          match observe_all state rest with
          | inl e => inl e
          | inr (state, batches) => inr (state, batch :: batches)
          end
      end
  end.

(** The batches with a sequence number: those that are sent. *)
Definition shipped (batches : list Batch) : list Batch :=
  filter (λ b, bt_Sequence b ≠ 0) batches.

Definition sum (l : list N) : N := foldr N.add 0 l.

(** What the batches charge to one counter, in the unit [f] selects. *)
Definition billed (f : Delta → N) (name : string) (batches : list Batch) : N :=
  sum (f <$> (batches ≫= λ b, filter (λ d, dl_Name d = name) (bt_Deltas b))).

(** How a kernel counter moves between two observations while [traffic] passes:
    it keeps counting in the same epoch, or it restarted from zero, which shows
    as a new epoch or as a value below the previous one. *)
Definition counts (previous : option (string * Value)) (epoch : string) (value traffic : Value) :
    Prop :=
  vl_Packets value < 2 ^ 64 ∧ vl_Bytes value < 2 ^ 64
  ∧ match previous with
    | None => value = traffic
    | Some (e, p) =>
        (e = epoch ∧ vl_Packets value = vl_Packets p + vl_Packets traffic
         ∧ vl_Bytes value = vl_Bytes p + vl_Bytes traffic)
        ∨ (value = traffic ∧ (e ≠ epoch ∨ vl_Packets value < vl_Packets p
                              ∨ vl_Bytes value < vl_Bytes p))
    end.

(** One kernel counter, present in every observation, with the traffic of each
    interval. *)
Inductive kernel (name : string) :
    option (string * Value) → list (string * list Sample) → list Value → Prop :=
  | kernel_nil previous : kernel name previous [] []
  | kernel_step previous epoch samples value traffic rest traffics :
      MkSample name (vl_Packets value) (vl_Bytes value) ∈ samples →
      counts previous epoch value traffic →
      kernel name (Some (epoch, value)) rest traffics →
      kernel name previous ((epoch, samples) :: rest) (traffic :: traffics).

Definition previous_of (state : State) (name : string) : option (string * Value) :=
  (λ v, (mt_Epoch state, v)) <$> mt_Values state !! name.

(** ** The delta of one counter *)
Lemma dl_Name_delta_of e n v p : dl_Name (delta_of e n v p) = n.
Proof. unfold delta_of. by destruct (_ || _). Qed.

Lemma counter_names_NoDup (current : gmap string Value) :
  NoDup (sort_slice str_lt (map_to_list current).*1).
Proof. rewrite sort_slice_perm. apply NoDup_fst_map_to_list. Qed.

Lemma elem_of_counter_names (current : gmap string Value) name :
  name ∈ sort_slice str_lt (map_to_list current).*1 ↔ is_Some (current !! name).
Proof.
  rewrite elem_of_sort_slice, list_elem_of_fmap. split.
  - intros ([k v] & -> & Hkv%elem_of_map_to_list). eauto.
  - intros [v Hv]. exists (name, v). split; [done|]. by apply elem_of_map_to_list.
Qed.

Lemma filter_named (g : string → Delta) names name :
  (∀ n, dl_Name (g n) = n) → NoDup names → name ∈ names →
  filter (λ d, dl_Name d = name) (map g names) = [g name].
Proof.
  intros Hg. induction 1 as [|n l Hn Hnd IH]; [by intros ?%elem_of_nil|].
  rewrite map_cons, filter_cons, Hg. intros [->|Hin]%elem_of_cons.
  - rewrite decide_True by done. f_equal.
    clear -Hg Hn. induction l as [|m l IH]; [done|]. rewrite map_cons, filter_cons, Hg.
    apply not_elem_of_cons in Hn as [? ?]. rewrite decide_False by done. auto.
  - rewrite decide_False by (intros ->; done). auto.
Qed.

Lemma deltas_of_named state epoch current name value :
  current !! name = Some value →
  filter (λ d, dl_Name d = name) (deltas_of state epoch current) =
  [delta_of (negb (bool_decide (mt_Epoch state = epoch))) name value (mt_Values state !! name)].
Proof.
  intros Hv. unfold deltas_of.
  rewrite (filter_named _ _ name).
  - by rewrite Hv.
  - intros n. apply dl_Name_delta_of.
  - apply counter_names_NoDup.
  - apply elem_of_counter_names. eauto.
Qed.

Lemma deltas_of_names state epoch current :
  dl_Name <$> deltas_of state epoch current = sort_slice str_lt (map_to_list current).*1.
Proof.
  unfold deltas_of. etrans; [apply map_map|]. etrans; [|apply map_id].
  apply map_ext. intros n. apply dl_Name_delta_of.
Qed.

(** The delta is exactly the traffic of the interval. *)
Lemma delta_of_traffic state name epoch value traffic :
  counts (previous_of state name) epoch value traffic →
  let d := delta_of (negb (bool_decide (mt_Epoch state = epoch))) name value
             (mt_Values state !! name) in
  dl_Packets d = vl_Packets traffic ∧ dl_Bytes d = vl_Bytes traffic.
Proof.
  intros (Hp64 & Hb64 & Hc). unfold previous_of in Hc.
  destruct (mt_Values state !! name) as [p|]; cbn in Hc |- *.
  2: { subst value. unfold delta_of. by rewrite orb_true_r. }
  unfold delta_of. cbn -[uadd usub N.ltb].
  destruct Hc as [(-> & Hp & Hb) | [-> Hr]].
  - rewrite bool_decide_eq_true_2 by done. rewrite Hp, Hb. cbn -[usub N.ltb].
    replace (vl_Packets p + vl_Packets traffic <? vl_Packets p) with false
      by (symmetry; apply N.ltb_ge; lia).
    replace (vl_Bytes p + vl_Bytes traffic <? vl_Bytes p) with false
      by (symmetry; apply N.ltb_ge; lia).
    cbn -[usub]. rewrite !usub_small by lia. lia.
  - replace (negb (bool_decide (mt_Epoch state = epoch)) || _) with true; [done|].
    symmetry. apply orb_true_iff. destruct Hr as [Hr|[Hr|Hr]].
    + left. apply negb_true_iff. by apply bool_decide_eq_false.
    + right. apply orb_true_iff. left. by apply N.ltb_lt.
    + right. apply orb_true_iff. right. by apply N.ltb_lt.
Qed.

(** ** One observation *)
Lemma Observe_ok state epoch samples state' batch :
  Observe state epoch samples = inr (state', batch) →
  ∃ current, collect samples ∅ = inr current ∧ epoch ≠ ""
    ∧ mt_Epoch state' = epoch ∧ mt_Values state' = current
    ∧ bt_Epoch batch = epoch ∧ bt_Deltas batch = deltas_of state epoch current
    ∧ (if existsb delta_counts (bt_Deltas batch)
       then mt_Sequence state' = uadd 64 (mt_Sequence state) 1
            ∧ bt_Sequence batch = mt_Sequence state'
       else mt_Sequence state' = mt_Sequence state ∧ bt_Sequence batch = 0).
Proof.
  unfold Observe. destruct (bool_decide _) eqn:E; [done|]. reflect_bool.
  destruct (collect samples ∅) as [e|current]; [done|].
  destruct (existsb _ _) eqn:Ex; cbn -[uadd deltas_of]; intros [= <- <-];
    cbn -[uadd deltas_of]; exists current; rewrite Ex; split_and!; done.
Qed.

Lemma collect_named samples current name v :
  collect samples ∅ = inr current →
  MkSample name (vl_Packets v) (vl_Bytes v) ∈ samples → current !! name = Some v.
Proof. intros (H & _)%collect_spec Hin. specialize (H _ Hin). by destruct v. Qed.

Lemma sum_zero (f : Delta → N) l :
  (∀ d, d ∈ l → f d = 0) → sum (f <$> l) = 0.
Proof.
  induction l as [|d l IH]; intros H; [done|]. cbn -[N.add].
  rewrite (H d) by constructor. fold (sum (f <$> l)). rewrite IH; [done|].
  intros ??. apply H. by right.
Qed.

Lemma sum_app l k : sum (l ++ k) = sum l + sum k.
Proof. induction l; cbn -[N.add]; [done|]. fold (sum (l ++ k)) (sum l). lia. Qed.

Lemma billed_cons f name b bs :
  billed f name (b :: bs) =
  sum (f <$> filter (λ d, dl_Name d = name) (bt_Deltas b)) + billed f name bs.
Proof. unfold billed. cbn -[filter]. by rewrite fmap_app, sum_app. Qed.

Lemma shipped_cons b bs :
  shipped (b :: bs) = if bool_decide (bt_Sequence b = 0) then shipped bs else b :: shipped bs.
Proof.
  unfold shipped. rewrite filter_cons. case_bool_decide as H; [|by rewrite decide_True].
  rewrite decide_False; [done|]. intros Hn. by apply Hn.
Qed.

Lemma silent_batch_bills_nothing f name b :
  f = dl_Packets ∨ f = dl_Bytes → existsb delta_counts (bt_Deltas b) = false →
  sum (f <$> filter (λ d, dl_Name d = name) (bt_Deltas b)) = 0.
Proof.
  intros Hf Hex. apply sum_zero. intros d [_ Hd]%list_elem_of_filter.
  assert (delta_counts d = false) as Hz.
  { destruct (delta_counts d) eqn:E; [|done].
    rewrite <- Hex. symmetry. apply existsb_exists. exists d.
    split; [by apply list_elem_of_In|done]. }
  unfold delta_counts in Hz. reflect_bool. destruct Hf as [-> | ->]; done.
Qed.

(** ** Sequence numbers *)
Lemma observe_all_sequence state obs state' batches :
  mt_Sequence state + N.of_nat (length obs) < 2 ^ 64 →
  observe_all state obs = inr (state', batches) →
  bt_Sequence <$> shipped batches =
    (λ i, mt_Sequence state + N.of_nat i) <$> seq 1 (length (shipped batches))
  ∧ mt_Sequence state' = mt_Sequence state + N.of_nat (length (shipped batches)).
Proof.
  revert state state' batches. induction obs as [|[epoch samples] obs IH];
    intros state state' batches Hbound; cbn -[Observe].
  { intros [= <- <-]. split; [done|]. cbn. lia. }
  destruct (Observe state epoch samples) as [e|[s1 b]] eqn:EO; [done|].
  destruct (observe_all s1 obs) as [e|[s2 bs]] eqn:EA; [done|]. intros [= <- <-].
  apply Observe_ok in EO as (current & _ & _ & _ & _ & _ & _ & Hseq).
  cbn [length] in Hbound. rewrite shipped_cons.
  destruct (existsb _ _); destruct Hseq as [Hs Hb].
  - rewrite uadd_small in Hs by lia.
    destruct (IH s1 s2 bs) as [H1 H2]; [lia|done|].
    rewrite bool_decide_eq_false_2 by lia. cbn [length fmap list_fmap]. split; [|lia].
    cbn [seq]. rewrite fmap_cons. f_equal; [lia|].
    change (list_fmap _ _ bt_Sequence (shipped bs)) with (bt_Sequence <$> shipped bs).
    rewrite H1. rewrite <- (seq_shift (length (shipped bs)) 1).
    change (map S (seq 1 (length (shipped bs)))) with (S <$> seq 1 (length (shipped bs))).
    rewrite <- list_fmap_compose. apply list_fmap_ext. intros ? x _. cbn -[N.of_nat N.add]. lia.
  - destruct (IH s1 s2 bs) as [H1 H2]; [lia|done|].
    rewrite bool_decide_eq_true_2 by done. rewrite H1, H2, Hs. done.
Qed.

Lemma observe_all_billed f g name state obs traffic state' batches :
  (f = dl_Packets ∧ g = vl_Packets ∨ f = dl_Bytes ∧ g = vl_Bytes) →
  mt_Sequence state + N.of_nat (length obs) < 2 ^ 64 →
  kernel name (previous_of state name) obs traffic →
  observe_all state obs = inr (state', batches) →
  billed f name (shipped batches) = sum (g <$> traffic).
Proof.
  intros Hfg. revert state state' batches traffic. induction obs as [|[epoch samples] obs IH];
    intros state state' batches traffic Hbound Hk; cbn -[Observe].
  { inv Hk. intros [= <- <-]. done. }
  inv Hk. destruct (Observe state epoch samples) as [e|[s1 b]] eqn:EO; [done|].
  destruct (observe_all s1 obs) as [e|[s2 bs]] eqn:EA; [done|]. intros [= <- <-].
  apply Observe_ok in EO as (current & Hcol & _ & He & Hv & _ & Hd & Hseq).
  cbn [length] in Hbound.
  pose proof (collect_named _ _ _ _ Hcol ltac:(eassumption)) as Hcur.
  assert (previous_of s1 name = Some (epoch, value)) as Hprev.
  { unfold previous_of. by rewrite Hv, Hcur, He. }
  assert (sum (f <$> filter (λ d, dl_Name d = name) (bt_Deltas b)) = g traffic0) as Hone.
  { rewrite Hd, (deltas_of_named _ _ _ _ _ Hcur). cbn -[N.add].
    pose proof (delta_of_traffic state name epoch value traffic0 ltac:(done)) as [H1 H2].
    destruct Hfg as [[-> ->]|[-> ->]]; rewrite ?H1, ?H2; lia. }
  assert (billed f name (shipped bs) = sum (g <$> traffics)) as Hrest.
  { apply (IH s1 s2 bs); [|by rewrite Hprev|done].
    destruct (existsb _ _); destruct Hseq as [-> _]; rewrite ?uadd_small; lia. }
  rewrite fmap_cons. change (sum (g traffic0 :: (g <$> traffics))) with
    (g traffic0 + sum (g <$> traffics)). rewrite <- Hone, <- Hrest, shipped_cons.
  destruct (existsb _ _) eqn:Ex; destruct Hseq as [Hs Hb].
  - rewrite uadd_small in Hs by lia. rewrite bool_decide_eq_false_2 by lia. apply billed_cons.
  - rewrite bool_decide_eq_true_2 by done.
    rewrite silent_batch_bills_nothing; [lia| |done]. destruct Hfg as [[-> _]|[-> _]]; auto.
Qed.

(** * Properties *)

(** C21. Exact accounting: over any sequence of accepted observations, through
    counter resets and epoch changes, the batches that are sent charge a
    counter with exactly the packets and the bytes that passed it, and their
    sequence numbers are consecutive, with neither gap nor repetition. *)
Theorem Observe_exact_accounting name state obs traffic state' batches :
  mt_Sequence state + N.of_nat (length obs) < 2 ^ 64 →
  kernel name (previous_of state name) obs traffic →
  observe_all state obs = inr (state', batches) →
  billed dl_Packets name (shipped batches) = sum (vl_Packets <$> traffic)
  ∧ billed dl_Bytes name (shipped batches) = sum (vl_Bytes <$> traffic)
  ∧ bt_Sequence <$> shipped batches =
      (λ i, mt_Sequence state + N.of_nat i) <$> seq 1 (length (shipped batches))
  ∧ mt_Sequence state' = mt_Sequence state + N.of_nat (length (shipped batches)).
Proof.
  intros Hb Hk Ho. split_and!.
  - eapply observe_all_billed; eauto.
  - eapply observe_all_billed; eauto.
  - by eapply observe_all_sequence.
  - by eapply observe_all_sequence.
Qed.

Definition tracked : State :=
  MkState "boot-1" 6 {["f1" := MkValue 10 1000]}.

(** Counting on, a silent interval, a reset in the same epoch, a new epoch. *)
Definition observed : list (string * list Sample) :=
  [("boot-1", [MkSample "f1" 15 1600; MkSample "f2" 1 64]);
   ("boot-1", [MkSample "f2" 1 64; MkSample "f1" 15 1600]);
   ("boot-1", [MkSample "f1" 2 100]);
   ("boot-2", [MkSample "f1" 7 900])].

Lemma Observe_exact_accounting_witness :
  match observe_all tracked observed with
  | inr (st, batches) =>
      (bt_Sequence <$> batches = [7; 0; 8; 9])
      ∧ billed dl_Bytes "f1" (shipped batches) = sum (vl_Bytes <$>
          [MkValue 5 600; MkValue 0 0; MkValue 2 100; MkValue 7 900])
  | inl _ => False
  end.
Proof.
  destruct (observe_all tracked observed) as [e|[st batches]] eqn:E;
    [vm_compute in E; discriminate E|].
  split.
  - vm_compute in E. injection E as <- <-. reflexivity.
  - refine (proj1 (proj2 (Observe_exact_accounting "f1" tracked observed _ st batches _ _ E))).
    + vm_compute. reflexivity.
    + eapply (kernel_step _ _ _ _ (MkValue 15 1600)); [left| |].
      { split; [vm_compute; reflexivity|]. split; [vm_compute; reflexivity|]. left. split; [|split]; vm_compute; reflexivity. }
      eapply (kernel_step _ _ _ _ (MkValue 15 1600)); [right; left| |].
      { split; [vm_compute; reflexivity|]. split; [vm_compute; reflexivity|]. left. split; [|split]; vm_compute; reflexivity. }
      eapply (kernel_step _ _ _ _ (MkValue 2 100)); [left| |].
      { split; [vm_compute; reflexivity|]. split; [vm_compute; reflexivity|].
        right. split; [reflexivity|]. right. left. vm_compute. reflexivity. }
      eapply (kernel_step _ _ _ _ (MkValue 7 900)); [left| |].
      { split; [vm_compute; reflexivity|]. split; [vm_compute; reflexivity|].
        right. split; [reflexivity|]. left. done. }
      apply kernel_nil.
Defined.

(** [Observe] fails exactly on an empty epoch, an empty counter name or a
    counter sampled twice; otherwise the new state records the epoch and
    exactly the samples, and the batch has one delta per sample, by name. *)
Theorem Observe_total state epoch samples :
  (epoch ≠ "" ∧ "" ∉ sm_Name <$> samples ∧ NoDup (sm_Name <$> samples)) ↔
  ∃ state' batch, Observe state epoch samples = inr (state', batch)
    ∧ mt_Epoch state' = epoch
    ∧ (∀ s, s ∈ samples → mt_Values state' !! sm_Name s = Some (sample_value s))
    ∧ (∀ name, name ∉ sm_Name <$> samples → mt_Values state' !! name = None)
    ∧ dl_Name <$> bt_Deltas batch ≡ₚ sm_Name <$> samples
    ∧ StronglySorted (not_after str_lt) (dl_Name <$> bt_Deltas batch).
Proof.
  split.
  - intros (He & Hne & Hnd).
    destruct (collect_total samples ∅ Hnd Hne) as [c Hc]; [by intros; apply lookup_empty|].
    destruct (collect samples ∅) as [|current] eqn:Ec; [done|]. injection Hc as ->.
    destruct (Observe state epoch samples) as [e|[s' b]] eqn:EO.
    { exfalso. unfold Observe in EO. rewrite bool_decide_eq_false_2, Ec in EO by done.
      destruct (negb _) in EO; discriminate. }
    exists s', b. split; [done|].
    apply Observe_ok in EO as (c' & Hc' & _ & -> & -> & _ & -> & _).
    rewrite Ec in Hc'. injection Hc' as ->.
    apply collect_spec in Ec as (H1 & H2 & _).
    rewrite deltas_of_names.
    split_and!; [done|done| | |apply sort_slice_sorted, _].
    + intros n Hn. by rewrite H2.
    + apply NoDup_Permutation; [apply counter_names_NoDup|done|]. intros n.
      rewrite elem_of_counter_names. split.
      * intros [v Hv]. apply dec_stable. intros Hn. rewrite H2 in Hv by done. done.
      * intros (s & -> & Hs)%list_elem_of_fmap. rewrite H1 by done. eauto.
  - intros (s' & b & HO & _). apply Observe_ok in HO as (c & Hc & He & _).
    apply collect_spec in Hc as (_ & _ & Hnd & Hne & _). done.
Qed.

Definition charge (d : Usage.Delta) : string * Protocol * TrafficDirection * N :=
  (Usage.ud_ForwardID d, Usage.ud_Protocol d, Usage.ud_Direction d, Usage.ud_ResourceVersion d).

(** The well-formed deltas of a batch. *)
Definition charge_ok (d : Usage.Delta) : Prop :=
  validIdentifier (Usage.ud_ForwardID d) = true
  ∧ Usage.ud_Protocol d ∈ [ProtocolTCP; ProtocolUDP]
  ∧ Usage.ud_Direction d ∈ [DirectionUpload; DirectionDownload]
  ∧ Usage.ud_ResourceVersion d ≠ 0.

Lemma usage_key_inj d1 d2 :
  charge_ok d1 → charge_ok d2 → Usage.usage_key d1 = Usage.usage_key d2 → charge d1 = charge d2.
Proof.
  intros (Hi1 & Hp1 & Hd1 & _) (Hi2 & Hp2 & Hd2 & _). unfold Usage.usage_key, charge.
  assert (∀ p, p ∈ [ProtocolTCP; ProtocolUDP] ∨ p ∈ [DirectionUpload; DirectionDownload] →
            "/"%char ∉ chars p) as Hs.
  { intros p Hp. rewrite !elem_of_cons, !elem_of_nil in Hp.
    destruct Hp as [[->|[->|[]]]|[->|[->|[]]]]; by apply (bool_decide_unpack _). }
  intros [-> H]%slash_inj; [|by apply validIdentifier_slash..].
  apply slash_inj in H as [-> H]; [|by apply Hs; auto..].
  apply slash_inj in H as [-> H]; [|by apply Hs; auto..].
  apply (inj pretty) in H as ->. done.
Qed.

Lemma one_of {A} `{EqDecision A} (x a b : A) :
  negb (bool_decide (x = a)) && negb (bool_decide (x = b)) = false ↔ x ∈ [a; b].
Proof.
  rewrite andb_false_iff, !negb_false_iff, !bool_decide_eq_true, !elem_of_cons, elem_of_nil.
  tauto.
Qed.

Lemma validate_deltas_None i deltas seen :
  Usage.validate_deltas i deltas seen = None ↔
  Forall charge_ok deltas ∧ NoDup (Usage.usage_key <$> deltas)
  ∧ ∀ d, d ∈ deltas → Usage.usage_key d ∉ seen.
Proof.
  revert i seen. induction deltas as [|d l IH]; intros i seen; cbn -[String.append show_nat].
  { split; [|done]. intros _. split_and!; [constructor|constructor|].
    by intros ? ?%elem_of_nil. }
  rewrite Forall_cons, NoDup_cons. unfold charge_ok at 1, ValidateIdentifier.
  rewrite <- !one_of, <- N.eqb_neq.
  destruct (validIdentifier _); cbn -[String.append show_nat]; [|naive_solver].
  destruct (negb (bool_decide (Usage.ud_Protocol d = _)) && _); [naive_solver|].
  destruct (negb (bool_decide (Usage.ud_Direction d = _)) && _); [naive_solver|].
  destruct (_ =? 0); [naive_solver|].
  destruct (bool_decide _) eqn:Es; reflect_bool.
  { split; [done|]. intros (_ & _ & H). exfalso. apply (H d); [left|done]. }
  rewrite IH. split.
  - intros (H1 & H2 & H3). split_and!; [done..| | |].
    + intros (d' & Hk & Hd')%list_elem_of_fmap. apply (H3 _ Hd'). set_solver.
    + done.
    + intros d' [->|Hd']%elem_of_cons; [done|]. specialize (H3 _ Hd'). set_solver.
  - intros ((_ & H1) & (Hn & H2) & H3). split_and!; [done..|].
    intros d' Hd'. apply not_elem_of_union. split; [|apply H3; by right].
    intros Hk%elem_of_singleton. apply Hn. rewrite <- Hk. by apply list_elem_of_fmap_2.
Qed.

Lemma NoDup_charges deltas :
  Forall charge_ok deltas →
  NoDup (Usage.usage_key <$> deltas) ↔ NoDup (charge <$> deltas).
Proof.
  induction 1 as [|d l Hd Hl IH]; [split; constructor|]. rewrite !fmap_cons, !NoDup_cons, IH.
  rewrite Forall_forall in Hl.
  assert (Usage.usage_key d ∈ Usage.usage_key <$> l ↔ charge d ∈ charge <$> l) as ->; [|done].
  rewrite !list_elem_of_fmap. split; intros (d' & Hk & Hd'); exists d'; (split; [|done]).
  - apply usage_key_inj; auto.
  - unfold charge in Hk. unfold Usage.usage_key. congruence.
Qed.

(** A usage batch is accepted exactly when its node, epoch, sequence,
    generation and time are present and well formed, every delta is, and no
    (forward, protocol, direction, version) is charged twice in it: the string
    keys the code compares never confuse two charges. *)
Theorem Usage_Validate_spec b :
  Usage.Validate b = None ↔
  validIdentifier (Usage.ub_NodeID b) = true
  ∧ Usage.validChecksum (Usage.ub_Epoch b) = true
  ∧ Usage.ub_Sequence b ≠ 0 ∧ Usage.ub_Generation b ≠ 0 ∧ Usage.ub_ObservedAt b ≠ 0%Z
  ∧ Forall charge_ok (Usage.ub_Deltas b) ∧ NoDup (charge <$> Usage.ub_Deltas b).
Proof.
  unfold Usage.Validate, ValidateIdentifier.
  destruct (validIdentifier _); cbn -[Usage.validChecksum]; [|naive_solver].
  destruct (Usage.validChecksum _); cbn -[N.eqb Time_IsZero]; [|naive_solver].
  rewrite <- !N.eqb_neq. unfold Time_IsZero. rewrite <- Z.eqb_neq.
  destruct (_ =? 0), (_ =? 0), (_ =? 0)%Z; cbn; try naive_solver.
  rewrite validate_deltas_None. split.
  - intros (H1 & H2 & _). split_and!; try done. by apply NoDup_charges.
  - intros (_ & _ & _ & _ & _ & H1 & H2). split_and!; [done| |].
    + by apply NoDup_charges.
    + intros ? _. apply not_elem_of_empty.
Qed.
