(* ===== verification/Capabilities.v ===== *)
(** Capability negotiation between Controller and Agent,
    [internal/control/protocol.go]. A list of capability pointers is a list of
    options: [None] is a nil pointer. *)
From S2P Require Import Prelude.
From S2P Require Import GoNet.
From S2P Require Import SpecTypes.
From S2P Require Import SpecCanonical.
From S2P Require Import SpecValidate.
From S2P Require Import SpecSamples.

Definition ProtocolVersion : N := 1.

Record Capability := MkCapability { cap_Name : string; cap_Version : N }.
#[export] Instance Capability_eq_dec : EqDecision Capability.
Proof. solve_decision. Defined.

Definition DefaultCapabilities : list (option Capability) :=
  Some <$>
  [MkCapability "nft.direct" 2; MkCapability "nft.via-exit" 1;
   MkCapability "nft.static-snat" 1; MkCapability "nft.directional-counters" 1;
   MkCapability "nft.drain" 1; MkCapability "nft.force-delete" 1;
   MkCapability "policy.local-deadline" 1; MkCapability "tc.rate-limit" 1;
   MkCapability "usage.l3" 1; MkCapability "fabric.policy-routing" 1;
   MkCapability "fabric.wireguard" 1; MkCapability "fabric.direct-l3" 1;
   MkCapability "fabric.gre" 1; MkCapability "fabric.mss-clamp" 1;
   MkCapability "health.tcp-connect" 1; MkCapability "nft.protocol-block" 1;
   MkCapability "diagnostics.tcp-connect" 1; MkCapability "agent.maintenance" 1].

(** A conditional assignment [if cond { required[name] = version }]. *)
Definition require (cond : bool) (name : string) (version : N) (required : gmap string N) :
    gmap string N :=
  if cond then <[name := version]> required else required.

(** [required], then the users with an ingress forward. *)
Definition require_forward (desired : DesiredState)
    (acc : gmap string N * gset string) (forward : ForwardSpec) : gmap string N * gset string :=
  let '(required, ingressUsers) := acc in
  let isIngress := bool_decide (fw_IngressNodeID forward = ds_NodeID desired) in
  let ingressUsers := if isIngress then {[fw_UserID forward]} ∪ ingressUsers else ingressUsers in
  let required :=
    if bool_decide (fw_PathMode forward = PathDirect)
    then <["nft.direct" := if SchemaVersionV2 <=? ds_SchemaVersion desired then 2 else 1]> required
    else require (bool_decide (fw_PathMode forward = PathViaExit)) "nft.via-exit" 1 required in
  let required :=
    require (bool_decide (snat_Mode (fw_SNAT forward) = SNATStatic)) "nft.static-snat" 1 required in
  let required :=
    require (isIngress && bool_decide (is_Some (fw_RateLimit forward))) "tc.rate-limit" 1 required in
  let metered := isIngress && bool_decide (is_Some (fw_TrafficQuota forward)) in
  let required := require metered "usage.l3" 1 required in
  let required := require metered "nft.directional-counters" 1 required in
  let required :=
    require (bool_decide (is_Some (fw_ExpiresAt forward))
             || bool_decide (is_Some (fw_DrainDeadline forward))) "policy.local-deadline" 1 required in
  let required :=
    require (bool_decide (fw_Lifecycle forward = LifecycleDraining)) "nft.drain" 1 required in
  let required :=
    require (bool_decide (fw_Lifecycle forward = LifecycleForceDeleting))
      "nft.force-delete" 1 required in
  (required, ingressUsers).

Definition require_policy (ingressUsers : gset string) (required : gmap string N)
    (policy : UserPolicySpec) : gmap string N :=
  let usedAtIngress := bool_decide (up_UserID policy ∈ ingressUsers) in
  let required :=
    require (usedAtIngress && bool_decide (is_Some (up_RateLimit policy))) "tc.rate-limit" 1 required in
  let metered := usedAtIngress && bool_decide (is_Some (up_TrafficQuota policy)) in
  let required := require metered "usage.l3" 1 required in
  require metered "nft.directional-counters" 1 required.

Definition require_link (required : gmap string N) (link : FabricLinkSpec) : gmap string N :=
  let required := <["fabric.policy-routing" := 1]> required in
  let required := <["fabric.mss-clamp" := 1]> required in
  if bool_decide (fl_Transport link = FabricWireGuard) then <["fabric.wireguard" := 1]> required
  else if bool_decide (fl_Transport link = FabricDirectL3) then <["fabric.direct-l3" := 1]> required
  else require (bool_decide (fl_Transport link = FabricGRE)) "fabric.gre" 1 required.

(** The [required] map at the end of the loops. *)
Definition required_map (desired : DesiredState) : gmap string N :=
  let required :=
    require (match ds_ProtocolBlocks desired with Some p => ProtocolBlockPolicy_Any p | None => false end)
      "nft.protocol-block" 1 ∅ in
  let '(required, ingressUsers) :=
    foldl (require_forward desired) (required, ∅) (ds_Forwards desired) in
  let required := foldl (require_policy ingressUsers) required (ds_UserPolicies desired) in
  let required := foldl require_link required (ds_FabricLinks desired) in
  require (negb (length (ds_HealthChecks desired) =? 0)%nat) "health.tcp-connect" 1 required.

Definition RequiredCapabilities (desired : DesiredState) : list Capability :=
  sort_slice (less_by cap_Name)
    (map (λ nv, MkCapability nv.1 nv.2) (map_to_list (required_map desired))).

(** [ValidateCapabilities]: the error, if any. *)
Fixpoint validate_capabilities (capabilities : list (option Capability)) (seen : gset string) :
    option string :=
  match capabilities with
  | [] => None
  | None :: _ => Some "capability must not be nil"
  | Some capability :: rest =>
      match ValidateIdentifier "capability.name" (cap_Name capability) with
      | Some e => Some e
      | None =>
          if cap_Version capability =? 0
          then Some ("capability " +:+ cap_Name capability +:+ " version must be greater than zero")
          else if bool_decide (cap_Name capability ∈ seen)
          then Some ("capability " +:+ cap_Name capability +:+ " is duplicated")
          else validate_capabilities rest ({[cap_Name capability]} ∪ seen)
      end
  end.
Definition ValidateCapabilities (capabilities : list (option Capability)) : option string :=
  validate_capabilities capabilities ∅.

(** The best version of each capability that is available; 0 if none. *)
Definition offer (available : gmap string N) (capability : option Capability) : gmap string N :=
  match capability with
  | Some c =>
      if default 0 (available !! cap_Name c) <? cap_Version c
      then <[cap_Name c := cap_Version c]> available else available
  | None => available
  end.

Definition missing_capability (available : gmap string N) (capability : option Capability) :
    list string :=
  match capability with
  | None => ["<nil>"]
  | Some c =>
      if default 0 (available !! cap_Name c) <? cap_Version c
      then [cap_Name c +:+ "@" +:+ show (cap_Version c)] else []
  end.

Definition MissingCapabilities (supported required : list (option Capability)) : list string :=
  let available := foldl offer ∅ supported in
  sort_slice str_lt (required ≫= missing_capability available).

(** * What a state needs, feature by feature *)
Definition ingress_forward (s : DesiredState) (f : ForwardSpec) : Prop :=
  f ∈ ds_Forwards s ∧ fw_IngressNodeID f = ds_NodeID s.

Inductive needs (s : DesiredState) : string → Prop :=
  | needs_block p : ds_ProtocolBlocks s = Some p → ProtocolBlockPolicy_Any p = true →
      needs s "nft.protocol-block"
  | needs_direct f : f ∈ ds_Forwards s → fw_PathMode f = PathDirect → needs s "nft.direct"
  | needs_via f : f ∈ ds_Forwards s → fw_PathMode f = PathViaExit → needs s "nft.via-exit"
  | needs_static f : f ∈ ds_Forwards s → snat_Mode (fw_SNAT f) = SNATStatic →
      needs s "nft.static-snat"
  | needs_rate f : ingress_forward s f → is_Some (fw_RateLimit f) → needs s "tc.rate-limit"
  | needs_user_rate f p : ingress_forward s f → p ∈ ds_UserPolicies s →
      up_UserID p = fw_UserID f → is_Some (up_RateLimit p) → needs s "tc.rate-limit"
  | needs_quota name f : ingress_forward s f → is_Some (fw_TrafficQuota f) →
      name ∈ ["usage.l3"; "nft.directional-counters"] → needs s name
  | needs_user_quota name f p : ingress_forward s f → p ∈ ds_UserPolicies s →
      up_UserID p = fw_UserID f → is_Some (up_TrafficQuota p) →
      name ∈ ["usage.l3"; "nft.directional-counters"] → needs s name
  | needs_deadline f : f ∈ ds_Forwards s →
      is_Some (fw_ExpiresAt f) ∨ is_Some (fw_DrainDeadline f) → needs s "policy.local-deadline"
  | needs_drain f : f ∈ ds_Forwards s → fw_Lifecycle f = LifecycleDraining → needs s "nft.drain"
  | needs_force f : f ∈ ds_Forwards s → fw_Lifecycle f = LifecycleForceDeleting →
      needs s "nft.force-delete"
  | needs_fabric name l : l ∈ ds_FabricLinks s →
      name ∈ ["fabric.policy-routing"; "fabric.mss-clamp"] → needs s name
  | needs_wireguard l : l ∈ ds_FabricLinks s → fl_Transport l = FabricWireGuard →
      needs s "fabric.wireguard"
  | needs_direct_l3 l : l ∈ ds_FabricLinks s → fl_Transport l = FabricDirectL3 →
      needs s "fabric.direct-l3"
  | needs_gre l : l ∈ ds_FabricLinks s → fl_Transport l = FabricGRE → needs s "fabric.gre"
  | needs_health c : c ∈ ds_HealthChecks s → needs s "health.tcp-connect".

Definition needed_version (s : DesiredState) (name : string) : N :=
  if bool_decide (name = "nft.direct") && (SchemaVersionV2 <=? ds_SchemaVersion s) then 2 else 1.

(** ** The names each loop body adds *)
Definition forward_names (s : DesiredState) (f : ForwardSpec) : list string :=
  let isIngress := bool_decide (fw_IngressNodeID f = ds_NodeID s) in
  let metered := isIngress && bool_decide (is_Some (fw_TrafficQuota f)) in
  when (bool_decide (fw_PathMode f = PathDirect)) "nft.direct"
  ++ when (bool_decide (fw_PathMode f = PathViaExit)) "nft.via-exit"
  ++ when (bool_decide (snat_Mode (fw_SNAT f) = SNATStatic)) "nft.static-snat"
  ++ when (isIngress && bool_decide (is_Some (fw_RateLimit f))) "tc.rate-limit"
  ++ when metered "usage.l3" ++ when metered "nft.directional-counters"
  ++ when (bool_decide (is_Some (fw_ExpiresAt f)) || bool_decide (is_Some (fw_DrainDeadline f)))
       "policy.local-deadline"
  ++ when (bool_decide (fw_Lifecycle f = LifecycleDraining)) "nft.drain"
  ++ when (bool_decide (fw_Lifecycle f = LifecycleForceDeleting)) "nft.force-delete".

Definition policy_names (users : gset string) (p : UserPolicySpec) : list string :=
  let usedAtIngress := bool_decide (up_UserID p ∈ users) in
  let metered := usedAtIngress && bool_decide (is_Some (up_TrafficQuota p)) in
  when (usedAtIngress && bool_decide (is_Some (up_RateLimit p))) "tc.rate-limit"
  ++ when metered "usage.l3" ++ when metered "nft.directional-counters".

Definition link_names (l : FabricLinkSpec) : list string :=
  ["fabric.policy-routing"; "fabric.mss-clamp"]
  ++ when (bool_decide (fl_Transport l = FabricWireGuard)) "fabric.wireguard"
  ++ when (bool_decide (fl_Transport l = FabricDirectL3)) "fabric.direct-l3"
  ++ when (bool_decide (fl_Transport l = FabricGRE)) "fabric.gre".

(** [m] holds the version the state needs for exactly the names [P]. *)
Definition holds (s : DesiredState) (m : gmap string N) (P : string → Prop) : Prop :=
  ∀ n v, m !! n = Some v ↔ P n ∧ v = needed_version s n.

Lemma holds_insert s m P name v :
  holds s m P → v = needed_version s name → holds s (<[name := v]> m) (λ n, P n ∨ n = name).
Proof.
  intros H Hv n w. destruct (decide (n = name)) as [->|Hne].
  - rewrite lookup_insert_eq. rewrite <- Hv. naive_solver.
  - rewrite lookup_insert_ne by done. pose proof (H n w). naive_solver.
Qed.

Lemma holds_iff s m P Q : holds s m P → (∀ n, P n ↔ Q n) → holds s m Q.
Proof. intros H HPQ n v. pose proof (H n v). pose proof (HPQ n). naive_solver. Qed.

Lemma elem_of_when n b name : n ∈ when b name ↔ b = true ∧ n = name.
Proof. destruct b; cbn; rewrite ?list_elem_of_singleton, ?elem_of_nil; naive_solver. Qed.

Lemma holds_require s m P name cond v :
  holds s m P → v = needed_version s name →
  holds s (require cond name v m) (λ n, P n ∨ n ∈ when cond name).
Proof.
  intros H Hv. destruct cond; cbn.
  - eapply holds_iff; [by apply holds_insert|]. intros n. by rewrite list_elem_of_singleton.
  - eapply holds_iff; [done|]. intros n. rewrite elem_of_nil. tauto.
Qed.

Lemma require_forward_holds s m users P f :
  holds s m P →
  holds s (require_forward s (m, users) f).1 (λ n, P n ∨ n ∈ forward_names s f)
  ∧ ∀ u, u ∈ (require_forward s (m, users) f).2 ↔
         u ∈ users ∨ (fw_IngressNodeID f = ds_NodeID s ∧ fw_UserID f = u).
Proof.
  intros H. split.
  - unfold require_forward, forward_names. cbn [fst].
    assert (∀ b, bool_decide (fw_PathMode f = PathDirect) = b →
              holds s (if b then <["nft.direct" := if SchemaVersionV2 <=? ds_SchemaVersion s then 2 else 1]> m
                       else require (bool_decide (fw_PathMode f = PathViaExit)) "nft.via-exit" 1 m)
                (λ n, (P n ∨ n ∈ when b "nft.direct")
                      ∨ n ∈ when (bool_decide (fw_PathMode f = PathViaExit)) "nft.via-exit")) as H0.
    { intros [] Hb; reflect_bool.
      - rewrite Hb. change (bool_decide (PathDirect = PathViaExit)) with false.
        eapply holds_iff; [apply holds_insert; [done|]|].
        + unfold needed_version. by destruct (_ <=? _).
        + intros n. rewrite !elem_of_when. naive_solver.
      - eapply holds_iff; [by apply holds_require|]. intros n. rewrite !elem_of_when. naive_solver. }
    specialize (H0 _ eq_refl).
    eapply holds_iff; [repeat (apply holds_require; [|done]); exact H0|].
    intros n. rewrite !elem_of_app. tauto.
  - intros u. cbn. destruct (bool_decide _) eqn:E; reflect_bool; set_solver.
Qed.

Lemma require_policy_holds s m P users p :
  holds s m P → holds s (require_policy users m p) (λ n, P n ∨ n ∈ policy_names users p).
Proof.
  intros H. unfold require_policy, policy_names.
  eapply holds_iff; [by repeat (apply holds_require; [|done])|].
  intros n. rewrite !elem_of_app. tauto.
Qed.

Lemma require_link_holds s m P l :
  holds s m P → holds s (require_link m l) (λ n, P n ∨ n ∈ link_names l).
Proof.
  intros H. unfold require_link, link_names.
  apply (holds_insert _ _ _ "fabric.policy-routing" 1) in H; [|done].
  apply (holds_insert _ _ _ "fabric.mss-clamp" 1) in H; [|done].
  destruct (bool_decide (_ = FabricWireGuard)) eqn:E1;
    [|destruct (bool_decide (_ = FabricDirectL3)) eqn:E2]; reflect_bool.
  - eapply holds_iff; [by apply holds_insert|]. intros n. rewrite E1. set_solver.
  - eapply holds_iff; [by apply holds_insert|]. intros n. rewrite E2. set_solver.
  - eapply holds_iff; [by apply holds_require|]. intros n. set_solver.
Qed.

(** A loop each of whose bodies adds the names [g x]. *)
Lemma foldl_holds {A} (step : gmap string N → A → gmap string N) (g : A → list string) s
    (l : list A) m P :
  (∀ m P x, holds s m P → holds s (step m x) (λ n, P n ∨ n ∈ g x)) →
  holds s m P → holds s (foldl step m l) (λ n, P n ∨ ∃ x, x ∈ l ∧ n ∈ g x).
Proof.
  intros Hstep. revert m P. induction l as [|x l IH]; intros m P H; cbn.
  - eapply holds_iff; [done|]. set_solver.
  - eapply holds_iff; [by apply IH, Hstep|]. set_solver.
Qed.

Lemma exists_elem_cons {A} (P : A → Prop) x l :
  (∃ y, y ∈ x :: l ∧ P y) ↔ P x ∨ ∃ y, y ∈ l ∧ P y.
Proof. setoid_rewrite elem_of_cons. naive_solver. Qed.

Lemma foldl_forward_holds s l m users P :
  holds s m P →
  holds s (foldl (require_forward s) (m, users) l).1
    (λ n, P n ∨ ∃ f, f ∈ l ∧ n ∈ forward_names s f)
  ∧ ∀ u, u ∈ (foldl (require_forward s) (m, users) l).2 ↔
         u ∈ users ∨ ∃ f, f ∈ l ∧ fw_IngressNodeID f = ds_NodeID s ∧ fw_UserID f = u.
Proof.
  revert m users P. induction l as [|f l IH]; intros m users P H; cbn [foldl].
  - split; [eapply holds_iff; [done|]|]; set_solver.
  - destruct (require_forward_holds s m users P f H) as [H1 H2].
    destruct (require_forward s (m, users) f) as [m' users'].
    destruct (IH m' users' _ H1) as [H3 H4]. split.
    + eapply holds_iff; [exact H3|]. intros n. rewrite exists_elem_cons. tauto.
    + intros u. rewrite H4, exists_elem_cons, H2. tauto.
Qed.

Ltac names_in H :=
  unfold forward_names, policy_names, link_names in H;
  rewrite ?elem_of_app, ?elem_of_when, ?andb_true_iff, ?orb_true_iff, ?bool_decide_eq_true in H.

Lemma forward_names_needs s f n : f ∈ ds_Forwards s → n ∈ forward_names s f → needs s n.
Proof.
  intros Hf H. names_in H.
  destruct_or! H; destruct_and! H; subst; first
    [ by eapply needs_direct | by eapply needs_via | by eapply needs_static
    | by eapply needs_rate; [split|] | by eapply needs_quota; [split| |set_solver]
    | eapply needs_deadline; [done|]; by auto | by eapply needs_drain | by eapply needs_force ].
Qed.

Lemma policy_names_needs s users p n :
  p ∈ ds_UserPolicies s →
  (∀ u, u ∈ users → ∃ f, ingress_forward s f ∧ fw_UserID f = u) →
  n ∈ policy_names users p → needs s n.
Proof.
  intros Hp Hu H. names_in H.
  destruct_or! H; destruct_and! H; subst;
    (destruct (Hu (up_UserID p)) as (f & Hf & Hfu); [done|]); first
    [ by eapply needs_user_rate | by eapply needs_user_quota; [..|set_solver] ].
Qed.

Lemma link_names_needs s l n : l ∈ ds_FabricLinks s → n ∈ link_names l → needs s n.
Proof.
  intros Hl H. names_in H. destruct H as [H|H]; [by eapply needs_fabric|].
  destruct_or! H; destruct_and! H; subst; first
    [ by eapply needs_wireguard | by eapply needs_direct_l3 | by eapply needs_gre ].
Qed.

Ltac in_names :=
  unfold forward_names, policy_names, link_names;
  rewrite ?elem_of_app, ?elem_of_when, ?andb_true_iff, ?orb_true_iff, ?bool_decide_eq_true,
    ?elem_of_cons, ?elem_of_nil;
  repeat match goal with H : _ ∈ [_; _] |- _ => rewrite !elem_of_cons, elem_of_nil in H end;
  intuition (subst; auto).

(** The names the loops put in the map, by loop. *)
Definition needs_in (s : DesiredState) (blocks : bool) (users : gset string) (n : string) : Prop :=
  ((((False ∨ (blocks = true ∧ n = "nft.protocol-block"))
     ∨ ∃ f, f ∈ ds_Forwards s ∧ n ∈ forward_names s f)
    ∨ ∃ p, p ∈ ds_UserPolicies s ∧ n ∈ policy_names users p)
   ∨ ∃ l, l ∈ ds_FabricLinks s ∧ n ∈ link_names l)
  ∨ (negb (length (ds_HealthChecks s) =? 0)%nat = true ∧ n = "health.tcp-connect").

Lemma required_map_holds s : holds s (required_map s) (needs s).
Proof.
  unfold required_map.
  set (blocks := match ds_ProtocolBlocks s with Some p => _ | None => _ end).
  assert (holds s ∅ (λ _, False)) as H0.
  { intros n v. rewrite lookup_empty. naive_solver. }
  apply (holds_require _ _ _ "nft.protocol-block" blocks 1) in H0; [|done].
  destruct (foldl_forward_holds s (ds_Forwards s) _ ∅ _ H0) as [H1 Hu]. clear H0.
  destruct (foldl (require_forward s) _ _) as [m users]. cbn [fst snd] in H1, Hu.
  apply (foldl_holds (require_policy users) (policy_names users) s (ds_UserPolicies s)) in H1;
    [|intros; by apply require_policy_holds].
  apply (foldl_holds require_link link_names s (ds_FabricLinks s)) in H1;
    [|intros; by apply require_link_holds].
  eapply holds_iff; [by apply holds_require|]. clear H1. intros n. split.
  - rewrite !elem_of_when. intros [[[[[[]|[Hb ->]]|(f & Hf & Hn)]|(p & Hp & Hn)]|(l & Hl & Hn)]|[Hc ->]].
    + unfold blocks in Hb. destruct (ds_ProtocolBlocks s) eqn:E; [|done]. by eapply needs_block.
    + by eapply forward_names_needs.
    + eapply policy_names_needs; [done| |done]. intros u Hin.
      apply Hu in Hin as [[]%elem_of_empty|(f & ? & ? & ?)]. by exists f.
    + by eapply link_names_needs.
    + destruct (ds_HealthChecks s) as [|c cs] eqn:E; [done|].
      apply (needs_health _ c). rewrite E. left.
  - assert (∀ f, ingress_forward s f → fw_UserID f ∈ users) as Hi.
    { intros f [??]. apply Hu. right. eauto. }
    intros Hn. rewrite !elem_of_when.
    assert (∀ f n, f ∈ ds_Forwards s → n ∈ forward_names s f → needs_in s blocks users n) as Af.
    { intros. left. left. left. right. eauto. }
    assert (∀ p n, p ∈ ds_UserPolicies s → n ∈ policy_names users p → needs_in s blocks users n) as Ap.
    { intros. left. left. right. eauto. }
    assert (∀ l n, l ∈ ds_FabricLinks s → n ∈ link_names l → needs_in s blocks users n) as Al.
    { intros. left. right. eauto. }
    destruct Hn as [p Hp Hany|f Hf Hm|f Hf Hm|f Hf Hm|f Hf Hm|f p Hf Hp Heq Hm|n f Hf Hm Hn
      |n f p Hf Hp Heq Hm Hn|f Hf Hm|f Hf Hm|f Hf Hm|n l Hl Hn|l Hl Hm|l Hl Hm|l Hl Hm|c Hc].
    + do 4 left. right. unfold blocks. by rewrite Hp.
    + apply (Af f); [done|]. in_names.
    + apply (Af f); [done|]. in_names.
    + apply (Af f); [done|]. in_names.
    + destruct Hf as [Hf Hi']. apply (Af f); [done|]. in_names.
    + specialize (Hi f Hf). rewrite <- Heq in Hi. apply (Ap p); [done|]. in_names.
    + destruct Hf as [Hf Hi']. apply (Af f); [done|]. in_names.
    + specialize (Hi f Hf). rewrite <- Heq in Hi. apply (Ap p); [done|]. in_names.
    + apply (Af f); [done|]. in_names.
    + apply (Af f); [done|]. in_names.
    + apply (Af f); [done|]. in_names.
    + apply (Al l); [done|]. in_names.
    + apply (Al l); [done|]. in_names.
    + apply (Al l); [done|]. in_names.
    + apply (Al l); [done|]. in_names.
    + right. split; [|done]. destruct (ds_HealthChecks s); [by apply elem_of_nil in Hc|done].
Qed.

(** * The list of required capabilities *)
Lemma elem_of_required s c :
  c ∈ RequiredCapabilities s ↔
  needs s (cap_Name c) ∧ cap_Version c = needed_version s (cap_Name c).
Proof.
  unfold RequiredCapabilities. rewrite elem_of_sort_slice.
  rewrite <- (required_map_holds s (cap_Name c) (cap_Version c)).
  rewrite list_elem_of_fmap. split.
  - intros ([n v] & -> & H%elem_of_map_to_list). done.
  - intros H. exists (cap_Name c, cap_Version c). split; [by destruct c|].
    by apply elem_of_map_to_list.
Qed.

Lemma required_names_NoDup s : NoDup (cap_Name <$> RequiredCapabilities s).
Proof.
  unfold RequiredCapabilities. rewrite sort_slice_perm.
  replace (cap_Name <$> map _ _) with ((map_to_list (required_map s)).*1)
    by (symmetry; apply map_map).
  apply NoDup_fst_map_to_list.
Qed.

Lemma required_of_map s t : required_map s = required_map t →
  RequiredCapabilities s = RequiredCapabilities t.
Proof. unfold RequiredCapabilities. by intros ->. Qed.

(** Capabilities look at features of elements that canonicalisation keeps. *)
Lemma needs_Canonical s n : needs (Canonical s) n ↔ needs s n.
Proof.
  assert (∀ f, f ∈ ds_Forwards (Canonical s) ↔ ∃ g, f = canonicalForward g ∧ g ∈ ds_Forwards s) as Hf.
  { intros f. cbn [ds_Forwards Canonical]. by rewrite elem_of_sort_slice, list_elem_of_fmap. }
  assert (∀ f, f ∈ ds_FabricLinks (Canonical s) ↔ ∃ g, f = canonicalLink g ∧ g ∈ ds_FabricLinks s) as Hl.
  { intros f. cbn [ds_FabricLinks Canonical]. by rewrite elem_of_sort_slice, list_elem_of_fmap. }
  assert (∀ f, f ∈ ds_HealthChecks (Canonical s) ↔ ∃ g, f = canonicalCheck g ∧ g ∈ ds_HealthChecks s) as Hc.
  { intros f. cbn [ds_HealthChecks Canonical]. by rewrite elem_of_sort_slice, list_elem_of_fmap. }
  assert (∀ f, f ∈ ds_UserPolicies (Canonical s) ↔ f ∈ ds_UserPolicies s) as Hp.
  { intros f. cbn [ds_UserPolicies Canonical]. by rewrite elem_of_sort_slice. }
  assert (∀ f, f ∈ ds_Forwards s → canonicalForward f ∈ ds_Forwards (Canonical s)) as Hf'.
  { intros. apply Hf. eauto. }
  assert (∀ f, f ∈ ds_FabricLinks s → canonicalLink f ∈ ds_FabricLinks (Canonical s)) as Hl'.
  { intros. apply Hl. eauto. }
  assert (∀ f, ingress_forward (Canonical s) f ↔ ∃ g, f = canonicalForward g ∧ ingress_forward s g) as Hi.
  { intros f. unfold ingress_forward. rewrite Hf. split.
    - intros [(g & -> & Hg) H]. eauto.
    - intros (g & -> & Hg & H). eauto. }
  assert (∀ f, ingress_forward s f → ingress_forward (Canonical s) (canonicalForward f)) as Hi'.
  { intros. apply Hi. eauto. }
  split.
  - destruct 1;
      repeat match goal with
      | H : _ ∈ ds_Forwards (Canonical s) |- _ => apply Hf in H as (? & -> & ?)
      | H : _ ∈ ds_FabricLinks (Canonical s) |- _ => apply Hl in H as (? & -> & ?)
      | H : _ ∈ ds_HealthChecks (Canonical s) |- _ => apply Hc in H as (? & -> & ?)
      | H : _ ∈ ds_UserPolicies (Canonical s) |- _ => apply Hp in H
      | H : ingress_forward (Canonical s) _ |- _ => apply Hi in H as (? & -> & ?)
      end; try by econstructor.
    cbn [ds_ProtocolBlocks Canonical] in H. unfold canonicalProtocolBlocks in H.
    destruct (ds_ProtocolBlocks s) as [q|] eqn:E; [|done].
    destruct (ProtocolBlockPolicy_Any q) eqn:Eq; [|done]. by eapply needs_block.
  - destruct 1; repeat match goal with
      | H : ?f ∈ ds_Forwards s |- _ => apply Hf' in H
      | H : ?f ∈ ds_FabricLinks s |- _ => apply Hl' in H
      | H : ?f ∈ ds_UserPolicies s |- _ => apply Hp in H
      | H : ingress_forward s ?f |- _ => apply Hi' in H
      end; try by econstructor.
    + eapply needs_block; [|done]. cbn [ds_ProtocolBlocks Canonical].
      unfold canonicalProtocolBlocks. by rewrite H, H0.
    + apply (needs_health _ (canonicalCheck c)). apply Hc. eauto.
Qed.

Lemma required_map_Canonical s : required_map (Canonical s) = required_map s.
Proof.
  apply map_eq. intros n. apply option_eq. intros v.
  rewrite (required_map_holds (Canonical s) n v), (required_map_holds s n v), needs_Canonical.
  done.
Qed.

(** * Missing capabilities *)
Lemma offer_spec supported available n :
  default 0 (foldl offer available supported !! n) =
  foldl N.max (default 0 (available !! n))
    (supported ≫= λ c, match c with
                        | Some c => if bool_decide (cap_Name c = n) then [cap_Version c] else []
                        | None => [] end).
Proof.
  revert available. induction supported as [|c l IH]; intros m; cbn; [done|].
  rewrite IH, foldl_app. f_equal. destruct c as [c|]; [|done]. cbn.
  destruct (bool_decide _) eqn:E; reflect_bool; cbn.
  - subst n. destruct (_ <? _) eqn:Ev; reflect_bool.
    + rewrite lookup_insert_eq. cbn. lia.
    + lia.
  - destruct (_ <? _); [|done]. by rewrite lookup_insert_ne.
Qed.

Lemma foldl_max_le v a l : v ≤ foldl N.max a l ↔ v ≤ a ∨ ∃ x, x ∈ l ∧ v ≤ x.
Proof.
  revert a. induction l as [|x l IH]; intros a; cbn.
  - split; [by left|]. intros [?|(x & []%elem_of_nil & _)]. done.
  - rewrite IH, exists_elem_cons. rewrite N.max_le_iff. tauto.
Qed.

Lemma available_spec supported n v :
  v ≤ default 0 (foldl offer ∅ supported !! n) ↔
  v = 0 ∨ ∃ c, Some c ∈ supported ∧ cap_Name c = n ∧ v ≤ cap_Version c.
Proof.
  rewrite offer_spec, foldl_max_le, lookup_empty. cbn. split.
  - intros [H|(x & Hx & Hv)]; [left; lia|right].
    apply list_elem_of_bind in Hx as ([c|] & Hx & Hc); [|by apply elem_of_nil in Hx].
    destruct (bool_decide _) eqn:E; [|by apply elem_of_nil in Hx]. reflect_bool.
    apply list_elem_of_singleton in Hx as ->. eauto.
  - intros [->|(c & Hc & Hn & Hv)]; [left; lia|right]. exists (cap_Version c). split; [|done].
    apply list_elem_of_bind. exists (Some c). split; [|done].
    rewrite bool_decide_eq_true_2 by done. left.
Qed.

Lemma MissingCapabilities_nil supported required :
  MissingCapabilities supported required = [] ↔
  ∀ c, c ∈ required → ∃ r, c = Some r ∧
    (cap_Version r = 0
     ∨ ∃ a, Some a ∈ supported ∧ cap_Name a = cap_Name r ∧ cap_Version r ≤ cap_Version a).
Proof.
  unfold MissingCapabilities.
  assert (∀ l, sort_slice str_lt l = [] ↔ l = []) as ->.
  { intros l. split; [|by intros ->]. intros H. apply Permutation_nil.
    by rewrite <- H, sort_slice_perm. }
  rewrite <- (Forall_forall _ required). setoid_rewrite <- available_spec.
  induction required as [|c l IH]; cbn -[available_spec]; [done|].
  rewrite app_nil_iff, Forall_cons, IH. apply and_iff_compat_r.
  destruct c as [c|]; cbn; [|naive_solver].
  destruct (_ <? _) eqn:E; reflect_bool; split; intros H; try done.
  - destruct H as (r & [= <-] & H). lia.
  - eauto.
Qed.

Lemma validate_capabilities_None l seen :
  validate_capabilities (Some <$> l) seen = None ↔
  Forall (λ c, validIdentifier (cap_Name c) = true ∧ cap_Version c ≠ 0) l
  ∧ NoDup (cap_Name <$> l) ∧ ∀ c, c ∈ l → cap_Name c ∉ seen.
Proof.
  revert seen. induction l as [|c l IH]; intros seen; cbn -[String.append].
  { split; [|done]. intros _. split_and!; [constructor..|]. by intros ? ?%elem_of_nil. }
  unfold ValidateIdentifier. rewrite Forall_cons, NoDup_cons.
  destruct (validIdentifier _); cbn -[String.append]; [|naive_solver].
  rewrite <- N.eqb_neq. destruct (_ =? 0); [naive_solver|].
  destruct (bool_decide _) eqn:Es; reflect_bool.
  { split; [done|]. intros (_ & _ & H). exfalso. apply (H c); [left|done]. }
  rewrite IH. split.
  - intros (H1 & H2 & H3). split_and!; [done..| |done|].
    + intros (d & Hk & Hd)%list_elem_of_fmap. apply (H3 _ Hd). set_solver.
    + intros d [->|Hd]%elem_of_cons; [done|]. specialize (H3 _ Hd). set_solver.
  - intros ((_ & H1) & (Hn & H2) & H3). split_and!; [done..|].
    intros d Hd. apply not_elem_of_union. split; [|apply H3; by right].
    intros Hk%elem_of_singleton. apply Hn. rewrite <- Hk. by apply list_elem_of_fmap_2.
Qed.

Lemma needed_version_pos s n : 1 ≤ needed_version s n ≤ 2.
Proof. unfold needed_version. destruct (_ && _); lia. Qed.

Definition needable : list string :=
  ["nft.direct"; "nft.via-exit"; "nft.static-snat"; "tc.rate-limit"; "usage.l3";
   "nft.directional-counters"; "policy.local-deadline"; "nft.drain"; "nft.force-delete";
   "fabric.policy-routing"; "fabric.mss-clamp"; "fabric.wireguard"; "fabric.direct-l3";
   "fabric.gre"; "health.tcp-connect"; "nft.protocol-block"].

Lemma needs_needable s n : needs s n → n ∈ needable.
Proof.
  destruct 1;
    repeat match goal with H : ?x ∈ [_; _] |- _ =>
      rewrite !elem_of_cons, elem_of_nil in H; destruct H as [->|[->|[]]] end;
    apply (bool_decide_unpack _); vm_compute; exact I.
Qed.

(** Whether an Agent advertises [n] at any version it can be needed at. *)
Definition advertised (n : string) : bool :=
  validIdentifier n
  && existsb (λ c, match c with
                   | Some c => bool_decide (cap_Name c = n)
                               && ((if bool_decide (n = "nft.direct") then 2 else 1) <=? cap_Version c)
                   | None => false end) DefaultCapabilities.

Lemma needs_default s n :
  needs s n →
  validIdentifier n = true
  ∧ ∃ c, Some c ∈ DefaultCapabilities ∧ cap_Name c = n ∧ needed_version s n ≤ cap_Version c.
Proof.
  intros Hn%needs_needable%list_elem_of_In.
  assert (forallb advertised needable = true) as H by (vm_compute; reflexivity).
  rewrite forallb_forall in H. specialize (H _ Hn). unfold advertised in H.
  apply andb_true_iff in H as [H1 H2]. split; [done|].
  apply existsb_exists in H2 as ([c|] & Hc & H2); [|done]. reflect_bool. exists c.
  split_and!; [by apply list_elem_of_In|done|].
  etrans; [|done]. unfold needed_version. destruct (bool_decide _); cbn [andb]; [|lia].
  destruct (_ <=? _); lia.
Qed.

(** * Properties *)

(** The required capabilities are exactly the features the state uses,
    each once, at the version its schema needs; the list is itself acceptable
    to [ValidateCapabilities], and it is the same for every listing of the
    state's elements. *)
Theorem RequiredCapabilities_exact s :
  (∀ c, c ∈ RequiredCapabilities s ↔
        needs s (cap_Name c) ∧ cap_Version c = needed_version s (cap_Name c))
  ∧ ValidateCapabilities (Some <$> RequiredCapabilities s) = None
  ∧ RequiredCapabilities (Canonical s) = RequiredCapabilities s.
Proof.
  split_and!.
  - apply elem_of_required.
  - apply validate_capabilities_None. split_and!.
    + apply Forall_forall. intros c [Hn Hv]%elem_of_required.
      split; [by eapply needs_default|]. rewrite Hv.
      pose proof (needed_version_pos s (cap_Name c)). lia.
    + apply required_names_NoDup.
    + intros ? _. apply not_elem_of_empty.
  - apply required_of_map, required_map_Canonical.
Qed.

(** Negotiation: nothing is missing exactly when every requirement is met
    by a supported capability of the name at that version or later; and an
    Agent of this version, with the capabilities it advertises, misses nothing
    for any desired state whatsoever. *)
Theorem MissingCapabilities_spec :
  (∀ supported required,
     MissingCapabilities supported required = [] ↔
     ∀ c, c ∈ required → ∃ r, c = Some r ∧
       (cap_Version r = 0
        ∨ ∃ a, Some a ∈ supported ∧ cap_Name a = cap_Name r ∧ cap_Version r ≤ cap_Version a))
  ∧ ∀ s, MissingCapabilities DefaultCapabilities (Some <$> RequiredCapabilities s) = [].
Proof.
  split; [exact MissingCapabilities_nil|]. intros s. apply MissingCapabilities_nil.
  intros c (r & -> & [Hn Hv]%elem_of_required)%list_elem_of_fmap. exists r. split; [done|].
  right. destruct (needs_default s _ Hn) as (_ & a & H1 & H2 & H3).
  exists a. rewrite Hv. done.
Qed.

Example RequiredCapabilities_sample :
  RequiredCapabilities sample_exit_state =
  [MkCapability "fabric.direct-l3" 1; MkCapability "fabric.mss-clamp" 1;
   MkCapability "fabric.policy-routing" 1; MkCapability "nft.drain" 1;
   MkCapability "nft.static-snat" 1; MkCapability "nft.via-exit" 1;
   MkCapability "policy.local-deadline" 1].
Proof. vm_compute. reflexivity. Qed.
