(* ===== verification/Iam.v ===== *)
(** Tenant policy, [internal/controller/iam/policy.go] and the account data of
    [types.go].

    Error values carry the parts of the message the code formats; a message
    that only quotes a value ([%q]) keeps the value instead of its quotation.
    [Policy.Validate] ranges over a two-entry map, whose order Go leaves open:
    [exit_first] is that choice, and no property depends on it. *)
From S2P Require Import Prelude.
From S2P Require Import GoNet.
From S2P Require Import SpecTypes.
From S2P Require Import SpecCanonical.
From S2P Require Import SpecValidate.
From S2P Require Import NetFacts.
From S2P Require Import SpecFacts.
From S2P Require Import SpecSamples.

Definition Role := string.
Definition RoleOwner : Role := "owner".
Definition RoleTenant : Role := "tenant".
Definition Status := string.
Definition StatusActive : Status := "active".
Definition StatusDisabled : Status := "disabled".

Inductive iam_error :=
  | ErrUnauthenticated
  | ErrForbidden (message : string)
  | ErrInvalid (message : string)
  | ErrDuplicate (name value : string)
  | ErrProtocolUnsupported (protocol : Protocol)
  | ErrProtocolDuplicated (protocol : Protocol).

Record Account := {
  ac_ID : string;
  ac_TenantID : string;
  ac_Username : string;
  ac_DisplayName : string;
  ac_Role : Role;
  ac_Status : Status;
  ac_PasswordHash : string;
  ac_FailedLoginCount : N;
  ac_LockedUntil : option Time;
  ac_ExpiresAt : option Time;
  ac_ResourceVersion : N;
  ac_LastLoginAt : option Time;
  ac_CreatedAt : Time;
  ac_UpdatedAt : Time;
}.

(** [Account.Available] *)
Definition Available (a : Account) (now : Time) : iam_error + unit :=
  if negb (bool_decide (ac_Status a = StatusActive)) then inl ErrUnauthenticated
  else if match ac_ExpiresAt a with Some e => negb (Time_Before now e) | None => false end
  then inl ErrUnauthenticated
  else if match ac_LockedUntil a with Some u => Time_Before now u | None => false end
  then inl ErrUnauthenticated
  else inr tt.

Record PortRange := MkPortRange { pr_Start : N; pr_End : N }.

Record Policy := {
  po_TenantID : string;
  po_AllowedIngressNodes : list string;
  po_AllowedExitNodes : list string;
  po_AllowedListenIPs : list string;
  po_AllowedPortRanges : list PortRange;
  po_AllowedProtocols : list Protocol;
  po_AllowViaExit : bool;
  po_MaxForwards : N;
  po_IngressRateLimitBPS : N;
  po_EgressRateLimitBPS : N;
  po_TrafficQuotaBytes : N;
  po_AllowedTargetCIDRs : list string;
  po_DeniedTargetCIDRs : list string;
  po_ResourceVersion : N;
  po_CreatedAt : Time;
  po_UpdatedAt : Time;
}.

Definition EmptyPolicy (tenantID : string) : Policy :=
  {| po_TenantID := tenantID; po_AllowedIngressNodes := []; po_AllowedExitNodes := [];
     po_AllowedListenIPs := []; po_AllowedPortRanges := []; po_AllowedProtocols := [];
     po_AllowViaExit := false; po_MaxForwards := 0; po_IngressRateLimitBPS := 0;
     po_EgressRateLimitBPS := 0; po_TrafficQuotaBytes := 0; po_AllowedTargetCIDRs := [];
     po_DeniedTargetCIDRs := []; po_ResourceVersion := 1; po_CreatedAt := 0%Z;
     po_UpdatedAt := 0%Z |}.

(** [mustPrefixes] panics on a string that is not a prefix; the example below
    shows that these are. *)
Definition mustPrefixes (values : list string) : option (list Prefix) := mapM ParsePrefix values.
Definition protectedTargetCIDRs : list Prefix :=
  default []
    (mustPrefixes ["0.0.0.0/8"; "127.0.0.0/8"; "169.254.0.0/16"; "224.0.0.0/4"; "240.0.0.0/4"]).

Example protectedTargetCIDRs_parse :
  map Prefix_String protectedTargetCIDRs
  = ["0.0.0.0/8"; "127.0.0.0/8"; "169.254.0.0/16"; "224.0.0.0/4"; "240.0.0.0/4"].
Proof. vm_compute. reflexivity. Qed.

Definition violation (message : string) : iam_error := ErrForbidden message.

(** * Parsing the lists of a policy *)
Definition check_identifier (name : string) (index : nat) (value : string) : iam_error + string :=
  match ValidateIdentifier (at_index name index) value with
  | Some e => inl (ErrInvalid e)
  | None => inr value
  end.

Definition validateIdentifiers (name : string) (values : list string) : iam_error + unit :=
  match eloop (distinct (check_identifier name) (λ value _, ErrDuplicate name value)) 0 values (∅, []) with
  | inl e => inl e
  | inr _ => inr tt
  end.

Definition check_listen (index : nat) (value : string) : iam_error + Addr :=
  let unusable := ErrInvalid (at_index "allowed_listen_ips" index +:+ " is not a usable IPv4 address") in
  match ParseAddr value with
  | None => inl unusable
  | Some address =>
      if negb (Addr_Is4 address) || Addr_IsUnspecified address || Addr_IsMulticast address
      then inl unusable else inr address
  end.

Definition validateListenIPs (values : list string) : iam_error + unit :=
  match eloop (distinct check_listen (λ value _, ErrDuplicate "allowed_listen_ips" value))
          0 values (∅, []) with
  | inl e => inl e
  | inr _ => inr tt
  end.

Definition check_range (index : nat) (portRange : PortRange) (_ : unit) : iam_error + unit :=
  if (pr_Start portRange =? 0) || (pr_End portRange =? 0) || (pr_End portRange <? pr_Start portRange)
  then inl (ErrInvalid (at_index "allowed_port_ranges" index +:+ " is invalid")) else inr tt.

Definition check_protocol (_ : nat) (protocol : Protocol) : iam_error + Protocol :=
  if negb (bool_decide (protocol = ProtocolTCP)) && negb (bool_decide (protocol = ProtocolUDP))
  then inl (ErrProtocolUnsupported protocol) else inr protocol.

Definition validateProtocols (values : list Protocol) : iam_error + unit :=
  match eloop (distinct check_protocol (λ _ protocol, ErrProtocolDuplicated protocol))
          0 values (∅, []) with
  | inl e => inl e
  | inr _ => inr tt
  end.

(** A prefix as the set of prefixes seen stores it. *)
Definition prefix_key (p : Prefix) : Addr * Z := (p_addr p, p_bits p).
#[export] Instance Prefix_countable : Countable Prefix.
Proof.
  refine (inj_countable' prefix_key (λ k, MkPrefix k.1 k.2) _). by intros [].
Defined.

Definition check_prefix (name : string) (index : nat) (value : string) : iam_error + Prefix :=
  let bad := ErrInvalid (at_index name index +:+ " is not an IPv4 CIDR") in
  match ParsePrefix value with
  | None => inl bad
  | Some prefix => if negb (Addr_Is4 (p_addr prefix)) then inl bad else inr (Prefix_Masked prefix)
  end.

Definition parsePrefixes (name : string) (values : list string) : iam_error + list Prefix :=
  match eloop (distinct (check_prefix name) (λ _ prefix, ErrDuplicate name (Prefix_String prefix)))
          0 values (∅, []) with
  | inl e => inl e
  | inr (_, prefixes) => inr prefixes
  end.

(** * [Policy.Validate] *)
Definition MaxInt64 : N := 2 ^ 63 - 1.

(** Sequencing of checks: [if err := ...; err != nil { return err }]. *)
Definition andThen {A B} (r : iam_error + A) (k : A → iam_error + B) : iam_error + B :=
  match r with inl e => inl e | inr a => k a end.
Notation "r ;;; k" := (andThen r (λ _, k)) (at level 60, right associativity) : flux_scope.
Definition guard_err (bad : bool) (e : iam_error) : iam_error + unit :=
  if bad then inl e else inr tt.

Definition Validate (exit_first : bool) (p : Policy) : iam_error + unit :=
  let ingress := validateIdentifiers "allowed_ingress_nodes" (po_AllowedIngressNodes p) in
  let exit := validateIdentifiers "allowed_exit_nodes" (po_AllowedExitNodes p) in
  (match ValidateIdentifier "tenant_id" (po_TenantID p) with
   | Some e => inl (ErrInvalid e) | None => inr tt end) ;;;
  guard_err (po_ResourceVersion p =? 0)
    (ErrInvalid "policy resource_version must be greater than zero") ;;;
  guard_err (1000000 <? po_MaxForwards p)
    (ErrInvalid "max_forwards exceeds the supported limit") ;;;
  guard_err ((MaxInt64 <? po_IngressRateLimitBPS p) || (MaxInt64 <? po_EgressRateLimitBPS p)
             || (MaxInt64 <? po_TrafficQuotaBytes p))
    (ErrInvalid "policy numeric limit exceeds SQLite integer range") ;;;
  (if exit_first then exit ;;; ingress else ingress ;;; exit) ;;;
  validateListenIPs (po_AllowedListenIPs p) ;;;
  eloop check_range 0 (po_AllowedPortRanges p) tt ;;;
  validateProtocols (po_AllowedProtocols p) ;;;
  parsePrefixes "allowed_target_cidrs" (po_AllowedTargetCIDRs p) ;;;
  parsePrefixes "denied_target_cidrs" (po_DeniedTargetCIDRs p) ;;;
  inr tt.

(** * Authorization *)
Definition contains (values : list string) (candidate : string) : bool :=
  existsb (λ value, bool_decide (value = candidate)) values.

Definition protocolAllowed (allowed : list Protocol) (candidate : Protocol) : bool :=
  existsb (λ protocol, bool_decide (protocol = candidate)) allowed.

Definition portAllowed (ranges : list PortRange) (port : N) : bool :=
  if port =? 0 then false
  else existsb (λ r, (pr_Start r <=? port) && (port <=? pr_End r)) ranges.

(** [prefixes, _ := parsePrefixes(...)]: no prefixes on an error. *)
Definition parsed (name : string) (values : list string) : list Prefix :=
  match parsePrefixes name values with inr l => l | inl _ => [] end.

Definition AuthorizeTarget (p : Policy) (address : Addr) : iam_error + unit :=
  let inside prefixes := existsb (λ prefix, Prefix_Contains prefix address) prefixes in
  if negb (Addr_Is4 address) then inl (violation "only IPv4 targets are supported")
  else if inside protectedTargetCIDRs
  then inl (violation "target is in a protected system network")
  else if inside (parsed "denied_target_cidrs" (po_DeniedTargetCIDRs p))
  then inl (violation "target is explicitly denied by the tenant policy")
  else if inside (parsed "allowed_target_cidrs" (po_AllowedTargetCIDRs p))
  then inr tt
  else inl (violation "target is outside the assigned target networks").

Definition authorize_path (p : Policy) (forward : ForwardSpec) : iam_error + unit :=
  if bool_decide (fw_PathMode forward = PathViaExit) then
    guard_err (negb (po_AllowViaExit p)) (violation "cross-node forwarding is not allowed") ;;;
    guard_err (bool_decide (fw_ExitNodeID forward = "")
               || negb (contains (po_AllowedExitNodes p) (fw_ExitNodeID forward)))
      (violation "exit node is not assigned to this tenant")
  else guard_err (negb (bool_decide (fw_PathMode forward = PathDirect)))
         (violation "forward path mode is unsupported").

Definition authorize_limits (p : Policy) (forward : ForwardSpec) : iam_error + unit :=
  (match fw_RateLimit forward with
   | None => inr tt
   | Some limit =>
       guard_err ((0 <? po_IngressRateLimitBPS p)
                  && (po_IngressRateLimitBPS p <? rl_IngressBitsPerSecond limit))
         (violation "upload rate exceeds the tenant policy") ;;;
       guard_err ((0 <? po_EgressRateLimitBPS p)
                  && (po_EgressRateLimitBPS p <? rl_EgressBitsPerSecond limit))
         (violation "download rate exceeds the tenant policy")
   end) ;;;
  match fw_TrafficQuota forward with
  | None => inr tt
  | Some quota =>
      guard_err ((0 <? po_TrafficQuotaBytes p) && (po_TrafficQuotaBytes p <? tq_Bytes quota))
        (violation "traffic quota exceeds the tenant policy")
  end.

Definition authorize_expiry (forward : ForwardSpec) (tenantExpiresAt : option Time) (now : Time) :
    iam_error + unit :=
  guard_err (match fw_ExpiresAt forward with Some e => negb (Time_Before now e) | None => false end)
    (violation "forward expiry must be in the future") ;;;
  match tenantExpiresAt with
  | None => inr tt
  | Some t =>
      guard_err (negb (Time_Before now t)) (violation "tenant has expired") ;;;
      guard_err (match fw_ExpiresAt forward with Some e => Time_After e t | None => true end)
        (violation "forward expiry must not exceed tenant expiry")
  end.

Definition AuthorizeForward (exit_first : bool) (p : Policy) (forward : ForwardSpec)
    (currentForwardCount : N) (tenantExpiresAt : option Time) (now : Time) : iam_error + unit :=
  Validate exit_first p ;;;
  guard_err (negb (bool_decide (fw_UserID forward = po_TenantID p)))
    (violation "forward does not belong to the authenticated tenant") ;;;
  guard_err ((po_MaxForwards p =? 0) || (po_MaxForwards p <=? currentForwardCount))
    (violation "forward limit has been reached") ;;;
  guard_err (negb (contains (po_AllowedIngressNodes p) (fw_IngressNodeID forward)))
    (violation "ingress node is not assigned to this tenant") ;;;
  authorize_path p forward ;;;
  guard_err (negb (Addr_Is4 (ep_Address (fw_Listen forward)))
             || negb (contains (po_AllowedListenIPs p) (Addr_String (ep_Address (fw_Listen forward)))))
    (violation "listen IP is not assigned to this tenant") ;;;
  guard_err (negb (portAllowed (po_AllowedPortRanges p) (ep_Port (fw_Listen forward))))
    (violation "listen port is outside the assigned ranges") ;;;
  guard_err (length (fw_Protocols forward) =? 0)%nat
    (violation "at least one protocol is required") ;;;
  guard_err (existsb (λ protocol, negb (protocolAllowed (po_AllowedProtocols p) protocol))
               (fw_Protocols forward))
    (violation "protocol is not assigned to this tenant") ;;;
  AuthorizeTarget p (ep_Address (fw_Target forward)) ;;;
  authorize_limits p forward ;;;
  authorize_expiry forward tenantExpiresAt now.

(** * The limits handed to the data plane *)
Definition burst_of (maximumRate : N) : N :=
  let burst := maximumRate / 80 + (if maximumRate mod 80 =? 0 then 0 else 1) in
  if burst <? 65536 then 65536 else burst.

Definition DataPlanePolicy (exit_first : bool) (p : Policy) : iam_error + option UserPolicySpec :=
  Validate exit_first p ;;;
  let ingress := po_IngressRateLimitBPS p in
  let egress := po_EgressRateLimitBPS p in
  let rateLimit :=
    if (0 <? ingress) || (0 <? egress)
    then Some (MkRateLimitSpec ingress egress (burst_of (if ingress <? egress then egress else ingress)))
    else None in
  let trafficQuota :=
    if 0 <? po_TrafficQuotaBytes p
    then Some (MkTrafficQuotaSpec (po_TrafficQuotaBytes p) QuotaPolicyPause) else None in
  inr (if bool_decide (rateLimit = None) && bool_decide (trafficQuota = None) then None
       else Some (MkUserPolicySpec (po_TenantID p) 0 rateLimit trafficQuota (po_ResourceVersion p))).

(** * Canonical policies *)
Definition uniqueSorted (values : list string) : list string :=
  foldl (λ written value, if bool_decide (last written = Some value) then written
                          else written ++ [value])
    [] (sort_slice str_lt values).

Definition canonicalCIDRs (values : list string) : list string :=
  match parsePrefixes "cidrs" values with
  | inl _ => values
  | inr prefixes => sort_slice str_lt (map Prefix_String prefixes)
  end.

Definition less_range (a b : PortRange) : bool :=
  if pr_Start a =? pr_Start b then pr_End a <? pr_End b else pr_Start a <? pr_Start b.

Definition CanonicalizePolicy (p : Policy) : Policy :=
  {| po_TenantID := po_TenantID p;
     po_AllowedIngressNodes := uniqueSorted (po_AllowedIngressNodes p);
     po_AllowedExitNodes := uniqueSorted (po_AllowedExitNodes p);
     po_AllowedListenIPs := uniqueSorted (po_AllowedListenIPs p);
     po_AllowedPortRanges := sort_slice less_range (po_AllowedPortRanges p);
     po_AllowedProtocols := sort_slice str_lt (po_AllowedProtocols p);
     po_AllowViaExit := po_AllowViaExit p;
     po_MaxForwards := po_MaxForwards p;
     po_IngressRateLimitBPS := po_IngressRateLimitBPS p;
     po_EgressRateLimitBPS := po_EgressRateLimitBPS p;
     po_TrafficQuotaBytes := po_TrafficQuotaBytes p;
     po_AllowedTargetCIDRs := canonicalCIDRs (po_AllowedTargetCIDRs p);
     po_DeniedTargetCIDRs := canonicalCIDRs (po_DeniedTargetCIDRs p);
     po_ResourceVersion := po_ResourceVersion p;
     po_CreatedAt := po_CreatedAt p;
     po_UpdatedAt := po_UpdatedAt p |}.

Definition ProtectedTargetCIDRs : list string := map Prefix_String protectedTargetCIDRs.

(** * What an accepted policy is *)
Lemma andThen_ok {A B} (r : iam_error + A) (k : A → iam_error + B) b :
  andThen r k = inr b ↔ ∃ a, r = inr a ∧ k a = inr b.
Proof. destruct r; cbn; naive_solver. Qed.

Lemma seq_ok {A B} (r : iam_error + A) (k : iam_error + B) b :
  (r ;;; k) = inr b ↔ (∃ a, r = inr a) ∧ k = inr b.
Proof. rewrite andThen_ok. naive_solver. Qed.

Lemma guard_ok bad e : (∃ a, guard_err bad e = inr a) ↔ bad = false.
Proof. destruct bad; cbn; naive_solver. Qed.

Lemma guard_ok_tt bad e a : guard_err bad e = inr a ↔ bad = false.
Proof. destruct bad, a; cbn; naive_solver. Qed.

Definition usable_listen (value : string) : option Addr :=
  a ← ParseAddr value;
  if negb (Addr_Is4 a) || Addr_IsUnspecified a || Addr_IsMulticast a then None else Some a.

Definition cidr (value : string) : option Prefix :=
  q ← ParsePrefix value; if Addr_Is4 (p_addr q) then Some (Prefix_Masked q) else None.

(** A list whose elements all have a meaning, and no two the same one. *)
Definition distinctly {A} (ok : string → option A) (values : list string) : Prop :=
  ∃ ks, mapM ok values = Some ks ∧ NoDup ks.

Definition identifier (value : string) : option string :=
  if validIdentifier value then Some value else None.
Definition known_protocol (value : string) : option string :=
  if bool_decide (value ∈ [ProtocolTCP; ProtocolUDP]) then Some value else None.

Definition range_ok (r : PortRange) : Prop := 1 ≤ pr_Start r ∧ pr_Start r ≤ pr_End r.

Record policy_valid (p : Policy) : Prop := {
  pv_tenant : validIdentifier (po_TenantID p) = true;
  pv_version : po_ResourceVersion p ≠ 0;
  pv_forwards : po_MaxForwards p ≤ 1000000;
  pv_ingress_rate : po_IngressRateLimitBPS p ≤ MaxInt64;
  pv_egress_rate : po_EgressRateLimitBPS p ≤ MaxInt64;
  pv_quota : po_TrafficQuotaBytes p ≤ MaxInt64;
  pv_ingress : distinctly identifier (po_AllowedIngressNodes p);
  pv_exit : distinctly identifier (po_AllowedExitNodes p);
  pv_listen : distinctly usable_listen (po_AllowedListenIPs p);
  pv_ranges : Forall range_ok (po_AllowedPortRanges p);
  pv_protocols : distinctly known_protocol (po_AllowedProtocols p);
  pv_allowed : distinctly cidr (po_AllowedTargetCIDRs p);
  pv_denied : distinctly cidr (po_DeniedTargetCIDRs p);
}.

Lemma distinct_distinctly {K} `{Countable K} (check : nat → string → iam_error + K) dup ok values :
  (∀ i x k, check i x = inr k ↔ ok x = Some k) →
  (∃ st, eloop (distinct check dup) 0 values (∅, []) = inr st) ↔ distinctly ok values.
Proof.
  intros Hok. split.
  - intros [[seen out] (ks & ? & ? & _)%(distinct_loop check dup ok)]; [|done]. by exists ks.
  - intros (ks & Hm & Hnd). exists (list_to_set ks ∪ ∅, [] ++ ks).
    apply (distinct_loop check dup ok); [done|]. exists ks. split_and!; set_solver.
Qed.

Lemma unit_result {A} (r : iam_error + A) u :
  match r with inl e => inl e | inr _ => inr tt end = @inr iam_error unit u ↔ ∃ a, r = inr a.
Proof. destruct r, u; naive_solver. Qed.

Lemma validateIdentifiers_ok name values u :
  validateIdentifiers name values = inr u ↔ distinctly identifier values.
Proof.
  unfold validateIdentifiers. rewrite unit_result. apply distinct_distinctly.
  intros i x k. unfold check_identifier, ValidateIdentifier, identifier.
  destruct (validIdentifier x); cbn; naive_solver.
Qed.

Lemma validateListenIPs_ok values u :
  validateListenIPs values = inr u ↔ distinctly usable_listen values.
Proof.
  unfold validateListenIPs. rewrite unit_result. apply distinct_distinctly.
  intros i x k. unfold check_listen, usable_listen.
  destruct (ParseAddr x) as [a|]; cbn; [|naive_solver]. destruct (_ || _); naive_solver.
Qed.

Lemma validateProtocols_ok values u :
  validateProtocols values = inr u ↔ distinctly known_protocol values.
Proof.
  unfold validateProtocols. rewrite unit_result. apply distinct_distinctly.
  intros i x k. unfold check_protocol, known_protocol.
  rewrite (bool_decide_ext (x ∈ [ProtocolTCP; ProtocolUDP]) (x = ProtocolTCP ∨ x = ProtocolUDP))
    by (rewrite !elem_of_cons, elem_of_nil; tauto).
  rewrite bool_decide_or, <-negb_orb. destruct (_ || _); cbn; naive_solver.
Qed.

Lemma check_prefix_ok name i x k : check_prefix name i x = inr k ↔ cidr x = Some k.
Proof.
  unfold check_prefix, cidr. destruct (ParsePrefix x) as [q|]; cbn; [|naive_solver].
  destruct (Addr_Is4 _); cbn; naive_solver.
Qed.

Lemma parsePrefixes_spec name values ks :
  parsePrefixes name values = inr ks ↔ mapM cidr values = Some ks ∧ NoDup ks.
Proof.
  unfold parsePrefixes. destruct (eloop _ _ _ _) as [e|[seen out]] eqn:E.
  - split; [done|]. intros (Hm & Hnd). exfalso.
    destruct (distinct_distinctly (check_prefix name)
      (λ _ prefix, ErrDuplicate name (Prefix_String prefix)) cidr values) as [_ H].
    { apply check_prefix_ok. }
    destruct H as [st Hst]; [by exists ks|congruence].
  - apply (distinct_loop _ _ cidr) in E as (ks' & Hm & Hnd & _ & -> & _); [|apply check_prefix_ok].
    rewrite Hm. naive_solver.
Qed.

Lemma parsePrefixes_ok name values :
  (∃ ks, parsePrefixes name values = inr ks) ↔ distinctly cidr values.
Proof. unfold distinctly. by setoid_rewrite parsePrefixes_spec. Qed.

Lemma parsed_spec name values :
  distinctly cidr values → mapM cidr values = Some (parsed name values).
Proof.
  intros (ks & Hm & Hnd). unfold parsed.
  by rewrite (proj2 (parsePrefixes_spec name values ks)).
Qed.

Lemma check_ranges_ok i ranges u :
  eloop check_range i ranges tt = inr u ↔ Forall range_ok ranges.
Proof.
  revert i. induction ranges as [|r l IH]; intros i; cbn.
  { destruct u. split; [constructor|done]. }
  rewrite Forall_cons. unfold check_range at 1, range_ok at 1.
  destruct (_ || _) eqn:E.
  - split; [done|]. intros [[H1 H2] _]. exfalso.
    rewrite !orb_true_iff, !N.eqb_eq, N.ltb_lt in E. lia.
  - rewrite IH. reflect_bool. split; [|tauto]. intros ?. split; [lia|done].
Qed.

(** The map iteration order of [Validate] decides which error is reported, not
    whether there is one. *)
Lemma Validate_ok exit_first p u : Validate exit_first p = inr u ↔ policy_valid p.
Proof.
  assert ((∃ a, (if exit_first
     then validateIdentifiers "allowed_exit_nodes" (po_AllowedExitNodes p) ;;;
          validateIdentifiers "allowed_ingress_nodes" (po_AllowedIngressNodes p)
     else validateIdentifiers "allowed_ingress_nodes" (po_AllowedIngressNodes p) ;;;
          validateIdentifiers "allowed_exit_nodes" (po_AllowedExitNodes p)) = inr a)
    ↔ distinctly identifier (po_AllowedIngressNodes p)
      ∧ distinctly identifier (po_AllowedExitNodes p)) as Hids.
  { destruct exit_first; setoid_rewrite seq_ok; setoid_rewrite validateIdentifiers_ok;
      naive_solver (constructor). }
  unfold Validate. repeat rewrite seq_ok. rewrite Hids, !guard_ok.
  setoid_rewrite validateListenIPs_ok. setoid_rewrite check_ranges_ok.
  setoid_rewrite validateProtocols_ok. rewrite !parsePrefixes_ok.
  unfold ValidateIdentifier. rewrite !orb_false_iff, N.eqb_neq, !N.ltb_ge. split.
  - intros (Ht & ? & ? & (? & ?) & (? & ?) & ? & ? & ? & ? & ? & ?).
    destruct (validIdentifier (po_TenantID p)) eqn:E; cbn in Ht; [|naive_solver].
    split; naive_solver.
  - intros []. rewrite pv_tenant0. destruct u. cbn. naive_solver.
Qed.

(** * What an authorized forward is *)

(** The networks no tenant may reach, as bounds on the 32-bit address: this
    host's and loopback, link-local, multicast and reserved. *)
Definition protected_address (b : N) : Prop :=
  b / 2 ^ 24 = 0 ∨ b / 2 ^ 24 = 127 ∨ b / 2 ^ 16 = 169 * 256 + 254
  ∨ b / 2 ^ 28 = 14 ∨ b / 2 ^ 28 = 15.

Definition in_cidrs (values : list string) (a : Addr) : Prop :=
  ∃ value q, value ∈ values ∧ cidr value = Some q ∧ Prefix_Contains q a = true.

Definition target_permitted (p : Policy) (a : Addr) : Prop :=
  (∃ b, a = Addr4 b ∧ ¬ protected_address b)
  ∧ in_cidrs (po_AllowedTargetCIDRs p) a ∧ ¬ in_cidrs (po_DeniedTargetCIDRs p) a.

(** A limit of the policy, 0 meaning none, bounds the value asked for. *)
Definition within_limit (limit value : N) : Prop := limit = 0 ∨ value ≤ limit.

Record permits (p : Policy) (f : ForwardSpec) (count : N) (tenantExpiry : option Time) (now : Time) :
    Prop := {
  pm_tenant : fw_UserID f = po_TenantID p;
  pm_count : count < po_MaxForwards p;
  pm_ingress : fw_IngressNodeID f ∈ po_AllowedIngressNodes p;
  pm_path : fw_PathMode f = PathDirect
            ∨ (fw_PathMode f = PathViaExit ∧ po_AllowViaExit p = true
               ∧ fw_ExitNodeID f ∈ po_AllowedExitNodes p);
  pm_listen : Addr_Is4 (ep_Address (fw_Listen f)) = true
              ∧ Addr_String (ep_Address (fw_Listen f)) ∈ po_AllowedListenIPs p;
  pm_port : ∃ r, r ∈ po_AllowedPortRanges p
                 ∧ pr_Start r ≤ ep_Port (fw_Listen f) ≤ pr_End r;
  pm_protocols : fw_Protocols f ≠ []
                 ∧ ∀ protocol, protocol ∈ fw_Protocols f → protocol ∈ po_AllowedProtocols p;
  pm_target : target_permitted p (ep_Address (fw_Target f));
  pm_rate : ∀ limit, fw_RateLimit f = Some limit →
      within_limit (po_IngressRateLimitBPS p) (rl_IngressBitsPerSecond limit)
      ∧ within_limit (po_EgressRateLimitBPS p) (rl_EgressBitsPerSecond limit);
  pm_quota : ∀ quota, fw_TrafficQuota f = Some quota →
      within_limit (po_TrafficQuotaBytes p) (tq_Bytes quota);
  pm_future : ∀ t, fw_ExpiresAt f = Some t → (now < t)%Z;
  pm_expiry : ∀ t, tenantExpiry = Some t →
      (now < t)%Z ∧ ∃ e, fw_ExpiresAt f = Some e ∧ (e ≤ t)%Z;
}.

Lemma contains_spec values x : contains values x = true ↔ x ∈ values.
Proof.
  unfold contains. rewrite existsb_exists. setoid_rewrite bool_decide_eq_true.
  split; [by intros (? & ?%list_elem_of_In & <-)|].
  intros H. exists x. split; [by apply list_elem_of_In|done].
Qed.

Lemma in_cidrs_spec name values a :
  distinctly cidr values →
  existsb (λ prefix, Prefix_Contains prefix a) (parsed name values) = true ↔ in_cidrs values a.
Proof.
  intros Hd%(parsed_spec name). apply mapM_Some_1 in Hd. rewrite existsb_exists. split.
  - intros (q & Hq%list_elem_of_In & Hc).
    apply list_elem_of_lookup in Hq as [i Hi].
    destruct (Forall2_lookup_r _ _ _ _ _ Hd Hi) as (v & Hv & Hp).
    exists v, q. split_and!; [|done..]. by eapply list_elem_of_lookup_2.
  - intros (v & q & [i Hi]%list_elem_of_lookup & Hp & Hc).
    destruct (Forall2_lookup_l _ _ _ _ _ Hd Hi) as (q' & Hq & Hp').
    exists q. split; [|done]. apply list_elem_of_In. replace q with q' by congruence.
    by eapply list_elem_of_lookup_2.
Qed.

Lemma shiftl_inj a b k : N.shiftl a k = N.shiftl b k ↔ a = b.
Proof.
  rewrite !N.shiftl_mul_pow2. split; [|by intros ->].
  intros H. apply N.mul_cancel_r in H; [done|]. apply N.pow_nonzero. lia.
Qed.

Lemma protected_spec b :
  existsb (λ prefix, Prefix_Contains prefix (Addr4 b)) protectedTargetCIDRs = true
  ↔ protected_address b.
Proof.
  replace protectedTargetCIDRs with
    [MkPrefix (Addr4 0) 8; MkPrefix (Addr4 (127 * 2 ^ 24)) 8;
     MkPrefix (Addr4 ((169 * 256 + 254) * 2 ^ 16)) 16; MkPrefix (Addr4 (14 * 2 ^ 28)) 4;
     MkPrefix (Addr4 (15 * 2 ^ 28)) 4] by (vm_compute; reflexivity).
  unfold protected_address, Prefix_Contains, Prefix_IsValid, mask_bits.
  cbn [existsb p_addr p_bits]. rewrite !orb_true_iff.
  change (Z.to_N 8) with 8; change (Z.to_N 16) with 16; change (Z.to_N 4) with 4.
  cbn -[N.shiftl N.shiftr N.div N.eqb].
  rewrite !N.eqb_eq, !shiftl_inj, !N.shiftr_div_pow2.
  change (32 - 8) with 24; change (32 - 16) with 16; change (32 - 4) with 28.
  change (0 / 2 ^ 24) with 0; change (127 * 2 ^ 24 / 2 ^ 24) with 127;
    change ((169 * 256 + 254) * 2 ^ 16 / 2 ^ 16) with (169 * 256 + 254);
    change (14 * 2 ^ 28 / 2 ^ 28) with 14; change (15 * 2 ^ 28 / 2 ^ 28) with 15.
  clear. intuition congruence.
Qed.

Lemma AuthorizeTarget_ok p a u :
  policy_valid p → AuthorizeTarget p a = inr u ↔ target_permitted p a.
Proof.
  intros Hp. unfold AuthorizeTarget, target_permitted.
  destruct (Addr_Is4 a) eqn:E4; cbn [negb].
  2: { split; [done|]. intros [(b & -> & _) _]. done. }
  destruct a as [|b|]; [done| |done]. clear E4.
  rewrite <-(in_cidrs_spec "allowed_target_cidrs") by apply Hp.
  rewrite <-(in_cidrs_spec "denied_target_cidrs") by apply Hp.
  pose proof (protected_spec b) as Hb.
  destruct (existsb _ protectedTargetCIDRs).
  { split; [done|]. intros [(b' & [= <-] & Hn) _]. tauto. }
  destruct (existsb _ (parsed "denied_target_cidrs" _)); [naive_solver|].
  destruct (existsb _ (parsed "allowed_target_cidrs" _)); destruct u; naive_solver.
Qed.

Lemma authorize_path_ok p f u :
  policy_valid p →
  authorize_path p f = inr u ↔
  (fw_PathMode f = PathDirect
   ∨ (fw_PathMode f = PathViaExit ∧ po_AllowViaExit p = true
      ∧ fw_ExitNodeID f ∈ po_AllowedExitNodes p)).
Proof.
  intros Hp. unfold authorize_path. destruct (bool_decide _) eqn:E; reflect_bool.
  - rewrite E, seq_ok, guard_ok, guard_ok_tt, orb_false_iff, negb_false_iff, negb_false_iff,
      contains_spec, bool_decide_eq_false.
    split; [by right; tauto|]. intros [H|(_ & H1 & H2)]; [done|]. split_and!; [done| |done].
    intros He. rewrite He in H2.
    destruct (pv_exit _ Hp) as (ks & Hm & _). apply mapM_Some_1 in Hm.
    apply list_elem_of_lookup in H2 as [i Hi].
    destruct (Forall2_lookup_l _ _ _ _ _ Hm Hi) as (? & _ & ?). done.
  - rewrite guard_ok_tt, negb_false_iff, bool_decide_eq_true. naive_solver.
Qed.

Lemma over_limit_ok limit value :
  (0 <? limit) && (limit <? value) = false ↔ within_limit limit value.
Proof. unfold within_limit. rewrite andb_false_iff, !N.ltb_ge. lia. Qed.

Lemma authorize_limits_ok p f u :
  authorize_limits p f = inr u ↔
  (∀ limit, fw_RateLimit f = Some limit →
      within_limit (po_IngressRateLimitBPS p) (rl_IngressBitsPerSecond limit)
      ∧ within_limit (po_EgressRateLimitBPS p) (rl_EgressBitsPerSecond limit))
  ∧ (∀ quota, fw_TrafficQuota f = Some quota →
      within_limit (po_TrafficQuotaBytes p) (tq_Bytes quota)).
Proof.
  unfold authorize_limits. rewrite seq_ok. destruct u.
  destruct (fw_RateLimit f) as [l|], (fw_TrafficQuota f) as [q|];
    repeat setoid_rewrite seq_ok; repeat setoid_rewrite guard_ok;
    repeat setoid_rewrite guard_ok_tt; repeat setoid_rewrite over_limit_ok; naive_solver.
Qed.

Lemma authorize_expiry_ok f texp now u :
  authorize_expiry f texp now = inr u ↔
  (∀ t, fw_ExpiresAt f = Some t → (now < t)%Z)
  ∧ (∀ t, texp = Some t → (now < t)%Z ∧ ∃ e, fw_ExpiresAt f = Some e ∧ (e ≤ t)%Z).
Proof.
  unfold authorize_expiry, Time_Before, Time_After. rewrite seq_ok, guard_ok. destruct u.
  destruct (fw_ExpiresAt f) as [e|], texp as [t|];
    repeat setoid_rewrite seq_ok; rewrite ?guard_ok, ?guard_ok_tt, ?negb_false_iff,
      ?Z.ltb_lt, ?Z.ltb_ge; naive_solver.
Qed.

Lemma portAllowed_spec ranges port :
  Forall range_ok ranges →
  portAllowed ranges port = true ↔ ∃ r, r ∈ ranges ∧ pr_Start r ≤ port ≤ pr_End r.
Proof.
  intros Hr. rewrite Forall_forall in Hr. unfold portAllowed.
  destruct (port =? 0) eqn:E; reflect_bool.
  - split; [done|]. intros (r & Hin & H). specialize (Hr r Hin) as [? _]. lia.
  - rewrite existsb_exists. setoid_rewrite andb_true_iff. setoid_rewrite N.leb_le.
    setoid_rewrite <-list_elem_of_In. done.
Qed.

Lemma protocols_allowed_spec allowed protocols :
  existsb (λ protocol, negb (protocolAllowed allowed protocol)) protocols = false ↔
  ∀ protocol, protocol ∈ protocols → protocol ∈ allowed.
Proof.
  induction protocols as [|x l IH]; cbn.
  - split; [|done]. by intros _ ? ?%elem_of_nil.
  - rewrite orb_false_iff, IH, negb_false_iff.
    change (protocolAllowed allowed x) with (contains allowed x). rewrite contains_spec.
    setoid_rewrite elem_of_cons. naive_solver.
Qed.

(** * The decision *)
Lemma AuthorizeForward_iff exit_first p f count tenantExpiry now :
  AuthorizeForward exit_first p f count tenantExpiry now = inr tt ↔
  policy_valid p ∧ permits p f count tenantExpiry now.
Proof.
  unfold AuthorizeForward. rewrite seq_ok. setoid_rewrite Validate_ok.
  split.
  - intros [[_ Hp] H]. split; [done|]. repeat rewrite seq_ok in H.
    rewrite !guard_ok, !orb_false_iff, !negb_false_iff, bool_decide_eq_true, N.leb_gt,
      !contains_spec, portAllowed_spec, protocols_allowed_spec in H by apply Hp.
    setoid_rewrite authorize_path_ok in H; [|done]. setoid_rewrite AuthorizeTarget_ok in H; [|done].
    setoid_rewrite authorize_limits_ok in H. setoid_rewrite authorize_expiry_ok in H.
    destruct H as (H1 & [_ H2] & H3 & [_ H4] & H5 & H6 & H7 & H8 & [_ H9] & [_ [H10 H11]] & H12 & H13).
    split; try done. split; [|done]. intros Hn. by rewrite Hn in H7.
  - intros [Hp []]. split; [by exists tt|]. repeat rewrite seq_ok.
    rewrite !guard_ok, !orb_false_iff, !negb_false_iff, bool_decide_eq_true, N.leb_gt,
      !contains_spec, portAllowed_spec, protocols_allowed_spec by apply Hp.
    setoid_rewrite authorize_path_ok; [|done]. setoid_rewrite AuthorizeTarget_ok; [|done].
    setoid_rewrite authorize_limits_ok. setoid_rewrite authorize_expiry_ok.
    split_and!; try done; try (by exists tt).
    + apply N.eqb_neq. lia.
    + by destruct pm_listen0.
    + by destruct pm_listen0.
    + destruct pm_protocols0 as [Hne _]. by destruct (fw_Protocols f).
    + by destruct pm_protocols0.
Qed.

(** * Canonicalisation *)
Lemma distinctly_alt {A} (ok : string → option A) values :
  distinctly ok values ↔ (∀ v, v ∈ values → is_Some (ok v)) ∧ NoDup (ok <$> values).
Proof.
  assert (∀ ks, mapM ok values = Some ks → ok <$> values = Some <$> ks) as Hmap.
  { intros ks Hm%mapM_Some_1. induction Hm as [|v k l ks Hv _ IH]; [done|].
    rewrite !fmap_cons. by f_equal. }
  split.
  - intros (ks & Hm & Hnd). split.
    + intros v [i Hi]%list_elem_of_lookup. apply mapM_Some_1 in Hm.
      destruct (Forall2_lookup_l _ _ _ _ _ Hm Hi) as (a & _ & ->). eauto.
    + rewrite (Hmap _ Hm). apply NoDup_fmap_2; [|done]. by intros ?? [= ->].
  - intros [Hs Hnd]. destruct (mapM_is_Some_2 ok values) as [ks Hm].
    { by apply Forall_forall. }
    exists ks. split; [done|]. rewrite (Hmap _ Hm) in Hnd.
    by apply NoDup_fmap_1 in Hnd.
Qed.

Lemma distinctly_NoDup {A} (ok : string → option A) values :
  distinctly ok values → NoDup values.
Proof. intros [_ H]%distinctly_alt. by apply NoDup_fmap_1 in H. Qed.

Lemma distinctly_perm {A} (ok : string → option A) l k :
  l ≡ₚ k → distinctly ok l → distinctly ok k.
Proof. intros Hp. rewrite !distinctly_alt. by setoid_rewrite Hp. Qed.

Lemma unique_foldl (written l : list string) :
  NoDup l → (∀ x, last written = Some x → x ∉ l) →
  foldl (λ w value, if bool_decide (last w = Some value) then w else w ++ [value]) written l
  = written ++ l.
Proof.
  revert written. induction l as [|x l IH]; intros w Hnd Hlast; cbn -[bool_decide].
  { by rewrite app_nil_r. }
  apply NoDup_cons in Hnd as [Hx Hnd]. rewrite bool_decide_eq_false_2.
  2: { intros H. apply (Hlast x H). left. }
  rewrite IH; [by rewrite <- app_assoc|done|]. intros y. rewrite last_snoc.
  by intros [= <-].
Qed.

Lemma uniqueSorted_NoDup values : NoDup values → uniqueSorted values = sort_slice str_lt values.
Proof.
  intros Hnd. unfold uniqueSorted. rewrite unique_foldl; [done| |done].
  by rewrite sort_slice_perm.
Qed.

Lemma elem_of_unique_foldl (written l : list string) x :
  x ∈ foldl (λ w value, if bool_decide (last w = Some value) then w else w ++ [value]) written l
  ↔ x ∈ written ∨ x ∈ l.
Proof.
  revert written. induction l as [|y l IH]; intros w; cbn -[bool_decide].
  { rewrite elem_of_nil. tauto. }
  rewrite IH, elem_of_cons. destruct (bool_decide _) eqn:E; reflect_bool.
  - assert (y ∈ w); [|naive_solver]. apply last_Some_elem_of in E. done.
  - rewrite elem_of_app, list_elem_of_singleton. tauto.
Qed.

(** [uniqueSorted] keeps the set of values, whatever the list. *)
Lemma elem_of_uniqueSorted values x : x ∈ uniqueSorted values ↔ x ∈ values.
Proof.
  unfold uniqueSorted. rewrite elem_of_unique_foldl, elem_of_sort_slice, elem_of_nil. tauto.
Qed.

Lemma less_range_spec a b :
  less_range a b = true ↔
  pr_Start a < pr_Start b ∨ (pr_Start a = pr_Start b ∧ pr_End a < pr_End b).
Proof.
  unfold less_range. destruct (N.eqb_spec (pr_Start a) (pr_Start b)); rewrite N.ltb_lt; lia.
Qed.

#[export] Instance less_range_order : LessOrder less_range.
Proof. split; intros *; rewrite <- ?not_true_iff_false, !less_range_spec; lia. Qed.

Lemma cidr_canonical value q :
  cidr value = Some q → prefix_v4 q ∧ cidr (Prefix_String q) = Some q.
Proof.
  unfold cidr. destruct (ParsePrefix value) as [p|] eqn:Ep; cbn [mbind option_bind]; [|done].
  destruct (Addr_Is4 (p_addr p)) eqn:E4; [|done]. intros [= <-].
  pose proof (Masked_v4 _ (ParsePrefix_v4 _ _ Ep E4)) as Hv. split; [done|].
  rewrite ParsePrefix_String by done. cbn [mbind option_bind].
  rewrite Prefix_Masked_idemp. by destruct Hv as (x & k & -> & _).
Qed.

Lemma canonicalCIDRs_eq values ks :
  mapM cidr values = Some ks → NoDup ks →
  canonicalCIDRs values = sort_slice str_lt (Prefix_String <$> ks).
Proof.
  intros Hm Hnd. unfold canonicalCIDRs.
  by rewrite (proj2 (parsePrefixes_spec "cidrs" values ks)).
Qed.

Lemma canonicalCIDRs_parse values ks :
  mapM cidr values = Some ks → mapM cidr (Prefix_String <$> ks) = Some ks.
Proof.
  intros Hm%mapM_Some_1. apply mapM_Some_2. induction Hm as [|v q l ks Hq _ IH]; cbn; constructor.
  - by eapply cidr_canonical.
  - exact IH.
Qed.

Lemma canonicalCIDRs_distinctly values :
  distinctly cidr values → distinctly cidr (canonicalCIDRs values).
Proof.
  intros (ks & Hm & Hnd). rewrite (canonicalCIDRs_eq _ _ Hm Hnd).
  eapply distinctly_perm; [symmetry; apply sort_slice_perm|].
  exists ks. split; [by eapply canonicalCIDRs_parse|done].
Qed.

Lemma canonicalCIDRs_in values a :
  distinctly cidr values → in_cidrs (canonicalCIDRs values) a ↔ in_cidrs values a.
Proof.
  intros (ks & Hm & Hnd). rewrite (canonicalCIDRs_eq _ _ Hm Hnd). unfold in_cidrs.
  apply mapM_Some_1 in Hm. split.
  - intros (v & q & Hv & Hq & Ha). rewrite elem_of_sort_slice in Hv.
    apply list_elem_of_fmap in Hv as (q' & -> & [i Hi]%list_elem_of_lookup).
    destruct (Forall2_lookup_r _ _ _ _ _ Hm Hi) as (v & Hv & Hq').
    exists v, q'. split_and!; [by eapply list_elem_of_lookup_2|done|].
    destruct (cidr_canonical _ _ Hq') as [_ H]. congruence.
  - intros (v & q & [i Hi]%list_elem_of_lookup & Hq & Ha).
    destruct (Forall2_lookup_l _ _ _ _ _ Hm Hi) as (q' & Hq' & Hc).
    exists (Prefix_String q), q. split_and!; [|by eapply cidr_canonical|done].
    rewrite elem_of_sort_slice. apply list_elem_of_fmap_2. replace q with q' by congruence.
    by eapply list_elem_of_lookup_2.
Qed.

Lemma canonicalCIDRs_idemp values :
  distinctly cidr values → canonicalCIDRs (canonicalCIDRs values) = canonicalCIDRs values.
Proof.
  intros Hd. pose proof (canonicalCIDRs_distinctly _ Hd) as (ks' & Hm' & Hnd').
  rewrite (canonicalCIDRs_eq _ _ Hm' Hnd'). destruct Hd as (ks & Hm & Hnd).
  rewrite (canonicalCIDRs_eq _ _ Hm Hnd) in Hm' |- *.
  assert (Prefix_String <$> ks' = sort_slice str_lt (Prefix_String <$> ks)) as ->;
    [|apply sort_slice_idemp, _].
  assert (Forall (λ v, ∃ q, v = Prefix_String q ∧ cidr v = Some q)
            (sort_slice str_lt (Prefix_String <$> ks))) as Hall.
  { apply Forall_forall. intros v. rewrite elem_of_sort_slice.
    apply mapM_Some_1 in Hm. intros (q & -> & [i Hi]%list_elem_of_lookup)%list_elem_of_fmap.
    destruct (Forall2_lookup_r _ _ _ _ _ Hm Hi) as (v & _ & Hc).
    exists q. split; [done|]. by eapply cidr_canonical. }
  apply mapM_Some_1 in Hm'. clear -Hm' Hall.
  induction Hm' as [|v q l ks' Hv _ IH]; [done|].
  apply Forall_cons in Hall as [(q' & -> & Hq) Hall]. rewrite fmap_cons, IH by done.
  congruence.
Qed.

Lemma CanonicalizePolicy_valid p : policy_valid p → policy_valid (CanonicalizePolicy p).
Proof.
  intros []. split; cbn; try done.
  - rewrite uniqueSorted_NoDup by by eapply distinctly_NoDup.
    eapply distinctly_perm; [symmetry; apply sort_slice_perm|done].
  - rewrite uniqueSorted_NoDup by by eapply distinctly_NoDup.
    eapply distinctly_perm; [symmetry; apply sort_slice_perm|done].
  - rewrite uniqueSorted_NoDup by by eapply distinctly_NoDup.
    eapply distinctly_perm; [symmetry; apply sort_slice_perm|done].
  - rewrite Forall_forall in pv_ranges0 |- *. intros r. rewrite elem_of_sort_slice. auto.
  - eapply distinctly_perm; [symmetry; apply sort_slice_perm|done].
  - by apply canonicalCIDRs_distinctly.
  - by apply canonicalCIDRs_distinctly.
Qed.

(** [permits] only looks at the sets a policy lists. *)
Lemma permits_ext p q f count texp now :
  po_TenantID p = po_TenantID q → po_MaxForwards p = po_MaxForwards q →
  po_AllowViaExit p = po_AllowViaExit q →
  po_IngressRateLimitBPS p = po_IngressRateLimitBPS q →
  po_EgressRateLimitBPS p = po_EgressRateLimitBPS q →
  po_TrafficQuotaBytes p = po_TrafficQuotaBytes q →
  (∀ x, x ∈ po_AllowedIngressNodes p ↔ x ∈ po_AllowedIngressNodes q) →
  (∀ x, x ∈ po_AllowedExitNodes p ↔ x ∈ po_AllowedExitNodes q) →
  (∀ x, x ∈ po_AllowedListenIPs p ↔ x ∈ po_AllowedListenIPs q) →
  (∀ x, x ∈ po_AllowedPortRanges p ↔ x ∈ po_AllowedPortRanges q) →
  (∀ x, x ∈ po_AllowedProtocols p ↔ x ∈ po_AllowedProtocols q) →
  (∀ a, in_cidrs (po_AllowedTargetCIDRs p) a ↔ in_cidrs (po_AllowedTargetCIDRs q) a) →
  (∀ a, in_cidrs (po_DeniedTargetCIDRs p) a ↔ in_cidrs (po_DeniedTargetCIDRs q) a) →
  permits p f count texp now → permits q f count texp now.
Proof.
  intros H1 H2 H3 H4 H5 H6 E1 E2 E3 E4 E5 E6 E7 [].
  split; unfold target_permitted in *;
    rewrite <- ?H1, <- ?H2, <- ?H3, <- ?H4, <- ?H5, <- ?H6, <- ?E1, <- ?E2, <- ?E3, <- ?E6, <- ?E7;
    try done.
  - destruct pm_port0 as (r & Hr & ?). exists r. by rewrite <- E4.
  - destruct pm_protocols0 as [? H]. split; [done|]. intros x. rewrite <- E5. auto.
Qed.

Lemma CanonicalizePolicy_permits p f count texp now :
  policy_valid p →
  permits (CanonicalizePolicy p) f count texp now ↔ permits p f count texp now.
Proof.
  intros []. split; apply permits_ext; try done; cbn; intros x;
    rewrite ?elem_of_uniqueSorted, ?elem_of_sort_slice, ?canonicalCIDRs_in; done.
Qed.

Lemma CanonicalizePolicy_idemp p :
  policy_valid p → CanonicalizePolicy (CanonicalizePolicy p) = CanonicalizePolicy p.
Proof.
  assert (∀ l, NoDup l → uniqueSorted (uniqueSorted l) = uniqueSorted l) as Hu.
  { intros l Hl. rewrite (uniqueSorted_NoDup l) by done.
    rewrite uniqueSorted_NoDup by by rewrite sort_slice_perm. apply sort_slice_idemp, _. }
  intros []. unfold CanonicalizePolicy. cbn. f_equal; try apply sort_slice_idemp, _.
  - eapply Hu, distinctly_NoDup, pv_ingress0.
  - eapply Hu, distinctly_NoDup, pv_exit0.
  - eapply Hu, distinctly_NoDup, pv_listen0.
  - by apply canonicalCIDRs_idemp.
  - by apply canonicalCIDRs_idemp.
Qed.


Lemma burst_of_bounds rate :
  rate ≤ MaxInt64 → rate ≤ 80 * burst_of rate ∧ 65536 ≤ burst_of rate < 2 ^ 64.
Proof.
  unfold burst_of, MaxInt64. change (2 ^ 63 - 1) with 9223372036854775807.
  change (2 ^ 64) with 18446744073709551616. intros Hr.
  pose proof (N.div_mod rate 80 ltac:(lia)) as Hq. pose proof (N.mod_lt rate 80 ltac:(lia)) as Hr80.
  revert Hq Hr80. generalize (rate / 80) (rate mod 80). intros q r Hq Hr80.
  destruct (N.eqb_spec r 0); cbv zeta;
    match goal with |- context [?x <? 65536] => destruct (N.ltb_spec x 65536) end; lia.
Qed.

(** The limits a policy hands to the data plane, as [DataPlanePolicy] builds
    them. *)
Definition limits_of (p : Policy) : option UserPolicySpec :=
  let ingress := po_IngressRateLimitBPS p in
  let egress := po_EgressRateLimitBPS p in
  let rateLimit :=
    if (0 <? ingress) || (0 <? egress)
    then Some (MkRateLimitSpec ingress egress (burst_of (if ingress <? egress then egress else ingress)))
    else None in
  let trafficQuota :=
    if 0 <? po_TrafficQuotaBytes p
    then Some (MkTrafficQuotaSpec (po_TrafficQuotaBytes p) QuotaPolicyPause) else None in
  if bool_decide (rateLimit = None) && bool_decide (trafficQuota = None) then None
  else Some (MkUserPolicySpec (po_TenantID p) 0 rateLimit trafficQuota (po_ResourceVersion p)).

Lemma limits_of_some p q :
  limits_of p = Some q →
  q = MkUserPolicySpec (po_TenantID p) 0 (up_RateLimit q) (up_TrafficQuota q) (po_ResourceVersion p)
  ∧ (up_RateLimit q ≠ None ∨ up_TrafficQuota q ≠ None)
  ∧ match up_RateLimit q with
    | None => po_IngressRateLimitBPS p = 0 ∧ po_EgressRateLimitBPS p = 0
    | Some r => r = MkRateLimitSpec (po_IngressRateLimitBPS p) (po_EgressRateLimitBPS p)
                      (burst_of (N.max (po_IngressRateLimitBPS p) (po_EgressRateLimitBPS p)))
                ∧ (po_IngressRateLimitBPS p ≠ 0 ∨ po_EgressRateLimitBPS p ≠ 0)
    end
  ∧ match up_TrafficQuota q with
    | None => po_TrafficQuotaBytes p = 0
    | Some t => t = MkTrafficQuotaSpec (po_TrafficQuotaBytes p) QuotaPolicyPause
                ∧ po_TrafficQuotaBytes p ≠ 0
    end.
Proof.
  unfold limits_of.
  assert ((if po_IngressRateLimitBPS p <? po_EgressRateLimitBPS p then po_EgressRateLimitBPS p
           else po_IngressRateLimitBPS p)
          = N.max (po_IngressRateLimitBPS p) (po_EgressRateLimitBPS p)) as ->.
  { destruct (N.ltb_spec (po_IngressRateLimitBPS p) (po_EgressRateLimitBPS p)); lia. }
  destruct (N.ltb_spec 0 (po_IngressRateLimitBPS p)), (N.ltb_spec 0 (po_EgressRateLimitBPS p)),
    (N.ltb_spec 0 (po_TrafficQuotaBytes p)); cbn -[burst_of N.max]; intros [= <-];
    cbn -[burst_of N.max]; split_and!; try done; try lia; auto;
    try (split; [done|lia]); by left.
Qed.

Lemma limits_of_none p :
  limits_of p = None ↔
  po_IngressRateLimitBPS p = 0 ∧ po_EgressRateLimitBPS p = 0 ∧ po_TrafficQuotaBytes p = 0.
Proof.
  unfold limits_of.
  destruct (N.ltb_spec 0 (po_IngressRateLimitBPS p)), (N.ltb_spec 0 (po_EgressRateLimitBPS p)),
    (N.ltb_spec 0 (po_TrafficQuotaBytes p)); cbn -[burst_of]; split; try done; lia.
Qed.

Lemma limits_of_accepted p q i users classes :
  policy_valid p → limits_of p = Some q → up_UserID q ∉ users →
  validate_policy i q (users, classes) = (({[up_UserID q]} ∪ users, classes), []).
Proof.
  intros Hp Hq Hu. pose proof (burst_of_bounds _ (N.max_lub _ _ _
    (pv_ingress_rate _ Hp) (pv_egress_rate _ Hp))) as [_ [Hb _]].
  apply limits_of_some in Hq as (Hq & Hone & Hr & Ht).
  destruct q as [u c r t v]. cbn -[burst_of N.max] in *. injection Hq as -> -> ->.
  unfold validate_policy. cbn -[validateRateLimit validateQuota at_index bool_decide].
  rewrite (pv_tenant _ Hp). cbn -[validateRateLimit validateQuota at_index bool_decide].
  rewrite (bool_decide_eq_false_2 (po_TenantID p ∈ users)) by done.
  rewrite (proj2 (N.eqb_neq (po_ResourceVersion p) 0)) by apply Hp.
  assert (∀ n, validateRateLimit n r = []) as ->.
  { intros n. destruct r as [r|]; [|done]. destruct Hr as [-> Hr].
    unfold validateRateLimit. cbn -[burst_of N.max N.eqb].
    rewrite (proj2 (N.eqb_neq (burst_of _) 0)) by lia.
    destruct (N.eqb_spec (po_IngressRateLimitBPS p) 0), (N.eqb_spec (po_EgressRateLimitBPS p) 0);
      try done. lia. }
  assert (∀ n, validateQuota n t = []) as ->.
  { intros n. destruct t as [t|]; [|done]. destruct Ht as [-> Ht].
    unfold validateQuota. cbn -[N.eqb].
    by rewrite (proj2 (N.eqb_neq (po_TrafficQuotaBytes p) 0)). }
  assert (bool_decide (r = None) && bool_decide (t = None) = false) as ->; [|done].
  apply andb_false_iff. rewrite !bool_decide_eq_false. done.
Qed.

(** * Properties *)

(** C24. A forward is authorized exactly when the tenant's policy is well formed
    and permits it: ownership, count, nodes, listener, port and protocols
    assigned to the tenant, a target outside the protected and denied networks
    and inside an allowed one, limits below the tenant's, and an expiry no later
    than the tenant's. The iteration order of Go's map does not matter. *)
Theorem AuthorizeForward_spec exit_first p f count tenantExpiry now :
  AuthorizeForward exit_first p f count tenantExpiry now = inr tt ↔
  policy_valid p ∧ permits p f count tenantExpiry now.
Proof. apply AuthorizeForward_iff. Qed.

(** Storing a policy in canonical form changes no decision: the canonical
    form of an acceptable policy is its own canonical form, and authorizes
    exactly the same forwards; CIDRs survive being masked, printed and parsed
    again. *)
Theorem CanonicalizePolicy_preserves_decisions p :
  policy_valid p →
  CanonicalizePolicy (CanonicalizePolicy p) = CanonicalizePolicy p
  ∧ ∀ exit_first f count tenantExpiry now,
      AuthorizeForward exit_first (CanonicalizePolicy p) f count tenantExpiry now = inr tt
      ↔ AuthorizeForward exit_first p f count tenantExpiry now = inr tt.
Proof.
  intros Hp. split; [by apply CanonicalizePolicy_idemp|]. intros exit_first f count texp now.
  rewrite !AuthorizeForward_iff, CanonicalizePolicy_permits by done.
  pose proof (CanonicalizePolicy_valid p Hp). tauto.
Qed.

(** The limits of an acceptable policy always reach the data plane in a
    form Desired State accepts: no policy when there is nothing to enforce,
    otherwise one that adds no issue to a snapshot that lists the tenant once,
    carries exactly the tenant's limits, and has a burst of at least 64 KiB and
    at least 100 ms of traffic at the higher rate, in 64 bits. *)
Theorem DataPlanePolicy_publishable exit_first p :
  policy_valid p →
  ∃ o, DataPlanePolicy exit_first p = inr o
  ∧ (o = None ↔ po_IngressRateLimitBPS p = 0 ∧ po_EgressRateLimitBPS p = 0
                ∧ po_TrafficQuotaBytes p = 0)
  ∧ ∀ q, o = Some q →
      (∀ i users classes, up_UserID q ∉ users →
         validate_policy i q (users, classes) = (({[up_UserID q]} ∪ users, classes), []))
      ∧ up_UserID q = po_TenantID p
      ∧ from_option rl_IngressBitsPerSecond 0 (up_RateLimit q) = po_IngressRateLimitBPS p
      ∧ from_option rl_EgressBitsPerSecond 0 (up_RateLimit q) = po_EgressRateLimitBPS p
      ∧ from_option tq_Bytes 0 (up_TrafficQuota q) = po_TrafficQuotaBytes p
      ∧ ∀ r, up_RateLimit q = Some r →
          N.max (po_IngressRateLimitBPS p) (po_EgressRateLimitBPS p) ≤ 80 * rl_BurstBytes r
          ∧ 65536 ≤ rl_BurstBytes r < 2 ^ 64.
Proof.
  intros Hp. unfold DataPlanePolicy.
  rewrite (proj2 (Validate_ok exit_first p tt) Hp). cbn [andThen].
  exists (limits_of p). split; [reflexivity|]. split; [apply limits_of_none|]. intros q Hq.
  split; [intros i users classes Hu; by apply (limits_of_accepted p)|].
  apply limits_of_some in Hq as (Hq & _ & Hr & Ht). destruct q as [u c r t v].
  cbn -[burst_of N.max N.mul] in *. injection Hq as -> -> ->.
  pose proof (burst_of_bounds _ (N.max_lub _ _ _ (pv_ingress_rate _ Hp) (pv_egress_rate _ Hp))).
  destruct r as [r|], t as [t|]; cbn -[burst_of N.max N.mul]; naive_solver.
Qed.

(** * A concrete policy *)
Definition sample_tenant_policy : Policy :=
  {| po_TenantID := "tenant-a"; po_AllowedIngressNodes := ["node-b"; "node-a"];
     po_AllowedExitNodes := []; po_AllowedListenIPs := ["192.0.2.10"];
     po_AllowedPortRanges := [MkPortRange 8000 9000; MkPortRange 80 90];
     po_AllowedProtocols := [ProtocolUDP; ProtocolTCP]; po_AllowViaExit := false;
     po_MaxForwards := 10; po_IngressRateLimitBPS := 0; po_EgressRateLimitBPS := 10000001;
     po_TrafficQuotaBytes := 5000; po_AllowedTargetCIDRs := ["198.51.100.7/24"];
     po_DeniedTargetCIDRs := ["198.51.100.128/25"; "10.0.0.0/8"]; po_ResourceVersion := 3;
     po_CreatedAt := 1%Z; po_UpdatedAt := 2%Z |}.

Example AuthorizeForward_sample :
  AuthorizeForward true sample_tenant_policy sample_forward 9 (Some 2000%Z) 500%Z = inr tt
  ∧ AuthorizeForward true sample_tenant_policy sample_forward 10 (Some 2000%Z) 500%Z
    = inl (ErrForbidden "forward limit has been reached")
  ∧ AuthorizeTarget sample_tenant_policy (ip 198 51 100 200)
    = inl (ErrForbidden "target is explicitly denied by the tenant policy").
Proof. vm_compute. done. Qed.

Lemma CanonicalizePolicy_preserves_decisions_witness :
  policy_valid sample_tenant_policy
  ∧ po_AllowedTargetCIDRs (CanonicalizePolicy sample_tenant_policy) = ["198.51.100.0/24"]
  ∧ CanonicalizePolicy (CanonicalizePolicy sample_tenant_policy)
    = CanonicalizePolicy sample_tenant_policy.
Proof.
  assert (policy_valid sample_tenant_policy) as Hp.
  { apply (Validate_ok false _ tt). vm_compute. reflexivity. }
  split; [exact Hp|]. split; [vm_compute; reflexivity|].
  apply CanonicalizePolicy_preserves_decisions. exact Hp.
Defined.

Lemma DataPlanePolicy_publishable_witness :
  DataPlanePolicy true sample_tenant_policy
  = inr (Some (MkUserPolicySpec "tenant-a" 0 (Some (MkRateLimitSpec 0 10000001 125001))
                 (Some (MkTrafficQuotaSpec 5000 QuotaPolicyPause)) 3))
  ∧ ∃ o, DataPlanePolicy true sample_tenant_policy = inr o.
Proof.
  split; [vm_compute; reflexivity|].
  destruct (DataPlanePolicy_publishable true sample_tenant_policy) as (o & Ho & _).
  - apply (Validate_ok false _ tt). vm_compute. reflexivity.
  - exists o. exact Ho.
Defined.
