(* ===== verification/ClusterTypes.v ===== *)
(** The cluster plan, its canonical form, and the helpers the validator, the
    scheduler and the rollout share: [internal/cluster/types.go],
    [canonical.go] and parts of [scheduler.go]. Maps are gmaps; a nil map and an
    empty one are not told apart, which the code never does either. *)
From S2P Require Import Prelude.
From S2P Require Import GoNet.
From S2P Require Import SpecTypes.
From S2P Require Import SpecCanonical.
From S2P Require Import SpecValidate.
From S2P Require Import Hostname.
From S2P Require Import Health.

Definition PlanSchemaVersionV1 : N := 1.

Definition NodeRole := string.
Definition RoleIngress : NodeRole := "ingress".
Definition RoleExit : NodeRole := "exit".

Definition FailureDomainPolicy := string.
Definition FailureDomainDistinct : FailureDomainPolicy := "distinct".
Definition FailureDomainPrefer : FailureDomainPolicy := "prefer_distinct".
Definition FailureDomainAny : FailureDomainPolicy := "any".

Record Capacity := MkCapacity {
  cy_MaxForwards : N;
  cy_IngressBitsPerSecond : N;
  cy_EgressBitsPerSecond : N;
}.

Record Reservation := MkReservation {
  rs_IngressBitsPerSecond : N;
  rs_EgressBitsPerSecond : N;
}.

Record RolloutStrategy := MkRolloutStrategy {
  ro_CanaryPercent : N;
  ro_BakeSeconds : N;
}.
Definition RolloutStrategyZero : RolloutStrategy := MkRolloutStrategy 0 0.

Definition EffectiveCanaryPercent (s : RolloutStrategy) : N :=
  if ro_CanaryPercent s =? 0 then 100 else ro_CanaryPercent s.

Record NodeSelector := MkNodeSelector {
  ns_NodeIDs : list string;
  ns_MatchLabels : gmap string string;
}.

Record WireGuardLink := MkWireGuardLink {
  wl_Endpoint : string;
  wl_ListenPort : N;
  wl_PersistentKeepaliveSeconds : N;
}.

Record FabricLink := {
  cl_ID : string;
  cl_PeerNodeID : string;
  cl_Transport : FabricTransport;
  cl_Interface : string;
  cl_LocalAddress : Prefix;
  cl_PeerAddress : Addr;
  cl_MTU : N;
  cl_RoutingID : N;
  cl_Trusted : bool;
  cl_WireGuard : option WireGuardLink;
  cl_GRE : option GRESpec;
  cl_ResourceVersion : N;
}.

Record Node := {
  nd_ID : string;
  nd_Enabled : bool;
  nd_Roles : list NodeRole;
  nd_Labels : gmap string string;
  nd_ListenIPs : list Addr;
  nd_FailureDomain : string;
  nd_Capacity : Capacity;
  nd_FabricLinks : list FabricLink;
  nd_ProtocolBlocks : option ProtocolBlockPolicy;
}.

Record HealthPolicy := {
  hp_IntervalSeconds : N;
  hp_TimeoutMilliseconds : N;
  hp_FailureThreshold : N;
  hp_SuccessThreshold : N;
  hp_StaleAfterSeconds : N;
}.

Record Backend := {
  be_ID : string;
  be_Target : Endpoint;
  be_ProbeEndpoint : option Endpoint;
  be_Priority : N;
  be_ResourceVersion : N;
}.

Record BackendPool := {
  bp_ID : string;
  bp_Backends : list Backend;
  bp_Health : option HealthPolicy;
  bp_ResourceVersion : N;
}.

Record Forward := {
  cf_ID : string;
  cf_UserID : string;
  cf_Protocols : list Protocol;
  cf_Listen : Endpoint;
  cf_PathMode : PathMode;
  cf_Ingress : NodeSelector;
  cf_Exit : option NodeSelector;
  cf_FailureDomainPolicy : FailureDomainPolicy;
  cf_BackendPoolID : string;
  cf_SNAT : SNATSpec;
  cf_Reservation : Reservation;
  cf_RateLimit : option RateLimitSpec;
  cf_TrafficQuota : option TrafficQuotaSpec;
  cf_ExpiresAt : option Time;
  cf_DrainDeadline : option Time;
  cf_Lifecycle : Lifecycle;
  cf_ResourceVersion : N;
}.

Record Plan := {
  pl_SchemaVersion : N;
  pl_ID : string;
  pl_Revision : N;
  pl_NodeOfflineAfterSeconds : N;
  pl_Rollout : option RolloutStrategy;
  pl_ServiceCIDRs : list Prefix;
  pl_Nodes : list Node;
  pl_UserPolicies : list UserPolicySpec;
  pl_BackendPools : list BackendPool;
  pl_Forwards : list Forward;
}.

Definition EffectiveRolloutStrategy (p : Plan) : RolloutStrategy :=
  default RolloutStrategyZero (pl_Rollout p).

Record NodeRuntime := {
  nr_ID : string;
  nr_Available : bool;
  nr_LastSeen : Time;
  nr_Capabilities : gmap string N;
  nr_WireGuardPublicKey : string;
}.
Definition NodeRuntimeZero : NodeRuntime :=
  {| nr_ID := ""; nr_Available := false; nr_LastSeen := 0%Z; nr_Capabilities := ∅;
     nr_WireGuardPublicKey := "" |}.

(** [HealthKey]: node, pool and backend. *)
Definition HealthKey : Type := string * string * string.

Record HealthObservation := {
  ho_Status : Health.Status;
  ho_ResourceVersion : N;
  ho_ObservedAt : Time;
}.

Record Placement := {
  pc_ForwardID : string;
  pc_IngressID : string;
  pc_ExitID : string;
  pc_BackendID : string;
  pc_Target : Endpoint;
  pc_PathMode : PathMode;
  pc_FabricInID : string;
  pc_FabricOutID : string;
}.

Record Alert := MkAlert {
  al_Code : string;
  al_ForwardID : string;
  al_PoolID : string;
  al_Detail : string;
}.

Record Result := MkResult {
  re_Placements : list Placement;
  re_Alerts : list Alert;
}.

(** Zero values. *)
Definition EndpointZero : Endpoint := MkEndpoint AddrZero "" 0.
Definition PlacementZero : Placement :=
  {| pc_ForwardID := ""; pc_IngressID := ""; pc_ExitID := ""; pc_BackendID := "";
     pc_Target := EndpointZero; pc_PathMode := ""; pc_FabricInID := ""; pc_FabricOutID := "" |}.
Definition BackendZero : Backend :=
  {| be_ID := ""; be_Target := EndpointZero; be_ProbeEndpoint := None; be_Priority := 0;
     be_ResourceVersion := 0 |}.
Definition BackendPoolZero : BackendPool :=
  {| bp_ID := ""; bp_Backends := []; bp_Health := None; bp_ResourceVersion := 0 |}.
Definition NodeZero : Node :=
  {| nd_ID := ""; nd_Enabled := false; nd_Roles := []; nd_Labels := ∅; nd_ListenIPs := [];
     nd_FailureDomain := ""; nd_Capacity := MkCapacity 0 0 0; nd_FabricLinks := [];
     nd_ProtocolBlocks := None |}.

#[export] Instance RolloutStrategy_eq_dec : EqDecision RolloutStrategy.
Proof. solve_decision. Defined.
#[export] Instance WireGuardLink_eq_dec : EqDecision WireGuardLink.
Proof. solve_decision. Defined.
#[export] Instance FabricLink_eq_dec : EqDecision FabricLink.
Proof. solve_decision. Defined.
#[export] Instance Backend_eq_dec : EqDecision Backend.
Proof. solve_decision. Defined.
#[export] Instance Placement_eq_dec : EqDecision Placement.
Proof. solve_decision. Defined.
#[export] Instance Capacity_eq_dec : EqDecision Capacity.
Proof. solve_decision. Defined.
#[export] Instance Node_eq_dec : EqDecision Node.
Proof. solve_decision. Defined.

(** * Shared helpers *)
Definition effectiveFailurePolicy (policy : FailureDomainPolicy) : FailureDomainPolicy :=
  if bool_decide (policy = "") then FailureDomainDistinct else policy.

Definition effectiveReservation (forward : Forward) : Reservation :=
  let r := cf_Reservation forward in
  match cf_RateLimit forward with
  | None => r
  | Some limit =>
      MkReservation
        (if rs_IngressBitsPerSecond r =? 0 then rl_IngressBitsPerSecond limit
         else rs_IngressBitsPerSecond r)
        (if rs_EgressBitsPerSecond r =? 0 then rl_EgressBitsPerSecond limit
         else rs_EgressBitsPerSecond r)
  end.

Definition selectorMatches (selector : NodeSelector) (node : Node) : bool :=
  (if (length (ns_NodeIDs selector) =? 0)%nat then true
   else existsb (λ nodeID, bool_decide (nodeID = nd_ID node)) (ns_NodeIDs selector))
  && forallb (λ kv, bool_decide (default "" (nd_Labels node !! kv.1) = kv.2))
       (map_to_list (ns_MatchLabels selector)).

Definition nodeHasRole (node : Node) (role : NodeRole) : bool :=
  existsb (λ candidate, bool_decide (candidate = role)) (nd_Roles node).

Definition less_cluster_link : FabricLink → FabricLink → bool := less_by cl_ID.

Definition reciprocalLink (node : Node) (peerID : string) (transport : FabricTransport) :
    option FabricLink :=
  head (filter (λ link, cl_PeerNodeID link = peerID ∧ cl_Transport link = transport)
          (sort_slice less_cluster_link (nd_FabricLinks node))).

(** The link of [second] that answers [firstLink], if [firstLink] has one. *)
Definition match_link (first second : Node) (firstLink : FabricLink) :
    option (FabricLink * FabricLink) :=
  if negb (bool_decide (cl_PeerNodeID firstLink = nd_ID second)) then None
  else match reciprocalLink second (nd_ID first) (cl_Transport firstLink) with
  | None => None
  | Some secondLink =>
      if negb (bool_decide (Addr_Unmap (cl_PeerAddress firstLink)
                            = Addr_Unmap (p_addr (cl_LocalAddress secondLink))))
         || negb (bool_decide (Addr_Unmap (cl_PeerAddress secondLink)
                               = Addr_Unmap (p_addr (cl_LocalAddress firstLink))))
      then None else Some (firstLink, secondLink)
  end.

Definition matchingLinks (first second : Node) : option (FabricLink * FabricLink) :=
  head (omap (match_link first second) (sort_slice less_cluster_link (nd_FabricLinks first))).

Definition backendByID (backends : list Backend) (backendID : string) : option Backend :=
  head (filter (λ backend, be_ID backend = backendID) backends).

(** [compileLink]; the map of runtimes gives the peer's public key. *)
Definition compileLink (link : FabricLink) (runtimes : gmap string NodeRuntime) :
    string + FabricLinkSpec :=
  let compiled wireguard :=
    {| fl_ID := cl_ID link; fl_PeerNodeID := cl_PeerNodeID link;
       fl_Transport := cl_Transport link; fl_Interface := cl_Interface link;
       fl_LocalAddress := cl_LocalAddress link; fl_PeerAddress := cl_PeerAddress link;
       fl_MTU := cl_MTU link; fl_RoutingID := cl_RoutingID link; fl_Trusted := cl_Trusted link;
       fl_WireGuard := wireguard; fl_GRE := cl_GRE link;
       fl_ResourceVersion := cl_ResourceVersion link |} in
  if bool_decide (cl_Transport link = FabricWireGuard) then
    match cl_WireGuard link with
    | None => inl "wireguard settings are missing"
    | Some w =>
        let key := nr_WireGuardPublicKey (default NodeRuntimeZero (runtimes !! cl_PeerNodeID link)) in
        if bool_decide (key = "") then inl "peer WireGuard public key is unavailable"
        else inr (compiled (Some (MkWireGuardPeerSpec key (wl_Endpoint w) (wl_ListenPort w)
                                    (wl_PersistentKeepaliveSeconds w))))
    end
  else inr (compiled None).

(** * Canonical plans *)
Definition canonicalTargetEndpoint `{!Idna} (endpoint : Endpoint) : Endpoint :=
  MkEndpoint (Addr_Unmap (ep_Address endpoint))
    (if bool_decide (ep_Hostname endpoint = "") then ""
     else match NormalizeHostname (ep_Hostname endpoint) with
          | inr hostname => hostname
          | inl _ => ep_Hostname endpoint
          end)
    (ep_Port endpoint).

Definition canonicalSelector (selector : NodeSelector) : NodeSelector :=
  MkNodeSelector (sort_slice str_lt (ns_NodeIDs selector)) (ns_MatchLabels selector).

Definition canonicalNode (node : Node) : Node :=
  {| nd_ID := nd_ID node; nd_Enabled := nd_Enabled node;
     nd_Roles := sort_slice str_lt (nd_Roles node);
     nd_Labels := nd_Labels node;
     nd_ListenIPs := sort_slice Addr_Less (map Addr_Unmap (nd_ListenIPs node));
     nd_FailureDomain := nd_FailureDomain node; nd_Capacity := nd_Capacity node;
     nd_FabricLinks := sort_slice less_cluster_link (nd_FabricLinks node);
     nd_ProtocolBlocks := canonicalProtocolBlocks (nd_ProtocolBlocks node) |}.

Definition less_backend (a b : Backend) : bool :=
  if be_Priority a =? be_Priority b then str_lt (be_ID a) (be_ID b)
  else be_Priority a <? be_Priority b.

Definition canonicalBackend `{!Idna} (backend : Backend) : Backend :=
  {| be_ID := be_ID backend; be_Target := canonicalTargetEndpoint (be_Target backend);
     be_ProbeEndpoint := canonicalTargetEndpoint <$> be_ProbeEndpoint backend;
     be_Priority := be_Priority backend; be_ResourceVersion := be_ResourceVersion backend |}.

Definition canonicalPool `{!Idna} (pool : BackendPool) : BackendPool :=
  {| bp_ID := bp_ID pool;
     bp_Backends := sort_slice less_backend (map canonicalBackend (bp_Backends pool));
     bp_Health := bp_Health pool; bp_ResourceVersion := bp_ResourceVersion pool |}.

Definition canonicalClusterForward (forward : Forward) : Forward :=
  {| cf_ID := cf_ID forward; cf_UserID := cf_UserID forward;
     cf_Protocols := sort_slice str_lt (cf_Protocols forward); cf_Listen := cf_Listen forward;
     cf_PathMode := cf_PathMode forward; cf_Ingress := canonicalSelector (cf_Ingress forward);
     cf_Exit := canonicalSelector <$> cf_Exit forward;
     cf_FailureDomainPolicy :=
       if bool_decide (cf_PathMode forward = PathViaExit)
       then effectiveFailurePolicy (cf_FailureDomainPolicy forward)
       else cf_FailureDomainPolicy forward;
     cf_BackendPoolID := cf_BackendPoolID forward; cf_SNAT := cf_SNAT forward;
     cf_Reservation := cf_Reservation forward; cf_RateLimit := cf_RateLimit forward;
     cf_TrafficQuota := cf_TrafficQuota forward; cf_ExpiresAt := cf_ExpiresAt forward;
     cf_DrainDeadline := cf_DrainDeadline forward; cf_Lifecycle := cf_Lifecycle forward;
     cf_ResourceVersion := cf_ResourceVersion forward |}.

Definition canonicalRollout (p : Plan) : option RolloutStrategy :=
  let rollout := EffectiveRolloutStrategy p in
  let rollout :=
    if EffectiveCanaryPercent rollout =? 100
    then MkRolloutStrategy 0 (ro_BakeSeconds rollout) else rollout in
  if bool_decide (rollout = RolloutStrategyZero) then None else Some rollout.

(** [Plan.Canonical] *)
Definition PlanCanonical `{!Idna} (p : Plan) : Plan :=
  {| pl_SchemaVersion := pl_SchemaVersion p; pl_ID := pl_ID p; pl_Revision := pl_Revision p;
     pl_NodeOfflineAfterSeconds := pl_NodeOfflineAfterSeconds p;
     pl_Rollout := canonicalRollout p;
     pl_ServiceCIDRs :=
       sort_slice (less_by Prefix_String) (map Prefix_Masked (pl_ServiceCIDRs p));
     pl_Nodes := sort_slice (less_by nd_ID) (map canonicalNode (pl_Nodes p));
     pl_UserPolicies := sort_slice (less_by up_UserID) (pl_UserPolicies p);
     pl_BackendPools := sort_slice (less_by bp_ID) (map canonicalPool (pl_BackendPools p));
     pl_Forwards := sort_slice (less_by cf_ID) (map canonicalClusterForward (pl_Forwards p)) |}.
