(* ===== verification/ClusterValidate.v ===== *)
(** Validation of a cluster plan, [internal/cluster/validate.go]. Issues are
    listed in the order the code appends them, maps in the order of
    [map_to_list]; the code sorts them before it returns them. *)
From S2P Require Import Prelude.
From S2P Require Import GoNet.
From S2P Require Import SpecTypes.
From S2P Require Import SpecCanonical.
From S2P Require Import SpecValidate.
From S2P Require Import Hostname.
From S2P Require Import Health.
From S2P Require Import ClusterTypes.

Definition maxPlanNodes : nat := N.to_nat 10000.
Definition maxPlanBackendPools : nat := N.to_nat 10000.
Definition maxBackendsPerPool : nat := 128.

(** * Checks of single values *)
Definition validIPv4Address (address : Addr) : bool :=
  Addr_IsValid address && Addr_Is4 (Addr_Unmap address)
  && negb (Addr_IsUnspecified (Addr_Unmap address)) && negb (Addr_IsMulticast (Addr_Unmap address)).

Definition validIPv4Prefix (prefix : Prefix) : bool :=
  Prefix_IsValid prefix && Addr_Is4 (p_addr prefix) && (0 <=? p_bits prefix)%Z
  && (p_bits prefix <=? 32)%Z && bool_decide (prefix = Prefix_Masked prefix).

Definition validIPv4InterfacePrefix (prefix : Prefix) : bool :=
  Prefix_IsValid prefix && Addr_Is4 (p_addr prefix) && (1 <=? p_bits prefix)%Z
  && (p_bits prefix <=? 32)%Z.

Definition cidrs_overlap (first second : Prefix) : bool :=
  Prefix_Contains first (p_addr second) || Prefix_Contains second (p_addr first).

Definition validListenEndpoint (endpoint : Endpoint) : bool :=
  bool_decide (ep_Hostname endpoint = "") && validIPv4Address (ep_Address endpoint)
  && negb (ep_Port endpoint =? 0).

Definition validTargetEndpoint `{!Idna} (endpoint : Endpoint) : bool :=
  if negb (validIPv4Address (ep_Address endpoint)) || (ep_Port endpoint =? 0) then false
  else if bool_decide (ep_Hostname endpoint = "") then true
  else match NormalizeHostname (ep_Hostname endpoint) with inr _ => true | inl _ => false end.

Definition issue (r : option string) : list string :=
  match r with Some e => [e] | None => [] end.

Definition validateSelector (name : string) (selector : NodeSelector) (nodes : gmap string Node)
    (role : NodeRole) : list string :=
  if (length (ns_NodeIDs selector) =? 0)%nat && bool_decide (ns_MatchLabels selector = ∅)
  then [name +:+ " must constrain node_ids or match_labels"]
  else
    let '(_, e_ids) := vloop (λ _ nodeID (seen : gset string),
        ({[nodeID]} ∪ seen,
         when (bool_decide (nodeID ∈ seen)) (name +:+ ".node_ids contains a duplicate")
         ++ when (bool_decide (nodes !! nodeID = None))
              (name +:+ ".node_ids references an unknown node")))
      0 (ns_NodeIDs selector) ∅ in
    e_ids
    ++ mbind (λ kv : string * string,
         when (negb (validIdentifier kv.1) || negb (validIdentifier kv.2))
           (name +:+ ".match_labels contains an invalid key or value"))
         (map_to_list (ns_MatchLabels selector))
    ++ when (negb (existsb (λ kn : string * Node,
                      selectorMatches selector kn.2 && nodeHasRole kn.2 role) (map_to_list nodes)))
         (name +:+ " matches no node with the required role").

(** * The plan's header and service ranges *)
Definition validate_plan_header (p : Plan) : list string :=
  let rollout := EffectiveRolloutStrategy p in
  let canaryPercent := EffectiveCanaryPercent rollout in
  when (negb (pl_SchemaVersion p =? PlanSchemaVersionV1)) "schema_version must be 1"
  ++ issue (ValidateIdentifier "id" (pl_ID p))
  ++ when (120 <? length (chars (pl_ID p)))%nat
       "id must not exceed 120 characters so its management domain remains valid"
  ++ when (pl_Revision p =? 0) "revision must be greater than zero"
  ++ when ((pl_NodeOfflineAfterSeconds p <? 10) || (600 <? pl_NodeOfflineAfterSeconds p))
       "node_offline_after_seconds must be between 10 and 600"
  ++ when ((canaryPercent <? 1) || (100 <? canaryPercent))
       "rollout.canary_percent must be between 1 and 100, or zero for the 100% default"
  ++ (if canaryPercent <? 100
      then when ((ro_BakeSeconds rollout <? 1) || (86400 <? ro_BakeSeconds rollout))
             "rollout.bake_seconds must be between 1 and 86400 when canary_percent is below 100"
      else when (negb (ro_BakeSeconds rollout =? 0))
             "rollout.bake_seconds requires canary_percent below 100")
  ++ when (maxPlanNodes <? length (pl_Nodes p))%nat "nodes must not exceed 10000 entries"
  ++ (if (maxPlanBackendPools <? length (pl_BackendPools p))%nat
      then ["backend_pools must not exceed 10000 entries"]
      else when ((length (pl_BackendPools p) =? 0)%nat && negb (length (pl_Forwards p) =? 0)%nat)
             "backend_pools must not be empty when forwards are configured")
  ++ when (MaxForwardsPerSnapshot <? length (pl_Forwards p))%nat "forwards exceeds limit 100000".

Definition validate_plan_cidr (i : nat) (prefix : Prefix) (serviceCIDRs : list Prefix) :
    list Prefix * list string :=
  let name := at_index "service_cidrs" i in
  if negb (validIPv4Prefix prefix)
  then (serviceCIDRs, [name +:+ " must be a masked IPv4 prefix"])
  else
    let prefix := Prefix_Masked prefix in
    (serviceCIDRs ++ [prefix],
     each (λ j existing, when (cidrs_overlap prefix existing)
             (name +:+ " overlaps " +:+ at_index "service_cidrs" j)) serviceCIDRs).

(** * Nodes *)
Definition validate_role (name : string) (_ : nat) (role : NodeRole) (seen : gset NodeRole) :
    gset NodeRole * list string :=
  ({[role]} ∪ seen,
   when (negb (bool_decide (role = RoleIngress)) && negb (bool_decide (role = RoleExit)))
     (name +:+ ".roles contains an unsupported value")
   ++ when (bool_decide (role ∈ seen)) (name +:+ ".roles contains a duplicate")).

Definition validate_listen_ip (name : string) (j : nat) (address : Addr) (seen : gset Addr) :
    gset Addr * list string :=
  let address := Addr_Unmap address in
  if negb (validIPv4Address address)
  then (seen, [at_index (name +:+ ".listen_ips") j +:+ " is not a usable IPv4 address"])
  else ({[address]} ∪ seen,
        when (bool_decide (address ∈ seen)) (name +:+ ".listen_ips contains a duplicate")).

Definition validate_transport (linkName : string) (link : FabricLink) : list string :=
  if bool_decide (cl_Transport link = FabricWireGuard) then
    when (match cl_WireGuard link with
          | None => true
          | Some w => bool_decide (wl_Endpoint w = "") || (wl_ListenPort w =? 0)
          end || bool_decide (is_Some (cl_GRE link)))
      (linkName +:+ " wireguard settings are incomplete")
  else if bool_decide (cl_Transport link = FabricDirectL3) then
    when (negb (cl_Trusted link) || bool_decide (is_Some (cl_WireGuard link))
          || bool_decide (is_Some (cl_GRE link)))
      (linkName +:+ " direct_l3 requires trusted=true and no encapsulation settings")
  else if bool_decide (cl_Transport link = FabricGRE) then
    when (negb (cl_Trusted link) || bool_decide (cl_GRE link = None)
          || bool_decide (is_Some (cl_WireGuard link)))
      (linkName +:+ " gre requires trusted=true and GRE settings")
  else [linkName +:+ ".transport is unsupported"].

(** One fabric link of a node; the state is the link IDs and routing IDs seen. *)
Definition validate_node_link (nodeID name : string) (j : nat) (link : FabricLink)
    (st : gset string * gset N) : (gset string * gset N) * list string :=
  let '(seenLinks, seenRouting) := st in
  let linkName := at_index (name +:+ ".fabric_links") j in
  let '(seenLinks, e_id) :=
    match ValidateIdentifier (linkName +:+ ".id") (cl_ID link) with
    | Some e => (seenLinks, [e])
    | None => if bool_decide (cl_ID link ∈ seenLinks)
              then (seenLinks, [linkName +:+ ".id is duplicated"])
              else ({[cl_ID link]} ∪ seenLinks, [])
    end in
  let '(seenRouting, e_routing) :=
    if (cl_RoutingID link =? 0) || (cl_RoutingID link =? 65535)
    then (seenRouting, [linkName +:+ ".routing_id is reserved"])
    else if bool_decide (cl_RoutingID link ∈ seenRouting)
    then (seenRouting, [linkName +:+ ".routing_id is duplicated"])
    else ({[cl_RoutingID link]} ∪ seenRouting, []) in
  ((seenLinks, seenRouting),
   e_id
   ++ when (negb (validIdentifier (cl_PeerNodeID link)) || bool_decide (cl_PeerNodeID link = nodeID))
        (linkName +:+ ".peer_node_id is invalid")
   ++ when ((length (chars (cl_Interface link)) =? 0)%nat || (15 <? length (chars (cl_Interface link)))%nat)
        (linkName +:+ ".interface is invalid")
   ++ when (negb (validIPv4InterfacePrefix (cl_LocalAddress link))
            || negb (validIPv4Address (cl_PeerAddress link))
            || negb (Prefix_Contains (Prefix_Masked (cl_LocalAddress link))
                       (Addr_Unmap (cl_PeerAddress link)))
            || bool_decide (Addr_Unmap (p_addr (cl_LocalAddress link))
                            = Addr_Unmap (cl_PeerAddress link)))
        (linkName +:+ " has an invalid local/peer address pair")
   ++ when ((cl_MTU link <? 1280) || (9000 <? cl_MTU link))
        (linkName +:+ ".mtu must be between 1280 and 9000")
   ++ e_routing
   ++ when (cl_ResourceVersion link =? 0)
        (linkName +:+ ".resource_version must be greater than zero")
   ++ validate_transport linkName link).

Definition validate_node (i : nat) (node : Node) (nodes : gmap string Node) :
    gmap string Node * list string :=
  let name := at_index "nodes" i in
  let '(nodes, e_id) :=
    match ValidateIdentifier (name +:+ ".id") (nd_ID node) with
    | Some e => (nodes, [e])
    | None => match nodes !! nd_ID node with
              | Some _ => (nodes, [name +:+ ".id is duplicated"])
              | None => (<[nd_ID node := node]> nodes, [])
              end
    end in
  let '(_, e_roles) := vloop (validate_role name) 0 (nd_Roles node) ∅ in
  let '(_, e_ips) := vloop (validate_listen_ip name) 0 (nd_ListenIPs node) ∅ in
  let '(_, e_links) := vloop (validate_node_link (nd_ID node) name) 0 (nd_FabricLinks node) (∅, ∅) in
  (nodes,
   e_id
   ++ issue (ValidateIdentifier (name +:+ ".failure_domain") (nd_FailureDomain node))
   ++ when ((cy_MaxForwards (nd_Capacity node) =? 0)
            || (N.of_nat MaxForwardsPerSnapshot <? cy_MaxForwards (nd_Capacity node)))
        (name +:+ ".capacity.max_forwards must be between 1 and 100000")
   ++ when (length (nd_Roles node) =? 0)%nat (name +:+ ".roles must not be empty")
   ++ e_roles
   ++ when (64 <? size (nd_Labels node))%nat (name +:+ ".labels exceeds 64 entries")
   ++ mbind (λ kv : string * string,
        issue (ValidateIdentifier (name +:+ ".labels key") kv.1)
        ++ issue (ValidateIdentifier (name +:+ ".labels value") kv.2)) (map_to_list (nd_Labels node))
   ++ when (64 <? length (nd_ListenIPs node))%nat (name +:+ ".listen_ips exceeds 64 entries")
   ++ e_ips ++ e_links).

(** Every link has a peer node and a reciprocal link on it. *)
Definition validate_reciprocal (nodes : gmap string Node) (node : Node) (link : FabricLink) :
    list string :=
  match nodes !! cl_PeerNodeID link with
  | None => ["node " +:+ nd_ID node +:+ " fabric " +:+ cl_ID link +:+ " references an unknown peer"]
  | Some peer =>
      when (bool_decide (matchingLinks node peer = None))
        ("node " +:+ nd_ID node +:+ " fabric " +:+ cl_ID link +:+ " has no reciprocal peer link")
  end.

Definition dummyRuntimes (nodes : gmap string Node) : gmap string NodeRuntime :=
  map_imap (λ nodeID _, Some
    {| nr_ID := nodeID; nr_Available := false; nr_LastSeen := 0%Z; nr_Capabilities := ∅;
       nr_WireGuardPublicKey := "AQIDBAUGBwgJCgsMDQ4PEBESExQVFhcYGRobHB0eHyA=" |}) nodes.

(** The links of a node compiled as the scheduler would, and what is wrong. *)
Fixpoint compile_template (node : Node) (runtimes : gmap string NodeRuntime)
    (links : list FabricLink) : list FabricLinkSpec * list string :=
  match links with
  | [] => ([], [])
  | link :: rest =>
      let '(compiled, issues) := compile_template node runtimes rest in
      match compileLink link runtimes with
      | inl e => (compiled, ("node " +:+ nd_ID node +:+ " fabric " +:+ cl_ID link
                              +:+ " is invalid: " +:+ e) :: issues)
      | inr l => (l :: compiled, issues)
      end
  end.

Definition template_state (p : Plan) (node : Node) (links : list FabricLinkSpec) : DesiredState :=
  {| ds_SchemaVersion := CurrentSchemaVersion; ds_NodeID := nd_ID node; ds_Generation := 1;
     ds_ManagementDomain := ""; ds_ServiceCIDRs := pl_ServiceCIDRs p; ds_FabricLinks := links;
     ds_HealthChecks := []; ds_UserPolicies := []; ds_ProtocolBlocks := None; ds_Forwards := [] |}.

Definition validate_template (p : Plan) (runtimes : gmap string NodeRuntime) (node : Node) :
    list string :=
  let '(links, issues) := compile_template node runtimes (nd_FabricLinks node) in
  issues
  ++ match Validate (template_state p node links) with
     | [] => []
     | e => ["node " +:+ nd_ID node +:+ " fabric template is invalid: " +:+ ValidationError_Error e]
     end.

(** * Backend pools *)
Definition validate_backend `{!Idna} (name : string) (j : nat) (backend : Backend)
    (seenBackends : gset string) : gset string * list string :=
  let backendName := at_index (name +:+ ".backends") j in
  let '(seenBackends, e_id) :=
    match ValidateIdentifier (backendName +:+ ".id") (be_ID backend) with
    | Some e => (seenBackends, [e])
    | None => if bool_decide (be_ID backend ∈ seenBackends)
              then (seenBackends, [backendName +:+ ".id is duplicated"])
              else ({[be_ID backend]} ∪ seenBackends, [])
    end in
  (seenBackends,
   e_id
   ++ when (negb (validTargetEndpoint (be_Target backend))) (backendName +:+ ".target is invalid")
   ++ when (match be_ProbeEndpoint backend with
            | Some probe => negb (validTargetEndpoint probe) | None => false end)
        (backendName +:+ ".probe_endpoint is invalid")
   ++ when (be_ResourceVersion backend =? 0)
        (backendName +:+ ".resource_version must be greater than zero")).

Definition validate_health_policy (name : string) (health : HealthPolicy) : list string :=
  when ((hp_IntervalSeconds health <? 1) || (300 <? hp_IntervalSeconds health)
        || (hp_TimeoutMilliseconds health <? 100) || (30000 <? hp_TimeoutMilliseconds health)
        || (hp_IntervalSeconds health * 1000 <? hp_TimeoutMilliseconds health))
    (name +:+ ".health interval or timeout is invalid")
  ++ when ((hp_FailureThreshold health <? 1) || (10 <? hp_FailureThreshold health)
           || (hp_SuccessThreshold health <? 1) || (10 <? hp_SuccessThreshold health))
       (name +:+ ".health thresholds must be between 1 and 10")
  ++ when ((hp_StaleAfterSeconds health <? hp_IntervalSeconds health)
           || (3600 <? hp_StaleAfterSeconds health))
       (name +:+ ".health.stale_after_seconds must be at least one interval and at most 3600").

Definition validate_pool `{!Idna} (i : nat) (pool : BackendPool) (pools : gmap string BackendPool) :
    gmap string BackendPool * list string :=
  let name := at_index "backend_pools" i in
  let '(pools, e_id) :=
    match ValidateIdentifier (name +:+ ".id") (bp_ID pool) with
    | Some e => (pools, [e])
    | None => match pools !! bp_ID pool with
              | Some _ => (pools, [name +:+ ".id is duplicated"])
              | None => (<[bp_ID pool := pool]> pools, [])
              end
    end in
  let '(_, e_backends) := vloop (validate_backend name) 0 (bp_Backends pool) ∅ in
  (pools,
   e_id
   ++ when (bp_ResourceVersion pool =? 0) (name +:+ ".resource_version must be greater than zero")
   ++ when ((length (bp_Backends pool) =? 0)%nat || (maxBackendsPerPool <? length (bp_Backends pool))%nat)
        (name +:+ ".backends must contain between 1 and 128 entries")
   ++ e_backends
   ++ match bp_Health pool with Some h => validate_health_policy name h | None => [] end).

(** * User policies *)
Definition validate_plan_policies (p : Plan) : list string :=
  each (λ i policy, when (negb (up_TrafficClassID policy =? 0))
          (at_index "user_policies" i
           +:+ ".traffic_class_id must be zero; Controller allocates it")) (pl_UserPolicies p)
  ++ (if (length (pl_UserPolicies p) =? 0)%nat then []
      else
        let policyNodeID := match pl_Nodes p with node :: _ => nd_ID node | [] => "policy-validation" end in
        match Validate {| ds_SchemaVersion := CurrentSchemaVersion; ds_NodeID := policyNodeID;
                          ds_Generation := 1; ds_ManagementDomain := ""; ds_ServiceCIDRs := [];
                          ds_FabricLinks := []; ds_HealthChecks := [];
                          ds_UserPolicies := pl_UserPolicies p; ds_ProtocolBlocks := None;
                          ds_Forwards := [] |} with
        | [] => []
        | e => ["user_policies are invalid: " +:+ ValidationError_Error e]
        end).

(** * Forwards *)
Definition cluster_listen_key (forward : Forward) (protocol : Protocol) : string :=
  Addr_String (Addr_Unmap (ep_Address (cf_Listen forward))) +:+ "/" +:+ protocol
  +:+ "/" +:+ show (ep_Port (cf_Listen forward)).

Definition validate_plan_protocol (name : string) (forward : Forward) (_ : nat) (protocol : Protocol)
    (st : gset Protocol * gmap string string) : (gset Protocol * gmap string string) * list string :=
  let '(seen, listeners) := st in
  let key := cluster_listen_key forward protocol in
  let '(listeners, e_listen) :=
    match listeners !! key with
    | Some owner => (listeners, [name +:+ " listener conflicts with forward " +:+ owner])
    | None => (<[key := cf_ID forward]> listeners, [])
    end in
  (({[protocol]} ∪ seen, listeners),
   when (negb (bool_decide (protocol = ProtocolTCP)) && negb (bool_decide (protocol = ProtocolUDP)))
     (name +:+ ".protocols contains an unsupported value")
   ++ when (bool_decide (protocol ∈ seen)) (name +:+ ".protocols contains a duplicate")
   ++ e_listen).

Definition stable_target_port (backends : list Backend) : bool :=
  match backends with
  | [] => true
  | first :: rest =>
      forallb (λ backend, ep_Port (be_Target backend) =? ep_Port (be_Target first)) rest
  end.

Definition validate_plan_path (name : string) (serviceCIDRs : list Prefix)
    (nodes : gmap string Node) (pools : gmap string BackendPool) (forward : Forward) : list string :=
  if bool_decide (cf_PathMode forward = PathDirect) then
    when (bool_decide (is_Some (cf_Exit forward))) (name +:+ ".exit must be empty for direct path")
  else if bool_decide (cf_PathMode forward = PathViaExit) then
    let policy := effectiveFailurePolicy (cf_FailureDomainPolicy forward) in
    match cf_Exit forward with
    | None => [name +:+ ".exit is required for via_exit path"]
    | Some exit => validateSelector (name +:+ ".exit") exit nodes RoleExit
    end
    ++ when (negb (bool_decide (policy = FailureDomainDistinct))
             && negb (bool_decide (policy = FailureDomainPrefer))
             && negb (bool_decide (policy = FailureDomainAny)))
         (name +:+ ".failure_domain_policy is unsupported")
    ++ when (length serviceCIDRs =? 0)%nat (name +:+ " via_exit requires service_cidrs")
    ++ match pools !! cf_BackendPoolID forward with
       | None => []
       | Some pool =>
           when (negb (stable_target_port (bp_Backends pool)))
             (name +:+ " via_exit backend pool must use one stable target port for safe exit-first rollout")
       end
  else [name +:+ ".path_mode is unsupported"].

Definition validate_plan_limits (name : string) (forward : Forward) : list string :=
  when (match cf_RateLimit forward with
        | Some r => ((rl_IngressBitsPerSecond r =? 0) && (rl_EgressBitsPerSecond r =? 0))
                    || (rl_BurstBytes r =? 0)
        | None => false end) (name +:+ ".rate_limit is invalid")
  ++ when (match cf_TrafficQuota forward with
           | Some q => (tq_Bytes q =? 0) || negb (bool_decide (tq_Policy q = QuotaPolicyPause))
           | None => false end) (name +:+ ".traffic_quota is invalid")
  ++ when (negb (supported_lifecycle (cf_Lifecycle forward))) (name +:+ ".lifecycle is unsupported")
  ++ when (if bool_decide (cf_Lifecycle forward = LifecycleDraining)
           then match cf_DrainDeadline forward with Some t => Time_IsZero t | None => true end
           else bool_decide (is_Some (cf_DrainDeadline forward)))
       (name +:+ ".drain_deadline does not match lifecycle")
  ++ when (match cf_ExpiresAt forward with Some t => Time_IsZero t | None => false end)
       (name +:+ ".expires_at must not be zero").

Definition validate_plan_snat (name : string) (snat : SNATSpec) : list string :=
  if bool_decide (snat_Mode snat = SNATMasquerade) then
    when (bool_decide (is_Some (snat_Address snat)))
      (name +:+ ".snat.address must be empty for masquerade")
  else if bool_decide (snat_Mode snat = SNATStatic) then
    when (match snat_Address snat with Some a => negb (validIPv4Address a) | None => true end)
      (name +:+ ".snat.address is required and must be IPv4 for static mode")
  else [name +:+ ".snat.mode is unsupported"].

Definition validate_plan_forward (serviceCIDRs : list Prefix) (nodes : gmap string Node)
    (pools : gmap string BackendPool) (i : nat) (forward : Forward)
    (st : gset string * gmap string string) : (gset string * gmap string string) * list string :=
  let '(forwardIDs, listeners) := st in
  let name := at_index "forwards" i in
  let '(forwardIDs, e_id) :=
    match ValidateIdentifier (name +:+ ".id") (cf_ID forward) with
    | Some e => (forwardIDs, [e])
    | None => if bool_decide (cf_ID forward ∈ forwardIDs)
              then (forwardIDs, [name +:+ ".id is duplicated"])
              else ({[cf_ID forward]} ∪ forwardIDs, [])
    end in
  let '(st_protocols, e_protocols) :=
    vloop (validate_plan_protocol name forward) 0 (cf_Protocols forward) (∅, listeners) in
  ((forwardIDs, st_protocols.2),
   e_id
   ++ issue (ValidateIdentifier (name +:+ ".user_id") (cf_UserID forward))
   ++ when (bool_decide (pools !! cf_BackendPoolID forward = None))
        (name +:+ ".backend_pool_id does not exist")
   ++ when (negb (validListenEndpoint (cf_Listen forward))) (name +:+ ".listen is invalid")
   ++ when (length (cf_Protocols forward) =? 0)%nat (name +:+ ".protocols must not be empty")
   ++ e_protocols
   ++ validateSelector (name +:+ ".ingress") (cf_Ingress forward) nodes RoleIngress
   ++ validate_plan_path name serviceCIDRs nodes pools forward
   ++ when (cf_ResourceVersion forward =? 0) (name +:+ ".resource_version must be greater than zero")
   ++ validate_plan_limits name forward
   ++ validate_plan_snat name (cf_SNAT forward)).

(** * [Plan.Validate] *)
Definition plan_issues `{!Idna} (p : Plan) : list string :=
  let '(serviceCIDRs, e_cidrs) := vloop validate_plan_cidr 0 (pl_ServiceCIDRs p) [] in
  let '(nodes, e_nodes) := vloop validate_node 0 (pl_Nodes p) ∅ in
  let '(pools, e_pools) := vloop validate_pool 0 (pl_BackendPools p) ∅ in
  let '(_, e_forwards) :=
    vloop (validate_plan_forward serviceCIDRs nodes pools) 0 (pl_Forwards p) (∅, ∅) in
  validate_plan_header p ++ e_cidrs ++ e_nodes
  ++ mbind (λ node, mbind (validate_reciprocal nodes node) (nd_FabricLinks node)) (pl_Nodes p)
  ++ mbind (validate_template p (dummyRuntimes nodes)) (pl_Nodes p)
  ++ e_pools ++ validate_plan_policies p ++ e_forwards.

(** The issues of the returned [ValidationError]; none is [nil]. *)
Definition PlanValidate `{!Idna} (p : Plan) : list string := sort_slice str_lt (plan_issues p).
Definition PlanValid `{!Idna} (p : Plan) : Prop := PlanValidate p = [].

Definition PlanValidationError_Error (issues : list string) : string :=
  "invalid cluster plan: " +:+ Strings.String.concat "; " issues.
