(* ===== verification/PlanJson.v ===== *)
(** The JSON form of a cluster plan and its checksum, [internal/cluster/json.go]
    and [Plan.Checksum]: the text [encoding/json] gives to the struct tags of
    [types.go]. A plan keeps its times in the zone it was given; they are
    instants here, written in UTC. The text of a stored plan is represented by
    the plan it was made from. *)
From S2P Require Import Prelude.
From S2P Require Import GoNet.
From S2P Require Import GoCrypto.
From S2P Require Import SpecTypes.
From S2P Require Import SpecChecksum.
From S2P Require Import Hostname.
From S2P Require Import ClusterTypes.
From S2P Require Import ClusterValidate.

(** A map with [omitempty]; the encoder writes its keys in order. *)
Definition omit_map (k : string) (m : gmap string string) : list (string * json) :=
  if bool_decide (m = ∅) then []
  else [(k, JObj (map (λ kv, (kv.1, JStr kv.2)) (sort_slice (less_by fst) (map_to_list m))))].

Definition json_capacity (c : Capacity) : json :=
  JObj ([("max_forwards", JNum (cy_MaxForwards c))]
        ++ Json.omit_num "ingress_bits_per_second" (cy_IngressBitsPerSecond c)
        ++ Json.omit_num "egress_bits_per_second" (cy_EgressBitsPerSecond c)).

Definition json_reservation (r : Reservation) : json :=
  JObj (Json.omit_num "ingress_bits_per_second" (rs_IngressBitsPerSecond r)
        ++ Json.omit_num "egress_bits_per_second" (rs_EgressBitsPerSecond r)).

Definition json_rollout (r : RolloutStrategy) : json :=
  JObj (Json.omit_num "canary_percent" (ro_CanaryPercent r)
        ++ Json.omit_num "bake_seconds" (ro_BakeSeconds r)).

Definition json_selector (s : NodeSelector) : json :=
  JObj (Json.omit_list "node_ids" JStr (ns_NodeIDs s) ++ omit_map "match_labels" (ns_MatchLabels s)).

Definition json_wireguard_link (w : WireGuardLink) : json :=
  JObj ([("endpoint", JStr (wl_Endpoint w)); ("listen_port", JNum (wl_ListenPort w))]
        ++ Json.omit_num "persistent_keepalive_seconds" (wl_PersistentKeepaliveSeconds w)).

Definition json_cluster_link (l : FabricLink) : json :=
  JObj ([("id", JStr (cl_ID l)); ("peer_node_id", JStr (cl_PeerNodeID l));
         ("transport", JStr (cl_Transport l)); ("interface", JStr (cl_Interface l));
         ("local_address", Json.prefix (cl_LocalAddress l));
         ("peer_address", Json.addr (cl_PeerAddress l)); ("mtu", JNum (cl_MTU l));
         ("routing_id", JNum (cl_RoutingID l))]
        ++ Json.omit_bool "trusted" (cl_Trusted l)
        ++ Json.omit_ptr "wireguard" json_wireguard_link (cl_WireGuard l)
        ++ Json.omit_ptr "gre" json_gre (cl_GRE l)
        ++ [("resource_version", JNum (cl_ResourceVersion l))]).

Definition json_node (n : Node) : json :=
  JObj ([("id", JStr (nd_ID n)); ("enabled", JBool (nd_Enabled n));
         ("roles", Json.nil_list JStr (nd_Roles n))]
        ++ omit_map "labels" (nd_Labels n)
        ++ Json.omit_list "listen_ips" Json.addr (nd_ListenIPs n)
        ++ [("failure_domain", JStr (nd_FailureDomain n)); ("capacity", json_capacity (nd_Capacity n))]
        ++ Json.omit_list "fabric_links" json_cluster_link (nd_FabricLinks n)
        ++ Json.omit_ptr "protocol_blocks" json_blocks (nd_ProtocolBlocks n)).

Definition json_health_policy (h : HealthPolicy) : json :=
  JObj [("interval_seconds", JNum (hp_IntervalSeconds h));
        ("timeout_milliseconds", JNum (hp_TimeoutMilliseconds h));
        ("failure_threshold", JNum (hp_FailureThreshold h));
        ("success_threshold", JNum (hp_SuccessThreshold h));
        ("stale_after_seconds", JNum (hp_StaleAfterSeconds h))].

Definition json_backend (b : Backend) : json :=
  JObj ([("id", JStr (be_ID b)); ("target", json_endpoint (be_Target b))]
        ++ Json.omit_ptr "probe_endpoint" json_endpoint (be_ProbeEndpoint b)
        ++ [("priority", JNum (be_Priority b)); ("resource_version", JNum (be_ResourceVersion b))]).

Definition json_pool (p : BackendPool) : json :=
  JObj ([("id", JStr (bp_ID p)); ("backends", Json.nil_list json_backend (bp_Backends p))]
        ++ Json.omit_ptr "health" json_health_policy (bp_Health p)
        ++ [("resource_version", JNum (bp_ResourceVersion p))]).

Definition json_cluster_forward (f : Forward) : option json :=
  expires ← json_time "expires_at" (cf_ExpiresAt f);
  drain ← json_time "drain_deadline" (cf_DrainDeadline f);
  Some (JObj ([("id", JStr (cf_ID f)); ("user_id", JStr (cf_UserID f));
         ("protocols", Json.nil_list JStr (cf_Protocols f));
         ("listen", json_endpoint (cf_Listen f)); ("path_mode", JStr (cf_PathMode f));
         ("ingress", json_selector (cf_Ingress f))]
        ++ Json.omit_ptr "exit" json_selector (cf_Exit f)
        ++ Json.omit_str "failure_domain_policy" (cf_FailureDomainPolicy f)
        ++ [("backend_pool_id", JStr (cf_BackendPoolID f)); ("snat", json_snat (cf_SNAT f));
            ("reservation", json_reservation (cf_Reservation f))]
        ++ Json.omit_ptr "rate_limit" json_rate (cf_RateLimit f)
        ++ Json.omit_ptr "traffic_quota" json_quota (cf_TrafficQuota f)
        ++ expires ++ drain
        ++ [("lifecycle", JStr (cf_Lifecycle f)); ("resource_version", JNum (cf_ResourceVersion f))])).

Definition json_plan (p : Plan) : option json :=
  forwards ← mapM json_cluster_forward (pl_Forwards p);
  Some (JObj ([("schema_version", JNum (pl_SchemaVersion p)); ("id", JStr (pl_ID p));
         ("revision", JNum (pl_Revision p));
         ("node_offline_after_seconds", JNum (pl_NodeOfflineAfterSeconds p))]
        ++ Json.omit_ptr "rollout" json_rollout (pl_Rollout p)
        ++ Json.omit_list "service_cidrs" Json.prefix (pl_ServiceCIDRs p)
        ++ [("nodes", Json.nil_list json_node (pl_Nodes p))]
        ++ Json.omit_list "user_policies" json_policy (pl_UserPolicies p)
        ++ [("backend_pools", Json.nil_list json_pool (pl_BackendPools p));
            ("forwards", Json.nil_list id forwards)])).

Section json.
Context `{!Idna}.

(** [Plan.Checksum]; [None] is the encoder's error. *)
Definition PlanChecksum (p : Plan) : option string :=
  j ← json_plan (PlanCanonical p);
  Some (hex_encode (SHA256.Sum256 (Json.print j))).

Definition MaxPlanJSONBytes : N := N.shiftl 64 20.
Definition plan_size (p : Plan) : N :=
  match json_plan p with Some j => N.of_nat (length (Json.print j)) | None => 0 end.

(** [EncodePlanJSON] and [DecodePlanJSON]: the issues of a plan that is not
    valid, or a message. *)
Definition EncodePlanJSON (p : Plan) : (string + list string) + Plan :=
  match PlanValidate p with
  | _ :: _ as issues => inl (inr issues)
  | [] =>
      match json_plan (PlanCanonical p) with
      | Some _ => inr (PlanCanonical p)
      | None => inl (inl "encode cluster plan")
      end
  end.

Definition DecodePlanJSON (encoded : Plan) : (string + list string) + Plan :=
  if MaxPlanJSONBytes <? plan_size encoded then inl (inl "cluster plan is too large")
  else match PlanValidate encoded with
  | _ :: _ as issues => inl (inr issues)
  | [] => inr encoded
  end.

End json.
