(* ===== verification/PlanFacts.v ===== *)
(** What an accepted cluster plan guarantees, for the plan and for its
    canonical form. *)
From S2P Require Import Prelude.
From S2P Require Import GoNet.
From S2P Require Import SpecTypes.
From S2P Require Import SpecCanonical.
From S2P Require Import SpecValidate.
From S2P Require Import SpecFacts.
From S2P Require Import Hostname.
From S2P Require Import Health.
From S2P Require Import ClusterTypes.
From S2P Require Import ClusterValidate.

Section plan_facts.
Context {idna : Idna}.

Lemma PlanValid_inv p :
  PlanValid p →
  ∃ cidrs nodes pools fs,
    validate_plan_header p = []
    ∧ vloop validate_plan_cidr 0 (pl_ServiceCIDRs p) [] = (cidrs, [])
    ∧ vloop validate_node 0 (pl_Nodes p) ∅ = (nodes, [])
    ∧ Forall (λ node, Forall (λ link, validate_reciprocal nodes node link = []) (nd_FabricLinks node))
        (pl_Nodes p)
    ∧ vloop validate_pool 0 (pl_BackendPools p) ∅ = (pools, [])
    ∧ validate_plan_policies p = []
    ∧ vloop (validate_plan_forward cidrs nodes pools) 0 (pl_Forwards p) (∅, ∅) = (fs, []).
Proof.
  assert (∀ {A} (f : A → list string) l, mbind f l = [] → Forall (λ x, f x = []) l) as Hbind.
  { intros A f l. induction l as [|x l IH]; cbn; [constructor|].
    intros [H1 H2]%app_nil_iff. constructor; auto. }
  unfold PlanValid, PlanValidate, plan_issues.
  destruct (vloop validate_plan_cidr _ _ _) as [cidrs ec].
  destruct (vloop validate_node _ _ _) as [nodes en].
  destruct (vloop validate_pool _ _ _) as [pools ep].
  destruct (vloop (validate_plan_forward _ _ _) _ _ _) as [fs ef] eqn:Ef.
  intros H. assert (∀ l, sort_slice str_lt l = [] → l = []) as Hs.
  { intros l Hl. apply Permutation_nil. by rewrite <- Hl, sort_slice_perm. }
  apply Hs in H. apply app_nil_iff in H as [H0 H]. apply app_nil_iff in H as [-> H].
  apply app_nil_iff in H as [-> H]. apply app_nil_iff in H as [Hr H].
  apply app_nil_iff in H as [_ H]. apply app_nil_iff in H as [-> H].
  apply app_nil_iff in H as [Hp ->].
  exists cidrs, nodes, pools, fs. split_and!; try done.
  apply Hbind in Hr. eapply Forall_impl; [exact Hr|]. intros node. apply Hbind.
Qed.

(** ** Nodes *)
Record node_ok (n : Node) : Prop := {
  no_id : validIdentifier (nd_ID n) = true;
  no_capacity : 1 ≤ cy_MaxForwards (nd_Capacity n) ≤ 100000;
}.

Lemma identifier_step {A} name value (s : A) (ok : A * list string) :
  match ValidateIdentifier name value with Some e => (s, [e]) | None => ok end.2 = [] →
  validIdentifier value = true
  ∧ match ValidateIdentifier name value with Some e => (s, [e]) | None => ok end = ok.
Proof. unfold ValidateIdentifier. by destruct (validIdentifier value). Qed.

Lemma validate_nodes_silent l nodes :
  vloop validate_node 0 l ∅ = (nodes, []) →
  NoDup (nd_ID <$> l) ∧ Forall node_ok l
  ∧ ∀ id n, nodes !! id = Some n ↔ n ∈ l ∧ nd_ID n = id.
Proof.
  intros H. set (I := λ (done : list Node) (m : gmap string Node),
    NoDup (nd_ID <$> done) ∧ Forall node_ok done
    ∧ ∀ id n, m !! id = Some n ↔ n ∈ done ∧ nd_ID n = id).
  assert (I l nodes) as HI; [|done].
  eapply vloop_inv; [..|exact H].
  { split_and!; [constructor|constructor|]. intros id n. rewrite lookup_empty, elem_of_nil. naive_solver. }
  intros done n m m' (Hnd & Hok & Hm) Hstep. unfold validate_node in Hstep.
  destruct (ValidateIdentifier _ (nd_ID n)) eqn:Eid; [destruct (vloop (validate_role _) _ _ _), (vloop (validate_listen_ip _) _ _ _), (vloop (validate_node_link _ _) _ _ _); apply (f_equal snd) in Hstep; discriminate Hstep|].
  unfold ValidateIdentifier in Eid. destruct (validIdentifier (nd_ID n)) eqn:Ev; [|done].
  destruct (m !! nd_ID n) as [x|] eqn:Em.
  { destruct (vloop (validate_role _) _ _ _), (vloop (validate_listen_ip _) _ _ _), (vloop (validate_node_link _ _) _ _ _); apply (f_equal snd) in Hstep; discriminate Hstep. }
  destruct (vloop (validate_role _) _ _ _) as [? er].
  destruct (vloop (validate_listen_ip _) _ _ _) as [? ei].
  destruct (vloop (validate_node_link _ _) _ _ _) as [? el].
  injection Hstep as <- Hi. rewrite !app_nil_iff, when_nil in Hi.
  destruct Hi as (_ & Hcap & _). reflect_bool.
  assert (nd_ID n ∉ nd_ID <$> done) as Hn.
  { intros (y & Hy & Hin)%list_elem_of_fmap.
    assert (m !! nd_ID n = Some y) by by apply Hm. congruence. }
  split_and!.
  - rewrite fmap_app. apply NoDup_app. split_and!; [done| |by apply NoDup_singleton].
    intros x Hx ->%list_elem_of_singleton. done.
  - apply Forall_app. split; [done|]. constructor; [|constructor]. split; [done|].
    change (N.of_nat MaxForwardsPerSnapshot) with 100000 in *. lia.
  - intros id y. rewrite elem_of_app, list_elem_of_singleton. destruct (decide (id = nd_ID n)) as [->|Hne].
    + rewrite lookup_insert_eq. split; [naive_solver|]. intros [[Hy| ->] Hid]; [|done].
      exfalso. apply Hn. rewrite <- Hid. by apply list_elem_of_fmap_2.
    + rewrite lookup_insert_ne by done. rewrite Hm. naive_solver.
Qed.

(** ** Backend pools *)
Record pool_ok (q : BackendPool) : Prop := {
  qo_id : validIdentifier (bp_ID q) = true;
  qo_backends : bp_Backends q ≠ [];
  qo_ids : NoDup (be_ID <$> bp_Backends q);
  qo_targets : Forall (λ b, validTargetEndpoint (be_Target b) = true) (bp_Backends q);
}.

Lemma validate_backends_silent name l seen :
  vloop (validate_backend name) 0 l ∅ = (seen, []) →
  NoDup (be_ID <$> l) ∧ Forall (λ b, validTargetEndpoint (be_Target b) = true) l.
Proof.
  intros H. set (I := λ (done : list Backend) (m : gset string),
    NoDup (be_ID <$> done) ∧ Forall (λ b, validTargetEndpoint (be_Target b) = true) done
    ∧ ∀ id, id ∈ m ↔ id ∈ be_ID <$> done).
  assert (I l seen) as (H1 & H2 & _); [|done].
  eapply vloop_inv; [..|exact H].
  { split_and!; [constructor|constructor|]. set_solver. }
  intros done b m m' (Hnd & Hok & Hm) Hstep. unfold validate_backend, ValidateIdentifier in Hstep.
  destruct (validIdentifier (be_ID b)); [|discriminate Hstep].
  cbn -[String.append at_index bool_decide validTargetEndpoint N.eqb] in Hstep.
  destruct (bool_decide (be_ID b ∈ m)) eqn:Em; [discriminate Hstep|]. reflect_bool.
  injection Hstep as <- Hi. rewrite !app_nil_iff, !when_nil in Hi.
  destruct Hi as (Ht & _ & _). reflect_bool. split_and!.
  - rewrite fmap_app. apply NoDup_app. split_and!; [done| |by apply NoDup_singleton].
    intros x Hx ->%list_elem_of_singleton. by apply Em, Hm.
  - apply Forall_app. split; [done|]. by constructor.
  - intros id. rewrite fmap_app. change (be_ID <$> [b]) with [be_ID b].
    rewrite elem_of_app, list_elem_of_singleton, elem_of_union, elem_of_singleton, Hm. tauto.
Qed.

Lemma validate_pools_silent l pools :
  vloop validate_pool 0 l ∅ = (pools, []) →
  NoDup (bp_ID <$> l) ∧ Forall pool_ok l
  ∧ ∀ id q, pools !! id = Some q ↔ q ∈ l ∧ bp_ID q = id.
Proof.
  intros H. set (I := λ (done : list BackendPool) (m : gmap string BackendPool),
    NoDup (bp_ID <$> done) ∧ Forall pool_ok done
    ∧ ∀ id q, m !! id = Some q ↔ q ∈ done ∧ bp_ID q = id).
  assert (I l pools) as HI; [|done].
  eapply vloop_inv; [..|exact H].
  { split_and!; [constructor|constructor|]. intros id n. rewrite lookup_empty, elem_of_nil. naive_solver. }
  intros done q m m' (Hnd & Hok & Hm) Hstep. unfold validate_pool, ValidateIdentifier in Hstep.
  destruct (vloop (validate_backend _) _ _ _) as [sb eb] eqn:Eb.
  destruct (validIdentifier (bp_ID q)) eqn:Ev; [|discriminate Hstep].
  cbn -[String.append at_index N.eqb maxBackendsPerPool Nat.ltb Nat.eqb length] in Hstep.
  destruct (m !! bp_ID q) as [x|] eqn:Em; [discriminate Hstep|].
  injection Hstep as <- Hi. rewrite !app_nil_iff, !when_nil in Hi.
  destruct Hi as (_ & Hlen & -> & _). apply validate_backends_silent in Eb as [Hb1 Hb2].
  apply orb_false_iff in Hlen as [Hlen _]. apply Nat.eqb_neq in Hlen.
  assert (bp_ID q ∉ bp_ID <$> done) as Hn.
  { intros (y & Hy & Hin)%list_elem_of_fmap.
    assert (m !! bp_ID q = Some y) by by apply Hm. congruence. }
  split_and!.
  - rewrite fmap_app. apply NoDup_app. split_and!; [done| |by apply NoDup_singleton].
    intros x Hx ->%list_elem_of_singleton. done.
  - apply Forall_app. split; [done|]. constructor; [|constructor]. split; try done.
    intros Hb. by rewrite Hb in Hlen.
  - intros id y. rewrite elem_of_app, list_elem_of_singleton. destruct (decide (id = bp_ID q)) as [->|Hne].
    + rewrite lookup_insert_eq. split; [naive_solver|]. intros [[Hy| ->] Hid]; [|done].
      exfalso. apply Hn. rewrite <- Hid. by apply list_elem_of_fmap_2.
    + rewrite lookup_insert_ne by done. rewrite Hm. naive_solver.
Qed.

(** ** Forwards *)
Record forward_placeable (pools : gmap string BackendPool) (f : Forward) : Prop := {
  fp_id : validIdentifier (cf_ID f) = true;
  fp_user : validIdentifier (cf_UserID f) = true;
  fp_pool : is_Some (pools !! cf_BackendPoolID f);
  fp_path : cf_PathMode f = PathDirect ∧ cf_Exit f = None
            ∨ cf_PathMode f = PathViaExit ∧ is_Some (cf_Exit f);
}.

Lemma validate_plan_forwards_silent cidrs nodes pools l st :
  vloop (validate_plan_forward cidrs nodes pools) 0 l (∅, ∅) = (st, []) →
  NoDup (cf_ID <$> l) ∧ Forall (forward_placeable pools) l.
Proof.
  intros H. set (I := λ (done : list Forward) (m : gset string * gmap string string),
    NoDup (cf_ID <$> done) ∧ Forall (forward_placeable pools) done
    ∧ ∀ id, id ∈ m.1 ↔ id ∈ cf_ID <$> done).
  assert (I l st) as (H1 & H2 & _); [|done].
  eapply vloop_inv; [..|exact H].
  { split_and!; [constructor|constructor|]. set_solver. }
  intros done f [m ls] m' (Hnd & Hok & Hm) Hstep.
  unfold validate_plan_forward, ValidateIdentifier in Hstep.
  destruct (vloop (validate_plan_protocol _ _) _ _ _) as [sp ep].
  destruct (validIdentifier (cf_ID f)) eqn:Ei; [|discriminate Hstep].
  cbn -[String.append at_index bool_decide N.eqb validateSelector validate_plan_path
        validate_plan_limits validate_plan_snat] in Hstep.
  destruct (bool_decide (cf_ID f ∈ m)) eqn:Em; [discriminate Hstep|]. reflect_bool.
  injection Hstep as <- Hi. rewrite !app_nil_iff, !when_nil in Hi.
  destruct Hi as (Hu & Hp & _ & _ & _ & _ & Hpath & _).
  apply bool_decide_eq_false, not_eq_None_Some in Hp.
  destruct (validIdentifier (cf_UserID f)) eqn:Eu; [|discriminate Hu].
  cbn [fst] in *. split_and!.
  - rewrite fmap_app. apply NoDup_app. split_and!; [done| |by apply NoDup_singleton].
    intros x Hx ->%list_elem_of_singleton. by apply Em, Hm.
  - apply Forall_app. split; [done|]. constructor; [|constructor]. split; try done.
    unfold validate_plan_path in Hpath.
    destruct (bool_decide (cf_PathMode f = PathDirect)) eqn:E1; reflect_bool.
    { left. split; [done|]. apply when_nil, bool_decide_eq_false in Hpath.
      destruct (cf_Exit f); [|done]. exfalso. by apply Hpath. }
    destruct (bool_decide (cf_PathMode f = PathViaExit)) eqn:E2; reflect_bool; [|done].
    right. split; [done|]. apply app_nil_iff in Hpath as [Hpath _].
    destruct (cf_Exit f); [eauto|done].
  - intros id. cbn [fst]. rewrite fmap_app. change (cf_ID <$> [f]) with [cf_ID f].
    rewrite elem_of_app, list_elem_of_singleton, elem_of_union, elem_of_singleton, Hm. tauto.
Qed.

(** ** The plan and its canonical form *)
Lemma canonicalNode_ok n : node_ok n → node_ok (canonicalNode n).
Proof. intros []. by split. Qed.

Lemma canonicalPool_ids q : be_ID <$> bp_Backends (canonicalPool q) ≡ₚ be_ID <$> bp_Backends q.
Proof.
  cbn. rewrite sort_slice_perm. change (map canonicalBackend (bp_Backends q))
    with (canonicalBackend <$> bp_Backends q). by rewrite <- list_fmap_compose.
Qed.

Lemma keys_canonical {A} (key : A → string) (g : A → A) l :
  (∀ x, key (g x) = key x) → key <$> sort_slice (less_by key) (map g l) ≡ₚ key <$> l.
Proof.
  intros Hg. rewrite sort_slice_perm. change (map g l) with (g <$> l).
  rewrite <- list_fmap_compose. erewrite list_fmap_ext; [done|]. intros _ x _. apply Hg.
Qed.

(** What the scheduler and the rollout rely on. *)
Record plan_facts (p : Plan) : Prop := {
  pf_nodes : NoDup (nd_ID <$> pl_Nodes p);
  pf_node : ∀ n, n ∈ pl_Nodes p → node_ok n;
  pf_pools : NoDup (bp_ID <$> pl_BackendPools p);
  pf_pool : ∀ q, q ∈ pl_BackendPools p → bp_Backends q ≠ [] ∧ NoDup (be_ID <$> bp_Backends q);
  pf_forwards : NoDup (cf_ID <$> pl_Forwards p);
  pf_count : (length (pl_Forwards p) ≤ MaxForwardsPerSnapshot)%nat;
  pf_forward : ∀ f, f ∈ pl_Forwards p →
      (∃ q, q ∈ pl_BackendPools p ∧ bp_ID q = cf_BackendPoolID f)
      ∧ (cf_PathMode f = PathDirect ∧ cf_Exit f = None
         ∨ cf_PathMode f = PathViaExit ∧ is_Some (cf_Exit f));
}.

Lemma PlanValid_facts p : PlanValid p → plan_facts p.
Proof.
  intros (cidrs & nodes & pools & fs & Hh & _ & Hn & _ & Hp & _ & Hf)%PlanValid_inv.
  apply validate_nodes_silent in Hn as (Hn1 & Hn2 & _).
  apply validate_pools_silent in Hp as (Hp1 & Hp2 & Hp3).
  apply validate_plan_forwards_silent in Hf as (Hf1 & Hf2).
  rewrite Forall_forall in Hn2. rewrite Forall_forall in Hp2. rewrite Forall_forall in Hf2. split; try done.
  - intros q Hq. destruct (Hp2 q Hq). done.
  - unfold validate_plan_header in Hh. rewrite !app_nil_iff in Hh.
    destruct_and! Hh. apply when_nil in H9. by apply Nat.ltb_ge in H9.
  - intros f Hf. destruct (Hf2 f Hf) as [_ _ [q Hq] Hpath]. split; [|done].
    apply Hp3 in Hq. eauto.
Qed.

Lemma plan_facts_canonical p : plan_facts p → plan_facts (PlanCanonical p).
Proof.
  intros []. split; cbn [PlanCanonical pl_Nodes pl_BackendPools pl_Forwards].
  - by rewrite keys_canonical.
  - intros n. rewrite elem_of_sort_slice. intros (m & -> & Hm)%list_elem_of_fmap.
    by apply canonicalNode_ok, pf_node0.
  - by rewrite keys_canonical.
  - intros q. rewrite elem_of_sort_slice. intros (r & -> & Hr)%list_elem_of_fmap.
    destruct (pf_pool0 r Hr) as [H1 H2]. split; [|by rewrite canonicalPool_ids].
    intros Hn. apply H1. cbn in Hn. apply (f_equal length) in Hn.
    rewrite length_sort_slice, length_map in Hn. by apply nil_length_inv.
  - by rewrite keys_canonical.
  - by rewrite length_sort_slice, length_map.
  - intros f. rewrite elem_of_sort_slice. intros (g & -> & Hg)%list_elem_of_fmap.
    destruct (pf_forward0 g Hg) as [(q & Hq & Hid) Hpath]. split.
    + exists (canonicalPool q). split; [|done]. rewrite elem_of_sort_slice.
      by apply (list_elem_of_fmap_2 canonicalPool).
    + cbn. destruct Hpath as [[-> ->]|[-> [e ->]]]; [by left|right; by split; [|eexists]].
Qed.
End plan_facts.
