(* ===== verification/Scheduler.v ===== *)
(** Placement of forwards on nodes, [Place] of
    [internal/cluster/scheduler.go]. The order in which Go ranges over the map
    of nodes is the operation of [MapRange], about which only its law is known. *)
From S2P Require Import Prelude.
From S2P Require Import GoNet.
From S2P Require Import SpecTypes.
From S2P Require Import SpecCanonical.
From S2P Require Import SpecValidate.
From S2P Require Import Hostname.
From S2P Require Import Health.
From S2P Require Import ClusterTypes.
From S2P Require Import ClusterValidate.
From S2P Require Import PlanFacts.

(** [for _, node := range nodes]: the values of the map in some order. *)
Class MapRange := range_nodes : gmap string Node → list Node.
Class MapRangeLaws (R : MapRange) : Prop :=
  range_nodes_perm m : range_nodes m ≡ₚ (map_to_list m).*2.

Record nodeUsage := MkNodeUsage { us_forwards : N; us_ingress : N; us_egress : N }.
Definition nodeUsageZero : nodeUsage := MkNodeUsage 0 0 0.
(** [usage[id]] *)
Definition usage_of (usage : gmap string nodeUsage) (id : string) : nodeUsage :=
  default nodeUsageZero (usage !! id).

Definition capability (runtime : NodeRuntime) (name : string) : N :=
  default 0 (nr_Capabilities runtime !! name).

Definition supportsFabric (runtime : NodeRuntime) (transport : FabricTransport) : bool :=
  if (capability runtime "fabric.policy-routing" <? 1) || (capability runtime "fabric.mss-clamp" <? 1)
  then false
  else if bool_decide (transport = FabricWireGuard)
  then (1 <=? capability runtime "fabric.wireguard")
       && negb (bool_decide (nr_WireGuardPublicKey runtime = ""))
  else if bool_decide (transport = FabricDirectL3) then 1 <=? capability runtime "fabric.direct-l3"
  else if bool_decide (transport = FabricGRE) then 1 <=? capability runtime "fabric.gre"
  else false.

(** * [supports] *)
Definition need (cond : bool) (name : string) (version : N) : list (string * N) :=
  if cond then [(name, version)] else [].

(** The [required] map of [supports], as the assignments made to it. *)
Definition placement_needs (plan : Plan) (forward : Forward) (role : NodeRole) (pool : BackendPool) :
    list (string * N) :=
  let direct := bool_decide (cf_PathMode forward = PathDirect) in
  let via := bool_decide (cf_PathMode forward = PathViaExit) in
  let ingress := bool_decide (role = RoleIngress) in
  let exit := bool_decide (role = RoleExit) in
  let limits rate quota :=
    need rate "tc.rate-limit" 1 ++ need quota "usage.l3" 1
    ++ need quota "nft.directional-counters" 1 in
  (if direct then [("nft.direct", 2)]
   else [("nft.via-exit", 1); ("fabric.policy-routing", 1); ("fabric.mss-clamp", 1)])
  ++ limits (ingress && bool_decide (is_Some (cf_RateLimit forward)))
            (ingress && bool_decide (is_Some (cf_TrafficQuota forward)))
  ++ need (bool_decide (snat_Mode (cf_SNAT forward) = SNATStatic)) "nft.static-snat" 1
  ++ need (bool_decide (is_Some (cf_ExpiresAt forward))
           || bool_decide (is_Some (cf_DrainDeadline forward))) "policy.local-deadline" 1
  ++ need (bool_decide (cf_Lifecycle forward = LifecycleDraining)) "nft.drain" 1
  ++ need (bool_decide (cf_Lifecycle forward = LifecycleForceDeleting)) "nft.force-delete" 1
  ++ (if ingress then
        mbind (λ policy : UserPolicySpec,
          if negb (bool_decide (up_UserID policy = cf_UserID forward)) then []
          else limits (bool_decide (is_Some (up_RateLimit policy)))
                      (bool_decide (is_Some (up_TrafficQuota policy)))) (pl_UserPolicies plan)
      else [])
  ++ need (bool_decide (is_Some (bp_Health pool)) && (direct && ingress || via && exit))
       "health.tcp-connect" 1.

Definition supports (runtime : NodeRuntime) (plan : Plan) (forward : Forward) (role : NodeRole)
    (pool : BackendPool) : bool :=
  forallb (λ nv : string * N, negb (capability runtime nv.1 <? nv.2))
    (placement_needs plan forward role pool).

(** * Capacity *)
Definition fits (node : Node) (current : nodeUsage) (reservation : Reservation) : bool :=
  let capacity := nd_Capacity node in
  if cy_MaxForwards capacity <=? us_forwards current then false
  else if negb (cy_IngressBitsPerSecond capacity =? 0)
          && (usub 64 (cy_IngressBitsPerSecond capacity) (us_ingress current)
              <? rs_IngressBitsPerSecond reservation) then false
  else if negb (cy_EgressBitsPerSecond capacity =? 0)
          && (usub 64 (cy_EgressBitsPerSecond capacity) (us_egress current)
              <? rs_EgressBitsPerSecond reservation) then false
  else true.

Definition consume (usages : gmap string nodeUsage) (node : Node) (reservation : Reservation) :
    gmap string nodeUsage :=
  let current := usage_of usages (nd_ID node) in
  <[nd_ID node :=
      MkNodeUsage (uadd 32 (us_forwards current) 1)
        (uadd 64 (us_ingress current) (rs_IngressBitsPerSecond reservation))
        (uadd 64 (us_egress current) (rs_EgressBitsPerSecond reservation))]> usages.

(** * Choosing a node *)

(** The conditions of the candidate loop. *)
Definition eligible (plan : Plan) (forward : Forward) (role : NodeRole) (selector : NodeSelector)
    (oppositeID : string) (nodes : gmap string Node) (runtimes : gmap string NodeRuntime)
    (usage : gmap string nodeUsage) (pool : BackendPool) (node : Node) : bool :=
  if bool_decide (nd_ID node = oppositeID) || negb (nd_Enabled node) || negb (nodeHasRole node role)
     || negb (selectorMatches selector node)
     || negb (fits node (usage_of usage (nd_ID node)) (effectiveReservation forward))
  then false
  else match runtimes !! nd_ID node with
  | None => false
  | Some runtime =>
      if negb (nr_Available runtime) || negb (supports runtime plan forward role pool) then false
      else if bool_decide (oppositeID = "") then true
      else
        let opposite := default NodeZero (nodes !! oppositeID) in
        match matchingLinks opposite node with
        | None => false
        | Some (firstLink, secondLink) =>
            if negb (supportsFabric (default NodeRuntimeZero (runtimes !! nd_ID opposite))
                       (cl_Transport firstLink))
               || negb (supportsFabric runtime (cl_Transport secondLink)) then false
            else negb (bool_decide (effectiveFailurePolicy (cf_FailureDomainPolicy forward)
                                    = FailureDomainDistinct)
                       && bool_decide (nd_FailureDomain node = nd_FailureDomain opposite))
        end
  end.

Definition load_product (usage : gmap string nodeUsage) (a b : Node) : N :=
  wrap 64 (us_forwards (usage_of usage (nd_ID a)) * cy_MaxForwards (nd_Capacity b)).

(** The callback candidates are sorted with: a different failure domain first,
    where that is preferred, then the lower load, then the ID. *)
Definition less_candidate (forward : Forward) (oppositeID : string) (nodes : gmap string Node)
    (usage : gmap string nodeUsage) (a b : Node) : bool :=
  let domain := nd_FailureDomain (default NodeZero (nodes !! oppositeID)) in
  let aDistinct := negb (bool_decide (nd_FailureDomain a = domain)) in
  let bDistinct := negb (bool_decide (nd_FailureDomain b = domain)) in
  if negb (bool_decide (oppositeID = ""))
     && bool_decide (effectiveFailurePolicy (cf_FailureDomainPolicy forward) = FailureDomainPrefer)
     && negb (Bool.eqb aDistinct bDistinct)
  then aDistinct
  else
    let left := load_product usage a b in
    let right := load_product usage b a in
    if left =? right then str_lt (nd_ID a) (nd_ID b) else left <? right.

Definition chooseNode `{!MapRange} (plan : Plan) (forward : Forward) (role : NodeRole)
    (selector : NodeSelector) (oppositeID previousID : string) (nodes : gmap string Node)
    (runtimes : gmap string NodeRuntime) (usage : gmap string nodeUsage) (pool : BackendPool) :
    option Node :=
  let candidates :=
    filter (λ node, eligible plan forward role selector oppositeID nodes runtimes usage pool node = true)
      (range_nodes nodes) in
  let retained :=
    if bool_decide (previousID = "") then None
    else head (filter (λ node, nd_ID node = previousID) candidates) in
  match retained with
  | Some node => Some node
  | None => head (sort_slice (less_candidate forward oppositeID nodes usage) candidates)
  end.

(** * Choosing a backend *)
Definition preferredBackend (backends : list Backend) (previousID : string) : Backend :=
  let candidates := sort_slice less_backend backends in
  match candidates with
  | [] => BackendZero
  | first :: _ =>
      default first
        (head (filter (λ b, be_Priority b = be_Priority first ∧ be_ID b = previousID) candidates))
  end.

(** A fresh observation of this version of the backend. *)
Definition fresh (health : HealthPolicy) (backend : Backend) (now : Time)
    (observation : option HealthObservation) : bool :=
  match observation with
  | None => false
  | Some o =>
      (ho_ResourceVersion o =? be_ResourceVersion backend) && negb (Time_IsZero (ho_ObservedAt o))
      && negb (Time_Before now (Time_Add (ho_ObservedAt o) (- (300 * Second))%Z))
      && (Time_Sub now (ho_ObservedAt o) <=? Z.of_N (hp_StaleAfterSeconds health) * Second)%Z
  end.

Inductive verdict := Unknown | Healthy | Unhealthy.
Definition judge (health : HealthPolicy) (pool : BackendPool) (nodeID : string)
    (observations : gmap HealthKey HealthObservation) (now : Time) (backend : Backend) : verdict :=
  let observation := observations !! (nodeID, bp_ID pool, be_ID backend) in
  if negb (fresh health backend now observation) then Unknown
  else match observation with
       | None => Unknown
       | Some o => if bool_decide (ho_Status o = StatusUnknown) then Unknown
                   else if bool_decide (ho_Status o = StatusHealthy) then Healthy else Unhealthy
       end.
#[export] Instance verdict_eq_dec : EqDecision verdict.
Proof. solve_decision. Defined.

(** The backends with one verdict, in the order of the pool. *)
Definition judged (health : HealthPolicy) (pool : BackendPool) (nodeID : string)
    (observations : gmap HealthKey HealthObservation) (now : Time) (v : verdict) : list Backend :=
  filter (λ b, judge health pool nodeID observations now b = v) (bp_Backends pool).

Definition chooseBackend (pool : BackendPool) (nodeID previousID : string)
    (observations : gmap HealthKey HealthObservation) (now : Time) : Backend * option Alert :=
  match bp_Health pool with
  | None => (preferredBackend (bp_Backends pool) previousID, None)
  | Some health =>
      match judged health pool nodeID observations now Healthy,
            judged health pool nodeID observations now Unknown with
      | (_ :: _) as healthy, _ => (preferredBackend healthy previousID, None)
      | [], (_ :: _) as unknown =>
          match backendByID unknown previousID with
          | Some previous =>
              (previous, Some (MkAlert "backend_health_unknown" "" (bp_ID pool)
                 "no fresh healthy observation; retaining the previous unknown backend"))
          | None =>
              (preferredBackend unknown "", Some (MkAlert "backend_health_unknown" "" (bp_ID pool)
                 "no fresh healthy observation; using an unknown backend"))
          end
      | [], [] =>
          (default (preferredBackend (bp_Backends pool) "") (backendByID (bp_Backends pool) previousID),
           Some (MkAlert "backend_pool_exhausted" "" (bp_ID pool)
             "all backends are unhealthy; retaining a deterministic last-resort target"))
      end
  end.

(** * [Place] *)
Record place_state := MkPlaceState {
  st_usage : gmap string nodeUsage;
  st_placements : list Placement;
  st_alerts : list Alert;
}.

Definition no_placement : string := "no eligible cluster placement".
Definition rejected : string :=
  "selector, health, capability, fabric, failure-domain, or capacity constraints rejected every node".

Definition alerts_for (forward : Forward) (alert : option Alert) : list Alert :=
  match alert with
  | Some a => [MkAlert (al_Code a) (cf_ID forward) (al_PoolID a) (al_Detail a)]
  | None => []
  end.

(** The exit side of a via_exit forward: the exit node and the two links. *)
Definition place_exit `{!MapRange} (plan : Plan) (forward : Forward) (ingress : Node)
    (previousID : string) (nodes : gmap string Node) (runtimes : gmap string NodeRuntime)
    (usage : gmap string nodeUsage) (pool : BackendPool) :
    string + (Node * FabricLink * FabricLink) :=
  match chooseNode plan forward RoleExit (default (MkNodeSelector [] ∅) (cf_Exit forward))
          (nd_ID ingress) previousID nodes runtimes usage pool with
  | None => inl (no_placement +:+ " for forward " +:+ cf_ID forward +:+ " exit: " +:+ rejected)
  | Some exit =>
      match matchingLinks ingress exit with
      | None => inl (no_placement +:+ " for forward " +:+ cf_ID forward +:+ ": nodes "
                     +:+ nd_ID ingress +:+ " and " +:+ nd_ID exit
                     +:+ " have no usable reciprocal fabric")
      | Some (inLink, outLink) => inr (exit, inLink, outLink)
      end
  end.

Definition place_forward `{!MapRange} (plan : Plan) (nodes : gmap string Node)
    (pools : gmap string BackendPool) (previousByForward : gmap string Placement)
    (runtimes : gmap string NodeRuntime) (observations : gmap HealthKey HealthObservation)
    (now : Time) (_ : nat) (forward : Forward) (st : place_state) : string + place_state :=
  let pool := default BackendPoolZero (pools !! cf_BackendPoolID forward) in
  let prior := default PlacementZero (previousByForward !! cf_ID forward) in
  let reservation := effectiveReservation forward in
  match chooseNode plan forward RoleIngress (cf_Ingress forward) "" (pc_IngressID prior) nodes
          runtimes (st_usage st) pool with
  | None => inl (no_placement +:+ " for forward " +:+ cf_ID forward +:+ " ingress: " +:+ rejected)
  | Some ingress =>
      let finish exitID inID outID probeNodeID usage :=
        let '(backend, alert) :=
          chooseBackend pool probeNodeID (pc_BackendID prior) observations now in
        MkPlaceState (consume usage ingress reservation)
          (st_placements st ++
             [{| pc_ForwardID := cf_ID forward; pc_IngressID := nd_ID ingress; pc_ExitID := exitID;
                 pc_BackendID := be_ID backend; pc_Target := be_Target backend;
                 pc_PathMode := cf_PathMode forward; pc_FabricInID := inID;
                 pc_FabricOutID := outID |}])
          (st_alerts st ++ alerts_for forward alert) in
      if bool_decide (cf_PathMode forward = PathViaExit) then
        match place_exit plan forward ingress (pc_ExitID prior) nodes runtimes (st_usage st) pool with
        | inl e => inl e
        | inr (exit, inLink, outLink) =>
            inr (finish (nd_ID exit) (cl_ID inLink) (cl_ID outLink) (nd_ID exit)
                   (consume (st_usage st) exit reservation))
        end
      else inr (finish "" "" "" (nd_ID ingress) (st_usage st))
  end.

Definition Place `{!Idna} `{!MapRange} (plan : Plan) (runtimes : gmap string NodeRuntime)
    (observations : gmap HealthKey HealthObservation) (previous : list Placement) (now : Time) :
    string + Result :=
  match PlanValidate plan with
  | (_ :: _) as issues => inl (PlanValidationError_Error issues)
  | [] =>
      let plan := PlanCanonical plan in
      let nodes := index_by nd_ID (pl_Nodes plan) in
      let pools := index_by bp_ID (pl_BackendPools plan) in
      match eloop (place_forward plan nodes pools (index_by pc_ForwardID previous) runtimes
                     observations now) 0 (pl_Forwards plan) (MkPlaceState ∅ [] []) with
      | inl e => inl e
      | inr st => inr (MkResult (st_placements st) (st_alerts st))
      end
  end.

(** * The candidate order *)

(** The order on unbounded integers, with a capacity of at least one: a total
    preorder refined by the ID. *)
Definition prefers_distinct (forward : Forward) (oppositeID : string) : bool :=
  negb (bool_decide (oppositeID = ""))
  && bool_decide (effectiveFailurePolicy (cf_FailureDomainPolicy forward) = FailureDomainPrefer).

Definition less_distinct (prefer : bool) (domain : string) (a b : Node) : bool :=
  prefer && negb (bool_decide (nd_FailureDomain a = domain))
  && bool_decide (nd_FailureDomain b = domain).

Definition slots (n : Node) : N := N.max 1 (cy_MaxForwards (nd_Capacity n)).
Definition less_load (usage : gmap string nodeUsage) (a b : Node) : bool :=
  us_forwards (usage_of usage (nd_ID a)) * slots b <? us_forwards (usage_of usage (nd_ID b)) * slots a.

Definition less_ideal (forward : Forward) (oppositeID : string) (nodes : gmap string Node)
    (usage : gmap string nodeUsage) : Node → Node → bool :=
  less_lex (less_distinct (prefers_distinct forward oppositeID)
              (nd_FailureDomain (default NodeZero (nodes !! oppositeID))))
    (less_lex (less_load usage) (less_by nd_ID)).

#[export] Instance less_distinct_order prefer domain : LessOrder (less_distinct prefer domain).
Proof.
  unfold less_distinct. split; intros *; repeat case_bool_decide; destruct prefer; cbn; done.
Qed.

(** Comparing fractions by cross-multiplication is transitive. *)
Lemma cross_trans ua ub uc sa sb sc :
  1 ≤ sb → ua * sb ≤ ub * sa → ub * sc ≤ uc * sb → ua * sc ≤ uc * sa.
Proof.
  intros Hb H1 H2. apply (N.mul_le_mono_pos_r _ _ sb); [lia|].
  replace (ua * sc * sb) with (ua * sb * sc) by ring.
  etrans; [apply N.mul_le_mono_r, H1|].
  replace (ub * sa * sc) with (ub * sc * sa) by ring.
  etrans; [apply N.mul_le_mono_r, H2|]. lia.
Qed.

#[export] Instance less_load_order usage : LessOrder (less_load usage).
Proof.
  unfold less_load. split; intros *; rewrite ?N.ltb_lt, ?N.ltb_ge; [lia|].
  apply cross_trans. unfold slots. lia.
Qed.

#[export] Instance less_ideal_order forward oppositeID nodes usage :
  LessOrder (less_ideal forward oppositeID nodes usage).
Proof. unfold less_ideal. apply _. Qed.

(** A node the loop has let through: its load is below its capacity, so the
    64-bit products are exact. *)
Definition bounded (usage : gmap string nodeUsage) (n : Node) : Prop :=
  us_forwards (usage_of usage (nd_ID n)) < cy_MaxForwards (nd_Capacity n) < 2 ^ 32.

Lemma less_candidate_ideal forward oppositeID nodes usage a b :
  bounded usage a → bounded usage b →
  less_candidate forward oppositeID nodes usage a b = less_ideal forward oppositeID nodes usage a b.
Proof.
  intros Ha Hb. unfold bounded in *.
  assert (∀ x y, bounded usage x → bounded usage y →
            load_product usage x y = us_forwards (usage_of usage (nd_ID x)) * slots y) as Hl.
  { intros x y Hx Hy. unfold bounded, load_product, wrap, slots in *.
    rewrite N.max_r by lia. apply N.mod_small.
    change (2 ^ 64) with (2 ^ 32 * 2 ^ 32). apply N.mul_lt_mono; lia. }
  unfold less_candidate, less_ideal, less_lex at 1, prefers_distinct, less_distinct.
  set (domain := nd_FailureDomain (default NodeZero (nodes !! oppositeID))).
  rewrite !Hl by done.
  assert ((if us_forwards (usage_of usage (nd_ID a)) * slots b
              =? us_forwards (usage_of usage (nd_ID b)) * slots a
           then str_lt (nd_ID a) (nd_ID b)
           else us_forwards (usage_of usage (nd_ID a)) * slots b
                <? us_forwards (usage_of usage (nd_ID b)) * slots a)
          = less_lex (less_load usage) (less_by nd_ID) a b) as ->.
  { unfold less_lex, less_load, less_by.
    destruct (N.eqb_spec (us_forwards (usage_of usage (nd_ID a)) * slots b)
                (us_forwards (usage_of usage (nd_ID b)) * slots a)) as [Heq|Hne].
    - rewrite Heq, N.ltb_irrefl. done.
    - destruct (N.ltb_spec (us_forwards (usage_of usage (nd_ID a)) * slots b)
                (us_forwards (usage_of usage (nd_ID b)) * slots a)) as [|Hge]; [done|].
      rewrite (proj2 (N.ltb_lt _ _)) by lia. done. }
  destruct (negb (bool_decide (oppositeID = ""))), (bool_decide (effectiveFailurePolicy _ = _)),
    (bool_decide (nd_FailureDomain a = domain)), (bool_decide (nd_FailureDomain b = domain)); done.
Qed.

Lemma less_ideal_antisym forward oppositeID nodes usage a b :
  not_after (less_ideal forward oppositeID nodes usage) a b →
  not_after (less_ideal forward oppositeID nodes usage) b a → nd_ID a = nd_ID b.
Proof.
  unfold not_after, less_ideal, less_lex. pose proof (less_by_antisym nd_ID a b) as H.
  unfold not_after in H.
  destruct (less_distinct _ _ a b), (less_distinct _ _ b a); cbn; try done;
    destruct (less_load usage a b), (less_load usage b a); cbn; try done; auto.
Qed.

(** * What [chooseNode] returns *)
Lemma head_filter_keyed {A K} `{EqDecision K} (key : A → K) k l1 l2 :
  NoDup (key <$> l1) → l1 ≡ₚ l2 →
  head (filter (λ x, key x = k) l1) = head (filter (λ x, key x = k) l2).
Proof.
  intros Hnd Hp. assert (filter (λ x, key x = k) l1 ≡ₚ filter (λ x, key x = k) l2) as Hf
    by by rewrite Hp.
  destruct (filter _ l1) as [|x k1] eqn:E1, (filter _ l2) as [|y k2] eqn:E2; [done|..].
  - by apply Permutation_nil_l in Hf.
  - by apply Permutation_nil_r in Hf.
  - cbn. f_equal.
    assert (x ∈ filter (λ x, key x = k) l1) as Hx by (rewrite E1; left).
    assert (y ∈ filter (λ x, key x = k) l2) as Hy by (rewrite E2; left).
    apply list_elem_of_filter in Hx as [Hkx Hx], Hy as [Hky Hy]. rewrite <- Hp in Hy.
    eapply NoDup_key_inj; eauto. congruence.
Qed.

(** The nodes of the plan, indexed by their IDs, with 32-bit capacities. *)
Definition node_map_ok (nodes : gmap string Node) : Prop :=
  ∀ id n, nodes !! id = Some n → nd_ID n = id ∧ cy_MaxForwards (nd_Capacity n) < 2 ^ 32.

Section choose_node.
Context {R : MapRange} `{!MapRangeLaws R}.
Context (plan : Plan) (forward : Forward) (role : NodeRole) (selector : NodeSelector)
  (oppositeID previousID : string) (nodes : gmap string Node) (runtimes : gmap string NodeRuntime)
  (usage : gmap string nodeUsage) (pool : BackendPool).
Context (Hnodes : node_map_ok nodes).

Let ok := eligible plan forward role selector oppositeID nodes runtimes usage pool.
Let less := less_ideal forward oppositeID nodes usage.

Lemma elem_of_range n : n ∈ range_nodes nodes ↔ nodes !! nd_ID n = Some n.
Proof.
  rewrite range_nodes_perm. rewrite list_elem_of_fmap. split.
  - intros ([id n'] & -> & H%elem_of_map_to_list). cbn. by destruct (Hnodes _ _ H) as [-> _].
  - intros H. exists (nd_ID n, n). split; [done|]. by apply elem_of_map_to_list.
Qed.

Lemma range_NoDup : NoDup (nd_ID <$> range_nodes nodes).
Proof.
  rewrite range_nodes_perm, <- list_fmap_compose.
  erewrite (list_fmap_ext _ fst); [apply NoDup_fst_map_to_list|].
  intros i [id n] H%list_elem_of_lookup_2%elem_of_map_to_list. cbn. by apply Hnodes.
Qed.

Lemma eligible_bounded n : nodes !! nd_ID n = Some n → ok n = true → bounded usage n.
Proof.
  intros Hn. unfold ok, eligible. destruct (_ || _) eqn:E; [done|]. intros _.
  rewrite !orb_false_iff in E. destruct E as [_ Hf]. apply negb_false_iff in Hf.
  unfold fits in Hf. destruct (_ <=? _) eqn:Ec; [done|]. apply N.leb_gt in Ec.
  split; [done|]. by eapply Hnodes.
Qed.

Definition candidates : list Node := filter (λ n, ok n = true) (range_nodes nodes).

Lemma elem_of_candidates n : n ∈ candidates ↔ ok n = true ∧ nodes !! nd_ID n = Some n.
Proof. unfold candidates. by rewrite list_elem_of_filter, elem_of_range. Qed.

Lemma candidates_NoDup : NoDup (nd_ID <$> candidates).
Proof. eapply sublist_NoDup; [exact range_NoDup|]. apply fmap_sublist, sublist_filter. Qed.

Lemma candidates_sorted :
  sort_slice (less_candidate forward oppositeID nodes usage) candidates = sort_slice less candidates.
Proof.
  apply sort_slice_ext. intros x y Hx Hy. apply elem_of_candidates in Hx as [Hx1 Hx2], Hy as [Hy1 Hy2].
  apply less_candidate_ideal; by apply eligible_bounded.
Qed.

Lemma chooseNode_eq :
  chooseNode plan forward role selector oppositeID previousID nodes runtimes usage pool =
  match (if bool_decide (previousID = "") then None
         else head (filter (λ n, nd_ID n = previousID) candidates)) with
  | Some n => Some n
  | None => head (sort_slice less candidates)
  end.
Proof. unfold chooseNode. by rewrite <- candidates_sorted. Qed.

(** The node chosen is the previous one while it is eligible, and otherwise an
    eligible one that no eligible node is preferred to; there is none only if no
    node is eligible. *)
Lemma chooseNode_spec :
  match chooseNode plan forward role selector oppositeID previousID nodes runtimes usage pool with
  | None => ∀ n, nodes !! nd_ID n = Some n → ok n = false
  | Some n =>
      nodes !! nd_ID n = Some n ∧ ok n = true
      ∧ ((previousID ≠ "" ∧ nd_ID n = previousID)
         ∨ (∀ m, nodes !! nd_ID m = Some m → ok m = true →
              (previousID = "" ∨ nd_ID m ≠ previousID) ∧ less m n = false))
  end.
Proof.
  rewrite chooseNode_eq.
  destruct (if bool_decide (previousID = "") then _ else _) as [n|] eqn:Er.
  - destruct (bool_decide (previousID = "")) eqn:Ep; [done|]. reflect_bool.
    apply head_Some_elem_of, list_elem_of_filter in Er as [Hid Hn].
    apply elem_of_candidates in Hn as [Hok Hn]. auto.
  - assert (∀ m, m ∈ candidates → previousID = "" ∨ nd_ID m ≠ previousID) as Hprev.
    { intros m Hm. destruct (bool_decide (previousID = "")) eqn:Ep; reflect_bool; [by left|].
      right. intros Hid. apply head_None in Er.
      assert (m ∈ filter (λ n, nd_ID n = previousID) candidates) as Hf by by apply list_elem_of_filter.
      rewrite Er in Hf. by apply elem_of_nil in Hf. }
    destruct (head (sort_slice less candidates)) as [n|] eqn:Eh.
    + destruct (sort_slice less candidates) as [|n' k] eqn:Es; [done|]. injection Eh as ->.
      assert (n ∈ candidates) as Hn.
      { rewrite <- (elem_of_sort_slice less), Es. left. }
      apply elem_of_candidates in Hn as [Hok Hn]. split_and!; [done..|]. right. intros m Hm Hokm.
      assert (m ∈ candidates) as Hmc by by apply elem_of_candidates.
      split; [by apply Hprev|]. eapply sort_slice_head_least; [apply _|exact Es|done].
    + intros n Hn. apply not_true_is_false. intros Hok.
      assert (n ∈ sort_slice less candidates) as Hin
        by by apply elem_of_sort_slice, elem_of_candidates.
      apply head_None in Eh. rewrite Eh in Hin. by apply elem_of_nil in Hin.
Qed.
End choose_node.

(** The order in which Go ranges over the map does not show. *)
Lemma chooseNode_range_irrelevant (R1 R2 : MapRange) plan forward role selector oppositeID
    previousID nodes runtimes usage pool :
  MapRangeLaws R1 → MapRangeLaws R2 → node_map_ok nodes →
  @chooseNode R1 plan forward role selector oppositeID previousID nodes runtimes usage pool
  = @chooseNode R2 plan forward role selector oppositeID previousID nodes runtimes usage pool.
Proof.
  intros H1 H2 Hn. rewrite !chooseNode_eq by done.
  assert (candidates (R := R1) plan forward role selector oppositeID nodes runtimes usage pool
          ≡ₚ candidates (R := R2) plan forward role selector oppositeID nodes runtimes usage pool) as Hp.
  { unfold candidates. by rewrite (range_nodes_perm (R := R1)), (range_nodes_perm (R := R2)). }
  rewrite (head_filter_keyed nd_ID previousID _ _ (candidates_NoDup (R := R1) _ _ _ _ _ _ _ _ _ Hn) Hp).
  destruct (if bool_decide (previousID = "") then _ else _); [done|]. f_equal.
  apply (sort_slice_keyed _ nd_ID); [|by apply candidates_NoDup|done].
  apply less_ideal_antisym.
Qed.

(** * Capacity accounting *)
Definition uses (id : string) (p : Placement) : bool :=
  bool_decide (pc_IngressID p = id) || bool_decide (pc_ExitID p = id).

(** What the placements that use a node take of it, in the unit [g]. *)
Definition taken (g : Forward → N) (id : string) (l : list (Forward * Placement)) : N :=
  foldr (λ fp acc, (if uses id fp.2 then g fp.1 else 0) + acc) 0 l.
Definition one (f : Forward) : N := 1.
Definition reserved_in (f : Forward) : N := rs_IngressBitsPerSecond (effectiveReservation f).
Definition reserved_out (f : Forward) : N := rs_EgressBitsPerSecond (effectiveReservation f).

Lemma taken_snoc g id l f p :
  taken g id (l ++ [(f, p)]) = taken g id l + if uses id p then g f else 0.
Proof.
  induction l as [|[f' p'] l IH]; cbn -[N.add uses]; [lia|].
  fold (taken g id (l ++ [(f, p)])) (taken g id l). lia.
Qed.

Record usage_ok (n : Node) (u : nodeUsage) (k si so : N) : Prop := {
  uo_forwards : us_forwards u = k;
  uo_slots : k ≤ cy_MaxForwards (nd_Capacity n);
  uo_ingress : cy_IngressBitsPerSecond (nd_Capacity n) ≠ 0 →
               us_ingress u = si ∧ si ≤ cy_IngressBitsPerSecond (nd_Capacity n);
  uo_egress : cy_EgressBitsPerSecond (nd_Capacity n) ≠ 0 →
              us_egress u = so ∧ so ≤ cy_EgressBitsPerSecond (nd_Capacity n);
}.

(** The fields hold 32- and 64-bit unsigned integers. *)
Definition node_u64 (n : Node) : Prop :=
  cy_MaxForwards (nd_Capacity n) < 2 ^ 32 ∧ cy_IngressBitsPerSecond (nd_Capacity n) < 2 ^ 64
  ∧ cy_EgressBitsPerSecond (nd_Capacity n) < 2 ^ 64.

Lemma room_left cap used amount :
  cap < 2 ^ 64 → (cap ≠ 0 → used ≤ cap) →
  negb (cap =? 0) && (usub 64 cap used <? amount) = false →
  cap ≠ 0 → used + amount ≤ cap ∧ uadd 64 used amount = used + amount.
Proof.
  intros Hc Hu H Hne. rewrite (proj2 (N.eqb_neq _ _) Hne) in H. cbn [negb andb] in H.
  specialize (Hu Hne). apply N.ltb_ge in H. rewrite usub_small in H by lia.
  split; [lia|]. apply uadd_small. lia.
Qed.

Lemma fits_consume n u r k si so :
  node_u64 n → usage_ok n u k si so → fits n u r = true →
  usage_ok n (MkNodeUsage (uadd 32 (us_forwards u) 1)
                (uadd 64 (us_ingress u) (rs_IngressBitsPerSecond r))
                (uadd 64 (us_egress u) (rs_EgressBitsPerSecond r)))
    (k + 1) (si + rs_IngressBitsPerSecond r) (so + rs_EgressBitsPerSecond r).
Proof.
  intros (Hm & Hi & Ho) [<- Hk Hin Hout] Hf. unfold fits in Hf.
  destruct (_ <=? _) eqn:E0; [done|]. apply N.leb_gt in E0.
  destruct (_ && _) eqn:E1 in Hf; [done|]. destruct (_ && _) eqn:E2 in Hf; [done|].
  split; cbn -[uadd].
  - apply uadd_small. lia.
  - lia.
  - intros Hne. destruct (Hin Hne) as [Hu Hle].
    destruct (room_left _ _ _ Hi (λ _, eq_ind_r (λ x, x ≤ _) Hle Hu) E1 Hne). rewrite Hu in *. lia.
  - intros Hne. destruct (Hout Hne) as [Hu Hle].
    destruct (room_left _ _ _ Ho (λ _, eq_ind_r (λ x, x ≤ _) Hle Hu) E2 Hne). rewrite Hu in *. lia.
Qed.

Lemma usage_of_consume usage n r id :
  usage_of (consume usage n r) id =
  if bool_decide (nd_ID n = id)
  then MkNodeUsage (uadd 32 (us_forwards (usage_of usage id)) 1)
         (uadd 64 (us_ingress (usage_of usage id)) (rs_IngressBitsPerSecond r))
         (uadd 64 (us_egress (usage_of usage id)) (rs_EgressBitsPerSecond r))
  else usage_of usage id.
Proof.
  unfold consume. unfold usage_of at 1. destruct (bool_decide _) eqn:E; reflect_bool.
  - subst. by rewrite lookup_insert_eq.
  - by rewrite lookup_insert_ne.
Qed.

(** * What a placement is *)
Record serves (plan : Plan) (runtimes : gmap string NodeRuntime) (f : Forward) (role : NodeRole)
    (selector : NodeSelector) (pool : BackendPool) (n : Node) : Prop := {
  sv_enabled : nd_Enabled n = true;
  sv_role : nodeHasRole n role = true;
  sv_selector : selectorMatches selector n = true;
  sv_runtime : ∃ r, runtimes !! nd_ID n = Some r ∧ nr_Available r = true
                    ∧ supports r plan f role pool = true;
}.

Lemma eligible_serves plan f role selector opposite nodes runtimes usage pool n :
  eligible plan f role selector opposite nodes runtimes usage pool n = true →
  serves plan runtimes f role selector pool n
  ∧ nd_ID n ≠ opposite
  ∧ fits n (usage_of usage (nd_ID n)) (effectiveReservation f) = true
  ∧ (opposite ≠ "" → effectiveFailurePolicy (cf_FailureDomainPolicy f) = FailureDomainDistinct →
     nd_FailureDomain n ≠ nd_FailureDomain (default NodeZero (nodes !! opposite))).
Proof.
  unfold eligible. destruct (_ || _) eqn:E; [done|].
  rewrite !orb_false_iff, !negb_false_iff, bool_decide_eq_false in E.
  destruct E as ((((Hid & He) & Hr) & Hs) & Hf).
  destruct (runtimes !! nd_ID n) as [r|] eqn:Er; [|done].
  destruct (negb (nr_Available r) || _) eqn:Ea; [done|].
  rewrite orb_false_iff, !negb_false_iff in Ea. destruct Ea as [Ha Hsup]. intros H.
  split_and!; [|done..|].
  - split; try done. by exists r.
  - intros Hne Hpol. rewrite bool_decide_eq_false_2 in H by done.
    destruct (matchingLinks _ _) as [[l1 l2]|]; [|done]. destruct (_ || _); [done|].
    apply negb_true_iff in H. intros Hd. rewrite Hpol, Hd in H.
    rewrite !bool_decide_eq_true_2 in H by done. done.
Qed.

Lemma eligible_links plan f role selector nodes runtimes usage pool n ingress :
  nodes !! nd_ID ingress = Some ingress → nd_ID ingress ≠ "" →
  eligible plan f role selector (nd_ID ingress) nodes runtimes usage pool n = true →
  is_Some (matchingLinks ingress n).
Proof.
  intros Hi Hne. unfold eligible. destruct (_ || _); [done|]. destruct (runtimes !! _); [|done].
  destruct (_ || _); [done|]. rewrite bool_decide_eq_false_2 by done. rewrite Hi.
  cbn [default from_option id]. by destruct (matchingLinks ingress n).
Qed.

(** Two ends of one fabric: they name each other as peers, over one transport,
    with each end's peer address the other's local address. *)
Definition reciprocal (a b : Node) (la lb : FabricLink) : Prop :=
  la ∈ nd_FabricLinks a ∧ lb ∈ nd_FabricLinks b
  ∧ cl_PeerNodeID la = nd_ID b ∧ cl_PeerNodeID lb = nd_ID a
  ∧ cl_Transport la = cl_Transport lb
  ∧ Addr_Unmap (cl_PeerAddress la) = Addr_Unmap (p_addr (cl_LocalAddress lb))
  ∧ Addr_Unmap (cl_PeerAddress lb) = Addr_Unmap (p_addr (cl_LocalAddress la)).

Lemma matchingLinks_reciprocal a b la lb :
  matchingLinks a b = Some (la, lb) → reciprocal a b la lb.
Proof.
  intros H%head_Some_elem_of. apply list_elem_of_omap in H as (l & Hl & H).
  rewrite elem_of_sort_slice in Hl. unfold match_link in H.
  destruct (negb _) eqn:Ep; [done|]. reflect_bool.
  destruct (reciprocalLink _ _ _) as [l'|] eqn:Er; [|done].
  destruct (_ || _) eqn:Ea; [done|]. injection H as -> ->.
  unfold reciprocalLink in Er. apply head_Some_elem_of, list_elem_of_filter in Er as [[Hp Ht] Hl'].
  rewrite elem_of_sort_slice in Hl'. reflect_bool. unfold reciprocal. done.
Qed.

Record placed (plan : Plan) (nodes : gmap string Node) (pools : gmap string BackendPool)
    (runtimes : gmap string NodeRuntime) (f : Forward) (p : Placement) : Prop := {
  pd_forward : pc_ForwardID p = cf_ID f;
  pd_mode : pc_PathMode p = cf_PathMode f;
  pd_ingress : ∃ ingress, nodes !! pc_IngressID p = Some ingress
      ∧ serves plan runtimes f RoleIngress (cf_Ingress f)
          (default BackendPoolZero (pools !! cf_BackendPoolID f)) ingress
      ∧ if bool_decide (cf_PathMode f = PathViaExit) then
          ∃ exit la lb, nodes !! pc_ExitID p = Some exit
            ∧ serves plan runtimes f RoleExit (default (MkNodeSelector [] ∅) (cf_Exit f))
                (default BackendPoolZero (pools !! cf_BackendPoolID f)) exit
            ∧ pc_ExitID p ≠ pc_IngressID p
            ∧ reciprocal ingress exit la lb ∧ cl_ID la = pc_FabricInID p ∧ cl_ID lb = pc_FabricOutID p
            ∧ (effectiveFailurePolicy (cf_FailureDomainPolicy f) = FailureDomainDistinct →
               nd_FailureDomain exit ≠ nd_FailureDomain ingress)
        else pc_ExitID p = "";
  pd_backend : bp_Backends (default BackendPoolZero (pools !! cf_BackendPoolID f)) ≠ [] →
      ∃ b, b ∈ bp_Backends (default BackendPoolZero (pools !! cf_BackendPoolID f))
           ∧ be_ID b = pc_BackendID p ∧ be_Target b = pc_Target p;
}.

(** * Choosing a backend *)
Definition less_priority (a b : Backend) : bool := be_Priority a <? be_Priority b.
#[export] Instance less_priority_order : LessOrder less_priority.
Proof. unfold less_priority. split; intros *; rewrite ?N.ltb_lt, ?N.ltb_ge; lia. Qed.

Lemma less_backend_lex a b : less_backend a b = less_lex less_priority (less_by be_ID) a b.
Proof.
  unfold less_backend, less_lex, less_priority, less_by.
  destruct (N.eqb_spec (be_Priority a) (be_Priority b)) as [->|Hne].
  - by rewrite N.ltb_irrefl.
  - destruct (N.ltb_spec (be_Priority a) (be_Priority b)); [done|].
    by rewrite (proj2 (N.ltb_lt (be_Priority b) (be_Priority a))) by lia.
Qed.

#[export] Instance less_backend_order : LessOrder less_backend.
Proof.
  split; intros *; rewrite !less_backend_lex; [apply less_asym|apply less_ntrans].
Qed.

Lemma preferredBackend_spec l previousID :
  l ≠ [] →
  let b := preferredBackend l previousID in
  b ∈ l ∧ (∀ c, c ∈ l → be_Priority b ≤ be_Priority c)
  ∧ ∀ c, c ∈ l → be_ID c = previousID → be_Priority c = be_Priority b → be_ID b = previousID.
Proof.
  intros Hl. unfold preferredBackend.
  destruct (sort_slice less_backend l) as [|first k] eqn:Es.
  { exfalso. apply Hl. apply (f_equal length) in Es. rewrite length_sort_slice in Es.
    by apply nil_length_inv. }
  assert (∀ c, c ∈ l → be_Priority first ≤ be_Priority c) as Hmin.
  { intros c Hc. pose proof (sort_slice_head_least _ _ _ _ _ Es Hc) as H.
    unfold less_backend in H. destruct (N.eqb_spec (be_Priority c) (be_Priority first)); [lia|].
    apply N.ltb_ge in H. lia. }
  assert (∀ c, c ∈ first :: k ↔ c ∈ l) as Hin.
  { intros c. by rewrite <- Es, elem_of_sort_slice. }
  destruct (head (filter _ (first :: k))) as [b|] eqn:Eh; cbn [default from_option id].
  - apply head_Some_elem_of, list_elem_of_filter in Eh as [[Hp Hid] Hb]. apply Hin in Hb.
    split_and!; [done| |done]. intros c Hc. rewrite Hp. by apply Hmin.
  - split_and!; [apply Hin; left|done|]. intros c Hc Hid Hp. exfalso.
    apply head_None in Eh.
    assert (c ∈ filter (λ b, be_Priority b = be_Priority first ∧ be_ID b = previousID) (first :: k)) as Hf.
    { apply list_elem_of_filter. split; [done|]. by apply Hin. }
    rewrite Eh in Hf. by apply elem_of_nil in Hf.
Qed.

Lemma backendByID_spec l id :
  match backendByID l id with
  | Some b => b ∈ l ∧ be_ID b = id
  | None => ∀ b, b ∈ l → be_ID b ≠ id
  end.
Proof.
  unfold backendByID. destruct (head (filter _ l)) as [b|] eqn:Eh.
  - apply head_Some_elem_of, list_elem_of_filter in Eh as [??]. done.
  - intros b Hb Hid. apply head_None in Eh.
    assert (b ∈ filter (λ b, be_ID b = id) l) as Hf by by apply list_elem_of_filter.
    rewrite Eh in Hf. by apply elem_of_nil in Hf.
Qed.

(** The contract of [chooseBackend] for a pool that has backends. *)
Record backend_choice (pool : BackendPool) (health : HealthPolicy) (nodeID previousID : string)
    (observations : gmap HealthKey HealthObservation) (now : Time) (b : Backend)
    (alert : option Alert) : Prop := {
  bc_in : b ∈ bp_Backends pool;
  (** a healthy backend is used whenever there is one: one of the best priority,
      the previous one among those *)
  bc_healthy : ∀ c, c ∈ bp_Backends pool → judge health pool nodeID observations now c = Healthy →
      alert = None ∧ judge health pool nodeID observations now b = Healthy
      ∧ be_Priority b ≤ be_Priority c
      ∧ (be_ID c = previousID → be_Priority c = be_Priority b → be_ID b = previousID);
  (** an unhealthy one is used, with an alert, only when all are unhealthy *)
  bc_unhealthy : judge health pool nodeID observations now b = Unhealthy →
      (∀ c, c ∈ bp_Backends pool → judge health pool nodeID observations now c = Unhealthy)
      ∧ (al_Code <$> alert) = Some "backend_pool_exhausted"
      ∧ ((∃ c, c ∈ bp_Backends pool ∧ be_ID c = previousID) → be_ID b = previousID);
  (** an unknown one is used, with an alert, when none is healthy; the previous
      backend is kept if it is unknown *)
  bc_unknown : judge health pool nodeID observations now b = Unknown →
      (∀ c, c ∈ bp_Backends pool → judge health pool nodeID observations now c ≠ Healthy)
      ∧ (al_Code <$> alert) = Some "backend_health_unknown"
      ∧ ((∃ c, c ∈ bp_Backends pool ∧ be_ID c = previousID
               ∧ judge health pool nodeID observations now c = Unknown) → be_ID b = previousID);
}.

Lemma chooseBackend_choice pool health nodeID previousID observations now b alert :
  bp_Health pool = Some health → bp_Backends pool ≠ [] →
  chooseBackend pool nodeID previousID observations now = (b, alert) →
  backend_choice pool health nodeID previousID observations now b alert.
Proof.
  intros Hh Hne. unfold chooseBackend. rewrite Hh.
  set (J := judge health pool nodeID observations now).
  set (js := judged health pool nodeID observations now).
  assert (∀ v c, c ∈ js v ↔ J c = v ∧ c ∈ bp_Backends pool) as Hj.
  { intros v c. unfold js, judged. by rewrite list_elem_of_filter. }
  assert (∀ v, js v = [] → ∀ c, c ∈ bp_Backends pool → J c ≠ v) as Hnone.
  { intros v Hv c Hc HJ. assert (c ∈ js v) as Hjv by by apply Hj.
    rewrite Hv in Hjv. by apply elem_of_nil in Hjv. }
  destruct (js Healthy) as [|h hs] eqn:EH.
  2: { assert (js Healthy ≠ []) as Hn by by rewrite EH. rewrite <- EH.
       destruct (preferredBackend_spec (js Healthy) previousID Hn) as (H1 & H2 & H3).
       intros [= <- <-]. apply Hj in H1 as [HJ Hin]. split; [done| |fold J; congruence..].
       fold J. intros c Hc HJc. split_and!; [done|done| |].
       - apply H2, Hj. done.
       - intros. apply (H3 c); [by apply Hj|done..]. }
  specialize (Hnone Healthy EH) as NoH.
  destruct (js Unknown) as [|u us] eqn:EU.
  - specialize (Hnone Unknown EU) as NoU. intros [= <- <-].
    assert (∀ c, c ∈ bp_Backends pool → J c = Unhealthy) as All.
    { intros c Hc. specialize (NoH c Hc). specialize (NoU c Hc). by destruct (J c). }
    pose proof (backendByID_spec (bp_Backends pool) previousID) as Hb.
    destruct (backendByID _ _) as [b|]; cbn [default from_option id].
    + destruct Hb as [Hb Hid]. split; [done|..]; fold J; try done; try (rewrite All; done).
      intros c Hc HJc. by destruct (NoH c Hc).
    + destruct (preferredBackend_spec (bp_Backends pool) "" Hne) as (H1 & _).
      split; [done|..]; fold J; try done; try (rewrite All; done).
      * intros c Hc HJc. by destruct (NoH c Hc).
      * intros _. split_and!; [done..|]. intros (c & Hc & Hid). by destruct (Hb c Hc).
  - rewrite <- EU. pose proof (backendByID_spec (js Unknown) previousID) as Hb.
    destruct (backendByID _ _) as [b'|]; intros [= <- <-].
    + destruct Hb as [Hb Hid]. apply Hj in Hb as [HJ Hb].
      split; [done|..]; fold J; try congruence; [|done].
      intros c Hc HJc. by destruct (NoH c Hc).
    + assert (js Unknown ≠ []) as Hn by by rewrite EU.
      destruct (preferredBackend_spec (js Unknown) "" Hn) as (H1 & _).
      apply Hj in H1 as [HJ H1]. split; [done|..]; fold J; try congruence.
      * intros c Hc HJc. by destruct (NoH c Hc).
      * intros _. split_and!; [done..|]. intros (c & Hc & Hid & HJc).
        destruct (Hb c); [|done]. by apply Hj.
Qed.

Lemma chooseBackend_in pool nodeID previousID observations now :
  bp_Backends pool ≠ [] →
  (chooseBackend pool nodeID previousID observations now).1 ∈ bp_Backends pool.
Proof.
  intros Hne. destruct (bp_Health pool) as [health|] eqn:Hh.
  - destruct (chooseBackend _ _ _ _ _) as [b alert] eqn:E.
    by apply (chooseBackend_choice _ health) in E as [].
  - unfold chooseBackend. rewrite Hh. by apply preferredBackend_spec.
Qed.

(** * The placement loop *)
Section place_loop.
Context {R : MapRange} `{!MapRangeLaws R}.
Context (plan : Plan) (nodes : gmap string Node) (pools : gmap string BackendPool)
  (previous : gmap string Placement) (runtimes : gmap string NodeRuntime)
  (observations : gmap HealthKey HealthObservation) (now : Time).
Context (Hnodes : node_map_ok nodes) (Hu64 : ∀ id n, nodes !! id = Some n → node_u64 n)
  (Hempty : nodes !! "" = None).

Definition usages_ok (usage : gmap string nodeUsage) (l : list (Forward * Placement)) : Prop :=
  ∀ id n, nodes !! id = Some n →
    usage_ok n (usage_of usage id) (taken one id l) (taken reserved_in id l) (taken reserved_out id l).

(** Consuming on a node that fits keeps the accounts of all nodes. *)
Lemma consume_ok n usage f id m k si so :
  nodes !! id = Some m → nodes !! nd_ID n = Some n →
  (nd_ID n = id → fits n (usage_of usage id) (effectiveReservation f) = true) →
  usage_ok m (usage_of usage id) k si so →
  usage_ok m (usage_of (consume usage n (effectiveReservation f)) id)
    (k + if bool_decide (nd_ID n = id) then one f else 0)
    (si + if bool_decide (nd_ID n = id) then reserved_in f else 0)
    (so + if bool_decide (nd_ID n = id) then reserved_out f else 0).
Proof.
  intros Hm Hn Hf Hok. rewrite usage_of_consume. destruct (bool_decide _) eqn:E; reflect_bool.
  - subst id. assert (m = n) as -> by congruence. unfold one, reserved_in, reserved_out.
    by apply fits_consume; [eapply Hu64| |apply Hf].
  - by rewrite !N.add_0_r.
Qed.

Lemma usages_direct usage l f ingress p :
  nodes !! nd_ID ingress = Some ingress →
  fits ingress (usage_of usage (nd_ID ingress)) (effectiveReservation f) = true →
  pc_IngressID p = nd_ID ingress → pc_ExitID p = "" →
  usages_ok usage l →
  usages_ok (consume usage ingress (effectiveReservation f)) (l ++ [(f, p)]).
Proof.
  intros Hi Hf Hpi Hpe Hok id n Hn. rewrite !taken_snoc.
  assert (uses id p = bool_decide (nd_ID ingress = id)) as ->.
  { unfold uses. rewrite Hpi, Hpe. rewrite (bool_decide_eq_false_2 ("" = id)).
    - by rewrite orb_false_r.
    - intros <-. congruence. }
  apply consume_ok; [done|done| |by apply Hok]. by intros <-.
Qed.

Lemma usages_via usage l f ingress exit p :
  nodes !! nd_ID ingress = Some ingress → nodes !! nd_ID exit = Some exit →
  nd_ID exit ≠ nd_ID ingress →
  fits ingress (usage_of usage (nd_ID ingress)) (effectiveReservation f) = true →
  fits exit (usage_of usage (nd_ID exit)) (effectiveReservation f) = true →
  pc_IngressID p = nd_ID ingress → pc_ExitID p = nd_ID exit →
  usages_ok usage l →
  usages_ok (consume (consume usage exit (effectiveReservation f)) ingress (effectiveReservation f))
    (l ++ [(f, p)]).
Proof.
  intros Hi He Hne Hfi Hfe Hpi Hpe Hok id n Hn. rewrite !taken_snoc.
  assert (∀ x, (if uses id p then x else 0) =
    (if bool_decide (nd_ID exit = id) then x else 0)
    + (if bool_decide (nd_ID ingress = id) then x else 0)) as Hsplit.
  { intros x. unfold uses. rewrite Hpi, Hpe.
    destruct (bool_decide (nd_ID ingress = id)) eqn:E1, (bool_decide (nd_ID exit = id)) eqn:E2;
      reflect_bool; cbn; try lia. congruence. }
  rewrite !Hsplit, !N.add_assoc. apply consume_ok; [done|done| |].
  - intros <-. rewrite usage_of_consume, bool_decide_eq_false_2 by done. done.
  - apply consume_ok; [done|done| |by apply Hok]. by intros <-.
Qed.

Lemma place_forward_step i f st st' done :
  length (st_placements st) = length done →
  place_forward plan nodes pools previous runtimes observations now i f st = inr st' →
  usages_ok (st_usage st) (zip done (st_placements st)) →
  ∃ p, st_placements st' = st_placements st ++ [p]
    ∧ placed plan nodes pools runtimes f p
    ∧ usages_ok (st_usage st') (zip (done ++ [f]) (st_placements st')).
Proof.
  intros Hlen. unfold place_forward.
  set (pool := default BackendPoolZero (pools !! cf_BackendPoolID f)).
  set (prior := default PlacementZero (previous !! cf_ID f)).
  pose proof (chooseNode_spec plan f RoleIngress (cf_Ingress f) "" (pc_IngressID prior) nodes
    runtimes (st_usage st) pool Hnodes) as Hc.
  destruct (chooseNode _ _ _ _ _ _ _ _ _ _) as [ingress|]; [|done].
  destruct Hc as (Hi & Hok & _). apply eligible_serves in Hok as (Hserves & _ & Hfi & _).
  assert (∀ node : string, bp_Backends pool ≠ [] →
    (chooseBackend pool node (pc_BackendID prior) observations now).1 ∈ bp_Backends pool) as Hb.
  { intros node. apply chooseBackend_in. }
  destruct (bool_decide (cf_PathMode f = PathViaExit)) eqn:Evia.
  - unfold place_exit.
    pose proof (chooseNode_spec plan f RoleExit (default (MkNodeSelector [] ∅) (cf_Exit f))
      (nd_ID ingress) (pc_ExitID prior) nodes runtimes (st_usage st) pool Hnodes) as Hc.
    destruct (chooseNode _ _ _ _ _ _ _ _ _ _) as [exit|]; [|done].
    destruct Hc as (He & Hok & _). apply eligible_serves in Hok as (Hserves' & Hne & Hfe & Hdom).
    destruct (matchingLinks ingress exit) as [[la lb]|] eqn:El; [|done].
    apply matchingLinks_reciprocal in El. specialize (Hb (nd_ID exit)).
    destruct (chooseBackend _ _ _ _ _) as [b alert]. intros [= <-]. cbn [st_placements st_usage].
    intros Hu. eexists. split_and!; [reflexivity| |].
    + split; cbn; try done.
      * exists ingress. rewrite Evia. split_and!; [done..|]. exists exit, la, lb.
        split_and!; [done..|]. intros Hd. rewrite Hi in Hdom. apply Hdom; [|done].
        intros Hn. rewrite Hn in Hi. congruence.
      * intros Hne'. exists b. split_and!; [by apply Hb|done..].
    + rewrite zip_with_app by done. by apply usages_via.
  - specialize (Hb (nd_ID ingress)). destruct (chooseBackend _ _ _ _ _) as [b alert].
    intros [= <-]. cbn [st_placements st_usage].
    intros Hu. eexists. split_and!; [reflexivity| |].
    + split; cbn; try done.
      * exists ingress. rewrite Evia. done.
      * intros Hne'. exists b. split_and!; [by apply Hb|done..].
    + rewrite zip_with_app by done. by apply usages_direct.
Qed.

Lemma place_loop l st :
  eloop (place_forward plan nodes pools previous runtimes observations now) 0 l
    (MkPlaceState ∅ [] []) = inr st →
  Forall2 (placed plan nodes pools runtimes) l (st_placements st)
  ∧ usages_ok (st_usage st) (zip l (st_placements st)).
Proof.
  apply (eloop_inv _ (λ done st, Forall2 (placed plan nodes pools runtimes) done (st_placements st)
                                 ∧ usages_ok (st_usage st) (zip done (st_placements st)))).
  - split; [constructor|]. intros id n Hn. cbn. unfold usage_of. rewrite lookup_empty. cbn.
    split; cbn; [done|lia|intros; split; [done|lia]..].
  - intros done f s s' _ [Hf Hu] Hstep.
    destruct (place_forward_step _ _ _ _ done (eq_sym (Forall2_length _ _ _ Hf)) Hstep Hu)
      as (p & -> & Hp & Hu'). split; [|done]. apply Forall2_app; [done|]. by constructor.
Qed.
End place_loop.
