(* ===== verification/PlaceFacts.v ===== *)
(** The correctness of [Place]: it is deterministic, sound, within capacity,
    and it fails only when no node qualifies. *)
From S2P Require Import Prelude.
From S2P Require Import GoNet.
From S2P Require Import SpecTypes.
From S2P Require Import SpecSamples.
From S2P Require Import Hostname.
From S2P Require Import Health.
From S2P Require Import ClusterTypes.
From S2P Require Import ClusterValidate.
From S2P Require Import PlanFacts.
From S2P Require Import Scheduler.

(** The maps [Place] builds of the canonical plan. *)
Definition node_index `{!Idna} (plan : Plan) : gmap string Node :=
  index_by nd_ID (pl_Nodes (PlanCanonical plan)).
Definition pool_index `{!Idna} (plan : Plan) : gmap string BackendPool :=
  index_by bp_ID (pl_BackendPools (PlanCanonical plan)).

(** The capacities are 64-bit unsigned integers. *)
Definition plan_u64 (plan : Plan) : Prop := Forall node_u64 (pl_Nodes plan).

(** Some order of the nodes of a map, to run the model. *)
Definition some_range : MapRange := λ m, (map_to_list m).*2.
Definition other_range : MapRange := λ m, rev (map_to_list m).*2.
#[export] Instance some_range_laws : MapRangeLaws some_range.
Proof. intros m. apply Permutation_refl. Qed.
#[export] Instance other_range_laws : MapRangeLaws other_range.
Proof. intros m. unfold range_nodes, other_range. symmetry. apply Permutation_rev. Qed.

Section placement.
Context {idna : Idna}.
Context (plan : Plan).
Context (Hvalid : PlanValid plan).

Lemma node_index_spec id n :
  node_index plan !! id = Some n ↔ n ∈ pl_Nodes (PlanCanonical plan) ∧ nd_ID n = id.
Proof. apply index_by_NoDup, plan_facts_canonical, PlanValid_facts, Hvalid. Qed.

Lemma node_index_ok : node_map_ok (node_index plan).
Proof.
  intros id n [Hn <-]%node_index_spec. split; [done|].
  apply (pf_node _ (plan_facts_canonical _ (PlanValid_facts _ Hvalid))) in Hn as [_ H].
  change (2 ^ 32) with 4294967296. lia.
Qed.

Lemma node_index_u64 id n :
  plan_u64 plan → node_index plan !! id = Some n → node_u64 n.
Proof.
  intros Hu [Hn _]%node_index_spec. cbn in Hn. rewrite elem_of_sort_slice in Hn.
  apply list_elem_of_fmap in Hn as (m & -> & Hm). unfold plan_u64 in Hu.
  rewrite Forall_forall in Hu. exact (Hu m Hm).
Qed.

Lemma node_index_nonempty : node_index plan !! "" = None.
Proof.
  destruct (node_index plan !! "") as [n|] eqn:E; [|done]. apply node_index_spec in E as [Hn Hid].
  apply (pf_node _ (plan_facts_canonical _ (PlanValid_facts _ Hvalid))) in Hn as [H _].
  by rewrite Hid in H.
Qed.

Lemma pool_index_spec id q :
  pool_index plan !! id = Some q ↔ q ∈ pl_BackendPools (PlanCanonical plan) ∧ bp_ID q = id.
Proof. apply index_by_NoDup, plan_facts_canonical, PlanValid_facts, Hvalid. Qed.

Lemma pool_of f :
  f ∈ pl_Forwards (PlanCanonical plan) →
  ∃ q, pool_index plan !! cf_BackendPoolID f = Some q
       ∧ q ∈ pl_BackendPools (PlanCanonical plan) ∧ bp_Backends q ≠ [].
Proof.
  pose proof (plan_facts_canonical _ (PlanValid_facts _ Hvalid)) as HF.
  intros [(q & Hq & Hid) _]%(pf_forward _ HF). exists q. split_and!; [by apply pool_index_spec|done|].
  by apply (pf_pool _ HF).
Qed.

Lemma Place_eq `{!MapRange} runtimes observations previous now :
  Place plan runtimes observations previous now =
  match eloop (place_forward (PlanCanonical plan) (node_index plan) (pool_index plan)
                 (index_by pc_ForwardID previous) runtimes observations now)
          0 (pl_Forwards (PlanCanonical plan)) (MkPlaceState ∅ [] []) with
  | inl e => inl e
  | inr st => inr (MkResult (st_placements st) (st_alerts st))
  end.
Proof. unfold Place. by rewrite Hvalid. Qed.
End placement.

Lemma place_forward_range (R1 R2 : MapRange) plan nodes pools previous runtimes observations now i f st :
  MapRangeLaws R1 → MapRangeLaws R2 → node_map_ok nodes →
  @place_forward R1 plan nodes pools previous runtimes observations now i f st
  = @place_forward R2 plan nodes pools previous runtimes observations now i f st.
Proof.
  intros H1 H2 Hn. unfold place_forward, place_exit.
  rewrite (chooseNode_range_irrelevant R1 R2) by done.
  destruct (chooseNode _ _ _ _ _ _ _ _ _ _) as [ingress|]; [|done].
  by rewrite (chooseNode_range_irrelevant R1 R2) by done.
Qed.

Lemma eloop_error {E St X} (step : nat → X → St → E + St) i l s e :
  eloop step i l s = inl e →
  ∃ done x st, (done ++ [x]) `prefix_of` l ∧ eloop step i done s = inr st
               ∧ step (i + length done)%nat x st = inl e.
Proof.
  revert i s. induction l as [|y l IH]; intros i s; cbn; [done|].
  destruct (step i y s) as [e'|s'] eqn:Es.
  - intros [= ->]. exists [], y, s. cbn. rewrite Nat.add_0_r. split_and!; [|done..].
    by exists l.
  - intros (done & x & st & Hp & Hd & Hx)%IH. exists (y :: done), x, st. cbn. rewrite Es.
    split_and!; [by apply prefix_cons|done|]. by replace (i + S (length done))%nat
      with (S i + length done)%nat by lia.
Qed.

(** * A cluster to run the model on *)
Definition cluster_link (id peer : string) (local : N) (remote : N) : FabricLink :=
  {| cl_ID := id; cl_PeerNodeID := peer; cl_Transport := FabricDirectL3; cl_Interface := "eth1";
     cl_LocalAddress := MkPrefix (ip 10 0 0 local) 30; cl_PeerAddress := ip 10 0 0 remote;
     cl_MTU := 1500; cl_RoutingID := 3; cl_Trusted := true; cl_WireGuard := None; cl_GRE := None;
     cl_ResourceVersion := 1 |}.

Definition cluster_node (id domain : string) (roles : list NodeRole) (link : FabricLink) : Node :=
  {| nd_ID := id; nd_Enabled := true; nd_Roles := roles; nd_Labels := {["site" := domain]};
     nd_ListenIPs := []; nd_FailureDomain := domain; nd_Capacity := MkCapacity 10 1000000000 0;
     nd_FabricLinks := [link]; nd_ProtocolBlocks := None |}.

Definition cluster_backend (id : string) (priority d : N) : Backend :=
  {| be_ID := id; be_Target := endpoint (ip 198 51 100 d) 443; be_ProbeEndpoint := None;
     be_Priority := priority; be_ResourceVersion := 4 |}.

Definition cluster_pool : BackendPool :=
  {| bp_ID := "pool"; bp_Backends := [cluster_backend "b1" 10 20; cluster_backend "b2" 5 21];
     bp_Health := Some {| hp_IntervalSeconds := 5; hp_TimeoutMilliseconds := 1000;
                          hp_FailureThreshold := 3; hp_SuccessThreshold := 2;
                          hp_StaleAfterSeconds := 30 |};
     bp_ResourceVersion := 1 |}.

Definition cluster_forward (id : string) (port : N) (mode : PathMode) (exit : option NodeSelector) :
    Forward :=
  {| cf_ID := id; cf_UserID := "tenant-a"; cf_Protocols := [ProtocolTCP];
     cf_Listen := endpoint (ip 192 0 2 10) port; cf_PathMode := mode;
     cf_Ingress := MkNodeSelector ["node-a"] ∅; cf_Exit := exit; cf_FailureDomainPolicy := "";
     cf_BackendPoolID := "pool"; cf_SNAT := MkSNATSpec SNATMasquerade None;
     cf_Reservation := MkReservation 0 0;
     cf_RateLimit := Some (MkRateLimitSpec 400000000 0 65536); cf_TrafficQuota := None;
     cf_ExpiresAt := None; cf_DrainDeadline := None; cf_Lifecycle := LifecycleActive;
     cf_ResourceVersion := 1 |}.

Definition sample_plan : Plan :=
  {| pl_SchemaVersion := 1; pl_ID := "main"; pl_Revision := 7; pl_NodeOfflineAfterSeconds := 60;
     pl_Rollout := None; pl_ServiceCIDRs := [MkPrefix (ip 10 90 0 0) 16];
     pl_Nodes := [cluster_node "node-b" "rack-2" [RoleExit] (cluster_link "b-a" "node-a" 2 1);
                  cluster_node "node-a" "rack-1" [RoleIngress; RoleExit]
                    (cluster_link "a-b" "node-b" 1 2)];
     pl_UserPolicies := []; pl_BackendPools := [cluster_pool];
     pl_Forwards := [cluster_forward "web" 8080 PathDirect None;
                     cluster_forward "tunnel" 9090 PathViaExit
                       (Some (MkNodeSelector [] {["site" := "rack-2"]}))] |}.

Definition sample_runtime (id : string) : NodeRuntime :=
  {| nr_ID := id; nr_Available := true; nr_LastSeen := 0%Z;
     nr_Capabilities := list_to_map ((λ c, (c, 2)) <$>
       ["nft.direct"; "nft.via-exit"; "fabric.policy-routing"; "fabric.mss-clamp";
        "fabric.direct-l3"; "tc.rate-limit"; "health.tcp-connect"]);
     nr_WireGuardPublicKey := "" |}.
Definition sample_runtimes : gmap string NodeRuntime :=
  index_by nr_ID [sample_runtime "node-a"; sample_runtime "node-b"].

Definition sample_place : string + Result :=
  @Place ascii_idna some_range sample_plan sample_runtimes ∅ [] 1000%Z.

Example sample_plan_valid : @PlanValidate ascii_idna sample_plan = [].
Proof. vm_compute. reflexivity. Qed.

Example sample_place_result :
  match sample_place with
  | inl _ => False
  | inr r =>
      (λ p, (pc_ForwardID p, pc_IngressID p, pc_ExitID p, pc_BackendID p, pc_FabricInID p))
        <$> re_Placements r
      = [("tunnel", "node-a", "node-b", "b2", "a-b"); ("web", "node-a", "", "b2", "")]
  end.
Proof. vm_compute. reflexivity. Qed.

(** * Properties *)
Lemma Place_valid `{!Idna} `{!MapRange} plan runtimes observations previous now r :
  Place plan runtimes observations previous now = inr r → PlanValid plan.
Proof. unfold Place, PlanValid. by destruct (PlanValidate plan). Qed.

(** The placement does not depend on the order in which the maps of nodes
    are ranged over: equal inputs give equal plans, on every controller. *)
Theorem Place_deterministic {idna : Idna} (R1 R2 : MapRange) plan runtimes observations previous now :
  MapRangeLaws R1 → MapRangeLaws R2 →
  @Place idna R1 plan runtimes observations previous now
  = @Place idna R2 plan runtimes observations previous now.
Proof.
  intros H1 H2. destruct (PlanValidate plan) eqn:Hv; [|by unfold Place; rewrite Hv].
  rewrite !Place_eq by done. erewrite eloop_ext; [done|].
  intros i f st. apply place_forward_range; [done..|]. by apply node_index_ok.
Qed.

Lemma Place_deterministic_witness :
  MapRangeLaws some_range ∧ MapRangeLaws other_range
  ∧ sample_place = @Place ascii_idna other_range sample_plan sample_runtimes ∅ [] 1000%Z.
Proof.
  split_and!; [apply _|apply _|].
  apply (Place_deterministic (idna := ascii_idna) some_range other_range); apply _.
Defined.

Lemma Place_inv {idna : Idna} {R : MapRange} `{!MapRangeLaws R} plan runtimes observations previous now r :
  plan_u64 plan →
  Place plan runtimes observations previous now = inr r →
  PlanValid plan
  ∧ Forall2 (placed (PlanCanonical plan) (node_index plan) (pool_index plan) runtimes)
      (pl_Forwards (PlanCanonical plan)) (re_Placements r)
  ∧ ∃ usage, usages_ok (node_index plan) usage
               (zip (pl_Forwards (PlanCanonical plan)) (re_Placements r)).
Proof.
  intros Hu Hp. pose proof (Place_valid _ _ _ _ _ _ Hp) as Hv. rewrite Place_eq in Hp by done.
  destruct (eloop _ _ _ _) as [e|st] eqn:E; [done|]. injection Hp as <-. cbn [re_Placements].
  apply place_loop in E as [H1 H2];
    [by eauto|by apply node_index_ok| |by apply node_index_nonempty].
  intros id n. by apply node_index_u64.
Qed.

(** C13. Every forward of an accepted plan is placed once, in order, on enabled
    available nodes of the right role that its selectors match and that have the
    capabilities it needs; a via_exit forward on two nodes joined by the two ends
    of one fabric, in distinct failure domains where that is asked for; and it is
    sent to a backend of its pool. *)
Theorem Place_sound {idna : Idna} (R : MapRange) plan runtimes observations previous now r :
  MapRangeLaws R → plan_u64 plan →
  Place plan runtimes observations previous now = inr r →
  Forall2 (λ f p, placed (PlanCanonical plan) (node_index plan) (pool_index plan) runtimes f p
      ∧ ∃ pool b, pool_index plan !! cf_BackendPoolID f = Some pool ∧ b ∈ bp_Backends pool
                  ∧ be_ID b = pc_BackendID p ∧ be_Target b = pc_Target p)
    (pl_Forwards (PlanCanonical plan)) (re_Placements r).
Proof.
  intros HR Hu Hp. apply Place_inv in Hp as (Hv & Hf & _); [|done].
  apply Forall2_same_length_lookup_2; [by eapply Forall2_length|]. intros i f p Hi Hp.
  pose proof (Forall2_lookup_lr _ _ _ _ _ _ Hf Hi Hp) as H. split; [done|].
  destruct (pool_of plan Hv f) as (q & Hq & _ & Hne); [by eapply list_elem_of_lookup_2|].
  destruct H. rewrite Hq in *. destruct (pd_backend Hne) as (b & Hb). eauto.
Qed.

Definition sample_result : Result := Eval vm_compute in
  match sample_place with inr r => r | inl _ => MkResult [] [] end.
Lemma sample_place_ok : sample_place = inr sample_result.
Proof. vm_compute. reflexivity. Qed.
Lemma sample_plan_u64 : plan_u64 sample_plan.
Proof. repeat constructor. Qed.

Lemma Place_sound_witness :
  Forall2 (λ f p, placed (@PlanCanonical ascii_idna sample_plan) (@node_index ascii_idna sample_plan)
                    (@pool_index ascii_idna sample_plan) sample_runtimes f p
      ∧ ∃ pool b, @pool_index ascii_idna sample_plan !! cf_BackendPoolID f = Some pool
                  ∧ b ∈ bp_Backends pool ∧ be_ID b = pc_BackendID p ∧ be_Target b = pc_Target p)
    (pl_Forwards (@PlanCanonical ascii_idna sample_plan)) (re_Placements sample_result).
Proof.
  apply (Place_sound (idna := ascii_idna) some_range sample_plan sample_runtimes ∅ [] 1000%Z);
    [apply _|exact sample_plan_u64|exact sample_place_ok].
Defined.



(** A valid plan is refused only when, for some forward, no node qualifies
    as its ingress, or none qualifies as its exit given the ingress chosen; the
    error names the forward. In particular the fabric between two chosen nodes is
    always found. *)
Theorem Place_refuses {idna : Idna} (R : MapRange) plan runtimes observations previous now e :
  MapRangeLaws R → PlanValid plan →
  Place plan runtimes observations previous now = inl e →
  ∃ done f usage,
    (done ++ [f]) `prefix_of` pl_Forwards (PlanCanonical plan)
    ∧ let pool := default BackendPoolZero (pool_index plan !! cf_BackendPoolID f) in
      let none role selector opposite :=
        ∀ n, node_index plan !! nd_ID n = Some n →
          eligible (PlanCanonical plan) f role selector opposite (node_index plan) runtimes usage
            pool n = false in
      (e = no_placement +:+ " for forward " +:+ cf_ID f +:+ " ingress: " +:+ rejected
       ∧ none RoleIngress (cf_Ingress f) "")
      ∨ (e = no_placement +:+ " for forward " +:+ cf_ID f +:+ " exit: " +:+ rejected
         ∧ cf_PathMode f = PathViaExit
         ∧ ∃ ingress selector, cf_Exit f = Some selector
             ∧ node_index plan !! nd_ID ingress = Some ingress
             ∧ none RoleExit selector (nd_ID ingress)).
Proof.
  intros HR Hv. rewrite Place_eq by done. destruct (eloop _ _ _ _) as [e'|st] eqn:E; [|done].
  intros [= ->]. apply eloop_error in E as (done & f & st & Hpre & _ & Hstep).
  exists done, f, (st_usage st). split; [done|]. unfold place_forward in Hstep.
  set (pool := default BackendPoolZero (pool_index plan !! cf_BackendPoolID f)) in *.
  set (prior := default PlacementZero _) in Hstep.
  pose proof (chooseNode_spec (PlanCanonical plan) f RoleIngress (cf_Ingress f) "" (pc_IngressID prior)
    _ runtimes (st_usage st) pool (node_index_ok _ Hv)) as Hc.
  destruct (chooseNode _ _ _ _ _ _ _ _ _ _) as [ingress|]; [|left; by injection Hstep as <-].
  destruct Hc as (Hi & _). right.
  destruct (bool_decide (cf_PathMode f = PathViaExit)) eqn:Em; reflect_bool.
  2: { by destruct (chooseBackend _ _ _ _ _). }
  assert (∃ selector, cf_Exit f = Some selector) as (selector & Hsel).
  { destruct (pf_forward _ (plan_facts_canonical _ (PlanValid_facts _ Hv)) f)
      as [_ [[Hd _]|[_ [s Hs]]]]; [|by rewrite Hd in Em|by eauto].
    destruct Hpre as [k ->]. apply elem_of_app. left. apply elem_of_app. right.
    by apply list_elem_of_singleton. }
  unfold place_exit in Hstep. rewrite Hsel in Hstep. cbn [default from_option id] in Hstep.
  pose proof (chooseNode_spec (PlanCanonical plan) f RoleExit selector (nd_ID ingress)
    (pc_ExitID prior) _ runtimes (st_usage st) pool (node_index_ok _ Hv)) as Hc.
  destruct (chooseNode _ _ _ _ _ _ _ _ _ _) as [exit|].
  - destruct Hc as (_ & Hok & _). exfalso. apply eligible_links in Hok as [[la lb] Hl]; [|done|].
    + rewrite Hl in Hstep. by destruct (chooseBackend _ _ _ _ _).
    + intros Hn. rewrite Hn in Hi. by rewrite node_index_nonempty in Hi.
  - injection Hstep as <-. split_and!; [done..|]. by exists ingress, selector.
Qed.

Definition full_runtimes : gmap string NodeRuntime := index_by nr_ID [sample_runtime "node-a"].

Lemma Place_refuses_witness :
  ∃ done f usage,
    (done ++ [f]) `prefix_of` pl_Forwards (@PlanCanonical ascii_idna sample_plan)
    ∧ let pool := default BackendPoolZero (@pool_index ascii_idna sample_plan !! cf_BackendPoolID f) in
      let none role selector opposite :=
        ∀ n, @node_index ascii_idna sample_plan !! nd_ID n = Some n →
          eligible (@PlanCanonical ascii_idna sample_plan) f role selector opposite
            (@node_index ascii_idna sample_plan) full_runtimes usage pool n = false in
      ("no eligible cluster placement for forward tunnel exit: " +:+ rejected
       = no_placement +:+ " for forward " +:+ cf_ID f +:+ " ingress: " +:+ rejected
       ∧ none RoleIngress (cf_Ingress f) "")
      ∨ ("no eligible cluster placement for forward tunnel exit: " +:+ rejected
         = no_placement +:+ " for forward " +:+ cf_ID f +:+ " exit: " +:+ rejected
         ∧ cf_PathMode f = PathViaExit
         ∧ ∃ ingress selector, cf_Exit f = Some selector
             ∧ @node_index ascii_idna sample_plan !! nd_ID ingress = Some ingress
             ∧ none RoleExit selector (nd_ID ingress)).
Proof.
  apply (Place_refuses (idna := ascii_idna) some_range sample_plan full_runtimes ∅ [] 1000%Z);
    [apply _|vm_compute; reflexivity|vm_compute; reflexivity].
Defined.

(** C32. The choice of a node: the previous one while it still qualifies (no
    needless moves), otherwise the least of the qualifying nodes by failure
    domain where preferred, then by the exact ratio of forwards to slots, then by
    ID; none is chosen only if none qualifies. *)
Theorem chooseNode_optimal (R : MapRange) plan forward role selector oppositeID previousID nodes
    runtimes usage pool :
  MapRangeLaws R → node_map_ok nodes →
  let ok n := nodes !! nd_ID n = Some n
    ∧ eligible plan forward role selector oppositeID nodes runtimes usage pool n = true in
  match chooseNode plan forward role selector oppositeID previousID nodes runtimes usage pool with
  | None => ∀ n, ¬ ok n
  | Some n =>
      ok n
      ∧ (∀ m, ok m → previousID ≠ "" → nd_ID m = previousID → n = m)
      ∧ ((∃ m, ok m ∧ previousID ≠ "" ∧ nd_ID m = previousID)
         ∨ ∀ m, ok m → m = n ∨ less_ideal forward oppositeID nodes usage n m = true)
  end.
Proof.
  intros HR Hn. pose proof (chooseNode_spec plan forward role selector oppositeID previousID nodes
    runtimes usage pool Hn) as H. cbv zeta in *.
  destruct (chooseNode _ _ _ _ _ _ _ _ _ _) as [n|].
  - destruct H as (Hi & Hok & Hleast). split; [done|]. split.
    + intros m [Hm Hokm] Hne Hid. destruct Hleast as [[_ Hid']|Hleast]; [congruence|].
      destruct (Hleast m Hm Hokm) as [[|] _]; congruence.
    + destruct Hleast as [[Hne Hid]|Hleast]; [left; by exists n|]. right. intros m [Hm Hokm].
      destruct (Hleast m Hm Hokm) as [_ Hmn].
      destruct (less_ideal forward oppositeID nodes usage n m) eqn:E; [by right|left].
      pose proof (less_ideal_antisym _ _ _ _ _ _ Hmn E). congruence.
  - intros n [Hi Hok]. rewrite (H n Hi) in Hok. done.
Qed.

Lemma chooseNode_optimal_witness :
  node_map_ok (@node_index ascii_idna sample_plan)
  ∧ match @chooseNode some_range sample_plan (cluster_forward "web" 8080 PathDirect None) RoleExit
            (MkNodeSelector [] ∅) "" "node-b" (@node_index ascii_idna sample_plan) sample_runtimes ∅
            cluster_pool with
    | None => False
    | Some n => nd_ID n = "node-b"
    end.
Proof.
  assert (node_map_ok (@node_index ascii_idna sample_plan)) as Hn
    by (apply node_index_ok; vm_compute; reflexivity).
  split; [exact Hn|].
  pose proof (chooseNode_optimal some_range sample_plan (cluster_forward "web" 8080 PathDirect None)
    RoleExit (MkNodeSelector [] ∅) "" "node-b" _ sample_runtimes ∅ cluster_pool _ Hn) as H.
  cbv zeta in H. destruct (chooseNode _ _ _ _ _ _ _ _ _ _) as [n|] eqn:E.
  - vm_compute in E. by injection E as <-.
  - vm_compute in E. discriminate E.
Defined.

(** The choice of a backend for a pool that is probed: a healthy backend of
    the best priority, the previous one among those; with an alert, the previous
    unknown backend or an unknown one of the best priority when none is healthy;
    with another alert, the previous backend when all are unhealthy. *)
Theorem chooseBackend_contract pool health nodeID previousID observations now :
  bp_Health pool = Some health → bp_Backends pool ≠ [] →
  let '(b, alert) := chooseBackend pool nodeID previousID observations now in
  backend_choice pool health nodeID previousID observations now b alert.
Proof.
  intros Hh Hne. destruct (chooseBackend _ _ _ _ _) as [b alert] eqn:E.
  by apply chooseBackend_choice.
Qed.

Lemma chooseBackend_contract_witness :
  (∃ health, bp_Health cluster_pool = Some health
     ∧ let '(b, alert) := chooseBackend cluster_pool "node-a" "b1" ∅ 1000%Z in
       backend_choice cluster_pool health "node-a" "b1" ∅ 1000%Z b alert)
  ∧ be_ID (chooseBackend cluster_pool "node-a" "b1" ∅ 1000%Z).1 = "b1".
Proof.
  split; [|vm_compute; reflexivity]. eexists. split; [reflexivity|].
  apply chooseBackend_contract; [reflexivity|discriminate].
Defined.
