(* ===== verification/ClusterCompile.v ===== *)
(** Compilation of a placed plan into one desired state per node, [Compile] of
    [internal/cluster/scheduler.go], and what it guarantees. *)
From S2P Require Import Prelude.
From S2P Require Import GoNet.
From S2P Require Import SpecTypes.
From S2P Require Import SpecCanonical.
From S2P Require Import SpecValidate.
From S2P Require Import SpecSamples.
From S2P Require Import SpecTheorems.
From S2P Require Import Hostname.
From S2P Require Import Health.
From S2P Require Import ClusterTypes.
From S2P Require Import ClusterValidate.
From S2P Require Import PlanFacts.
From S2P Require Import Scheduler.
From S2P Require Import PlaceFacts.

(** * Updating one field of a desired state *)
Definition set_Forwards (l : list ForwardSpec) (s : DesiredState) : DesiredState :=
  {| ds_SchemaVersion := ds_SchemaVersion s; ds_NodeID := ds_NodeID s;
     ds_Generation := ds_Generation s; ds_ManagementDomain := ds_ManagementDomain s;
     ds_ServiceCIDRs := ds_ServiceCIDRs s; ds_FabricLinks := ds_FabricLinks s;
     ds_HealthChecks := ds_HealthChecks s; ds_UserPolicies := ds_UserPolicies s;
     ds_ProtocolBlocks := ds_ProtocolBlocks s; ds_Forwards := l |}.

Definition set_HealthChecks (l : list HealthCheckSpec) (s : DesiredState) : DesiredState :=
  {| ds_SchemaVersion := ds_SchemaVersion s; ds_NodeID := ds_NodeID s;
     ds_Generation := ds_Generation s; ds_ManagementDomain := ds_ManagementDomain s;
     ds_ServiceCIDRs := ds_ServiceCIDRs s; ds_FabricLinks := ds_FabricLinks s;
     ds_HealthChecks := l; ds_UserPolicies := ds_UserPolicies s;
     ds_ProtocolBlocks := ds_ProtocolBlocks s; ds_Forwards := ds_Forwards s |}.

Definition set_resources (policies : list UserPolicySpec) (links : list FabricLinkSpec)
    (s : DesiredState) : DesiredState :=
  {| ds_SchemaVersion := ds_SchemaVersion s; ds_NodeID := ds_NodeID s;
     ds_Generation := ds_Generation s; ds_ManagementDomain := ds_ManagementDomain s;
     ds_ServiceCIDRs := ds_ServiceCIDRs s; ds_FabricLinks := links;
     ds_HealthChecks := ds_HealthChecks s; ds_UserPolicies := policies;
     ds_ProtocolBlocks := ds_ProtocolBlocks s; ds_Forwards := ds_Forwards s |}.

(** * The pieces of a desired state *)
Definition initial_state (plan : Plan) (node : Node) : DesiredState :=
  {| ds_SchemaVersion := CurrentSchemaVersion; ds_NodeID := nd_ID node; ds_Generation := 1;
     ds_ManagementDomain := "cluster:" +:+ pl_ID plan; ds_ServiceCIDRs := pl_ServiceCIDRs plan;
     ds_FabricLinks := []; ds_HealthChecks := []; ds_UserPolicies := [];
     ds_ProtocolBlocks := match nd_ProtocolBlocks node with
                          | Some policy => if ProtocolBlockPolicy_Any policy then Some policy else None
                          | None => None
                          end;
     ds_Forwards := [] |}.

(** The forward of a placement: [vip] and [link] are empty for a direct one. *)
Definition forward_spec (forward : Forward) (placement : Placement) (vip : option Addr)
    (link : string) : ForwardSpec :=
  {| fw_ID := cf_ID forward; fw_UserID := cf_UserID forward; fw_Protocols := cf_Protocols forward;
     fw_IngressNodeID := pc_IngressID placement; fw_ExitNodeID := pc_ExitID placement;
     fw_Listen := cf_Listen forward;
     fw_Target := MkEndpoint (ep_Address (pc_Target placement)) "" (ep_Port (pc_Target placement));
     fw_ServiceVIP := vip; fw_FabricLinkID := link; fw_PathMode := cf_PathMode forward;
     fw_SNAT := cf_SNAT forward; fw_TrafficClassID := 0; fw_RateLimit := cf_RateLimit forward;
     fw_TrafficQuota := cf_TrafficQuota forward; fw_ExpiresAt := cf_ExpiresAt forward;
     fw_DrainDeadline := cf_DrainDeadline forward; fw_Lifecycle := cf_Lifecycle forward;
     fw_ResourceVersion := cf_ResourceVersion forward |}.

Definition health_check (pool : BackendPool) (health : HealthPolicy) (candidate : Backend) :
    HealthCheckSpec :=
  let endpoint := default (be_Target candidate) (be_ProbeEndpoint candidate) in
  {| hc_PoolID := bp_ID pool; hc_BackendID := be_ID candidate;
     hc_Endpoint := MkEndpoint (ep_Address endpoint) "" (ep_Port endpoint);
     hc_Protocol := ProtocolTCP; hc_IntervalSeconds := hp_IntervalSeconds health;
     hc_TimeoutMilliseconds := hp_TimeoutMilliseconds health;
     hc_FailureThreshold := hp_FailureThreshold health;
     hc_SuccessThreshold := hp_SuccessThreshold health;
     hc_ResourceVersion := be_ResourceVersion candidate |}.

(** [pool.ID + "\x00" + candidate.ID], from the check made of the candidate. *)
Definition nul : string := String Strings.Ascii.zero EmptyString.
Definition health_key (check : HealthCheckSpec) : string :=
  hc_PoolID check +:+ nul +:+ hc_BackendID check.

(** * The loop over the placements *)
Record compile_state := MkCompileState {
  cs_desired : gmap string DesiredState;
  cs_neededLinks : gmap string (gset string);
  cs_ingressUsers : gmap string (gset string);
  cs_healthKeys : gmap string (gset string);
}.

(** [m[id][x] = struct{}{}], making [m[id]] where it is nil. *)
Definition add_member (m : gmap string (gset string)) (id x : string) : gmap string (gset string) :=
  <[id := {[x]} ∪ default ∅ (m !! id)]> m.

(** [state := desired[id]; state.Forwards = append(...); desired[id] = state] *)
Definition append_forward (desired : gmap string DesiredState) (id : string) (f : ForwardSpec) :
    gmap string DesiredState :=
  let state := default DesiredStateZero (desired !! id) in
  <[id := set_Forwards (ds_Forwards state ++ [f]) state]> desired.

(** The checks whose key has not been seen, and the keys seen since. *)
Fixpoint add_checks (checks : list HealthCheckSpec) (seen : gset string) :
    list HealthCheckSpec * gset string :=
  match checks with
  | [] => ([], seen)
  | check :: rest =>
      if bool_decide (health_key check ∈ seen) then add_checks rest seen
      else
        let '(added, seen) := add_checks rest ({[health_key check]} ∪ seen) in
        (check :: added, seen)
  end.

Definition probe_node (placement : Placement) : string :=
  if bool_decide (pc_PathMode placement = PathViaExit) then pc_ExitID placement
  else pc_IngressID placement.

Definition compile_checks (pool : BackendPool) (placement : Placement) (st : compile_state) :
    compile_state :=
  match bp_Health pool with
  | None => st
  | Some health =>
      let probeNode := probe_node placement in
      let state := default DesiredStateZero (cs_desired st !! probeNode) in
      let '(added, keys) :=
        add_checks (map (health_check pool health) (bp_Backends pool))
          (default ∅ (cs_healthKeys st !! probeNode)) in
      MkCompileState
        (<[probeNode := set_HealthChecks (ds_HealthChecks state ++ added) state]> (cs_desired st))
        (cs_neededLinks st) (cs_ingressUsers st) (<[probeNode := keys]> (cs_healthKeys st))
  end.

Definition compile_placement (forwards : gmap string Forward) (pools : gmap string BackendPool)
    (serviceVIPs : gmap string Addr) (_ : nat) (placement : Placement) (st : compile_state) :
    string + compile_state :=
  match forwards !! pc_ForwardID placement with
  | None => inl ("placement references unknown forward " +:+ pc_ForwardID placement)
  | Some forward =>
      let pool := default BackendPoolZero (pools !! cf_BackendPoolID forward) in
      let current := match backendByID (bp_Backends pool) (pc_BackendID placement) with
                     | Some backend => bool_decide (be_Target backend = pc_Target placement)
                     | None => false
                     end in
      if negb current
      then inl ("placement for " +:+ pc_ForwardID placement +:+ " references a stale backend")
      else
        let users := add_member (cs_ingressUsers st) (pc_IngressID placement) (cf_UserID forward) in
        if bool_decide (pc_PathMode placement = PathDirect) then
          inr (compile_checks pool placement
                 (MkCompileState
                    (append_forward (cs_desired st) (pc_IngressID placement)
                       (forward_spec forward placement None ""))
                    (cs_neededLinks st) users (cs_healthKeys st)))
        else
          match serviceVIPs !! pc_ForwardID placement with
          | Some vip =>
              if negb (validIPv4Address vip)
              then inl ("placement for " +:+ pc_ForwardID placement
                        +:+ " requires an allocated service VIP")
              else
                let spec := forward_spec forward placement (Some (Addr_Unmap vip)) in
                inr (compile_checks pool placement
                       (MkCompileState
                          (append_forward
                             (append_forward (cs_desired st) (pc_IngressID placement)
                                (spec (pc_FabricInID placement)))
                             (pc_ExitID placement) (spec (pc_FabricOutID placement)))
                          (add_member
                             (add_member (cs_neededLinks st) (pc_IngressID placement)
                                (pc_FabricInID placement))
                             (pc_ExitID placement) (pc_FabricOutID placement))
                          users (cs_healthKeys st)))
          | None => inl ("placement for " +:+ pc_ForwardID placement
                         +:+ " requires an allocated service VIP")
          end
  end.

(** * Finishing a node *)
Fixpoint compile_links (nodeID : string) (used : gset string) (runtimes : gmap string NodeRuntime)
    (links : list FabricLink) : string + list FabricLinkSpec :=
  match links with
  | [] => inr []
  | link :: rest =>
      if negb (bool_decide (cl_ID link ∈ used)) then compile_links nodeID used runtimes rest
      else match compileLink link runtimes with
      | inl e => inl ("compile node " +:+ nodeID +:+ " fabric " +:+ cl_ID link +:+ ": " +:+ e)
      | inr compiled =>
          match compile_links nodeID used runtimes rest with
          | inl e => inl e
          | inr l => inr (compiled :: l)
          end
      end
  end.

Definition compile_node (plan : Plan) (nodes : gmap string Node) (runtimes : gmap string NodeRuntime)
    (st : compile_state) (nodeID : string) (state : DesiredState) : string + DesiredState :=
  let policies := filter (λ policy, up_UserID policy ∈ default ∅ (cs_ingressUsers st !! nodeID))
                    (pl_UserPolicies plan) in
  match compile_links nodeID (default ∅ (cs_neededLinks st !! nodeID)) runtimes
          (nd_FabricLinks (default NodeZero (nodes !! nodeID))) with
  | inl e => inl e
  | inr links =>
      let state := Canonical (set_resources (ds_UserPolicies state ++ policies)
                                (ds_FabricLinks state ++ links) state) in
      match Validate state with
      | (_ :: _) as issues => inl ("compile desired state for node " +:+ nodeID +:+ ": "
                                   +:+ ValidationError_Error issues)
      | [] => inr state
      end
  end.

(** [desired[nodeID] = state] for the state the node compiles to. *)
Definition finish_step (g : string → DesiredState → string + DesiredState) (_ : nat) (kv : string * DesiredState)
    (desired : gmap string DesiredState) : string + gmap string DesiredState :=
  match g kv.1 kv.2 with
  | inl e => inl e
  | inr state => inr (<[kv.1 := state]> desired)
  end.

(** [for nodeID, state := range desired]: in some order. *)
Class StateRange := range_states : gmap string DesiredState → list (string * DesiredState).
Class StateRangeLaws (R : StateRange) : Prop := range_states_perm m : range_states m ≡ₚ map_to_list m.

Definition Compile `{!Idna} `{!StateRange} (plan : Plan) (result : Result)
    (serviceVIPs : gmap string Addr) (runtimes : gmap string NodeRuntime) :
    string + gmap string DesiredState :=
  match PlanValidate plan with
  | (_ :: _) as issues => inl (PlanValidationError_Error issues)
  | [] =>
      let plan := PlanCanonical plan in
      let nodes := index_by nd_ID (pl_Nodes plan) in
      let desired := initial_state plan <$> nodes in
      let forwards := index_by cf_ID (pl_Forwards plan) in
      let pools := index_by bp_ID (pl_BackendPools plan) in
      match eloop (compile_placement forwards pools serviceVIPs) 0 (re_Placements result)
              (MkCompileState desired ∅ ∅ ∅) with
      | inl e => inl e
      | inr st =>
          eloop (finish_step (compile_node plan nodes runtimes st)) 0
            (range_states (cs_desired st)) (cs_desired st)
      end
  end.

(** * What a compiled node holds

    Each placement contributes to the nodes it names; the state of a node is the
    sum of the contributions. *)
Section contributions.
Context (forwards : gmap string Forward) (pools : gmap string BackendPool)
  (serviceVIPs : gmap string Addr).

(** The forwards a placement gives to the node [id]. *)
Definition forwards_for (id : string) (p : Placement) : list ForwardSpec :=
  match forwards !! pc_ForwardID p with
  | None => []
  | Some f =>
      if bool_decide (pc_PathMode p = PathDirect) then
        if bool_decide (pc_IngressID p = id) then [forward_spec f p None ""] else []
      else
        let spec := forward_spec f p (Addr_Unmap <$> serviceVIPs !! pc_ForwardID p) in
        (if bool_decide (pc_IngressID p = id) then [spec (pc_FabricInID p)] else [])
        ++ (if bool_decide (pc_ExitID p = id) then [spec (pc_FabricOutID p)] else [])
  end.

Definition links_for (id : string) (p : Placement) : list string :=
  if bool_decide (pc_PathMode p = PathDirect) then []
  else (if bool_decide (pc_IngressID p = id) then [pc_FabricInID p] else [])
       ++ (if bool_decide (pc_ExitID p = id) then [pc_FabricOutID p] else []).

Definition users_for (id : string) (p : Placement) : list string :=
  if bool_decide (pc_IngressID p = id)
  then match forwards !! pc_ForwardID p with Some f => [cf_UserID f] | None => [] end else [].

Definition pool_checks (pool : BackendPool) (id : string) (p : Placement) : list HealthCheckSpec :=
  if negb (bool_decide (probe_node p = id)) then []
  else match bp_Health pool with
       | None => []
       | Some health => map (health_check pool health) (bp_Backends pool)
       end.

Definition pool_of_forward (f : Forward) : BackendPool :=
  default BackendPoolZero (pools !! cf_BackendPoolID f).

Definition checks_for (id : string) (p : Placement) : list HealthCheckSpec :=
  match forwards !! pc_ForwardID p with
  | None => []
  | Some f => pool_checks (pool_of_forward f) id p
  end.

Definition current_backend (p : Placement) (f : Forward) : Prop :=
  ∃ b, backendByID (bp_Backends (pool_of_forward f)) (pc_BackendID p) = Some b
       ∧ be_Target b = pc_Target p.

Lemma add_checks_app l1 l2 seen :
  add_checks (l1 ++ l2) seen =
  let '(a1, s1) := add_checks l1 seen in
  let '(a2, s2) := add_checks l2 s1 in (a1 ++ a2, s2).
Proof.
  revert seen. induction l1 as [|c l1 IH]; intros seen; cbn -[bool_decide].
  - by destruct (add_checks l2 seen).
  - destruct (bool_decide _); [done|]. rewrite IH.
    destruct (add_checks l1 _) as [a1 s1]. by destruct (add_checks l2 s1).
Qed.

(** The first check of each key. *)
Fixpoint firsts (l : list HealthCheckSpec) : list HealthCheckSpec :=
  match l with
  | [] => []
  | c :: l => c :: filter (λ d, health_key d ≠ health_key c) (firsts l)
  end.

Lemma add_checks_firsts l seen :
  (add_checks l seen).1 = filter (λ d, health_key d ∉ seen) (firsts l).
Proof.
  revert seen. induction l as [|c l IH]; intros seen; [done|].
  cbn [firsts add_checks]. rewrite filter_cons, list_filter_filter.
  destruct (bool_decide (health_key c ∈ seen)) eqn:E; reflect_bool.
  - rewrite decide_False by naive_solver. rewrite IH. apply list_filter_iff.
    intros d. split; [|naive_solver]. intros Hd. split; [done|]. intros Heq. by rewrite Heq in Hd.
  - rewrite decide_True by done. specialize (IH ({[health_key c]} ∪ seen)).
    destruct (add_checks l _) as [a k]. cbn in IH |- *. rewrite IH. f_equal.
    apply list_filter_iff. intros d. rewrite not_elem_of_union, not_elem_of_singleton. tauto.
Qed.

Lemma add_checks_empty l : (add_checks l ∅).1 = firsts l.
Proof.
  rewrite add_checks_firsts. induction (firsts l) as [|c k IH]; [done|].
  rewrite filter_cons, decide_True by set_solver. by rewrite IH.
Qed.

(** ** The loop computes the sums *)
Context (base : gmap string DesiredState).
Context (Hbase : ∀ id s, base !! id = Some s → ds_Forwards s = [] ∧ ds_HealthChecks s = []).

Definition summed (id : string) (l : list Placement) : DesiredState :=
  set_HealthChecks (add_checks (l ≫= checks_for id) ∅).1
    (set_Forwards (l ≫= forwards_for id) (default DesiredStateZero (base !! id))).

Record sums (l : list Placement) (st : compile_state) : Prop := {
  su_desired id : default DesiredStateZero (cs_desired st !! id) = summed id l;
  su_dom id : is_Some (base !! id) → is_Some (cs_desired st !! id);
  su_links id : default ∅ (cs_neededLinks st !! id) = list_to_set (l ≫= links_for id);
  su_users id : default ∅ (cs_ingressUsers st !! id) = list_to_set (l ≫= users_for id);
  su_keys id : default ∅ (cs_healthKeys st !! id) = (add_checks (l ≫= checks_for id) ∅).2;
  su_ok : Forall (λ p, ∃ f, forwards !! pc_ForwardID p = Some f ∧ current_backend p f
      ∧ (pc_PathMode p ≠ PathDirect →
         ∃ vip, serviceVIPs !! pc_ForwardID p = Some vip ∧ validIPv4Address vip = true)) l;
}.

Lemma sums_nil : sums [] (MkCompileState base ∅ ∅ ∅).
Proof.
  split; cbn; intros; rewrite ?lookup_empty; try done. unfold summed. cbn.
  destruct (base !! id) as [s|] eqn:E; [|done]. cbn. destruct (Hbase _ _ E). by destruct s; cbn in *; subst.
Qed.

Lemma default_append d i f id :
  default DesiredStateZero (append_forward d i f !! id) =
  let s := default DesiredStateZero (d !! id) in
  set_Forwards (ds_Forwards s ++ (if bool_decide (i = id) then [f] else [])) s.
Proof.
  unfold append_forward. destruct (bool_decide (i = id)) eqn:E; reflect_bool; cbn.
  - subst. by rewrite lookup_insert_eq.
  - rewrite lookup_insert_ne by done. rewrite app_nil_r. by destruct (default _ _).
Qed.

Lemma default_add m i x id :
  default ∅ (add_member m i x !! id) =
  default ∅ (m !! id) ∪ (if bool_decide (i = id) then {[x]} else ∅).
Proof.
  unfold add_member. destruct (bool_decide (i = id)) eqn:E; reflect_bool.
  - subst. rewrite lookup_insert_eq. cbn. set_solver.
  - rewrite lookup_insert_ne by done. set_solver.
Qed.

Lemma append_dom d i f id : is_Some (d !! id) → is_Some (append_forward d i f !! id).
Proof.
  unfold append_forward. destruct (decide (i = id)) as [->|].
  - by rewrite lookup_insert_eq.
  - by rewrite lookup_insert_ne.
Qed.

Lemma compile_checks_spec pool p st :
  let st' := compile_checks pool p st in
  cs_neededLinks st' = cs_neededLinks st ∧ cs_ingressUsers st' = cs_ingressUsers st
  ∧ ∀ id,
      let a := add_checks (pool_checks pool id p) (default ∅ (cs_healthKeys st !! id)) in
      let s := default DesiredStateZero (cs_desired st !! id) in
      default DesiredStateZero (cs_desired st' !! id) = set_HealthChecks (ds_HealthChecks s ++ a.1) s
      ∧ default ∅ (cs_healthKeys st' !! id) = a.2
      ∧ (is_Some (cs_desired st !! id) → is_Some (cs_desired st' !! id)).
Proof.
  assert (∀ s, set_HealthChecks (ds_HealthChecks s ++ []) s = s) as Hid.
  { intros []. unfold set_HealthChecks. cbn. by rewrite app_nil_r. }
  unfold compile_checks, pool_checks. destruct (bp_Health pool) as [health|]; cbn.
  2: { split_and!; [done..|]. intros id. destruct (negb _); cbn; by rewrite Hid. }
  destruct (add_checks _ _) as [added keys] eqn:E. cbn. split_and!; [done..|]. intros id.
  destruct (bool_decide (probe_node p = id)) eqn:Ep; reflect_bool; cbn [negb].
  - subst id. rewrite !lookup_insert_eq, E. cbn. by eauto.
  - rewrite !lookup_insert_ne by done. cbn. by rewrite Hid.
Qed.

(** The state after the forwards, links and users of a placement are entered. *)
Lemma sums_step l p st st' :
  sums l st → compile_placement forwards pools serviceVIPs (length l) p st = inr st' →
  sums (l ++ [p]) st'.
Proof.
  intros [Hd Hdom Hl Hu Hk Hok]. unfold compile_placement.
  destruct (forwards !! pc_ForwardID p) as [f|] eqn:Ef; [|done].
  fold (pool_of_forward f). set (pool := pool_of_forward f).
  destruct (negb _) eqn:Eb; [done|]. apply negb_false_iff in Eb.
  assert (current_backend p f) as Hb.
  { unfold current_backend. fold pool. destruct (backendByID _ _) as [b|]; [|done].
    reflect_bool. eauto. }
  clear Eb. intros H.
  assert (∃ st1, st' = compile_checks pool p st1
    ∧ cs_healthKeys st1 = cs_healthKeys st
    ∧ (∀ id, default ∅ (cs_ingressUsers st1 !! id)
             = default ∅ (cs_ingressUsers st !! id) ∪ list_to_set (users_for id p))
    ∧ (∀ id, default ∅ (cs_neededLinks st1 !! id)
             = default ∅ (cs_neededLinks st !! id) ∪ list_to_set (links_for id p))
    ∧ (∀ id, default DesiredStateZero (cs_desired st1 !! id)
             = let s := default DesiredStateZero (cs_desired st !! id) in
               set_Forwards (ds_Forwards s ++ forwards_for id p) s)
    ∧ (∀ id, is_Some (cs_desired st !! id) → is_Some (cs_desired st1 !! id))
    ∧ (pc_PathMode p ≠ PathDirect →
       ∃ vip, serviceVIPs !! pc_ForwardID p = Some vip ∧ validIPv4Address vip = true))
    as (st1 & -> & K1 & U1 & L1 & D1 & M1 & V1).
  { assert (∀ id, default ∅ (add_member (cs_ingressUsers st) (pc_IngressID p) (cf_UserID f) !! id)
      = default ∅ (cs_ingressUsers st !! id) ∪ list_to_set (users_for id p)) as HU.
    { intros id. rewrite default_add. unfold users_for. rewrite Ef.
      destruct (bool_decide (pc_IngressID p = id)); cbn;
        by rewrite ?list_to_set_cons, ?list_to_set_nil, ?union_empty_r_L, ?union_empty_l_L. }
    unfold links_for, forwards_for. rewrite Ef.
    destruct (bool_decide (pc_PathMode p = PathDirect)) eqn:Em; reflect_bool.
    - injection H as <-. eexists. split_and!; [reflexivity|done|done|..]; cbn.
      + intros id. by rewrite ?list_to_set_nil, union_empty_r_L.
      + intros id. apply default_append.
      + intros id. apply append_dom.
      + done.
    - destruct (serviceVIPs !! pc_ForwardID p) as [vip|]; [|done].
      destruct (negb (validIPv4Address vip)) eqn:Ev; [done|]. apply negb_false_iff in Ev.
      injection H as <-. eexists. split_and!; [reflexivity|done|done|..]; cbn.
      + intros id. rewrite !default_add, <- union_assoc_L, list_to_set_app_L.
        destruct (bool_decide (pc_IngressID p = id)), (bool_decide (pc_ExitID p = id)); cbn;
        by rewrite ?list_to_set_cons, ?list_to_set_nil, ?union_empty_r_L, ?union_empty_l_L.
      + intros id. rewrite !default_append. cbn -[bool_decide]. by rewrite <- app_assoc.
      + intros id Hi. by apply append_dom, append_dom.
      + eauto. }
  destruct (compile_checks_spec pool p st1) as (L2 & U2 & C2).
  assert (∀ id, checks_for id p = pool_checks pool id p) as Hc
    by (intros id; unfold checks_for; by rewrite Ef).
  split.
  - intros id. destruct (C2 id) as (-> & _ & _). rewrite D1, K1, Hd, Hk. unfold summed.
    rewrite !bind_app. cbn. rewrite !app_nil_r, add_checks_app, Hc.
    destruct (add_checks (l ≫= checks_for id) ∅) as [a1 s1]. cbn.
    by destruct (add_checks (pool_checks pool id p) s1).
  - intros id Hi. apply C2, M1, Hdom, Hi.
  - intros id. rewrite L2, L1, Hl, bind_app, list_to_set_app_L. cbn. by rewrite app_nil_r.
  - intros id. rewrite U2, U1, Hu, bind_app, list_to_set_app_L. cbn. by rewrite app_nil_r.
  - intros id. destruct (C2 id) as (_ & -> & _). rewrite K1, Hk, bind_app. cbn.
    rewrite app_nil_r, add_checks_app, Hc.
    destruct (add_checks (l ≫= checks_for id) ∅) as [a1 s1]. cbn.
    by destruct (add_checks (pool_checks pool id p) s1).
  - apply Forall_app. split; [done|]. constructor; [|done]. eauto.
Qed.

Lemma sums_loop l st :
  eloop (compile_placement forwards pools serviceVIPs) 0 l (MkCompileState base ∅ ∅ ∅) = inr st →
  sums l st.
Proof.
  apply (eloop_inv _ sums); [exact sums_nil|]. intros done p s s' _ Hs Hstep.
  by eapply sums_step.
Qed.
End contributions.

(** * The loop over the nodes *)
Section finish.
Context (g : string → DesiredState → string + DesiredState).

Lemma finish_loop l m0 m :
  NoDup l.*1 → eloop (finish_step g) 0 l m0 = inr m →
  (∀ k v, (k, v) ∈ l → ∃ s, g k v = inr s ∧ m !! k = Some s)
  ∧ (∀ k, k ∉ l.*1 → m !! k = m0 !! k).
Proof.
  intros Hnd. apply (eloop_inv _ (λ done m,
    (∀ k v, (k, v) ∈ done → ∃ s, g k v = inr s ∧ m !! k = Some s)
    ∧ (∀ k, k ∉ done.*1 → m !! k = m0 !! k))).
  { split; [by intros k v ?%elem_of_nil|done]. }
  intros done [k v] s s' [rest ->] [H1 H2]. unfold finish_step. cbn.
  destruct (g k v) as [e|t] eqn:E; [done|]. intros [= <-].
  rewrite !fmap_app in Hnd. apply NoDup_app in Hnd as (Hnd & _ & _).
  apply NoDup_app in Hnd as (_ & Hnew & _). split.
  - intros k' v' [Hin|Hin%list_elem_of_singleton]%elem_of_app.
    + rewrite lookup_insert_ne; [by apply H1|]. intros <-.
      apply (Hnew k); [by apply (list_elem_of_fmap_2 fst _ (k, v'))|by apply list_elem_of_singleton].
    + injection Hin as -> ->. exists t. by rewrite lookup_insert_eq.
  - intros k'. rewrite fmap_app, elem_of_app. intros Hn. rewrite lookup_insert_ne; [apply H2; tauto|].
    intros <-. apply Hn. right. by apply list_elem_of_singleton.
Qed.

Lemma finish_total i l m0 :
  (∀ k v, (k, v) ∈ l → ∃ s, g k v = inr s) → ∃ m, eloop (finish_step g) i l m0 = inr m.
Proof.
  revert i m0. induction l as [|[k v] l IH]; intros i m0 H; cbn; [eauto|].
  destruct (H k v) as [s Hs]; [left|]. unfold finish_step at 1. cbn. rewrite Hs.
  apply IH. intros k' v' Hin. apply H. by right.
Qed.
End finish.

Lemma compile_node_inv plan nodes runtimes st id s t :
  compile_node plan nodes runtimes st id s = inr t →
  ∃ links, compile_links id (default ∅ (cs_neededLinks st !! id)) runtimes
             (nd_FabricLinks (default NodeZero (nodes !! id))) = inr links
    ∧ t = Canonical (set_resources
            (ds_UserPolicies s ++ filter (λ policy, up_UserID policy ∈ default ∅ (cs_ingressUsers st !! id))
                                    (pl_UserPolicies plan))
            (ds_FabricLinks s ++ links) s)
    ∧ Valid t.
Proof.
  unfold compile_node. destruct (compile_links _ _ _ _) as [e|links]; [done|].
  destruct (Validate _) eqn:E; [|done]. intros [= <-]. by exists links.
Qed.

Lemma compile_node_anonymous plan nodes runtimes st id s t :
  ds_NodeID s = "" → compile_node plan nodes runtimes st id s ≠ inr t.
Proof.
  intros Hid (links & _ & -> & Hv)%compile_node_inv. apply Valid_header in Hv.
  unfold validate_header in Hv. cbn -[Prefix_String] in Hv. rewrite Hid in Hv.
  by split_issues Hv.
Qed.

(** * What [Compile] returns *)
Definition forward_index `{!Idna} (plan : Plan) : gmap string Forward :=
  index_by cf_ID (pl_Forwards (PlanCanonical plan)).

(** The state of a node, as the sum of what the placements contribute to it. *)
Definition node_state `{!Idna} (plan : Plan) (result : Result) (vips : gmap string Addr) (id : string)
    (node : Node) (links : list FabricLinkSpec) : DesiredState :=
  let l := re_Placements result in
  let users := list_to_set (l ≫= users_for (forward_index plan) id) : gset string in
  set_resources (filter (λ policy, up_UserID policy ∈ users) (pl_UserPolicies (PlanCanonical plan))) links
    (set_HealthChecks (firsts (l ≫= checks_for (forward_index plan) (pool_index plan) id))
       (set_Forwards (l ≫= forwards_for (forward_index plan) vips id)
          (initial_state (PlanCanonical plan) node))).

(** The links of a node that its placements need, compiled in order. *)
Definition node_links (result : Result) (runtimes : gmap string NodeRuntime) (id : string)
    (node : Node) (links : list FabricLinkSpec) : Prop :=
  Forall2 (λ link compiled, compileLink link runtimes = inr compiled)
    (filter (λ link, cl_ID link ∈ re_Placements result ≫= links_for id) (nd_FabricLinks node)) links.

Lemma compile_links_spec id used runtimes links compiled :
  compile_links id used runtimes links = inr compiled →
  Forall2 (λ link c, compileLink link runtimes = inr c) (filter (λ link, cl_ID link ∈ used) links)
    compiled.
Proof.
  revert compiled. induction links as [|l links IH]; intros compiled; cbn [compile_links].
  { intros [= <-]. constructor. }
  rewrite filter_cons. destruct (bool_decide (cl_ID l ∈ used)) eqn:E; reflect_bool; cbn [negb].
  - rewrite decide_True by done. destruct (compileLink l runtimes) as [e|c] eqn:Ec; [done|].
    destruct (compile_links _ _ _ _) as [e|cs]; [done|]. intros [= <-]. constructor; auto.
  - rewrite decide_False by done. apply IH.
Qed.

Lemma node_links_fun result runtimes id node l1 l2 :
  node_links result runtimes id node l1 → node_links result runtimes id node l2 → l1 = l2.
Proof.
  unfold node_links. intros H1. revert l2.
  induction H1 as [|l c k1 k2 H _ IH]; intros l2 H2; inv H2; [done|]. f_equal; [congruence|auto].
Qed.

Section compile.
Context {idna : Idna}.
Context (plan : Plan) (result : Result) (vips : gmap string Addr) (runtimes : gmap string NodeRuntime).
Let base : gmap string DesiredState := initial_state (PlanCanonical plan) <$> node_index plan.

Lemma base_empty id s : base !! id = Some s → ds_Forwards s = [] ∧ ds_HealthChecks s = [].
Proof. unfold base. rewrite lookup_fmap. by intros (n & _ & ->)%fmap_Some_1. Qed.

Lemma Compile_inv {R : StateRange} desired :
  Compile plan result vips runtimes = inr desired →
  PlanValid plan
  ∧ ∃ st, sums (forward_index plan) (pool_index plan) vips base (re_Placements result) st
    ∧ eloop (compile_placement (forward_index plan) (pool_index plan) vips) 0 (re_Placements result)
        (MkCompileState base ∅ ∅ ∅) = inr st
    ∧ eloop (finish_step (compile_node (PlanCanonical plan) (node_index plan) runtimes st)) 0
        (range_states (cs_desired st)) (cs_desired st) = inr desired.
Proof.
  unfold Compile, PlanValid. destruct (PlanValidate plan); [|done].
  fold (node_index plan) (pool_index plan) (forward_index plan). fold base.
  destruct (eloop _ _ _ _) as [e|st] eqn:E; [done|]. intros H. split; [done|]. exists st.
  split_and!; [|done..]. apply sums_loop in E; [done|exact base_empty].
Qed.

Lemma range_states_NoDup {R : StateRange} `{!StateRangeLaws R} m : NoDup (range_states m).*1.
Proof. rewrite range_states_perm. apply NoDup_fst_map_to_list. Qed.

Lemma elem_of_range_states {R : StateRange} `{!StateRangeLaws R} m k v :
  (k, v) ∈ range_states m ↔ m !! k = Some v.
Proof. rewrite range_states_perm. apply elem_of_map_to_list. Qed.

(** Each node's state is compiled from its own sum; no other node has one. *)
Lemma finish_node {R : StateRange} `{!StateRangeLaws R} st desired nodeID :
  sums (forward_index plan) (pool_index plan) vips base (re_Placements result) st →
  eloop (finish_step (compile_node (PlanCanonical plan) (node_index plan) runtimes st)) 0
    (range_states (cs_desired st)) (cs_desired st) = inr desired →
  match node_index plan !! nodeID with
  | None => cs_desired st !! nodeID = None ∧ desired !! nodeID = None
  | Some node => ∃ links, node_links result runtimes nodeID node links
      ∧ let s := Canonical (node_state plan result vips nodeID node links) in
        desired !! nodeID = Some s ∧ Valid s
  end.
Proof.
  intros [Hd Hdom Hl Hu _ _] Hf. apply finish_loop in Hf as [H1 H2]; [|apply range_states_NoDup].
  assert (∀ s, cs_desired st !! nodeID = Some s →
    ∃ t, compile_node (PlanCanonical plan) (node_index plan) runtimes st nodeID s = inr t
         ∧ desired !! nodeID = Some t ∧ s = summed (forward_index plan) (pool_index plan) vips base nodeID
                                          (re_Placements result)) as Hs.
  { intros s Hs. destruct (H1 nodeID s) as (t & Ht & Hdt); [by apply elem_of_range_states|].
    exists t. split_and!; [done..|]. by rewrite <- Hd, Hs. }
  unfold summed, base in Hs. rewrite lookup_fmap in Hs.
  destruct (node_index plan !! nodeID) as [node|] eqn:En; cbn [default from_option id fmap option_fmap option_map] in Hs.
  - destruct (Hdom nodeID) as [s Es]; [unfold base; rewrite lookup_fmap, En; eauto|].
    destruct (Hs s Es) as (t & Ht & Hdt & ->). apply compile_node_inv in Ht as (links & Hlk & -> & Hv).
    rewrite Hl, Hu, En in *. exists links. cbv zeta.
    apply compile_links_spec in Hlk. unfold node_state. rewrite <- add_checks_empty.
    split; [|split; [exact Hdt|exact Hv]]. unfold node_links.
    erewrite list_filter_iff; [exact Hlk|]. intros l. by rewrite elem_of_list_to_set.
  - destruct (cs_desired st !! nodeID) as [s|] eqn:Es.
    + exfalso. destruct (Hs s eq_refl) as (t & Ht & _ & ->).
      by apply compile_node_anonymous in Ht.
    + split; [done|]. rewrite H2; [done|]. intros (kv & -> & Hin)%list_elem_of_fmap.
      destruct kv as [k v]. apply elem_of_range_states in Hin. cbn in Es. congruence.
Qed.
End compile.

(** * Properties *)
Definition some_states : StateRange := map_to_list.
#[export] Instance some_states_laws : StateRangeLaws some_states.
Proof. intros m. apply Permutation_refl. Qed.
Definition other_states : StateRange := λ m, rev (map_to_list m).
#[export] Instance other_states_laws : StateRangeLaws other_states.
Proof. intros m. unfold range_states, other_states. symmetry. apply Permutation_rev. Qed.

Definition sample_vips : gmap string Addr := {["tunnel" := ip 10 90 0 5]}.
Definition sample_compile : string + gmap string DesiredState :=
  @Compile ascii_idna some_states sample_plan sample_result sample_vips sample_runtimes.
Definition sample_desired : gmap string DesiredState :=
  match sample_compile with inr d => d | inl _ => ∅ end.
Lemma sample_compile_ok : sample_compile = inr sample_desired.
Proof. vm_compute. reflexivity. Qed.

Example sample_compile_result :
  (λ s, (ds_NodeID s, fw_ID <$> ds_Forwards s, fl_ID <$> ds_FabricLinks s,
         hc_BackendID <$> ds_HealthChecks s)) <$> (map_to_list sample_desired).*2
  = [("node-a", ["tunnel"; "web"], ["a-b"], ["b1"; "b2"]);
     ("node-b", ["tunnel"], ["b-a"], ["b1"; "b2"])].
Proof. vm_compute. reflexivity. Qed.

(** C8. Compilation refines its specification: the states are those of the
    plan's nodes and no others, each is the canonical form of the sum of what the
    placements contribute to the node (forwards, the links they need, the policies
    of the users that enter there, the deduplicated probes), and each is accepted
    by the validator the node will run. *)
Theorem Compile_spec {idna : Idna} (R : StateRange) plan result vips runtimes desired nodeID :
  StateRangeLaws R →
  Compile plan result vips runtimes = inr desired →
  match node_index plan !! nodeID with
  | None => desired !! nodeID = None
  | Some node => ∃ links, node_links result runtimes nodeID node links
      ∧ let s := Canonical (node_state plan result vips nodeID node links) in
        desired !! nodeID = Some s ∧ Valid s
  end.
Proof.
  intros HR (_ & st & Hs & _ & Hf)%Compile_inv.
  pose proof (finish_node _ _ _ _ _ _ nodeID Hs Hf) as H.
  destruct (node_index plan !! nodeID); [done|]. by destruct H.
Qed.

Lemma Compile_spec_witness :
  match @node_index ascii_idna sample_plan !! "node-b" with
  | None => False
  | Some node => ∃ links, node_links sample_result sample_runtimes "node-b" node links
      ∧ let s := Canonical (@node_state ascii_idna sample_plan sample_result sample_vips "node-b"
                              node links) in
        sample_desired !! "node-b" = Some s ∧ Valid s
  end.
Proof.
  pose proof (Compile_spec (idna := ascii_idna) some_states sample_plan sample_result sample_vips
    sample_runtimes sample_desired "node-b" _ sample_compile_ok) as H.
  destruct (@node_index ascii_idna sample_plan !! "node-b") as [node|] eqn:E; [exact H|].
  vm_compute in E. discriminate E.
Defined.

(** The order in which the map of states is ranged over, and rewritten while
    it is, does not show in the result. *)
Theorem Compile_deterministic {idna : Idna} (R1 R2 : StateRange) plan result vips runtimes desired :
  StateRangeLaws R1 → StateRangeLaws R2 →
  @Compile idna R1 plan result vips runtimes = inr desired →
  @Compile idna R2 plan result vips runtimes = inr desired.
Proof.
  intros HR1 HR2 H. apply Compile_inv in H as (Hv & st & Hs & Hl & Hf).
  set (g := compile_node _ _ _ _) in Hf.
  assert (∃ d2, eloop (finish_step g) 0 (range_states (StateRange := R2) (cs_desired st)) (cs_desired st)
                = inr d2) as [d2 Hf2].
  { apply finish_total. intros k v Hkv. apply (elem_of_range_states (R := R2)) in Hkv.
    apply finish_loop in Hf as [Hf _]; [|apply range_states_NoDup].
    destruct (Hf k v) as (s & Hg & _); [by apply elem_of_range_states|]. eauto. }
  assert (@Compile idna R2 plan result vips runtimes = inr d2) as ->.
  { unfold Compile. rewrite Hv. unfold forward_index, pool_index, node_index in Hl. rewrite Hl. exact Hf2. }
  f_equal. apply map_eq. intros nodeID.
  pose proof (finish_node _ _ _ _ _ _ nodeID Hs Hf) as H1.
  pose proof (finish_node (R := R2) _ _ _ _ _ _ nodeID Hs Hf2) as H2.
  destruct (node_index plan !! nodeID) as [node|].
  - destruct H1 as (k1 & E1 & -> & _), H2 as (k2 & E2 & -> & _).
    by rewrite (node_links_fun _ _ _ _ _ _ E1 E2).
  - destruct H1 as [_ ->], H2 as [_ ->]. done.
Qed.

Lemma Compile_deterministic_witness :
  @Compile ascii_idna other_states sample_plan sample_result sample_vips sample_runtimes
  = inr sample_desired.
Proof.
  apply (Compile_deterministic (idna := ascii_idna) some_states other_states); [apply _|apply _|].
  exact sample_compile_ok.
Defined.


(** * Both ends of a cross-node forward *)
Lemma desired_forward {idna : Idna} {R : StateRange} `{!StateRangeLaws R} plan result vips runtimes
    desired nodeID f :
  Compile plan result vips runtimes = inr desired →
  f ∈ re_Placements result ≫= forwards_for (forward_index plan) vips nodeID →
  ∃ s, desired !! nodeID = Some s ∧ Valid s ∧ ds_NodeID s = nodeID
       ∧ ds_ServiceCIDRs s = sort_slice less_prefix
           (map canonicalPrefix (pl_ServiceCIDRs (PlanCanonical plan)))
       ∧ canonicalForward f ∈ ds_Forwards s.
Proof.
  intros (Hv & st & Hs & _ & Hf)%Compile_inv Hin.
  pose proof (finish_node _ _ _ _ _ _ nodeID Hs Hf) as H.
  destruct (node_index plan !! nodeID) as [node|] eqn:En.
  - destruct H as (links & _ & -> & Hval). eexists. split_and!; [reflexivity|done| |done|].
    + cbn. by apply (index_by_key _ _ _ _ En).
    + cbn [Canonical node_state ds_Forwards set_resources set_HealthChecks set_Forwards].
      rewrite elem_of_sort_slice. by apply list_elem_of_fmap_2.
  - exfalso. destruct H as [H _]. pose proof (su_desired _ _ _ _ _ _ Hs nodeID) as Hd.
    rewrite H in Hd. apply (f_equal ds_Forwards) in Hd.
    change ([] = re_Placements result ≫= forwards_for (forward_index plan) vips nodeID) in Hd.
    rewrite <- Hd in Hin. by apply elem_of_nil in Hin.
Qed.

(** The forward published for one end, and the link it resolves to there. *)
Record end_published (s : DesiredState) (f : ForwardSpec) (peer : string) : Prop := {
  ep_forward : canonicalForward f ∈ ds_Forwards s;
  ep_link : ∃ link, link ∈ ds_FabricLinks s ∧ fl_ID link = fw_FabricLinkID f
                    ∧ fl_PeerNodeID link = peer;
}.

Lemma end_resolved s f :
  Valid s → canonicalForward f ∈ ds_Forwards s → fw_PathMode f = PathViaExit →
  fw_IngressNodeID f ≠ fw_ExitNodeID f
  ∧ end_published s f (if bool_decide (ds_NodeID s = fw_ExitNodeID f)
                       then fw_IngressNodeID f else fw_ExitNodeID f).
Proof.
  intros Hv Hin Hm. destruct (Valid_path_resolved s _ Hv Hin Hm) as (Hne & _ & _ & link & Hl).
  split; [by apply not_eq_sym|]. split; [done|]. by exists link.
Qed.

(** A cross-node placement that compiles is published at both its ends with
    the same tenant, listener, target and service VIP, on two distinct nodes, and
    the link each end names leads, on that node, to the other end. *)
Theorem Compile_two_ends {idna : Idna} (R : StateRange) plan result vips runtimes desired p f :
  StateRangeLaws R →
  Compile plan result vips runtimes = inr desired →
  p ∈ re_Placements result → forward_index plan !! pc_ForwardID p = Some f →
  cf_PathMode f = PathViaExit → pc_PathMode p = cf_PathMode f →
  pc_IngressID p ≠ pc_ExitID p
  ∧ ∃ vip ingress exit,
      vips !! pc_ForwardID p = Some vip
      ∧ desired !! pc_IngressID p = Some ingress
      ∧ desired !! pc_ExitID p = Some exit
      ∧ end_published ingress (forward_spec f p (Some (Addr_Unmap vip)) (pc_FabricInID p)) (pc_ExitID p)
      ∧ end_published exit (forward_spec f p (Some (Addr_Unmap vip)) (pc_FabricOutID p)) (pc_IngressID p).
Proof.
  intros HR Hc Hp Hf Hm Hpm.
  assert (∃ vip, vips !! pc_ForwardID p = Some vip) as (vip & Hvip).
  { apply Compile_inv in Hc as (_ & st & Hs & _). pose proof (su_ok _ _ _ _ _ _ Hs) as Hok.
    rewrite Forall_forall in Hok. destruct (Hok p Hp) as (f' & _ & _ & Hv).
    destruct Hv as (vip & Hvip & _); [rewrite Hpm, Hm; discriminate|eauto]. }
  assert (∀ nodeID, forwards_for (forward_index plan) vips nodeID p =
    (if bool_decide (pc_IngressID p = nodeID)
     then [forward_spec f p (Some (Addr_Unmap vip)) (pc_FabricInID p)] else [])
    ++ (if bool_decide (pc_ExitID p = nodeID)
        then [forward_spec f p (Some (Addr_Unmap vip)) (pc_FabricOutID p)] else [])) as Hfor.
  { intros nodeID. unfold forwards_for. rewrite Hf, Hvip, Hpm, Hm. done. }
  assert (∀ nodeID g, g ∈ forwards_for (forward_index plan) vips nodeID p →
     g ∈ re_Placements result ≫= forwards_for (forward_index plan) vips nodeID) as Hsum.
  { intros nodeID g Hg. apply list_elem_of_bind. by exists p. }
  destruct (desired_forward _ _ _ _ _ (pc_IngressID p)
    (forward_spec f p (Some (Addr_Unmap vip)) (pc_FabricInID p)) Hc) as (si & Hsi & Hvi & Hidi & _ & Hini).
  { apply Hsum. rewrite Hfor, bool_decide_eq_true_2 by done. left. }
  destruct (desired_forward _ _ _ _ _ (pc_ExitID p)
    (forward_spec f p (Some (Addr_Unmap vip)) (pc_FabricOutID p)) Hc) as (se & Hse & Hve & Hide & _ & Hine).
  { apply Hsum. rewrite Hfor, (bool_decide_eq_true_2 (pc_ExitID p = _)) by done.
    apply elem_of_app. right. left. }
  apply end_resolved in Hini as [Hne Hini]; [|done..]. apply end_resolved in Hine as [_ Hine]; [|done..].
  cbn in Hne, Hini, Hine. split; [done|]. exists vip, si, se. split_and!; [done..| |].
  - by rewrite bool_decide_eq_false_2 in Hini by congruence.
  - by rewrite bool_decide_eq_true_2 in Hine by done.
Qed.

Lemma Compile_two_ends_witness :
  ∃ p f, pc_ForwardID p = "tunnel" ∧ p ∈ re_Placements sample_result
  ∧ ∃ vip ingress exit,
      sample_vips !! "tunnel" = Some vip
      ∧ sample_desired !! "node-a" = Some ingress ∧ sample_desired !! "node-b" = Some exit
      ∧ end_published ingress (forward_spec f p (Some (Addr_Unmap vip)) "a-b") "node-b"
      ∧ end_published exit (forward_spec f p (Some (Addr_Unmap vip)) "b-a") "node-a".
Proof.
  set (p := default PlacementZero (head (re_Placements sample_result))).
  destruct (@forward_index ascii_idna sample_plan !! "tunnel") as [f|] eqn:Ef;
    [|vm_compute in Ef; discriminate Ef].
  assert (p ∈ re_Placements sample_result) as Hin by (cbv [p sample_result re_Placements]; left).
  exists p, f. split; [reflexivity|]. split; [exact Hin|].
  destruct (Compile_two_ends (idna := ascii_idna) some_states sample_plan sample_result sample_vips
    sample_runtimes sample_desired p f _ sample_compile_ok Hin Ef) as (_ & H).
  - vm_compute in Ef. injection Ef as <-. reflexivity.
  - vm_compute in Ef. injection Ef as <-. reflexivity.
  - exact H.
Defined.
