(* ===== verification/Rollout.v ===== *)
(** Publication of a new set of desired states in stages,
    [internal/cluster/rollout.go]. Every range over a map goes through
    [range_strings], of which only its law is known. [reflect.DeepEqual] is
    equality of the values; canonical states hold no empty non-nil slices. *)
From S2P Require Import Prelude.
From S2P Require Import GoNet.
From S2P Require Import GoCrypto.
From S2P Require Import SpecTypes.
From S2P Require Import SpecCanonical.
From S2P Require Import SpecValidate.
From S2P Require Import ClusterTypes.
From S2P Require Import ClusterCompile.

(** The keys of a map, in some order. *)
Class StringRange := range_strings : gset string → list string.
Class StringRangeLaws (R : StringRange) : Prop := range_strings_perm X : range_strings X ≡ₚ elements X.

Definition RolloutWave := string.
Definition RolloutWaveCanary : RolloutWave := "canary".
Definition RolloutWaveFull : RolloutWave := "full".
Definition RolloutWaveCompensation : RolloutWave := "compensation".

Definition RolloutPhase := string.
Definition RolloutPhasePrepare : RolloutPhase := "prepare".
Definition RolloutPhasePromote : RolloutPhase := "promote".
Definition RolloutPhaseCleanup : RolloutPhase := "cleanup".
Definition RolloutPhaseBake : RolloutPhase := "bake".
Definition RolloutPhaseCompensate : RolloutPhase := "compensate".

Abbreviation states := (gmap string DesiredState).

Record RolloutStage := MkRolloutStage {
  sg_Wave : RolloutWave;
  sg_Phase : RolloutPhase;
  sg_BakeSeconds : N;
  sg_Desired : states;
}.

Definition unsafe_rollout : string := "cluster rollout cannot preserve the active path".

(** * Single states *)
Definition emptyStageState (nodeID : string) : DesiredState :=
  {| ds_SchemaVersion := CurrentSchemaVersion; ds_NodeID := nodeID; ds_Generation := 1;
     ds_ManagementDomain := ""; ds_ServiceCIDRs := []; ds_FabricLinks := []; ds_HealthChecks := [];
     ds_UserPolicies := []; ds_ProtocolBlocks := None; ds_Forwards := [] |}.

Definition canonicalStageState (state : DesiredState) (nodeID : string) : DesiredState :=
  Canonical
    {| ds_SchemaVersion := if ds_SchemaVersion state =? 0 then CurrentSchemaVersion
                           else ds_SchemaVersion state;
       ds_NodeID := nodeID; ds_Generation := 1;
       ds_ManagementDomain := ds_ManagementDomain state; ds_ServiceCIDRs := ds_ServiceCIDRs state;
       ds_FabricLinks := ds_FabricLinks state; ds_HealthChecks := ds_HealthChecks state;
       ds_UserPolicies := ds_UserPolicies state; ds_ProtocolBlocks := ds_ProtocolBlocks state;
       ds_Forwards := ds_Forwards state |}.

(** [TrafficClassID = 0] *)
Definition unclassed_policy (p : UserPolicySpec) : UserPolicySpec :=
  {| up_UserID := up_UserID p; up_TrafficClassID := 0; up_RateLimit := up_RateLimit p;
     up_TrafficQuota := up_TrafficQuota p; up_ResourceVersion := up_ResourceVersion p |}.
Definition unclassed (f : ForwardSpec) : ForwardSpec :=
  {| fw_ID := fw_ID f; fw_UserID := fw_UserID f; fw_Protocols := fw_Protocols f;
     fw_IngressNodeID := fw_IngressNodeID f; fw_ExitNodeID := fw_ExitNodeID f;
     fw_Listen := fw_Listen f; fw_Target := fw_Target f; fw_ServiceVIP := fw_ServiceVIP f;
     fw_FabricLinkID := fw_FabricLinkID f; fw_PathMode := fw_PathMode f; fw_SNAT := fw_SNAT f;
     fw_TrafficClassID := 0; fw_RateLimit := fw_RateLimit f; fw_TrafficQuota := fw_TrafficQuota f;
     fw_ExpiresAt := fw_ExpiresAt f; fw_DrainDeadline := fw_DrainDeadline f;
     fw_Lifecycle := fw_Lifecycle f; fw_ResourceVersion := fw_ResourceVersion f |}.

(** The [normalize] of [desiredStatesEqual]: two states that normalise alike
    differ in the classes the Controller allocates only. *)
Definition normalize (state : DesiredState) : DesiredState :=
  let s := canonicalStageState state (ds_NodeID state) in
  set_Forwards (map unclassed (ds_Forwards s))
    (set_resources (map unclassed_policy (ds_UserPolicies s)) (ds_FabricLinks s) s).
Definition desiredStatesEqual (left right : DesiredState) : bool :=
  bool_decide (normalize left = normalize right).

Fixpoint upsert (replaced : bool) (forwards : list ForwardSpec) (target : ForwardSpec) :
    list ForwardSpec :=
  match forwards with
  | [] => if replaced then [] else [target]
  | forward :: rest =>
      if bool_decide (fw_ID forward = fw_ID target)
      then if replaced then upsert true rest target else target :: upsert true rest target
      else forward :: upsert replaced rest target
  end.
Definition upsertForward : list ForwardSpec → ForwardSpec → list ForwardSpec := upsert false.
Definition removeForward (forwards : list ForwardSpec) (forwardID : string) : list ForwardSpec :=
  filter (λ forward, fw_ID forward ≠ forwardID) forwards.

(** * Maps of states *)
Definition completeStateMap (primary secondary : states) : states :=
  map_imap (λ nodeID state, Some (canonicalStageState state nodeID)) primary
  ∪ map_imap (λ nodeID _, Some (emptyStageState nodeID)) secondary.

Definition cloneStateMap (source : states) : states :=
  map_imap (λ nodeID state, Some (canonicalStageState state nodeID)) source.

Definition changedStates (current next : states) : states :=
  map_imap (λ nodeID _,
    let left := default DesiredStateZero (current !! nodeID) in
    let right := default (emptyStageState nodeID) (next !! nodeID) in
    if desiredStatesEqual left right then None else Some (canonicalStageState right nodeID))
    (current ∪ next).

Abbreviation locations := (gmap string ForwardSpec).
Definition index_forward (nodeID : string) (result : gmap string locations) (forward : ForwardSpec) :
    gmap string locations :=
  <[fw_ID forward := <[nodeID := forward]> (default ∅ (result !! fw_ID forward))]> result.

(** The writes of different nodes do not overlap, so that the order of the map
    does not matter. *)
Definition indexForwards (ss : states) : gmap string locations :=
  map_fold (λ nodeID state result, foldl (index_forward nodeID) result (ds_Forwards state)) ∅ ss.

Definition forwardLocationsEqual (left right : locations) : bool :=
  if negb (size left =? size right)%nat then false
  else forallb (λ nf : string * ForwardSpec,
         match right !! nf.1 with
         | None => false
         | Some second => bool_decide (unclassed nf.2 = unclassed second)
         end) (map_to_list left).

Definition changedForwardIDs (current final : states) : list string :=
  let left := indexForwards current in
  let right := indexForwards final in
  sort_slice str_lt
    (filter (λ forwardID, forwardLocationsEqual (default ∅ (left !! forwardID))
                            (default ∅ (right !! forwardID)) = false)
       (elements (dom left ∪ dom right : gset string))).

(** * Conservative resources *)

(** [merged[key(x)] = x] for the current elements, then the final ones, and the
    values of [merged]. *)
Definition merge_by `{!StringRange} {A} (key : A → string) (current final : list A) : list A :=
  let merged := index_by key (current ++ final) in
  omap (λ k, merged !! k) (range_strings (dom merged)).

Definition withConservativeResources `{!StringRange} (state final : DesiredState) : DesiredState :=
  let version := if ds_SchemaVersion state <? ds_SchemaVersion final then ds_SchemaVersion final
                 else ds_SchemaVersion state in
  Canonical
    {| ds_SchemaVersion := if version =? 0 then CurrentSchemaVersion else version;
       ds_NodeID := ds_NodeID state; ds_Generation := ds_Generation state;
       ds_ManagementDomain := if bool_decide (ds_ManagementDomain state = "")
                              then ds_ManagementDomain final else ds_ManagementDomain state;
       ds_ServiceCIDRs := merge_by Prefix_String (map Prefix_Masked (ds_ServiceCIDRs state))
                            (map Prefix_Masked (ds_ServiceCIDRs final));
       ds_FabricLinks := merge_by fl_ID (ds_FabricLinks state) (ds_FabricLinks final);
       ds_HealthChecks := merge_by health_key (ds_HealthChecks state) (ds_HealthChecks final);
       ds_UserPolicies := merge_by up_UserID (ds_UserPolicies state) (ds_UserPolicies final);
       ds_ProtocolBlocks := match ds_ProtocolBlocks final with
                            | Some policy => if ProtocolBlockPolicy_Any policy then Some policy else None
                            | None => None
                            end;
       ds_Forwards := ds_Forwards state |}.

(** * Refused transitions *)
Definition forwardNodeRole (forward : ForwardSpec) (nodeID : string) : string :=
  if bool_decide (nodeID = fw_IngressNodeID forward) then "ingress"
  else if bool_decide (fw_PathMode forward = PathViaExit) && bool_decide (nodeID = fw_ExitNodeID forward)
  then "exit" else "unassigned".

Definition placementFromLocations `{!StringRange} (ls : locations) : string * string * bool :=
  match range_strings (dom ls) with
  | nodeID :: _ =>
      let forward := default ForwardSpecZero (ls !! nodeID) in
      (fw_IngressNodeID forward, fw_ExitNodeID forward, bool_decide (fw_PathMode forward = PathViaExit))
  | [] => ("", "", false)
  end.

Definition check_role (forwardID : string) (currentNodes finalNodes : locations) (_ : nat)
    (nodeID : string) (_ : unit) : string + unit :=
  match currentNodes !! nodeID, finalNodes !! nodeID with
  | Some before, Some after =>
      let r := forwardNodeRole before nodeID in
      let r' := forwardNodeRole after nodeID in
      if negb (bool_decide (r = r'))
      then inl (unsafe_rollout +:+ ": forward " +:+ forwardID +:+ " changes node " +:+ nodeID
                +:+ " from " +:+ r +:+ " to " +:+ r' +:+ "; use an intermediate placement")
      else inr tt
  | _, _ => inr tt
  end.

Definition check_roles `{!StringRange} (left right : gmap string locations) (_ : nat)
    (forwardID : string) (_ : unit) : string + unit :=
  let currentNodes := default ∅ (left !! forwardID) in
  let finalNodes := default ∅ (right !! forwardID) in
  match eloop (check_role forwardID currentNodes finalNodes) 0 (range_strings (dom currentNodes)) tt with
  | inl e => inl e
  | inr _ =>
      let '(beforeIngress, beforeExit, beforeVia) := placementFromLocations currentNodes in
      let '(afterIngress, afterExit, afterVia) := placementFromLocations finalNodes in
      if beforeVia && afterVia && bool_decide (beforeExit = afterExit)
         && negb (bool_decide (beforeIngress = afterIngress))
      then inl (unsafe_rollout +:+ ": forward " +:+ forwardID +:+ " changes ingress while retaining exit "
                +:+ beforeExit +:+ "; move through a different exit first")
      else inr tt
  end.

Definition validateRoleTransitions `{!StringRange} (current final : states) : string + unit :=
  let left := indexForwards current in
  eloop (check_roles left (indexForwards final)) 0 (range_strings (dom left)) tt.

(** The fabric links a state's forwards name. *)
Definition used_links (state : DesiredState) : list string :=
  filter (λ l, l ≠ "") (fw_FabricLinkID <$> ds_Forwards state).

Definition check_link (nodeID : string) (used : list string) (beforeLinks : gmap string FabricLinkSpec)
    (_ : nat) (link : FabricLinkSpec) (_ : unit) : string + unit :=
  match beforeLinks !! fl_ID link with
  | None => inr tt
  | Some previous =>
      if bool_decide (previous = link) then inr tt
      else if bool_decide (fl_ID link ∈ used)
      then inl (unsafe_rollout +:+ ": node " +:+ nodeID +:+ " changes active fabric link "
                +:+ fl_ID link +:+ " in place; introduce a new link ID/interface first")
      else inr tt
  end.

Definition check_fabric (current final : states) (_ : nat) (nodeID : string) (_ : unit) : string + unit :=
  let before := default DesiredStateZero (current !! nodeID) in
  let after := default DesiredStateZero (final !! nodeID) in
  eloop (check_link nodeID (used_links before ++ used_links after)
           (index_by fl_ID (ds_FabricLinks before))) 0 (ds_FabricLinks after) tt.

Definition validateFabricTransitions `{!StringRange} (current final : states) : string + unit :=
  eloop (check_fabric current final) 0 (range_strings (dom current)) tt.

(** * The canary *)
(** The 32 bytes of the hash as a string, the form they are compared in. *)
Definition canary_hash (planID forwardID : string) : string :=
  of_chars (Strings.Ascii.ascii_of_N <$> SHA256.Sum256 (bytes_of (planID +:+ nul +:+ forwardID))).

Definition less_canary (planID : string) : string → string → bool :=
  λ a b, if bool_decide (canary_hash planID a = canary_hash planID b) then str_lt a b
         else str_lt (canary_hash planID a) (canary_hash planID b).

Definition selectCanary (planID : string) (forwardIDs : list string) (percent : N) :
    list string * list string :=
  if (100 <=? percent) || (length forwardIDs <? 2)%nat then ([], forwardIDs)
  else
    let candidates := sort_slice (less_canary planID) forwardIDs in
    let count := N.to_nat ((N.of_nat (length candidates) * percent + 99) / 100) in
    if (count =? 0)%nat || (length candidates <=? count)%nat then ([], forwardIDs)
    else (sort_slice str_lt (take count candidates), sort_slice str_lt (drop count candidates)).

(** * The stages of a wave *)
Definition is_ingress (nodeID : string) (forward : ForwardSpec) : bool :=
  bool_decide (nodeID = fw_IngressNodeID forward).
Definition is_exit (nodeID : string) (forward : ForwardSpec) : bool :=
  bool_decide (fw_PathMode forward = PathViaExit) && bool_decide (nodeID = fw_ExitNodeID forward).

(** [next[nodeID] = canonicalStageState(state, nodeID)] for the conservative
    state with its forwards changed by [op]. *)
Definition edit_state `{!StringRange} (final : states) (nodeID : string)
    (op : list ForwardSpec → list ForwardSpec) (next : states) : states :=
  let state := withConservativeResources (default DesiredStateZero (next !! nodeID))
                 (default DesiredStateZero (final !! nodeID)) in
  <[nodeID := canonicalStageState (set_Forwards (op (ds_Forwards state)) state) nodeID]> next.

(** [for nodeID, forward := range locations { if !cond { continue }; ... }] *)
Definition edit_where `{!StringRange} (final : states) (cond : string → ForwardSpec → bool)
    (op : ForwardSpec → list ForwardSpec → list ForwardSpec) (ls : locations) (next : states) : states :=
  foldl (λ next nodeID,
    match ls !! nodeID with
    | None => next
    | Some forward => if cond nodeID forward then edit_state final nodeID (op forward) next else next
    end) next (range_strings (dom ls)).

Definition put (forward : ForwardSpec) (l : list ForwardSpec) : list ForwardSpec :=
  upsertForward l forward.
Definition drop_id (forwardID : string) (_ : ForwardSpec) (l : list ForwardSpec) : list ForwardSpec :=
  removeForward l forwardID.

Definition prepare_forward `{!StringRange} (final : states) (finalIndex : gmap string locations)
    (next : states) (forwardID : string) : states :=
  edit_where final is_exit put (default ∅ (finalIndex !! forwardID)) next.

Definition promote_forward `{!StringRange} (final : states)
    (currentIndex finalIndex : gmap string locations) (next : states) (forwardID : string) : states :=
  edit_where final is_ingress put (default ∅ (finalIndex !! forwardID))
    (edit_where final is_ingress (drop_id forwardID) (default ∅ (currentIndex !! forwardID)) next).

Definition cleanup_forward `{!StringRange} (final : states)
    (currentIndex finalIndex : gmap string locations) (next : states) (forwardID : string) : states :=
  edit_where final is_exit put (default ∅ (finalIndex !! forwardID))
    (edit_where final is_exit (drop_id forwardID) (default ∅ (currentIndex !! forwardID)) next).

Definition check_stage (wave : RolloutWave) (phase : RolloutPhase) (desired : states) (_ : nat)
    (nodeID : string) (_ : unit) : string + unit :=
  match Validate (default DesiredStateZero (desired !! nodeID)) with
  | [] => inr tt
  | issues => inl (unsafe_rollout +:+ ": " +:+ wave +:+ "/" +:+ phase +:+ " target for node "
                   +:+ nodeID +:+ " is invalid: " +:+ ValidationError_Error issues)
  end.

(** The closure [apply], without its state: the stage that takes [working] to
    [next]. *)
Definition apply_stage `{!StringRange} (wave : RolloutWave) (phase : RolloutPhase)
    (working next : states) (stages : list RolloutStage) : string + (states * list RolloutStage) :=
  let desired := changedStates working next in
  match eloop (check_stage wave phase desired) 0 (range_strings (dom desired)) tt with
  | inl e => inl e
  | inr _ => inr (next, if bool_decide (desired = ∅) then stages
                        else stages ++ [MkRolloutStage wave phase 0 desired])
  end.

Definition appendWaveStages `{!StringRange} (working final : states) (selected : list string)
    (wave : RolloutWave) (exactFinal : bool) (stages : list RolloutStage) :
    string + (states * list RolloutStage) :=
  let selectedSet := range_strings (list_to_set selected) in
  let currentIndex := indexForwards working in
  let finalIndex := indexForwards final in
  let mutate f working := foldl f (cloneStateMap working) selectedSet in
  match apply_stage wave RolloutPhasePrepare working
          (mutate (prepare_forward final finalIndex) working) stages with
  | inl e => inl e
  | inr (working, stages) =>
      match apply_stage wave RolloutPhasePromote working
              (mutate (promote_forward final currentIndex finalIndex) working) stages with
      | inl e => inl e
      | inr (working, stages) =>
          apply_stage wave RolloutPhaseCleanup working
            (if exactFinal then cloneStateMap final
             else mutate (cleanup_forward final currentIndex finalIndex) working) stages
      end
  end.

Definition BuildRolloutStages `{!StringRange} (planID : string) (strategy : RolloutStrategy)
    (current target : states) : string + (list RolloutStage * list string) :=
  let working := completeStateMap current target in
  let final := completeStateMap target current in
  match validateFabricTransitions working final with
  | inl e => inl e
  | inr _ =>
      match validateRoleTransitions working final with
      | inl e => inl e
      | inr _ =>
          let changedForwards := changedForwardIDs working final in
          if (length changedForwards =? 0)%nat then
            let desired := changedStates working final in
            if bool_decide (desired = ∅) then inr ([], [])
            else inr ([MkRolloutStage RolloutWaveFull RolloutPhasePromote 0 desired], [])
          else
            let '(canary, remainder) :=
              selectCanary planID changedForwards (EffectiveCanaryPercent strategy) in
            if negb (length canary =? 0)%nat && negb (length remainder =? 0)%nat then
              match appendWaveStages working final canary RolloutWaveCanary false [] with
              | inl e => inl e
              | inr (working, stages) =>
                  match appendWaveStages working final remainder RolloutWaveFull true
                          (stages ++ [MkRolloutStage RolloutWaveCanary RolloutPhaseBake
                                        (ro_BakeSeconds strategy) ∅]) with
                  | inl e => inl e
                  | inr (_, stages) => inr (stages, canary)
                  end
              end
            else
              match appendWaveStages working final changedForwards RolloutWaveFull true [] with
              | inl e => inl e
              | inr (_, stages) => inr (stages, [])
              end
      end
  end.
