(* ===== verification/RolloutFacts.v ===== *)
(** Where the forwards are while a rollout proceeds: the sites of a forward in a
    map of states, and how each stage of [BuildRolloutStages] moves them. *)
From S2P Require Import Prelude.
From S2P Require Import GoNet.
From S2P Require Import SpecTypes.
From S2P Require Import SpecCanonical.
From S2P Require Import SpecValidate.
From S2P Require Import ClusterTypes.
From S2P Require Import ClusterCompile.
From S2P Require Import Rollout.

(** Path mode, ingress node and exit node of a forward. *)
Definition site : Type := string * string * string.
Definition site_of (f : ForwardSpec) : site := (fw_PathMode f, fw_IngressNodeID f, fw_ExitNodeID f).

Definition sited (l : list ForwardSpec) (F : string) (x : site) : Prop :=
  ∃ g, g ∈ l ∧ fw_ID g = F ∧ site_of g = x.
Definition state_of (W : states) (nodeID : string) : DesiredState :=
  default DesiredStateZero (W !! nodeID).
(** The node holds the forward [F] with the site [x]. *)
Definition At (W : states) (nodeID F : string) (x : site) : Prop :=
  sited (ds_Forwards (state_of W nodeID)) F x.

(** * Normal forms keep the sites *)
Lemma sited_map (h : ForwardSpec → ForwardSpec) l F x :
  (∀ g, fw_ID (h g) = fw_ID g ∧ site_of (h g) = site_of g) → sited (map h l) F x ↔ sited l F x.
Proof.
  intros Hh. split.
  - intros (g & (f & -> & Hf)%list_elem_of_fmap & Hid & Hs). destruct (Hh f) as [H1 H2].
    exists f. split_and!; [done|congruence|congruence].
  - intros (g & Hg & Hid & Hs). destruct (Hh g) as [H1 H2]. exists (h g).
    split_and!; [by apply (list_elem_of_fmap_2 h)|congruence|congruence].
Qed.

Lemma sited_Canonical s F x : sited (ds_Forwards (Canonical s)) F x ↔ sited (ds_Forwards s) F x.
Proof.
  cbn [Canonical ds_Forwards]. rewrite <- (sited_map canonicalForward (ds_Forwards s)) by done.
  unfold sited. by setoid_rewrite elem_of_sort_slice.
Qed.

Lemma sited_stage s n F x : sited (ds_Forwards (canonicalStageState s n)) F x ↔ sited (ds_Forwards s) F x.
Proof. unfold canonicalStageState. by rewrite sited_Canonical. Qed.

Lemma sited_conservative `{!StringRange} s t F x :
  sited (ds_Forwards (withConservativeResources s t)) F x ↔ sited (ds_Forwards s) F x.
Proof. unfold withConservativeResources. by rewrite sited_Canonical. Qed.

Lemma sited_normalize s F x : sited (ds_Forwards (normalize s)) F x ↔ sited (ds_Forwards s) F x.
Proof.
  unfold normalize. cbn [set_Forwards ds_Forwards]. rewrite sited_map by done. apply sited_stage.
Qed.

Lemma sited_equal s t F x :
  desiredStatesEqual s t = true → sited (ds_Forwards s) F x ↔ sited (ds_Forwards t) F x.
Proof.
  unfold desiredStatesEqual. rewrite bool_decide_eq_true. intros H.
  by rewrite <- sited_normalize, H, sited_normalize.
Qed.

(** * Upserting and removing *)
Lemma elem_of_upsert r l t g :
  g ∈ upsert r l t ↔
  (g = t ∧ (r = false ∨ ¬ True)) ∨ (g ∈ l ∧ fw_ID g ≠ fw_ID t).
Proof.
  revert r. induction l as [|f l IH]; intros r; cbn [upsert].
  { destruct r; rewrite ?list_elem_of_singleton, ?elem_of_nil; naive_solver. }
  destruct (bool_decide (fw_ID f = fw_ID t)) eqn:E; reflect_bool.
  - destruct r; rewrite ?elem_of_cons, IH; naive_solver.
  - rewrite !elem_of_cons, IH. naive_solver.
Qed.

Lemma sited_upsert l t F x :
  sited (upsertForward l t) F x ↔ (F = fw_ID t ∧ x = site_of t) ∨ (F ≠ fw_ID t ∧ sited l F x).
Proof.
  unfold sited, upsertForward. setoid_rewrite elem_of_upsert. split.
  - intros (g & [[-> _]|[Hg Hne]] & <- & <-); [by left|right; eauto].
  - intros [[-> ->]|[Hne (g & Hg & <- & <-)]].
    + exists t. auto.
    + exists g. auto.
Qed.

Lemma sited_remove l F' F x : sited (removeForward l F') F x ↔ F ≠ F' ∧ sited l F x.
Proof.
  unfold sited, removeForward. setoid_rewrite list_elem_of_filter. split.
  - intros (g & [Hne Hg] & <- & <-). eauto.
  - intros [Hne (g & Hg & <- & <-)]. eauto.
Qed.

(** * Loops whose iterations touch disjoint points *)
Section loop_points.
Context {St P : Type} (view : St → P → Prop) (owner : P → string) (step : St → string → St)
  (puts keeps : P → Prop).

Lemma loop_points l st p :
  (∀ st k p, k ∈ l → view (step st k) p ↔
     if decide (owner p = k) then puts p ∨ keeps p ∧ view st p else view st p) →
  NoDup l →
  view (foldl step st l) p ↔
  if decide (owner p ∈ l) then puts p ∨ keeps p ∧ view st p else view st p.
Proof.
  intros Hstep Hnd. induction l as [|k l IH] using rev_ind.
  { rewrite decide_False; [done|]. by intros ?%elem_of_nil. }
  apply NoDup_app in Hnd as (Hnd & Hk & _). rewrite foldl_app. cbn [foldl].
  rewrite Hstep by (apply elem_of_app; right; by left).
  assert (view (foldl step st l) p ↔ if decide (owner p ∈ l) then puts p ∨ keeps p ∧ view st p else view st p)
    as IH' by (apply IH; [intros; apply Hstep, elem_of_app; by left|done]).
  destruct (decide (owner p = k)) as [Heq|Hne].
  - rewrite (decide_True (P := owner p ∈ l ++ [k])) by (rewrite Heq; apply elem_of_app; right; by left).
    rewrite decide_False in IH'; [by rewrite IH'|]. intros Hin. apply (Hk _ Hin). rewrite Heq. by left.
  - rewrite IH'. destruct (decide (owner p ∈ l)) as [Hin|Hnin].
    + rewrite decide_True; [done|]. apply elem_of_app. by left.
    + rewrite decide_False; [done|]. intros [?|?%list_elem_of_singleton]%elem_of_app; done.
Qed.
End loop_points.

(** * Maps of states *)
Lemma state_of_clone W n F x : At (cloneStateMap W) n F x ↔ At W n F x.
Proof.
  unfold At, state_of, cloneStateMap. rewrite map_lookup_imap.
  destruct (W !! n) as [s|]; [exact (sited_stage s n F x)|done].
Qed.

Lemma At_complete P S n F x : At (completeStateMap P S) n F x ↔ At P n F x.
Proof.
  unfold At, state_of, completeStateMap. rewrite lookup_union, !map_lookup_imap.
  destruct (P !! n) as [s|], (S !! n) as [t|]; try exact (sited_stage s n F x);
    split; by intros (g & ?%elem_of_nil & _).
Qed.

Section edits.
Context {R : StringRange} `{!StringRangeLaws R}.
Context (final : states).

Lemma At_edit n op next n' F x :
  At (edit_state final n op next) n' F x ↔
  if decide (n' = n)
  then sited (op (ds_Forwards (withConservativeResources (state_of next n) (state_of final n)))) F x
  else At next n' F x.
Proof.
  unfold At, state_of, edit_state. destruct (decide (n' = n)) as [->|Hne].
  - rewrite lookup_insert_eq. cbn [default from_option id]. by rewrite sited_stage.
  - by rewrite lookup_insert_ne.
Qed.

Lemma At_put n t next n' F x :
  At (edit_state final n (put t) next) n' F x ↔
  (n' = n ∧ F = fw_ID t ∧ x = site_of t) ∨ (¬ (n' = n ∧ F = fw_ID t) ∧ At next n' F x).
Proof.
  rewrite At_edit. destruct (decide (n' = n)) as [->|Hne]; [|naive_solver].
  unfold put. rewrite sited_upsert, sited_conservative. unfold At. naive_solver.
Qed.

Lemma At_drop n F0 t next n' F x :
  At (edit_state final n (drop_id F0 t) next) n' F x ↔ ¬ (n' = n ∧ F = F0) ∧ At next n' F x.
Proof.
  rewrite At_edit. destruct (decide (n' = n)) as [->|Hne]; [|naive_solver].
  unfold drop_id. rewrite sited_remove, sited_conservative. unfold At. naive_solver.
Qed.

(** What a loop over locations touches. *)
Definition hit (cond : string → ForwardSpec → bool) (ls : locations) (n : string) : Prop :=
  ∃ t, ls !! n = Some t ∧ cond n t = true.

Lemma elem_of_dom_range (ls : locations) n : n ∈ range_strings (dom ls) ↔ is_Some (ls !! n).
Proof. by rewrite range_strings_perm, elem_of_elements, elem_of_dom. Qed.

Lemma range_strings_NoDup X : NoDup (range_strings X).
Proof. rewrite range_strings_perm. apply NoDup_elements. Qed.

Lemma At_where_put cond ls next F0 n F x :
  (∀ n t, ls !! n = Some t → fw_ID t = F0) →
  At (edit_where final cond put ls next) n F x ↔
    (F = F0 ∧ ∃ t, ls !! n = Some t ∧ cond n t = true ∧ x = site_of t)
    ∨ (¬ (F = F0 ∧ hit cond ls n) ∧ At next n F x).
Proof.
  intros Hid. unfold edit_where.
  rewrite (loop_points (λ W p, At W p.1.1 p.1.2 p.2) (λ p, p.1.1) _
    (λ p, p.1.2 = F0 ∧ ∃ t, ls !! p.1.1 = Some t ∧ cond p.1.1 t = true ∧ p.2 = site_of t)
    (λ p, ¬ (p.1.2 = F0 ∧ hit cond ls p.1.1)) _ next (n, F, x)); cbn [fst snd].
  - destruct (decide _) as [|Hn]; [done|]. rewrite elem_of_dom_range in Hn.
    split; [|intros [(_ & t & Ht & _)|[_ H]]; [|done]; by destruct Hn].
    intros H. right. split; [|done]. intros [_ (t & Ht & _)]. by destruct Hn.
  - intros st k [[m G] y] Hk. cbn [fst snd]. apply elem_of_dom_range in Hk as [t Ht]. rewrite Ht.
    destruct (decide (m = k)) as [->|Hne].
    + unfold hit. rewrite Ht. destruct (cond k t) eqn:Ec.
      * rewrite At_put, (Hid k t Ht). split.
        -- intros [(_ & -> & ->)|[Hn HA]]; [left; eauto|]. right. split; [|done].
           intros [-> _]. by apply Hn.
        -- intros [(-> & t' & [= <-] & _ & ->)|[Hn HA]]; [by left|]. right. split; [|done].
           intros [_ ->]. apply Hn. eauto.
      * split; [|intros [(_ & t' & [= <-] & ? & _)|[_ ?]]; [congruence|done]].
        intros HA. right. split; [|done]. intros [_ (t' & [= <-] & ?)]. congruence.
    + destruct (cond k t); [|done]. rewrite At_put. naive_solver.
  - apply range_strings_NoDup.
Qed.

Lemma At_where_drop cond ls next F0 n F x :
  At (edit_where final cond (drop_id F0) ls next) n F x ↔ ¬ (F = F0 ∧ hit cond ls n) ∧ At next n F x.
Proof.
  unfold edit_where.
  rewrite (loop_points (λ W p, At W p.1.1 p.1.2 p.2) (λ p, p.1.1) _ (λ _, False)
    (λ p, ¬ (p.1.2 = F0 ∧ hit cond ls p.1.1)) _ next (n, F, x)); cbn [fst snd].
  - destruct (decide _) as [|Hn]; [tauto|]. rewrite elem_of_dom_range in Hn.
    split; [|tauto]. intros H. split; [|done]. intros [_ (t & Ht & _)]. by destruct Hn.
  - intros st k [[m G] y] Hk. cbn [fst snd]. apply elem_of_dom_range in Hk as [t Ht]. rewrite Ht.
    destruct (decide (m = k)) as [->|Hne].
    + unfold hit. rewrite Ht. destruct (cond k t) eqn:Ec.
      * rewrite At_drop. split.
        -- intros [Hn HA]. right. split; [|done]. intros [-> _]. by apply Hn.
        -- intros [[]|[Hn HA]]. split; [|done]. intros [_ ->]. apply Hn. eauto.
      * split; [|tauto]. intros HA. right. split; [|done].
        intros [_ (t' & [= <-] & ?)]. congruence.
    + destruct (cond k t); [|done]. rewrite At_drop. naive_solver.
  - apply range_strings_NoDup.
Qed.
End edits.

(** * One forward across a wave *)

(** The nodes a site puts a forward on, and the part each plays. *)
Definition on (n : string) (x : site) : Prop :=
  n = x.1.2 ∨ (x.1.1 = PathViaExit ∧ n = x.2).
Definition ingress_site (n : string) (x : site) : Prop := n = x.1.2.
Definition exit_site (n : string) (x : site) : Prop := x.1.1 = PathViaExit ∧ n = x.2.
Definition proper (x : site) : Prop := x.1.1 = PathViaExit → x.1.2 ≠ x.2.

(** A forward that is at most at one site, and there on all its nodes. *)
Definition held (o : option site) (n : string) (x : site) : Prop := o = Some x ∧ on n x.

(** The moves [validateRoleTransitions] admits. *)
Definition move_ok (c f : option site) : Prop :=
  ∀ x y, c = Some x → f = Some y →
    (∀ n, on n x → on n y → ingress_site n x ↔ ingress_site n y)
    ∧ (x.1.1 = PathViaExit → y.1.1 = PathViaExit → x.2 = y.2 → x.1.2 = y.1.2).

(** Replacing what is at a node [n] that the parts [p] of the final and the
    current sites concern. *)
Definition replaced (part : string → site → Prop) (old new : option site) (A : string → site → Prop)
    (n : string) (x : site) : Prop :=
  (new = Some x ∧ part n x) ∨ (¬ (∃ y, new = Some y ∧ part n y) ∧ ¬ (∃ y, old = Some y ∧ part n y) ∧ A n x).

Definition prepared (c f : option site) : string → site → Prop :=
  replaced exit_site None f (held c).
Definition promoted (c f : option site) : string → site → Prop :=
  replaced ingress_site c f (prepared c f).
Definition cleaned (c f : option site) : string → site → Prop :=
  replaced exit_site c f (promoted c f).

(** Whichever of the two states each node is in, a cross-node forward at its
    ingress finds its exit in place. *)
Definition bridged (A B : string → site → Prop) : Prop :=
  ∀ n e, A n (PathViaExit, n, e) ∨ B n (PathViaExit, n, e) →
         A e (PathViaExit, n, e) ∧ B e (PathViaExit, n, e).

Section wave_logic.
Context (c f : option site).
Context (Hc : ∀ x, c = Some x → proper x) (Hf : ∀ x, f = Some x → proper x) (Hmove : move_ok c f).

(** An exit of the current site is kept or, on the same node, replaced by one
    that serves the same ingress. *)
Lemma prepared_exit n e :
  c = Some (PathViaExit, n, e) → prepared c f e (PathViaExit, n, e).
Proof.
  intros Hx. unfold prepared, replaced.
  destruct f as [[[p' i'] e']|] eqn:Ef.
  - destruct (decide (p' = PathViaExit ∧ e = e')) as [[-> <-]|Hne].
    + left. destruct (Hmove _ _ Hx eq_refl) as [_ Hi]. specialize (Hi eq_refl eq_refl eq_refl).
      cbn in Hi. subst. split; [done|]. by split.
    + right. split_and!.
      * intros (y & [= <-] & H1 & H2). by apply Hne.
      * naive_solver.
      * split; [done|]. right. by split.
  - right. split_and!; [naive_solver|naive_solver|]. split; [done|]. right. by split.
Qed.

Lemma prepared_ingress n e : prepared c f n (PathViaExit, n, e) → c = Some (PathViaExit, n, e).
Proof.
  intros [[Hx [_ Hn]]|(_ & _ & Hx & _)]; [|done]. exfalso. by apply (Hf _ Hx).
Qed.

Lemma promoted_ingress n e : promoted c f n (PathViaExit, n, e) → f = Some (PathViaExit, n, e).
Proof.
  intros [[Hx _]|(_ & Hn & Hp%prepared_ingress)]; [done|]. exfalso. apply Hn. by eexists.
Qed.

(** A node that is an exit of one site is an ingress of neither. *)
Lemma exit_not_ingress n x y :
  c = Some x → f = Some y → on n x → on n y → exit_site n x ∨ exit_site n y →
  ¬ ingress_site n x ∧ ¬ ingress_site n y.
Proof.
  intros Hx Hy Hnx Hny Hex. destruct (Hmove _ _ Hx Hy) as [Hr _]. specialize (Hr n Hnx Hny).
  specialize (Hc x Hx). specialize (Hf y Hy). unfold proper, ingress_site, exit_site in *.
  destruct Hex as [[H1 H2]|[H1 H2]]; [assert (¬ n = x.1.2) by naive_solver|assert (¬ n = y.1.2) by naive_solver];
    tauto.
Qed.

Lemma promoted_exit_current n e :
  c = Some (PathViaExit, n, e) → promoted c f e (PathViaExit, n, e).
Proof.
  intros Hx. assert (exit_site e (PathViaExit, n, e)) as Hex by done.
  assert (on e (PathViaExit, n, e)) as Hon by by right.
  right. split_and!; [| |by apply prepared_exit].
  - intros (y & Hy & Hi). assert (on e y) as Hony by by left.
    by destruct (exit_not_ingress e _ y Hx Hy Hon Hony (or_introl Hex)).
  - intros (y & Hy & Hi). assert (y = (PathViaExit, n, e)) as -> by congruence.
    specialize (Hc _ Hx eq_refl). done.
Qed.

Lemma promoted_exit_final n e :
  f = Some (PathViaExit, n, e) →
  prepared c f e (PathViaExit, n, e) ∧ promoted c f e (PathViaExit, n, e).
Proof.
  intros Hy. assert (exit_site e (PathViaExit, n, e)) as Hex by done.
  assert (on e (PathViaExit, n, e)) as Hon by by right.
  assert (prepared c f e (PathViaExit, n, e)) as Hp by by left.
  split; [done|]. right. split_and!; [| |done].
  - intros (y & Hy' & Hi). assert (y = (PathViaExit, n, e)) as -> by congruence.
    by specialize (Hf _ Hy eq_refl).
  - intros (y & Hx & Hi). assert (on e y) as Hony by by left.
    by destruct (exit_not_ingress e y _ Hx Hy Hony Hon (or_intror Hex)).
Qed.

Lemma cleaned_final n x : cleaned c f n x ↔ held f n x.
Proof.
  unfold held. split.
  - intros [[Hx [H1 H2]]|(Hf1 & Hc1 & [[Hx H]|(Hf2 & Hc2 & [[Hx [H1 H2]]|(_ & _ & Hx & Hon)])])].
    + split; [done|]. by right.
    + split; [done|]. by left.
    + split; [done|]. by right.
    + exfalso. destruct Hon as [Hn|Hn]; [apply Hc2|apply Hc1]; by exists x.
  - intros [Hx Hon].
    destruct (decide (x.1.1 = PathViaExit ∧ n = x.2)) as [Hex|Hnex]; [by left|].
    destruct Hon as [Hi|Hi]; [|done]. right. split_and!.
    + intros (y & Hy & Hey). assert (y = x) as -> by congruence. done.
    + intros (y & Hy & Hey). assert (on n y) as Hony by by right. assert (on n x) as Honx by by left.
      by destruct (exit_not_ingress n y x Hy Hx Hony Honx (or_introl Hey)).
    + by left.
Qed.

(** The three transitions of a wave bridge. *)
Lemma bridged_prepare : bridged (held c) (prepared c f).
Proof.
  intros n e H. assert (c = Some (PathViaExit, n, e)) as Hx.
  { destruct H as [[Hx _]|Hp]; [done|by apply prepared_ingress]. }
  split; [split; [done|by right]|by apply prepared_exit].
Qed.

Lemma bridged_promote : bridged (prepared c f) (promoted c f).
Proof.
  intros n e [Hx%prepared_ingress|Hx%promoted_ingress].
  - split; [by apply prepared_exit|by apply promoted_exit_current].
  - by apply promoted_exit_final.
Qed.

Lemma bridged_cleanup : bridged (promoted c f) (cleaned c f).
Proof.
  intros n e H. assert (f = Some (PathViaExit, n, e)) as Hx.
  { destruct H as [H%promoted_ingress|H%cleaned_final]; [done|by destruct H]. }
  split; [by apply promoted_exit_final|]. apply cleaned_final. split; [done|by right].
Qed.

(** A forward whose ingress stays is served there throughout. *)
Lemma ingress_kept n x y :
  c = Some x → f = Some y → ingress_site n x → ingress_site n y →
  prepared c f n x ∧ promoted c f n y ∧ cleaned c f n y.
Proof.
  intros Hx Hy Hix Hiy. assert (on n x) as Honx by by left. assert (on n y) as Hony by by left.
  split_and!.
  - right. split_and!; [|naive_solver|done]. intros (z & Hz & He).
    assert (z = y) as -> by congruence.
    by destruct (exit_not_ingress n x y Hx Hy Honx Hony (or_intror He)).
  - by left.
  - apply cleaned_final. done.
Qed.
End wave_logic.

(** * The index of forwards *)
Definition indexed (W : states) (F : string) : locations := default ∅ (indexForwards W !! F).

Lemma index_forward_lookup r n f F m :
  default ∅ (index_forward n r f !! F) !! m =
  if decide (F = fw_ID f ∧ m = n) then Some f else default ∅ (r !! F) !! m.
Proof.
  unfold index_forward. destruct (decide (F = fw_ID f)) as [->|HF].
  - rewrite lookup_insert_eq. cbn [default from_option id]. destruct (decide (m = n)) as [->|Hm].
    + by rewrite lookup_insert_eq, decide_True.
    + rewrite lookup_insert_ne, decide_False by naive_solver. done.
  - rewrite lookup_insert_ne, decide_False by naive_solver. done.
Qed.

Lemma index_state_lookup n l r F m :
  let r' := foldl (index_forward n) r l in
  (m ≠ n → default ∅ (r' !! F) !! m = default ∅ (r !! F) !! m)
  ∧ (∀ g, default ∅ (r' !! F) !! n = Some g →
       (g ∈ l ∧ fw_ID g = F) ∨ default ∅ (r !! F) !! n = Some g)
  ∧ ((∃ g, g ∈ l ∧ fw_ID g = F) → is_Some (default ∅ (r' !! F) !! n)).
Proof.
  induction l as [|f l IH] using rev_ind; cbv zeta.
  { split_and!; [done|by right|]. by intros (g & ?%elem_of_nil & _). }
  rewrite foldl_app. cbn [foldl]. destruct IH as (H1 & H2 & H3). rewrite !index_forward_lookup.
  split_and!.
  - intros Hm. rewrite decide_False by naive_solver. auto.
  - intros g. destruct (decide _) as [[-> _]|Hne].
    + intros [= <-]. left. split; [apply elem_of_app; right; by left|done].
    + intros Hg. destruct (H2 g Hg) as [[Hin Hid]|Hr]; [left|by right].
      split; [apply elem_of_app; by left|done].
  - intros (g & [Hg|Hg%list_elem_of_singleton]%elem_of_app & Hid).
    + destruct (decide _); [eauto|]. eauto.
    + subst. rewrite decide_True by done. eauto.
Qed.

Lemma indexed_spec W F n :
  (∀ g, indexed W F !! n = Some g → g ∈ ds_Forwards (state_of W n) ∧ fw_ID g = F)
  ∧ ((∃ g, g ∈ ds_Forwards (state_of W n) ∧ fw_ID g = F) → is_Some (indexed W F !! n)).
Proof.
  unfold indexed, indexForwards, state_of.
  apply (map_fold_weak_ind (λ (r : gmap string locations) (W : states),
    (∀ g, default ∅ (r !! F) !! n = Some g → g ∈ ds_Forwards (default DesiredStateZero (W !! n)) ∧ fw_ID g = F)
    ∧ ((∃ g, g ∈ ds_Forwards (default DesiredStateZero (W !! n)) ∧ fw_ID g = F)
       → is_Some (default ∅ (r !! F) !! n)))).
  - rewrite !lookup_empty. cbn. split; [done|]. by intros (g & ?%elem_of_nil & _).
  - intros m s W' r Hm [IH1 IH2].
    destruct (index_state_lookup m (ds_Forwards s) r F n) as (H1 & H2 & H3).
    destruct (decide (n = m)) as [->|Hne].
    + rewrite lookup_insert_eq. cbn [default from_option id]. split; [|done].
      intros g Hg. destruct (H2 g Hg) as [?|Hr]; [done|]. exfalso.
      apply IH1 in Hr as [Hr _]. rewrite Hm in Hr. by apply elem_of_nil in Hr.
    + rewrite lookup_insert_ne by done. rewrite H1 by done. done.
Qed.

Lemma indexed_At W F n g : indexed W F !! n = Some g → At W n F (site_of g).
Proof. intros [Hg Hid]%indexed_spec. by exists g. Qed.

Lemma At_indexed W F n x : At W n F x → is_Some (indexed W F !! n).
Proof. intros (g & Hg & Hid & _). apply indexed_spec. eauto. Qed.

(** ** Forwards that are where they should be *)

(** All copies of [F] agree on one proper site and are on all its nodes. *)
Record located (W : states) (F : string) (o : option site) : Prop := {
  lo_held n x : At W n F x ↔ held o n x;
  lo_proper x : o = Some x → proper x;
}.

Lemma indexed_part W F o cond (part : string → site → Prop) n x :
  located W F o →
  (∀ n t, cond n t = true ↔ part n (site_of t)) → (∀ n x, part n x → on n x) →
  (∃ t, indexed W F !! n = Some t ∧ cond n t = true ∧ x = site_of t) ↔ o = Some x ∧ part n x.
Proof.
  intros [Hh _] Hp Hon. split.
  - intros (t & Ht & Hcond%Hp & ->). apply indexed_At, Hh in Ht as [Ht _]. done.
  - intros [Hx Hpart]. assert (At W n F x) as HA by (apply Hh; split; auto).
    destruct (At_indexed _ _ _ _ HA) as [t Ht]. exists t.
    apply indexed_At in Ht as Ht'. apply Hh in Ht' as [Ht' _].
    assert (x = site_of t) as -> by congruence. split_and!; [done|by apply Hp|done].
Qed.

Lemma is_ingress_spec n t : is_ingress n t = true ↔ ingress_site n (site_of t).
Proof. unfold is_ingress, ingress_site. by rewrite bool_decide_eq_true. Qed.
Lemma is_exit_spec n t : is_exit n t = true ↔ exit_site n (site_of t).
Proof. unfold is_exit, exit_site. by rewrite andb_true_iff, !bool_decide_eq_true. Qed.
Lemma ingress_site_on n x : ingress_site n x → on n x.
Proof. by left. Qed.
Lemma exit_site_on n x : exit_site n x → on n x.
Proof. by right. Qed.
#[export] Hint Resolve is_ingress_spec is_exit_spec ingress_site_on exit_site_on : flux.

Lemma indexed_hit W F o cond part n :
  located W F o →
  (∀ n t, cond n t = true ↔ part n (site_of t)) → (∀ n x, part n x → on n x) →
  hit cond (indexed W F) n ↔ ∃ y, o = Some y ∧ part n y.
Proof.
  intros Hl Hp Hon. unfold hit. split.
  - intros (t & Ht & Hc). exists (site_of t). rewrite <- (indexed_part W F o cond part) by done. eauto.
  - intros (y & Hy). rewrite <- (indexed_part W F o cond part) in Hy by done.
    destruct Hy as (t & Ht & Hc & _). eauto.
Qed.

Lemma replaced_iff part old new A B n x :
  (A n x ↔ B n x) → replaced part old new A n x ↔ replaced part old new B n x.
Proof. unfold replaced. tauto. Qed.

Section phases.
Context {R : StringRange} `{!StringRangeLaws R}.
Context (W final : states).

(** What one forward's edits do to the sites of all. *)
Lemma At_prepare next F f n G x :
  located final F f →
  At (prepare_forward final (indexForwards final) next F) n G x ↔
  if decide (G = F) then replaced exit_site None f (λ n, At next n F) n x else At next n G x.
Proof.
  intros Hf. unfold prepare_forward. fold (indexed final F).
  rewrite (At_where_put _ _ _ _ F) by (intros m t [_ ?]%indexed_spec; done).
  rewrite (indexed_part _ _ _ _ exit_site), (indexed_hit _ _ _ _ exit_site) by eauto with flux.
  destruct (decide (G = F)) as [->|]; [|naive_solver]. unfold replaced. naive_solver.
Qed.

Lemma At_swap cond part next F c f n G x :
  located W F c → located final F f →
  (∀ n t, cond n t = true ↔ part n (site_of t)) → (∀ n x, part n x → on n x) →
  At (edit_where final cond put (indexed final F)
        (edit_where final cond (drop_id F) (indexed W F) next)) n G x ↔
  if decide (G = F) then replaced part c f (λ n, At next n F) n x else At next n G x.
Proof.
  intros Hc Hf Hp Hon.
  rewrite (At_where_put _ _ _ _ F) by (intros m t [_ ?]%indexed_spec; done).
  rewrite At_where_drop, (indexed_part _ _ _ _ part), !(indexed_hit _ _ _ _ part) by eauto.
  destruct (decide (G = F)) as [->|]; [|naive_solver]. unfold replaced. naive_solver.
Qed.

(** A loop over the selected forwards moves each and leaves the others. *)
Lemma At_mutate (step : states → string → states) (sel : gset string) part
    (old new : string → option site) n F x :
  (∀ next k n G x, k ∈ sel → At (step next k) n G x ↔
     if decide (G = k) then replaced part (old k) (new k) (λ n, At next n k) n x else At next n G x) →
  At (foldl step (cloneStateMap W) (range_strings sel)) n F x ↔
  if decide (F ∈ sel) then replaced part (old F) (new F) (λ n, At W n F) n x else At W n F x.
Proof.
  intros Hstep.
  rewrite (loop_points (λ W p, At W p.1.1 p.1.2 p.2) (λ p, p.1.2) step
    (λ p, new p.1.2 = Some p.2 ∧ part p.1.1 p.2)
    (λ p, ¬ (∃ y, new p.1.2 = Some y ∧ part p.1.1 y) ∧ ¬ (∃ y, old p.1.2 = Some y ∧ part p.1.1 y))
    _ (cloneStateMap W) (n, F, x)); cbn [fst snd].
  - unfold replaced. pose proof (state_of_clone W n F x) as Hcl.
    destruct (decide (F ∈ range_strings sel)) as [Hin|Hn], (decide (F ∈ sel)) as [Hin'|Hn'];
      rewrite ?range_strings_perm, ?elem_of_elements in *; tauto.
  - intros st k [[m G] y] Hk. cbn [fst snd]. rewrite range_strings_perm, elem_of_elements in Hk.
    rewrite Hstep by done. unfold replaced. destruct (decide (G = k)) as [->|]; tauto.
  - apply range_strings_NoDup.
Qed.
End phases.
