(* ===== verification/RolloutStages.v ===== *)
(** The correctness of [BuildRolloutStages]: publishing the stages in order
    reaches the target, and no cross-node forward is ever without its exit. *)
From S2P Require Import Prelude.
From S2P Require Import GoNet.
From S2P Require Import SpecTypes.
From S2P Require Import SpecCanonical.
From S2P Require Import SpecValidate.
From S2P Require Import SpecSamples.
From S2P Require Import ClusterTypes.
From S2P Require Import ClusterCompile.
From S2P Require Import Rollout.
From S2P Require Import RolloutFacts.

(** Publishing (some nodes of) a stage over the states published before. *)
Definition publish (m : states) (st : RolloutStage) : states := sg_Desired st ∪ m.
Definition publish_some (X : gset string) (m : states) (st : RolloutStage) : states :=
  filter (λ kv, kv.1 ∈ X) (sg_Desired st) ∪ m.

(** * Equality of maps of states up to traffic classes *)
Definition same_sites (m W : states) : Prop := ∀ n F x, At m n F x ↔ At W n F x.

(** Maps whose states carry the node IDs of the set [D]. *)
Record shaped (D : gset string) (W : states) : Prop := {
  sh_dom : dom W = D;
  sh_id n s : W !! n = Some s → ds_NodeID s = n;
}.

Definition same_on (D : gset string) (m W : states) : Prop :=
  ∀ n, n ∈ D → ∃ s t, m !! n = Some s ∧ W !! n = Some t ∧ desiredStatesEqual s t = true.

Lemma stage_version s n : ds_SchemaVersion (canonicalStageState s n) ≠ 0.
Proof. cbn. destruct (N.eqb_spec (ds_SchemaVersion s) 0); done. Qed.

Lemma canonicalStageState_idemp s n m :
  canonicalStageState (canonicalStageState s n) m = canonicalStageState s m.
Proof.
  pose proof (stage_version s n) as Hv. unfold canonicalStageState at 1.
  rewrite (proj2 (N.eqb_neq _ _) Hv). symmetry. etrans; [symmetry; apply Canonical_idemp|]. done.
Qed.

Lemma normalize_stage s n :
  ds_NodeID s = n → normalize (canonicalStageState s n) = normalize s.
Proof.
  intros <-. unfold normalize. rewrite canonicalStageState_idemp. done.
Qed.

Lemma changedStates_lookup W W' n :
  changedStates W W' !! n =
  match W !! n, W' !! n with
  | None, None => None
  | _, _ =>
      let right := default (emptyStageState n) (W' !! n) in
      if desiredStatesEqual (default DesiredStateZero (W !! n)) right then None
      else Some (canonicalStageState right n)
  end.
Proof.
  unfold changedStates. rewrite map_lookup_imap, lookup_union.
  destruct (W !! n), (W' !! n); done.
Qed.

(** At each node a stage either changes nothing or installs the next state. *)
Lemma stage_sites W W' n F x :
  match changedStates W W' !! n with
  | None => At W n F x ↔ At W' n F x
  | Some s => sited (ds_Forwards s) F x ↔ At W' n F x
  end.
Proof.
  rewrite changedStates_lookup. unfold At, state_of.
  destruct (W !! n) as [s|], (W' !! n) as [t|]; cbn [default from_option id]; try done;
    (destruct (desiredStatesEqual _ _) eqn:E; [exact (sited_equal _ _ F x E)|exact (sited_stage _ n F x)]).
Qed.

Lemma publish_some_sites X m W W' n :
  same_sites m W →
  (∀ F x, At (publish_some X m (MkRolloutStage "" "" 0 (changedStates W W'))) n F x ↔ At W n F x)
  ∨ (∀ F x, At (publish_some X m (MkRolloutStage "" "" 0 (changedStates W W'))) n F x ↔ At W' n F x).
Proof.
  intros Hm. unfold publish_some, At, state_of. cbn [sg_Desired].
  setoid_rewrite lookup_union. setoid_rewrite map_lookup_filter.
  destruct (changedStates W W' !! n) as [s|] eqn:E.
  - destruct (decide (n ∈ X)) as [Hin|Hout].
    + right. intros F x. pose proof (stage_sites W W' n F x) as H. rewrite E in H.
      cbn. rewrite option_guard_True by done. by destruct (m !! n).
    + left. intros F x. cbn. rewrite option_guard_False by done. cbn.
      rewrite (left_id_L None (∪)). apply Hm.
  - left. intros F x. cbn. rewrite (left_id_L None (∪)). apply Hm.
Qed.

Lemma publish_sites m W W' :
  same_sites m W → same_sites (publish m (MkRolloutStage "" "" 0 (changedStates W W'))) W'.
Proof.
  intros Hm n F x. pose proof (stage_sites W W' n F x) as H. specialize (Hm n F x).
  unfold publish, At, state_of in *. cbn [sg_Desired]. rewrite lookup_union.
  destruct (changedStates W W' !! n) as [s|].
  - by destruct (m !! n).
  - rewrite (left_id_L None (∪)). by rewrite Hm.
Qed.

Lemma publish_same D m W W' :
  shaped D W → shaped D W' → same_on D m W →
  same_on D (publish m (MkRolloutStage "" "" 0 (changedStates W W'))) W'.
Proof.
  intros [Hd _] [Hd' Hid'] Hm n Hn. unfold publish. cbn [sg_Desired]. rewrite lookup_union, changedStates_lookup.
  destruct (Hm n Hn) as (s & w & Hs & Hw & Heq). rewrite Hs, Hw.
  assert (is_Some (W' !! n)) as [w' Hw'] by by apply elem_of_dom; rewrite Hd'.
  rewrite Hw'. cbn [default from_option id]. unfold desiredStatesEqual in *.
  destruct (bool_decide (normalize w = normalize w')) eqn:E; reflect_bool.
  - exists s, w'. rewrite (left_id_L None (∪)). split_and!; [done..|].
    apply bool_decide_eq_true. congruence.
  - eexists _, w'. split_and!; [reflexivity|done|]. apply bool_decide_eq_true.
    by apply normalize_stage, Hid'.
Qed.

(** * Sequences of stages *)

(** [stages] takes [W] to [W'] through transitions that satisfy [P]; a
    transition that changes nothing has no stage, a bake has no states. *)
Inductive rolled (P : states → states → Prop) (W : states) : list RolloutStage → states → Prop :=
| rolled_nil : rolled P W [] W
| rolled_stage stages W1 W2 wave phase :
    rolled P W stages W1 → P W1 W2 →
    rolled P W (stages ++ [MkRolloutStage wave phase 0 (changedStates W1 W2)]) W2
| rolled_skip stages W1 W2 :
    rolled P W stages W1 → P W1 W2 → changedStates W1 W2 = ∅ → rolled P W stages W2
| rolled_bake stages W1 wave phase seconds :
    rolled P W stages W1 → rolled P W (stages ++ [MkRolloutStage wave phase seconds ∅]) W1.

Lemma publish_empty m w p b : publish m (MkRolloutStage w p b ∅) = m.
Proof. unfold publish. cbn. by rewrite (left_id_L ∅ (∪)). Qed.

Lemma rolled_mono (P Q : states → states → Prop) W stages W' :
  (∀ a b, P a b → Q a b) → rolled P W stages W' → rolled Q W stages W'.
Proof. intros H. induction 1; [constructor|constructor; auto|eapply rolled_skip; eauto|by constructor]. Qed.

Lemma rolled_sites P W stages W' m :
  rolled P W stages W' → same_sites m W → same_sites (foldl publish m stages) W'.
Proof.
  intros Hr Hm. induction Hr as [|stages W1 W2 w p Hr IH _|stages W1 W2 Hr IH _ He|stages W1 w p b Hr IH].
  - done.
  - rewrite foldl_app. cbn [foldl]. by apply publish_sites.
  - pose proof (publish_sites _ _ W2 IH) as H. by rewrite He, publish_empty in H.
  - rewrite foldl_app. cbn [foldl]. by rewrite publish_empty.
Qed.

Lemma rolled_same D (P : states → states → Prop) W stages W' m :
  (∀ a b, P a b → shaped D a ∧ shaped D b) →
  rolled P W stages W' → same_on D m W → same_on D (foldl publish m stages) W'.
Proof.
  intros HP Hr Hm. induction Hr as [|stages W1 W2 w p Hr IH HP12|stages W1 W2 Hr IH HP12 He|stages W1 w p b Hr IH].
  - done.
  - rewrite foldl_app. cbn [foldl]. apply HP in HP12 as [??]. by apply publish_same.
  - apply HP in HP12 as [??]. rewrite <- (publish_empty (foldl publish m stages) "" "" 0), <- He. by apply publish_same.
  - rewrite foldl_app. cbn [foldl]. by rewrite publish_empty.
Qed.

(** Every cross-node forward finds its exit, whichever nodes have already
    switched. *)
Definition complete_paths (m : states) : Prop :=
  ∀ n F e, At m n F (PathViaExit, n, e) → At m e F (PathViaExit, n, e).
Definition bridges (W W' : states) : Prop :=
  ∀ F, bridged (λ n, At W n F) (λ n, At W' n F).

Lemma bridges_mixed W W' mixed :
  bridges W W' →
  (∀ n, (∀ F x, At mixed n F x ↔ At W n F x) ∨ (∀ F x, At mixed n F x ↔ At W' n F x)) →
  complete_paths mixed.
Proof.
  intros Hb Hmix n F e Hn. assert (At W n F (PathViaExit, n, e) ∨ At W' n F (PathViaExit, n, e)) as H.
  { destruct (Hmix n) as [H|H]; apply H in Hn; tauto. }
  apply Hb in H as [H1 H2]. by destruct (Hmix e) as [H|H]; apply H.
Qed.

Lemma rolled_paths (P : states → states → Prop) W stages W' m :
  (∀ a b, P a b → bridges a b) →
  rolled P W stages W' → same_sites m W → complete_paths m →
  ∀ done st rest X, stages = done ++ st :: rest →
    complete_paths (publish_some X (foldl publish m done) st).
Proof.
  intros HP Hr Hm Hc.
  assert (complete_paths (foldl publish m stages) ∧ ∀ done st rest X, stages = done ++ st :: rest →
    complete_paths (publish_some X (foldl publish m done) st)) as [_ H]; [|done].
  induction Hr as [|stages W1 W2 w p Hr IH HP12|stages W1 W2 Hr IH HP12 He|stages W1 w p b Hr IH].
  - split; [done|]. intros done st rest X H. by destruct done.
  - apply (rolled_sites _ _ _ _ m) in Hr; [|done]. destruct IH as [IH1 IH2]. split.
    + rewrite foldl_app. cbn [foldl].
      eapply (bridges_mixed _ _ _ (HP _ _ HP12)). intros n. right. apply (publish_sites _ _ _ Hr).
    + intros done st rest X Heq. destruct rest as [|st' rest] using rev_ind.
      * apply app_inj_tail in Heq as [-> <-].
        eapply (bridges_mixed _ _ _ (HP _ _ HP12)). intros n. by apply (publish_some_sites X).
      * rewrite app_comm_cons, app_assoc in Heq. apply app_inj_tail in Heq as [-> _]. by eapply IH2.
  - done.
  - destruct IH as [IH1 IH2]. split.
    + rewrite foldl_app. cbn [foldl]. by rewrite publish_empty.
    + intros done st rest X Heq. destruct rest as [|st' rest] using rev_ind.
      * apply app_inj_tail in Heq as [-> <-]. unfold publish_some. cbn [sg_Desired].
        rewrite map_filter_empty, (left_id_L ∅ (∪)). done.
      * rewrite app_comm_cons, app_assoc in Heq. apply app_inj_tail in Heq as [-> _]. by eapply IH2.
Qed.

(** * One wave *)
Lemma indexed_dom W F n : is_Some (indexed W F !! n) → n ∈ dom W.
Proof.
  intros [g Hg]. apply indexed_spec in Hg as [Hg _]. unfold state_of in Hg. apply elem_of_dom.
  destruct (W !! n); [eauto|]. by apply elem_of_nil in Hg.
Qed.

Lemma shaped_clone D W : dom W = D → shaped D (cloneStateMap W).
Proof.
  intros Hd. split.
  - rewrite <- Hd. unfold cloneStateMap. apply set_eq. intros n.
    rewrite !elem_of_dom, map_lookup_imap. destruct (W !! n); cbn; [split; eauto|done].
  - intros n s. unfold cloneStateMap. rewrite map_lookup_imap.
    destruct (W !! n); [|done]. by intros [= <-].
Qed.

Section wave.
Context {R : StringRange} `{!StringRangeLaws R}.
Context (D : gset string) (final : states).

Lemma shaped_edit_where cond op ls next :
  (∀ n, is_Some (ls !! n) → n ∈ D) → shaped D next → shaped D (edit_where final cond op ls next).
Proof.
  intros Hls. unfold edit_where.
  assert (∀ l, (∀ n, n ∈ l → is_Some (ls !! n)) → ∀ next, shaped D next → shaped D (foldl (λ next nodeID,
    match ls !! nodeID with
    | None => next
    | Some forward => if cond nodeID forward then edit_state final nodeID (op forward) next else next
    end) next l)) as H.
  { induction l as [|n l IH]; intros Hl m Hm; [done|]. cbn [foldl].
    apply IH; [intros k Hk; apply Hl; by right|].
    assert (is_Some (ls !! n)) as Hn by (apply Hl; left). assert (n ∈ D) as HD by by apply Hls.
    destruct (ls !! n) as [t|]; [|done]. destruct (cond n t); [|done]. destruct Hm as [Hd Hid]. split.
    - unfold edit_state. rewrite dom_insert_L, Hd. set_solver.
    - intros k s. unfold edit_state. destruct (decide (k = n)) as [->|Hne].
      + rewrite lookup_insert_eq. by intros [= <-].
      + rewrite lookup_insert_ne by done. apply Hid. }
  apply H. intros n. apply elem_of_dom_range.
Qed.

Lemma shaped_mutate (step : states → string → states) W l :
  (∀ next k, shaped D next → shaped D (step next k)) → shaped D W →
  shaped D (foldl step (cloneStateMap W) l).
Proof.
  intros Hstep [HW _]. apply (shaped_clone D) in HW. revert HW. generalize (cloneStateMap W).
  induction l as [|k l IH]; intros m Hm; [done|]. cbn [foldl]. auto.
Qed.

(** What a transition of a wave satisfies. *)
Definition transition (a b : states) : Prop :=
  bridges a b ∧ shaped D a ∧ shaped D b ∧ map_Forall (λ _ s, Valid s) (changedStates a b).

Lemma apply_stage_rolled start stages W1 W2 wave phase stages' W' :
  rolled transition start stages W1 →
  bridges W1 W2 → shaped D W1 → shaped D W2 →
  apply_stage wave phase W1 W2 stages = inr (W', stages') →
  W' = W2 ∧ rolled transition start stages' W2.
Proof.
  intros Hr Hb H1 H2. unfold apply_stage. set (desired := changedStates W1 W2).
  destruct (eloop _ _ _ _) as [e|[]] eqn:E; [done|]. intros [= <- <-]. split; [done|].
  assert (transition W1 W2) as Ht.
  { split_and!; [done..|]. intros n s Hs.
    assert (n ∈ range_strings (dom desired)) as Hn.
    { rewrite range_strings_perm, elem_of_elements. by apply elem_of_dom_2 in Hs. }
    apply (eloop_unit _ _ _ _ E) in Hn as (i & Hi). unfold check_stage in Hi.
    fold desired in Hs. rewrite Hs in Hi. cbn in Hi. unfold Valid. by destruct (Validate s). }
  destruct (bool_decide (desired = ∅)) eqn:Ed; reflect_bool.
  - by eapply rolled_skip.
  - by apply rolled_stage.
Qed.

Context (W0 : states) (selected : list string) (c f : string → option site).
Context (H0 : ∀ F, located W0 F (c F)).
Context (Hf : ∀ F, F ∈ selected → located final F (f F) ∧ move_ok (c F) (f F)).
Context (HW0 : shaped D W0) (Hfinal : shaped D final).

Let sel : gset string := list_to_set selected.

Lemma elem_of_sel F : F ∈ sel ↔ F ∈ selected.
Proof. apply elem_of_list_to_set. Qed.

Lemma phase_located (W W' : states) (A B : string → string → site → Prop) :
  (∀ F, F ∈ sel → ∀ n x, At W n F x ↔ A F n x) → (∀ F, F ∉ sel → ∀ n x, At W n F x ↔ held (c F) n x) →
  (∀ F, F ∈ sel → ∀ n x, At W' n F x ↔ B F n x) → (∀ F, F ∉ sel → ∀ n x, At W' n F x ↔ held (c F) n x) →
  (∀ F, F ∈ sel → bridged (A F) (B F)) → bridges W W'.
Proof.
  intros HA HA' HB HB' H F n e. cbv beta. destruct (decide (F ∈ sel)) as [Hin|Hout].
  - rewrite !HA, !HB by done. by apply H.
  - rewrite !HA', !HB' by done. intros [[Hx _]|[Hx _]]; (split; split; [done|by right|done|by right]).
Qed.

Definition after_prepare : states :=
  foldl (prepare_forward final (indexForwards final)) (cloneStateMap W0) (range_strings sel).
Definition after_promote : states :=
  foldl (promote_forward final (indexForwards W0) (indexForwards final)) (cloneStateMap after_prepare)
    (range_strings sel).
Definition after_cleanup : states :=
  foldl (cleanup_forward final (indexForwards W0) (indexForwards final)) (cloneStateMap after_promote)
    (range_strings sel).

Lemma prepare_At F n x :
  At after_prepare n F x ↔ if decide (F ∈ sel) then prepared (c F) (f F) n x else held (c F) n x.
Proof.
  unfold after_prepare. rewrite (At_mutate W0 _ sel exit_site (λ _, None) f).
  - destruct (decide (F ∈ sel)); [|apply H0]. apply replaced_iff, H0.
  - intros next k m G y Hk%elem_of_sel. apply At_prepare. by apply Hf.
Qed.

Lemma promote_At F n x :
  At after_promote n F x ↔ if decide (F ∈ sel) then promoted (c F) (f F) n x else held (c F) n x.
Proof.
  unfold after_promote. rewrite (At_mutate after_prepare _ sel ingress_site c f).
  - pose proof (prepare_At F n x) as HW. destruct (decide (F ∈ sel)); [|done]. by apply replaced_iff.
  - intros next k m G y Hk%elem_of_sel. unfold promote_forward. fold (indexed W0 k) (indexed final k).
    apply At_swap; [apply H0|by apply Hf|eauto with flux..].
Qed.

Lemma cleanup_At F n x :
  At after_cleanup n F x ↔ if decide (F ∈ sel) then cleaned (c F) (f F) n x else held (c F) n x.
Proof.
  unfold after_cleanup. rewrite (At_mutate after_promote _ sel exit_site c f).
  - pose proof (promote_At F n x) as HW. destruct (decide (F ∈ sel)); [|done]. by apply replaced_iff.
  - intros next k m G y Hk%elem_of_sel. unfold cleanup_forward. fold (indexed W0 k) (indexed final k).
    apply At_swap; [apply H0|by apply Hf|eauto with flux..].
Qed.

Lemma wave_shaped : shaped D after_prepare ∧ shaped D after_promote ∧ shaped D after_cleanup.
Proof.
  assert (∀ W F n, shaped D W → is_Some (indexed W F !! n) → n ∈ D) as Hix.
  { intros W F n [<- _]. apply indexed_dom. }
  assert (shaped D after_prepare) as HW1.
  { apply shaped_mutate; [|done]. intros next k Hn. apply shaped_edit_where; [|done]. intros n.
    by apply (Hix final). }
  assert (∀ W cond, shaped D W → shaped D (foldl (λ next k,
    edit_where final cond put (indexed final k)
      (edit_where final cond (drop_id k) (indexed W0 k) next)) (cloneStateMap W) (range_strings sel))) as Hswap.
  { intros W cond HW. apply shaped_mutate; [|done]. intros next k Hn.
    apply shaped_edit_where; [intros n; by apply (Hix final)|].
    apply shaped_edit_where; [intros n; by apply (Hix W0)|done]. }
  assert (shaped D after_promote) as HW2 by by apply Hswap.
  split_and!; [done..|]. by apply Hswap.
Qed.

Lemma wave_bridges :
  bridges W0 after_prepare ∧ bridges after_prepare after_promote ∧ bridges after_promote after_cleanup.
Proof.
  assert (∀ F, F ∈ sel → (∀ x, c F = Some x → proper x) ∧ (∀ x, f F = Some x → proper x)
                         ∧ move_ok (c F) (f F)) as Hok.
  { intros F HF%elem_of_sel. destruct (Hf F HF) as [[_ ?] ?]. destruct (H0 F). done. }
  split_and!.
  - apply (phase_located _ _ (λ F, held (c F)) (λ F, prepared (c F) (f F))).
    1, 2: intros F _; apply H0.
    1, 2: intros F HF n x; rewrite prepare_At; by destruct (decide _).
    intros F HF. apply bridged_prepare; by apply Hok.
  - apply (phase_located _ _ (λ F, prepared (c F) (f F)) (λ F, promoted (c F) (f F))).
    1, 2: intros F HF n x; rewrite prepare_At; by destruct (decide _).
    1, 2: intros F HF n x; rewrite promote_At; by destruct (decide _).
    intros F HF. apply bridged_promote; by apply Hok.
  - apply (phase_located _ _ (λ F, promoted (c F) (f F)) (λ F, cleaned (c F) (f F))).
    1, 2: intros F HF n x; rewrite promote_At; by destruct (decide _).
    1, 2: intros F HF n x; rewrite cleanup_At; by destruct (decide _).
    intros F HF. apply bridged_cleanup; by apply Hok.
Qed.

Lemma located_after : ∀ F, located after_cleanup F (if decide (F ∈ selected) then f F else c F).
Proof.
  intros F. pose proof (cleanup_At F) as HA. pose proof (elem_of_sel F) as Hsel.
  destruct (decide (F ∈ sel)), (decide (F ∈ selected)); try tauto.
  - destruct (Hf F) as [[_ Hp] Hm]; [done|]. destruct (H0 F) as [_ Hp0]. split; [|done].
    intros n x. rewrite HA. by apply cleaned_final.
  - destruct (H0 F) as [_ Hp]. by split.
Qed.

(** The exact last stage holds the same forwards as the edited one. *)
Lemma exact_sites :
  (∀ F, F ∉ selected → located final F (c F)) → same_sites after_cleanup (cloneStateMap final).
Proof.
  intros Hrest n F x. rewrite state_of_clone. destruct (located_after F) as [-> _].
  destruct (decide (F ∈ selected)) as [Hin|Hout].
  - destruct (Hf F Hin) as [[Hh _] _]. by rewrite Hh.
  - destruct (Hrest F Hout) as [Hh _]. by rewrite Hh.
Qed.

Lemma bridges_same A B B' : same_sites B B' → bridges A B → bridges A B'.
Proof.
  intros Hs Hb F n e. specialize (Hb F n e). cbv beta in *. unfold same_sites in Hs. by rewrite <- !Hs.
Qed.

Lemma wave_rolled start stages wave exact stages' W' :
  (exact = true → ∀ F, F ∉ selected → located final F (c F)) →
  rolled transition start stages W0 →
  appendWaveStages W0 final selected wave exact stages = inr (W', stages') →
  rolled transition start stages' W' ∧ shaped D W'
  ∧ (∀ F, located W' F (if decide (F ∈ selected) then f F else c F))
  ∧ (exact = true → W' = cloneStateMap final).
Proof.
  intros Hexact Hr. unfold appendWaveStages. fold sel. fold after_prepare.
  destruct wave_bridges as (B1 & B2 & B3). destruct wave_shaped as (S1 & S2 & S3).
  destruct (apply_stage _ _ W0 _ _) as [e|[Wa st1]] eqn:E1; [done|].
  eapply apply_stage_rolled in E1 as [-> Hr1]; [|done..]. fold after_promote.
  destruct (apply_stage _ _ after_prepare _ _) as [e|[Wb st2]] eqn:E2; [done|].
  eapply apply_stage_rolled in E2 as [-> Hr2]; [|done..]. fold after_cleanup. intros E3.
  destruct exact.
  - pose proof (exact_sites (Hexact eq_refl)) as Hs.
    eapply apply_stage_rolled in E3 as [-> Hr3];
      [|done|by eapply bridges_same|done|by apply shaped_clone, Hfinal].
    split_and!; [done|by apply shaped_clone, Hfinal| |done].
    intros F. destruct (located_after F) as [Hh Hp]. split; [|done]. intros n x. unfold same_sites in Hs. by rewrite <- Hs.
  - eapply apply_stage_rolled in E3 as [-> Hr3]; [|done..].
    split_and!; [done|done|exact located_after|done].
Qed.
End wave.

(** * The whole rollout *)

(** Every forward of the states agrees with itself on one proper site and is on
    all its nodes. *)
Definition coherent (W : states) : Prop := ∀ F, ∃ o, located W F o.

(** The site of a forward, as the index shows it. *)
Definition site_in (W : states) (F : string) : option site :=
  site_of ∘ snd <$> head (map_to_list (indexed W F)).

Lemma located_unique W F o o' : located W F o → located W F o' → o = o'.
Proof.
  assert (∀ o o', located W F o → located W F o' → ∀ x, o = Some x → o' = Some x) as H.
  { intros a b [Ha _] [Hb _] x Hx.
    assert (At W x.1.2 F x) as HA by (apply Ha; split; [done|by left]).
    by apply Hb in HA as [? _]. }
  intros H1 H2. destruct o as [x|]; [symmetry; by apply (H (Some x) o')|].
  destruct o' as [y|]; [|done]. by apply (H (Some y) None) with (x := y).
Qed.

Lemma located_site W F o : located W F o → located W F (site_in W F).
Proof.
  intros Hl. enough (o = site_in W F) as <- by done. unfold site_in.
  destruct (map_to_list (indexed W F)) as [|[n g] k] eqn:E; cbn.
  - destruct o as [x|]; [|done]. exfalso. destruct Hl as [Hh _].
    assert (At W x.1.2 F x) as HA by (apply Hh; split; [done|by left]).
    apply At_indexed in HA as [g Hg]. apply map_to_list_empty_iff in E. rewrite E in Hg. done.
  - assert ((n, g) ∈ map_to_list (indexed W F)) as Hin by (rewrite E; left).
    apply elem_of_map_to_list, indexed_At, (lo_held _ _ _ Hl) in Hin as [? _]. done.
Qed.

Lemma coherent_located W F : coherent W → located W F (site_in W F).
Proof. intros H. destruct (H F) as [o Ho]. by eapply located_site. Qed.

Lemma coherent_complete P S : coherent P → coherent (completeStateMap P S).
Proof. intros H F. destruct (H F) as [o [Hh Hp]]. exists o. split; [|done]. intros n x. by rewrite At_complete. Qed.

Section build.
Context {R : StringRange} `{!StringRangeLaws R}.

Lemma role_site f n :
  forwardNodeRole f n = "ingress" ↔ ingress_site n (site_of f).
Proof.
  unfold forwardNodeRole, ingress_site, site_of. cbn [fst snd].
  destruct (bool_decide (n = fw_IngressNodeID f)) eqn:E; reflect_bool; [done|].
  destruct (_ && _); split; try done.
Qed.

Lemma validateRoleTransitions_ok W V F :
  coherent W → coherent V → validateRoleTransitions W V = inr tt →
  move_ok (site_in W F) (site_in V F).
Proof.
  intros HW HV Hv. apply (coherent_located W F) in HW as LW. apply (coherent_located V F) in HV as LV.
  intros x y Hx Hy. rewrite Hx in LW. rewrite Hy in LV.
  assert (∀ W x n, located W F (Some x) → on n x →
    ∃ t, indexed W F !! n = Some t ∧ site_of t = x) as Hix.
  { intros U z n [Hh _] Hn. assert (At U n F z) as HA by by apply Hh.
    destruct (At_indexed _ _ _ _ HA) as [t Ht]. exists t. split; [done|].
    apply indexed_At, Hh in Ht as [? _]. congruence. }
  assert (∀ W x, located W F (Some x) →
    placementFromLocations (indexed W F) = (x.1.2, x.2, bool_decide (x.1.1 = PathViaExit))) as Hpl.
  { intros U z Hz. destruct (Hix U z z.1.2 Hz) as (t & Ht & <-); [by left|].
    unfold placementFromLocations. destruct (range_strings _) as [|n k] eqn:E.
    - exfalso. assert ((site_of t).1.2 ∈ range_strings (dom (indexed U F))) as Hin
        by (apply elem_of_dom_range; eauto). rewrite E in Hin. by apply elem_of_nil in Hin.
    - assert (n ∈ range_strings (dom (indexed U F))) as [s Hs]%elem_of_dom_range by (rewrite E; left).
      rewrite Hs. cbn [default from_option id]. apply indexed_At, (lo_held _ _ _ Hz) in Hs as [[= H1 H2 H3] _].
      cbn. by rewrite H1, H2, H3. }
  unfold validateRoleTransitions in Hv.
  destruct (Hix W x x.1.2 LW ltac:(by left)) as (t0 & Ht0 & _).
  assert (F ∈ range_strings (dom (indexForwards W))) as HF.
  { rewrite range_strings_perm, elem_of_elements, elem_of_dom. unfold indexed in Ht0.
    destruct (indexForwards W !! F) as [l|]; [by exists l|]. done. }
  destruct (eloop_unit _ _ _ _ Hv HF) as [i Hi]. clear Hv. unfold check_roles in Hi.
  fold (indexed W F) (indexed V F) in Hi.
  destruct (eloop _ _ _ _) as [e|[]] eqn:Er; [done|].
  rewrite (Hpl W x LW), (Hpl V y LV) in Hi.
  destruct (_ && _) eqn:Em in Hi; [done|]. split.
  - intros n Hnx Hny. destruct (Hix W x n LW Hnx) as (t & Ht & Hst).
    destruct (Hix V y n LV Hny) as (t' & Ht' & Hst').
    assert (n ∈ range_strings (dom (indexed W F))) as Hn by (apply elem_of_dom_range; eauto).
    destruct (eloop_unit _ _ _ _ Er Hn) as [j Hj]. unfold check_role in Hj. rewrite Ht, Ht' in Hj.
    destruct (negb _) eqn:En in Hj; [done|]. reflect_bool. rewrite <- Hst, <- Hst', <- !role_site. by rewrite En.
  - intros H1 H2 H3. rewrite H1, H2, H3, !bool_decide_eq_true_2 in Em by done. cbn in Em.
    apply negb_false_iff, bool_decide_eq_true in Em. done.
Qed.

Lemma forwardLocationsEqual_sites W V F :
  coherent W → coherent V →
  forwardLocationsEqual (indexed W F) (indexed V F) = true → site_in W F = site_in V F.
Proof.
  intros HW HV. unfold forwardLocationsEqual. destruct (negb _) eqn:Es; [done|]. intros Hall.
  apply negb_false_iff, Nat.eqb_eq in Es. rewrite forallb_forall in Hall.
  apply (coherent_located W F) in HW as LW. apply (coherent_located V F) in HV as LV.
  unfold site_in at 1. destruct (map_to_list (indexed W F)) as [|[n g] k] eqn:E; cbn.
  - apply map_to_list_empty_iff in E. rewrite E, map_size_empty in Es. symmetry in Es.
    apply map_size_empty_inv in Es. unfold site_in. by rewrite Es.
  - specialize (Hall (n, g) (or_introl eq_refl)). cbn in Hall.
    destruct (indexed V F !! n) as [t|] eqn:Et; [|done]. reflect_bool.
    apply indexed_At, (lo_held _ _ _ LV) in Et as [-> _]. f_equal. unfold site_of.
    change (fw_PathMode g) with (fw_PathMode (unclassed g)).
    change (fw_IngressNodeID g) with (fw_IngressNodeID (unclassed g)).
    change (fw_ExitNodeID g) with (fw_ExitNodeID (unclassed g)). by rewrite Hall.
Qed.

Lemma changedForwardIDs_spec W V F :
  F ∈ changedForwardIDs W V ↔ forwardLocationsEqual (indexed W F) (indexed V F) = false.
Proof.
  unfold changedForwardIDs. rewrite elem_of_sort_slice, list_elem_of_filter, elem_of_elements, elem_of_union,
    !elem_of_dom. fold (indexed W F) (indexed V F). split; [by intros [? _]|].
  intros H. split; [done|]. unfold indexed in H.
  destruct (indexForwards W !! F); [by left; eauto|].
  destruct (indexForwards V !! F); [by right; eauto|]. cbn in H. unfold forwardLocationsEqual in H.
  by rewrite map_size_empty, map_to_list_empty in H.
Qed.

Lemma changedForwardIDs_NoDup W V : NoDup (changedForwardIDs W V).
Proof.
  unfold changedForwardIDs. rewrite sort_slice_perm. apply NoDup_filter, NoDup_elements.
Qed.

Lemma unchanged_site W V F :
  coherent W → coherent V → F ∉ changedForwardIDs W V → site_in W F = site_in V F.
Proof.
  intros HW HV Hn. apply forwardLocationsEqual_sites; [done..|]. rewrite changedForwardIDs_spec in Hn.
  by destruct (forwardLocationsEqual _ _).
Qed.
End build.

(** ** The canary *)
Lemma selectCanary_partition planID ids percent :
  (selectCanary planID ids percent).1 ++ (selectCanary planID ids percent).2 ≡ₚ ids.
Proof.
  unfold selectCanary. destruct (_ || _); [done|]. destruct (_ || _); [done|]. cbn [fst snd].
  etrans; [apply Permutation_app; apply sort_slice_perm|]. rewrite take_drop. apply sort_slice_perm.
Qed.

Lemma less_canary_lex planID a b :
  less_canary planID a b = less_lex (less_by (canary_hash planID)) str_lt a b.
Proof.
  unfold less_canary, less_lex, less_by. destruct (bool_decide _) eqn:E; reflect_bool.
  - rewrite E. assert (str_lt (canary_hash planID b) (canary_hash planID b) = false) as ->; [|done].
    by apply str_lt_false.
  - destruct (str_lt (canary_hash planID a) _) eqn:E1; [done|].
    destruct (str_lt (canary_hash planID b) _) eqn:E2; [done|]. exfalso. apply E.
    by apply (less_by_antisym (canary_hash planID)).
Qed.

#[export] Instance less_canary_order planID : LessOrder (less_canary planID).
Proof.
  split; intros *; rewrite !less_canary_lex; [apply less_asym|apply less_ntrans].
Qed.

Lemma less_canary_antisym planID a b :
  not_after (less_canary planID) a b → not_after (less_canary planID) b a → a = b.
Proof.
  unfold not_after. rewrite !less_canary_lex. intros H1 H2.
  pose proof (less_lex_by_antisym (canary_hash planID) id a b H1 H2) as H. injection H as _ Hab; exact Hab.
Qed.

(** ** [BuildRolloutStages] *)
Lemma complete_dom P S : dom (completeStateMap P S) = dom P ∪ dom S.
Proof.
  unfold completeStateMap. rewrite dom_union_L. f_equal; apply set_eq; intros n;
    rewrite !elem_of_dom, map_lookup_imap.
  - destruct (P !! n); cbn; [split; eauto|done].
  - destruct (S !! n); cbn; [split; eauto|done].
Qed.

Lemma complete_fixed P S n s : completeStateMap P S !! n = Some s → canonicalStageState s n = s.
Proof.
  unfold completeStateMap. rewrite lookup_union, !map_lookup_imap.
  destruct (P !! n) as [p|], (S !! n) as [q|]; cbn; intros [= <-]; try apply canonicalStageState_idemp.
  done.
Qed.

Lemma clone_complete P S : cloneStateMap (completeStateMap P S) = completeStateMap P S.
Proof.
  apply map_eq. intros n. unfold cloneStateMap. rewrite map_lookup_imap.
  destruct (completeStateMap P S !! n) as [s|] eqn:E; [|done]. cbn. f_equal. by eapply complete_fixed.
Qed.

Lemma shaped_complete P S : shaped (dom P ∪ dom S) (completeStateMap P S).
Proof.
  split; [apply complete_dom|]. intros n s Hs. by rewrite <- (complete_fixed _ _ _ _ Hs).
Qed.

Lemma bridges_located W V :
  coherent W → (∀ F, site_in W F = site_in V F) → coherent V → bridges W V.
Proof.
  intros HW Heq HV F n e. pose proof (coherent_located W F HW) as [HhW _].
  pose proof (coherent_located V F HV) as [HhV _]. rewrite <- Heq in HhV. cbv beta.
  rewrite !HhW, !HhV. intros [[Hx _]|[Hx _]]; (split; split; [done|by right|done|by right]).
Qed.

Section whole.
Context {R : StringRange} `{!StringRangeLaws R}.
Context (planID : string) (strategy : RolloutStrategy) (current target : states).
Let working := completeStateMap current target.
Let final := completeStateMap target current.
Let D : gset string := dom current ∪ dom target.
Context (Hcurrent : coherent current) (Htarget : coherent target).
Context (Hvalid : map_Forall (λ _ s, Valid s) final).

Lemma working_coherent : coherent working.
Proof. by apply coherent_complete. Qed.
Lemma final_coherent : coherent final.
Proof. by apply coherent_complete. Qed.
Lemma working_shaped : shaped D working.
Proof. apply shaped_complete. Qed.
Lemma final_shaped : shaped D final.
Proof. unfold D. rewrite (comm_L (∪)). apply shaped_complete. Qed.

(** Without a change of forwards, one step takes all nodes to the target. *)
Lemma resources_transition :
  (∀ F, site_in working F = site_in final F) → transition D working final.
Proof.
  intros Heq. split_and!.
  - apply bridges_located; [exact working_coherent|done|exact final_coherent].
  - exact working_shaped.
  - exact final_shaped.
  - intros n s. rewrite changedStates_lookup.
    pose proof (sh_dom _ _ working_shaped) as Hdw. pose proof (sh_dom _ _ final_shaped) as Hdf.
    destruct (final !! n) as [t|] eqn:Et.
    + cbn [default from_option id].
      assert (canonicalStageState t n = t) as -> by by eapply complete_fixed.
      destruct (working !! n); cbv zeta; destruct (desiredStatesEqual _ _); try done;
        intros [= <-]; by apply (Hvalid n).
    + destruct (working !! n) as [w|] eqn:Ew; [|done]. exfalso.
      apply elem_of_dom_2 in Ew. apply not_elem_of_dom_2 in Et. rewrite Hdw in Ew. rewrite Hdf in Et. done.
Qed.

Lemma Build_rolled stages canary :
  BuildRolloutStages planID strategy current target = inr (stages, canary) →
  rolled (transition D) working stages final.
Proof.
  unfold BuildRolloutStages. fold working final.
  destruct (validateFabricTransitions _ _) as [e|_]; [done|].
  destruct (validateRoleTransitions working final) as [e|[]] eqn:Er; [done|].
  set (ids := changedForwardIDs working final).
  assert (∀ F, F ∉ ids → site_in working F = site_in final F) as Hrest.
  { intros F. apply unchanged_site; [exact working_coherent|exact final_coherent]. }
  assert (∀ F, move_ok (site_in working F) (site_in final F)) as Hmove.
  { intros F. apply validateRoleTransitions_ok; [exact working_coherent|exact final_coherent|done]. }
  assert (∀ F, located working F (site_in working F)) as Hloc
    by (intros F; apply coherent_located, working_coherent).
  assert (∀ F, located final F (site_in final F)) as Hlocf
    by (intros F; apply coherent_located, final_coherent).
  assert (∀ W0 (c : string → option site) selected stages0 wave exact st st' W',
    appendWaveStages W0 final selected wave exact st = inr (W', st') →
    rolled (transition D) stages0 st W0 → (∀ F, located W0 F (c F)) → shaped D W0 →
    (∀ F, F ∈ selected → move_ok (c F) (site_in final F)) →
    (exact = true → ∀ F, F ∉ selected → c F = site_in final F) →
    rolled (transition D) stages0 st' W' ∧ shaped D W'
    ∧ (∀ F, located W' F (if decide (F ∈ selected) then site_in final F else c F))
    ∧ (exact = true → W' = final)) as Hwave.
  { intros W0 c selected stages0 wave exact st st' W' Hw Hr Hl Hs Hm Hx.
    eapply (wave_rolled D final W0 selected c (site_in final)) in Hw; try done.
    - destruct Hw as (H1 & H2 & H3 & H4). split_and!; [done..|]. intros He. rewrite (H4 He).
      apply clone_complete.
    - auto.
    - exact final_shaped.
    - intros He F HF. by rewrite (Hx He F HF). }
  destruct (length ids =? 0)%nat eqn:E0.
  - apply Nat.eqb_eq, nil_length_inv in E0.
    assert (transition D working final) as Ht.
    { apply resources_transition. intros F. apply Hrest. rewrite E0. by intros ?%elem_of_nil. }
    destruct (bool_decide _) eqn:Ed; reflect_bool; intros [= <- <-].
    + eapply rolled_skip; [constructor|done|done].
    + apply (rolled_stage _ _ [] _ _ _ _ (rolled_nil _ _) Ht).
  - destruct (selectCanary planID ids _) as [first rest] eqn:Ec.
    assert (∀ F, F ∈ ids ↔ F ∈ first ∨ F ∈ rest) as Hids.
    { intros F. pose proof (selectCanary_partition planID ids (EffectiveCanaryPercent strategy)) as Hp.
      rewrite Ec in Hp. cbn in Hp. by rewrite <- Hp, elem_of_app. }
    destruct (_ && _).
    + destruct (appendWaveStages working _ _ _ _ _) as [e|[Wc st]] eqn:E1; [done|].
      eapply Hwave in E1 as (Hr1 & Hs1 & Hl1 & _); [|constructor|done|exact working_shaped|auto|done].
      destruct (appendWaveStages Wc _ _ _ _ _) as [e|[Wf st']] eqn:E2; [done|]. intros [= <- <-].
      eapply Hwave in E2 as (Hr2 & _ & _ & Hx);
        [|by apply rolled_bake|exact Hl1|done| |]; [by rewrite Hx in Hr2|..].
      * intros F HF. cbv beta. destruct (decide (F ∈ first)); [|by apply Hmove]. intros x y Hx' Hy'.
        assert (x = y) as -> by congruence. split; [done|]. by intros _ _ _.
      * intros _ F HF. cbv beta. destruct (decide (F ∈ first)); [done|]. apply Hrest. rewrite Hids. tauto.
    + destruct (appendWaveStages working _ _ _ _ _) as [e|[Wf st]] eqn:E1; [done|]. intros [= <- <-].
      eapply Hwave in E1 as (Hr1 & _ & _ & Hx); [|constructor|done|exact working_shaped|auto|auto].
      by rewrite Hx in Hr1.
Qed.
End whole.

(** * Properties *)

(** C19. Publishing the stages in order, from what is published now, leaves every
    node with its target state (up to the traffic classes the Controller allocates
    when it publishes), and each state published on the way is one its node
    accepts. *)
Theorem BuildRolloutStages_reaches_target (R : StringRange) planID strategy current target stages canary :
  StringRangeLaws R → coherent current → coherent target →
  map_Forall (λ _ s, Valid s) (completeStateMap target current) →
  BuildRolloutStages planID strategy current target = inr (stages, canary) →
  (∀ n s, completeStateMap target current !! n = Some s →
     ∃ t, foldl publish (completeStateMap current target) stages !! n = Some t
          ∧ desiredStatesEqual t s = true)
  ∧ Forall (λ st, map_Forall (λ _ s, Valid s) (sg_Desired st)) stages.
Proof.
  intros HR Hc Ht Hv Hb. eapply Build_rolled in Hb as Hr; [|done..]. split.
  - intros n s Hs.
    eapply (rolled_same (dom current ∪ dom target) _ _ _ _ (completeStateMap current target)) in Hr.
    + destruct (Hr n) as (t & s' & Hft & Hs' & Heq).
      * apply elem_of_dom_2 in Hs. rewrite complete_dom in Hs. set_solver.
      * exists t. split; [done|]. congruence.
    + intros a b (_ & ? & ? & _). done.
    + intros k Hk. rewrite <- complete_dom in Hk. apply elem_of_dom in Hk as [w Hw].
      exists w, w. split_and!; [done..|]. by apply bool_decide_eq_true.
  - clear Hb Hv. induction Hr as [|st W1 W2 w p Hr IH (_ & _ & _ & H)| |st W1 w p b Hr IH].
    + constructor.
    + apply Forall_app. split; [done|]. by apply Forall_singleton.
    + done.
    + apply Forall_app. split; [done|]. apply Forall_singleton. apply map_Forall_empty.
Qed.


(** The canary and the remainder partition the changed forwards; the canary
    is the given share of them, rounded up, and depends on their set only. *)
Theorem selectCanary_spec planID ids ids' percent :
  NoDup ids → ids ≡ₚ ids' → 1 ≤ percent →
  let '(canary, remainder) := selectCanary planID ids percent in
  canary ++ remainder ≡ₚ ids
  ∧ (canary ≠ [] →
       percent < 100 ∧ remainder ≠ []
       ∧ 100 * (N.of_nat (length canary) - 1) < N.of_nat (length ids) * percent
         ≤ 100 * N.of_nat (length canary)
       ∧ StronglySorted (not_after str_lt) canary ∧ StronglySorted (not_after str_lt) remainder
       ∧ selectCanary planID ids' percent = (canary, remainder)).
Proof.
  intros Hnd Hp H1. destruct (selectCanary planID ids percent) as [canary remainder] eqn:E.
  pose proof (selectCanary_partition planID ids percent) as Hpart. rewrite E in Hpart. split; [done|].
  intros Hne.
  assert (sort_slice (less_canary planID) ids' = sort_slice (less_canary planID) ids) as Hsort.
  { symmetry. apply (sort_slice_keyed _ id); [|by rewrite list_fmap_id|done].
    intros x y. apply less_canary_antisym. }
  unfold selectCanary in E. destruct (_ || _) eqn:E1 in E; [by injection E as <- _|].
  destruct (_ || _) eqn:E2 in E; [by injection E as <- _|]. injection E as Ec Er.
  assert (selectCanary planID ids' percent = (canary, remainder)) as Hsame.
  { unfold selectCanary. rewrite Hsort, <- Hp, E1, E2. by rewrite Ec, Er. }
  rewrite length_sort_slice in *. apply orb_false_iff in E1 as [E1 _]. apply N.leb_gt in E1.
  apply orb_false_iff in E2 as [E2 E3]. apply Nat.eqb_neq in E2. apply Nat.leb_gt in E3.
  set (count := N.to_nat _) in *.
  assert (length canary = count) as Hlen.
  { rewrite <- Ec, length_sort_slice, length_take, length_sort_slice. lia. }
  assert (N.of_nat count = (N.of_nat (length ids) * percent + 99) / 100) as Hcount
    by (unfold count; lia).
  assert (100 * (N.of_nat count - 1) < N.of_nat (length ids) * percent ≤ 100 * N.of_nat count) as [Hlo Hhi].
  { clearbody count. clear -E2 Hcount. revert Hcount. generalize (N.of_nat (length ids) * percent).
    intros m Hcount. pose proof (N.Div0.div_mod (m + 99) 100) as Hm.
    pose proof (N.mod_lt (m + 99) 100 ltac:(lia)) as Hr. rewrite <- Hcount in Hm. clear Hcount.
    revert Hm Hr. generalize ((m + 99) mod 100). lia. }
  rewrite Hlen. split_and!; [done| |done|done| | |done].
  - intros Hr. apply (f_equal length) in Er. rewrite Hr, length_sort_slice, length_drop, length_sort_slice in Er.
    cbn in Er. lia.
  - rewrite <- Ec. apply sort_slice_sorted. apply _.
  - rewrite <- Er. apply sort_slice_sorted. apply _.
Qed.

Lemma selectCanary_spec_witness :
  let '(canary, remainder) := selectCanary "main" ["a"; "b"; "c"; "d"; "e"] 25 in
  canary ++ remainder ≡ₚ ["a"; "b"; "c"; "d"; "e"] ∧ length canary = 2%nat.
Proof.
  assert (NoDup ["a"; "b"; "c"; "d"; "e"]) as Hnd by (apply (bool_decide_unpack _); reflexivity).
  pose proof (selectCanary_spec "main" ["a"; "b"; "c"; "d"; "e"] ["a"; "b"; "c"; "d"; "e"] 25 Hnd
    (Permutation_refl _) ltac:(lia)) as H.
  assert (length (selectCanary "main" ["a"; "b"; "c"; "d"; "e"] 25).1 = 2%nat) as Hl by (vm_compute; reflexivity).
  destruct (selectCanary "main" _ 25) as [canary remainder]. split; [exact (proj1 H)|exact Hl].
Defined.
