(* ===== verification/RolloutCompose.v ===== *)
(** Rollouts between compiled plans: what the scheduler compiles is what the
    rollout relies on. *)
From S2P Require Import Prelude.
From S2P Require Import GoNet.
From S2P Require Import SpecTypes.
From S2P Require Import SpecCanonical.
From S2P Require Import SpecValidate.
From S2P Require Import SpecSamples.
From S2P Require Import Hostname.
From S2P Require Import ClusterTypes.
From S2P Require Import ClusterValidate.
From S2P Require Import PlanFacts.
From S2P Require Import Scheduler.
From S2P Require Import PlaceFacts.
From S2P Require Import ClusterCompile.
From S2P Require Import Rollout.
From S2P Require Import RolloutFacts.
From S2P Require Import RolloutStages.

(** One placement per forward, in the forward's own path mode: what [Place]
    returns. *)
Record placed_once `{!Idna} (plan : Plan) (result : Result) : Prop := {
  po_unique : NoDup (pc_ForwardID <$> re_Placements result);
  po_mode p f : p ∈ re_Placements result → forward_index plan !! pc_ForwardID p = Some f →
    pc_PathMode p = cf_PathMode f;
}.

Section compose.
Context {idna : Idna}.

Lemma forward_index_spec plan id f :
  PlanValid plan →
  forward_index plan !! id = Some f ↔ f ∈ pl_Forwards (PlanCanonical plan) ∧ cf_ID f = id.
Proof. intros Hv. apply index_by_NoDup, plan_facts_canonical, PlanValid_facts, Hv. Qed.

Lemma Place_placed_once {R : MapRange} `{!MapRangeLaws R} plan runtimes observations previous now r :
  plan_u64 plan → Place plan runtimes observations previous now = inr r → placed_once plan r.
Proof.
  intros Hu Hp. apply Place_inv in Hp as (Hv & Hf & _); [|done].
  pose proof (plan_facts_canonical _ (PlanValid_facts _ Hv)) as HF.
  assert (pc_ForwardID <$> re_Placements r = cf_ID <$> pl_Forwards (PlanCanonical plan)) as Hids.
  { clear -Hf. induction Hf as [|f p fs ps H _ IH]; [done|]. rewrite !fmap_cons, IH. f_equal.
    apply pd_forward with (1 := H). }
  split; [rewrite Hids; apply (pf_forwards _ HF)|].
  intros p f Hin Hlk. apply list_elem_of_lookup in Hin as [i Hi].
  destruct (Forall2_lookup_r _ _ _ _ _ Hf Hi) as (f' & Hf' & H).
  apply forward_index_spec in Hlk as [Hfin Hid]; [|done]. apply list_elem_of_lookup_2 in Hf'.
  assert (f' = f) as ->.
  { eapply (NoDup_key_inj cf_ID); [apply (pf_forwards _ HF)|done..|]. rewrite Hid.
    symmetry. apply pd_forward with (1 := H). }
  apply pd_mode with (1 := H).
Qed.

(** The site a placement gives its forward. *)
Definition placement_site (p : Placement) : site := (pc_PathMode p, pc_IngressID p, pc_ExitID p).

Lemma elem_of_forwards_for plan vips n p g f :
  forward_index plan !! pc_ForwardID p = Some f → cf_ID f = pc_ForwardID p →
  pc_PathMode p = cf_PathMode f →
  g ∈ forwards_for (forward_index plan) vips n p →
  fw_ID g = pc_ForwardID p ∧ site_of g = placement_site p
  ∧ (n = pc_IngressID p ∨ (pc_PathMode p ≠ PathDirect ∧ n = pc_ExitID p)).
Proof.
  intros Hf Hid Hm. unfold forwards_for. rewrite Hf.
  assert (∀ vip link, fw_ID (forward_spec f p vip link) = pc_ForwardID p
    ∧ site_of (forward_spec f p vip link) = placement_site p) as Hs.
  { intros vip link. split; [done|]. unfold site_of, placement_site. cbn. by rewrite Hm. }
  destruct (bool_decide (pc_PathMode p = PathDirect)) eqn:E; reflect_bool.
  - destruct (bool_decide (pc_IngressID p = n)) eqn:En; reflect_bool; [|by intros ?%elem_of_nil].
    intros ->%list_elem_of_singleton. destruct (Hs None ""). auto.
  - intros [Hg|Hg]%elem_of_app.
    + destruct (bool_decide (pc_IngressID p = n)) eqn:En; reflect_bool; [|by apply elem_of_nil in Hg].
      apply list_elem_of_singleton in Hg as ->. split_and!; [apply Hs..|by left].
    + destruct (bool_decide (pc_ExitID p = n)) eqn:En; reflect_bool; [|by apply elem_of_nil in Hg].
      apply list_elem_of_singleton in Hg as ->. split_and!; [apply Hs..|by right].
Qed.

Lemma forwards_for_on plan vips n p f :
  forward_index plan !! pc_ForwardID p = Some f →
  n = pc_IngressID p ∨ (pc_PathMode p ≠ PathDirect ∧ n = pc_ExitID p) →
  ∃ g, g ∈ forwards_for (forward_index plan) vips n p.
Proof.
  intros Hf Hn. unfold forwards_for. rewrite Hf.
  destruct (bool_decide (pc_PathMode p = PathDirect)) eqn:E; reflect_bool.
  - destruct Hn as [->|[? _]]; [|done]. rewrite bool_decide_eq_true_2 by done. eexists. by left.
  - destruct Hn as [->|[_ ->]].
    + rewrite bool_decide_eq_true_2 by done. eexists. apply elem_of_app. left. by left.
    + rewrite (bool_decide_eq_true_2 (pc_ExitID p = _)) by done. eexists. apply elem_of_app. right. by left.
Qed.

(** The forwards of a compiled node are those of its contributions. *)
Lemma compiled_forwards {R : StateRange} `{!StateRangeLaws R} plan result vips runtimes desired n F x :
  Compile plan result vips runtimes = inr desired →
  At desired n F x ↔ sited (re_Placements result ≫= forwards_for (forward_index plan) vips n) F x.
Proof.
  intros Hc. split.
  - pose proof Hc as (_ & st & Hs & _ & Hf)%Compile_inv.
    pose proof (finish_node _ _ _ _ _ _ n Hs Hf) as H. unfold At, state_of.
    destruct (node_index plan !! n) as [node|].
    + destruct H as (links & _ & -> & _). cbn [default from_option id]. by rewrite sited_Canonical.
    + destruct H as [_ ->]. by intros (g & ?%elem_of_nil & _).
  - intros (g & Hg & Hid & Hx). apply (desired_forward _ _ _ _ _ n g Hc) in Hg as (s & Hs & _ & _ & _ & Hin).
    unfold At, state_of. rewrite Hs. by exists (canonicalForward g).
Qed.

(** What [Compile] returns is coherent. *)
Lemma Compile_coherent {R : StateRange} `{!StateRangeLaws R} plan result vips runtimes desired :
  placed_once plan result →
  Compile plan result vips runtimes = inr desired → coherent desired.
Proof.
  intros [Hnd Hmode] Hc F. pose proof Hc as (Hv & st & Hs & _)%Compile_inv.
  pose proof (su_ok _ _ _ _ _ _ Hs) as Hok. rewrite Forall_forall in Hok.
  assert (∀ p, p ∈ re_Placements result → ∃ f, forward_index plan !! pc_ForwardID p = Some f
    ∧ f ∈ pl_Forwards (PlanCanonical plan) ∧ cf_ID f = pc_ForwardID p ∧ pc_PathMode p = cf_PathMode f) as Hp.
  { intros p Hin. destruct (Hok p Hin) as (f & Hf & _). exists f. split; [done|].
    split; [|split; [|eauto]]; by apply forward_index_spec in Hf as [? ?]. }
  destruct (list_find (λ p, pc_ForwardID p = F) (re_Placements result)) as [[i p]|] eqn:E.
  - apply list_find_Some in E as (Hi%list_elem_of_lookup_2 & Hid & _).
    destruct (Hp p Hi) as (f & Hf & Hfin & Hfid & Hm).
    assert (∀ n, on n (placement_site p) ↔
      n = pc_IngressID p ∨ (pc_PathMode p ≠ PathDirect ∧ n = pc_ExitID p)) as Hon.
    { intros n. unfold on, placement_site. cbn [fst snd].
      destruct (pf_forward _ (plan_facts_canonical _ (PlanValid_facts _ Hv)) f Hfin) as [_ [[H _]|[H _]]];
        rewrite Hm, H; [|naive_solver].
      split; [intros [|[? _]]; [by left|done]|intros [|[? _]]; [by left|done]]. }
    assert (∀ n x, At desired n F x ↔ held (Some (placement_site p)) n x) as Hheld.
    { intros n x. rewrite (compiled_forwards _ _ _ _ _ _ _ _ Hc). split.
      - intros (g & Hg & HgF & <-). apply list_elem_of_bind in Hg as (q & Hq & Hgq).
        destruct (Hp q Hgq) as (f' & Hf' & _ & Hfid' & Hm').
        destruct (elem_of_forwards_for _ _ _ _ _ _ Hf' Hfid' Hm' Hq) as (H1 & H2 & H3).
        assert (q = p) as -> by (eapply (NoDup_key_inj pc_ForwardID); [done..|congruence]).
        rewrite H2. split; [done|]. by apply Hon.
      - intros [[= <-] Hn%Hon]. destruct (forwards_for_on plan vips n p f Hf Hn) as [g Hg].
        exists g. destruct (elem_of_forwards_for _ _ _ _ _ _ Hf Hfid Hm Hg) as (H1 & H2 & _).
        split; [|split; congruence]. apply list_elem_of_bind. by exists p. }
    exists (Some (placement_site p)). split; [exact Hheld|].
    intros x [= <-] Hvia. cbn in Hvia |- *.
    destruct (forwards_for_on plan vips (pc_IngressID p) p f Hf) as [g Hg]; [by left|].
    destruct (elem_of_forwards_for _ _ _ _ _ _ Hf Hfid Hm Hg) as (_ & Hsite & _).
    unfold site_of, placement_site in Hsite. injection Hsite as Hs1 Hs2 Hs3.
    destruct (desired_forward _ _ _ _ _ (pc_IngressID p) g Hc) as (s & _ & Hval & _ & _ & Hgin).
    { apply list_elem_of_bind. by exists p. }
    destruct (end_resolved s g Hval Hgin) as [Hne _]; [congruence|]. congruence.
  - exists None. split; [|done]. intros n x. rewrite (compiled_forwards _ _ _ _ _ _ _ _ Hc).
    split; [|by intros [? _]]. intros (g & Hg & HgF & _). exfalso.
    apply list_elem_of_bind in Hg as (q & Hq & Hgq).
    destruct (Hp q Hgq) as (f' & Hf' & _ & Hfid' & Hm').
    destruct (elem_of_forwards_for _ _ _ _ _ _ Hf' Hfid' Hm' Hq) as (H1 & _).
    apply list_find_None in E. rewrite Forall_forall in E. apply (E q); [done|congruence].
Qed.
End compose.

(** * A rollout that moves an exit *)

(** The sample plan with a third node the tunnel is to leave by. *)
Definition moved_plan : Plan :=
  let ac := {| cl_ID := "a-c"; cl_PeerNodeID := "node-c"; cl_Transport := FabricDirectL3;
               cl_Interface := "eth2"; cl_LocalAddress := MkPrefix (ip 10 0 1 1) 30;
               cl_PeerAddress := ip 10 0 1 2; cl_MTU := 1500; cl_RoutingID := 4; cl_Trusted := true;
               cl_WireGuard := None; cl_GRE := None; cl_ResourceVersion := 1 |} in
  let ca := {| cl_ID := "c-a"; cl_PeerNodeID := "node-a"; cl_Transport := FabricDirectL3;
               cl_Interface := "eth1"; cl_LocalAddress := MkPrefix (ip 10 0 1 2) 30;
               cl_PeerAddress := ip 10 0 1 1; cl_MTU := 1500; cl_RoutingID := 4; cl_Trusted := true;
               cl_WireGuard := None; cl_GRE := None; cl_ResourceVersion := 1 |} in
  {| pl_SchemaVersion := 1; pl_ID := "main"; pl_Revision := 8; pl_NodeOfflineAfterSeconds := 60;
     pl_Rollout := None; pl_ServiceCIDRs := [MkPrefix (ip 10 90 0 0) 16];
     pl_Nodes :=
       [cluster_node "node-b" "rack-2" [RoleExit] (cluster_link "b-a" "node-a" 2 1);
        cluster_node "node-c" "rack-3" [RoleExit] ca;
        {| nd_ID := "node-a"; nd_Enabled := true; nd_Roles := [RoleIngress; RoleExit];
           nd_Labels := {["site" := "rack-1"]}; nd_ListenIPs := []; nd_FailureDomain := "rack-1";
           nd_Capacity := MkCapacity 10 1000000000 0;
           nd_FabricLinks := [cluster_link "a-b" "node-b" 1 2; ac]; nd_ProtocolBlocks := None |}];
     pl_UserPolicies := []; pl_BackendPools := [cluster_pool];
     pl_Forwards := [cluster_forward "web" 8080 PathDirect None;
                     cluster_forward "tunnel" 9090 PathViaExit
                       (Some (MkNodeSelector [] {["site" := "rack-3"]}))] |}.

Definition moved_runtimes : gmap string NodeRuntime :=
  index_by nr_ID [sample_runtime "node-a"; sample_runtime "node-b"; sample_runtime "node-c"].
Definition moved_result : Result := Eval vm_compute in
  match @Place ascii_idna some_range moved_plan moved_runtimes ∅ (re_Placements sample_result) 1000%Z
  with inr r => r | inl _ => MkResult [] [] end.
Definition moved_desired : states :=
  match @Compile ascii_idna some_states moved_plan moved_result sample_vips moved_runtimes
  with inr d => d | inl _ => ∅ end.

Definition some_strings : StringRange := elements.
#[export] Instance some_strings_laws : StringRangeLaws some_strings.
Proof. intros X. apply Permutation_refl. Qed.

Definition moved_rollout : string + (list RolloutStage * list string) :=
  @BuildRolloutStages some_strings "main" RolloutStrategyZero sample_desired moved_desired.
Definition moved_stages : list RolloutStage :=
  match moved_rollout with inr (stages, _) => stages | inl _ => [] end.

Example moved_stages_phases :
  (λ st, (sg_Phase st, (map_to_list (sg_Desired st)).*1)) <$> moved_stages
  = [("prepare", ["node-c"]); ("promote", ["node-a"]); ("cleanup", ["node-a"; "node-b"])].
Proof. vm_compute. reflexivity. Qed.

Lemma moved_rollout_ok : moved_rollout = inr (moved_stages, []).
Proof. vm_compute. reflexivity. Qed.

Lemma sample_desired_coherent : coherent sample_desired.
Proof.
  apply (Compile_coherent (idna := ascii_idna) (R := some_states) sample_plan sample_result sample_vips
    sample_runtimes).
  - apply (Place_placed_once (idna := ascii_idna) (R := some_range) sample_plan sample_runtimes ∅ [] 1000%Z);
      [exact sample_plan_u64|exact sample_place_ok].
  - exact sample_compile_ok.
Qed.

Lemma moved_desired_coherent : coherent moved_desired.
Proof.
  apply (Compile_coherent (idna := ascii_idna) (R := some_states) moved_plan moved_result sample_vips
    moved_runtimes).
  - apply (Place_placed_once (idna := ascii_idna) (R := some_range) moved_plan moved_runtimes ∅
      (re_Placements sample_result) 1000%Z); [repeat constructor|vm_compute; reflexivity].
  - vm_compute. reflexivity.
Qed.

Lemma moved_final_valid : map_Forall (λ _ s, Valid s) (completeStateMap moved_desired sample_desired).
Proof. apply (bool_decide_unpack _). vm_compute. exact I. Qed.

Lemma BuildRolloutStages_reaches_target_witness :
  ∃ s t, completeStateMap moved_desired sample_desired !! "node-a" = Some s
    ∧ foldl publish (completeStateMap sample_desired moved_desired) moved_stages !! "node-a" = Some t
    ∧ desiredStatesEqual t s = true.
Proof.
  destruct (completeStateMap moved_desired sample_desired !! "node-a") as [s|] eqn:E;
    [|vm_compute in E; discriminate].
  assert (∃ t, foldl publish (completeStateMap sample_desired moved_desired) moved_stages !! "node-a"
               = Some t ∧ desiredStatesEqual t s = true) as (t & Ht & He).
  { apply (BuildRolloutStages_reaches_target some_strings "main" RolloutStrategyZero sample_desired
      moved_desired moved_stages []); [apply _|exact sample_desired_coherent
      |exact moved_desired_coherent|exact moved_final_valid|exact moved_rollout_ok|exact E]. }
  exists s, t. split; [reflexivity|]. split; [exact Ht|exact He].
Defined.


(** A target that changes resources but no forward is published without being
    validated: this one has a management domain no node accepts. *)
Definition unchecked_target : states :=
  {["node-a" := {| ds_SchemaVersion := CurrentSchemaVersion; ds_NodeID := "node-a"; ds_Generation := 1;
                   ds_ManagementDomain := "not an identifier"; ds_ServiceCIDRs := [];
                   ds_FabricLinks := []; ds_HealthChecks := []; ds_UserPolicies := [];
                   ds_ProtocolBlocks := None; ds_Forwards := [] |}]}.

Example resources_are_not_validated :
  match @BuildRolloutStages some_strings "main" RolloutStrategyZero ∅ unchecked_target with
  | inr ([st], []) => map_Forall (λ _ s, Validate s = ["management_domain is invalid"]) (sg_Desired st)
                      ∧ sg_Desired st ≠ ∅
  | _ => False
  end.
Proof.
  assert (@BuildRolloutStages some_strings "main" RolloutStrategyZero ∅ unchecked_target
    = inr ([MkRolloutStage "full" "promote" 0 unchecked_target], [])) as -> by (vm_compute; reflexivity).
  split; [|done]. apply (bool_decide_unpack _). vm_compute. exact I.
Qed.
