(* ===== verification/FabricCompiler.v ===== *)
(** The compiler of the node-to-node fabric, [internal/dataplane/fabric/compiler.go]:
    links, routes and policy rules of a desired state. *)
From S2P Require Import Prelude.
From S2P Require Import GoNet.
From S2P Require Import GoCrypto.
From S2P Require Import SpecTypes.
From S2P Require Import SpecCanonical.
From S2P Require Import SpecValidate.
From S2P Require Import SpecSamples.
From S2P Require Import SpecFacts.
From S2P Require Import SpecTheorems.
From S2P Require Import SpecChecksum.

(** The newline of a generated script. *)
Definition newline : string := String "010" "".

(** [fmt]'s [%0{width}d]; a number with more digits is printed in full. *)
Definition pad_zeros (width : nat) (digits : string) : string :=
  of_chars (replicate (width - length (chars digits)) "0"%char) +:+ digits.

Module Fabric.

Definition CompilerABI : string := "fabric-phase4-v1".
Definition RoutingMarkPrefix : N := 0x47000000.
Definition RoutingMarkMask : N := 0xffff0000.
Definition RouteTableBase : N := 47000.
Definition RulePriorityBase : N := 20000.
Definition RouteProtocol : N := 186.
Definition MainRouteTable : N := 254.

Record LinkPlan := {
  lp_ID : string;
  lp_PeerNodeID : string;
  lp_Transport : FabricTransport;
  lp_Interface : string;
  lp_LocalAddress : Prefix;
  lp_PeerAddress : Addr;
  lp_MTU : N;
  lp_RoutingID : N;
  lp_WireGuard : option WireGuardPeerSpec;
  lp_GRE : option GRESpec;
  lp_AllowedIPs : list Prefix;
}.

Record RoutePlan := {
  rt_Destination : Prefix;
  rt_Interface : string;
  rt_Gateway : option Addr;
  rt_Table : N;
  rt_Protocol : N;
}.

Record RulePlan := {
  rp_Mark : N;
  rp_Mask : N;
  rp_Table : N;
  rp_Priority : N;
}.

Record Program := {
  fp_Active : bool;
  fp_Generation : N;
  fp_DesiredChecksum : string;
  fp_Checksum : string;
  fp_Links : list LinkPlan;
  fp_Routes : list RoutePlan;
  fp_Rules : list RulePlan;
}.

#[export] Instance RoutePlan_eq_dec : EqDecision RoutePlan.
Proof. solve_decision. Defined.
#[export] Instance RulePlan_eq_dec : EqDecision RulePlan.
Proof. solve_decision. Defined.
#[export] Instance LinkPlan_eq_dec : EqDecision LinkPlan.
Proof. solve_decision. Defined.

(** Go's [Program{}]. *)
Definition ProgramZero : Program := Build_Program false 0 "" "" [] [] [].

(** Marks, tables and priorities are [uint32]. *)
Definition RoutingMark (routingID : N) : N := N.lor RoutingMarkPrefix routingID.
Definition RouteTable (routingID : N) : N := uadd 32 RouteTableBase routingID.
Definition RulePriority (routingID : N) : N := uadd 32 RulePriorityBase routingID.

Definition ProgramChecksum (desiredChecksum : string) : string :=
  sha256_hex (CompilerABI +:+ newline +:+ desiredChecksum).

Definition hostPrefix (address : Addr) : Prefix := PrefixFrom (Addr_Unmap address) 32.

Definition routeKey (route : RoutePlan) : string :=
  let gateway := match rt_Gateway route with Some g => Addr_String g | None => "" end in
  pad_zeros 10 (show (rt_Table route)) +:+ "|" +:+ Prefix_String (rt_Destination route)
  +:+ "|" +:+ rt_Interface route +:+ "|" +:+ gateway.

(** The plan of one link, before its allowed addresses are known. *)
Definition link_plan (link : FabricLinkSpec) : LinkPlan :=
  {| lp_ID := fl_ID link; lp_PeerNodeID := fl_PeerNodeID link;
     lp_Transport := fl_Transport link; lp_Interface := fl_Interface link;
     lp_LocalAddress := fl_LocalAddress link; lp_PeerAddress := fl_PeerAddress link;
     lp_MTU := fl_MTU link; lp_RoutingID := fl_RoutingID link;
     lp_WireGuard := fl_WireGuard link; lp_GRE := fl_GRE link; lp_AllowedIPs := [] |}.

(** The local maps of [Compile]: [allowed] by link, [routes] by [routeKey] and
    [rules] by routing identifier. *)
Record tables := Tables {
  tb_allowed : gmap string (list Prefix);
  tb_routes : gmap string RoutePlan;
  tb_rules : gmap N RulePlan;
}.

(** [set[prefix] = struct{}{}] *)
Definition allow (prefix : Prefix) (l : list Prefix) : list Prefix :=
  if bool_decide (prefix ∈ l) then l else l ++ [prefix].

(** [links[link.ID] = len(program.Links) - 1], and the allowed addresses a link
    starts with. *)
Definition link_index (links : list FabricLinkSpec) : gmap string nat :=
  foldl (λ m il, <[fl_ID il.2 := il.1]> m) ∅ (imap (λ i l, (i, l)) links).
Definition initial_allowed (links : list FabricLinkSpec) : gmap string (list Prefix) :=
  foldl (λ m link, <[fl_ID link := [hostPrefix (fl_PeerAddress link)]]> m) ∅ links.

Definition vip_route (link : LinkPlan) (vip : Prefix) : RoutePlan :=
  {| rt_Destination := vip; rt_Interface := lp_Interface link;
     rt_Gateway := Some (lp_PeerAddress link); rt_Table := MainRouteTable;
     rt_Protocol := RouteProtocol |}.
Definition peer_route (link : LinkPlan) : RoutePlan :=
  {| rt_Destination := hostPrefix (lp_PeerAddress link); rt_Interface := lp_Interface link;
     rt_Gateway := None; rt_Table := RouteTable (lp_RoutingID link);
     rt_Protocol := RouteProtocol |}.
Definition link_rule (link : LinkPlan) : RulePlan :=
  {| rp_Mark := RoutingMark (lp_RoutingID link); rp_Mask := 2 ^ 32 - 1;
     rp_Table := RouteTable (lp_RoutingID link);
     rp_Priority := RulePriority (lp_RoutingID link) |}.

(** One forward. A forward that names a link the state does not have reads the
    entry of index 0, which panics when there is none. *)
Definition plan_forward (nodeID : string) (plans : list LinkPlan) (links : gmap string nat)
    (_ : nat) (forward : ForwardSpec) (t : tables) : string + tables :=
  if negb (bool_decide (fw_PathMode forward = PathViaExit)) then inr t
  else match plans !! default 0%nat (links !! fw_FabricLinkID forward) with
  | None => inl "runtime error: index out of range"
  | Some link =>
      if bool_decide (nodeID = fw_IngressNodeID forward) then
        match fw_ServiceVIP forward with
        | None => inl "runtime error: invalid memory address or nil pointer dereference"
        | Some address =>
            let vip := hostPrefix address in
            let route := vip_route link vip in
            inr {| tb_allowed := alter (allow vip) (lp_ID link) (tb_allowed t);
                   tb_routes := <[routeKey route := route]> (tb_routes t);
                   tb_rules := tb_rules t |}
        end
      else
        let route := peer_route link in
        inr {| tb_allowed := tb_allowed t;
               tb_routes := <[routeKey route := route]> (tb_routes t);
               tb_rules := <[lp_RoutingID link := link_rule link]> (tb_rules t) |}
  end.

Definition finish_link (allowed : gmap string (list Prefix)) (link : LinkPlan) : LinkPlan :=
  {| lp_ID := lp_ID link; lp_PeerNodeID := lp_PeerNodeID link;
     lp_Transport := lp_Transport link; lp_Interface := lp_Interface link;
     lp_LocalAddress := lp_LocalAddress link; lp_PeerAddress := lp_PeerAddress link;
     lp_MTU := lp_MTU link; lp_RoutingID := lp_RoutingID link;
     lp_WireGuard := lp_WireGuard link; lp_GRE := lp_GRE link;
     lp_AllowedIPs :=
       sort_slice (less_by Prefix_String) (default [] (allowed !! lp_ID link)) |}.

Definition less_rule (a b : RulePlan) : bool := rp_Priority a <? rp_Priority b.

(** * The JSON the checksum is computed from *)
Definition json_plan (l : LinkPlan) : json :=
  JObj ([("id", JStr (lp_ID l)); ("peer_node_id", JStr (lp_PeerNodeID l));
         ("transport", JStr (lp_Transport l)); ("interface", JStr (lp_Interface l));
         ("local_address", Json.prefix (lp_LocalAddress l));
         ("peer_address", Json.addr (lp_PeerAddress l)); ("mtu", JNum (lp_MTU l));
         ("routing_id", JNum (lp_RoutingID l))]
        ++ Json.omit_ptr "wireguard" json_wireguard (lp_WireGuard l)
        ++ Json.omit_ptr "gre" json_gre (lp_GRE l)
        ++ Json.omit_list "allowed_ips" Json.prefix (lp_AllowedIPs l)).

Definition json_route (r : RoutePlan) : json :=
  JObj ([("destination", Json.prefix (rt_Destination r)); ("interface", JStr (rt_Interface r))]
        ++ Json.omit_ptr "gateway" Json.addr (rt_Gateway r)
        ++ [("table", JNum (rt_Table r)); ("protocol", JNum (rt_Protocol r))]).

Definition json_rule (r : RulePlan) : json :=
  JObj [("mark", JNum (rp_Mark r)); ("mask", JNum (rp_Mask r)); ("table", JNum (rp_Table r));
        ("priority", JNum (rp_Priority r))].

Definition material (links : list LinkPlan) (routes : list RoutePlan) (rules : list RulePlan) :
    json :=
  JObj [("links", Json.nil_list json_plan links); ("routes", Json.nil_list json_route routes);
        ("rules", Json.nil_list json_rule rules)].

(** The guards every compiler of the dataplane starts with. *)
Definition check_snapshot (state : DesiredState) (desiredChecksum : string) : option string :=
  match Validate state with
  | _ :: _ as issues => Some (ValidationError_Error issues)
  | [] =>
      if negb (ValidChecksum desiredChecksum)
      then Some "checksum must be a lowercase SHA-256 value"
      else match Checksum state with
      | None => Some "calculate desired checksum"
      | Some calculated =>
          if negb (bool_decide (calculated = desiredChecksum))
          then Some "checksum does not match desired state"
          else None
      end
  end.

(** The routes, rules and allowed addresses of a canonical state. *)
Definition plan_forwards (canonical : DesiredState) : string + tables :=
  eloop (plan_forward (ds_NodeID canonical) (map link_plan (ds_FabricLinks canonical))
           (link_index (ds_FabricLinks canonical)))
    0 (ds_Forwards canonical)
    (Tables (initial_allowed (ds_FabricLinks canonical)) ∅ ∅).

(** [Compiler.Compile] *)
Definition Compile (state : DesiredState) (desiredChecksum : string) : string + Program :=
  match check_snapshot state desiredChecksum with
  | Some e => inl e
  | None =>
      let canonical := Canonical state in
      match plan_forwards canonical with
      | inl e => inl e
      | inr t =>
          let links :=
            map (λ link, finish_link (tb_allowed t) (link_plan link)) (ds_FabricLinks canonical) in
          let routes := sort_slice (less_by routeKey) (map_to_list (tb_routes t)).*2 in
          let rules := sort_slice less_rule (map_to_list (tb_rules t)).*2 in
          inr {| fp_Active := negb (bool_decide (length (ds_FabricLinks canonical) = 0%nat));
                 fp_Generation := ds_Generation canonical;
                 fp_DesiredChecksum := desiredChecksum;
                 fp_Checksum :=
                   hex_encode (SHA256.Sum256 (bytes_of (CompilerABI +:+ newline)
                                              ++ Json.print (material links routes rules)));
                 fp_Links := links; fp_Routes := routes; fp_Rules := rules |}
      end
  end.

End Fabric.
