(* ===== verification/NftCompiler.v ===== *)
(** The compiler of the nftables table, [internal/dataplane/nft/compiler.go]:
    the lookup sets and maps of every forward, the counters, and the script that
    replaces the table in one transaction. *)
From S2P Require Import Prelude.
From S2P Require Import GoNet.
From S2P Require Import GoCrypto.
From S2P Require Import SpecTypes.
From S2P Require Import SpecCanonical.
From S2P Require Import SpecValidate.
From S2P Require Import SpecSamples.
From S2P Require Import SpecChecksum.
From S2P Require Import FabricCompiler.

(** [fmt]'s [%0{width}x]. *)
Definition pad_hex (width : nat) (n : N) : string := pad_zeros width (show_hex n).

(** [strings.Join] *)
Definition join (sep : string) (l : list string) : string := String.concat sep l.

(** A line of a script. *)
Definition line (s : string) : string := s +:+ newline.
Definition lines (l : list string) : string := String.concat "" (map line l).

(** A quoted name, as in the counter maps. *)
Definition quote : string := String "034" "".

Module Nft.

Definition TableFamily : string := "inet".
Definition TableName : string := "flux".
Definition CompilerABI : string := "nft-phase4-v3".
Definition httpsALPNScanBytes : nat := 256.
Definition TrafficMarkPrefix : N := 0x46000000.

Definition ErrUnsupported : string :=
  "desired state uses a capability not implemented by this dataplane".
Definition ErrUnresolvedClass : string :=
  "rate-limited policy has no allocated traffic class".

Record CounterBinding := {
  cb_Name : string;
  cb_ForwardID : string;
  cb_Protocol : Protocol;
  cb_Direction : TrafficDirection;
  cb_ResourceVersion : N;
}.

Record Program := {
  np_Generation : N;
  np_DesiredChecksum : string;
  np_ProgramChecksum : string;
  np_Script : string;
  np_Counters : list CounterBinding;
}.

(** The lookup elements of one protocol. *)
Record protocolElements := {
  managed : list string;
  paused : list string;
  draining : list string;
  dnatAddresses : list string;
  dnatPorts : list string;
  marks : list string;
  routeMarks : list string;
  masquerade : list string;
  snat : list string;
  mssClamp : list string;
  uploadCounters : list string;
  downloadCounters : list string;
}.

Definition no_elements : protocolElements :=
  Build_protocolElements [] [] [] [] [] [] [] [] [] [] [] [].

(** [append] on every field. *)
Definition append_elements (a b : protocolElements) : protocolElements :=
  {| managed := managed a ++ managed b;
     paused := paused a ++ paused b;
     draining := draining a ++ draining b;
     dnatAddresses := dnatAddresses a ++ dnatAddresses b;
     dnatPorts := dnatPorts a ++ dnatPorts b;
     marks := marks a ++ marks b;
     routeMarks := routeMarks a ++ routeMarks b;
     masquerade := masquerade a ++ masquerade b;
     snat := snat a ++ snat b;
     mssClamp := mssClamp a ++ mssClamp b;
     uploadCounters := uploadCounters a ++ uploadCounters b;
     downloadCounters := downloadCounters a ++ downloadCounters b |}.

Definition TrafficMark (classID : N) : N := N.lor TrafficMarkPrefix classID.

Definition ProgramChecksum (desiredChecksum : string) : string :=
  sha256_hex (CompilerABI +:+ newline +:+ desiredChecksum).

Definition has_deadline (forward : ForwardSpec) : bool :=
  bool_decide (is_Some (fw_ExpiresAt forward)) || bool_decide (is_Some (fw_DrainDeadline forward)).

Definition runtimeFingerprint (state : DesiredState) (now : Time) : string :=
  join ";" (map (λ forward, fw_ID forward +:+ "=" +:+ EffectiveLifecycle forward now)
              (filter (λ forward, has_deadline forward = true) (ds_Forwards (Canonical state)))).

Definition ProgramChecksumAt (state : DesiredState) (desiredChecksum : string) (now : Time) :
    string :=
  let fingerprint := runtimeFingerprint state now in
  if bool_decide (fingerprint = "") then ProgramChecksum desiredChecksum
  else sha256_hex (CompilerABI +:+ newline +:+ desiredChecksum +:+ newline +:+ fingerprint).

Definition forwardingClass (forward : ForwardSpec) (user : UserPolicySpec) : string + N :=
  if bool_decide (is_Some (fw_RateLimit forward)) then
    if fw_TrafficClassID forward =? 0
    then inl (ErrUnresolvedClass +:+ ": forward " +:+ fw_ID forward)
    else inr (fw_TrafficClassID forward)
  else if bool_decide (is_Some (up_RateLimit user)) then
    if up_TrafficClassID user =? 0
    then inl (ErrUnresolvedClass +:+ ": user " +:+ fw_UserID forward)
    else inr (up_TrafficClassID user)
  else inr 0.

(** The first twelve bytes of the digest, in hexadecimal. *)
Definition stableCounterName (forwardID : string) (protocol : Protocol)
    (direction : TrafficDirection) : string :=
  let digest := SHA256.Sum256 (bytes_of forwardID) in
  "c_" +:+ hex_encode (take 12 digest) +:+ "_"
  +:+ (if bool_decide (protocol = ProtocolUDP) then "u" else "t") +:+ "_"
  +:+ (if bool_decide (direction = DirectionDownload) then "down" else "up").

(** ["%s . %d"]: an address and port as a set element. *)
Definition element_key (address : Addr) (port : N) : string :=
  Addr_String address +:+ " . " +:+ show port.

(** What one forward contributes for one of its protocols, and its counters. *)
Record emission := Emission { em_elements : protocolElements; em_counters : list CounterBinding }.

(** Where the traffic of a forward is matched on this node, and where it is
    sent: at the ingress of a cross-node path it is sent to the service VIP, at
    its exit it is matched by the VIP. *)
Definition match_point (isIngress : bool) (forward : ForwardSpec) : Addr * N :=
  if bool_decide (fw_PathMode forward = PathViaExit) && negb isIngress
  then (Addr_Unmap (default AddrZero (fw_ServiceVIP forward)), ep_Port (fw_Target forward))
  else (Addr_Unmap (ep_Address (fw_Listen forward)), ep_Port (fw_Listen forward)).
Definition target_point (isIngress : bool) (forward : ForwardSpec) : Addr * N :=
  (if bool_decide (fw_PathMode forward = PathViaExit) && isIngress
   then Addr_Unmap (default AddrZero (fw_ServiceVIP forward))
   else Addr_Unmap (ep_Address (fw_Target forward)),
   ep_Port (fw_Target forward)).

Definition counter_binding (forward : ForwardSpec) (protocol : Protocol)
    (direction : TrafficDirection) : CounterBinding :=
  {| cb_Name := stableCounterName (fw_ID forward) protocol direction;
     cb_ForwardID := fw_ID forward; cb_Protocol := protocol; cb_Direction := direction;
     cb_ResourceVersion := fw_ResourceVersion forward |}.

(** [if cond { l = append(l, x) }] *)
Definition item (cond : bool) (x : string) : list string := if cond then [x] else [].

Definition emit (fabrics : gmap string FabricLinkSpec) (isIngress : bool) (classID : N)
    (effective : Lifecycle) (forward : ForwardSpec) (protocol : Protocol) : string + emission :=
  let viaExit := bool_decide (fw_PathMode forward = PathViaExit) in
  let link := if viaExit then fabrics !! fw_FabricLinkID forward else None in
  if viaExit && bool_decide (link = None)
  then inl (ErrUnsupported +:+ ": forward " +:+ fw_ID forward +:+ " fabric link is unresolved")
  else
    let '(keyAddress, keyPort) := match_point isIngress forward in
    let '(targetAddress, targetPort) := target_point isIngress forward in
    let key := element_key keyAddress keyPort in
    let map_to value := key +:+ " : " +:+ value in
    let transportSNAT := if isIngress then link else None in
    let static := bool_decide (snat_Mode (fw_SNAT forward) = SNATStatic) in
    let counter direction :=
      map_to (quote +:+ stableCounterName (fw_ID forward) protocol direction +:+ quote) in
    inr (Emission
      {| managed := [key];
         paused := item (bool_decide (effective = LifecyclePaused)
                         || bool_decide (effective = LifecycleForceDeleting)) key;
         draining := item (bool_decide (effective = LifecycleDraining)) key;
         dnatAddresses := [map_to (Addr_String targetAddress)];
         dnatPorts := [map_to (show targetPort)];
         marks := item (isIngress && negb (classID =? 0))
                    (map_to ("0x" +:+ pad_hex 8 (TrafficMark classID)));
         routeMarks :=
           match link with
           | Some link =>
               item (negb isIngress)
                 (map_to ("0x" +:+ pad_hex 8 (Fabric.RoutingMark (fl_RoutingID link))))
           | None => []
           end;
         masquerade := item (negb (bool_decide (is_Some transportSNAT)) && negb static) key;
         snat :=
           match transportSNAT with
           | Some link => [map_to (Addr_String (Addr_Unmap (p_addr (fl_LocalAddress link))))]
           | None =>
               item static (map_to (Addr_String (Addr_Unmap
                                      (default AddrZero (snat_Address (fw_SNAT forward))))))
           end;
         mssClamp := item viaExit key;
         uploadCounters := item isIngress (counter DirectionUpload);
         downloadCounters := item isIngress (counter DirectionDownload) |}
      (if isIngress
       then [counter_binding forward protocol DirectionUpload;
             counter_binding forward protocol DirectionDownload]
       else [])).

(** The accumulators of [CompileAt]: [byProtocol] and [program.Counters]. *)
Record accumulator := Accumulator {
  ac_tcp : protocolElements;
  ac_udp : protocolElements;
  ac_counters : list CounterBinding;
}.

(** [elements := byProtocol[protocol]]; another protocol has no entry there,
    and the first write through the nil entry panics. *)
Definition collect (a : accumulator) (protocol : Protocol) (e : emission) : string + accumulator :=
  if bool_decide (protocol = ProtocolTCP)
  then inr (Accumulator (append_elements (ac_tcp a) (em_elements e)) (ac_udp a)
              (ac_counters a ++ em_counters e))
  else if bool_decide (protocol = ProtocolUDP)
  then inr (Accumulator (ac_tcp a) (append_elements (ac_udp a) (em_elements e))
              (ac_counters a ++ em_counters e))
  else inl "runtime error: invalid memory address or nil pointer dereference".

(** The body of the loop over the forwards. *)
Definition compile_forward (nodeID : string) (policies : gmap string UserPolicySpec)
    (fabrics : gmap string FabricLinkSpec) (now : Time) (_ : nat) (forward : ForwardSpec)
    (a : accumulator) : string + accumulator :=
  let isIngress := bool_decide (nodeID = fw_IngressNodeID forward) in
  match (if isIngress
         then forwardingClass forward (default UserPolicySpecZero (policies !! fw_UserID forward))
         else inr 0) with
  | inl e => inl e
  | inr classID =>
      eloop (λ _ protocol a,
               match emit fabrics isIngress classID (EffectiveLifecycle forward now)
                       forward protocol with
               | inl e => inl e
               | inr e => collect a protocol e
               end)
        0 (fw_Protocols forward) a
  end.

Definition compile_forwards (canonical : DesiredState) (now : Time) : string + accumulator :=
  eloop (compile_forward (ds_NodeID canonical) (index_by up_UserID (ds_UserPolicies canonical))
           (index_by fl_ID (ds_FabricLinks canonical)) now)
    0 (ds_Forwards canonical) (Accumulator no_elements no_elements []).

(** * The script *)
Definition writeElements (kind name type : string) (elements : list string) : string :=
  line ("  " +:+ kind +:+ " " +:+ name +:+ " {") +:+ line ("    type " +:+ type +:+ ";")
  +:+ (if bool_decide (elements = []) then ""
       else line ("    elements = { " +:+ join ", " elements +:+ " };"))
  +:+ line "  }" +:+ newline.

Definition writeSet (name : string) (elements : list string) : string :=
  writeElements "set" name "ipv4_addr . inet_service" elements.
Definition writeMap (name valueType : string) (elements : list string) : string :=
  writeElements "map" name ("ipv4_addr . inet_service : " +:+ valueType) elements.

Definition counter_line (name : string) : string :=
  line ("  counter " +:+ name +:+ " { packets 0 bytes 0; }").

(** The names of the counters that carry the installed generation and checksums. *)
Definition metadata_names (generation : N) (desiredChecksum programChecksum : string) :
    list string :=
  ["flux_generation_" +:+ show generation; "flux_desired_" +:+ desiredChecksum;
   "flux_program_" +:+ programChecksum].

Definition writeMetadataCounters (generation : N) (desiredChecksum programChecksum : string) :
    string :=
  String.concat "" (map counter_line (metadata_names generation desiredChecksum programChecksum))
  +:+ newline.

(** The [SOCKS5] greetings with two to sixteen methods. *)
Definition socks_values : list string :=
  flat_map (λ methods, ["0x05" +:+ pad_hex 2 (N.of_nat methods) +:+ "0002";
                        "0x05" +:+ pad_hex 2 (N.of_nat methods) +:+ "0200"]) (seq 2 15).

(** One rule per byte offset at which a pattern of [width] bytes still fits the
    scanned window, the first being 6. *)
Definition scan_rules (width : nat) (pattern : string) : list string :=
  map (λ offset, "    @ih," +:+ show_nat (offset * 8) +:+ "," +:+ show_nat (width * 8) +:+ " "
                 +:+ pattern +:+ " drop")
    (seq 6 (httpsALPNScanBytes - width - 5)).

Definition writeProtocolBlockChains (policy : ProtocolBlockPolicy) : string :=
  lines
    (["  chain protocol_block {"]
     ++ (if pb_HTTP policy then
           ["    @ih,0,32 { 0x47455420, 0x50555420, 0x50524920 } drop";
            "    @ih,0,40 { 0x4845414420, 0x504f535420 } drop";
            "    @ih,0,48 { 0x504154434820, 0x545241434520 } drop";
            "    @ih,0,56 0x44454c45544520 drop";
            "    @ih,0,64 0x4f5054494f4e5320 drop"] else [])
     ++ (if pb_SOCKS policy then
           ["    @ih,0,16 { 0x0401, 0x0402 } @ih,64,8 0x00 drop";
            "    @ih,0,24 { 0x050100, 0x050102 } drop";
            "    @ih,0,32 { " +:+ join ", " socks_values +:+ " } drop"] else [])
     ++ (if pb_HTTPS policy then ["    @ih,0,64 0x434f4e4e45435420 drop"] else [])
     ++ (if pb_TLS policy then
           ["    @ih,0,24 { 0x160301, 0x160302, 0x160303, 0x160304 } @ih,40,8 0x01 drop"]
         else if pb_HTTPS policy then
           ["    @ih,0,24 { 0x160301, 0x160302, 0x160303, 0x160304 } @ih,40,8 0x01 jump https_alpn"]
         else [])
     ++ ["  }"; ""])
  +:+ (if negb (pb_HTTPS policy) || pb_TLS policy then ""
       else lines (["  chain https_alpn {"] ++ scan_rules 9 "0x08687474702f312e31"
                   ++ scan_rules 3 "0x026832" ++ ["  }"; ""])).

(** The sets and maps, in the order of the script. *)
Definition writeElementsOf (tcp udp : protocolElements) : string :=
  writeSet "managed_tcp" (managed tcp) +:+ writeSet "managed_udp" (managed udp)
  +:+ writeSet "paused_tcp" (paused tcp) +:+ writeSet "paused_udp" (paused udp)
  +:+ writeSet "draining_tcp" (draining tcp) +:+ writeSet "draining_udp" (draining udp)
  +:+ writeMap "dnat_addresses_tcp" "ipv4_addr" (dnatAddresses tcp)
  +:+ writeMap "dnat_addresses_udp" "ipv4_addr" (dnatAddresses udp)
  +:+ writeMap "dnat_ports_tcp" "inet_service" (dnatPorts tcp)
  +:+ writeMap "dnat_ports_udp" "inet_service" (dnatPorts udp)
  +:+ writeMap "marks_tcp" "mark" (marks tcp) +:+ writeMap "marks_udp" "mark" (marks udp)
  +:+ writeMap "route_marks_tcp" "mark" (routeMarks tcp)
  +:+ writeMap "route_marks_udp" "mark" (routeMarks udp)
  +:+ writeSet "masquerade_tcp" (masquerade tcp) +:+ writeSet "masquerade_udp" (masquerade udp)
  +:+ writeMap "snat_tcp" "ipv4_addr" (snat tcp) +:+ writeMap "snat_udp" "ipv4_addr" (snat udp)
  +:+ writeSet "mss_clamp_tcp" (mssClamp tcp)
  +:+ writeMap "upload_counters_tcp" "counter" (uploadCounters tcp)
  +:+ writeMap "upload_counters_udp" "counter" (uploadCounters udp)
  +:+ writeMap "download_counters_tcp" "counter" (downloadCounters tcp)
  +:+ writeMap "download_counters_udp" "counter" (downloadCounters udp).

(** The original destination of a tracked connection. *)
Definition original (protocol : string) : string :=
  "meta l4proto " +:+ protocol +:+ " ct original ip daddr . ct original proto-dst".

Definition writeRouteChains : string :=
  lines
    ["  chain prerouting_route {";
     "    type filter hook prerouting priority mangle; policy accept;";
     "    ct direction original meta l4proto tcp ct mark set ip daddr . tcp dport map @route_marks_tcp";
     "    ct direction original meta l4proto udp ct mark set ip daddr . udp dport map @route_marks_udp";
     "    ct direction reply ct mark & 0x" +:+ pad_hex 8 Fabric.RoutingMarkMask +:+ " == 0x"
       +:+ pad_hex 8 Fabric.RoutingMarkPrefix +:+ " meta mark set ct mark";
     "  }"; "";
     "  chain prerouting_nat {";
     "    type nat hook prerouting priority dstnat; policy accept;";
     "    meta l4proto tcp dnat ip to ip daddr . tcp dport map @dnat_addresses_tcp : ip daddr . tcp dport map @dnat_ports_tcp";
     "    meta l4proto udp dnat ip to ip daddr . udp dport map @dnat_addresses_udp : ip daddr . udp dport map @dnat_ports_udp";
     "  }"; ""].

Definition writeControlChains (blocks : bool) : string :=
  lines
    (["  chain forward_control {";
      "    type filter hook forward priority -10; policy accept;";
      "    " +:+ original "tcp" +:+ " @paused_tcp drop";
      "    " +:+ original "udp" +:+ " @paused_udp drop";
      "    ct state new " +:+ original "tcp" +:+ " @draining_tcp drop";
      "    ct state new " +:+ original "udp" +:+ " @draining_udp drop"]
     ++ item blocks ("    ct direction original " +:+ original "tcp"
                     +:+ " @managed_tcp jump protocol_block")
     ++ ["    " +:+ original "tcp"
           +:+ " @mss_clamp_tcp tcp flags & (syn | rst) == syn tcp option maxseg size set rt mtu";
         "    meta l4proto tcp meta mark set ct original ip daddr . ct original proto-dst map @marks_tcp";
         "    meta l4proto udp meta mark set ct original ip daddr . ct original proto-dst map @marks_udp";
         "    ct direction original meta l4proto tcp counter name ct original ip daddr . ct original proto-dst map @upload_counters_tcp";
         "    ct direction original meta l4proto udp counter name ct original ip daddr . ct original proto-dst map @upload_counters_udp";
         "    ct direction reply meta l4proto tcp counter name ct original ip daddr . ct original proto-dst map @download_counters_tcp";
         "    ct direction reply meta l4proto udp counter name ct original ip daddr . ct original proto-dst map @download_counters_udp";
         "  }"; "";
         "  chain postrouting_nat {";
         "    type nat hook postrouting priority srcnat; policy accept;";
         "    ct direction original " +:+ original "tcp" +:+ " @masquerade_tcp masquerade";
         "    ct direction original " +:+ original "udp" +:+ " @masquerade_udp masquerade";
         "    ct direction original meta l4proto tcp snat ip to ct original ip daddr . ct original proto-dst map @snat_tcp";
         "    ct direction original meta l4proto udp snat ip to ct original ip daddr . ct original proto-dst map @snat_udp";
         "  }";
         "}"]).

(** [delete table], emitted when the table is there: the kernel applies the
    script as one transaction. *)
Definition delete_table : string := line "delete table inet flux".

Definition write_script (tableExists : bool) (canonical : DesiredState)
    (desiredChecksum programChecksum : string) (a : accumulator) : string :=
  (if tableExists then delete_table else "")
  +:+ line "table inet flux {"
  +:+ writeMetadataCounters (ds_Generation canonical) desiredChecksum programChecksum
  +:+ String.concat "" (map (λ b, counter_line (cb_Name b)) (ac_counters a))
  +:+ (if bool_decide (ac_counters a = []) then "" else newline)
  +:+ writeElementsOf (ac_tcp a) (ac_udp a)
  +:+ writeRouteChains
  +:+ match ds_ProtocolBlocks canonical with
      | Some policy =>
          if ProtocolBlockPolicy_Any policy then writeProtocolBlockChains policy else ""
      | None => ""
      end
  +:+ writeControlChains
        (match ds_ProtocolBlocks canonical with
         | Some policy => ProtocolBlockPolicy_Any policy
         | None => false
         end).

(** [Compiler.CompileAt]; [Compile] is [CompileAt] at the current time. *)
Definition CompileAt (state : DesiredState) (desiredChecksum : string) (tableExists : bool)
    (now : Time) : string + Program :=
  match Fabric.check_snapshot state desiredChecksum with
  | Some e => inl e
  | None =>
      let canonical := Canonical state in
      let programChecksum := ProgramChecksumAt canonical desiredChecksum now in
      match compile_forwards canonical now with
      | inl e => inl e
      | inr a =>
          inr {| np_Generation := ds_Generation state;
                 np_DesiredChecksum := desiredChecksum;
                 np_ProgramChecksum := programChecksum;
                 np_Script := write_script tableExists canonical desiredChecksum programChecksum a;
                 np_Counters := ac_counters a |}
      end
  end.

End Nft.

Example compile_sample :
  match Checksum sample_state with
  | None => false
  | Some c =>
      match Nft.CompileAt sample_state c true 600%Z with
      | inl _ => false
      | inr p =>
          bool_decide (length (Nft.np_Counters p) = 6%nat)
          && (2000 <? String.length (Nft.np_Script p))%nat
      end
  end = true.
Proof. vm_compute. reflexivity. Qed.
