(* ===== verification/TcCompiler.v ===== *)
(** The compiler of the traffic shaper, [internal/dataplane/tc/compiler.go]: the
    HTB classes and filters of every rate-limited policy and forward. *)
From S2P Require Import Prelude.
From S2P Require Import GoNet.
From S2P Require Import GoCrypto.
From S2P Require Import SpecTypes.
From S2P Require Import SpecCanonical.
From S2P Require Import SpecValidate.
From S2P Require Import SpecSamples.
From S2P Require Import SpecChecksum.
From S2P Require Import FabricCompiler.
From S2P Require Import NftCompiler.

Module Tc.

Definition CompilerABI : string := "tc-phase4-v1".
Definition ErrOwnershipRequired : string := "tc root replacement requires explicit ownership".

Record Config := {
  cf_PublicInterface : string;
  cf_IFBInterface : string;
  cf_UploadLinkBitsPerSecond : N;
  cf_DownloadLinkBitsPerSecond : N;
  cf_AllowReplaceRoot : bool;
}.

Record ClassBinding := MkClassBinding {
  cl_Interface : string;
  cl_ClassID : N;
  cl_Rate : N;
}.

Record Program := {
  tp_Active : bool;
  tp_Checksum : string;
  tp_Config : Config;
  tp_Batch : string;
  tp_ExpectedClasses : list ClassBinding;
}.

(** [^[A-Za-z0-9_.:-]{1,15}$], the pattern of [internal/spec] as well. *)
Definition validateConfig (config : Config) : option string :=
  if negb (interfacePattern (cf_PublicInterface config))
     || negb (interfacePattern (cf_IFBInterface config))
     || bool_decide (cf_PublicInterface config = cf_IFBInterface config)
  then Some "public and IFB interface names are invalid or identical"
  else if (cf_UploadLinkBitsPerSecond config =? 0) || (cf_DownloadLinkBitsPerSecond config =? 0)
  then Some "upload and download link capacities must be greater than zero"
  else if negb (cf_AllowReplaceRoot config) then Some ErrOwnershipRequired
  else None.

(** [users[userID]], the zero policy when there is none. *)
Definition user_of (users : gmap string UserPolicySpec) (userID : string) : UserPolicySpec :=
  default UserPolicySpecZero (users !! userID).

Definition has_limit (l : option RateLimitSpec) : bool := bool_decide (is_Some l).

Definition hasRateLimits (state : DesiredState) : bool :=
  let users := index_by up_UserID (ds_UserPolicies state) in
  existsb (λ forward, bool_decide (fw_IngressNodeID forward = ds_NodeID state)
                      && (has_limit (fw_RateLimit forward)
                          || has_limit (up_RateLimit (user_of users (fw_UserID forward)))))
    (ds_Forwards state).

Definition cleanupBatch (config : Config) : string :=
  lines ["qdisc del dev " +:+ cf_PublicInterface config +:+ " root";
         "qdisc del dev " +:+ cf_PublicInterface config +:+ " clsact";
         "qdisc del dev " +:+ cf_IFBInterface config +:+ " root"].

Definition writeRoot (device : string) (capacity : N) : string :=
  let rate := " htb rate " +:+ show capacity +:+ "bit ceil " +:+ show capacity +:+ "bit" in
  lines ["qdisc add dev " +:+ device +:+ " root handle 1: htb default ffff";
         "class add dev " +:+ device +:+ " parent 1: classid 1:1" +:+ rate;
         "class add dev " +:+ device +:+ " parent 1:1 classid 1:ffff" +:+ rate;
         "qdisc add dev " +:+ device +:+ " parent 1:ffff fq_codel"].

Definition writeClass (device : string) (parent classID rate burst : N) : string :=
  let burst := if burst =? 0 then 64 * 1024 else burst in
  lines ["class add dev " +:+ device +:+ " parent 1:" +:+ show_hex parent +:+ " classid 1:"
           +:+ show_hex classID +:+ " htb rate " +:+ show rate +:+ "bit ceil " +:+ show rate
           +:+ "bit burst " +:+ show burst +:+ "b cburst " +:+ show burst +:+ "b";
         "qdisc add dev " +:+ device +:+ " parent 1:" +:+ show_hex classID +:+ " fq_codel"].

Definition directionRate (limit : option RateLimitSpec) (direction : TrafficDirection) : N * N :=
  match limit with
  | None => (0, 0)
  | Some limit =>
      (if bool_decide (direction = DirectionUpload)
       then rl_IngressBitsPerSecond limit else rl_EgressBitsPerSecond limit, rl_BurstBytes limit)
  end.

Definition effectiveDirectionRate (forward : ForwardSpec) (user : UserPolicySpec)
    (direction : TrafficDirection) : N * N :=
  let '(rate, burst) := directionRate (fw_RateLimit forward) direction in
  if negb (rate =? 0) then (rate, burst) else directionRate (up_RateLimit user) direction.

Definition classForForward (forward : ForwardSpec) (user : UserPolicySpec) : N :=
  if has_limit (fw_RateLimit forward) then fw_TrafficClassID forward else up_TrafficClassID user.

(** The classes and filters of one direction on one device. *)
Definition at_ingress (state : DesiredState) (forward : ForwardSpec) : bool :=
  bool_decide (fw_IngressNodeID forward = ds_NodeID state).

(** One class: its parent, its binding and its burst. *)
Record class := MkClass { k_parent : N; k_binding : ClassBinding; k_burst : N }.

Definition write_class (k : class) : string :=
  writeClass (cl_Interface (k_binding k)) (k_parent k) (cl_ClassID (k_binding k))
    (cl_Rate (k_binding k)) (k_burst k).

(** The class of a policy, used at this ingress and limited in this direction. *)
Definition policy_class (ingressUsers : list string) (direction : TrafficDirection)
    (device : string) (capacity : N) (policy : UserPolicySpec) : list class :=
  if negb (bool_decide (up_UserID policy ∈ ingressUsers)) then []
  else
    let '(rate, burst) := directionRate (up_RateLimit policy) direction in
    if rate =? 0 then []
    else [MkClass 1 (MkClassBinding device (up_TrafficClassID policy) (N.min rate capacity)) burst].

(** The class of a forward with a limit of its own, under its user's class when
    the user is limited in this direction. *)
Definition forward_class (state : DesiredState) (users : gmap string UserPolicySpec)
    (direction : TrafficDirection) (device : string) (capacity : N) (forward : ForwardSpec) :
    list class :=
  if negb (at_ingress state forward) || negb (has_limit (fw_RateLimit forward)) then []
  else
    let user := user_of users (fw_UserID forward) in
    let '(rate, burst) := directionRate (fw_RateLimit forward) direction in
    let '(userRate, userBurst) := directionRate (up_RateLimit user) direction in
    let parent := if negb (userRate =? 0) then up_TrafficClassID user else 1 in
    let '(rate, burst) :=
      if negb (userRate =? 0) && (rate =? 0) then (userRate, userBurst) else (rate, burst) in
    if rate =? 0 then []
    else [MkClass parent (MkClassBinding device (fw_TrafficClassID forward) (N.min rate capacity))
            burst].

(** The class a forward's packets are put in, if its direction is limited. *)
Definition filter_class (state : DesiredState) (users : gmap string UserPolicySpec)
    (direction : TrafficDirection) (forward : ForwardSpec) : list N :=
  if negb (at_ingress state forward) then []
  else
    let user := user_of users (fw_UserID forward) in
    if fst (effectiveDirectionRate forward user direction) =? 0 then []
    else [classForForward forward user].

(** Each class gets one filter: [seenFilter]. *)
Fixpoint first_seen (seen l : list N) : list N :=
  match l with
  | [] => []
  | x :: l' => if bool_decide (x ∈ seen) then first_seen seen l' else x :: first_seen (x :: seen) l'
  end.

Definition write_filter (device : string) (classID : N) : string :=
  line ("filter add dev " +:+ device +:+ " parent 1: protocol all pref " +:+ show classID
        +:+ " handle 0x" +:+ pad_hex 8 (Nft.TrafficMark classID) +:+ " fw classid 1:"
        +:+ show_hex classID).

(** The classes of [writeDirectionClasses]: policies first, so that a parent
    is there before its children. *)
Definition direction_classes (state : DesiredState) (users : gmap string UserPolicySpec)
    (direction : TrafficDirection) (device : string) (capacity : N) : list class :=
  let ingressUsers := fw_UserID <$> filter (λ f, at_ingress state f = true) (ds_Forwards state) in
  flat_map (policy_class ingressUsers direction device capacity) (ds_UserPolicies state)
  ++ flat_map (forward_class state users direction device capacity) (ds_Forwards state).

Definition direction_filters (state : DesiredState) (users : gmap string UserPolicySpec)
    (direction : TrafficDirection) : list N :=
  first_seen [] (flat_map (filter_class state users direction) (ds_Forwards state)).

(** [writeDirectionClasses]: the text and the bindings it appends. *)
Definition writeDirectionClasses (state : DesiredState) (users : gmap string UserPolicySpec)
    (direction : TrafficDirection) (device : string) (capacity : N) : string * list ClassBinding :=
  let classes := direction_classes state users direction device capacity in
  (String.concat "" (map write_class classes)
   +:+ String.concat "" (map (write_filter device) (direction_filters state users direction)),
   map k_binding classes).

(** [writeIngressRedirects]; [preference] is a [uint32]. *)
Fixpoint redirect_protocols (config : Config) (forward : ForwardSpec) (classID : N)
    (protocols : list Protocol) (preference : N) : string * N :=
  match protocols with
  | [] => ("", preference)
  | protocol :: rest =>
      let '(text, preference') :=
        redirect_protocols config forward classID rest (uadd 32 preference 1) in
      (line ("filter add dev " +:+ cf_PublicInterface config +:+ " ingress protocol ip pref "
             +:+ show preference +:+ " flower dst_ip "
             +:+ Addr_String (Addr_Unmap (ep_Address (fw_Listen forward))) +:+ " ip_proto "
             +:+ protocol +:+ " dst_port " +:+ show (ep_Port (fw_Listen forward))
             +:+ " action skbedit mark 0x" +:+ pad_hex 8 (Nft.TrafficMark classID)
             +:+ " action mirred egress redirect dev " +:+ cf_IFBInterface config)
       +:+ text, preference')
  end.

Fixpoint writeIngressRedirects (state : DesiredState) (users : gmap string UserPolicySpec)
    (config : Config) (forwards : list ForwardSpec) (preference : N) : string :=
  match forwards with
  | [] => ""
  | forward :: rest =>
      match filter_class state users DirectionUpload forward with
      | classID :: _ =>
          let '(text, preference') :=
            redirect_protocols config forward classID (fw_Protocols forward) preference in
          text +:+ writeIngressRedirects state users config rest preference'
      | [] => writeIngressRedirects state users config rest preference
      end
  end.

Definition show_bool (b : bool) : string := if b then "true" else "false".

Definition programChecksum (config : Config) (active : bool) (batch : string) : string :=
  sha256_hex (join newline
    [CompilerABI; cf_PublicInterface config; cf_IFBInterface config;
     show (cf_UploadLinkBitsPerSecond config); show (cf_DownloadLinkBitsPerSecond config);
     show_bool (cf_AllowReplaceRoot config); show_bool active; batch]).

(** Every limit used at this ingress has a class. *)
Definition unresolved (canonical : DesiredState) : option string :=
  let ingressUsers :=
    fw_UserID <$> filter (λ f, at_ingress canonical f = true) (ds_Forwards canonical) in
  match list_find (λ policy, bool_decide (up_UserID policy ∈ ingressUsers)
                             && has_limit (up_RateLimit policy)
                             && (up_TrafficClassID policy =? 0) = true)
          (ds_UserPolicies canonical) with
  | Some (_, policy) => Some (Nft.ErrUnresolvedClass +:+ ": user " +:+ up_UserID policy)
  | None =>
      match list_find (λ forward, at_ingress canonical forward && has_limit (fw_RateLimit forward)
                                  && (fw_TrafficClassID forward =? 0) = true)
              (ds_Forwards canonical) with
      | Some (_, forward) => Some (Nft.ErrUnresolvedClass +:+ ": forward " +:+ fw_ID forward)
      | None => None
      end
  end.

Definition less_class (a b : ClassBinding) : bool :=
  if negb (bool_decide (cl_Interface a = cl_Interface b))
  then str_lt (cl_Interface a) (cl_Interface b)
  else cl_ClassID a <? cl_ClassID b.

(** [Compiler.Compile] *)
Definition Compile (config : Config) (state : DesiredState) (desiredChecksum : string) :
    string + Program :=
  match Validate state with
  | _ :: _ as issues => inl (ValidationError_Error issues)
  | [] =>
      if negb (hasRateLimits state) then
        let batch :=
          if negb (bool_decide (cf_PublicInterface config = ""))
             && negb (bool_decide (cf_IFBInterface config = "")) && cf_AllowReplaceRoot config
          then cleanupBatch config else "" in
        inr {| tp_Active := false; tp_Checksum := programChecksum config false batch;
               tp_Config := config; tp_Batch := batch; tp_ExpectedClasses := [] |}
      else match validateConfig config with
      | Some e => inl e
      | None =>
          let canonical := Canonical state in
          let users := index_by up_UserID (ds_UserPolicies canonical) in
          match unresolved canonical with
          | Some e => inl e
          | None =>
              let '(down, down_classes) :=
                writeDirectionClasses canonical users DirectionDownload
                  (cf_PublicInterface config) (cf_DownloadLinkBitsPerSecond config) in
              let '(up, up_classes) :=
                writeDirectionClasses canonical users DirectionUpload
                  (cf_IFBInterface config) (cf_UploadLinkBitsPerSecond config) in
              let batch :=
                cleanupBatch config
                +:+ writeRoot (cf_PublicInterface config) (cf_DownloadLinkBitsPerSecond config)
                +:+ writeRoot (cf_IFBInterface config) (cf_UploadLinkBitsPerSecond config)
                +:+ line ("qdisc add dev " +:+ cf_PublicInterface config +:+ " clsact")
                +:+ down +:+ up
                +:+ writeIngressRedirects canonical users config (ds_Forwards canonical) 10 in
              inr {| tp_Active := true; tp_Checksum := programChecksum config true batch;
                     tp_Config := config; tp_Batch := batch;
                     tp_ExpectedClasses := sort_slice less_class (down_classes ++ up_classes) |}
          end
      end
  end.

End Tc.
