(* ===== verification/DataplaneFacts.v ===== *)
(** What the compilers of the dataplane share: numbers and keys read back from
    their text, the canonical form of an accepted state, and the lookup keys of
    its forwards. *)
From S2P Require Import Prelude.
From S2P Require Import GoNet.
From S2P Require Import GoCrypto.
From S2P Require Import NetFacts.
From S2P Require Import SpecTypes.
From S2P Require Import SpecCanonical.
From S2P Require Import SpecValidate.
From S2P Require Import SpecFacts.
From S2P Require Import SpecTheorems.
From S2P Require Import SpecChecksum.
From S2P Require Import FabricCompiler.
From S2P Require Import NftCompiler.
From S2P Require Import TcCompiler.

(** * Decimal numbers *)
Lemma digit_val_char d : d < 10 → digit_val (pretty_N_char d) = Some d.
Proof.
  intros Hd. assert (d ∈ N.of_nat <$> seq 0 10) as H.
  { apply list_elem_of_fmap. exists (N.to_nat d). split; [lia|]. apply elem_of_seq. lia. }
  revert H. cbn. rewrite !elem_of_cons, elem_of_nil. intuition (subst; reflexivity).
Qed.

Lemma digits_val_go n s : digits_val (chars (pretty_N_go n s)) 0 = digits_val (chars s) n.
Proof.
  revert s. induction (N.lt_wf_0 n) as [n _ IH]. intros s.
  destruct (decide (n = 0)) as [->|Hn]; [by rewrite pretty_N_go_0|].
  rewrite pretty_N_go_step by lia. rewrite IH by (apply N.div_lt; lia). cbn -[N.div N.modulo].
  rewrite digit_val_char by (apply N.mod_lt; lia). cbn -[N.div N.modulo].
  f_equal. pose proof (N.div_mod n 10). lia.
Qed.

Lemma digits_val_show n : digits_val (chars (show n)) 0 = Some n.
Proof.
  unfold show, pretty, pretty_N. case_decide as H; [by subst|]. by rewrite digits_val_go.
Qed.

Lemma show_nonempty n : chars (show n) ≠ [].
Proof.
  unfold show. intros H. pose proof (digits_val_show n) as Hv. unfold show in Hv.
  destruct (decide (n = 0)) as [->|Hn]; [done|]. rewrite H in Hv. cbn in Hv. congruence.
Qed.

(** [ParseUint] reads back what [%d] prints. *)
Lemma ParseUint_show w n : n < 2 ^ w → ParseUint w (show n) = Some n.
Proof.
  intros Hn. unfold ParseUint. pose proof (digits_val_show n) as Hv.
  destruct (chars (show n)) eqn:E; [by apply show_nonempty in E|].
  rewrite Hv. cbn. by rewrite (proj2 (N.ltb_lt _ _)).
Qed.

Lemma digits_val_zeros k l : digits_val (replicate k "0"%char ++ l) 0 = digits_val l 0.
Proof. induction k as [|k IH]; [done|]. cbn. apply IH. Qed.

Lemma pad_zeros_show_inj w n m : pad_zeros w (show n) = pad_zeros w (show m) → n = m.
Proof.
  unfold pad_zeros. intros H%(f_equal (λ s, digits_val (chars s) 0)).
  rewrite !chars_app, !chars_of_chars, !digits_val_zeros, !digits_val_show in H. congruence.
Qed.

(** * Characters of addresses and numbers *)
Definition address_char (c : ascii) : bool := byte_in "0" "9" c || bool_decide (c = "."%char).

Lemma digit_chars n : forallb (byte_in "0" "9") (chars (show n)) = true.
Proof.
  pose proof (digits_val_show n) as H. revert H. generalize 0%N as acc. generalize (chars (show n)).
  induction l as [|c l IH]; intros acc; cbn -[digit_val byte_in]; [done|].
  unfold digit_val at 1. destruct (byte_in "0" "9" c); [|done]. cbn. apply IH.
Qed.

Lemma address_chars b : forallb address_char (chars (show_v4 b)) = true.
Proof.
  assert (∀ n, forallb address_char (chars (show n)) = true) as Hn.
  { intros n. pose proof (digit_chars n) as H. rewrite forallb_forall in *.
    intros c Hc%H. unfold address_char. by rewrite Hc. }
  unfold show_v4. rewrite !chars_app, !forallb_app, !Hn. done.
Qed.

Lemma not_address_char c l : forallb address_char l = true → address_char c = false → c ∉ l.
Proof.
  rewrite forallb_forall. intros H Hc Hin. apply list_elem_of_In, H in Hin. congruence.
Qed.

(** * Keys of the lookup elements *)
Definition is_v4 (a : Addr) : Prop := ∃ b, a = Addr4 b ∧ b < 2 ^ 32.

Lemma String_v4 b : Addr_String (Addr4 b) = show_v4 b.
Proof. done. Qed.

Lemma space_notin_address a : is_v4 a → " "%char ∉ chars (Addr_String a).
Proof. intros (b & -> & Hb). eapply not_address_char; [apply address_chars|done]. Qed.

Lemma space_notin_number n : " "%char ∉ chars (show n).
Proof.
  intros H. pose proof (digit_chars n) as Hd. rewrite forallb_forall in Hd.
  apply list_elem_of_In, Hd in H. done.
Qed.

Lemma Addr_String_v4_inj a b : is_v4 a → is_v4 b → Addr_String a = Addr_String b → a = b.
Proof.
  intros (x & -> & Hx) (y & -> & Hy). rewrite !String_v4. by intros ->%show_v4_inj.
Qed.

(** ["A . P : V"] determines the address, the port and the value. *)
Lemma element_inj a p v b q w :
  is_v4 a → is_v4 b →
  Nft.element_key a p +:+ " : " +:+ v = Nft.element_key b q +:+ " : " +:+ w →
  a = b ∧ p = q ∧ v = w.
Proof.
  intros Ha Hb H%(f_equal chars). unfold Nft.element_key in H. rewrite !chars_app in H.
  rewrite <- !app_assoc in H. cbn -[show] in H.
  apply app_cons_inj in H as [H1 H]; [|by apply space_notin_address..].
  injection H as H. apply app_cons_inj in H as [H2 H]; [|apply space_notin_number..].
  injection H as H. apply chars_inj in H1, H2, H.
  split; [by apply Addr_String_v4_inj|]. split; [|done]. by apply (inj pretty) in H2.
Qed.

Lemma element_key_inj a p b q :
  is_v4 a → is_v4 b → Nft.element_key a p = Nft.element_key b q → a = b ∧ p = q.
Proof.
  intros Ha Hb H. destruct (element_inj a p "" b q "") as (? & ? & _); auto. by rewrite H.
Qed.

(** * Accepted snapshots *)
Lemma check_snapshot_None s c :
  Fabric.check_snapshot s c = None ↔ Valid s ∧ Checksum s = Some c.
Proof.
  unfold Fabric.check_snapshot, Valid. destruct (Validate s) as [|e l]; [|split; [done|by intros [? _]]].
  destruct (ValidChecksum c) eqn:Ec; cbn [negb].
  - destruct (Checksum s) as [c'|]; [|by split; [|intros [_ ?]]].
    case_bool_decide; cbn [negb]; split; try done; [by subst|]. by intros [_ [= ->]].
  - split; [done|]. intros [_ H]. unfold Checksum in H.
    destruct (json_desired _) as [j|]; [|done]. injection H as <-.
    destruct (Sum256_bytes (Json.print j)) as [Hl Hb].
    destruct (hex_encode_spec _ Hb) as [H1 H2]. unfold ValidChecksum in Ec.
    by rewrite H1, H2, Hl in Ec.
Qed.

Lemma elem_of_canonical_forwards s f :
  f ∈ ds_Forwards (Canonical s) ↔ ∃ g, g ∈ ds_Forwards s ∧ f = canonicalForward g.
Proof. cbn -[sort_slice]. rewrite elem_of_sort_slice, list_elem_of_fmap. naive_solver. Qed.

Lemma elem_of_canonical_links s l :
  l ∈ ds_FabricLinks (Canonical s) ↔ ∃ k, k ∈ ds_FabricLinks s ∧ l = canonicalLink k.
Proof. cbn -[sort_slice]. rewrite elem_of_sort_slice, list_elem_of_fmap. naive_solver. Qed.

Lemma elem_of_canonical_policies s p :
  p ∈ ds_UserPolicies (Canonical s) ↔ p ∈ ds_UserPolicies s.
Proof. cbn -[sort_slice]. apply elem_of_sort_slice. Qed.

Lemma canonical_forward_ids s :
  fw_ID <$> ds_Forwards (Canonical s) ≡ₚ fw_ID <$> ds_Forwards s.
Proof.
  cbn -[sort_slice]. rewrite sort_slice_perm, <-list_fmap_compose. done.
Qed.

Lemma canonical_link_ids s : fl_ID <$> ds_FabricLinks (Canonical s) ≡ₚ fl_ID <$> ds_FabricLinks s.
Proof. cbn -[sort_slice]. rewrite sort_slice_perm, <-list_fmap_compose. done. Qed.

Lemma canonical_policy_users s :
  up_UserID <$> ds_UserPolicies (Canonical s) ≡ₚ up_UserID <$> ds_UserPolicies s.
Proof. cbn -[sort_slice]. by rewrite sort_slice_perm. Qed.

(** The addresses of a forward are addresses a Go program can hold. *)
Definition forward_wf (f : ForwardSpec) : Prop :=
  addr_wf (ep_Address (fw_Listen f)) ∧ (∀ v, fw_ServiceVIP f = Some v → addr_wf v).

Lemma Unmap_v4 a x : addr_wf a → Addr_Unmap a = Addr4 x → x < 2 ^ 32.
Proof.
  destruct a as [|b|b z]; cbn; [done|by intros ? [= <-]|].
  destruct (N.shiftr b 32 =? 0xffff); [|done]. intros _ [= <-]. by apply N.mod_lt.
Qed.

Lemma validateIPv4_v4 n a : addr_wf a → validateIPv4 n a = [] → is_v4 (Addr_Unmap a).
Proof.
  unfold validateIPv4. intros Hwf. destruct (negb (Addr_IsValid a)); [done|].
  destruct (Addr_Unmap a) as [|x|x z] eqn:E; try done. exists x. split; [done|].
  by eapply Unmap_v4.
Qed.

(** A loop none of whose steps fails reaches its end. *)
Lemma eloop_total {E St X} (step : nat → X → St → E + St) i l s :
  (∀ i x s, x ∈ l → ∃ s', step i x s = inr s') → ∃ s', eloop step i l s = inr s'.
Proof.
  revert i s. induction l as [|x l IH]; intros i s H; cbn; [eauto|].
  destruct (H i x s) as [s' ->]; [by left|]. apply IH. intros j y t Hy. apply H. by right.
Qed.
