(* ===== verification/NftFacts.v ===== *)
(** What the compiled table does with the traffic of each forward: the lookup
    elements of [NftCompiler] against the forwards they come from. *)
From S2P Require Import Prelude.
From S2P Require Import GoNet.
From S2P Require Import GoCrypto.
From S2P Require Import NetFacts.
From S2P Require Import SpecTypes.
From S2P Require Import SpecCanonical.
From S2P Require Import SpecValidate.
From S2P Require Import SpecSamples.
From S2P Require Import SpecFacts.
From S2P Require Import SpecTheorems.
From S2P Require Import SpecChecksum.
From S2P Require Import FabricCompiler.
From S2P Require Import NftCompiler.
From S2P Require Import TcCompiler.
From S2P Require Import DataplaneFacts.

Import Nft.

(** * The accumulated elements *)
Definition elements_of (a : accumulator) (q : Protocol) : protocolElements :=
  if bool_decide (q = ProtocolTCP) then ac_tcp a else ac_udp a.

Definition tcp_or_udp (q : Protocol) : Prop := q = ProtocolTCP ∨ q = ProtocolUDP.

(** The fields of [protocolElements] that [append] extends. *)
Class Additive (g : protocolElements → list string) : Prop := {
  additive_nil : g no_elements = [];
  additive_app a b : g (append_elements a b) = g a ++ g b;
}.
#[export] Instance additive_managed : Additive managed. Proof. done. Qed.
#[export] Instance additive_paused : Additive paused. Proof. done. Qed.
#[export] Instance additive_draining : Additive draining. Proof. done. Qed.
#[export] Instance additive_dnatAddresses : Additive dnatAddresses. Proof. done. Qed.
#[export] Instance additive_dnatPorts : Additive dnatPorts. Proof. done. Qed.
#[export] Instance additive_marks : Additive marks. Proof. done. Qed.
#[export] Instance additive_routeMarks : Additive routeMarks. Proof. done. Qed.
#[export] Instance additive_masquerade : Additive masquerade. Proof. done. Qed.
#[export] Instance additive_snat : Additive snat. Proof. done. Qed.

(** The contributions [cs] took the accumulators from [a] to [a']. *)
Abbreviation contribution := (ForwardSpec * Protocol * emission)%type.

Definition part (g : protocolElements → list string) (q : Protocol) (c : contribution) :
    list string :=
  if bool_decide (c.1.2 = q) then g (em_elements c.2) else [].

Definition Collected (cs : list contribution) (a a' : accumulator) : Prop :=
  (∀ q g, tcp_or_udp q → Additive g →
     g (elements_of a' q) = g (elements_of a q) ++ flat_map (part g q) cs)
  ∧ ac_counters a' = ac_counters a ++ flat_map (λ c, em_counters c.2) cs.

Lemma Collected_nil a : Collected [] a a.
Proof. split; intros; cbn; by rewrite app_nil_r. Qed.

Lemma Collected_app cs ds a b c :
  Collected cs a b → Collected ds b c → Collected (cs ++ ds) a c.
Proof.
  intros [H1 H2] [H3 H4]. split.
  - intros q g Hq Hg. by rewrite H3, H1, flat_map_app, app_assoc.
  - by rewrite H4, H2, flat_map_app, app_assoc.
Qed.

Lemma collect_Collected f a p e a' :
  collect a p e = inr a' → tcp_or_udp p ∧ Collected [(f, p, e)] a a'.
Proof.
  unfold collect. case_bool_decide as H1; [|case_bool_decide as H2; [|done]]; intros [= <-];
    (split; [first [by left|by right]|]); (split; [|by cbn; rewrite app_nil_r]);
    intros q g Hq Hg; unfold elements_of, part; cbn [ac_tcp ac_udp flat_map fst snd];
    rewrite app_nil_r; destruct Hq; subst; try done;
    first [apply additive_app|symmetry; apply app_nil_r].
Qed.

Section emissions.
Context (node : string) (policies : gmap string UserPolicySpec)
  (fabrics : gmap string FabricLinkSpec) (now : Time).

(** The traffic class of a forward on this node. *)
Definition class_of (f : ForwardSpec) : string + N :=
  if bool_decide (node = fw_IngressNodeID f)
  then forwardingClass f (default UserPolicySpecZero (policies !! fw_UserID f))
  else inr 0.

Definition emission_of (f : ForwardSpec) (p : Protocol) : string + emission :=
  match class_of f with
  | inl e => inl e
  | inr classID =>
      emit fabrics (bool_decide (node = fw_IngressNodeID f)) classID (EffectiveLifecycle f now) f p
  end.

Definition from_source (c : contribution) : Prop :=
  emission_of c.1.1 c.1.2 = inr c.2 ∧ tcp_or_udp c.1.2.

Lemma compile_forward_inv i f a a' :
  compile_forward node policies fabrics now i f a = inr a' →
  ∃ cs, Collected cs a a' ∧ Forall from_source cs
        ∧ fst <$> cs = pair f <$> fw_Protocols f.
Proof.
  unfold compile_forward. fold (class_of f). destruct (class_of f) as [e|cl] eqn:Ec; [done|].
  intros H. apply (eloop_inv _ (λ done b, ∃ cs, Collected cs a b ∧ Forall from_source cs
    ∧ fst <$> cs = pair f <$> done)) in H; [done| |].
  { exists []. split_and!; [apply Collected_nil|constructor|done]. }
  intros done p b b' _ (cs & Hcs & Hall & Hfst).
  destruct (emit _ _ _ _ f p) as [e|e] eqn:Ee; [done|].
  intros [Hp Hb]%(collect_Collected f). exists (cs ++ [(f, p, e)]). split_and!.
  - by eapply Collected_app.
  - apply Forall_app. split; [done|]. constructor; [|constructor]. split; [|done].
    cbn. unfold emission_of. by rewrite Ec.
  - by rewrite !fmap_app, Hfst.
Qed.

Lemma eloop_forwards_inv l a a' :
  eloop (compile_forward node policies fabrics now) 0 l a = inr a' →
  ∃ cs, Collected cs a a' ∧ Forall from_source cs
        ∧ fst <$> cs = l ≫= (λ f, pair f <$> fw_Protocols f).
Proof.
  intros H. apply (eloop_inv _ (λ done b, ∃ cs, Collected cs a b ∧ Forall from_source cs
    ∧ fst <$> cs = done ≫= (λ f, pair f <$> fw_Protocols f))) in H; [done| |].
  { exists []. split_and!; [apply Collected_nil|constructor|done]. }
  intros done f b b' _ (cs & Hcs & Hall & Hfst) (ds & Hds & Hall' & Hfst')%compile_forward_inv.
  exists (cs ++ ds). split_and!; [by eapply Collected_app|by apply Forall_app|].
  rewrite fmap_app, Hfst, Hfst', bind_app. cbn. by rewrite app_nil_r.
Qed.

(** Every class resolved and every link present: the loop reaches its end. *)
Lemma compile_forward_total i f a :
  Forall tcp_or_udp (fw_Protocols f) → (∃ cl, class_of f = inr cl) →
  (fw_PathMode f = PathViaExit → is_Some (fabrics !! fw_FabricLinkID f)) →
  ∃ a', compile_forward node policies fabrics now i f a = inr a'.
Proof.
  unfold compile_forward. fold (class_of f). intros Hp (cl & ->) Hl.
  generalize 0%nat as j. revert a. induction Hp as [|p l Hp _ IH]; intros a j; cbn [eloop]; [eauto|].
  assert (∃ e, emit fabrics (bool_decide (node = fw_IngressNodeID f)) cl
                 (EffectiveLifecycle f now) f p = inr e) as (e & ->).
  { unfold emit. destruct (bool_decide (fw_PathMode f = PathViaExit)) eqn:Hv; cbn [andb].
    - apply bool_decide_eq_true in Hv. destruct (Hl Hv) as [k ->].
      destruct (match_point _ _), (target_point _ _). rewrite bool_decide_eq_false_2 by done. eauto.
    - destruct (match_point _ _), (target_point _ _). eauto. }
  unfold collect. destruct Hp as [-> | ->]; cbn; apply IH.
Qed.

Lemma compile_forward_class i f a a' :
  compile_forward node policies fabrics now i f a = inr a' → ∃ cl, class_of f = inr cl.
Proof. unfold compile_forward. fold (class_of f). destruct (class_of f); [done|eauto]. Qed.
End emissions.

(** * Lookup keys *)
Section snapshot.
Context (s : DesiredState) (Hv : Valid s) (Hwf : Forall forward_wf (ds_Forwards s)).

Abbreviation node := (ds_NodeID s).

Definition at_node (f : ForwardSpec) : bool := bool_decide (node = fw_IngressNodeID f).
Definition node_key (f : ForwardSpec) : string :=
  element_key (match_point (at_node f) f).1 (match_point (at_node f) f).2.

(** The compiler matches a forward by the listener [Validate] keeps unique. *)
Lemma match_point_forward f :
  f ∈ ds_Forwards s →
  match_point (at_node (canonicalForward f)) (canonicalForward f) = forward_match node f.
Proof using Hv.
  intros Hf. unfold match_point, forward_match, at_node. cbn.
  destruct (bool_decide (fw_PathMode f = PathViaExit)) eqn:Hp; cbn [andb].
  - apply bool_decide_eq_true in Hp.
    destruct (Valid_path_resolved s f Hv Hf Hp) as (Hne & Hends & (vip & x & Hvip & _) & _).
    rewrite Hvip. cbn. rewrite !Unmap_idemp.
    destruct Hends as [He|He]; rewrite He.
    + rewrite bool_decide_eq_true_2 by done. rewrite bool_decide_eq_false_2 by done. done.
    + rewrite bool_decide_eq_false_2 by done. rewrite bool_decide_eq_true_2 by done. done.
  - rewrite Unmap_idemp. by destruct (fw_ServiceVIP f).
Qed.

Lemma valid_forward f :
  f ∈ ds_Forwards s →
  ∃ cidrs links, forward_ok s cidrs links f
    ∧ (∀ id l, links !! id = Some l ↔ l ∈ ds_FabricLinks s ∧ fl_ID l = id).
Proof using Hv.
  intros Hf. apply Valid_cidrs in Hv
    as (cidrs & _ & _ & _ & _ & _ & _ & _ & _ & _ & _ & _ & _ & _ & (links & Hl & Hok) & _).
  rewrite Forall_forall in Hok. eauto.
Qed.

Lemma match_point_v4 f :
  f ∈ ds_Forwards s → is_v4 (match_point (at_node (canonicalForward f)) (canonicalForward f)).1.
Proof using Hv Hwf.
  intros Hf. rewrite match_point_forward by done.
  rewrite Forall_forall in Hwf. destruct (Hwf f Hf) as [Hl Hvip].
  destruct (valid_forward f Hf) as (cidrs & links & Hok & _).
  assert (is_v4 (Addr_Unmap (ep_Address (fw_Listen f)))) as H1.
  { destruct (fo_listen _ _ _ _ Hok) as [n Hn]. unfold validateEndpoint in Hn.
    apply app_nil_iff in Hn as [Hn _]. by eapply validateIPv4_v4. }
  unfold forward_match. destruct (fw_ServiceVIP f) as [vip|] eqn:Ev; [|done].
  case_match eqn:E; [|done]. apply andb_true_iff in E as [Hp _]. apply bool_decide_eq_true in Hp.
  destruct (Valid_path_resolved s f Hv Hf Hp) as (_ & _ & (v & x & Hvx & Hx & _) & _).
  rewrite Ev in Hvx. injection Hvx as <-. cbn. rewrite Hx. exists x. split; [done|].
  eapply Unmap_v4; [|done]. auto.
Qed.

Lemma NoDup_bind_inj {A B} (F : A → list B) (l : list A) x y k :
  NoDup (l ≫= F) → x ∈ l → y ∈ l → k ∈ F x → k ∈ F y → x = y.
Proof.
  induction l as [|z l IH]; cbn; [by intros _ ?%elem_of_nil|].
  intros (_ & Hdis & Hnd)%NoDup_app Hx Hy Hkx Hky.
  apply elem_of_cons in Hx as [->|Hx], Hy as [->|Hy]; [done| | |by apply IH].
  - destruct (Hdis k Hkx). apply list_elem_of_bind. eauto.
  - destruct (Hdis k Hky). apply list_elem_of_bind. eauto.
Qed.

Lemma canonical_protocols f q : q ∈ fw_Protocols (canonicalForward f) ↔ q ∈ fw_Protocols f.
Proof. apply elem_of_sort_slice. Qed.

(** Two forwards with the same key for the same protocol are the same. *)
Lemma keys_of_forwards f g q v w :
  f ∈ ds_Forwards (Canonical s) → g ∈ ds_Forwards (Canonical s) →
  q ∈ fw_Protocols f → q ∈ fw_Protocols g →
  node_key f +:+ " : " +:+ v = node_key g +:+ " : " +:+ w → f = g ∧ v = w.
Proof using Hv Hwf.
  intros (f0 & Hf & ->)%elem_of_canonical_forwards (g0 & Hg & ->)%elem_of_canonical_forwards.
  rewrite !canonical_protocols. intros Hqf Hqg H.
  apply element_inj in H as (Ha & Hp & ->); [|by apply match_point_v4..].
  split; [|done]. f_equal.
  rewrite !match_point_forward in Ha, Hp by done.
  destruct (Valid_cidrs s Hv) as (_ & _ & _ & _ & _ & _ & _ & _ & _ & _ & _ & _ & Hnd & _).
  apply (NoDup_bind_inj (listen_keys node) (ds_Forwards s) f0 g0 (listen_key node f0 q) Hnd Hf Hg).
  - unfold listen_keys. by apply list_elem_of_fmap_2.
  - apply list_elem_of_fmap. exists q. split; [|done].
    unfold listen_key. destruct (forward_match _ f0), (forward_match _ g0). cbn in *. congruence.
Qed.

Lemma node_key_inj f g q :
  f ∈ ds_Forwards (Canonical s) → g ∈ ds_Forwards (Canonical s) →
  q ∈ fw_Protocols f → q ∈ fw_Protocols g → node_key f = node_key g → f = g.
Proof using Hv Hwf.
  intros Hf Hg Hqf Hqg H. eapply (keys_of_forwards f g q "" ""); eauto. by rewrite H.
Qed.

(** * Looking a forward up in a compiled table *)
Context (now : Time) (a : accumulator) (Ha : compile_forwards (Canonical s) now = inr a).

Definition policies : gmap string UserPolicySpec :=
  index_by up_UserID (ds_UserPolicies (Canonical s)).
Definition fabrics : gmap string FabricLinkSpec := index_by fl_ID (ds_FabricLinks (Canonical s)).

Lemma compiled :
  ∃ cs, (∀ q g, tcp_or_udp q → Additive g → g (elements_of a q) = flat_map (part g q) cs)
    ∧ ac_counters a = flat_map (λ c, em_counters c.2) cs
    ∧ Forall (from_source node policies fabrics now) cs
    ∧ fst <$> cs = ds_Forwards (Canonical s) ≫= (λ f, pair f <$> fw_Protocols f).
Proof using Ha.
  apply eloop_forwards_inv in Ha as (cs & [H1 H2] & H3 & H4).
  exists cs. split_and!; try done. intros q g Hq Hg. rewrite H1 by done.
  destruct Hq; subst; cbn; by rewrite additive_nil.
Qed.

(** What one forward contributes, spelt out. *)
Lemma contribution_of f q :
  f ∈ ds_Forwards (Canonical s) → q ∈ fw_Protocols f →
  ∃ e, emission_of node policies fabrics now f q = inr e ∧ tcp_or_udp q.
Proof using Ha.
  intros Hf Hq. destruct compiled as (cs & _ & _ & Hall & Hfst).
  assert ((f, q) ∈ fst <$> cs) as Hin.
  { rewrite Hfst. apply list_elem_of_bind. exists f. split; [by apply list_elem_of_fmap_2|done]. }
  apply list_elem_of_fmap in Hin as ([fq e] & Heq & Hin). cbn in Heq. subst fq.
  rewrite Forall_forall in Hall. apply Hall in Hin as [? ?]. eauto.
Qed.

Lemma elem_of_elements g q x :
  tcp_or_udp q → Additive g →
  x ∈ g (elements_of a q) ↔
  ∃ f e, f ∈ ds_Forwards (Canonical s) ∧ q ∈ fw_Protocols f
         ∧ emission_of node policies fabrics now f q = inr e ∧ x ∈ g (em_elements e).
Proof using Ha.
  intros Hq Hg. destruct compiled as (cs & He & _ & Hall & Hfst). rewrite (He q g Hq Hg).
  rewrite list_elem_of_In, in_flat_map. rewrite Forall_forall in Hall. split.
  - intros ([[f p] e] & Hin & Hx). apply list_elem_of_In in Hin, Hx.
    unfold part in Hx. cbn in Hx. case_bool_decide; [|by apply elem_of_nil in Hx]. subst p.
    exists f, e. destruct (Hall _ Hin) as [Hem _].
    change (emission_of node policies fabrics now f q = inr e) in Hem.
    assert ((f, q) ∈ fst <$> cs) as Hfq by (apply list_elem_of_fmap; by exists (f, q, e)).
    rewrite Hfst in Hfq. apply list_elem_of_bind in Hfq as (f' & Hfq & Hf').
    apply list_elem_of_fmap in Hfq as (q' & [= <- <-] & Hq'). done.
  - intros (f & e & Hf & Hqf & Hem & Hx).
    assert ((f, q) ∈ fst <$> cs) as Hfq.
    { rewrite Hfst. apply list_elem_of_bind. exists f. split; [by apply list_elem_of_fmap_2|done]. }
    apply list_elem_of_fmap in Hfq as ([fq e'] & Heq & Hin). cbn in Heq. subst fq.
    exists (f, q, e'). rewrite <-!list_elem_of_In. split; [done|].
    destruct (Hall _ Hin) as [Hem' _].
    change (emission_of node policies fabrics now f q = inr e') in Hem'. rewrite Hem in Hem'. injection Hem' as <-.
    unfold part. cbn. by rewrite bool_decide_eq_true_2.
Qed.

(** The elements a forward emits, spelt out. *)
Definition forward_link (f : ForwardSpec) : option FabricLinkSpec :=
  if bool_decide (fw_PathMode f = PathViaExit) then fabrics !! fw_FabricLinkID f else None.

Lemma emission_inv f q e :
  emission_of node policies fabrics now f q = inr e →
  let el := em_elements e in
  let map_to v := node_key f +:+ " : " +:+ v in
  let effective := EffectiveLifecycle f now in
  ∃ classID, class_of node policies f = inr classID
  ∧ (fw_PathMode f = PathViaExit → is_Some (forward_link f))
  ∧ managed el = [node_key f]
  ∧ paused el = item (bool_decide (effective = LifecyclePaused)
                      || bool_decide (effective = LifecycleForceDeleting)) (node_key f)
  ∧ draining el = item (bool_decide (effective = LifecycleDraining)) (node_key f)
  ∧ dnatAddresses el = [map_to (Addr_String (target_point (at_node f) f).1)]
  ∧ dnatPorts el = [map_to (show (target_point (at_node f) f).2)]
  ∧ marks el = item (at_node f && negb (classID =? 0))
                 (map_to ("0x" +:+ pad_hex 8 (TrafficMark classID)))
  ∧ routeMarks el = match forward_link f with
                    | Some l => item (negb (at_node f))
                        (map_to ("0x" +:+ pad_hex 8 (Fabric.RoutingMark (fl_RoutingID l))))
                    | None => []
                    end
  ∧ (masquerade el = [node_key f] ∧ snat el = []
     ∨ masquerade el = [] ∧ ∃ v, snat el = [map_to v]).
Proof.
  unfold emission_of. fold (at_node f). destruct (class_of node policies f) as [?|cl] eqn:Ec; [done|].
  unfold emit. fold (forward_link f). intros H. exists cl. split; [done|].
  destruct (bool_decide (fw_PathMode f = PathViaExit)) eqn:Hp;
    cbn [andb] in H; unfold node_key.
  - destruct (forward_link f) as [l|] eqn:El; [|done].
    rewrite bool_decide_eq_false_2 in H by done.
    destruct (match_point (at_node f) f) as [ka kp], (target_point (at_node f) f) as [ta tp].
    injection H as <-. cbn -[element_key pad_hex bool_decide show].
    split_and!; try done. destruct (at_node f); cbn -[bool_decide]; [by eauto|].
    destruct (bool_decide (snat_Mode _ = _)); cbn; [right|left]; eauto.
  - destruct (match_point (at_node f) f) as [ka kp], (target_point (at_node f) f) as [ta tp].
    injection H as <-. cbn -[element_key pad_hex bool_decide show].
    apply bool_decide_eq_false in Hp.
    assert (forward_link f = None) as El by (unfold forward_link; by rewrite bool_decide_eq_false_2).
    rewrite El. split_and!; try done. destruct (at_node f); cbn -[bool_decide];
      destruct (bool_decide (snat_Mode _ = _)); cbn; [right|left|right|left]; eauto.
Qed.

(** A set of keys answers for each forward; a map from keys has each forward's
    value. *)
Lemma lookup_set g (Hg : Additive g) f q :
  (∀ h e, emission_of node policies fabrics now h q = inr e →
     g (em_elements e) = [] ∨ g (em_elements e) = [node_key h]) →
  f ∈ ds_Forwards (Canonical s) → q ∈ fw_Protocols f →
  ∃ e, emission_of node policies fabrics now f q = inr e
       ∧ (node_key f ∈ g (elements_of a q) ↔ g (em_elements e) = [node_key f]).
Proof using Hv Hwf Ha.
  intros Hset Hf Hq. destruct (contribution_of f q Hf Hq) as (e & He & Htu).
  exists e. split; [done|]. rewrite elem_of_elements by done. split.
  - intros (h & e' & Hh & Hqh & He' & Hin). destruct (Hset h e' He') as [Hn|Hn]; rewrite Hn in Hin.
    + by apply elem_of_nil in Hin.
    + apply list_elem_of_singleton in Hin.
      assert (f = h) as -> by by eapply node_key_inj. congruence.
  - intros Hn. exists f, e. split_and!; try done. rewrite Hn. by apply list_elem_of_singleton.
Qed.

Lemma lookup_map g (Hg : Additive g) f q v :
  (∀ h e, emission_of node policies fabrics now h q = inr e →
     g (em_elements e) = [] ∨ ∃ w, g (em_elements e) = [node_key h +:+ " : " +:+ w]) →
  f ∈ ds_Forwards (Canonical s) → q ∈ fw_Protocols f →
  ∃ e, emission_of node policies fabrics now f q = inr e
       ∧ (node_key f +:+ " : " +:+ v ∈ g (elements_of a q) ↔
          g (em_elements e) = [node_key f +:+ " : " +:+ v]).
Proof using Hv Hwf Ha.
  intros Hset Hf Hq. destruct (contribution_of f q Hf Hq) as (e & He & Htu).
  exists e. split; [done|]. rewrite elem_of_elements by done. split.
  - intros (h & e' & Hh & Hqh & He' & Hin). destruct (Hset h e' He') as [Hn|[w Hn]]; rewrite Hn in Hin.
    + by apply elem_of_nil in Hin.
    + apply list_elem_of_singleton in Hin.
      apply (keys_of_forwards f h q) in Hin as [-> ->]; try done. congruence.
  - intros Hn. exists f, e. split_and!; try done. rewrite Hn. by apply list_elem_of_singleton.
Qed.

Lemma item_or b x : item b x = [] ∨ item b x = [x].
Proof. destruct b; cbn; eauto. Qed.

Lemma paused_or_not h q e :
  emission_of node policies fabrics now h q = inr e →
  (∀ g, g ∈ [managed; paused; draining; masquerade] →
     g (em_elements e) = [] ∨ g (em_elements e) = [node_key h])
  ∧ (∀ g, g ∈ [dnatAddresses; dnatPorts; marks; routeMarks; snat] →
     g (em_elements e) = [] ∨ ∃ w, g (em_elements e) = [node_key h +:+ " : " +:+ w]).
Proof.
  intros (cl & _ & _ & H1 & H2 & H3 & H4 & H5 & H6 & H7 & H8)%emission_inv.
  split; intros g; rewrite !elem_of_cons, elem_of_nil; intros Hg;
    destruct_or! Hg; subst g; try done; rewrite ?H1, ?H2, ?H3, ?H4, ?H5, ?H6, ?H7; eauto.
  - apply item_or.
  - apply item_or.
  - destruct H8 as [[-> _]|[-> _]]; eauto.
  - destruct (item_or (at_node h && negb (cl =? 0))
      (node_key h +:+ " : " +:+ "0x" +:+ pad_hex 8 (TrafficMark cl))); eauto.
  - destruct (forward_link h) as [l|]; [|by left]. destruct (item_or (negb (at_node h))
      (node_key h +:+ " : " +:+ "0x" +:+ pad_hex 8 (Fabric.RoutingMark (fl_RoutingID l)))); eauto.
  - destruct H8 as [[_ ->]|(_ & v & ->)]; eauto.
Qed.

(** The verdict of the table on the traffic of one forward. *)
Lemma table_of_forward f q :
  f ∈ ds_Forwards (Canonical s) → q ∈ fw_Protocols f →
  let el := elements_of a q in
  let maps_to v l := node_key f +:+ " : " +:+ v ∈ l in
  (∀ v, maps_to v (dnatAddresses el) ↔ v = Addr_String (target_point (at_node f) f).1)
  ∧ (∀ v, maps_to v (dnatPorts el) ↔ v = show (target_point (at_node f) f).2)
  ∧ (node_key f ∈ paused el ↔
     EffectiveLifecycle f now = LifecyclePaused ∨ EffectiveLifecycle f now = LifecycleForceDeleting)
  ∧ (node_key f ∈ draining el ↔ EffectiveLifecycle f now = LifecycleDraining)
  ∧ (node_key f ∈ masquerade el ↔ ∀ v, ¬ maps_to v (snat el)).
Proof using Hv Hwf Ha.
  intros Hf Hq el maps_to. subst el maps_to. cbn beta.
  destruct (contribution_of f q Hf Hq) as (e & He & _).
  pose proof (emission_inv f q e He)
    as (cl & _ & _ & _ & H2 & H3 & H4 & H5 & _ & _ & H8).
  assert (∀ g, g ∈ [paused; draining; masquerade] → Additive g →
    (node_key f ∈ g (elements_of a q) ↔ g (em_elements e) = [node_key f])) as Hset.
  { intros g Hin Hg. destruct (lookup_set g Hg f q) as (e' & He' & Hiff); [|done..|congruence].
    intros h e0 [H _]%paused_or_not. apply H. by right. }
  assert (∀ g v, g ∈ [dnatAddresses; dnatPorts; marks; routeMarks; snat] → Additive g →
    (node_key f +:+ " : " +:+ v ∈ g (elements_of a q) ↔
     g (em_elements e) = [node_key f +:+ " : " +:+ v])) as Hmap.
  { intros g v Hin Hg. destruct (lookup_map g Hg f q v) as (e' & He' & Hiff); [|done..|congruence].
    intros h e0 [_ H]%paused_or_not. by apply H. }
  assert (∀ x y, [node_key f +:+ " : " +:+ x] = [node_key f +:+ " : " +:+ y] → x = y) as Hinj.
  { intros x y [= H]. eapply (keys_of_forwards f f q); eauto. }
  split_and!.
  - intros v. rewrite Hmap by (done || set_solver). rewrite H4. split; [by intros ->%Hinj|by intros ->].
  - intros v. rewrite Hmap by (done || set_solver). rewrite H5. split; [by intros ->%Hinj|by intros ->].
  - rewrite Hset by (done || set_solver). rewrite H2. unfold item.
    destruct (bool_decide (_ = LifecyclePaused)) eqn:E1; reflect_bool; cbn [orb]; [naive_solver|].
    destruct (bool_decide (_ = LifecycleForceDeleting)) eqn:E2; reflect_bool; naive_solver.
  - rewrite Hset by (done || set_solver). rewrite H3. unfold item. case_bool_decide; naive_solver.
  - rewrite Hset by (done || set_solver). setoid_rewrite Hmap; [|set_solver|done].
    destruct H8 as [[-> ->]|(-> & v & ->)]; [naive_solver|]. split; [done|]. intros H. by destruct (H v).
Qed.
End snapshot.


Definition sample_checksum : string := default "" (Checksum sample_state).
Definition sample_program : string + Program := CompileAt sample_state sample_checksum false 600%Z.


(** Every limit that applies at this ingress has a class. *)
Definition classes_allocated (s : DesiredState) : Prop :=
  ∀ f, f ∈ ds_Forwards s → ds_NodeID s = fw_IngressNodeID f →
  if bool_decide (is_Some (fw_RateLimit f)) then fw_TrafficClassID f ≠ 0
  else ∀ u, u ∈ ds_UserPolicies s → up_UserID u = fw_UserID f →
            is_Some (up_RateLimit u) → up_TrafficClassID u ≠ 0.

Lemma policies_lookup s userID u :
  Valid s → policies s !! userID = Some u ↔ u ∈ ds_UserPolicies s ∧ up_UserID u = userID.
Proof.
  intros (_ & _ & _ & _ & _ & _ & _ & _ & _ & Hu & _)%Valid_cidrs. unfold policies.
  rewrite index_by_NoDup by by rewrite canonical_policy_users.
  by rewrite elem_of_canonical_policies.
Qed.

Lemma fabrics_lookup s id l :
  Valid s → fabrics s !! id = Some l ↔ l ∈ ds_FabricLinks (Canonical s) ∧ fl_ID l = id.
Proof.
  intros (_ & _ & _ & _ & Hl & _)%Valid_cidrs. unfold fabrics.
  by rewrite index_by_NoDup by by rewrite canonical_link_ids.
Qed.

Lemma forwardingClass_ok f user :
  (∃ cl, forwardingClass f user = inr cl) ↔
  if bool_decide (is_Some (fw_RateLimit f)) then fw_TrafficClassID f ≠ 0
  else is_Some (up_RateLimit user) → up_TrafficClassID user ≠ 0.
Proof.
  unfold forwardingClass. case_bool_decide.
  - case_match eqn:E; reflect_bool; naive_solver.
  - case_bool_decide; [|naive_solver]. case_match eqn:E; reflect_bool; naive_solver.
Qed.

Lemma class_of_allocated s :
  Valid s →
  classes_allocated s ↔
  ∀ f, f ∈ ds_Forwards (Canonical s) → ∃ cl, class_of (ds_NodeID s) (policies s) f = inr cl.
Proof.
  intros Hv. unfold classes_allocated.
  assert (∀ f, f ∈ ds_Forwards s →
    (ds_NodeID s = fw_IngressNodeID f →
     if bool_decide (is_Some (fw_RateLimit f)) then fw_TrafficClassID f ≠ 0
     else ∀ u, u ∈ ds_UserPolicies s → up_UserID u = fw_UserID f →
               is_Some (up_RateLimit u) → up_TrafficClassID u ≠ 0) ↔
    ∃ cl, class_of (ds_NodeID s) (policies s) (canonicalForward f) = inr cl) as H.
  { intros f Hf. unfold class_of. cbn [fw_IngressNodeID canonicalForward fw_UserID].
    destruct (bool_decide (ds_NodeID s = fw_IngressNodeID f)) eqn:Hn; reflect_bool;
      [|split; [by eauto|by intros _ ?]].
    rewrite forwardingClass_ok. cbn [fw_RateLimit canonicalForward fw_TrafficClassID].
    destruct (bool_decide (is_Some (fw_RateLimit f))); [naive_solver|].
    destruct (policies s !! fw_UserID f) as [u|] eqn:Eu; cbn [default].
    - apply policies_lookup in Eu as [Hu Huid]; [|done]. split; [naive_solver|].
      intros H1 _ u' Hu' Hid'. assert (u' = u) as ->; [|done].
      assert (policies s !! fw_UserID f = Some u) as E1 by by apply policies_lookup.
      assert (policies s !! fw_UserID f = Some u') as E2 by by apply policies_lookup.
      congruence.
    - split; [by intros _ [? [=]]|]. intros _ _ u' Hu' Hid' _ _.
      assert (policies s !! fw_UserID f = Some u') by by apply policies_lookup. congruence. }
  setoid_rewrite elem_of_canonical_forwards. split.
  - intros Hall f (g & Hg & ->). apply (H g Hg). exact (Hall g Hg).
  - intros Hall f Hf. apply (H f Hf). eauto.
Qed.


