(* ===== verification/TcFacts.v ===== *)
(** The shaper against the snapshot it is compiled from: which classes there
    are, and that the marks of the nftables table lead to one. *)
From S2P Require Import Prelude.
From S2P Require Import GoNet.
From S2P Require Import SpecTypes.
From S2P Require Import SpecCanonical.
From S2P Require Import SpecValidate.
From S2P Require Import SpecSamples.
From S2P Require Import SpecFacts.
From S2P Require Import SpecTheorems.
From S2P Require Import NftCompiler.
From S2P Require Import TcCompiler.
From S2P Require Import DataplaneFacts.
From S2P Require Import NftFacts.

Import Tc.

(** * Lists of optional elements *)
Lemma flat_map_sublist {A B K} (F : A → list B) (g : B → K) (h : A → K) l :
  (∀ x, F x = [] ∨ ∃ k, F x = [k] ∧ g k = h x) → g <$> flat_map F l `sublist_of` h <$> l.
Proof.
  intros HF. induction l as [|x l IH]; [done|]. cbn.
  destruct (HF x) as [->|(k & -> & Hk)]; cbn; [by apply sublist_cons|].
  rewrite Hk. by apply sublist_skip.
Qed.

Lemma sublist_NoDup {A} (P : A → Prop) `{∀ x, Decision (P x)} (l k : list A) :
  l `sublist_of` k → Forall P l → NoDup (filter P k) → NoDup l.
Proof.
  induction 1 as [|x l k Hl IH|x l k Hl IH]; intros HP; [constructor|..].
  - inversion HP as [|? ? Hx HP' Heq]; subst. rewrite filter_cons_True by done.
    intros [Hn Hnd]%NoDup_cons. constructor; [|by apply IH]. intros Hin. apply Hn.
    apply list_elem_of_filter. split; [done|]. by eapply elem_of_sublist.
  - destruct (decide (P x)); [rewrite filter_cons_True by done|rewrite filter_cons_False by done].
    + intros [_ Hnd]%NoDup_cons. auto.
    + auto.
Qed.

Lemma first_seen_elem seen l x : x ∈ first_seen seen l ↔ x ∈ l ∧ x ∉ seen.
Proof.
  revert seen. induction l as [|y l IH]; intros seen; cbn; [set_solver|].
  case_bool_decide as Hy.
  - rewrite IH, elem_of_cons. split; [tauto|]. intros [[->|?] ?]; tauto.
  - rewrite !elem_of_cons, IH, elem_of_cons. destruct (decide (x = y)) as [->|]; tauto.
Qed.

(** * The classes of one direction *)
Definition class_id (k : class) : N := cl_ClassID (k_binding k).

Section direction.
Context (s : DesiredState) (Hv : Valid s).

Abbreviation canonical := (Canonical s).
Abbreviation users := (policies s).

Context (Hres : unresolved canonical = None).
Context (direction : TrafficDirection) (device : string) (capacity : N) (Hcap : 0 < capacity).

Abbreviation classes := (direction_classes canonical users direction device capacity).
Abbreviation ingressUsers :=
  (fw_UserID <$> filter (λ f, at_ingress canonical f = true) (ds_Forwards canonical)).

Lemma resolved_policy p :
  p ∈ ds_UserPolicies canonical → up_UserID p ∈ ingressUsers → is_Some (up_RateLimit p) →
  up_TrafficClassID p ≠ 0.
Proof using Hres.
  intros Hp Hu Hl H0. unfold unresolved in Hres.
  destruct (list_find _ (ds_UserPolicies canonical)) as [[i q]|] eqn:E; [done|].
  apply list_find_None in E. rewrite Forall_forall in E. apply (E p Hp).
  unfold has_limit. rewrite !bool_decide_eq_true_2 by done. rewrite H0. done.
Qed.

Lemma resolved_forward f :
  f ∈ ds_Forwards canonical → at_ingress canonical f = true → is_Some (fw_RateLimit f) →
  fw_TrafficClassID f ≠ 0.
Proof using Hres.
  intros Hp Hu Hl H0. unfold unresolved in Hres.
  destruct (list_find _ (ds_UserPolicies canonical)) as [[i q]|]; [done|].
  destruct (list_find _ (ds_Forwards canonical)) as [[i q]|] eqn:E; [done|].
  apply list_find_None in E. rewrite Forall_forall in E. apply (E f Hp).
  unfold has_limit. rewrite Hu, bool_decide_eq_true_2 by done. rewrite H0. done.
Qed.

Lemma directionRate_limit l : (directionRate l direction).1 ≠ 0 → is_Some l.
Proof. destruct l; cbn; [eauto|done]. Qed.

(** The class of a policy, and of a forward, in one form. *)
Lemma policy_class_or p :
  policy_class ingressUsers direction device capacity p = []
  ∨ ∃ rate burst, up_UserID p ∈ ingressUsers
      ∧ (directionRate (up_RateLimit p) direction) = (rate, burst) ∧ rate ≠ 0
      ∧ policy_class ingressUsers direction device capacity p
        = [MkClass 1 (MkClassBinding device (up_TrafficClassID p) (N.min rate capacity)) burst].
Proof.
  unfold policy_class. case_bool_decide as Hu; cbn [negb]; [|by left].
  destruct (directionRate (up_RateLimit p) direction) as [rate burst].
  destruct (rate =? 0) eqn:E; [by left|]. reflect_bool. right. eauto 6.
Qed.

Lemma forward_class_or f :
  forward_class canonical users direction device capacity f = []
  ∨ ∃ rate burst parent, at_ingress canonical f = true ∧ is_Some (fw_RateLimit f) ∧ rate ≠ 0
      ∧ (parent = 1 ∨ parent = up_TrafficClassID (user_of users (fw_UserID f))
         ∧ (directionRate (up_RateLimit (user_of users (fw_UserID f))) direction).1 ≠ 0)
      ∧ forward_class canonical users direction device capacity f
        = [MkClass parent (MkClassBinding device (fw_TrafficClassID f) (N.min rate capacity)) burst].
Proof.
  unfold forward_class, has_limit. destruct (at_ingress canonical f) eqn:Hi; cbn [negb orb]; [|by left].
  case_bool_decide as Hl; cbn [negb]; [|by left].
  destruct (directionRate (fw_RateLimit f) direction) as [r b].
  destruct (directionRate (up_RateLimit _) direction) as [ur ub]. cbn [fst].
  destruct (ur =? 0) eqn:Eur; cbn [negb andb].
  - destruct (r =? 0) eqn:Er; [by left|]. reflect_bool. right. exists r, b, 1. split_and!; eauto.
  - reflect_bool. right. destruct (r =? 0) eqn:Er; reflect_bool.
    + apply N.eqb_neq in Eur as Eur'. rewrite Eur'. eexists _, _, _. split_and!; try done; eauto.
    + eexists _, _, _. apply N.eqb_neq in Er as Er'. rewrite Er'. split_and!; try done; eauto.
Qed.

Lemma elem_of_classes k :
  k ∈ classes ↔
  (∃ p, p ∈ ds_UserPolicies canonical ∧ k ∈ policy_class ingressUsers direction device capacity p)
  ∨ (∃ f, f ∈ ds_Forwards canonical ∧ k ∈ forward_class canonical users direction device capacity f).
Proof.
  unfold direction_classes. rewrite elem_of_app, !list_elem_of_In, !in_flat_map.
  setoid_rewrite <-list_elem_of_In. done.
Qed.

(** Every class is on the device, within its capacity, and allocated. *)
Lemma class_bounds k :
  k ∈ classes →
  cl_Interface (k_binding k) = device ∧ 0 < cl_Rate (k_binding k) ≤ capacity ∧ class_id k ≠ 0.
Proof using Hres Hcap.
  rewrite elem_of_classes. intros [(p & Hp & Hk)|(f & Hf & Hk)].
  - destruct (policy_class_or p) as [E|(rate & burst & Hu & Hr & Hr0 & E)]; rewrite E in Hk;
      [by apply elem_of_nil in Hk|]. apply list_elem_of_singleton in Hk as ->. cbn.
    split_and!; [done|lia|lia|]. apply resolved_policy; [done..|].
    apply directionRate_limit. by rewrite Hr.
  - destruct (forward_class_or f) as [E|(rate & burst & parent & Hi & Hl & Hr & _ & E)];
      rewrite E in Hk; [by apply elem_of_nil in Hk|]. apply list_elem_of_singleton in Hk as ->. cbn.
    split_and!; [done|lia|lia|]. by apply resolved_forward.
Qed.

(** No class is added twice. *)
Lemma classes_NoDup : NoDup (class_id <$> classes).
Proof using Hv Hres Hcap.
  apply (sublist_NoDup (λ c, c ≠ 0) _
    ((up_TrafficClassID <$> ds_UserPolicies canonical) ++ (fw_TrafficClassID <$> ds_Forwards canonical))).
  - unfold direction_classes. rewrite fmap_app. apply sublist_app.
    + apply flat_map_sublist. intros p.
      destruct (policy_class_or p) as [->|(? & ? & _ & _ & _ & ->)]; eauto.
    + apply flat_map_sublist. intros f.
      destruct (forward_class_or f) as [->|(? & ? & ? & _ & _ & _ & _ & ->)]; eauto.
  - apply Forall_forall. intros c (k & -> & Hk)%list_elem_of_fmap. by apply class_bounds.
  - destruct (Valid_cidrs s Hv) as (_ & _ & _ & _ & _ & _ & _ & _ & _ & _ & _ & _ & _ & (o & Ho) & _).
    destruct Ho as (Hnd & _). unfold nonzero in Hnd.
    assert ((up_TrafficClassID <$> ds_UserPolicies canonical)
      ++ (fw_TrafficClassID <$> ds_Forwards canonical)
      ≡ₚ (up_TrafficClassID <$> ds_UserPolicies s) ++ (fw_TrafficClassID <$> ds_Forwards s)) as ->.
    { cbn -[sort_slice]. rewrite !sort_slice_perm, <-list_fmap_compose. done. }
    exact Hnd.
Qed.

Lemma app_cons_after {A} (P F pre post : list A) k :
  P ++ F = pre ++ k :: post → k ∉ P → ∃ m, pre = P ++ m.
Proof.
  revert pre. induction P as [|x P IH]; intros pre H Hk; [by exists pre|].
  apply not_elem_of_cons in Hk as [Hx Hk]. destruct pre as [|y pre]; cbn in H.
  - by injection H as -> _.
  - injection H as -> H. destruct (IH pre H Hk) as [m ->]. by exists m.
Qed.

(** The user a forward names, if it is limited at all. *)
Lemma limited_user f :
  f ∈ ds_Forwards canonical → at_ingress canonical f = true →
  is_Some (up_RateLimit (user_of users (fw_UserID f))) →
  user_of users (fw_UserID f) ∈ ds_UserPolicies canonical
  ∧ up_UserID (user_of users (fw_UserID f)) ∈ ingressUsers.
Proof using Hv.
  intros Hf Hi Hl. unfold user_of in *.
  destruct (users !! fw_UserID f) as [u|] eqn:Eu; cbn [from_option id] in *; [|by destruct Hl].
  apply policies_lookup in Eu as [Hu Hid]; [|done]. split; [by apply elem_of_canonical_policies|].
  rewrite Hid. apply list_elem_of_fmap_2. by apply list_elem_of_filter.
Qed.

Lemma limited_user_class u :
  u ∈ ds_UserPolicies canonical → up_UserID u ∈ ingressUsers →
  (directionRate (up_RateLimit u) direction).1 ≠ 0 →
  ∃ k, k ∈ flat_map (policy_class ingressUsers direction device capacity) (ds_UserPolicies canonical)
       ∧ class_id k = up_TrafficClassID u.
Proof.
  intros Hu Hin Hr. destruct (policy_class_or u) as [E|(rate & burst & _ & _ & _ & E)].
  - exfalso. unfold policy_class in E. rewrite bool_decide_eq_true_2 in E by done.
    destruct (directionRate _ _) as [r b]. cbn in Hr, E. by rewrite (proj2 (N.eqb_neq r 0) Hr) in E.
  - exists (MkClass 1 (MkClassBinding device (up_TrafficClassID u) (N.min rate capacity)) burst).
    split; [|reflexivity]. apply list_elem_of_In, in_flat_map. exists u.
    rewrite <-!list_elem_of_In, E. split; [done|]. by apply list_elem_of_singleton.
Qed.

(** A parent is the root class or a class added before. *)
Lemma parents_first pre k post :
  classes = pre ++ k :: post → k_parent k = 1 ∨ k_parent k ∈ class_id <$> pre.
Proof using Hv.
  intros Hc. assert (k ∈ classes) as Hk by (rewrite Hc; apply elem_of_app; right; left).
  assert (∀ p, k ∈ policy_class ingressUsers direction device capacity p → k_parent k = 1) as HP.
  { intros p. destruct (policy_class_or p) as [->|(? & ? & _ & _ & _ & ->)];
      [by intros ?%elem_of_nil|]. by intros ->%list_elem_of_singleton. }
  destruct (decide (k_parent k = 1)) as [|Hne]; [by left|]. right.
  apply elem_of_classes in Hk as [(p & _ & Hk)|(f & Hf & Hk)]; [by apply HP in Hk|].
  destruct (forward_class_or f) as [E|(rate & burst & parent & Hi & Hl & Hr & Hpar & E)];
    rewrite E in Hk; [by apply elem_of_nil in Hk|]. apply list_elem_of_singleton in Hk.
  destruct Hpar as [-> |[-> Hur]]; [by rewrite Hk in Hne|].
  destruct (limited_user f Hf Hi (directionRate_limit _ Hur)) as [Hu Hin].
  destruct (limited_user_class _ Hu Hin Hur) as (k' & Hk' & Hid).
  unfold direction_classes in Hc. apply app_cons_after in Hc as [m ->].
  - rewrite Hk. cbn [k_parent]. rewrite <-Hid. apply list_elem_of_fmap_2, elem_of_app. by left.
  - intros Hin'. apply list_elem_of_In, in_flat_map in Hin' as (p & _ & Hp).
    apply list_elem_of_In, HP in Hp. done.
Qed.

(** A forward limited in this direction has its class. *)
Lemma class_of_limited f :
  f ∈ ds_Forwards canonical → at_ingress canonical f = true →
  (effectiveDirectionRate f (user_of users (fw_UserID f)) direction).1 ≠ 0 →
  classForForward f (user_of users (fw_UserID f)) ∈ class_id <$> classes.
Proof using Hv.
  intros Hf Hi. unfold effectiveDirectionRate, classForForward, has_limit. intros Hr.
  case_bool_decide as Hl.
  - destruct (forward_class_or f) as [E|(rate & burst & parent & _ & _ & _ & _ & E)].
    + exfalso. revert E Hr. unfold forward_class, has_limit.
      rewrite Hi, bool_decide_eq_true_2 by done. cbn [negb orb].
      destruct (directionRate (fw_RateLimit f) direction) as [r b].
      destruct (directionRate (up_RateLimit _) direction) as [ur ub]. cbn [fst].
      destruct (r =? 0) eqn:Er; cbn [negb andb fst];
        destruct (ur =? 0) eqn:Eur; cbn [negb andb]; rewrite ?Er, ?Eur; try done.
      reflect_bool. intros _ Hn. by destruct Hn.
    + apply list_elem_of_fmap.
      exists (MkClass parent (MkClassBinding device (fw_TrafficClassID f) (N.min rate capacity)) burst).
      split; [reflexivity|]. apply elem_of_classes. right. exists f. split; [done|].
      rewrite E. by apply list_elem_of_singleton.
  - assert (fw_RateLimit f = None) as Hn by (destruct (fw_RateLimit f); [by destruct Hl|done]).
    rewrite Hn in Hr. cbn in Hr. pose proof (directionRate_limit _ Hr) as Hul.
    destruct (limited_user f Hf Hi Hul) as [Hu Hin].
    destruct (limited_user_class _ Hu Hin Hr) as (k & Hk & <-).
    apply list_elem_of_fmap_2. unfold direction_classes. apply elem_of_app. by left.
Qed.

(** The mark the nftables table puts on it names that class. *)
Lemma marked_class f :
  f ∈ ds_Forwards canonical → at_ingress canonical f = true →
  (effectiveDirectionRate f (user_of users (fw_UserID f)) direction).1 ≠ 0 →
  class_of (ds_NodeID s) users f = inr (classForForward f (user_of users (fw_UserID f))).
Proof using Hv Hres.
  intros Hf Hi Hr. unfold class_of. assert (fw_IngressNodeID f = ds_NodeID s) as Hi' by by apply bool_decide_eq_true in Hi.
  rewrite bool_decide_eq_true_2 by done. fold (user_of users (fw_UserID f)).
  unfold Nft.forwardingClass, classForForward, has_limit.
  destruct (bool_decide (is_Some (fw_RateLimit f))) eqn:Hl; reflect_bool.
  - rewrite (proj2 (N.eqb_neq _ _)); [done|]. apply resolved_forward; [done|done|]. by destruct Hl.
  - assert (fw_RateLimit f = None) as Hn by (destruct (fw_RateLimit f); [by destruct Hl|done]).
    unfold effectiveDirectionRate in Hr. rewrite Hn in Hr. cbn in Hr.
    pose proof (directionRate_limit _ Hr) as Hul. rewrite bool_decide_eq_true_2 by done.
    destruct (limited_user f Hf Hi Hul) as [Hu Hin].
    rewrite (proj2 (N.eqb_neq _ _)); [done|]. apply resolved_policy; done.
Qed.
End direction.

Definition binding_key (b : ClassBinding) : string * N := (cl_Interface b, cl_ClassID b).

(** The two devices of a configuration, with the direction each one shapes. *)
Definition shaped_by (config : Config) (direction : TrafficDirection) (device : string)
    (capacity : N) : Prop :=
  direction = DirectionDownload ∧ device = cf_PublicInterface config
    ∧ capacity = cf_DownloadLinkBitsPerSecond config
  ∨ direction = DirectionUpload ∧ device = cf_IFBInterface config
    ∧ capacity = cf_UploadLinkBitsPerSecond config.

Lemma binding_keys_NoDup device (l : list class) :
  (∀ k, k ∈ l → cl_Interface (k_binding k) = device) → NoDup (class_id <$> l) →
  NoDup (binding_key <$> (k_binding <$> l)).
Proof.
  intros Hd Hnd. rewrite <-list_fmap_compose.
  assert (binding_key ∘ k_binding <$> l = pair device <$> (class_id <$> l)) as ->.
  { rewrite <-list_fmap_compose. apply list_fmap_ext. intros i k Hk%list_elem_of_lookup_2.
    cbn. unfold binding_key. by rewrite (Hd k Hk). }
  apply NoDup_fmap_2; [by intros x y [= ->]|done].
Qed.

(** C33. The shaper of an accepted snapshot: no class is added twice, every
    class has a positive rate within its device's link capacity, and a forward
    whose effective rate in some direction is limited has a class on the device
    of that direction, the very class the nftables table marks it with. *)
Theorem Compile_classes config s d p :
  Compile config s d = inr p → tp_Active p = true →
  NoDup (binding_key <$> tp_ExpectedClasses p)
  ∧ (∀ b, b ∈ tp_ExpectedClasses p → ∃ direction capacity,
       shaped_by config direction (cl_Interface b) capacity
       ∧ 0 < cl_Rate b ≤ capacity ∧ cl_ClassID b ≠ 0)
  ∧ (∀ f direction device capacity,
       shaped_by config direction device capacity →
       f ∈ ds_Forwards (Canonical s) → fw_IngressNodeID f = ds_NodeID s →
       (effectiveDirectionRate f (user_of (policies s) (fw_UserID f)) direction).1 ≠ 0 →
       ∃ classID, class_of (ds_NodeID s) (policies s) f = inr classID
                  ∧ (device, classID) ∈ binding_key <$> tp_ExpectedClasses p).
Proof.
  unfold Compile. destruct (Validate s) as [|e l] eqn:Hv; [|done].
  destruct (negb (hasRateLimits s)); [by intros [= <-]|].
  destruct (validateConfig config) eqn:Hcfg; [done|].
  destruct (unresolved (Canonical s)) eqn:Hres; [done|].
  unfold writeDirectionClasses. cbn beta zeta iota. fold (policies s).
  intros [= <-] _. cbn [tp_ExpectedClasses]. fold (policies s).
  set (dev := λ dir device cap, direction_classes (Canonical s) (policies s) dir device cap).
  unfold validateConfig in Hcfg.
  destruct (_ || _ || _) eqn:Ei in Hcfg; [done|]. destruct (_ || _) eqn:Ec in Hcfg; [done|].
  reflect_bool.
  pose proof (class_bounds s Hres DirectionDownload (cf_PublicInterface config)
    (cf_DownloadLinkBitsPerSecond config) ltac:(lia)) as Hdown.
  pose proof (class_bounds s Hres DirectionUpload (cf_IFBInterface config)
    (cf_UploadLinkBitsPerSecond config) ltac:(lia)) as Hup.
  split_and!.
  - rewrite sort_slice_perm, fmap_app. apply NoDup_app. split_and!.
    + eapply binding_keys_NoDup; [intros k Hk; by apply Hdown|]. apply classes_NoDup; [done..|lia].
    + intros x (b & -> & (k & -> & Hk)%list_elem_of_fmap)%list_elem_of_fmap
        (b' & Heq & (k' & -> & Hk')%list_elem_of_fmap)%list_elem_of_fmap.
      apply (f_equal fst) in Heq. cbn in Heq.
      rewrite (proj1 (Hdown k Hk)), (proj1 (Hup k' Hk')) in Heq. done.
    + eapply binding_keys_NoDup; [intros k Hk; by apply Hup|]. apply classes_NoDup; [done..|lia].
  - intros b. rewrite elem_of_sort_slice, elem_of_app.
    intros [(k & -> & Hk)%list_elem_of_fmap|(k & -> & Hk)%list_elem_of_fmap].
    + apply Hdown in Hk as (-> & Hr & Hc). exists DirectionDownload, (cf_DownloadLinkBitsPerSecond config).
      split_and!; try done; try lia. left. done.
    + apply Hup in Hk as (-> & Hr & Hc). exists DirectionUpload, (cf_UploadLinkBitsPerSecond config).
      split_and!; try done; try lia. right. done.
  - intros f direction device capacity Hsh Hf Hi Hr.
    assert (at_ingress (Canonical s) f = true) as Hat by by apply bool_decide_eq_true.
    exists (classForForward f (user_of (policies s) (fw_UserID f))).
    split; [by eapply marked_class|].
    rewrite sort_slice_perm, fmap_app, elem_of_app.
    destruct Hsh as [(-> & -> & ->)|(-> & -> & ->)]; [left|right];
      eapply class_of_limited in Hr as (k & Hid & Hk)%list_elem_of_fmap; try done;
      apply list_elem_of_fmap; exists (k_binding k); rewrite Hid;
      (split; [unfold binding_key; f_equal|by apply list_elem_of_fmap_2]);
      symmetry; [by apply Hdown|by apply Hup].
Qed.

Definition sample_tc : Tc.Config := Tc.Build_Config "eth0" "ifb0" 1500000 100000000 true.

Lemma Compile_classes_witness :
  ∃ p classID, Compile sample_tc sample_state "" = inr p
  ∧ class_of "node-a" (policies sample_state) (canonicalForward sample_forward) = inr classID
  ∧ ("eth0", classID) ∈ binding_key <$> tp_ExpectedClasses p.
Proof.
  assert (match Compile sample_tc sample_state "" with inl _ => false | inr p => tp_Active p end = true)
    as Hok by (vm_compute; reflexivity).
  destruct (Compile sample_tc sample_state "") as [e|p] eqn:E; [discriminate|].
  destruct (Compile_classes sample_tc sample_state "" p E Hok) as (_ & _ & H).
  destruct (H (canonicalForward sample_forward) DirectionDownload "eth0" 100000000)
    as (cl & Hcl & Hb).
  { left. repeat split. }
  { apply elem_of_canonical_forwards. exists sample_forward. split; [left|reflexivity]. }
  { reflexivity. }
  { vm_compute. discriminate. }
  exists p, cl. split; [reflexivity|]. split; [exact Hcl|exact Hb].
Defined.

Example tc_sample :
  match Compile sample_tc sample_state "" with
  | inl _ => []
  | inr p => map (λ c, (cl_Interface c, cl_ClassID c, cl_Rate c)) (tp_ExpectedClasses p)
  end = [("eth0", 16, 2000000); ("eth0", 17, 2000000); ("ifb0", 16, 1000000); ("ifb0", 17, 500000)].
Proof. vm_compute. reflexivity. Qed.
