(* ===== verification/FabricFacts.v ===== *)
(** The fabric plan against the snapshot it is compiled from: every cross-node
    forward has the route, rule and allowed address its end needs, and the
    nftables table marks its replies for that rule. *)
From S2P Require Import Prelude.
From S2P Require Import GoNet.
From S2P Require Import GoCrypto.
From S2P Require Import NetFacts.
From S2P Require Import SpecTypes.
From S2P Require Import SpecCanonical.
From S2P Require Import SpecValidate.
From S2P Require Import SpecSamples.
From S2P Require Import SpecFacts.
From S2P Require Import SpecTheorems.
From S2P Require Import SpecChecksum.
From S2P Require Import FabricCompiler.
From S2P Require Import NftCompiler.
From S2P Require Import TcCompiler.
From S2P Require Import DataplaneFacts.
From S2P Require Import NftFacts.

Import Fabric.

(** * Marks, tables and priorities *)
(** The reply rule of the table accepts the mark. *)
Lemma RoutingMark_masked r : r < 2 ^ 16 → N.land (RoutingMark r) RoutingMarkMask = RoutingMarkPrefix.
Proof.
  intros Hr. unfold RoutingMark. rewrite N.land_lor_distr_l.
  replace (N.land r RoutingMarkMask) with 0; [reflexivity|]. symmetry. apply N.bits_inj_0. intros n.
  rewrite N.land_spec. destruct (decide (n < 16)) as [Hn|Hn].
  - unfold RoutingMarkMask. replace 4294901760 with (65535 * 2 ^ 16) by reflexivity.
    by rewrite <-N.shiftl_mul_pow2, N.shiftl_spec_low, andb_false_r.
  - replace r with (r mod 2 ^ 16) by by apply N.mod_small.
    by rewrite N.mod_pow2_bits_high by lia.
Qed.

Lemma RouteTable_inj r q : r < 2 ^ 16 → q < 2 ^ 16 → RouteTable r = RouteTable q → r = q.
Proof. unfold RouteTable, RouteTableBase. intros ??. rewrite !uadd_small by lia. lia. Qed.

Lemma RulePriority_inj r q : r < 2 ^ 16 → q < 2 ^ 16 → RulePriority r = RulePriority q → r = q.
Proof. unfold RulePriority, RulePriorityBase. intros ??. rewrite !uadd_small by lia. lia. Qed.

(** * Route keys *)
Definition no_bar (s : string) : Prop := "|"%char ∉ chars s.

Lemma bar_inj s1 t1 s2 t2 :
  no_bar s1 → no_bar s2 → s1 +:+ "|" +:+ t1 = s2 +:+ "|" +:+ t2 → s1 = s2 ∧ t1 = t2.
Proof.
  intros H1 H2 H%(f_equal chars). rewrite !chars_app in H.
  apply app_cons_inj in H as [Ha Hb]; [|done..]. split; by apply chars_inj.
Qed.

Lemma no_bar_number w n : no_bar (pad_zeros w (show n)).
Proof.
  unfold no_bar, pad_zeros. rewrite chars_app, chars_of_chars. intros [H|H]%elem_of_app.
  - by apply elem_of_replicate in H as [? _].
  - pose proof (digit_chars n) as Hd. rewrite forallb_forall in Hd.
    by apply list_elem_of_In, Hd in H.
Qed.

Lemma no_bar_prefix p : prefix_v4 p → no_bar (Prefix_String p).
Proof.
  intros (x & k & -> & Hx & Hk). unfold no_bar, Prefix_String, Prefix_IsValid. cbn -[show].
  rewrite (proj2 (Z.leb_le _ _)) by lia. rewrite !chars_app. intros [H|[H|H]%elem_of_app]%elem_of_app.
  - revert H. apply not_address_char; [apply address_chars|done].
  - by apply list_elem_of_singleton in H.
  - pose proof (digit_chars (Z.to_N (Z.of_N k))) as Hd. rewrite forallb_forall in Hd.
    by apply list_elem_of_In, Hd in H.
Qed.

(** The routes of a plan. *)
Definition route_ok (r : RoutePlan) : Prop :=
  prefix_v4 (rt_Destination r) ∧ no_bar (rt_Interface r)
  ∧ match rt_Gateway r with Some g => is_v4 g | None => True end
  ∧ rt_Protocol r = RouteProtocol.

Lemma show_v4_nonempty b : show_v4 b ≠ "".
Proof.
  unfold show_v4. intros H%(f_equal chars). rewrite chars_app in H.
  apply app_nil in H as [H _]. by apply show_nonempty in H.
Qed.

Lemma routeKey_inj r q : route_ok r → route_ok q → routeKey r = routeKey q → r = q.
Proof.
  intros (Hd & Hi & Hg & Hp) (Hd' & Hi' & Hg' & Hp'). unfold routeKey.
  intros (H1 & (H2 & (H3 & H4)%bar_inj)%bar_inj)%bar_inj;
    try apply no_bar_number; try (by apply no_bar_prefix); try done.
  apply pad_zeros_show_inj in H1. apply Prefix_String_inj in H2; [|done..].
  destruct r as [d i g t p], q as [d' i' g' t' p']. cbn in *. subst. f_equal.
  destruct g as [g|], g' as [g'|]; try done.
  - f_equal. by apply Addr_String_v4_inj.
  - destruct Hg as (b & -> & _). rewrite String_v4 in H4. by apply show_v4_nonempty in H4.
  - destruct Hg' as (b & -> & _). rewrite String_v4 in H4. symmetry in H4.
    by apply show_v4_nonempty in H4.
Qed.

(** * Links by identifier *)
Lemma link_index_snoc links l :
  link_index (links ++ [l]) = <[fl_ID l := length links]> (link_index links).
Proof. unfold link_index. rewrite imap_app, foldl_app. cbn. by rewrite Nat.add_0_r. Qed.

Lemma link_index_lookup links id i :
  link_index links !! id = Some i → ∃ l, links !! i = Some l ∧ fl_ID l = id.
Proof.
  induction links as [|l links IH] using rev_ind; [done|]. rewrite link_index_snoc.
  destruct (decide (id = fl_ID l)) as [->|Hne].
  - rewrite lookup_insert_eq. intros [= <-]. exists l. by rewrite list_lookup_middle.
  - rewrite lookup_insert_ne by done. intros (l' & Hl & Hid)%IH. exists l'. split; [|done].
    by apply lookup_app_l_Some.
Qed.

Lemma link_index_Some links l : l ∈ links → is_Some (link_index links !! fl_ID l).
Proof.
  induction links as [|k links IH] using rev_ind; [by intros ?%elem_of_nil|].
  rewrite link_index_snoc, lookup_insert_is_Some, elem_of_app, list_elem_of_singleton.
  intros [Hl| ->]; [|by left]. destruct (decide (fl_ID k = fl_ID l)); [by left|right]. auto.
Qed.

Lemma initial_allowed_Some links l :
  l ∈ links → is_Some (initial_allowed links !! fl_ID l).
Proof.
  unfold initial_allowed. induction links as [|k links IH] using rev_ind; [by intros ?%elem_of_nil|].
  rewrite foldl_app. cbn. rewrite lookup_insert_is_Some, elem_of_app, list_elem_of_singleton.
  intros [Hl| ->]; [|by left]. destruct (decide (fl_ID k = fl_ID l)); [by left|right]. auto.
Qed.

Lemma elem_of_allow p q l : p ∈ allow q l ↔ p = q ∨ p ∈ l.
Proof. unfold allow. case_bool_decide; set_solver. Qed.

(** * The plan of an accepted snapshot *)
Definition link_wf (l : FabricLinkSpec) : Prop :=
  addr_wf (fl_PeerAddress l) ∧ fl_RoutingID l < 2 ^ 16.

Section plan.
Context (s : DesiredState) (Hv : Valid s).
Context (Hfw : Forall forward_wf (ds_Forwards s)) (Hlw : Forall link_wf (ds_FabricLinks s)).

Abbreviation canonical := (Canonical s).
Abbreviation plans := (map link_plan (ds_FabricLinks canonical)).
Abbreviation index := (link_index (ds_FabricLinks canonical)).

Lemma plan_ok link :
  link ∈ plans → is_v4 (lp_PeerAddress link) ∧ lp_RoutingID link < 2 ^ 16
                 ∧ no_bar (lp_Interface link).
Proof using Hv Hlw.
  intros (k & -> & (l & Hl & ->)%elem_of_canonical_links)%list_elem_of_fmap. cbn.
  rewrite Forall_forall in Hlw. destruct (Hlw l Hl) as [Hwf Hr].
  destruct (Valid_cidrs s Hv) as (cidrs & _ & _ & _ & _ & _ & Hok & _).
  rewrite Forall_forall in Hok. specialize (Hok l Hl). split_and!; [|done|].
  - destruct (lo_addresses _ _ _ Hok) as [n Hn]. unfold validate_link_peer in Hn.
    apply app_nil_iff in Hn as [Hn _]. by eapply validateIPv4_v4.
  - pose proof (lo_interface _ _ _ Hok) as Hi. unfold interfacePattern in Hi.
    apply andb_true_iff in Hi as [_ Hi]. rewrite forallb_forall in Hi. intros Hin.
    by apply list_elem_of_In, Hi in Hin.
Qed.

(** The link a cross-node forward is planned on. *)
Definition link_of (f : ForwardSpec) : option LinkPlan :=
  plans !! default 0%nat (index !! fw_FabricLinkID f).

Lemma link_of_spec f :
  f ∈ ds_Forwards canonical → fw_PathMode f = PathViaExit →
  ∃ link l, link_of f = Some link ∧ link = link_plan l ∧ l ∈ ds_FabricLinks canonical
            ∧ fl_ID l = fw_FabricLinkID f.
Proof using Hv.
  intros (g & Hg & ->)%elem_of_canonical_forwards Hvia. cbn in Hvia.
  destruct (Valid_path_resolved s g Hv Hg Hvia) as (_ & _ & _ & (l & Hl & Hid & _)).
  destruct (link_index_Some (ds_FabricLinks canonical) (canonicalLink l)) as [i Hi].
  { apply elem_of_canonical_links. eauto. }
  change (fl_ID (canonicalLink l)) with (fl_ID l) in Hi. rewrite Hid in Hi.
  destruct (link_index_lookup _ _ _ Hi) as (l' & Hl' & Hid').
  exists (link_plan l'), l'. unfold link_of.
  change (fw_FabricLinkID (canonicalForward g)) with (fw_FabricLinkID g).
  rewrite Hi. cbn [from_option id]. rewrite list_lookup_fmap, Hl'.
  split_and!; try done. by eapply list_elem_of_lookup_2.
Qed.

Lemma vip_of_forward f :
  f ∈ ds_Forwards canonical → fw_PathMode f = PathViaExit →
  ∃ vip, fw_ServiceVIP f = Some vip ∧ prefix_v4 (hostPrefix vip).
Proof using Hv Hfw.
  intros (g & Hg & ->)%elem_of_canonical_forwards Hvia. cbn in Hvia.
  destruct (Valid_path_resolved s g Hv Hg Hvia) as (_ & _ & (vip & x & Hvip & Hx & _) & _).
  exists (Addr_Unmap vip). cbn. rewrite Hvip. split; [done|]. unfold hostPrefix.
  rewrite Unmap_idemp, Hx. exists x, 32%N. split; [done|]. split; [|lia].
  rewrite Forall_forall in Hfw. eapply Unmap_v4; [by apply (Hfw g Hg)|done].
Qed.

Lemma hostPrefix_v4 a : is_v4 a → prefix_v4 (hostPrefix a).
Proof. intros (b & -> & Hb). exists b, 32%N. split; [done|]. split; [done|lia]. Qed.

(** What a forward needs on this node. *)
Definition planned (t : tables) (f : ForwardSpec) : Prop :=
  ∃ link, link_of f = Some link ∧
  if bool_decide (ds_NodeID s = fw_IngressNodeID f) then
    ∃ vip, fw_ServiceVIP f = Some vip
      ∧ (∃ l, tb_allowed t !! lp_ID link = Some l ∧ hostPrefix vip ∈ l)
      ∧ tb_routes t !! routeKey (vip_route link (hostPrefix vip))
        = Some (vip_route link (hostPrefix vip))
  else tb_routes t !! routeKey (peer_route link) = Some (peer_route link)
       ∧ tb_rules t !! lp_RoutingID link = Some (link_rule link).

(** Nothing else is planned. *)
Definition from_forwards (done : list ForwardSpec) (t : tables) : Prop :=
  (∀ k r, tb_routes t !! k = Some r → k = routeKey r ∧ route_ok r)
  ∧ (∀ k r, tb_rules t !! k = Some r →
       ∃ f link, f ∈ done ∧ fw_PathMode f = PathViaExit ∧ ds_NodeID s ≠ fw_IngressNodeID f
                 ∧ link_of f = Some link ∧ k = lp_RoutingID link ∧ r = link_rule link)
  ∧ (∀ l, l ∈ ds_FabricLinks canonical → is_Some (tb_allowed t !! fl_ID l)).

(** A later step never withdraws what an earlier one planned. *)
Definition extends (t t' : tables) : Prop :=
  (∀ id l, tb_allowed t !! id = Some l → ∃ l', tb_allowed t' !! id = Some l' ∧ l ⊆ l')
  ∧ (∀ k r, tb_routes t !! k = Some r → tb_routes t' !! k = Some r)
  ∧ (∀ k r, tb_rules t !! k = Some r → tb_rules t' !! k = Some r).

Lemma planned_extends t t' f : extends t t' → planned t f → planned t' f.
Proof.
  intros (Ha & Hr & Hu) (link & Hlink & H). exists link. split; [done|]. case_bool_decide.
  - destruct H as (vip & Hvip & (l & Hl & Hin) & Hroute). exists vip. split_and!; [done| |by auto].
    destruct (Ha _ _ Hl) as (l' & Hl' & Hsub). exists l'. split; [done|]. by apply Hsub.
  - destruct H. auto.
Qed.

Lemma insert_route t r :
  (∀ k q, tb_routes t !! k = Some q → k = routeKey q ∧ route_ok q) → route_ok r →
  (∀ k q, tb_routes t !! k = Some q → <[routeKey r := r]> (tb_routes t) !! k = Some q)
  ∧ (∀ k q, <[routeKey r := r]> (tb_routes t) !! k = Some q → k = routeKey q ∧ route_ok q).
Proof.
  intros Ht Hr. split; intros k q.
  - intros Hq. destruct (Ht k q Hq) as [-> Hok]. destruct (decide (routeKey q = routeKey r)) as [He|Hne].
    + rewrite (routeKey_inj q r Hok Hr He). by rewrite lookup_insert_eq.
    + by rewrite lookup_insert_ne.
  - rewrite lookup_insert_Some. intros [[<- <-]|[_ Hq]]; [done|by apply Ht].
Qed.

Lemma insert_rule t link :
  (∀ k r, tb_rules t !! k = Some r → r = link_rule {| lp_ID := ""; lp_PeerNodeID := "";
     lp_Transport := ""; lp_Interface := ""; lp_LocalAddress := PrefixZero; lp_PeerAddress := AddrZero;
     lp_MTU := 0; lp_RoutingID := k; lp_WireGuard := None; lp_GRE := None; lp_AllowedIPs := [] |}) →
  ∀ k r, tb_rules t !! k = Some r →
    <[lp_RoutingID link := link_rule link]> (tb_rules t) !! k = Some r.
Proof.
  intros Ht k r Hr. destruct (decide (k = lp_RoutingID link)) as [->|Hne].
  - rewrite lookup_insert_eq. by rewrite (Ht _ _ Hr).
  - by rewrite lookup_insert_ne.
Qed.

Lemma plan_forward_step done f i t t' :
  f ∈ ds_Forwards canonical → from_forwards done t →
  plan_forward (ds_NodeID s) plans index i f t = inr t' →
  extends t t' ∧ from_forwards (done ++ [f]) t' ∧ (fw_PathMode f = PathViaExit → planned t' f).
Proof using Hv Hfw Hlw.
  intros Hf (Hroutes & Hrules & Hallowed). unfold plan_forward.
  destruct (bool_decide (fw_PathMode f = PathViaExit)) eqn:Hvia; reflect_bool; cbn [negb].
  2: { intros [= <-]. split_and!; [by split_and!; eauto| |done]. split_and!; [done| |done].
       intros k r (g & link & Hg & ?)%Hrules. exists g, link. split; [|done].
       apply elem_of_app. by left. }
  destruct (link_of_spec f Hf Hvia) as (link & l & Hlink & -> & Hl & Hid). unfold link_of in Hlink.
  rewrite Hlink. fold (link_of f) in Hlink.
  destruct (plan_ok (link_plan l)) as (Hpeer & Hrid & Hbar); [by apply list_elem_of_fmap_2|].
  assert (∀ k r, tb_rules t !! k = Some r → ∃ g link', g ∈ done ++ [f] ∧ fw_PathMode g = PathViaExit
    ∧ ds_NodeID s ≠ fw_IngressNodeID g ∧ link_of g = Some link' ∧ k = lp_RoutingID link'
    ∧ r = link_rule link') as Hrules'.
  { intros k r (g & link & Hg & ?)%Hrules. exists g, link. split; [|done].
    apply elem_of_app. by left. }
  destruct (bool_decide (ds_NodeID s = fw_IngressNodeID f)) eqn:Hing; reflect_bool.
  - destruct (vip_of_forward f Hf Hvia) as (vip & Hvip & Hvp). rewrite Hvip. intros [= <-].
    destruct (insert_route t (vip_route (link_plan l) (hostPrefix vip)) Hroutes) as [Hi1 Hi2];
      [by split_and!|].
    destruct (Hallowed l Hl) as [al Hal].
    split_and!; [split_and!| |]; cbn [tb_allowed tb_routes tb_rules]; try done.
    + intros id l0 Hl0. change (lp_ID (link_plan l)) with (fl_ID l).
      destruct (decide (id = fl_ID l)) as [->|Hne].
      * rewrite lookup_alter_eq, Hl0. cbn. eexists. split; [done|]. intros x Hx.
        apply elem_of_allow. by right.
      * rewrite lookup_alter_ne by done. by exists l0.
    + split_and!; [done|done|]. intros l' Hl'. cbn [tb_allowed]. apply lookup_alter_is_Some. by apply Hallowed.
    + intros _. exists (link_plan l). split; [done|]. rewrite bool_decide_eq_true_2 by done.
      exists vip. cbn [tb_allowed tb_routes]. split_and!; [done| |by rewrite lookup_insert_eq].
      cbn. rewrite lookup_alter_eq, Hal. cbn. eexists. split; [done|]. apply elem_of_allow. by left.
  - intros [= <-].
    destruct (insert_route t (peer_route (link_plan l)) Hroutes) as [Hi1 Hi2].
    { split_and!; [by apply hostPrefix_v4|done..]. }
    split_and!; [split_and!| |]; cbn [tb_allowed tb_routes tb_rules]; try done.
    + by eauto.
    + apply insert_rule. intros k r (g & link' & _ & _ & _ & _ & -> & ->)%Hrules. done.
    + split_and!; [done| |done]. intros k r. cbn [tb_rules]. rewrite lookup_insert_Some.
      intros [[<- <-]|[_ Hr]]; [|by apply Hrules']. exists f, (link_plan l). split_and!; try done.
      apply elem_of_app. right. by apply list_elem_of_singleton.
    + intros _. exists (link_plan l). split; [done|]. rewrite bool_decide_eq_false_2 by done.
      cbn [tb_rules tb_routes]. by rewrite !lookup_insert_eq.
Qed.

Lemma plan_forwards_inv t :
  plan_forwards canonical = inr t →
  from_forwards (ds_Forwards canonical) t
  ∧ ∀ f, f ∈ ds_Forwards canonical → fw_PathMode f = PathViaExit → planned t f.
Proof using Hv Hfw Hlw.
  unfold plan_forwards. intros H.
  apply (eloop_inv _ (λ done t, from_forwards done t
    ∧ ∀ f, f ∈ done → fw_PathMode f = PathViaExit → planned t f)) in H; [done|..].
  - split; [|by intros f ?%elem_of_nil]. split_and!; cbn [tb_routes tb_rules tb_allowed].
    + intros k r. by rewrite lookup_empty.
    + intros k r. by rewrite lookup_empty.
    + apply initial_allowed_Some.
  - intros done f t0 t1 Hpre [Hfrom Hall] Hstep.
    assert (f ∈ ds_Forwards canonical) as Hf.
    { destruct Hpre as [m ->]. apply elem_of_app. left. apply elem_of_app. right.
      by apply list_elem_of_singleton. }
    destruct (plan_forward_step done f _ _ _ Hf Hfrom Hstep) as (Hext & Hfrom' & Hnew).
    split; [done|]. intros g [Hg|Hg%list_elem_of_singleton]%elem_of_app Hvia.
    + eapply planned_extends; [done|]. auto.
    + subst. auto.
Qed.

Lemma rule_of t k r :
  from_forwards (ds_Forwards canonical) t → tb_rules t !! k = Some r →
  k < 2 ^ 16 ∧ rp_Priority r = RulePriority k ∧ rp_Mark r = RoutingMark k.
Proof using Hv Hlw.
  intros (_ & Hrules & _) Hr. apply Hrules in Hr as (f & link & Hf & Hvia & _ & Hlink & -> & ->).
  destruct (link_of_spec f Hf Hvia) as (link' & l & Hlink' & -> & Hl & _).
  assert (link = link_plan l) as -> by congruence.
  split; [|done]. apply plan_ok. by apply list_elem_of_fmap_2.
Qed.
End plan.

(** The mark an exit's nftables table restores on replies. *)
Lemma routeMark_of s now a f q link :
  Valid s → Nft.compile_forwards (Canonical s) now = inr a →
  f ∈ ds_Forwards (Canonical s) → q ∈ fw_Protocols f → fw_PathMode f = PathViaExit →
  ds_NodeID s ≠ fw_IngressNodeID f → link_of s f = Some link →
  node_key s f +:+ " : 0x" +:+ pad_hex 8 (RoutingMark (lp_RoutingID link))
    ∈ Nft.routeMarks (elements_of a q).
Proof.
  intros Hv Ha Hf Hq Hvia Hn Hlink.
  destruct (contribution_of s now a Ha f q Hf Hq) as (e & He & Htu).
  apply (elem_of_elements s now a Ha); [done|apply _|]. exists f, e. split_and!; try done.
  apply emission_inv in He as (cl & _ & _ & _ & _ & _ & _ & _ & _ & -> & _).
  destruct (link_of_spec s Hv f Hf Hvia) as (link' & l & Hlink' & -> & Hl & Hid).
  assert (link = link_plan l) as -> by congruence.
  unfold forward_link. rewrite bool_decide_eq_true_2 by done.
  rewrite (proj2 (fabrics_lookup s (fw_FabricLinkID f) l Hv)) by done.
  unfold at_node. rewrite bool_decide_eq_false_2 by done. cbn. by apply list_elem_of_singleton.
Qed.

(** C12. In the plan of an accepted snapshot every cross-node forward has what
    its end of the path needs. At the ingress: the route to its service VIP
    through the link's peer, and the VIP among the addresses the link accepts.
    At the exit: the route back to the peer in the link's own table and the
    policy rule that selects this table, for the very mark the nftables table
    puts on the connection. Rules have distinct priorities, and their marks pass
    the mask the table restores marks by. *)
Theorem Compile_paths s c p :
  Forall forward_wf (ds_Forwards s) → Forall link_wf (ds_FabricLinks s) → Compile s c = inr p →
  (∀ f, f ∈ ds_Forwards (Canonical s) → fw_PathMode f = PathViaExit →
     ∃ link, link ∈ fp_Links p ∧ lp_ID link = fw_FabricLinkID f ∧
     if bool_decide (ds_NodeID s = fw_IngressNodeID f) then
       ∃ vip, fw_ServiceVIP f = Some vip ∧ hostPrefix vip ∈ lp_AllowedIPs link
              ∧ vip_route link (hostPrefix vip) ∈ fp_Routes p
     else peer_route link ∈ fp_Routes p ∧ link_rule link ∈ fp_Rules p
          ∧ ∀ now a q, Nft.compile_forwards (Canonical s) now = inr a → q ∈ fw_Protocols f →
              node_key s f +:+ " : 0x" +:+ pad_hex 8 (rp_Mark (link_rule link))
                ∈ Nft.routeMarks (elements_of a q))
  ∧ NoDup (rp_Priority <$> fp_Rules p)
  ∧ ∀ r, r ∈ fp_Rules p → N.land (rp_Mark r) RoutingMarkMask = RoutingMarkPrefix.
Proof.
  intros Hfw Hlw. unfold Compile. destruct (check_snapshot s c) eqn:Hc; [done|].
  apply check_snapshot_None in Hc as [Hv _].
  destruct (plan_forwards (Canonical s)) as [?|t] eqn:Ht; [done|]. intros [= <-].
  apply plan_forwards_inv in Ht as [Hfrom Hall]; [|done..]. cbn [fp_Links fp_Routes fp_Rules].
  split_and!.
  - intros f Hf Hvia. destruct (Hall f Hf Hvia) as (link & Hlink & H).
    destruct (link_of_spec s Hv f Hf Hvia) as (link' & l & Hlink' & -> & Hl & Hid).
    assert (link = link_plan l) as -> by congruence.
    exists (finish_link (tb_allowed t) (link_plan l)). split_and!.
    + apply list_elem_of_fmap. by exists l.
    + done.
    + case_bool_decide as Hi.
      * destruct H as (vip & Hvip & (al & Hal & Hin) & Hr). exists vip. split_and!; [done| |].
        -- cbn [lp_AllowedIPs finish_link]. rewrite Hal. by apply elem_of_sort_slice.
        -- apply elem_of_sort_slice, list_elem_of_fmap.
           eexists (_, _). split; [done|]. apply elem_of_map_to_list, Hr.
      * destruct H as [Hr Hu]. split_and!.
        -- apply elem_of_sort_slice, list_elem_of_fmap.
           eexists (_, _). split; [done|]. apply elem_of_map_to_list, Hr.
        -- apply elem_of_sort_slice, list_elem_of_fmap.
           eexists (_, _). split; [done|]. apply elem_of_map_to_list, Hu.
        -- intros now a q Ha Hq. by apply (routeMark_of s now a f q (link_plan l)).
  - rewrite sort_slice_perm, <-list_fmap_compose. apply NoDup_fmap_2_strong; [|apply NoDup_map_to_list].
    intros [k r] [k' r'] Hr%elem_of_map_to_list Hr'%elem_of_map_to_list. cbn.
    destruct (rule_of s Hv Hlw t k r Hfrom Hr) as (Hk & -> & _).
    destruct (rule_of s Hv Hlw t k' r' Hfrom Hr') as (Hk' & -> & _).
    intros ->%RulePriority_inj; [|done..]. congruence.
  - intros r. rewrite elem_of_sort_slice.
    intros ([k r'] & -> & Hr%elem_of_map_to_list)%list_elem_of_fmap.
    destruct (rule_of s Hv Hlw t k r' Hfrom Hr) as (Hk & _ & Hm). cbn. rewrite Hm.
    by apply RoutingMark_masked.
Qed.

Definition exit_checksum : string := default "" (Checksum sample_exit_state).

Lemma Compile_paths_witness :
  ∃ p link, Compile sample_exit_state exit_checksum = inr p ∧ link ∈ fp_Links p
  ∧ lp_ID link = "a-b" ∧ link_rule link ∈ fp_Rules p.
Proof.
  assert (match Compile sample_exit_state exit_checksum with inl _ => false | inr _ => true end = true)
    as Hok by (vm_compute; reflexivity).
  destruct (Compile sample_exit_state exit_checksum) as [e|p] eqn:E; [discriminate|].
  destruct (Compile_paths sample_exit_state exit_checksum p) as (H & _ & _).
  { repeat constructor; try (intros v [= <-]); reflexivity. }
  { repeat constructor; reflexivity. }
  { exact E. }
  destruct (H (canonicalForward sample_tunnel)) as (link & Hin & Hid & Hrest).
  { apply elem_of_canonical_forwards. exists sample_tunnel. split; [left|reflexivity]. }
  { reflexivity. }
  exists p, link. split; [reflexivity|]. split; [exact Hin|]. split; [exact Hid|].
  destruct Hrest as (_ & Hr & _). exact Hr.
Defined.
