(* ===== verification/AgentStore.v ===== *)
(** The agent's durable state, [internal/agent/store.go]: the record, what a
    record must satisfy to be written, and the file it is kept in. *)
From S2P Require Import Prelude.
From S2P Require Import GoNet.
From S2P Require Import GoCrypto.
From S2P Require Import SpecTypes.
From S2P Require Import SpecCanonical.
From S2P Require Import SpecValidate.
From S2P Require Import SpecChecksum.
From S2P Require Import Meter.

Definition stateRecordVersion : N := 3.
Definition maxStateFileBytes : N := N.shiftl 64 20.
Definition MaxUsageOutbox : nat := N.to_nat 10000.

Record Snapshot := MkSnapshot {
  sn_Desired : DesiredState;
  sn_Checksum : string;
  sn_ProgramChecksum : string;
  sn_TCChecksum : string;
  sn_FabricChecksum : string;
  sn_ForceCleanupComplete : bool;
  sn_PreparedAt : Time;
}.

Record StateRecord := MkStateRecord {
  sr_Version : N;
  sr_Applied : option Snapshot;
  sr_Pending : option Snapshot;
  sr_Meter : Meter.State;
  sr_UsageOutbox : list Meter.Usage.Batch;
}.

Definition EmptyStateRecord : StateRecord :=
  MkStateRecord stateRecordVersion None None (Meter.MkState "" 0 ∅) [].

(** The loop ranges over runes; a rune above ['f'] is refused, so that reading
    bytes gives the same answer. *)
Definition validStateChecksum (value : string) : bool :=
  (length (chars value) =? 64)%nat && forallb lower_hex (chars value).

Definition optional_checksum (value : string) : bool :=
  bool_decide (value = "") || validStateChecksum value.

Definition validateSnapshot (name : string) (snapshot : option Snapshot) : option string :=
  match snapshot with
  | None => None
  | Some snapshot =>
      match Validate (sn_Desired snapshot) with
      | _ :: _ as issues => Some (name +:+ " snapshot: " +:+ ValidationError_Error issues)
      | [] =>
          match Checksum (sn_Desired snapshot) with
          | None => Some (name +:+ " snapshot checksum")
          | Some checksum =>
              if negb (bool_decide (checksum = sn_Checksum snapshot))
              then Some (name +:+ " snapshot checksum mismatch")
              else if Time_IsZero (sn_PreparedAt snapshot)
              then Some (name +:+ " snapshot prepared_at must not be zero")
              else if negb (optional_checksum (sn_ProgramChecksum snapshot))
              then Some (name +:+ " snapshot program checksum is invalid")
              else if negb (optional_checksum (sn_TCChecksum snapshot))
              then Some (name +:+ " snapshot tc checksum is invalid")
              else if negb (optional_checksum (sn_FabricChecksum snapshot))
              then Some (name +:+ " snapshot fabric checksum is invalid")
              else None
          end
      end
  end.

Definition generation_of (snapshot : Snapshot) : N := ds_Generation (sn_Desired snapshot).
Definition node_of (snapshot : Snapshot) : string := ds_NodeID (sn_Desired snapshot).

(** [pending] against [applied]. *)
Definition validate_pair (r : StateRecord) : option string :=
  match sr_Applied r, sr_Pending r with
  | Some applied, Some pending =>
      if generation_of pending <? generation_of applied
      then Some "pending generation is older than applied generation"
      else if negb (bool_decide (node_of pending = node_of applied))
      then Some "pending and applied snapshots have different node IDs"
      else if (generation_of pending =? generation_of applied)
              && negb (bool_decide (sn_Checksum pending = sn_Checksum applied))
      then Some "pending and applied snapshots conflict at the same generation"
      else None
  | _, _ => None
  end.

(** The loop over [UsageOutbox]; [previous] starts at 0 and is ignored at the
    first batch. *)
Fixpoint validate_outbox (i : nat) (previous : N) (outbox : list Meter.Usage.Batch) :
    option string :=
  match outbox with
  | [] => None
  | batch :: rest =>
      match Meter.Usage.Validate batch with
      | Some e => Some ("usage_outbox[" +:+ show_nat i +:+ "]: " +:+ e)
      | None =>
          if (0 <? i)%nat && (Meter.Usage.ub_Sequence batch <=? previous)
          then Some "usage outbox sequences must increase"
          else validate_outbox (S i) (Meter.Usage.ub_Sequence batch) rest
      end
  end.

(** [StateRecord.Validate]: the error, if any. *)
Definition StateRecord_Validate (r : StateRecord) : option string :=
  if (sr_Version r <? 1) || (stateRecordVersion <? sr_Version r)
  then Some "state record version must be between 1 and 3"
  else match validateSnapshot "applied" (sr_Applied r) with
  | Some e => Some e
  | None =>
      match validateSnapshot "pending" (sr_Pending r) with
      | Some e => Some e
      | None =>
          match validate_pair r with
          | Some e => Some e
          | None =>
              if (MaxUsageOutbox <? length (sr_UsageOutbox r))%nat
              then Some "usage outbox exceeds 10000 batches"
              else validate_outbox 0 0 (sr_UsageOutbox r)
          end
      end
  end.

Definition set_Version (v : N) (r : StateRecord) : StateRecord :=
  MkStateRecord v (sr_Applied r) (sr_Pending r) (sr_Meter r) (sr_UsageOutbox r).

(** * The file

    The state directory is modelled by what a reader would find in
    [state.json] and by the newest temporary file, if it has been written and
    neither renamed nor removed; no temporary file is ever read. The JSON text
    of a record is represented by the record; a file may also hold what is too
    large, does not decode, or has trailing content. *)
Module FileStore.

Inductive file :=
  | Missing
  | Unreadable (why : string)
  | Holds (r : StateRecord).

Record directory := Directory {
  d_state : file;
  d_temporary : option StateRecord;
}.

(** [FileStore.load] *)
Definition load (d : directory) : string + StateRecord :=
  match d_state d with
  | Missing => inr EmptyStateRecord
  | Unreadable why => inl why
  | Holds record =>
      match StateRecord_Validate record with
      | Some e => inl ("validate agent state: " +:+ e)
      | None =>
          inr (if sr_Version record <? stateRecordVersion
               then set_Version stateRecordVersion record else record)
      end
  end.

(** The system calls of [save], in order. *)
Inductive syscall :=
  | MkdirAll | CreateTemp | Chmod | Encode | Sync | Close | Rename | OpenDirectory | SyncDirectory.

(** What a successful call does to the directory. *)
Definition effect (record : StateRecord) (c : syscall) (d : directory) : directory :=
  match c with
  | Encode => Directory (d_state d) (Some record)
  | Rename =>
      match d_temporary d with
      | Some r => Directory (Holds r) None
      | None => d
      end
  | _ => d
  end.

(** The deferred removal of the temporary file, until the rename. *)
Definition remove_temporary (d : directory) : directory := Directory (d_state d) None.

Definition failure (c : syscall) : string :=
  match c with
  | MkdirAll => "create agent state directory"
  | CreateTemp => "create temporary agent state"
  | Chmod => "set temporary agent state permissions"
  | Encode => "encode agent state"
  | Sync => "sync temporary agent state"
  | Close => "close temporary agent state"
  | Rename => "commit agent state"
  | OpenDirectory => "open agent state directory for sync"
  | SyncDirectory => "sync agent state directory"
  end.

Definition syscalls : list syscall :=
  [MkdirAll; CreateTemp; Chmod; Encode; Sync; Close; Rename; OpenDirectory; SyncDirectory].

(** The temporary file is removed when a later call than its creation fails,
    up to the rename. *)
Definition abandon (c : syscall) (d : directory) : directory :=
  match c with
  | MkdirAll | CreateTemp | OpenDirectory | SyncDirectory => d
  | _ => remove_temporary d
  end.

(** A run of the calls, [faults] saying which of them fail. *)
Fixpoint run (faults : syscall → bool) (record : StateRecord) (cs : list syscall) (d : directory) :
    directory * option string :=
  match cs with
  | [] => (d, None)
  | c :: rest =>
      if faults c then (abandon c d, Some (failure c))
      else run faults record rest (effect record c d)
  end.

(** [FileStore.save], on the production system; [faults] is the operating
    system's. *)
Definition save (faults : syscall → bool) (record : StateRecord) (d : directory) :
    directory * option string :=
  let record := set_Version stateRecordVersion record in
  match StateRecord_Validate record with
  | Some e => (d, Some ("refuse to persist invalid agent state: " +:+ e))
  | None => run faults record syscalls d
  end.

(** What a crash leaves: the calls up to some point have taken effect. *)
Definition crash (record : StateRecord) (n : nat) (d : directory) : directory :=
  foldl (λ d c, effect record c d) d (take n syscalls).

End FileStore.
