(* ===== verification/Reconciler.v ===== *)
(** The reconciler of a node, [internal/agent/reconciler.go]: how a desired
    state becomes kernel state, with its durable record, its verification and
    its rollback. The kernel backends and the store are interfaces of the code;
    here they are an environment over a world [W] the reconciler does not see
    into. Every call is recorded in a trace, in the order of the calls. *)
From S2P Require Import Prelude.
From S2P Require Import GoNet.
From S2P Require Import GoCrypto.
From S2P Require Import SpecTypes.
From S2P Require Import SpecCanonical.
From S2P Require Import SpecValidate.
From S2P Require Import SpecChecksum.
From S2P Require Import Meter.
From S2P Require Import FabricCompiler.
From S2P Require Import NftCompiler.
From S2P Require Import TcCompiler.
From S2P Require Import AgentStore.

(** * Errors *)
Inductive sentinel :=
  | ErrStaleGeneration
  | ErrGenerationConflict
  | ErrNodeIdentity
  | ErrForeignTable
  | ErrKernelAhead
  | ErrTrafficControlUnavailable
  | ErrUsageUnavailable
  | ErrUsageOutboxFull
  | ErrFabricUnavailable
  | ErrUnsupported          (** of package [nft] *)
  | DeadlineExceeded        (** of package [context] *)
  | Canceled.
#[export] Instance sentinel_eq_dec : EqDecision sentinel.
Proof. solve_decision. Defined.

Inductive error :=
  | Sentinel (s : sentinel)
  | Plain (message : string)
  | Validation (issues : list string)      (** [*spec.ValidationError] *)
  | Wrap (message : string) (e : error)    (** [fmt.Errorf("...: %w", err)] *)
  | Join (es : list error).                (** [errors.Join] *)

(** [errors.Is] *)
Fixpoint errors_Is (e : error) (s : sentinel) : bool :=
  match e with
  | Sentinel t => bool_decide (t = s)
  | Plain _ | Validation _ => false
  | Wrap _ e => errors_Is e s
  | Join es => existsb (λ e, errors_Is e s) es
  end.

(** [errors.As] with a [*spec.ValidationError] *)
Fixpoint errors_As_validation (e : error) : bool :=
  match e with
  | Sentinel _ | Plain _ => false
  | Validation _ => true
  | Wrap _ e => errors_As_validation e
  | Join es => existsb errors_As_validation es
  end.

(** The error of a compiler for a state: all three validate it first, and the
    one for nft wraps [ErrUnsupported]. *)
Definition compile_failure (state : DesiredState) (message : string) : error :=
  match Validate state with
  | _ :: _ as issues => Validation issues
  | [] => if String.prefix Nft.ErrUnsupported message then Wrap message (Sentinel ErrUnsupported)
          else Plain message
  end.

Definition errors_Join (es : list error) : option error :=
  match es with [] => None | _ => Some (Join es) end.

(** * The interfaces *)

(** [nft.InstalledState] and [nft.RawCounter] *)
Record InstalledState := {
  in_Exists : bool;
  in_Managed : bool;
  in_Generation : N;
  in_DesiredChecksum : string;
  in_ProgramChecksum : string;
}.
Record RawCounter := { rc_Name : string; rc_Packets : N; rc_Bytes : N }.

Section interfaces.
Context (W : Type).

Record TrafficBackend := {
  tc_config : Tc.Config;
  tc_Check : Tc.Program → W → W * option error;
  tc_Apply : Tc.Program → W → W * option error;
  tc_Verify : Tc.Program → W → W * option error;
}.

Record FabricBackend := {
  fb_Check : Fabric.Program → Fabric.Program → W → W * option error;
  fb_Prepare : Fabric.Program → W → W * option error;
  fb_Cleanup : Fabric.Program → Fabric.Program → W → W * option error;
  fb_Verify : Fabric.Program → W → W * option error;
}.

(** The fields of [Reconciler]. [WithTrafficControl] and [WithFabric] set a
    compiler and its backend together, hence one option for both;
    [e_ReadCounters] is present when the backend is a [CounterReader]. *)
Record Env := {
  e_now : W → W * Time;
  e_Inspect : W → W * (error + InstalledState);
  e_Check : string → W → W * option error;
  e_Apply : string → W → W * option error;
  e_ReadCounters : option (W → W * (error + list RawCounter));
  e_tc : option TrafficBackend;
  e_conntrack : option (string → list ForwardSpec → W → W * (error + N));
  e_fabric : option FabricBackend;
  e_Load : W → W * (error + StateRecord);
  e_Save : StateRecord → W → W * option error;
}.
End interfaces.
Arguments tc_config {_} _.
Arguments tc_Check {_} _ _ _.
Arguments tc_Apply {_} _ _ _.
Arguments tc_Verify {_} _ _ _.
Arguments fb_Check {_} _ _ _ _.
Arguments fb_Prepare {_} _ _ _.
Arguments fb_Cleanup {_} _ _ _ _.
Arguments fb_Verify {_} _ _ _.
Arguments e_now {_} _ _.
Arguments e_Inspect {_} _ _.
Arguments e_Check {_} _ _ _.
Arguments e_Apply {_} _ _ _.
Arguments e_ReadCounters {_} _.
Arguments e_tc {_} _.
Arguments e_conntrack {_} _.
Arguments e_fabric {_} _.
Arguments e_Load {_} _ _.
Arguments e_Save {_} _ _ _.

(** * The monad: world passing, with the calls made so far *)
Inductive event :=
  | EInspect (r : error + InstalledState)
  | ECheck (script : string)
  | EApply (script : string)
  | EReadCounters
  | ETcCheck (p : Tc.Program)
  | ETcApply (p : Tc.Program)
  | ETcVerify (p : Tc.Program) (ok : bool)
  | EConntrack
  | EFabricCheck (previous target : Fabric.Program)
  | EPrepare (p : Fabric.Program)
  | ECleanup (previous target : Fabric.Program)
  | EFabricVerify (p : Fabric.Program) (ok : bool)
  | ELoad
  | ESave (r : StateRecord) (saved : bool).

Definition M (W A : Type) : Type := W * list event → (W * list event) * A.
#[export] Instance M_ret W : MRet (M W) := λ A a st, (st, a).
#[export] Instance M_bind W : MBind (M W) := λ A B f m st, let '(st, a) := m st in f a st.

Definition call {W A} (op : W → W * A) (ev : A → event) : M W A :=
  λ st, let '(w, a) := op st.1 in ((w, st.2 ++ [ev a]), a).

Definition clock {W} (E : Env W) : M W Time :=
  λ st, let '(w, t) := e_now E st.1 in ((w, st.2), t).

(** [if cond { if err := op(); err != nil { return fail(err) } }; next] *)
Definition guarded {W A} (cond : bool) (op : M W (option error)) (fail : error → M W A)
    (next : M W A) : M W A :=
  if cond then e ← op; match e with Some e => fail e | None => next end else next.

Record Result := MkResult {
  rs_Generation : N;
  rs_Checksum : string;
  rs_ProgramChecksum : string;
  rs_TCChecksum : string;
  rs_FabricChecksum : string;
  rs_Changed : bool;
  rs_Recovered : bool;
  rs_ConntrackDeleted : N;
}.
Definition ResultZero : Result := MkResult 0 "" "" "" "" false false 0.
Definition set_Recovered (r : Result) : Result :=
  MkResult (rs_Generation r) (rs_Checksum r) (rs_ProgramChecksum r) (rs_TCChecksum r)
    (rs_FabricChecksum r) (rs_Changed r) true (rs_ConntrackDeleted r).
Definition finish_result (r : Result) (changed : bool) (deleted : N) : Result :=
  MkResult (rs_Generation r) (rs_Checksum r) (rs_ProgramChecksum r) (rs_TCChecksum r)
    (rs_FabricChecksum r) changed (rs_Recovered r) deleted.

(** * Pure helpers *)
Definition desiredHasRateLimit (desired : DesiredState) : bool :=
  let users := index_by up_UserID (ds_UserPolicies desired) in
  existsb (λ forward, bool_decide (fw_IngressNodeID forward = ds_NodeID desired)
             && (bool_decide (is_Some (fw_RateLimit forward))
                 || bool_decide (is_Some (up_RateLimit
                      (default UserPolicySpecZero (users !! fw_UserID forward))))))
    (ds_Forwards desired).

Definition desiredHasFabric (desired : DesiredState) : bool :=
  negb (bool_decide (ds_FabricLinks desired = []))
  || existsb (λ forward, bool_decide (fw_PathMode forward = PathViaExit)) (ds_Forwards desired).

Definition explicitForceDeletes (desired : DesiredState) : list ForwardSpec :=
  filter (λ forward, fw_Lifecycle forward = LifecycleForceDeleting) (ds_Forwards desired).

Definition set_Desired (d : DesiredState) (s : Snapshot) : Snapshot :=
  MkSnapshot d (sn_Checksum s) (sn_ProgramChecksum s) (sn_TCChecksum s) (sn_FabricChecksum s)
    (sn_ForceCleanupComplete s) (sn_PreparedAt s).

Definition snapshotCopy (s : Snapshot) : Snapshot := set_Desired (Canonical (sn_Desired s)) s.

Definition less_batch (a b : Meter.Usage.Batch) : bool :=
  Meter.Usage.ub_Sequence a <? Meter.Usage.ub_Sequence b.
Definition cloneUsageBatches (batches : list Meter.Usage.Batch) : list Meter.Usage.Batch :=
  sort_slice less_batch batches.

Definition validateIncomingGeneration (record : StateRecord) (nodeID : string) (generation : N)
    (checksum : string) : option error :=
  let expectedNodeID :=
    match sr_Applied record, sr_Pending record with
    | Some applied, _ => node_of applied
    | None, Some pending => node_of pending
    | None, None => ""
    end in
  if negb (bool_decide (expectedNodeID = "")) && negb (bool_decide (nodeID = expectedNodeID))
  then Some (Wrap "stored and received node differ" (Sentinel ErrNodeIdentity))
  else
    let against (what : string) (snapshot : option Snapshot) :=
      match snapshot with
      | None => None
      | Some s =>
          if generation <? generation_of s
          then Some (Wrap ("received generation is before the " +:+ what +:+ " one")
                       (Sentinel ErrStaleGeneration))
          else if (generation =? generation_of s) && negb (bool_decide (checksum = sn_Checksum s))
          then Some (Wrap ("generation is " +:+ what) (Sentinel ErrGenerationConflict))
          else None
      end in
    match against "applied" (sr_Applied record) with
    | Some e => Some e
    | None => against "pending" (sr_Pending record)
    end.

(** * Kernel calls *)
Section reconciler.
Context {W : Type} (E : Env W).

Definition load : M W (error + StateRecord) := call (e_Load E) (λ _, ELoad).
Definition save (r : StateRecord) : M W (option error) :=
  call (e_Save E r) (λ e, ESave r (bool_decide (e = None))).
Definition inspect : M W (error + InstalledState) := call (e_Inspect E) EInspect.
Definition check (script : string) : M W (option error) := call (e_Check E script) (λ _, ECheck script).
Definition apply_script (script : string) : M W (option error) :=
  call (e_Apply E script) (λ _, EApply script).

(** * Usage *)
Definition sample_of (c : RawCounter) : Meter.Sample :=
  Meter.MkSample (rc_Name c) (rc_Packets c) (rc_Bytes c).

Definition usage_delta (bindings : gmap string Nft.CounterBinding) (delta : Meter.Delta) :
    Meter.Usage.Delta :=
  let binding := default (Nft.Build_CounterBinding "" "" "" "" 0) (bindings !! Meter.dl_Name delta) in
  {| Meter.Usage.ud_ForwardID := Nft.cb_ForwardID binding;
     Meter.Usage.ud_Protocol := Nft.cb_Protocol binding;
     Meter.Usage.ud_Direction := Nft.cb_Direction binding;
     Meter.Usage.ud_ResourceVersion := Nft.cb_ResourceVersion binding;
     Meter.Usage.ud_Packets := Meter.dl_Packets delta;
     Meter.Usage.ud_Bytes := Meter.dl_Bytes delta;
     Meter.Usage.ud_Reset := Meter.dl_Reset delta |}.

Definition set_usage (meter : Meter.State) (outbox : list Meter.Usage.Batch) (r : StateRecord) :
    StateRecord :=
  MkStateRecord (sr_Version r) (sr_Applied r) (sr_Pending r) meter outbox.

(** [collectUsageLocked] from the counters that were read: the record to save. *)
Definition account (record : StateRecord) (applied : Snapshot) (program : Nft.Program)
    (bindings : gmap string Nft.CounterBinding) (raw : list RawCounter) (observedAt : Time) :
    error + StateRecord :=
  let samples := map sample_of (filter (λ c, is_Some (bindings !! rc_Name c)) raw) in
  if bool_decide (samples = []) then inl (Plain "nft returned no counters for the applied program")
  else match Meter.NewTracker (sr_Meter record) with
  | inl e => inl (Plain e)
  | inr tracker =>
      let epoch := if bool_decide (sn_ProgramChecksum applied = "")
                   then Nft.np_ProgramChecksum program else sn_ProgramChecksum applied in
      match Meter.Observe tracker epoch samples with
      | inl e => inl (Plain e)
      | inr (tracker, meterBatch) =>
          if negb (existsb Meter.delta_counts (Meter.bt_Deltas meterBatch))
          then inr (set_usage tracker (sr_UsageOutbox record) record)
          else
            let batch :=
              {| Meter.Usage.ub_NodeID := node_of applied;
                 Meter.Usage.ub_Epoch := Meter.bt_Epoch meterBatch;
                 Meter.Usage.ub_Sequence := Meter.bt_Sequence meterBatch;
                 Meter.Usage.ub_Generation := generation_of applied;
                 Meter.Usage.ub_ObservedAt := observedAt;
                 Meter.Usage.ub_Deltas := map (usage_delta bindings) (Meter.bt_Deltas meterBatch) |} in
            match Meter.Usage.Validate batch with
            | Some e => inl (Plain e)
            | None => inr (set_usage tracker (sr_UsageOutbox record ++ [batch]) record)
            end
      end
  end.

(** [collectUsageLocked]: the record as the pointer leaves it, and the error. *)
Definition collectUsageLocked (record : StateRecord) (observedAt : Time) :
    M W (StateRecord * option error) :=
  match sr_Applied record with
  | None => mret (record, None)
  | Some applied =>
      match e_ReadCounters E with
      | None => mret (record, Some (Sentinel ErrUsageUnavailable))
      | Some readCounters =>
          if (MaxUsageOutbox <=? length (sr_UsageOutbox record))%nat
          then mret (record, Some (Sentinel ErrUsageOutboxFull))
          else match Nft.CompileAt (sn_Desired applied) (sn_Checksum applied) true observedAt with
          | inl e => mret (record, Some (compile_failure (sn_Desired applied) e))
          | inr program =>
              raw ← call readCounters (λ _, EReadCounters);
              match raw with
              | inl e => mret (record, Some e)
              | inr raw =>
                  let bindings := index_by Nft.cb_Name (Nft.np_Counters program) in
                  if bool_decide (bindings = ∅) then mret (record, None)
                  else match account record applied program bindings raw observedAt with
                  | inl e => mret (record, Some e)
                  | inr record => e ← save record; mret (record, e)
                  end
              end
          end
      end
  end.

(** [CollectUsage], [PendingUsage], [AckUsage] *)
Definition CollectUsage : M W (error + list Meter.Usage.Batch) :=
  record ← load;
  match record with
  | inl e => mret (inl e)
  | inr record =>
      now ← clock E;
      collected ← collectUsageLocked record now;
      mret (match collected with
            | (_, Some e) => inl e
            | (record, None) => inr (cloneUsageBatches (sr_UsageOutbox record))
            end)
  end.

Definition PendingUsage : M W (error + list Meter.Usage.Batch) :=
  record ← load;
  mret (match record with
        | inl e => inl e
        | inr record => inr (cloneUsageBatches (sr_UsageOutbox record))
        end).

Definition acknowledged (epoch : string) (sequence : N) (batch : Meter.Usage.Batch) : bool :=
  bool_decide (Meter.Usage.ub_Epoch batch = epoch) && (Meter.Usage.ub_Sequence batch =? sequence).

Definition AckUsage (epoch : string) (sequence : N) : M W (option error) :=
  record ← load;
  match record with
  | inl e => mret (Some e)
  | inr record =>
      match list_find (λ batch, acknowledged epoch sequence batch = true) (sr_UsageOutbox record) with
      | None => mret None
      | Some (index, _) =>
          save (set_usage (sr_Meter record) (drop (S index) (sr_UsageOutbox record)) record)
      end
  end.

(** * Rollback *)
Definition delete_table : string := Nft.delete_table.

(** The state rolled back to: the applied one, or the target without its
    resources; and its checksum, empty when it could not be computed. *)
Definition rollback_target (record : StateRecord) (target : DesiredState) :
    DesiredState * string * list error :=
  match sr_Applied record with
  | Some applied => (sn_Desired applied, sn_Checksum applied, [])
  | None =>
      let empty :=
        MkDesiredState (ds_SchemaVersion target) (ds_NodeID target) (ds_Generation target)
          (ds_ManagementDomain target) [] [] (ds_HealthChecks target) [] (ds_ProtocolBlocks target)
          [] in
      match Checksum empty with
      | Some checksum => (empty, checksum, [])
      | None => (empty, "", [Plain "checksum empty rollback"])
      end
  end.

Definition noting (what : string) (e : option error) : list error :=
  match e with Some e => [Wrap what e] | None => [] end.

(** [if program, err := compile(); err != nil { ... }]: the program or zero. *)
Definition compiled {A} (what : string) (state : DesiredState) (zero : A) (r : string + A) : A * list error :=
  match r with inl e => (zero, [Wrap what (compile_failure state e)]) | inr p => (p, []) end.

Definition rollbackDataplane (record : StateRecord) (target : DesiredState) (now : Time) :
    M W (option error) :=
  let '(rollbackDesired, rollbackChecksum, e0) := rollback_target record target in
  let known := negb (bool_decide (rollbackChecksum = "")) in
  fabric ←
    match e_fabric E with
    | Some fb =>
        if known then
          let '(targetFabric, e1) :=
            match Checksum target with
            | None => (Fabric.ProgramZero, [Plain "checksum target fabric rollback"])
            | Some c => compiled "compile target fabric rollback" target Fabric.ProgramZero
                          (Fabric.Compile target c)
            end in
          match Fabric.Compile rollbackDesired rollbackChecksum with
          | inl e =>
              mret (targetFabric, Fabric.ProgramZero,
                    e1 ++ [Wrap "compile applied fabric rollback" (compile_failure rollbackDesired e)])
          | inr program =>
              e ← call (fb_Prepare fb program) (λ _, EPrepare program);
              mret (targetFabric, program, e1 ++ noting "prepare fabric rollback" e)
          end
        else mret (Fabric.ProgramZero, Fabric.ProgramZero, [])
    | None => mret (Fabric.ProgramZero, Fabric.ProgramZero, [])
    end;
  let '(targetFabric, rollbackFabric, e1) := fabric in
  e2 ←
    match sr_Applied record with
    | Some applied =>
        match Nft.CompileAt (sn_Desired applied) (sn_Checksum applied) true now with
        | inl e => mret [Wrap "compile nft rollback" (compile_failure (sn_Desired applied) e)]
        | inr program =>
            e ← apply_script (Nft.np_Script program); mret (noting "apply nft rollback" e)
        end
    | None => e ← apply_script delete_table; mret (noting "remove first-generation nft table" e)
    end;
  e3 ←
    match e_tc E with
    | Some tc =>
        if negb known then mret [Plain "tc rollback checksum is unavailable"]
        else match Tc.Compile (tc_config tc) rollbackDesired rollbackChecksum with
        | inl e => mret [Wrap "compile tc rollback" (compile_failure rollbackDesired e)]
        | inr program =>
            e ← call (tc_Apply tc program) (λ _, ETcApply program); mret (noting "apply tc rollback" e)
        end
    | None => mret []
    end;
  e4 ←
    match e_fabric E with
    | Some fb =>
        if known then
          e ← call (fb_Cleanup fb targetFabric rollbackFabric)
                (λ _, ECleanup targetFabric rollbackFabric);
          e' ← call (fb_Verify fb rollbackFabric) (λ e, EFabricVerify rollbackFabric (bool_decide (e = None)));
          mret (noting "cleanup fabric rollback" e ++ noting "verify fabric rollback" e')
        else mret []
    | None => mret []
    end;
  mret (errors_Join (e0 ++ e1 ++ e2 ++ e3 ++ e4)).

Definition withRollback (record : StateRecord) (target : DesiredState) (now : Time)
    (applyErr : error) : M W error :=
  rollbackErr ← rollbackDataplane record target now;
  mret (match rollbackErr with
        | Some e => Join [applyErr; Wrap "rollback to last-known-good" e]
        | None => applyErr
        end).

(** * Convergence *)

(** The programs of a target, and the target with their checksums. *)
Record plan := {
  pl_target : Snapshot;
  pl_tc : Tc.Program;
  pl_fabric : Fabric.Program;
  pl_previous : Fabric.Program;
}.

Definition tc_zero : Tc.Program := Tc.Build_Program false "" (Tc.Build_Config "" "" 0 0 false) "" [].

Definition compile_tc (target : Snapshot) : error + (Snapshot * Tc.Program) :=
  match e_tc E with
  | Some tc =>
      match Tc.Compile (tc_config tc) (sn_Desired target) (sn_Checksum target) with
      | inl e => inl (compile_failure (sn_Desired target) e)
      | inr p =>
          inr (MkSnapshot (sn_Desired target) (sn_Checksum target) (sn_ProgramChecksum target)
                 (Tc.tp_Checksum p) (sn_FabricChecksum target) (sn_ForceCleanupComplete target)
                 (sn_PreparedAt target), p)
      end
  | None =>
      if desiredHasRateLimit (sn_Desired target) then inl (Sentinel ErrTrafficControlUnavailable)
      else inr (target, tc_zero)
  end.

Definition compile_fabric (record : StateRecord) (target : Snapshot) :
    error + (Snapshot * Fabric.Program * Fabric.Program) :=
  match e_fabric E with
  | Some _ =>
      match Fabric.Compile (sn_Desired target) (sn_Checksum target) with
      | inl e => inl (compile_failure (sn_Desired target) e)
      | inr p =>
          let target :=
            MkSnapshot (sn_Desired target) (sn_Checksum target) (sn_ProgramChecksum target)
              (sn_TCChecksum target) (Fabric.fp_Checksum p) (sn_ForceCleanupComplete target)
              (sn_PreparedAt target) in
          match sr_Applied record with
          | None => inr (target, p, Fabric.ProgramZero)
          | Some applied =>
              match Fabric.Compile (sn_Desired applied) (sn_Checksum applied) with
              | inl e => inl (Wrap "compile applied fabric program" (compile_failure (sn_Desired applied) e))
              | inr previous => inr (target, p, previous)
              end
          end
      end
  | None =>
      if desiredHasFabric (sn_Desired target)
         || match sr_Applied record with Some a => desiredHasFabric (sn_Desired a) | None => false end
      then inl (Sentinel ErrFabricUnavailable)
      else inr (target, Fabric.ProgramZero, Fabric.ProgramZero)
  end.

Definition compile_plan (record : StateRecord) (target : Snapshot) (now : Time) : error + plan :=
  match Nft.CompileAt (sn_Desired target) (sn_Checksum target) false now with
  | inl e => inl (compile_failure (sn_Desired target) e)
  | inr program =>
      let target :=
        MkSnapshot (sn_Desired target) (sn_Checksum target) (Nft.np_ProgramChecksum program)
          (sn_TCChecksum target) (sn_FabricChecksum target) (sn_ForceCleanupComplete target)
          (sn_PreparedAt target) in
      match compile_tc target with
      | inl e => inl e
      | inr (target, tc) =>
          match compile_fabric record target with
          | inl e => inl e
          | inr (target, fabric, previous) => inr (Build_plan target tc fabric previous)
          end
      end
  end.

Definition result_of (target : Snapshot) (recovering : bool) : Result :=
  MkResult (generation_of target) (sn_Checksum target) (sn_ProgramChecksum target)
    (sn_TCChecksum target) (sn_FabricChecksum target) false recovering 0.

(** The kernel must not hold a foreign table nor a state ahead of the target. *)
Definition check_installed (record : StateRecord) (target : Snapshot) (enforceKernelOrder : bool)
    (installed : InstalledState) : option error :=
  let known (s : option Snapshot) :=
    match s with Some s => bool_decide (sn_Checksum s = sn_Checksum target) | None => false end in
  if in_Exists installed && negb (in_Managed installed) then Some (Sentinel ErrForeignTable)
  else if in_Managed installed && (generation_of target <? in_Generation installed)
  then Some (Wrap "installed generation is newer" (Sentinel ErrKernelAhead))
  else if enforceKernelOrder && in_Managed installed
          && (in_Generation installed =? generation_of target)
          && negb (bool_decide (in_DesiredChecksum installed = sn_Checksum target))
          && negb (known (sr_Applied record) || known (sr_Pending record))
  then Some (Wrap "installed generation" (Sentinel ErrGenerationConflict))
  else None.

(** The kernel's table is the target's. *)
Definition installs (target : Snapshot) (installed : InstalledState) : bool :=
  in_Managed installed && (in_Generation installed =? generation_of target)
  && bool_decide (in_DesiredChecksum installed = sn_Checksum target)
  && bool_decide (in_ProgramChecksum installed = sn_ProgramChecksum target).

Definition tc_current (record : StateRecord) (pl : plan) : M W bool :=
  match e_tc E with
  | None => mret true
  | Some tc =>
      if match sr_Applied record with
         | Some a => (generation_of a =? generation_of (pl_target pl))
                     && bool_decide (sn_TCChecksum a = sn_TCChecksum (pl_target pl))
         | None => false
         end
      then e ← call (tc_Verify tc (pl_tc pl)) (λ e, ETcVerify (pl_tc pl) (bool_decide (e = None)));
           mret (bool_decide (e = None))
      else mret false
  end.

Definition fabric_current (record : StateRecord) (pl : plan) : M W bool :=
  match e_fabric E with
  | None => mret true
  | Some fb =>
      if match sr_Applied record with
         | Some a => bool_decide (sn_FabricChecksum a = sn_FabricChecksum (pl_target pl))
         | None => false
         end
      then e ← call (fb_Verify fb (pl_fabric pl)) (λ e, EFabricVerify (pl_fabric pl) (bool_decide (e = None)));
           mret (bool_decide (e = None))
      else mret false
  end.

Definition set_Applied (s : Snapshot) (r : StateRecord) : StateRecord :=
  MkStateRecord (sr_Version r) (Some (snapshotCopy s)) None (sr_Meter r) (sr_UsageOutbox r).
Definition set_Pending (s : Snapshot) (r : StateRecord) : StateRecord :=
  MkStateRecord (sr_Version r) (sr_Applied r) (Some (snapshotCopy s)) (sr_Meter r)
    (sr_UsageOutbox r).

(** The record says what the kernel already shows. *)
Definition recorded (record : StateRecord) (target : Snapshot) : bool :=
  match sr_Pending record, sr_Applied record with
  | None, Some a =>
      bool_decide (sn_Checksum a = sn_Checksum target)
      && bool_decide (sn_ProgramChecksum a = sn_ProgramChecksum target)
      && bool_decide (sn_TCChecksum a = sn_TCChecksum target)
      && bool_decide (sn_FabricChecksum a = sn_FabricChecksum target)
  | _, _ => false
  end.

Definition set_ForceCleanupComplete (s : Snapshot) : Snapshot :=
  MkSnapshot (sn_Desired s) (sn_Checksum s) (sn_ProgramChecksum s) (sn_TCChecksum s)
    (sn_FabricChecksum s) true (sn_PreparedAt s).

(** The end of a change: connections of force-deleted forwards are cut, and the
    target becomes the applied state. *)
Definition finish (record : StateRecord) (target : Snapshot) (result : Result)
    (force : list ForwardSpec) (cleanupNeeded changed : bool) : M W (Result * option error) :=
  let commit target deleted :=
    e ← save (set_Applied target record);
    mret (match e with
          | Some e => (finish_result result false deleted, Some e)
          | None => (finish_result result changed deleted, None)
          end) in
  if cleanupNeeded then
    match e_conntrack E with
    | None => mret (result, Some (Plain "force deletion requested but conntrack cleaner is not configured"))
    | Some delete =>
        deleted ← call (delete (node_of target) force) (λ _, EConntrack);
        match deleted with
        | inl e => mret (result, Some e)
        | inr deleted => commit (set_ForceCleanupComplete target) (wrap 64 deleted)
        end
    end
  else commit target 0.

(** The kernel writes, each one undone by a rollback if it or a later
    verification fails. *)
Definition commit (record : StateRecord) (pl : plan) (script : string) (result : Result)
    (now : Time) (nftCurrent tcCurrent fabricCurrent : bool)
    (next : M W (Result * option error)) : M W (Result * option error) :=
  let target := pl_target pl in
  let fail what e :=
    r ← withRollback record (sn_Desired target) now (Wrap what e); mret (result, Some r) in
  let prepare next :=
    match e_fabric E with
    | Some fb => guarded (negb fabricCurrent)
        (call (fb_Prepare fb (pl_fabric pl)) (λ _, EPrepare (pl_fabric pl)))
        (fail "prepare fabric before nft commit") next
    | None => next
    end in
  let apply_tc next :=
    match e_tc E with
    | Some tc => guarded (negb tcCurrent)
        (call (tc_Apply tc (pl_tc pl)) (λ _, ETcApply (pl_tc pl)))
        (fail "apply tc program after nft commit") next
    | None => next
    end in
  let cleanup next :=
    match e_fabric E with
    | Some fb => guarded (negb fabricCurrent)
        (call (fb_Cleanup fb (pl_previous pl) (pl_fabric pl))
           (λ _, ECleanup (pl_previous pl) (pl_fabric pl)))
        (fail "cleanup superseded fabric resources") next
    | None => next
    end in
  let verify_tc next :=
    match e_tc E with
    | Some tc => guarded true (call (tc_Verify tc (pl_tc pl)) (λ e, ETcVerify (pl_tc pl) (bool_decide (e = None))))
        (fail "verify applied tc program") next
    | None => next
    end in
  let verify_fabric next :=
    match e_fabric E with
    | Some fb => guarded true (call (fb_Verify fb (pl_fabric pl)) (λ e, EFabricVerify (pl_fabric pl) (bool_decide (e = None))))
        (fail "verify applied fabric program") next
    | None => next
    end in
  prepare (guarded (negb nftCurrent) (apply_script script) (fail "apply nft program after fabric prepare")
    (apply_tc (cleanup (
      verified ← inspect;
      match verified with
      | inl e => fail "verify applied nft generation" e
      | inr verified =>
          if negb (in_Exists verified) || negb (installs target verified)
          then fail "verify applied nft generation" (Plain "installed differs")
          else verify_tc (verify_fabric next)
      end)))).

(** Preflight, usage and the durable intent, then the kernel. *)
Definition replace (record : StateRecord) (pl : plan) (result : Result) (now : Time)
    (tableExists nftCurrent tcCurrent fabricCurrent : bool) (force : list ForwardSpec)
    (cleanupNeeded : bool) : M W (Result * option error) :=
  let target := pl_target pl in
  let fail e := mret (result, Some e) in
  match Nft.CompileAt (sn_Desired target) (sn_Checksum target) tableExists now with
  | inl e => fail (compile_failure (sn_Desired target) e)
  | inr program =>
      let check_tc next :=
        match e_tc E with
        | Some tc => guarded (negb tcCurrent)
            (call (tc_Check tc (pl_tc pl)) (λ _, ETcCheck (pl_tc pl))) fail next
        | None => next
        end in
      let check_fabric next :=
        match e_fabric E with
        | Some fb => guarded (negb fabricCurrent)
            (call (fb_Check fb (pl_previous pl) (pl_fabric pl))
               (λ _, EFabricCheck (pl_previous pl) (pl_fabric pl))) fail next
        | None => next
        end in
      guarded (negb nftCurrent) (check (Nft.np_Script program)) fail
        (check_tc (check_fabric (
          collected ←
            match sr_Applied record with
            | Some a =>
                if bool_decide (sn_ProgramChecksum a = sn_ProgramChecksum target)
                then mret (record, None)
                else collectUsageLocked record now
            | None => mret (record, None)
            end;
          let '(record, e) := collected in
          let refused :=
            match e with
            | Some e => if errors_Is e ErrUsageUnavailable then None else Some e
            | None => None
            end in
          match refused with
          | Some e => fail (Wrap "collect counters before dataplane replacement" e)
          | None =>
              let record := set_Pending target record in
              e ← save record;
              match e with
              | Some e => fail e
              | None =>
                  commit record pl (Nft.np_Script program) result now nftCurrent tcCurrent
                    fabricCurrent (finish record target result force cleanupNeeded
                      (negb nftCurrent || negb tcCurrent || negb fabricCurrent || cleanupNeeded))
              end
          end)))
  end.

(** [converge] *)
Definition converge (record : StateRecord) (target : Snapshot)
    (recovering enforceKernelOrder : bool) : M W (Result * option error) :=
  now ← clock E;
  match compile_plan record target now with
  | inl e => mret (ResultZero, Some e)
  | inr pl =>
      let target := pl_target pl in
      let result := result_of target recovering in
      installed ← inspect;
      match installed with
      | inl e => mret (result, Some e)
      | inr installed =>
          match check_installed record target enforceKernelOrder installed with
          | Some e => mret (result, Some e)
          | None =>
              let nftCurrent := installs target installed in
              tcCurrent ← tc_current record pl;
              fabricCurrent ← fabric_current record pl;
              let force := explicitForceDeletes (sn_Desired target) in
              let cleanupNeeded :=
                negb (bool_decide (force = [])) && negb (sn_ForceCleanupComplete target) in
              if nftCurrent && tcCurrent && fabricCurrent && negb cleanupNeeded then
                if recorded record target then mret (result, None)
                else e ← save (set_Applied target record); mret (result, e)
              else
                replace record pl result now (in_Exists installed) nftCurrent tcCurrent
                  fabricCurrent force cleanupNeeded
          end
      end
  end.

(** The snapshot an incoming desired state is converged to: the stored one when
    it is the same state, so that its preparation time and cleanup survive. *)
Definition incoming_target (record : StateRecord) (desired : DesiredState) (checksum : string)
    (now : Time) : Snapshot :=
  let same (s : option Snapshot) :=
    match s with
    | Some s => if (generation_of s =? ds_Generation desired) && bool_decide (sn_Checksum s = checksum)
                then Some s else None
    | None => None
    end in
  match same (sr_Pending record), same (sr_Applied record) with
  | Some s, _ => s
  | None, Some s => s
  | None, None => MkSnapshot desired checksum "" "" "" false now
  end.

(** [Apply]; the mutex makes the operations of one reconciler sequential. *)
Definition Apply (desired : DesiredState) : M W (Result * option error) :=
  match Validate desired with
  | _ :: _ as issues => mret (ResultZero, Some (Validation issues))
  | [] =>
      let desired := Canonical desired in
      match Checksum desired with
      | None => mret (ResultZero, Some (Plain "calculate desired checksum"))
      | Some checksum =>
          record ← load;
          match record with
          | inl e => mret (ResultZero, Some e)
          | inr record =>
              match validateIncomingGeneration record (ds_NodeID desired) (ds_Generation desired)
                      checksum with
              | Some e => mret (ResultZero, Some e)
              | None =>
                  now ← clock E;
                  converge record (incoming_target record desired checksum now) false true
              end
          end
      end
  end.

Definition Recover : M W (Result * option error) :=
  record ← load;
  match record with
  | inl e => mret (ResultZero, Some e)
  | inr record =>
      match (match sr_Pending record with Some s => Some s | None => sr_Applied record end) with
      | None => mret (set_Recovered ResultZero, None)
      | Some target =>
          r ← converge record target true false;
          mret (set_Recovered r.1, r.2)
      end
  end.

Definition Audit : M W (Result * option error) :=
  record ← load;
  match record with
  | inl e => mret (ResultZero, Some e)
  | inr record =>
      match sr_Pending record, sr_Applied record with
      | Some target, _ => converge record target false false
      | None, Some target => converge record target false false
      | None, None => mret (ResultZero, None)
      end
  end.

Definition Refresh : M W (Result * option error) :=
  record ← load;
  match record with
  | inl e => mret (ResultZero, Some e)
  | inr record =>
      match sr_Pending record, sr_Applied record with
      | Some target, _ => converge record target false false
      | None, None => mret (ResultZero, None)
      | None, Some applied =>
          now ← clock E;
          let expected := Nft.ProgramChecksumAt (sn_Desired applied) (sn_Checksum applied) now in
          if bool_decide (sn_ProgramChecksum applied = expected)
          then mret (MkResult (generation_of applied) (sn_Checksum applied) expected
                       (sn_TCChecksum applied) (sn_FabricChecksum applied) false false 0, None)
          else converge record applied false false
      end
  end.

(** * Purge *)

(** The empty state an uninstall converges the kernel to. *)
Definition clean_state (record : StateRecord) (nodeID : string) : error + DesiredState :=
  let clean version generation :=
    MkDesiredState version nodeID generation "" [] [] [] [] None [] in
  match sr_Applied record with
  | None => inr (clean CurrentSchemaVersion 1)
  | Some applied =>
      if negb (bool_decide (node_of applied = nodeID))
      then inl (Wrap "stored and requested node differ" (Sentinel ErrNodeIdentity))
      else inr (clean (ds_SchemaVersion (sn_Desired applied)) (generation_of applied))
  end.

(** The [rollback] closure: nothing to restore before the first mutation. *)
Definition purge_rollback (record : StateRecord) (clean : DesiredState) (mutated : bool)
    (what : string) (cause : error) : M W (option error) :=
  let cause := Wrap what cause in
  if negb mutated then mret (Some cause)
  else
    now ← clock E;
    restore ← rollbackDataplane record clean now;
    mret (Some (match restore with
                | Some e => Join [cause; Wrap "restore last-known-good after purge failure" e]
                | None => cause
                end)).

(** The removal is verified before it is reported. *)
Definition purge_verify (record : StateRecord) (clean : DesiredState) (tcProgram : Tc.Program)
    (cleanFabric : Fabric.Program) (mutated : bool) : M W (option error) :=
  let rollback := purge_rollback record clean in
  verified ← inspect;
  match verified with
  | inl e => rollback mutated "verify Flux nft removal" e
  | inr verified =>
      if in_Exists verified
      then rollback mutated "verify Flux nft removal" (Plain "table inet flux still exists")
      else
        let last := match e_fabric E with
                    | None => mret None
                    | Some fb =>
                        guarded true (call (fb_Verify fb cleanFabric)
                                        (λ e, EFabricVerify cleanFabric (bool_decide (e = None))))
                          (rollback true "verify Flux fabric removal") (mret None)
                    end in
        match e_tc E with
        | None => last
        | Some tc => guarded true (call (tc_Verify tc tcProgram)
                                     (λ e, ETcVerify tcProgram (bool_decide (e = None))))
                       (rollback true "verify Flux tc removal") last
        end
  end.

(** The removal itself, from the fabric to the table and the shaper and back. *)
Definition purge_kernel (record : StateRecord) (clean : DesiredState) (tcProgram : Tc.Program)
    (cleanFabric previousFabric : Fabric.Program) (tableExists : bool) : M W (option error) :=
  let rollback := purge_rollback record clean in
  let has_fabric := bool_decide (is_Some (e_fabric E)) in
  let has_tc := bool_decide (is_Some (e_tc E)) in
  let verify := purge_verify record clean tcProgram cleanFabric (has_fabric || tableExists || has_tc) in
  let cleanup :=
    match e_fabric E with
    | None => verify
    | Some fb =>
        guarded true (call (fb_Cleanup fb previousFabric cleanFabric)
                        (λ _, ECleanup previousFabric cleanFabric))
          (rollback true "remove Flux fabric state") verify
    end in
  let remove_tc :=
    match e_tc E with
    | None => cleanup
    | Some tc =>
        guarded true (call (tc_Apply tc tcProgram) (λ _, ETcApply tcProgram))
          (rollback (has_fabric || tableExists) "remove Flux tc state") cleanup
    end in
  let remove_table :=
    guarded tableExists (apply_script delete_table)
      (rollback has_fabric "remove Flux nft table") remove_tc in
  match e_fabric E with
  | None => remove_table
  | Some fb =>
      guarded true (call (fb_Prepare fb cleanFabric) (λ _, EPrepare cleanFabric))
        (λ e, mret (Some (Wrap "prepare empty fabric before purge" e))) remove_table
  end.

Definition purge_inspect (record : StateRecord) (clean : DesiredState) (tcProgram : Tc.Program)
    (cleanFabric previousFabric : Fabric.Program) : M W (option error) :=
  installed ← inspect;
  match installed with
  | inl e => mret (Some e)
  | inr installed =>
      if in_Exists installed && negb (in_Managed installed)
      then mret (Some (Sentinel ErrForeignTable))
      else purge_kernel record clean tcProgram cleanFabric previousFabric (in_Exists installed)
  end.

Definition purge_fabric (record : StateRecord) (clean : DesiredState) (checksum : string)
    (tcProgram : Tc.Program) : M W (option error) :=
  let fail what e := mret (Some (Wrap what e)) in
  match e_fabric E with
  | None => purge_inspect record clean tcProgram Fabric.ProgramZero Fabric.ProgramZero
  | Some fb =>
      match Fabric.Compile clean checksum with
      | inl e => fail "compile fabric purge program" (compile_failure clean e)
      | inr cleanFabric =>
          match (match sr_Applied record with
                 | None => inr Fabric.ProgramZero
                 | Some a => Fabric.Compile (sn_Desired a) (sn_Checksum a)
                 end) with
          | inl e => fail "compile applied fabric before purge"
              (compile_failure (match sr_Applied record with Some a => sn_Desired a | None => clean end) e)
          | inr previous =>
              guarded true (call (fb_Check fb previous cleanFabric)
                              (λ _, EFabricCheck previous cleanFabric))
                (fail "preflight fabric purge program")
                (purge_inspect record clean tcProgram cleanFabric previous)
          end
      end
  end.

Definition purge_tc (record : StateRecord) (clean : DesiredState) (checksum : string) :
    M W (option error) :=
  match e_tc E with
  | None => purge_fabric record clean checksum tc_zero
  | Some tc =>
      match Tc.Compile (tc_config tc) clean checksum with
      | inl e => mret (Some (Wrap "compile tc purge program" (compile_failure clean e)))
      | inr p =>
          guarded true (call (tc_Check tc p) (λ _, ETcCheck p))
            (λ e, mret (Some (Wrap "preflight tc purge program" e)))
            (purge_fabric record clean checksum p)
      end
  end.

Definition Purge (nodeID : string) : M W (option error) :=
  match ValidateIdentifier "node_id" nodeID with
  | Some e => mret (Some (Plain e))
  | None =>
      record ← load;
      match record with
      | inl e => mret (Some e)
      | inr record =>
          if bool_decide (is_Some (sr_Pending record))
          then mret (Some (Plain "cannot purge while a desired state is pending"))
          else if match sr_Applied record with
                  | Some a => negb (bool_decide (ds_Forwards (sn_Desired a) = []))
                  | None => false
                  end
          then mret (Some (Plain "cannot purge while forwards are still applied"))
          else match clean_state record nodeID with
          | inl e => mret (Some e)
          | inr clean =>
              match Checksum clean with
              | None => mret (Some (Plain "calculate purge checksum"))
              | Some checksum => purge_tc record clean checksum
              end
          end
      end
  end.
End reconciler.
