(* ===== verification/ReconcilerFacts.v ===== *)
(** A program logic for the reconciler: triples over its monad, what its
    environment promises (the store keeps what it was told, the kernel leaves
    the store alone), and the invariants every operation keeps. *)
From S2P Require Import Prelude.
From S2P Require Import GoNet.
From S2P Require Import SpecTypes.
From S2P Require Import SpecCanonical.
From S2P Require Import SpecValidate.
From S2P Require Import SpecChecksum.
From S2P Require Import Meter.
From S2P Require Import FabricCompiler.
From S2P Require Import NftCompiler.
From S2P Require Import TcCompiler.
From S2P Require Import DataplaneFacts.
From S2P Require Import AgentStore.
From S2P Require Import Reconciler.

(** * Triples *)
Section triples.
Context {W : Type}.
Implicit Types P : W * list event → Prop.

Definition triple {A} P (m : M W A) (Q : A → W * list event → Prop) : Prop :=
  ∀ st, P st → Q (m st).2 (m st).1.

Lemma triple_ret {A} P Q (a : A) : (∀ st, P st → Q a st) → triple P (mret a) Q.
Proof. exact id. Qed.

Lemma triple_bind {A B} P R Q (m : M W A) (f : A → M W B) :
  triple P m R → (∀ a, triple (R a) (f a) Q) → triple P (m ≫= f) Q.
Proof.
  intros Hm Hf st Hst. specialize (Hm st Hst). unfold mbind, M_bind.
  destruct (m st) as [st' a]. by apply Hf.
Qed.

Lemma triple_call {A} P Q (op : W → W * A) ev :
  (∀ w tr, P (w, tr) → Q (op w).2 ((op w).1, tr ++ [ev (op w).2])) → triple P (call op ev) Q.
Proof.
  intros H [w tr] HP. unfold call. cbn. specialize (H w tr HP). by destruct (op w) as [w' a].
Qed.

Lemma triple_guarded {A} P R Q cond op fail (next : M W A) :
  (cond = true → triple P op R) → (cond = true → ∀ e, triple (R (Some e)) (fail e) Q) →
  triple (if cond then R None else P) next Q →
  triple P (guarded cond op fail next) Q.
Proof.
  unfold guarded. destruct cond; [|by auto]. intros Hop Hf Hn.
  eapply triple_bind; [by auto|]. intros [e|]; [by apply Hf|done].
Qed.

Lemma triple_conseq {A} P P' Q Q' (m : M W A) :
  triple P' m Q' → (∀ st, P st → P' st) → (∀ a st, Q' a st → Q a st) → triple P m Q.
Proof. intros Hm HP HQ st Hst. by apply HQ, Hm, HP. Qed.

(** ** Invariants *)
Definition keeps {A} P (m : M W A) : Prop := triple P m (λ _, P).

Lemma keeps_ret {A} P (a : A) : keeps P (mret a).
Proof. by intros st. Qed.

Lemma keeps_bind {A B} P (m : M W A) (f : A → M W B) :
  keeps P m → (∀ a, keeps P (f a)) → keeps P (m ≫= f).
Proof. intros Hm Hf. by eapply triple_bind. Qed.

Lemma keeps_guarded {A} P cond op fail (next : M W A) :
  keeps P op → (∀ e, keeps P (fail e)) → keeps P next → keeps P (guarded cond op fail next).
Proof.
  intros Hop Hf Hn. eapply triple_guarded; [by intros _|by intros _ e; apply Hf|by case_match].
Qed.

Lemma keeps_post {A} P (m : M W A) (Q : A → W * list event → Prop) :
  keeps P m → (∀ a st, P st → Q a st) → triple P m Q.
Proof. intros Hm HQ. eapply triple_conseq; [exact Hm|done|done]. Qed.
End triples.

(** * The calls a reconciler may make *)

(** Calls that change the kernel. *)
Definition kernel_write (ev : event) : bool :=
  match ev with EApply _ | ETcApply _ | EPrepare _ | ECleanup _ _ => true | _ => false end.
Definition mutates (ev : event) : bool :=
  kernel_write ev || match ev with EConntrack => true | _ => false end.

Section environment.
Context {W : Type} (E : Env W) (P : W * list event → Prop).

(** [P] survives the calls that change nothing. *)
Record reads_keep : Prop := {
  rk_clock : keeps P (clock E);
  rk_load : keeps P (load E);
  rk_inspect : keeps P (inspect E);
  rk_check script : keeps P (check E script);
  rk_counters r : e_ReadCounters E = Some r → keeps P (call r (λ _, EReadCounters));
  rk_tc_check tc p : e_tc E = Some tc → keeps P (call (tc_Check tc p) (λ _, ETcCheck p));
  rk_tc_verify tc p : e_tc E = Some tc →
    keeps P (call (tc_Verify tc p) (λ e, ETcVerify p (bool_decide (e = None))));
  rk_fabric_check fb p q : e_fabric E = Some fb →
    keeps P (call (fb_Check fb p q) (λ _, EFabricCheck p q));
  rk_fabric_verify fb p : e_fabric E = Some fb →
    keeps P (call (fb_Verify fb p) (λ e, EFabricVerify p (bool_decide (e = None))));
}.

(** [P] survives every call but a write of the record. *)
Record calls_keep : Prop := {
  ck_reads : reads_keep;
  ck_apply script : keeps P (apply_script E script);
  ck_conntrack d n l : e_conntrack E = Some d → keeps P (call (d n l) (λ _, EConntrack));
  ck_tc_apply tc p : e_tc E = Some tc → keeps P (call (tc_Apply tc p) (λ _, ETcApply p));
  ck_prepare fb p : e_fabric E = Some fb → keeps P (call (fb_Prepare fb p) (λ _, EPrepare p));
  ck_cleanup fb p q : e_fabric E = Some fb →
    keeps P (call (fb_Cleanup fb p q) (λ _, ECleanup p q));
}.
End environment.

(** One step of a proof that [P] is kept: follow the program. *)
Ltac read_step H :=
  first
    [ apply keeps_ret
    | apply keeps_bind; [|intros ?]
    | apply keeps_guarded; [|intros ?|]
    | apply (rk_clock _ _ H) | apply (rk_load _ _ H) | apply (rk_inspect _ _ H)
    | apply (rk_check _ _ H) | apply (rk_counters _ _ H); assumption
    | apply (rk_tc_check _ _ H); assumption | apply (rk_tc_verify _ _ H); assumption
    | apply (rk_fabric_check _ _ H); assumption | apply (rk_fabric_verify _ _ H); assumption
    | progress case_match ].
Ltac keep_step H :=
  first
    [ apply (ck_apply _ _ H) | apply (ck_conntrack _ _ H); assumption
    | apply (ck_tc_apply _ _ H); assumption
    | apply (ck_prepare _ _ H); assumption | apply (ck_cleanup _ _ H); assumption
    | let R := fresh "R" in pose proof (ck_reads _ _ H) as R; read_step R; clear R ].
Ltac read_steps H := repeat read_step H.
Ltac keep_steps H := repeat keep_step H.

Section reading.
Context {W : Type} (E : Env W) (P : W * list event → Prop) (HP : reads_keep E P).

Lemma tc_current_keeps record pl : keeps P (tc_current E record pl).
Proof using HP. unfold tc_current. read_steps HP. Qed.

Lemma fabric_current_keeps record pl : keeps P (fabric_current E record pl).
Proof using HP. unfold fabric_current. read_steps HP. Qed.
End reading.

Section keeping.
Context {W : Type} (E : Env W) (P : W * list event → Prop) (HP : calls_keep E P).

Lemma rollback_keeps record target now : keeps P (rollbackDataplane E record target now).
Proof using HP.
  unfold rollbackDataplane. destruct (rollback_target record target) as [[d c] e0].
  keep_steps HP.
Qed.

Lemma withRollback_keeps record target now e : keeps P (withRollback E record target now e).
Proof using HP. unfold withRollback. apply keeps_bind; [apply rollback_keeps|intros; apply keeps_ret]. Qed.

Lemma commit_keeps record pl script result now n t f next :
  keeps P next → keeps P (commit E record pl script result now n t f next).
Proof using HP.
  intros Hnext. unfold commit.
  assert (∀ what e, keeps P (r ← withRollback E record (sn_Desired (pl_target pl)) now (Wrap what e);
            mret (result, Some r))) as Hfail.
  { intros what e. apply keeps_bind; [apply withRollback_keeps|intros; apply keeps_ret]. }
  repeat first [assumption|apply Hfail|keep_step HP].
Qed.
End keeping.

(** * The records a run may write *)

(** The target, with whatever checksums and progress it has acquired. *)
Definition same_state (s target : Snapshot) : Prop :=
  sn_Desired s = sn_Desired target ∧ sn_Checksum s = sn_Checksum target.

Lemma same_state_refl s : same_state s s.
Proof. done. Qed.

Lemma compile_plan_target {W} (E : Env W) record target now pl :
  compile_plan E record target now = inr pl → same_state (pl_target pl) target.
Proof.
  unfold compile_plan, compile_tc, compile_fabric.
  destruct (Nft.CompileAt _ _ _ _); [done|]. cbn.
  repeat case_match; try done; intros; simplify_eq; done.
Qed.

Lemma set_usage_id r : r = set_usage (sr_Meter r) (sr_UsageOutbox r) r.
Proof. by destruct r. Qed.

(** The meter and the outbox a record may come to hold with the counters read:
    its own, or those of one observation of the applied state. *)
Inductive accounts (record : StateRecord) : Meter.State → list Meter.Usage.Batch → Prop :=
  | accounts_none : accounts record (sr_Meter record) (sr_UsageOutbox record)
  | accounts_one applied program bindings raw now record' :
      sr_Applied record = Some applied →
      account record applied program bindings raw now = inr record' →
      accounts record (sr_Meter record') (sr_UsageOutbox record').

Lemma account_usage r applied program bindings raw now r' :
  account r applied program bindings raw now = inr r' →
  r' = set_usage (sr_Meter r') (sr_UsageOutbox r') r.
Proof.
  unfold account. repeat case_match; try done; intros; by simplify_eq.
Qed.

Section writing.
Context {W : Type} (E : Env W) (record : StateRecord) (target : Snapshot).

(** Only the usage of the record has changed. *)
Definition usage_only (a : StateRecord * option error) : Prop :=
  ∃ m o, accounts record m o ∧ a.1 = set_usage m o record.

Lemma usage_ret P e :
  triple P (mret (record, e) : M W (StateRecord * option error)) (λ a st, P st ∧ usage_only a).
Proof.
  apply triple_ret. intros st Hst. split; [done|].
  eexists _, _. split; [apply accounts_none|apply set_usage_id].
Qed.

Lemma collect_keeps P now :
  reads_keep E P → (∀ m o, accounts record m o → keeps P (save E (set_usage m o record))) →
  triple P (collectUsageLocked E record now) (λ a st, P st ∧ usage_only a).
Proof.
  intros HP Hs. unfold collectUsageLocked.
  destruct (sr_Applied record) as [applied|] eqn:Ea; [|apply usage_ret].
  destruct (e_ReadCounters E) as [rd|] eqn:Er; [|apply usage_ret].
  case_match; [apply usage_ret|]. case_match; [apply usage_ret|].
  eapply triple_bind; [by apply (rk_counters _ _ HP)|]. intros [e|raw]; [apply usage_ret|].
  case_bool_decide; [apply usage_ret|].
  destruct (account _ _ _ _ _ _) as [e|r'] eqn:Er'; [apply usage_ret|].
  pose proof (accounts_one _ _ _ _ _ _ _ Ea Er') as Hacc. apply account_usage in Er'.
  rewrite Er'. eapply triple_bind; [by apply Hs|]. intros e. apply triple_ret.
  intros st Hst. split; [done|]. by eexists _, _.
Qed.

(** The final write: [V] before it, [Q] of what is returned. *)
Lemma finish_triple V Q m o s result force cl ch :
  same_state s target →
  (∀ d n l, e_conntrack E = Some d → keeps V (call (d n l) (λ _, EConntrack))) →
  (∀ r e st, V st → Q (r, Some e) st) →
  (∀ s' r r', same_state s' target → sn_ProgramChecksum s' = sn_ProgramChecksum s →
     triple V (save E (set_Applied s' (set_usage m o record)))
       (λ e st, match e with Some e => Q (r, Some e) st | None => Q (r', None) st end)) →
  triple V (finish E (set_usage m o record) s result force cl ch) Q.
Proof.
  intros Hs Hct He Hsave. unfold finish.
  assert (∀ s' d, same_state s' target → sn_ProgramChecksum s' = sn_ProgramChecksum s →
    triple V (e ← save E (set_Applied s' (set_usage m o record));
       mret (match e with
             | Some e => (finish_result result false d, Some e)
             | None => (finish_result result ch d, None) end)) Q) as Hcommit.
  { intros s' d Hs' Hp. eapply triple_bind; [by apply Hsave|].
    intros [e|]; apply triple_ret; by intros st. }
  destruct cl; [|by apply Hcommit]. destruct (e_conntrack E) as [d|] eqn:Ed.
  - eapply triple_bind; [by apply Hct|]. intros [e|n]; [by apply triple_ret, He|].
    by apply Hcommit.
  - by apply triple_ret, He.
Qed.

(** From the preflight to the durable intent: [Pq] before it, [Pc] after it. *)
Lemma replace_triple Pq Pc Q pl result now ex n t f force cl :
  reads_keep E Pq →
  (∀ m o, accounts record m o → keeps Pq (save E (set_usage m o record))) →
  (∀ e st, Pq st → Q (result, Some e) st) →
  (∀ m o, accounts record m o →
     triple Pq (save E (set_Pending (pl_target pl) (set_usage m o record)))
            (λ e st, match e with Some e => Q (result, Some e) st | None => Pc st end)) →
  (∀ m o script, accounts record m o → let r := set_Pending (pl_target pl) (set_usage m o record) in
     triple Pc (commit E r pl script result now n t f
                  (finish E r (pl_target pl) result force cl (negb n || negb t || negb f || cl))) Q) →
  triple Pq (replace E record pl result now ex n t f force cl) Q.
Proof.
  intros HP Hu He Hpend Hcommit. unfold replace.
  assert (∀ e, triple Pq (mret (result, Some e)) Q) as Hfail by (intros e; by apply triple_ret, He).
  destruct (Nft.CompileAt _ _ _ _) as [e|p]; [apply Hfail|].
  set (rest := match sr_Applied record with Some _ => _ | None => _ end ≫= _).
  assert (triple Pq rest Q) as Hrest.
  { unfold rest. clear rest. apply triple_bind with (R := λ a st, Pq st ∧ usage_only a).
    - destruct (sr_Applied record); [|apply usage_ret]. case_bool_decide; [apply usage_ret|].
      by apply collect_keeps.
    - intros [r e] st [Hst (m & o & Hacc & Hr)]. cbn in Hr. subst r. revert st Hst.
      change (triple Pq (match (match e with Some e => if errors_Is e ErrUsageUnavailable then None
        else Some e | None => None end) with
        | Some e => mret (result, Some (Wrap "collect counters before dataplane replacement" e))
        | None => x ← save E (set_Pending (pl_target pl) (set_usage m o record));
            match x with
            | Some e => mret (result, Some e)
            | None => commit E (set_Pending (pl_target pl) (set_usage m o record)) pl
                (Nft.np_Script p) result now n t f
                (finish E (set_Pending (pl_target pl) (set_usage m o record)) (pl_target pl) result
                   force cl (negb n || negb t || negb f || cl))
            end end) Q).
      destruct (match e with Some e => _ | None => None end); [apply Hfail|].
      eapply triple_bind; [by apply Hpend|]. intros [x|]; [by apply triple_ret|by apply Hcommit]. }
  assert (∀ cond op next, keeps Pq op → triple Pq next Q →
    triple Pq (guarded cond op (λ e, mret (result, Some e)) next) Q) as Hg.
  { intros cond op next Hop Hn. eapply triple_guarded; [by intros _|by intros _ e|by case_match]. }
  apply Hg; [apply (rk_check _ _ HP)|].
  destruct (e_tc E) as [tc|] eqn:Et; [apply Hg; [by apply (rk_tc_check _ _ HP)|]|];
    (destruct (e_fabric E) as [fb|] eqn:Ef; [apply Hg; [by apply (rk_fabric_check _ _ HP)|]|]);
    exact Hrest.
Qed.

(** The writes a convergence of [record] to [target] may make. *)
Record writes_keep (P : W * list event → Prop) : Prop := {
  wk_usage m o : accounts record m o → keeps P (save E (set_usage m o record));
  wk_pending m o s : accounts record m o → same_state s target →
    keeps P (save E (set_Pending s (set_usage m o record)));
  wk_applied m o s : accounts record m o → same_state s target →
    keeps P (save E (set_Applied s (set_usage m o record)));
}.

Lemma finish_keeps P m o s result force cl ch :
  calls_keep E P → writes_keep P → accounts record m o → same_state s target →
  keeps P (finish E (set_usage m o record) s result force cl ch).
Proof.
  intros HP Hw Hacc Hs. apply finish_triple; [done| |done|].
  - intros. by apply (ck_conntrack _ _ HP).
  - intros s' r r' Hs' _. eapply keeps_post; [by apply (wk_applied _ Hw)|]. by intros [e|].
Qed.

Lemma converge_keeps P recovering enforce :
  calls_keep E P → writes_keep P → keeps P (converge E record target recovering enforce).
Proof.
  intros HP Hw. pose proof (ck_reads _ _ HP) as HR. unfold converge.
  apply keeps_bind; [apply (rk_clock _ _ HR)|]. intros now.
  destruct (compile_plan E record target now) as [e|pl] eqn:Hpl; [apply keeps_ret|].
  apply compile_plan_target in Hpl.
  apply keeps_bind; [apply (rk_inspect _ _ HR)|]. intros [e|installed]; [apply keeps_ret|].
  destruct (check_installed _ _ _ _); [apply keeps_ret|].
  apply keeps_bind; [by apply tc_current_keeps|]. intros t.
  apply keeps_bind; [by apply fabric_current_keeps|]. intros f.
  case_match.
  - case_match; [apply keeps_ret|]. apply keeps_bind; [|intros; apply keeps_ret].
    rewrite (set_usage_id record). apply (wk_applied _ Hw); [apply accounts_none|done].
  - apply replace_triple with (Pc := P); [done|apply (wk_usage _ Hw)|done| |].
    + intros m o Hacc. eapply keeps_post; [by apply (wk_pending _ Hw)|]. by intros [e|].
    + intros m o script Hacc. apply commit_keeps; [done|]. by apply (finish_keeps P m o).
Qed.
End writing.

(** An uninstall writes no record. *)
Section purging.
Context {W : Type} (E : Env W) (P : W * list event → Prop) (HP : calls_keep E P).

Lemma purge_rollback_keeps record clean m what e :
  keeps P (purge_rollback E record clean m what e).
Proof using HP.
  unfold purge_rollback. destruct (negb m); [apply keeps_ret|].
  apply keeps_bind; [apply (rk_clock _ _ (ck_reads _ _ HP))|]. intros now.
  apply keeps_bind; [by apply rollback_keeps|]. intros. apply keeps_ret.
Qed.

Lemma purge_verify_keeps record clean tc f m : keeps P (purge_verify E record clean tc f m).
Proof using HP. unfold purge_verify. repeat first [apply purge_rollback_keeps|keep_step HP]. Qed.

Lemma purge_kernel_keeps record clean tc f pf ex : keeps P (purge_kernel E record clean tc f pf ex).
Proof using HP.
  unfold purge_kernel.
  repeat first [apply purge_rollback_keeps|apply purge_verify_keeps|keep_step HP].
Qed.

Lemma purge_tc_keeps record clean c : keeps P (purge_tc E record clean c).
Proof using HP.
  unfold purge_tc, purge_fabric, purge_inspect.
  repeat first [apply purge_kernel_keeps|keep_step HP].
Qed.
End purging.
