(* ===== verification/ReconcilerSafety.v ===== *)
(** What the reconciler promises, whatever its kernel and its store do: the
    durable record only moves forward, the intent is durable before the kernel
    is touched, success means verified, and stale input is refused untouched. *)
From S2P Require Import Prelude.
From S2P Require Import GoNet.
From S2P Require Import SpecTypes.
From S2P Require Import SpecCanonical.
From S2P Require Import SpecValidate.
From S2P Require Import SpecTheorems.
From S2P Require Import SpecChecksum.
From S2P Require Import Meter.
From S2P Require Import FabricCompiler.
From S2P Require Import NftCompiler.
From S2P Require Import TcCompiler.
From S2P Require Import DataplaneFacts.
From S2P Require Import AgentStore.
From S2P Require Import Reconciler.
From S2P Require Import ReconcilerFacts.

(** * What the environment promises *)
Definition valid (r : StateRecord) : Prop := StateRecord_Validate r = None.

(** Equal but for the format version, which a store may raise. *)
Definition same_content (r r' : StateRecord) : Prop :=
  set_Version 0 r = set_Version 0 r'.

(** A store that keeps what it was told: a load gives the stored record back, a
    save that reports success has replaced it by a valid one, a save that
    reports failure has either replaced it or left it; and no kernel call
    touches it. *)
Class StoreLaws {W} (E : Env W) (stored : W → StateRecord) : Prop := {
  sl_load w : stored (e_Load E w).1 = stored w
    ∧ ∀ r, (e_Load E w).2 = inr r → same_content r (stored w) ∧ valid r;
  sl_save r w :
    stored (e_Save E r w).1 = stored w ∧ (e_Save E r w).2 ≠ None
    ∨ same_content r (stored (e_Save E r w).1) ∧ valid (stored (e_Save E r w).1);
  sl_now w : stored (e_now E w).1 = stored w;
  sl_inspect w : stored (e_Inspect E w).1 = stored w;
  sl_check s w : stored (e_Check E s w).1 = stored w;
  sl_apply s w : stored (e_Apply E s w).1 = stored w;
  sl_counters r w : e_ReadCounters E = Some r → stored (r w).1 = stored w;
  sl_conntrack d n l w : e_conntrack E = Some d → stored (d n l w).1 = stored w;
  sl_tc tc p w : e_tc E = Some tc →
    stored (tc_Check tc p w).1 = stored w ∧ stored (tc_Apply tc p w).1 = stored w
    ∧ stored (tc_Verify tc p w).1 = stored w;
  sl_fabric fb p q w : e_fabric E = Some fb →
    stored (fb_Check fb p q w).1 = stored w ∧ stored (fb_Prepare fb p w).1 = stored w
    ∧ stored (fb_Cleanup fb p q w).1 = stored w ∧ stored (fb_Verify fb p w).1 = stored w;
}.

Section store.
Context {W : Type} (E : Env W) (stored : W → StateRecord) `{!StoreLaws E stored}.

Lemma keeps_stored {A} (J : StateRecord → Prop) (op : W → W * A) ev :
  (∀ w, stored (op w).1 = stored w) → keeps (λ st, J (stored st.1)) (call op ev).
Proof. intros H. apply triple_call. intros w tr. cbn. by rewrite H. Qed.

Lemma calls_keep_stored (J : StateRecord → Prop) : calls_keep E (λ st, J (stored st.1)).
Proof using Type*.
  repeat split; intros; try (apply keeps_stored; intros w; by eapply sl_load || by apply sl_inspect
    || by apply sl_check || by apply sl_apply || by eapply sl_counters
    || by eapply sl_conntrack || by eapply sl_tc || by eapply sl_fabric).
  - intros [w tr] Hw. unfold clock. pose proof (sl_now w) as H. cbn in *.
    destruct (e_now E w) as [w' t]. cbn in *. by rewrite H.
Qed.

Lemma keeps_save (J : StateRecord → Prop) r :
  (∀ r', same_content r r' → valid r' → J r') → keeps (λ st, J (stored st.1)) (save E r).
Proof using Type*.
  intros HJ. apply triple_call. intros w tr Hw. cbn in *.
  destruct (sl_save r w) as [[-> _]|[Hc Hv]]; auto.
Qed.
End store.

(** * The record moves forward *)
Definition advances (r r' : StateRecord) : Prop :=
  ∀ s, sr_Applied r = Some s →
  ∃ s', sr_Applied r' = Some s' ∧ node_of s' = node_of s ∧ generation_of s ≤ generation_of s'
        ∧ (generation_of s' = generation_of s → sn_Checksum s' = sn_Checksum s).

#[export] Instance advances_refl : Reflexive advances.
Proof. intros r s Hs. exists s. split_and!; try done; lia. Qed.

#[export] Instance advances_trans : Transitive advances.
Proof.
  intros r1 r2 r3 H12 H23 s Hs. destruct (H12 s Hs) as (s2 & Hs2 & Hn2 & Hg2 & Hc2).
  destruct (H23 s2 Hs2) as (s3 & Hs3 & Hn3 & Hg3 & Hc3). exists s3. split_and!.
  - done.
  - congruence.
  - lia.
  - intros Hg. rewrite Hc3, Hc2; [done|lia..].
Qed.

Lemma same_content_applied r r' : same_content r r' → sr_Applied r = sr_Applied r'.
Proof. by intros [= ? ? ? ?]. Qed.
Lemma same_content_pending r r' : same_content r r' → sr_Pending r = sr_Pending r'.
Proof. by intros [= ? ? ? ?]. Qed.
Lemma same_content_sym r r' : same_content r r' → same_content r' r.
Proof. by intros H. Qed.

Lemma advances_applied r r1 r2 : sr_Applied r1 = sr_Applied r2 → advances r r1 → advances r r2.
Proof. unfold advances. intros ->. done. Qed.

(** A target that does not go back behind what is applied. *)
Definition admissible (record : StateRecord) (target : Snapshot) : Prop :=
  ∀ s, sr_Applied record = Some s →
  node_of target = node_of s ∧ generation_of s ≤ generation_of target
  ∧ (generation_of target = generation_of s → sn_Checksum target = sn_Checksum s).

Lemma valid_inv r :
  valid r →
  (∀ s, sr_Applied r = Some s ∨ sr_Pending r = Some s →
        Valid (sn_Desired s) ∧ Checksum (sn_Desired s) = Some (sn_Checksum s))
  ∧ (∀ s, sr_Pending r = Some s → admissible r s).
Proof.
  unfold valid, StateRecord_Validate. case_match; [done|].
  destruct (validateSnapshot "applied" _) eqn:Ha; [done|].
  destruct (validateSnapshot "pending" _) eqn:Hp; [done|].
  destruct (validate_pair r) eqn:Hpair; [done|]. intros _.
  assert (∀ n s, validateSnapshot n (Some s) = None →
    Valid (sn_Desired s) ∧ Checksum (sn_Desired s) = Some (sn_Checksum s)) as Hs.
  { intros n s. cbn -[Checksum Validate]. unfold Valid. destruct (Validate _); [|done].
    destruct (Checksum _) as [c|]; [|done]. case_bool_decide; cbn [negb]; [|done]. by subst. }
  split.
  - intros s [H1|H1]; rewrite H1 in *; eauto.
  - intros s H1 a H2. unfold validate_pair in Hpair. rewrite H1, H2 in Hpair.
    destruct (generation_of s <? generation_of a) eqn:E1; [done|].
    destruct (negb _) eqn:E2 in Hpair; [done|]. destruct (_ && _) eqn:E3 in Hpair; [done|].
    reflect_bool. split_and!; [done..|]. intros Hg. apply andb_false_iff in E3 as [E3|E3]; reflect_bool; done.
Qed.

Lemma node_nonempty s : Valid (sn_Desired s) → node_of s ≠ "".
Proof.
  intros Hv%Valid_header H. unfold node_of in H. unfold validate_header in Hv.
  rewrite H in Hv. split_issues Hv. done.
Qed.

Lemma incoming_admissible record desired c now :
  valid record →
  validateIncomingGeneration record (ds_NodeID desired) (ds_Generation desired) c = None →
  admissible record (incoming_target record desired c now).
Proof.
  intros Hv Hin. apply valid_inv in Hv as [Hall Hpend]. unfold incoming_target.
  destruct (match sr_Pending record with Some s => _ | None => None end) as [p|] eqn:Ep.
  { apply Hpend. destruct (sr_Pending record) as [p'|]; [|done]. case_match; [congruence|done]. }
  destruct (match sr_Applied record with Some s => _ | None => None end) as [a|] eqn:Ea.
  { intros s Hs. rewrite Hs in Ea. case_match; [|done]. simplify_eq. split_and!; [done|lia|done]. }
  intros s Hs. cbn. unfold validateIncomingGeneration in Hin. rewrite Hs in *.
  destruct (Hall s (or_introl eq_refl)) as [Hvs _]. apply node_nonempty in Hvs.
  destruct (_ && _) eqn:En in Hin; [done|]. rewrite (bool_decide_eq_false_2 _ Hvs) in En.
  cbn in En. reflect_bool.
  destruct (ds_Generation desired <? generation_of s) eqn:E1; [done|].
  destruct (_ && _) eqn:E2 in Hin; [done|]. reflect_bool.
  unfold node_of at 1, generation_of at 2 3. cbn. split_and!; [done|done|]. intros Hg.
  apply andb_false_iff in E2 as [E2|E2]; reflect_bool; [done|]. done.
Qed.

(** * Operations *)
Inductive operation :=
  | OpApply (desired : DesiredState)
  | OpRecover
  | OpAudit
  | OpRefresh
  | OpPurge (nodeID : string)
  | OpCollectUsage
  | OpPendingUsage
  | OpAckUsage (epoch : string) (sequence : N).

(** Running an operation, whatever it answers. *)
Definition discard {W A} (m : M W A) : M W unit := m ≫= λ _, mret tt.
Definition run {W} (E : Env W) (op : operation) : M W unit :=
  match op with
  | OpApply desired => discard (Apply E desired)
  | OpRecover => discard (Recover E)
  | OpAudit => discard (Audit E)
  | OpRefresh => discard (Refresh E)
  | OpPurge nodeID => discard (Purge E nodeID)
  | OpCollectUsage => discard (CollectUsage E)
  | OpPendingUsage => discard (PendingUsage E)
  | OpAckUsage epoch sequence => discard (AckUsage E epoch sequence)
  end.
Fixpoint run_all {W} (E : Env W) (ops : list operation) : M W unit :=
  match ops with
  | [] => mret tt
  | op :: rest => run E op ≫= λ _, run_all E rest
  end.

(** An invariant of the stored record: it survives what a convergence to an
    admissible target in [tgt] may write, and the acknowledgements allowed by
    [acks]; what is stored is in [tgt]. *)
Record invariant (acks : string → N → Prop) (tgt : Snapshot → Prop) (J : StateRecord → Prop) : Prop := {
  iv_stored r s : valid r → J r → sr_Pending r = Some s ∨ sr_Applied r = Some s → tgt s;
  iv_content r r' : same_content r r' → J r → J r';
  iv_usage r m o : valid r → J r → accounts r m o → J (set_usage m o r);
  iv_pending r m o s target : valid r → J r → accounts r m o → admissible r target → tgt target →
    same_state s target → J (set_Pending s (set_usage m o r));
  iv_applied r m o s target : valid r → J r → accounts r m o → admissible r target → tgt target →
    same_state s target → J (set_Applied s (set_usage m o r));
  iv_ack r epoch sequence i b : valid r → J r → acks epoch sequence →
    list_find (λ b, acknowledged epoch sequence b = true) (sr_UsageOutbox r) = Some (i, b) →
    J (set_usage (sr_Meter r) (drop (S i) (sr_UsageOutbox r)) r);
}.

(** What an incoming state becomes, when it is not the stored one. *)
Definition deliverable (tgt : Snapshot → Prop) (desired : DesiredState) : Prop :=
  ∀ checksum now, Valid desired → Checksum (Canonical desired) = Some checksum →
  tgt (MkSnapshot (Canonical desired) checksum "" "" "" false now).

Section invariant.
Context {W : Type} (E : Env W) (stored : W → StateRecord) `{!StoreLaws E stored}.
Context (acks : string → N → Prop) (tgt : Snapshot → Prop) (J : StateRecord → Prop).
Hypothesis HJ : invariant acks tgt J.

Definition sound (r : StateRecord) : Prop := valid r ∧ J r.

Abbreviation K := (λ st : W * list event, sound (stored st.1)).

Lemma calls_keep_sound : calls_keep E K.
Proof using Type*. apply calls_keep_stored, _. Qed.

Lemma clock_sound : keeps K (clock E).
Proof using Type*. apply (rk_clock _ _ (ck_reads _ _ calls_keep_sound)). Qed.

Lemma keeps_save_sound r : J r → keeps K (save E r).
Proof using Type*.
  intros Hr. apply (keeps_save E stored). intros r' Hc Hv. split; [done|].
  by eapply (iv_content _ _ _ HJ).
Qed.

Lemma converge_sound record target rec enf :
  sound record → admissible record target → tgt target → keeps K (converge E record target rec enf).
Proof using Type*.
  intros [Hv Hr] Ha Ht. apply converge_keeps; [apply calls_keep_sound|].
  split; intros m o *; intros; apply keeps_save_sound.
  - by apply (iv_usage _ _ _ HJ).
  - by eapply (iv_pending _ _ _ HJ).
  - by eapply (iv_applied _ _ _ HJ).
Qed.

Lemma load_sound : triple K (load E) (λ a st, K st ∧ ∀ r, a = inr r → sound r).
Proof using Type*.
  apply triple_call. intros w tr Hw. destruct (sl_load w) as [Hl Hx]. cbn in *. rewrite Hl.
  split; [done|]. intros r Hr'. destruct (Hx r Hr') as [Hc Hv]. split; [done|].
  destruct Hw as [_ Hw]. by eapply (iv_content _ _ _ HJ); [apply same_content_sym|].
Qed.

(** Every operation starts with a load and goes on from what it got. *)
Lemma after_load {A} (f : error + StateRecord → M W A) :
  (∀ e, keeps K (f (inl e))) → (∀ r, sound r → keeps K (f (inr r))) → keeps K (load E ≫= f).
Proof using Type*.
  intros He Hr. eapply triple_bind; [apply load_sound|].
  intros [e|r]; intros st [Hst Hx]; [by apply He|]. apply Hr; auto.
Qed.

Lemma admissible_applied r s : sr_Applied r = Some s → admissible r s.
Proof. intros Hs s' Hs'. simplify_eq. split_and!; [done|lia|done]. Qed.

Lemma admissible_pending r s : valid r → sr_Pending r = Some s → admissible r s.
Proof. intros Hv Hs. apply valid_inv in Hv as [_ Hv]. by apply Hv. Qed.

(** A convergence to a stored snapshot. *)
Lemma converge_stored r s rec enf :
  sound r → sr_Pending r = Some s ∨ sr_Applied r = Some s → keeps K (converge E r s rec enf).
Proof using Type*.
  intros Hr Hs. assert (tgt s) as Ht by (destruct Hr; by eapply (iv_stored _ _ _ HJ)).
  apply converge_sound; [done| |done]. destruct Hs as [Hs|Hs].
  - apply admissible_pending; [apply Hr|done].
  - by apply admissible_applied.
Qed.

Lemma incoming_tgt record desired c now :
  sound record → Valid desired → deliverable tgt desired → Checksum (Canonical desired) = Some c →
  tgt (incoming_target record (Canonical desired) c now).
Proof using Type*.
  intros [Hv Hr] Hd Ht Hc. unfold incoming_target.
  destruct (match sr_Pending record with Some s => _ | None => None end) as [p|] eqn:Ep.
  { apply (iv_stored _ _ _ HJ record); [done..|]. left. destruct (sr_Pending record); [|done].
    case_match; [congruence|done]. }
  destruct (match sr_Applied record with Some s => _ | None => None end) as [a|] eqn:Ea; [|by apply Ht].
  apply (iv_stored _ _ _ HJ record); [done..|]. right. destruct (sr_Applied record); [|done].
  case_match; [congruence|done].
Qed.

Lemma Apply_sound desired : deliverable tgt desired → keeps K (Apply E desired).
Proof using Type*.
  intros Ht. unfold Apply. destruct (Validate desired) eqn:Hd; [|apply keeps_ret].
  destruct (Checksum _) as [c|] eqn:Hc; [|apply keeps_ret].
  apply after_load; [intros; apply keeps_ret|]. intros r Hr.
  destruct (validateIncomingGeneration _ _ _ _) eqn:Hin; [apply keeps_ret|].
  apply keeps_bind; [apply clock_sound|]. intros now.
  apply converge_sound; [done| |by apply incoming_tgt].
  apply incoming_admissible; [apply Hr|done].
Qed.

Lemma Recover_sound : keeps K (Recover E).
Proof using Type*.
  unfold Recover. apply after_load; [intros; apply keeps_ret|]. intros r Hr.
  destruct (sr_Pending r) as [p|] eqn:Hp; [|destruct (sr_Applied r) as [a|] eqn:Ha; [|apply keeps_ret]];
    (apply keeps_bind; [apply converge_stored; auto|intros; apply keeps_ret]).
Qed.

Lemma Audit_sound : keeps K (Audit E).
Proof using Type*.
  unfold Audit. apply after_load; [intros; apply keeps_ret|]. intros r Hr.
  destruct (sr_Pending r) as [p|] eqn:Hp; [|destruct (sr_Applied r) as [a|] eqn:Ha; [|apply keeps_ret]];
    apply converge_stored; auto.
Qed.

Lemma Refresh_sound : keeps K (Refresh E).
Proof using Type*.
  unfold Refresh. apply after_load; [intros; apply keeps_ret|]. intros r Hr.
  destruct (sr_Pending r) as [p|] eqn:Hp; [|destruct (sr_Applied r) as [a|] eqn:Ha; [|apply keeps_ret]].
  - apply converge_stored; auto.
  - apply keeps_bind; [apply clock_sound|]. intros now.
    case_bool_decide; [apply keeps_ret|]. apply converge_stored; auto.
Qed.

Lemma Purge_sound nodeID : keeps K (Purge E nodeID).
Proof using Type*.
  unfold Purge. case_match; [apply keeps_ret|]. apply after_load; [intros; apply keeps_ret|].
  intros r Hr. pose proof calls_keep_sound as HP.
  case_bool_decide; [apply keeps_ret|]. destruct (match sr_Applied r with Some _ => _ | None => _ end);
    [apply keeps_ret|].
  destruct (clean_state r nodeID); [apply keeps_ret|]. destruct (Checksum _); [|apply keeps_ret].
  by apply purge_tc_keeps.
Qed.

Lemma CollectUsage_sound : keeps K (CollectUsage E).
Proof using Type*.
  unfold CollectUsage. apply after_load; [intros; apply keeps_ret|]. intros r [Hv Hr].
  apply keeps_bind; [apply clock_sound|]. intros now.
  eapply triple_bind.
  - apply collect_keeps; [apply (ck_reads _ _ calls_keep_sound)|]. intros m o Ha.
    apply keeps_save_sound. by apply (iv_usage _ _ _ HJ).
  - intros a st [Hst _]. exact Hst.
Qed.

Lemma AckUsage_sound epoch sequence : acks epoch sequence → keeps K (AckUsage E epoch sequence).
Proof using Type*.
  intros Hack. unfold AckUsage. apply after_load; [intros; apply keeps_ret|]. intros r [Hv Hr].
  destruct (list_find _ _) as [[i b]|] eqn:Ei; [|apply keeps_ret].
  apply keeps_save_sound. by eapply (iv_ack _ _ _ HJ).
Qed.

Lemma run_sound op :
  (∀ epoch sequence, op = OpAckUsage epoch sequence → acks epoch sequence) →
  (∀ desired, op = OpApply desired → deliverable tgt desired) → keeps K (run E op).
Proof using Type*.
  assert (∀ A (m : M W A), keeps K m → keeps K (discard m)) as Hd.
  { intros A m Hm. apply keeps_bind; [done|]. intros. apply keeps_ret. }
  intros Hop Hap. destruct op; cbn; apply Hd.
  - by apply Apply_sound, Hap.
  - apply Recover_sound.
  - apply Audit_sound.
  - apply Refresh_sound.
  - apply Purge_sound.
  - apply CollectUsage_sound.
  - apply after_load; intros; apply keeps_ret.
  - by apply AckUsage_sound, Hop.
Qed.

Lemma run_all_sound ops :
  (∀ epoch sequence, OpAckUsage epoch sequence ∈ ops → acks epoch sequence) →
  (∀ desired, OpApply desired ∈ ops → deliverable tgt desired) → keeps K (run_all E ops).
Proof using Type*.
  induction ops as [|op ops IH]; intros Hops Hap; [apply keeps_ret|]. cbn.
  apply keeps_bind.
  - apply run_sound; intros * ->; [apply Hops|apply Hap]; left.
  - intros _. apply IH; intros * He; [apply Hops|apply Hap]; by right.
Qed.
End invariant.

Lemma advances_invariant r0 : invariant (λ _ _, True) (λ _, True) (advances r0).
Proof.
  split.
  - done.
  - intros r r' Hc. apply advances_applied. by apply same_content_applied.
  - intros r m o _ Hr _. exact Hr.
  - intros r m o s target _ Hr _ _ _ _. exact Hr.
  - intros r m o s target _ Hr _ Ha _ [Hd Hc]. transitivity r; [done|].
    intros a Ha'. destruct (Ha a Ha') as (Hn & Hg & Hcs). exists (snapshotCopy s). split; [done|].
    unfold node_of, generation_of in *. cbn. rewrite Hd, Hc. done.
  - intros r e q i b _ Hr _ _. exact Hr.
Qed.

(** C5. Whatever the kernel does, whatever fails and in whatever order the
    operations come, the durable record of a node stays valid and only moves
    forward: the node it belongs to never changes, the applied generation never
    decreases, and a generation keeps the state it was first applied with. *)
Theorem operations_advance {W} (E : Env W) (stored : W → StateRecord) `{!StoreLaws E stored} ops w tr :
  valid (stored w) →
  valid (stored (run_all E ops (w, tr)).1.1)
  ∧ advances (stored w) (stored (run_all E ops (w, tr)).1.1).
Proof.
  intros Hv. apply (run_all_sound E stored _ _ _ (advances_invariant (stored w)) ops); [done..|].
  split; [done|reflexivity].
Qed.

(** * The durable intent comes first *)
Section write_ahead.
Context {W : Type} (E : Env W) (intends : StateRecord → Prop).

Definition quiet (st : W * list event) : Prop := ∀ ev, ev ∈ st.2 → mutates ev = false.

(** Every mutation so far is preceded by a successful save of the intent. *)
Definition ahead (st : W * list event) : Prop :=
  ∀ pre ev post, st.2 = pre ++ ev :: post → mutates ev = true →
  ∃ r, ESave r true ∈ pre ∧ intends r.
Definition committed (st : W * list event) : Prop :=
  ahead st ∧ ∃ r, ESave r true ∈ st.2 ∧ intends r.

Lemma quiet_ahead st : quiet st → ahead st.
Proof.
  intros Hq pre ev post Htr Hm. rewrite (Hq ev) in Hm; [done|].
  rewrite Htr. apply elem_of_app. right. left.
Qed.

Lemma quiet_call {A} (op : W → W * A) ev :
  (∀ a, mutates (ev a) = false) → keeps quiet (call op ev).
Proof.
  intros Hev. apply triple_call. intros w tr Hq e [He|He%list_elem_of_singleton]%elem_of_app; [auto|].
  by subst.
Qed.

Lemma app_snoc_cons {A} (tr : list A) x pre y post :
  tr ++ [x] = pre ++ y :: post → (∃ post', tr = pre ++ y :: post') ∨ tr = pre ∧ x = y.
Proof.
  intros H. destruct post as [|z post] using rev_ind.
  - apply app_inj_tail in H as [-> ->]. by right.
  - rewrite app_comm_cons, app_assoc in H. apply app_inj_tail in H as [-> _]. left. eauto.
Qed.

Lemma committed_call {A} (op : W → W * A) ev : keeps committed (call op ev).
Proof.
  apply triple_call. intros w tr [Ha (r & Hr & Hi)]. split.
  - intros pre e post Htr Hm. apply app_snoc_cons in Htr as [[post' Htr]|[<- <-]]; eauto.
  - exists r. split; [|done]. apply elem_of_app. by left.
Qed.

Lemma reads_quiet : reads_keep E quiet.
Proof.
  split; intros; try (by apply quiet_call). intros [w tr] Hq. unfold clock. cbn. destruct (e_now E w). exact Hq.
Qed.

Lemma calls_committed : calls_keep E committed.
Proof.
  split; [split|..]; intros; try (by apply committed_call).
  intros [w tr] Hq. unfold clock. cbn. destruct (e_now E w). exact Hq.
Qed.

Lemma save_intent r :
  intends r →
  triple quiet (save E r) (λ e st, match e with Some _ => quiet st | None => committed st end).
Proof.
  intros Hi. apply triple_call. intros w tr Hq.
  assert (quiet ((e_Save E r w).1, tr ++ [ESave r (bool_decide ((e_Save E r w).2 = None))])) as Hq'.
  { intros e [He|He%list_elem_of_singleton]%elem_of_app; [auto|by subst]. }
  destruct (e_Save E r w).2; [done|]. split; [by apply quiet_ahead|].
  exists r. split; [|done]. apply elem_of_app. right. by apply list_elem_of_singleton.
Qed.

Context (record : StateRecord) (target : Snapshot).
Context (Hintends : ∀ m o s, same_state s target → intends (set_Pending s (set_usage m o record))).

Lemma quiet_post {A} (m : M W A) : keeps quiet m → triple quiet m (λ _, ahead).
Proof. intros H. eapply keeps_post; [done|]. intros _ st. apply quiet_ahead. Qed.

Lemma converge_ahead recovering enforce :
  triple quiet (converge E record target recovering enforce) (λ _, ahead).
Proof using Hintends.
  unfold converge. pose proof reads_quiet as HR.
  assert (∀ A (a : A), triple quiet (mret a : M W A) (λ _, ahead)) as Hret.
  { intros A a. apply quiet_post, keeps_ret. }
  eapply triple_bind; [apply (rk_clock _ _ HR)|]. intros now.
  destruct (compile_plan E record target now) as [e|pl] eqn:Hpl; [apply Hret|].
  apply compile_plan_target in Hpl.
  eapply triple_bind; [apply (rk_inspect _ _ HR)|]. intros [e|installed]; [apply Hret|].
  destruct (check_installed _ _ _ _); [apply Hret|].
  eapply triple_bind; [by apply tc_current_keeps|]. intros t.
  eapply triple_bind; [by apply fabric_current_keeps|]. intros f.
  case_match.
  - case_match; [apply Hret|]. eapply triple_bind; [by apply quiet_call|]. intros e. apply Hret.
  - apply replace_triple with (Pc := committed); [done| | | |].
    + intros m o _. by apply quiet_call.
    + intros e st. apply quiet_ahead.
    + intros m o _. eapply triple_conseq; [apply save_intent; by apply Hintends|done|].
      intros [e|] st; [apply quiet_ahead|done].
    + intros m o script Hacc. cbn zeta. eapply keeps_post; [|intros a st [Ha _]; exact Ha].
      apply commit_keeps; [apply calls_committed|].
      apply (finish_keeps E record target committed m o); [apply calls_committed| |done..].
      split; intros; by apply committed_call.
Qed.
End write_ahead.

(** C2. During [Apply] the kernel is not touched (no script applied, no class,
    link, route or connection changed, not even by a rollback) before a record
    has been saved whose pending snapshot is the state being applied: after a
    crash at any point the next [Recover] finds what was intended. *)
Theorem Apply_write_ahead {W} (E : Env W) desired w st r pre ev post :
  Apply E desired (w, []) = (st, r) → st.2 = pre ++ ev :: post → mutates ev = true →
  ∃ record s, ESave record true ∈ pre ∧ sr_Pending record = Some s
    ∧ generation_of s = ds_Generation desired
    ∧ Checksum desired = Some (sn_Checksum s).
Proof.
  intros Hrun Htr Hm.
  set (intends := λ record, ∃ s, sr_Pending record = Some s ∧ generation_of s = ds_Generation desired
                              ∧ Checksum desired = Some (sn_Checksum s)).
  assert (triple quiet (Apply E desired) (λ _, ahead intends)) as H.
  { unfold Apply. pose proof (reads_quiet E) as HR.
    assert (∀ A (a : A), triple quiet (mret a : M W A) (λ _, ahead intends)) as Hret.
    { intros A a. apply quiet_post, keeps_ret. }
    destruct (Validate desired); [|apply Hret].
    destruct (Checksum (Canonical desired)) as [c|] eqn:Hc; [|apply Hret].
    rewrite Checksum_Canonical in Hc.
    eapply triple_bind; [apply (rk_load _ _ HR)|]. intros [e|record]; [apply Hret|].
    destruct (validateIncomingGeneration _ _ _ _); [apply Hret|].
    eapply triple_bind; [apply (rk_clock _ _ HR)|]. intros now.
    assert (generation_of (incoming_target record (Canonical desired) c now) = ds_Generation desired
      ∧ sn_Checksum (incoming_target record (Canonical desired) c now) = c) as [Hg Hck].
    { unfold incoming_target. destruct (sr_Pending record) as [p|]; destruct (sr_Applied record) as [a|];
        repeat case_match; simplify_eq; reflect_bool; try done; by split. }
    apply converge_ahead. intros m o s [Hd Hcs]. exists (snapshotCopy s). cbn. split; [done|].
    unfold generation_of in *. cbn. rewrite Hd, Hcs, Hg, Hck. done. }
  specialize (H (w, [])). rewrite Hrun in H.
  assert (ahead intends st) as Ha by (apply H; by intros ? ?%elem_of_nil).
  destruct (Ha pre ev post Htr Hm) as (record & Hin & s & ? & ? & ?). by exists record, s.
Qed.

(** * Success means verified *)
Section success.
Context {W : Type} (E : Env W) (stored : W → StateRecord) `{!StoreLaws E stored}.
Context (pl : plan).

(** The kernel has shown the target since the last write, to the table's
    inspection and, when [T] and [F], to the shaper's and the fabric's check. *)
Definition shown (T F : Prop) (st : W * list event) : Prop :=
  ∃ pre i post, st.2 = pre ++ EInspect (inr i) :: post ∧ installs (pl_target pl) i = true
  ∧ (∀ ev, ev ∈ post → kernel_write ev = false)
  ∧ (T → ETcVerify (pl_tc pl) true ∈ post) ∧ (F → EFabricVerify (pl_fabric pl) true ∈ post).

Lemma shown_mono (T T' F F' : Prop) st : (T' → T) → (F' → F) → shown T F st → shown T' F' st.
Proof. intros HT HF (pre & i & post & ? & ? & ? & ? & ?). exists pre, i, post. split_and!; auto. Qed.

Lemma shown_snoc T F w w' tr ev :
  kernel_write ev = false → shown T F (w, tr) → shown T F (w', tr ++ [ev]).
Proof.
  intros Hev (pre & i & post & Htr & Hi & Hp & HT & HF). exists pre, i, (post ++ [ev]). cbn in *.
  split_and!; [by rewrite Htr, <-app_assoc|done| |intros H..].
  - intros e [He|He%list_elem_of_singleton]%elem_of_app; [auto|by subst].
  - apply elem_of_app. left. auto.
  - apply elem_of_app. left. auto.
Qed.

Lemma shown_call {A} T F (op : W → W * A) ev :
  (∀ a, kernel_write (ev a) = false) → keeps (shown T F) (call op ev).
Proof. intros Hev. apply triple_call. intros w tr. by apply shown_snoc. Qed.

Lemma shown_last ev w tr T F (T' F' : Prop) :
  kernel_write ev = false → shown T F (w, tr) →
  (T' → T ∨ ev = ETcVerify (pl_tc pl) true) → (F' → F ∨ ev = EFabricVerify (pl_fabric pl) true) →
  shown T' F' (w, tr ++ [ev]).
Proof.
  intros Hev (pre & i & post & Htr & Hi & Hp & HT & HF) HT' HF'.
  exists pre, i, (post ++ [ev]). cbn in *. split_and!; [by rewrite Htr, <-app_assoc|done| |intros H..].
  - intros e [He|He%list_elem_of_singleton]%elem_of_app; [auto|by subst].
  - apply elem_of_app. destruct (HT' H) as [HT1| ->]; [left; auto|right; by apply list_elem_of_singleton].
  - apply elem_of_app. destruct (HF' H) as [HF1| ->]; [left; auto|right; by apply list_elem_of_singleton].
Qed.

Lemma shown_world T F w w' tr : shown T F (w, tr) → shown T F (w', tr).
Proof. done. Qed.

Lemma inspect_shown P :
  triple P (inspect E) (λ r st, ∀ i, r = inr i → installs (pl_target pl) i = true → shown False False st).
Proof.
  apply triple_call. intros w tr _ i Hr Hi. exists tr, i, []. rewrite Hr.
  split_and!; [done|done|by intros ? ?%elem_of_nil|done|done].
Qed.

Context (T F : Prop) (HT : e_tc E = None → T → False) (HF : e_fabric E = None → F → False).

Lemma commit_triple record script result now n t f next
    (Q : Result * option error → W * list event → Prop) :
  (∀ r e st, Q (r, Some e) st) → triple (shown T F) next Q →
  triple (λ _, True) (commit E record pl script result now n t f next) Q.
Proof.
  intros He Hnext. unfold commit.
  assert (∀ P what e, triple P (r ← withRollback E record (sn_Desired (pl_target pl)) now (Wrap what e);
            mret (result, Some r)) Q) as Hfail.
  { intros P what e. apply triple_bind with (R := λ _ _, True); [by intros st|]. intros r.
    apply triple_ret. auto. }
  assert (∀ cond what (op : M W (option error)) rest, triple (λ _, True) rest Q →
    triple (λ _, True) (guarded cond op (λ e, r ← withRollback E record (sn_Desired (pl_target pl)) now
      (Wrap what e); mret (result, Some r)) rest) Q) as Hg.
  { intros cond what op rest Hr. apply triple_guarded with (R := λ _ _, True);
      [by intros _ st|by intros _ e|by case_match]. }
  assert (triple (λ _, True) (verified ← inspect E;
    match verified with
    | inl e => r ← withRollback E record (sn_Desired (pl_target pl)) now
                     (Wrap "verify applied nft generation" e); mret (result, Some r)
    | inr verified =>
        if negb (in_Exists verified) || negb (installs (pl_target pl) verified)
        then r ← withRollback E record (sn_Desired (pl_target pl)) now
               (Wrap "verify applied nft generation" (Plain "installed differs")); mret (result, Some r)
        else match e_tc E with
        | Some tc => guarded true (call (tc_Verify tc (pl_tc pl))
            (λ e, ETcVerify (pl_tc pl) (bool_decide (e = None))))
            (λ e, r ← withRollback E record (sn_Desired (pl_target pl)) now
               (Wrap "verify applied tc program" e); mret (result, Some r))
            (match e_fabric E with
             | Some fb => guarded true (call (fb_Verify fb (pl_fabric pl))
                 (λ e, EFabricVerify (pl_fabric pl) (bool_decide (e = None))))
                 (λ e, r ← withRollback E record (sn_Desired (pl_target pl)) now
                    (Wrap "verify applied fabric program" e); mret (result, Some r)) next
             | None => next end)
        | None => match e_fabric E with
             | Some fb => guarded true (call (fb_Verify fb (pl_fabric pl))
                 (λ e, EFabricVerify (pl_fabric pl) (bool_decide (e = None))))
                 (λ e, r ← withRollback E record (sn_Desired (pl_target pl)) now
                    (Wrap "verify applied fabric program" e); mret (result, Some r)) next
             | None => next end
        end
    end) Q) as Hverify.
  { eapply triple_bind; [apply inspect_shown|]. intros [e|i]; [apply Hfail|].
    destruct (negb (in_Exists i) || negb (installs (pl_target pl) i)) eqn:Ei; [apply Hfail|].
    apply orb_false_iff in Ei as [_ Ei]. apply negb_false_iff in Ei.
    assert (triple (shown T False)
      match e_fabric E with
      | Some fb => guarded true (call (fb_Verify fb (pl_fabric pl))
          (λ e, EFabricVerify (pl_fabric pl) (bool_decide (e = None))))
          (λ e, r ← withRollback E record (sn_Desired (pl_target pl)) now
             (Wrap "verify applied fabric program" e); mret (result, Some r)) next
      | None => next end Q) as Hfab.
    { destruct (e_fabric E) as [fb|] eqn:Ef.
      - apply triple_guarded with (R := λ e st, e = None → shown T F st).
        + intros _. apply triple_call. intros w tr Hs Hn. rewrite Hn.
          eapply shown_last; [done|exact Hs|auto|]. by right.
        + intros _ e. apply Hfail.
        + eapply triple_conseq; [exact Hnext|intros st Hs; by apply Hs|done].
      - eapply triple_conseq; [exact Hnext| |done]. intros st.
        apply shown_mono; [done|auto]. }
    destruct (e_tc E) as [tc|] eqn:Et.
    - apply triple_guarded with (R := λ e st, e = None → shown T False st).
      + intros _. apply triple_call. intros w tr Hs Hn. rewrite Hn.
        eapply shown_last; [done|exact (Hs i eq_refl Ei)| |auto]. by right.
      + intros _ e. apply Hfail.
      + eapply triple_conseq; [exact Hfab|intros st Hs; by apply Hs|done].
    - eapply triple_conseq; [exact Hfab| |done]. intros st Hs.
      eapply shown_mono; [| |exact (Hs i eq_refl Ei)]; auto. }
  destruct (e_fabric E) as [fb|] eqn:Ef, (e_tc E) as [tc|] eqn:Et;
    repeat apply Hg; exact Hverify.
Qed.

(** The stored record says that the target is applied and nothing is pending. *)
Definition settled (s : Snapshot) (r : StateRecord) : Prop :=
  sr_Pending r = None
  ∧ ∃ a, sr_Applied r = Some a ∧ sn_Checksum a = sn_Checksum s
         ∧ sn_ProgramChecksum a = sn_ProgramChecksum s.

Lemma settled_content s r r' : same_content r r' → settled s r → settled s r'.
Proof. intros [= Ha Hp ? ?]. unfold settled. by rewrite Ha, Hp. Qed.

Lemma save_applied_settled s s' m o record :
  sn_Checksum s' = sn_Checksum s → sn_ProgramChecksum s' = sn_ProgramChecksum s →
  triple (shown T F) (save E (set_Applied s' (set_usage m o record)))
    (λ e st, e = None → shown T F st ∧ settled s (stored st.1)).
Proof using Type*.
  intros Hc Hp. apply triple_call. intros w tr Hs Hn. split.
  { by eapply shown_snoc. }
  cbn in *. destruct (sl_save (set_Applied s' (set_usage m o record)) w) as [[_ Hx]|[Hx _]]; [done|].
  eapply settled_content; [exact Hx|]. split; [done|]. by exists (snapshotCopy s').
Qed.

(** What a success of a convergence means. *)
Definition achieved (a : Result * option error) (st : W * list event) : Prop :=
  a.2 = None → shown T F st ∧ settled (pl_target pl) (stored st.1).

Lemma achieved_error P r e : triple P (mret (r, Some e)) achieved.
Proof. by intros st _. Qed.

Lemma finish_achieved m o record result force cl ch :
  triple (shown T F) (finish E (set_usage m o record) (pl_target pl) result force cl ch) achieved.
Proof using Type*.
  apply finish_triple with (target := pl_target pl); [done| |done|].
  - intros d n l _. by apply shown_call.
  - intros s' r r' [_ Hc] Hp. eapply triple_conseq; [by apply save_applied_settled|done|].
    intros [e|] st Hst; [done|]. intros _. by apply Hst.
Qed.

Lemma replace_achieved record result now ex n t f force cl :
  triple (λ _, True) (replace E record pl result now ex n t f force cl) achieved.
Proof using Type*.
  apply replace_triple with (Pc := λ _, True); [by repeat split|done|done|..].
  - intros m o _ st _. by destruct (save _ _ _) as [st' [e|]].
  - intros m o script _. cbn zeta. apply commit_triple; [done|].
    apply (finish_achieved m o (set_Pending (pl_target pl) record)).
Qed.

(** The kernel already shows the target: nothing is written but the record. *)
Definition looking (record : StateRecord) (T' F' N : Prop) (st : W * list event) : Prop :=
  same_content record (stored st.1) ∧ (N → shown T' F' st).

Lemma tc_current_looking record N :
  triple (looking record False False N) (tc_current E record pl)
    (λ b st, looking record T False (N ∧ b = true) st).
Proof using Type*.
  unfold tc_current. destruct (e_tc E) as [tc|] eqn:Et.
  - case_match.
    + eapply triple_bind with (R := λ e st, looking record T False (N ∧ e = None) st).
      * apply triple_call. intros w tr [Hc Hs]. destruct (sl_tc tc (pl_tc pl) w Et) as (_ & _ & Hst).
        split; cbn in *; [by rewrite Hst|]. intros [HN He]. rewrite He.
        eapply shown_last; [done|by apply Hs| |auto]. by right.
      * intros e. apply triple_ret. intros st [Hc Hs]. split; [done|].
        intros [HN He]. reflect_bool. auto.
    + apply triple_ret. intros st [Hc _]. split; [done|]. by intros [_ ?].
  - apply triple_ret. intros st [Hc Hs]. split; [done|]. intros [HN _].
    eapply shown_mono; [..|by apply Hs]; auto.
Qed.

Lemma fabric_current_looking record N :
  triple (looking record T False N) (fabric_current E record pl)
    (λ b st, looking record T F (N ∧ b = true) st).
Proof using Type*.
  unfold fabric_current. destruct (e_fabric E) as [fb|] eqn:Ef.
  - case_match.
    + eapply triple_bind with (R := λ e st, looking record T F (N ∧ e = None) st).
      * apply triple_call. intros w tr [Hc Hs].
        destruct (sl_fabric fb (pl_fabric pl) (pl_fabric pl) w Ef) as (_ & _ & _ & Hst).
        split; cbn in *; [by rewrite Hst|]. intros [HN He]. rewrite He.
        eapply shown_last; [done|by apply Hs|auto|]. by right.
      * intros e. apply triple_ret. intros st [Hc Hs]. split; [done|].
        intros [HN He]. reflect_bool. auto.
    + apply triple_ret. intros st [Hc _]. split; [done|]. by intros [_ ?].
  - apply triple_ret. intros st [Hc Hs]. split; [done|]. intros [HN _].
    eapply shown_mono; [..|by apply Hs]; auto.
Qed.

Lemma recorded_settled record :
  recorded record (pl_target pl) = true → settled (pl_target pl) record.
Proof.
  unfold recorded, settled. destruct (sr_Pending record); [done|].
  destruct (sr_Applied record) as [a|]; [|done]. intros Hr. reflect_bool. split; [done|]. by exists a.
Qed.
End success.

Lemma converge_achieved {W} (E : Env W) stored `{!StoreLaws E stored} record target rec enf :
  triple (λ st, same_content record (stored st.1)) (converge E record target rec enf)
    (λ a st, a.2 = None → ∃ pl now, compile_plan E record target now = inr pl
       ∧ shown pl (is_Some (e_tc E)) (is_Some (e_fabric E)) st
       ∧ settled (pl_target pl) (stored st.1)).
Proof.
  unfold converge. pose proof (calls_keep_stored E stored (same_content record)) as HK.
  eapply triple_bind; [apply (rk_clock _ _ (ck_reads _ _ HK))|]. intros now.
  destruct (compile_plan E record target now) as [e|pl] eqn:Hpl; [by intros st _|].
  assert (e_tc E = None → is_Some (e_tc E) → False) as HT by (intros ->; by intros [? ?]).
  assert (e_fabric E = None → is_Some (e_fabric E) → False) as HF by (intros ->; by intros [? ?]).
  apply triple_conseq with (P' := λ st, same_content record (stored st.1))
    (Q' := achieved stored pl (is_Some (e_tc E)) (is_Some (e_fabric E))); [|done|].
  2:{ intros a st Ha Hn. exists pl, now. by split; [|apply Ha]. }
  eapply triple_bind with (R := λ r st, same_content record (stored st.1)
    ∧ ∀ i, r = inr i → installs (pl_target pl) i = true → shown pl False False st).
  { intros st Hst. split; [by apply (rk_inspect _ _ (ck_reads _ _ HK))|].
    by apply (inspect_shown E pl (λ _, True)). }
  intros [e|i]; [by intros st _|]. destruct (check_installed _ _ _ _); [by intros st _|].
  eapply triple_bind; [eapply triple_conseq|].
  { eapply (tc_current_looking E stored pl _ _ HT HF record (installs (pl_target pl) i = true)). }
  { intros st [Hc Hi]. split; [done|]. by apply Hi. }
  { intros a st Ha. exact Ha. }
  intros t. eapply triple_bind; [by apply (fabric_current_looking E stored pl _ _ HT HF)|]. intros f.
  case_match eqn:Hcur.
  - reflect_bool. case_match eqn:Hr.
    + apply triple_ret. intros st [Hc Hs] _. split; [by apply Hs|].
      eapply settled_content; [exact Hc|]. by apply recorded_settled.
    + eapply triple_bind with (R := λ e st, e = None → shown pl (is_Some (e_tc E)) (is_Some (e_fabric E)) st
          ∧ settled (pl_target pl) (stored st.1)); [|by intros e st].
      rewrite (set_usage_id record). eapply triple_conseq; [by apply (save_applied_settled E stored pl)| |].
      * intros st [_ Hs]. by apply Hs.
      * intros e st Hs He. by apply Hs.
  - eapply triple_conseq; [by apply (replace_achieved E stored pl)|done|done].
Qed.
