(* ===== verification/ReconcilerOutcome.v ===== *)
(** What an operation of the reconciler leaves behind: a success is a kernel
    that has been verified and a record that says so, stale input changes
    nothing, and usage is charged once. *)
From S2P Require Import Prelude.
From S2P Require Import GoNet.
From S2P Require Import SpecTypes.
From S2P Require Import SpecCanonical.
From S2P Require Import SpecValidate.
From S2P Require Import SpecChecksum.
From S2P Require Import Meter.
From S2P Require Import FabricCompiler.
From S2P Require Import NftCompiler.
From S2P Require Import TcCompiler.
From S2P Require Import AgentStore.
From S2P Require Import Reconciler.
From S2P Require Import ReconcilerFacts.
From S2P Require Import ReconcilerSafety.

(** * Incoming states *)

(** The stored state that is the incoming one, or a fresh snapshot of it. *)
Lemma incoming_target_state record desired c now :
  let target := incoming_target record (Canonical desired) c now in
  generation_of target = ds_Generation desired ∧ sn_Checksum target = c.
Proof.
  unfold incoming_target.
  destruct (sr_Pending record) as [p|]; destruct (sr_Applied record) as [a|];
    repeat case_match; simplify_eq; reflect_bool; done.
Qed.

(** The programs a convergence to [target] verifies. *)
Lemma compile_plan_programs {W} (E : Env W) record target now pl :
  compile_plan E record target now = inr pl →
  (∃ p, Nft.CompileAt (sn_Desired target) (sn_Checksum target) false now = inr p
        ∧ Nft.np_ProgramChecksum p = sn_ProgramChecksum (pl_target pl))
  ∧ (∀ tc, e_tc E = Some tc →
       Tc.Compile (tc_config tc) (sn_Desired target) (sn_Checksum target) = inr (pl_tc pl))
  ∧ (∀ fb, e_fabric E = Some fb →
       Fabric.Compile (sn_Desired target) (sn_Checksum target) = inr (pl_fabric pl)).
Proof.
  unfold compile_plan, compile_tc, compile_fabric.
  destruct (Nft.CompileAt _ _ _ _) as [|p] eqn:Hp; [done|]. cbn.
  destruct (e_tc E), (e_fabric E); repeat case_match; try done; intros; simplify_eq; cbn in *;
    (split_and!; [by exists p|intros ? [= <-] || intros ? [=]; done..]).
Qed.

(** C6. When [Apply] answers without an error, the kernel has shown the
    desired state after the last change made to it: the table was inspected and
    carries the generation, the desired checksum and the checksum of the
    compiled program, the shaper and the fabric, where configured, were verified
    against the programs compiled for it, and no kernel write came after; and
    the durable record says that this state is applied and nothing is pending. *)
Theorem Apply_success {W} (E : Env W) (stored : W → StateRecord) `{!StoreLaws E stored}
    desired w tr st r :
  Apply E desired (w, tr) = (st, (r, None)) →
  ∃ s now pre i post,
    generation_of s = ds_Generation desired ∧ Checksum desired = Some (sn_Checksum s)
    ∧ (∃ p, Nft.CompileAt (sn_Desired s) (sn_Checksum s) false now = inr p
            ∧ in_ProgramChecksum i = Nft.np_ProgramChecksum p)
    ∧ st.2 = pre ++ EInspect (inr i) :: post
    ∧ in_Managed i = true ∧ in_Generation i = ds_Generation desired
    ∧ in_DesiredChecksum i = sn_Checksum s
    ∧ (∀ ev, ev ∈ post → kernel_write ev = false)
    ∧ (∀ tc, e_tc E = Some tc → ∃ p,
         Tc.Compile (tc_config tc) (sn_Desired s) (sn_Checksum s) = inr p ∧ ETcVerify p true ∈ post)
    ∧ (∀ fb, e_fabric E = Some fb → ∃ p,
         Fabric.Compile (sn_Desired s) (sn_Checksum s) = inr p ∧ EFabricVerify p true ∈ post)
    ∧ sr_Pending (stored st.1) = None
    ∧ ∃ a, sr_Applied (stored st.1) = Some a ∧ sn_Checksum a = sn_Checksum s
           ∧ sn_ProgramChecksum a = in_ProgramChecksum i.
Proof.
  set (Q := λ (a : Result * option error) st, a.2 = None → ∃ record target now pl,
    compile_plan E record target now = inr pl
    ∧ generation_of target = ds_Generation desired ∧ Checksum desired = Some (sn_Checksum target)
    ∧ shown pl (is_Some (e_tc E)) (is_Some (e_fabric E)) st
    ∧ settled (pl_target pl) (stored st.1)).
  assert (triple (λ _, True) (Apply E desired) Q) as H.
  { unfold Apply. destruct (Validate desired); [|by intros st' _].
    destruct (Checksum (Canonical desired)) as [c|] eqn:Hc; [|by intros st' _].
    rewrite Checksum_Canonical in Hc.
    apply triple_bind with (R := λ a st, ∀ record, a = inr record → same_content record (stored st.1)).
    { apply triple_call. intros w' tr' _ record Hr. destruct (sl_load w') as [Hl Hx]. cbn in *.
      rewrite Hl. by apply Hx. }
    intros [e|record]; [by intros st' _|].
    destruct (validateIncomingGeneration _ _ _ _); [by intros st' _|].
    apply triple_bind with (R := λ _ st, same_content record (stored st.1)).
    { intros st' Hst. specialize (Hst _ eq_refl).
      by apply (rk_clock _ _ (ck_reads _ _ (calls_keep_stored E stored (same_content record)))). }
    intros now. eapply triple_conseq; [by apply converge_achieved|done|].
    intros a st' Ha Hn. destruct (Ha Hn) as (pl & now' & Hpl & Hs & Hset).
    destruct (incoming_target_state record desired c now) as [Hg Hck].
    eexists record, _, now', pl. split_and!; [exact Hpl|done|by rewrite Hck|done..]. }
  intros Hrun. specialize (H (w, tr) I). rewrite Hrun in H.
  destruct (H eq_refl) as (record & target & now & pl & Hpl & Hg & Hc & Hs & Hp & a & Ha & Hac & Hap).
  destruct (compile_plan_target _ _ _ _ _ Hpl) as [Hd Hck].
  destruct (compile_plan_programs _ _ _ _ _ Hpl) as ((p & Hcp & Hpp) & Htc & Hfb).
  destruct Hs as (pre & i & post & Htr & Hi & Hpost & HT & HF). cbn [snd] in Htr.
  unfold installs, generation_of in *. reflect_bool. rewrite Hd, Hck in *.
  exists target, now, pre, i, post. unfold generation_of. split_and!; try congruence; try done.
  - exists p. split; congruence.
  - intros tc Htc'. exists (pl_tc pl). split; [by apply Htc|]. apply HT. by eexists.
  - intros fb Hfb'. exists (pl_fabric pl). split; [by eapply Hfb|]. apply HF. by eexists.
  - exists a. split_and!; [exact Ha|congruence..].
Qed.

(** The node a valid record belongs to is that of each of its snapshots. *)
Lemma expected_node record s :
  valid record → sr_Applied record = Some s ∨ sr_Pending record = Some s →
  node_of s ≠ "" ∧
  match sr_Applied record, sr_Pending record with
  | Some applied, _ => node_of applied
  | None, Some pending => node_of pending
  | None, None => ""
  end = node_of s.
Proof.
  intros Hv Hs. apply valid_inv in Hv as [Hall Hpend]. split; [by eapply node_nonempty, Hall|].
  destruct Hs as [Hs|Hs]; rewrite Hs; [done|].
  destruct (sr_Applied record) as [a|] eqn:Ha; [|done]. by destruct (Hpend s Hs a Ha) as (-> & _).
Qed.

(** The kind of error an incoming state deserves against a stored one. *)
Definition behind (desired : DesiredState) (s : Snapshot) : sentinel :=
  if ds_Generation desired <? generation_of s then ErrStaleGeneration else ErrGenerationConflict.
Definition refusal (record : StateRecord) (s : Snapshot) (desired : DesiredState)
    (checksum : string) : sentinel :=
  if negb (bool_decide (ds_NodeID desired = node_of s)) then ErrNodeIdentity
  else match sr_Applied record with
  | Some a =>
      if (ds_Generation desired <? generation_of a)
         || (ds_Generation desired =? generation_of a)
            && negb (bool_decide (checksum = sn_Checksum a))
      then behind desired a else behind desired s
  | None => behind desired s
  end.

(** C27. A state for another node, older than a stored one, or different from a
    stored one at the same generation is refused: nothing but the record is
    read, nothing is written, and the error is the one of its kind (a state
    that is only older than the pending one may be reported as a conflict with
    the applied one). *)
Theorem Apply_refuses {W} (E : Env W) desired checksum w w' tr record s :
  Validate desired = [] → Checksum desired = Some checksum →
  e_Load E w = (w', inr record) → valid record →
  sr_Applied record = Some s ∨ sr_Pending record = Some s →
  ds_NodeID desired ≠ node_of s ∨ ds_Generation desired < generation_of s
  ∨ ds_Generation desired = generation_of s ∧ checksum ≠ sn_Checksum s →
  ∃ e, Apply E desired (w, tr) = ((w', tr ++ [ELoad]), (ResultZero, Some e))
    ∧ errors_Is e (refusal record s desired checksum) = true.
Proof.
  intros Hval Hc Hload Hv Hs Hbad. destruct (expected_node record s Hv Hs) as [Hne Hnode].
  assert (∃ e, validateIncomingGeneration record (ds_NodeID (Canonical desired))
    (ds_Generation (Canonical desired)) checksum = Some e ∧ errors_Is e (refusal record s desired checksum) = true) as (e & He & Hkind).
  { unfold validateIncomingGeneration, refusal, behind. rewrite Hnode, (bool_decide_eq_false_2 _ Hne).
    cbn [ds_NodeID ds_Generation Canonical negb andb]. case_bool_decide as Hn; cbn [negb andb].
    2:{ by eexists. }
    destruct Hbad as [|Hbad]; [done|].
    assert (∀ what, ∃ e,
      (if ds_Generation desired <? generation_of s
       then Some (Wrap ("received generation is before the " +:+ what +:+ " one") (Sentinel ErrStaleGeneration))
       else if (ds_Generation desired =? generation_of s) && negb (bool_decide (checksum = sn_Checksum s))
       then Some (Wrap ("generation is " +:+ what) (Sentinel ErrGenerationConflict)) else None) = Some e
      ∧ errors_Is e (behind desired s) = true) as Hagainst.
    { intros what. unfold behind. destruct (N.ltb_spec (ds_Generation desired) (generation_of s)); [by eexists|].
      destruct Hbad as [|[-> Hck]]; [lia|]. rewrite N.eqb_refl, bool_decide_eq_false_2 by done.
      by eexists. }
    destruct Hs as [Hs|Hs]; rewrite Hs.
    - destruct (Hagainst "applied") as (e & -> & He). exists e. split; [done|].
      by destruct (_ || _).
    - destruct (sr_Applied record) as [a|]; [|by apply Hagainst].
      unfold behind. destruct (ds_Generation desired <? generation_of a); [by eexists|]. cbn [orb].
      destruct ((ds_Generation desired =? generation_of a)
          && negb (bool_decide (checksum = sn_Checksum a))); [by eexists|].
      by apply Hagainst. }
  exists e. split; [|exact Hkind]. unfold Apply. rewrite Hval, Checksum_Canonical, Hc.
  unfold mbind, M_bind, load, call. cbn [fst]. rewrite Hload. cbn [snd].
  by rewrite He.
Qed.

(** * Usage *)
Definition usage_of (r : StateRecord) : Meter.State * list Meter.Usage.Batch :=
  (sr_Meter r, sr_UsageOutbox r).

(** The batch carries the observation: its epoch, sequence and figures. *)
Definition carries (b : Meter.Usage.Batch) (mb : Meter.Batch) : Prop :=
  Meter.Usage.ub_Epoch b = Meter.bt_Epoch mb ∧ Meter.Usage.ub_Sequence b = Meter.bt_Sequence mb
  ∧ map (λ d, (Meter.Usage.ud_Packets d, Meter.Usage.ud_Bytes d, Meter.Usage.ud_Reset d))
      (Meter.Usage.ub_Deltas b)
    = map (λ d, (Meter.dl_Packets d, Meter.dl_Bytes d, Meter.dl_Reset d)) (Meter.bt_Deltas mb).

(** One durable step of usage accounting. *)
Inductive usage_step (acks : string → N → Prop) :
    relation (Meter.State * list Meter.Usage.Batch) :=
  | step_silent m o epoch samples m' mb :
      Meter.Observe m epoch samples = inr (m', mb) →
      existsb Meter.delta_counts (Meter.bt_Deltas mb) = false →
      usage_step acks (m, o) (m', o)
  | step_observe m o epoch samples m' mb b :
      Meter.Observe m epoch samples = inr (m', mb) → carries b mb →
      usage_step acks (m, o) (m', o ++ [b])
  | step_ack m o i b :
      o !! i = Some b → acks (Meter.Usage.ub_Epoch b) (Meter.Usage.ub_Sequence b) →
      usage_step acks (m, o) (m, drop (S i) o).

Lemma account_step acks r applied program bindings raw now r' :
  account r applied program bindings raw now = inr r' →
  usage_step acks (usage_of r) (usage_of r').
Proof.
  unfold account, Meter.NewTracker. case_bool_decide; [done|].
  destruct (_ && _); [done|]. destruct (Meter.Observe _ _ _) as [|[m' mb]] eqn:Hobs; [done|].
  destruct (existsb _ _) eqn:Hx; cbn [negb].
  - destruct (Meter.Usage.Validate _); [done|]. intros [= <-].
    eapply step_observe; [exact Hobs|]. split_and!; [done|done|]. cbn. by rewrite map_map.
  - intros [= <-]. by eapply step_silent.
Qed.

Lemma accounts_step acks r m o :
  accounts r m o → rtc (usage_step acks) (usage_of r) (m, o).
Proof.
  intros [|applied program bindings raw now r' Ha Hr]; [done|].
  eapply rtc_once, account_step, Hr.
Qed.

Lemma same_content_usage r r' : same_content r r' → usage_of r = usage_of r'.
Proof. unfold usage_of. by intros [= ? ? -> ->]. Qed.

Lemma usage_invariant acks u0 : invariant acks (λ _, True) (λ r, rtc (usage_step acks) u0 (usage_of r)).
Proof.
  split.
  - done.
  - intros r r' Hc. by rewrite (same_content_usage _ _ Hc).
  - intros r m o _ Hr Ha. etrans; [exact Hr|]. by apply accounts_step.
  - intros r m o s target _ Hr Ha _ _ _. etrans; [exact Hr|]. by apply accounts_step.
  - intros r m o s target _ Hr Ha _ _ _. etrans; [exact Hr|]. by apply accounts_step.
  - intros r epoch sequence i b _ Hr Hack Hi. eapply rtc_r; [exact Hr|].
    apply list_find_Some in Hi as (Hi & Hb & _). unfold acknowledged in Hb. reflect_bool. subst.
    by eapply step_ack.
Qed.

(** C26. The meter and the outbox of the durable record change only together:
    whatever fails and in whatever order the operations come, they go from
    their first to their last value by steps each of which is one observation,
    saved with the batch that carries exactly its figures, or drops a prefix of
    the outbox that ends with a batch an [AckUsage] named. No traffic the meter
    has counted is charged twice or not at all. *)
Theorem operations_account {W} (E : Env W) (stored : W → StateRecord) `{!StoreLaws E stored} ops w tr :
  valid (stored w) →
  rtc (usage_step (λ epoch sequence, OpAckUsage epoch sequence ∈ ops))
    (usage_of (stored w)) (usage_of (stored (run_all E ops (w, tr)).1.1)).
Proof.
  intros Hv. apply (run_all_sound E stored _ _ _ (usage_invariant _ (usage_of (stored w))) ops).
  - done.
  - done.
  - split; [done|]. apply rtc_refl.
Qed.
