(* ===== verification/ReconcilerWorld.v ===== *)
(** The reconciler over its own file store: the store of [store.go] keeps what
    the reconciler relies on, on any kernel and with any failures of the
    operating system, and a crash leaves the old record or the new one. The
    theorems are then applied to a node that is given its first state. *)
From S2P Require Import Prelude.
From S2P Require Import GoNet.
From S2P Require Import SpecTypes.
From S2P Require Import SpecCanonical.
From S2P Require Import SpecValidate.
From S2P Require Import SpecSamples.
From S2P Require Import SpecChecksum.
From S2P Require Import Meter.
From S2P Require Import FabricCompiler.
From S2P Require Import NftCompiler.
From S2P Require Import TcCompiler.
From S2P Require Import AgentStore.
From S2P Require Import Reconciler.
From S2P Require Import ReconcilerFacts.
From S2P Require Import ReconcilerSafety.
From S2P Require Import ReconcilerOutcome.

(** * The file store *)
Section file_store.
Context {K : Type} (kernel : Env K) (osys : K → K * (FileStore.syscall → bool)).

Definition on_kernel {A} (op : K → K * A) (w : FileStore.directory * K) :
    (FileStore.directory * K) * A :=
  let '(k, a) := op w.2 in ((w.1, k), a).

Definition traffic_over (tc : TrafficBackend K) : TrafficBackend (FileStore.directory * K) :=
  {| tc_config := tc_config tc;
     tc_Check p := on_kernel (tc_Check tc p);
     tc_Apply p := on_kernel (tc_Apply tc p);
     tc_Verify p := on_kernel (tc_Verify tc p) |}.

Definition fabric_over (fb : FabricBackend K) : FabricBackend (FileStore.directory * K) :=
  {| fb_Check p q := on_kernel (fb_Check fb p q);
     fb_Prepare p := on_kernel (fb_Prepare fb p);
     fb_Cleanup p q := on_kernel (fb_Cleanup fb p q);
     fb_Verify p := on_kernel (fb_Verify fb p) |}.

(** The kernel's environment, its store replaced by the file store. *)
Definition with_file_store : Env (FileStore.directory * K) :=
  {| e_now := on_kernel (e_now kernel);
     e_Inspect := on_kernel (e_Inspect kernel);
     e_Check s := on_kernel (e_Check kernel s);
     e_Apply s := on_kernel (e_Apply kernel s);
     e_ReadCounters := on_kernel <$> e_ReadCounters kernel;
     e_tc := traffic_over <$> e_tc kernel;
     e_conntrack := (λ d n l, on_kernel (d n l)) <$> e_conntrack kernel;
     e_fabric := fabric_over <$> e_fabric kernel;
     e_Load w := (w, match FileStore.load w.1 with inl e => inl (Plain e) | inr r => inr r end);
     e_Save r w :=
       let '(k, faults) := osys w.2 in
       let '(d, e) := FileStore.save faults r w.1 in ((d, k), Plain <$> e) |}.

Definition stored (w : FileStore.directory * K) : StateRecord :=
  match FileStore.load w.1 with inr r => r | inl _ => EmptyStateRecord end.
End file_store.

Lemma valid_set_Version r : valid r → valid (set_Version stateRecordVersion r).
Proof.
  unfold valid, StateRecord_Validate.
  destruct ((sr_Version r <? 1) || (stateRecordVersion <? sr_Version r)); [done|exact id].
Qed.

Lemma load_valid d r : FileStore.load d = inr r → valid r.
Proof.
  unfold FileStore.load. destruct (FileStore.d_state d) as [|why|record]; [|done|].
  { intros H. injection H as <-. reflexivity. }
  destruct (StateRecord_Validate record) eqn:Hv; [done|].
  destruct (_ <? _); intros H; simplify_eq; [by apply valid_set_Version|done].
Qed.


Lemma save_outcome faults record d :
  let '(d', e) := FileStore.save faults record d in
  FileStore.d_state d' = FileStore.d_state d ∧ e ≠ None
  ∨ FileStore.d_state d' = FileStore.Holds (set_Version stateRecordVersion record)
    ∧ valid (set_Version stateRecordVersion record).
Proof.
  unfold FileStore.save, valid. destruct (StateRecord_Validate _) as [e|] eqn:Hv; cbv beta iota; [by left|].
  unfold FileStore.syscalls. cbn [FileStore.run].
  repeat match goal with
    |- context [faults ?c] => destruct (faults c); [cbn; first [by left|by right]|]
  end. by right.
Qed.

Lemma load_holds d r :
  FileStore.d_state d = FileStore.Holds (set_Version stateRecordVersion r) →
  valid (set_Version stateRecordVersion r) →
  FileStore.load d = inr (set_Version stateRecordVersion r).
Proof. unfold FileStore.load, valid. intros -> ->. done. Qed.

#[export] Instance file_store_laws {K} (kernel : Env K) osys :
  StoreLaws (with_file_store kernel osys) stored.
Proof.
  assert (∀ A (op : K → K * A) w, stored (on_kernel op w).1 = stored w) as Hk.
  { intros A op w. unfold on_kernel. by destruct (op w.2). }
  split; try (intros; apply Hk).
  - intros w. split; [done|]. cbn. unfold stored. intros r Hr.
    destruct (FileStore.load w.1) as [e|r'] eqn:Hl; [done|]. simplify_eq.
    split; [done|]. by eapply load_valid.
  - intros r [d k]. cbn. destruct (osys k) as [k' faults].
    pose proof (save_outcome faults r d) as H. destruct (FileStore.save faults r d) as [d' e].
    unfold stored. cbn. destruct H as [[Hd He]|[Hd Hv]].
    + left. unfold FileStore.load. rewrite Hd. split; [done|]. by destruct e.
    + right. by rewrite (load_holds d' r).
  - intros r w. cbn. destruct (e_ReadCounters kernel); [|done]. intros [= <-]. apply Hk.
  - intros d n l w. cbn. destruct (e_conntrack kernel); [|done]. intros [= <-]. apply Hk.
  - intros tc p w. cbn. destruct (e_tc kernel); [|done]. intros [= <-]. split_and!; apply Hk.
  - intros fb p q w. cbn. destruct (e_fabric kernel); [|done]. intros [= <-]. split_and!; apply Hk.
Qed.

(** A crash in the middle of a save leaves a directory that loads as it did
    before, or as the record being saved. *)
Lemma crash_atomic record n d :
  valid (set_Version stateRecordVersion record) →
  FileStore.load (FileStore.crash (set_Version stateRecordVersion record) n d) = FileStore.load d
  ∨ FileStore.load (FileStore.crash (set_Version stateRecordVersion record) n d)
    = inr (set_Version stateRecordVersion record).
Proof.
  intros Hv. unfold FileStore.crash, FileStore.syscalls.
  do 7 (destruct n as [|n]; [by left|]). right. apply load_holds; [|done].
  destruct n as [|[|[|n]]]; reflexivity.
Qed.

(** * A node *)

(** A kernel that remembers the script it was given and answers for it; its
    shaper and its links accept everything. *)
Definition sample_checksum : string := default "" (Checksum idle_state).
Definition sample_installed : InstalledState :=
  {| in_Exists := true; in_Managed := true; in_Generation := 5;
     in_DesiredChecksum := sample_checksum;
     in_ProgramChecksum := Nft.ProgramChecksumAt idle_state sample_checksum 600%Z |}.
Definition not_installed : InstalledState :=
  {| in_Exists := false; in_Managed := false; in_Generation := 0; in_DesiredChecksum := "";
     in_ProgramChecksum := "" |}.

Definition fine {A} (k : option string) : option string * option A := (k, None).
Definition sample_kernel : Env (option string) :=
  {| e_now k := (k, 600%Z);
     e_Inspect k := (k, inr (match k with Some _ => sample_installed | None => not_installed end));
     e_Check _ := fine;
     e_Apply script _ := (Some script, None);
     e_ReadCounters := None;
     e_tc := Some {| tc_config := Tc.Build_Config "eth0" "ifb0" 1500000 100000000 true;
                     tc_Check _ := fine; tc_Apply _ := fine; tc_Verify _ := fine |};
     e_conntrack := None;
     e_fabric := Some {| fb_Check _ _ := fine; fb_Prepare _ := fine; fb_Cleanup _ _ := fine;
                         fb_Verify _ := fine |};
     e_Load k := (k, inl (Plain "no store"));
     e_Save _ k := (k, Some (Plain "no store")) |}.
Definition sample_node : Env (FileStore.directory * option string) :=
  with_file_store sample_kernel (λ k, (k, λ _, false)).
Definition fresh_node : FileStore.directory * option string :=
  (FileStore.Directory FileStore.Missing None, None).

Definition sample_run := Apply sample_node idle_state (fresh_node, []).

Example sample_trace :
  map (λ ev, match ev with
       | ELoad => "load" | ESave _ true => "save" | ESave _ false => "save failed"
       | EInspect _ => "inspect" | ECheck _ => "nft check" | EApply _ => "nft apply"
       | ETcCheck _ => "tc check" | ETcApply _ => "tc apply" | ETcVerify _ _ => "tc verify"
       | EFabricCheck _ _ => "fabric check" | EPrepare _ => "fabric prepare"
       | ECleanup _ _ => "fabric cleanup" | EFabricVerify _ _ => "fabric verify"
       | EReadCounters => "counters" | EConntrack => "conntrack" end) sample_run.1.2
  = ["load"; "inspect"; "nft check"; "tc check"; "fabric check"; "save"; "fabric prepare";
     "nft apply"; "tc apply"; "fabric cleanup"; "inspect"; "tc verify"; "fabric verify"; "save"].
Proof. vm_compute. reflexivity. Qed.

(** * The theorems at this node *)
Lemma fresh_valid : valid (stored fresh_node).
Proof. reflexivity. Qed.

Lemma operations_advance_witness :
  valid (stored (run_all sample_node [OpApply idle_state; OpRecover; OpPurge "node-a"]
    (fresh_node, [])).1.1).
Proof.
  exact (proj1 (operations_advance sample_node stored
    [OpApply idle_state; OpRecover; OpPurge "node-a"] fresh_node [] fresh_valid)).
Defined.

Lemma operations_account_witness :
  rtc (usage_step (λ epoch sequence,
         OpAckUsage epoch sequence ∈ [OpCollectUsage; OpAckUsage "e" 1; OpApply idle_state]))
    (usage_of (stored fresh_node))
    (usage_of (stored (run_all sample_node [OpCollectUsage; OpAckUsage "e" 1; OpApply idle_state]
       (fresh_node, [])).1.1)).
Proof. exact (operations_account sample_node stored _ fresh_node [] fresh_valid). Defined.

(** The fabric is prepared after the intent was saved. *)
Lemma Apply_write_ahead_witness :
  ∃ pre ev post record s,
  sample_run.1.2 = pre ++ ev :: post ∧ mutates ev = true ∧ ESave record true ∈ pre
  ∧ sr_Pending record = Some s ∧ Checksum idle_state = Some (sn_Checksum s).
Proof.
  assert (∃ ev, sample_run.1.2 !! 6%nat = Some ev ∧ mutates ev = true) as (ev & Hev & Hm)
    by (eexists; split; [vm_compute; reflexivity|reflexivity]).
  apply take_drop_middle in Hev as Htr. symmetry in Htr. revert Htr.
  generalize (take 6 sample_run.1.2) (drop 7 sample_run.1.2). intros pre post Htr.
  destruct (Apply_write_ahead sample_node idle_state fresh_node sample_run.1 sample_run.2 pre ev post)
    as (record & s & Hin & Hp & _ & Hc).
  - unfold sample_run. by destruct (Apply _ _ _).
  - exact Htr.
  - exact Hm.
  - exists pre, ev, post, record, s. split_and!; [exact Htr|exact Hm|exact Hin|exact Hp|exact Hc].
Defined.

Lemma Apply_success_witness :
  sample_run.2.2 = None ∧ sr_Pending (stored sample_run.1.1) = None
  ∧ ∃ a, sr_Applied (stored sample_run.1.1) = Some a ∧ Checksum idle_state = Some (sn_Checksum a).
Proof.
  assert (sample_run.2.2 = None) as Hok by (vm_compute; reflexivity).
  split; [exact Hok|].
  destruct (Apply_success sample_node stored idle_state fresh_node [] sample_run.1 sample_run.2.1)
    as (s & _ & _ & _ & _ & _ & Hc & _ & _ & _ & _ & _ & _ & _ & _ & Hp & a & Ha & Hca & _).
  - rewrite <- Hok. unfold sample_run. by destruct (Apply _ _ _) as [? []].
  - split; [exact Hp|]. exists a. split; [exact Ha|]. by rewrite Hca.
Defined.

(** After that, an older state is refused. *)
Definition older_state : DesiredState :=
  MkDesiredState (ds_SchemaVersion idle_state) (ds_NodeID idle_state) 4
    (ds_ManagementDomain idle_state) (ds_ServiceCIDRs idle_state)
    (ds_FabricLinks idle_state) (ds_HealthChecks idle_state) (ds_UserPolicies idle_state)
    (ds_ProtocolBlocks idle_state) (ds_Forwards idle_state).

Lemma Apply_refuses_witness :
  ∃ e, (Apply sample_node older_state (sample_run.1.1, [])).2 = (ResultZero, Some e)
       ∧ errors_Is e ErrStaleGeneration = true.
Proof.
  assert (match FileStore.load sample_run.1.1.1 with
          | inr record => match sr_Applied record with
                          | Some s => bool_decide (node_of s = "node-a") && (generation_of s =? 5)
                          | None => false
                          end
          | inl _ => false
          end = true) as H by (vm_compute; reflexivity).
  destruct (FileStore.load sample_run.1.1.1) as [e|record] eqn:Hl; [discriminate|].
  destruct (sr_Applied record) as [s|] eqn:Hs; [|discriminate].
  apply andb_true_iff in H as [Hn%bool_decide_eq_true Hg%N.eqb_eq].
  destruct (Checksum older_state) as [c|] eqn:Hc; [|exfalso; revert Hc; vm_compute; discriminate].
  destruct (Apply_refuses sample_node older_state c sample_run.1.1 sample_run.1.1 [] record s)
    as (e & He & Hk).
  - vm_compute. reflexivity.
  - exact Hc.
  - cbn. by rewrite Hl.
  - by eapply load_valid.
  - by left.
  - right. left. rewrite Hg. reflexivity.
  - exists e. rewrite He. split; [reflexivity|]. revert Hk. unfold refusal, behind.
    rewrite Hs, Hn, Hg. exact id.
Defined.
