(* ===== verification/ControlDb.v ===== *)
(** The Controller's database, [internal/controller/store]: the tables of
    [migrations/001_sqlite.sql] as finite maps, transactions as functions that
    either fail or return the changed database, and the codecs of its JSON
    columns. One connection serialises all transactions ([sqlite.go]), and every
    operation of the store rolls back unless it commits, so that a failing
    operation leaves the database as it was; a statement SQLite itself refuses
    to execute is such a failure. [INTEGER] columns that hold 64-bit counters
    are represented by the unsigned value the code converts them to and from.
    Columns the code only writes for display ([created_at], [updated_at]) are
    left out. Times are compared as instants; SQLite compares their texts, which
    the driver writes in one zone and one layout ([_time_format=sqlite]), and the
    two orders differ only for a time the driver wrote on a whole second against
    the [CURRENT_TIMESTAMP] of that same second. *)
From S2P Require Import Prelude.
From S2P Require Import GoNet.
From S2P Require Import GoCrypto.
From S2P Require Import SpecTypes.
From S2P Require Import SpecCanonical.
From S2P Require Import SpecValidate.
From S2P Require Import SpecChecksum.
From S2P Require Import Capabilities.
From S2P Require Import Health.
From S2P Require Import Hostname.
From S2P Require Import ClusterTypes.
From S2P Require Import ClusterValidate.

Definition MaxInt64 : N := 2 ^ 63 - 1.

(** [CURRENT_TIMESTAMP] has no fraction of a second. *)
Definition CURRENT_TIMESTAMP (now : Time) : Time := (now / Second * Second)%Z.

(** * Rows *)

(** [nodes] *)
Record NodeRow := MkNodeRow {
  nd_desired_generation : N;
  nd_applied_generation : N;
  nd_applied_desired_checksum : option string;
  nd_applied_program_checksum : option string;
  nd_agent_version : option string;
  nd_capabilities : list Capability;
  nd_wireguard_public_key : option string;
  nd_last_seen_at : option Time;
  nd_policy_checked_at : option Time;
  nd_revoked_at : option Time;
}.
Definition NodeRowDefault : NodeRow := MkNodeRow 0 0 None None None [] None None None None.

(** [enrollment_tokens], by token hash *)
Record TokenRow := MkTokenRow {
  tk_node_id : string;
  tk_expires_at : Time;
  tk_used_at : option Time;
  tk_node_key_fingerprint : option string;
  tk_node_public_key : option (list N);
}.

(** [node_keys], by fingerprint *)
Record KeyRow := MkKeyRow {
  ky_node_id : string;
  ky_public_key : list N;
  ky_created_at : Time;
  ky_last_seen_at : option Time;
  ky_revoked_at : option Time;
}.

(** [node_generations] *)
Record GenerationRow := MkGenerationRow {
  gn_schema_version : N;
  gn_desired_checksum : string;
  gn_desired_state : DesiredState;
  gn_required_capabilities : list Capability;
  gn_status : string;
  gn_created_at : Time;
  gn_applied_at : option Time;
}.

(** [ApplyRecord], and [generation_ack_events] *)
Record ApplyRecord := MkApplyRecord {
  ar_NodeID : string;
  ar_Generation : N;
  ar_DesiredChecksum : string;
  ar_ProgramChecksum : string;
  ar_Status : string;
  ar_ErrorCode : string;
  ar_ErrorMessage : string;
  ar_ObservedAt : Time;
}.

(** [transactional_outbox], in order of [id] *)
Record OutboxRow := MkOutboxRow {
  ob_id : N;
  ob_topic : string;
  ob_aggregate_id : string;
  ob_generation : N;
  ob_available_at : Time;
  ob_leased_by : option string;
  ob_leased_until : option Time;
  ob_attempts : N;
  ob_delivered_at : option Time;
  ob_last_error : option string;
}.

(** [service_vip_allocations] *)
Record VipRow := MkVipRow {
  vp_forward_id : string;
  vp_user_id : string;
  vp_ingress_node_id : string;
  vp_exit_node_id : string;
}.

(** [usage_batches], [usage_deltas], [usage_rollups] *)
Record BatchRow := MkBatchRow { bt_generation : N; bt_observed_at : Time }.
Definition DeltaKey : Type := string * string * N * string * string * string * N.
Record DeltaRow := MkDeltaRow {
  dl_user_id : string;
  dl_packets : N;
  dl_bytes : N;
  dl_counter_reset : bool;
}.
Definition RollupKey : Type := string * string * string * string.
Record RollupRow := MkRollupRow { rl_user_id : string; rl_packets : N; rl_bytes : N }.

(** [policy_audit_events], without the [detail] *)
Record PolicyAudit := MkPolicyAudit {
  pa_node_id : string;
  pa_generation : N;
  pa_action : string;
  pa_subject_id : string;
}.

(** [node_wireguard_key_events] *)
Record WireGuardEvent := MkWireGuardEvent {
  we_node_id : string;
  we_previous_public_key : option string;
  we_public_key : string;
  we_observed_at : Time;
}.

(** [node_scheduling_profiles] *)
Record ProfileRow := MkProfileRow { pf_plan_id : string; pf_revision : N; pf_node : Node }.

(** [cluster_plans], [cluster_plan_revisions] *)
Record PlanRow := MkPlanRow {
  pn_active_revision : N;
  pn_active_checksum : string;
  pn_reconcile_after : Time;
  pn_last_scheduled_at : option Time;
  pn_last_error : option string;
  pn_paused_at : option Time;
}.
Record RevisionRow := MkRevisionRow { rv_checksum : string; rv_plan : Plan; rv_actor : string }.

(** [cluster_forward_placements] *)
Record PlacementRow := MkPlacementRow {
  pm_revision : N;
  pm_placement : Placement;
  pm_service_vip : option Addr;
}.

(** [backend_health_observations] *)
Definition ObservationKey : Type := string * string * string * string.
Record ObservationRow := MkObservationRow {
  bo_generation : N;
  bo_resource_version : N;
  bo_status : Health.Status;
  bo_latency_milliseconds : Z;
  bo_error_message : string;
  bo_observed_at : Time;
}.

(** [clusterRolloutDetail] *)
Record clusterRolloutDetail := MkRolloutDetail {
  rd_Version : N;
  rd_CommitPlacements : bool;
  rd_Placements : list Placement;
  rd_ServiceVIPs : gmap string Addr;
  rd_RetiredNodeIDs : list string;
  rd_CanaryForwardIDs : list string;
}.

(** [cluster_rollouts] *)
Record RolloutRow := MkRolloutRow {
  ro_plan_id : string;
  ro_revision : N;
  ro_previous_revision : option N;
  ro_actor : string;
  ro_action : string;
  ro_status : string;
  ro_detail : clusterRolloutDetail;
  ro_current_stage : N;
  ro_bake_until : option Time;
  ro_failure_message : string;
  ro_auto_rollback : bool;
  ro_completed_at : option Time;
}.

(** [cluster_rollout_stages] *)
Record StageRow := MkStageRow {
  sg_wave : string;
  sg_phase : string;
  sg_status : string;
  sg_bake_seconds : N;
  sg_started_at : option Time;
  sg_completed_at : option Time;
}.

(** [cluster_rollout_nodes] *)
Record TargetRow := MkTargetRow {
  tg_previous_generation : N;
  tg_generation : option N;
  tg_desired_checksum : option string;
  tg_desired_state : DesiredState;
  tg_status : string;
  tg_error_message : string;
  tg_applied_at : option Time;
}.

(** [cluster_audit_events], without the [detail]; [cluster_alerts] *)
Record ClusterAudit := MkClusterAudit {
  ca_plan_id : string;
  ca_revision : option N;
  ca_actor : string;
  ca_action : string;
  ca_subject_id : string;
}.
Record AlertRow := MkAlertRow { aw_status : string; aw_alert : Alert; aw_resolved_at : option Time }.

(** * The database *)
Record Db := MkDb {
  db_nodes : gmap string NodeRow;
  db_tokens : gmap (list N) TokenRow;
  db_keys : gmap string KeyRow;
  db_generations : gmap (string * N) GenerationRow;
  db_acks : list ApplyRecord;
  db_outbox : list OutboxRow;
  db_classes : gmap (string * string * string) N;
  db_vips : gmap string VipRow;
  db_bindings : gmap (string * string) string;
  db_batches : gmap (string * string * N) BatchRow;
  db_deltas : gmap DeltaKey DeltaRow;
  db_rollups : gmap RollupKey RollupRow;
  db_policy_audits : list PolicyAudit;
  db_wireguard_events : list WireGuardEvent;
  db_profiles : gmap string ProfileRow;
  db_rollouts : gmap N RolloutRow;
  db_stages : gmap (N * N) StageRow;
  db_targets : gmap (N * N * string) TargetRow;
  db_baselines : gmap (N * string) DesiredState;
  db_plans : gmap string PlanRow;
  db_revisions : gmap (string * N) RevisionRow;
  db_placements : gmap (string * string) PlacementRow;
  db_observations : gmap ObservationKey ObservationRow;
  db_alerts : gmap (string * string * string) AlertRow;
  db_cluster_audits : list ClusterAudit;
}.

(** [UPDATE]s of one table. *)
Definition on_nodes (f : gmap string NodeRow → gmap string NodeRow)
    (db : Db) : Db :=
  MkDb (f (db_nodes db)) (db_tokens db) (db_keys db) (db_generations db) (db_acks db) (db_outbox
    db) (db_classes db) (db_vips db) (db_bindings db) (db_batches db) (db_deltas db) (db_rollups
    db) (db_policy_audits db) (db_wireguard_events db) (db_profiles db) (db_rollouts db)
    (db_stages db) (db_targets db) (db_baselines db) (db_plans db) (db_revisions db)
    (db_placements db) (db_observations db) (db_alerts db) (db_cluster_audits db).
Definition on_tokens (f : gmap (list N) TokenRow → gmap (list N) TokenRow)
    (db : Db) : Db :=
  MkDb (db_nodes db) (f (db_tokens db)) (db_keys db) (db_generations db) (db_acks db) (db_outbox
    db) (db_classes db) (db_vips db) (db_bindings db) (db_batches db) (db_deltas db) (db_rollups
    db) (db_policy_audits db) (db_wireguard_events db) (db_profiles db) (db_rollouts db)
    (db_stages db) (db_targets db) (db_baselines db) (db_plans db) (db_revisions db)
    (db_placements db) (db_observations db) (db_alerts db) (db_cluster_audits db).
Definition on_keys (f : gmap string KeyRow → gmap string KeyRow)
    (db : Db) : Db :=
  MkDb (db_nodes db) (db_tokens db) (f (db_keys db)) (db_generations db) (db_acks db) (db_outbox
    db) (db_classes db) (db_vips db) (db_bindings db) (db_batches db) (db_deltas db) (db_rollups
    db) (db_policy_audits db) (db_wireguard_events db) (db_profiles db) (db_rollouts db)
    (db_stages db) (db_targets db) (db_baselines db) (db_plans db) (db_revisions db)
    (db_placements db) (db_observations db) (db_alerts db) (db_cluster_audits db).
Definition on_generations (f : gmap (string * N) GenerationRow → gmap (string * N) GenerationRow)
    (db : Db) : Db :=
  MkDb (db_nodes db) (db_tokens db) (db_keys db) (f (db_generations db)) (db_acks db) (db_outbox
    db) (db_classes db) (db_vips db) (db_bindings db) (db_batches db) (db_deltas db) (db_rollups
    db) (db_policy_audits db) (db_wireguard_events db) (db_profiles db) (db_rollouts db)
    (db_stages db) (db_targets db) (db_baselines db) (db_plans db) (db_revisions db)
    (db_placements db) (db_observations db) (db_alerts db) (db_cluster_audits db).
Definition on_acks (f : list ApplyRecord → list ApplyRecord)
    (db : Db) : Db :=
  MkDb (db_nodes db) (db_tokens db) (db_keys db) (db_generations db) (f (db_acks db)) (db_outbox
    db) (db_classes db) (db_vips db) (db_bindings db) (db_batches db) (db_deltas db) (db_rollups
    db) (db_policy_audits db) (db_wireguard_events db) (db_profiles db) (db_rollouts db)
    (db_stages db) (db_targets db) (db_baselines db) (db_plans db) (db_revisions db)
    (db_placements db) (db_observations db) (db_alerts db) (db_cluster_audits db).
Definition on_outbox (f : list OutboxRow → list OutboxRow)
    (db : Db) : Db :=
  MkDb (db_nodes db) (db_tokens db) (db_keys db) (db_generations db) (db_acks db) (f (db_outbox
    db)) (db_classes db) (db_vips db) (db_bindings db) (db_batches db) (db_deltas db)
    (db_rollups db) (db_policy_audits db) (db_wireguard_events db) (db_profiles db) (db_rollouts
    db) (db_stages db) (db_targets db) (db_baselines db) (db_plans db) (db_revisions db)
    (db_placements db) (db_observations db) (db_alerts db) (db_cluster_audits db).
Definition on_classes (f : gmap (string * string * string) N → gmap (string * string * string) N)
    (db : Db) : Db :=
  MkDb (db_nodes db) (db_tokens db) (db_keys db) (db_generations db) (db_acks db) (db_outbox db)
    (f (db_classes db)) (db_vips db) (db_bindings db) (db_batches db) (db_deltas db) (db_rollups
    db) (db_policy_audits db) (db_wireguard_events db) (db_profiles db) (db_rollouts db)
    (db_stages db) (db_targets db) (db_baselines db) (db_plans db) (db_revisions db)
    (db_placements db) (db_observations db) (db_alerts db) (db_cluster_audits db).
Definition on_vips (f : gmap string VipRow → gmap string VipRow)
    (db : Db) : Db :=
  MkDb (db_nodes db) (db_tokens db) (db_keys db) (db_generations db) (db_acks db) (db_outbox db)
    (db_classes db) (f (db_vips db)) (db_bindings db) (db_batches db) (db_deltas db) (db_rollups
    db) (db_policy_audits db) (db_wireguard_events db) (db_profiles db) (db_rollouts db)
    (db_stages db) (db_targets db) (db_baselines db) (db_plans db) (db_revisions db)
    (db_placements db) (db_observations db) (db_alerts db) (db_cluster_audits db).
Definition on_bindings (f : gmap (string * string) string → gmap (string * string) string)
    (db : Db) : Db :=
  MkDb (db_nodes db) (db_tokens db) (db_keys db) (db_generations db) (db_acks db) (db_outbox db)
    (db_classes db) (db_vips db) (f (db_bindings db)) (db_batches db) (db_deltas db) (db_rollups
    db) (db_policy_audits db) (db_wireguard_events db) (db_profiles db) (db_rollouts db)
    (db_stages db) (db_targets db) (db_baselines db) (db_plans db) (db_revisions db)
    (db_placements db) (db_observations db) (db_alerts db) (db_cluster_audits db).
Definition on_batches (f : gmap (string * string * N) BatchRow → gmap (string * string * N) BatchRow)
    (db : Db) : Db :=
  MkDb (db_nodes db) (db_tokens db) (db_keys db) (db_generations db) (db_acks db) (db_outbox db)
    (db_classes db) (db_vips db) (db_bindings db) (f (db_batches db)) (db_deltas db) (db_rollups
    db) (db_policy_audits db) (db_wireguard_events db) (db_profiles db) (db_rollouts db)
    (db_stages db) (db_targets db) (db_baselines db) (db_plans db) (db_revisions db)
    (db_placements db) (db_observations db) (db_alerts db) (db_cluster_audits db).
Definition on_deltas (f : gmap DeltaKey DeltaRow → gmap DeltaKey DeltaRow)
    (db : Db) : Db :=
  MkDb (db_nodes db) (db_tokens db) (db_keys db) (db_generations db) (db_acks db) (db_outbox db)
    (db_classes db) (db_vips db) (db_bindings db) (db_batches db) (f (db_deltas db)) (db_rollups
    db) (db_policy_audits db) (db_wireguard_events db) (db_profiles db) (db_rollouts db)
    (db_stages db) (db_targets db) (db_baselines db) (db_plans db) (db_revisions db)
    (db_placements db) (db_observations db) (db_alerts db) (db_cluster_audits db).
Definition on_rollups (f : gmap RollupKey RollupRow → gmap RollupKey RollupRow)
    (db : Db) : Db :=
  MkDb (db_nodes db) (db_tokens db) (db_keys db) (db_generations db) (db_acks db) (db_outbox db)
    (db_classes db) (db_vips db) (db_bindings db) (db_batches db) (db_deltas db) (f (db_rollups
    db)) (db_policy_audits db) (db_wireguard_events db) (db_profiles db) (db_rollouts db)
    (db_stages db) (db_targets db) (db_baselines db) (db_plans db) (db_revisions db)
    (db_placements db) (db_observations db) (db_alerts db) (db_cluster_audits db).
Definition on_policy_audits (f : list PolicyAudit → list PolicyAudit)
    (db : Db) : Db :=
  MkDb (db_nodes db) (db_tokens db) (db_keys db) (db_generations db) (db_acks db) (db_outbox db)
    (db_classes db) (db_vips db) (db_bindings db) (db_batches db) (db_deltas db) (db_rollups db)
    (f (db_policy_audits db)) (db_wireguard_events db) (db_profiles db) (db_rollouts db)
    (db_stages db) (db_targets db) (db_baselines db) (db_plans db) (db_revisions db)
    (db_placements db) (db_observations db) (db_alerts db) (db_cluster_audits db).
Definition on_wireguard_events (f : list WireGuardEvent → list WireGuardEvent)
    (db : Db) : Db :=
  MkDb (db_nodes db) (db_tokens db) (db_keys db) (db_generations db) (db_acks db) (db_outbox db)
    (db_classes db) (db_vips db) (db_bindings db) (db_batches db) (db_deltas db) (db_rollups db)
    (db_policy_audits db) (f (db_wireguard_events db)) (db_profiles db) (db_rollouts db)
    (db_stages db) (db_targets db) (db_baselines db) (db_plans db) (db_revisions db)
    (db_placements db) (db_observations db) (db_alerts db) (db_cluster_audits db).
Definition on_profiles (f : gmap string ProfileRow → gmap string ProfileRow)
    (db : Db) : Db :=
  MkDb (db_nodes db) (db_tokens db) (db_keys db) (db_generations db) (db_acks db) (db_outbox db)
    (db_classes db) (db_vips db) (db_bindings db) (db_batches db) (db_deltas db) (db_rollups db)
    (db_policy_audits db) (db_wireguard_events db) (f (db_profiles db)) (db_rollouts db)
    (db_stages db) (db_targets db) (db_baselines db) (db_plans db) (db_revisions db)
    (db_placements db) (db_observations db) (db_alerts db) (db_cluster_audits db).
Definition on_rollouts (f : gmap N RolloutRow → gmap N RolloutRow)
    (db : Db) : Db :=
  MkDb (db_nodes db) (db_tokens db) (db_keys db) (db_generations db) (db_acks db) (db_outbox db)
    (db_classes db) (db_vips db) (db_bindings db) (db_batches db) (db_deltas db) (db_rollups db)
    (db_policy_audits db) (db_wireguard_events db) (db_profiles db) (f (db_rollouts db))
    (db_stages db) (db_targets db) (db_baselines db) (db_plans db) (db_revisions db)
    (db_placements db) (db_observations db) (db_alerts db) (db_cluster_audits db).
Definition on_stages (f : gmap (N * N) StageRow → gmap (N * N) StageRow)
    (db : Db) : Db :=
  MkDb (db_nodes db) (db_tokens db) (db_keys db) (db_generations db) (db_acks db) (db_outbox db)
    (db_classes db) (db_vips db) (db_bindings db) (db_batches db) (db_deltas db) (db_rollups db)
    (db_policy_audits db) (db_wireguard_events db) (db_profiles db) (db_rollouts db) (f
    (db_stages db)) (db_targets db) (db_baselines db) (db_plans db) (db_revisions db)
    (db_placements db) (db_observations db) (db_alerts db) (db_cluster_audits db).
Definition on_targets (f : gmap (N * N * string) TargetRow → gmap (N * N * string) TargetRow)
    (db : Db) : Db :=
  MkDb (db_nodes db) (db_tokens db) (db_keys db) (db_generations db) (db_acks db) (db_outbox db)
    (db_classes db) (db_vips db) (db_bindings db) (db_batches db) (db_deltas db) (db_rollups db)
    (db_policy_audits db) (db_wireguard_events db) (db_profiles db) (db_rollouts db) (db_stages
    db) (f (db_targets db)) (db_baselines db) (db_plans db) (db_revisions db) (db_placements db)
    (db_observations db) (db_alerts db) (db_cluster_audits db).
Definition on_baselines (f : gmap (N * string) DesiredState → gmap (N * string) DesiredState)
    (db : Db) : Db :=
  MkDb (db_nodes db) (db_tokens db) (db_keys db) (db_generations db) (db_acks db) (db_outbox db)
    (db_classes db) (db_vips db) (db_bindings db) (db_batches db) (db_deltas db) (db_rollups db)
    (db_policy_audits db) (db_wireguard_events db) (db_profiles db) (db_rollouts db) (db_stages
    db) (db_targets db) (f (db_baselines db)) (db_plans db) (db_revisions db) (db_placements db)
    (db_observations db) (db_alerts db) (db_cluster_audits db).
Definition on_plans (f : gmap string PlanRow → gmap string PlanRow)
    (db : Db) : Db :=
  MkDb (db_nodes db) (db_tokens db) (db_keys db) (db_generations db) (db_acks db) (db_outbox db)
    (db_classes db) (db_vips db) (db_bindings db) (db_batches db) (db_deltas db) (db_rollups db)
    (db_policy_audits db) (db_wireguard_events db) (db_profiles db) (db_rollouts db) (db_stages
    db) (db_targets db) (db_baselines db) (f (db_plans db)) (db_revisions db) (db_placements db)
    (db_observations db) (db_alerts db) (db_cluster_audits db).
Definition on_revisions (f : gmap (string * N) RevisionRow → gmap (string * N) RevisionRow)
    (db : Db) : Db :=
  MkDb (db_nodes db) (db_tokens db) (db_keys db) (db_generations db) (db_acks db) (db_outbox db)
    (db_classes db) (db_vips db) (db_bindings db) (db_batches db) (db_deltas db) (db_rollups db)
    (db_policy_audits db) (db_wireguard_events db) (db_profiles db) (db_rollouts db) (db_stages
    db) (db_targets db) (db_baselines db) (db_plans db) (f (db_revisions db)) (db_placements db)
    (db_observations db) (db_alerts db) (db_cluster_audits db).
Definition on_placements (f : gmap (string * string) PlacementRow → gmap (string * string) PlacementRow)
    (db : Db) : Db :=
  MkDb (db_nodes db) (db_tokens db) (db_keys db) (db_generations db) (db_acks db) (db_outbox db)
    (db_classes db) (db_vips db) (db_bindings db) (db_batches db) (db_deltas db) (db_rollups db)
    (db_policy_audits db) (db_wireguard_events db) (db_profiles db) (db_rollouts db) (db_stages
    db) (db_targets db) (db_baselines db) (db_plans db) (db_revisions db) (f (db_placements db))
    (db_observations db) (db_alerts db) (db_cluster_audits db).
Definition on_observations (f : gmap ObservationKey ObservationRow → gmap ObservationKey ObservationRow)
    (db : Db) : Db :=
  MkDb (db_nodes db) (db_tokens db) (db_keys db) (db_generations db) (db_acks db) (db_outbox db)
    (db_classes db) (db_vips db) (db_bindings db) (db_batches db) (db_deltas db) (db_rollups db)
    (db_policy_audits db) (db_wireguard_events db) (db_profiles db) (db_rollouts db) (db_stages
    db) (db_targets db) (db_baselines db) (db_plans db) (db_revisions db) (db_placements db) (f
    (db_observations db)) (db_alerts db) (db_cluster_audits db).
Definition on_alerts (f : gmap (string * string * string) AlertRow → gmap (string * string * string) AlertRow)
    (db : Db) : Db :=
  MkDb (db_nodes db) (db_tokens db) (db_keys db) (db_generations db) (db_acks db) (db_outbox db)
    (db_classes db) (db_vips db) (db_bindings db) (db_batches db) (db_deltas db) (db_rollups db)
    (db_policy_audits db) (db_wireguard_events db) (db_profiles db) (db_rollouts db) (db_stages
    db) (db_targets db) (db_baselines db) (db_plans db) (db_revisions db) (db_placements db)
    (db_observations db) (f (db_alerts db)) (db_cluster_audits db).
Definition on_cluster_audits (f : list ClusterAudit → list ClusterAudit)
    (db : Db) : Db :=
  MkDb (db_nodes db) (db_tokens db) (db_keys db) (db_generations db) (db_acks db) (db_outbox db)
    (db_classes db) (db_vips db) (db_bindings db) (db_batches db) (db_deltas db) (db_rollups db)
    (db_policy_audits db) (db_wireguard_events db) (db_profiles db) (db_rollouts db) (db_stages
    db) (db_targets db) (db_baselines db) (db_plans db) (db_revisions db) (db_placements db)
    (db_observations db) (db_alerts db) (f (db_cluster_audits db)).

Definition DbEmpty : Db :=
  MkDb ∅ ∅ ∅ ∅ [] [] ∅ ∅ ∅ ∅ ∅ ∅ [] [] ∅ ∅ ∅ ∅ ∅ ∅ ∅ ∅ ∅ ∅ [].

(** * Errors *)

(** What [errors.Is] and [errors.As] can tell apart; wrapping keeps the kind. *)
Inductive store_error :=
  | ErrInvalidEnrollment
  | ErrNodeNotFound
  | ErrNodeDeletionConflict
  | ErrNodeAlreadyEnrolled
  | ErrNodeRevoked
  | ErrCredentialRevoked
  | ErrGenerationMissing
  | ErrChecksumMismatch
  | ErrProgramMismatch
  | ErrServiceVIPConflict
  | ErrManagementConflict
  | ErrPlanRevisionConflict
  | ErrClusterPlanNotFound
  | ErrHealthProbeMissing
  | ErrServiceVIPCapacity
  | ErrServiceVIPMigration
  | ErrRolloutInProgress
  | ErrNoPlacement (message : string)
  | DesiredInvalid (issues : list string)
  | PlanInvalid (issues : list string)
  | Failure (message : string).
#[export] Instance store_error_eq_dec : EqDecision store_error.
Proof. solve_decision. Defined.

(** * Transactions *)
Definition Tx (A : Type) : Type := Db → store_error + (Db * A).
#[export] Instance Tx_ret : MRet Tx := λ A a db, inr (db, a).
#[export] Instance Tx_bind : MBind Tx := λ A B f m db,
  match m db with inl e => inl e | inr (db, a) => f a db end.

Definition fail {A} (e : store_error) : Tx A := λ _, inl e.
Definition read {A} (f : Db → A) : Tx A := λ db, inr (db, f db).
Definition write (f : Db → Db) : Tx unit := λ db, inr (f db, tt).
Definition require_that (cond : bool) (e : store_error) : Tx unit :=
  if cond then mret tt else fail e.
(** A row that must be there. *)
Definition the {A} (e : store_error) (row : option A) : Tx A :=
  match row with Some a => mret a | None => fail e end.
(** A result of pure code. *)
Definition lift {A} (r : store_error + A) : Tx A :=
  match r with inl e => fail e | inr a => mret a end.

(** [for _, x := range l { if err := f(x); err != nil { return err } }] *)
Fixpoint each {A} (f : A → Tx unit) (l : list A) : Tx unit :=
  match l with
  | [] => mret tt
  | x :: rest => _ ← f x; each f rest
  end.
(** The same loop, collecting a value. *)
Fixpoint gather {A B} (f : A → Tx B) (l : list A) : Tx (list B) :=
  match l with
  | [] => mret []
  | x :: rest => b ← f x; bs ← gather f rest; mret (b :: bs)
  end.

(** [Begin] ... [defer tx.Rollback]: the database after an operation, and its
    answer. *)
Definition transact {A} (m : Tx A) (db : Db) : Db * (store_error + A) :=
  match m db with
  | inl e => (db, inl e)
  | inr (db', a) => (db', inr a)
  end.

(** [INSERT] under a primary key. *)
Definition insert_new `{Countable K} {V} (k : K) (v : V) (m : gmap K V) : store_error + gmap K V :=
  match m !! k with
  | Some _ => inl (Failure "UNIQUE constraint failed")
  | None => inr (<[k := v]> m)
  end.

(** * JSON columns *)
Definition MaxDesiredJSONBytes : N := N.shiftl 64 20.

(** The text of a state is represented by the state it was made from. *)
Definition EncodeDesiredJSON (desired : DesiredState) : store_error + DesiredState :=
  match Validate desired with
  | _ :: _ as issues => inl (DesiredInvalid issues)
  | [] =>
      match json_desired (Canonical desired) with
      | Some _ => inr (Canonical desired)
      | None => inl (Failure "encode desired state")
      end
  end.

Definition encoded_size (desired : DesiredState) : N :=
  match json_desired desired with Some j => N.of_nat (length (Json.print j)) | None => 0 end.

Definition DecodeDesiredJSON (encoded : DesiredState) : store_error + DesiredState :=
  if MaxDesiredJSONBytes <? encoded_size encoded then inl (Failure "desired state is too large")
  else match Validate encoded with
  | _ :: _ as issues => inl (DesiredInvalid issues)
  | [] => inr (Canonical encoded)
  end.
