(* ===== verification/ControlNodes.v ===== *)
(** The nodes of the Controller: registration, enrollment, revocation and
    liveness, [nodes.go] and the identity part of [store.go]. *)
From S2P Require Import Prelude.
From S2P Require Import GoNet.
From S2P Require Import GoCrypto.
From S2P Require Import SpecValidate.
From S2P Require Import SpecTypes.
From S2P Require Import Capabilities.
From S2P Require Import ClusterTypes.
From S2P Require Import ControlDb.

(** * Column updates *)
Definition set_seen (t : Time) (n : NodeRow) : NodeRow :=
  MkNodeRow (nd_desired_generation n) (nd_applied_generation n) (nd_applied_desired_checksum n)
    (nd_applied_program_checksum n) (nd_agent_version n) (nd_capabilities n)
    (nd_wireguard_public_key n) (Some t) (nd_policy_checked_at n) (nd_revoked_at n).
Definition set_revoked (t : Time) (n : NodeRow) : NodeRow :=
  MkNodeRow (nd_desired_generation n) (nd_applied_generation n) (nd_applied_desired_checksum n)
    (nd_applied_program_checksum n) (nd_agent_version n) (nd_capabilities n)
    (nd_wireguard_public_key n) (nd_last_seen_at n) (nd_policy_checked_at n)
    (Some (default t (nd_revoked_at n))).
Definition revoke_key (t : Time) (k : KeyRow) : KeyRow :=
  MkKeyRow (ky_node_id k) (ky_public_key k) (ky_created_at k) (ky_last_seen_at k)
    (Some (default t (ky_revoked_at k))).
Definition see_key (t : Time) (k : KeyRow) : KeyRow :=
  MkKeyRow (ky_node_id k) (ky_public_key k) (ky_created_at k) (Some t) (ky_revoked_at k).

(** * Pending nodes *)
Definition ensurePendingNodeTx (nodeID : string) : Tx bool :=
  node ← read (λ db, db_nodes db !! nodeID);
  match node with
  | None => _ ← write (on_nodes <[nodeID := NodeRowDefault]>); mret true
  | Some row =>
      match nd_revoked_at row with Some _ => fail ErrNodeRevoked | None => mret false end
  end.

Definition checked (name value : string) : Tx unit :=
  match ValidateIdentifier name value with
  | Some e => fail (Failure e)
  | None => mret tt
  end.

Definition EnsurePendingNode (nodeID : string) : Tx bool :=
  _ ← checked "node_id" nodeID; ensurePendingNodeTx nodeID.

(** [EXISTS(SELECT 1 FROM node_keys WHERE node_id=$1 AND revoked_at IS NULL)] *)
Definition active_key (nodeID : string) (k : KeyRow) : bool :=
  bool_decide (ky_node_id k = nodeID) && bool_decide (ky_revoked_at k = None).
Definition enrolled (nodeID : string) (db : Db) : bool :=
  existsb (λ k, active_key nodeID k.2) (map_to_list (db_keys db)).
Definition has_identity (nodeID : string) (db : Db) : bool :=
  existsb (λ k, bool_decide (ky_node_id k.2 = nodeID)) (map_to_list (db_keys db)).

(** Rows that refer to a node and are not deleted with it. *)
Definition restricted (nodeID : string) (db : Db) : bool :=
  existsb (λ t, bool_decide (t.1.2 = nodeID)) (map_to_list (db_targets db))
  || existsb (λ b, bool_decide (b.1.2 = nodeID)) (map_to_list (db_baselines db))
  || existsb (λ p, bool_decide (pc_IngressID (pm_placement p.2) = nodeID)
                   || bool_decide (pc_ExitID (pm_placement p.2) = nodeID))
       (map_to_list (db_placements db)).

Definition DeletePendingNode (nodeID : string) : Tx unit :=
  _ ← checked "node_id" nodeID;
  node ← read (λ db, db_nodes db !! nodeID);
  hasIdentity ← read (has_identity nodeID);
  match node with
  | None => fail ErrNodeNotFound
  | Some row =>
      if negb (nd_desired_generation row =? 0) || negb (nd_applied_generation row =? 0)
         || bool_decide (is_Some (nd_last_seen_at row)) || hasIdentity
      then fail ErrNodeDeletionConflict
      else
        restrict ← read (restricted nodeID);
        _ ← require_that (negb restrict) (Failure "FOREIGN KEY constraint failed");
        _ ← write (on_nodes (delete nodeID));
        (* the foreign keys cascade *)
        _ ← write (on_tokens (filter (λ t, tk_node_id t.2 ≠ nodeID)));
        write (on_profiles (delete nodeID))
  end.

Definition RevokeNode (nodeID : string) (now : Time) : Tx unit :=
  _ ← checked "node_id" nodeID;
  _ ← require_that (negb (Time_IsZero now)) (Failure "node revocation time is required");
  node ← read (λ db, db_nodes db !! nodeID);
  match node with
  | None => fail ErrNodeNotFound
  | Some row =>
      _ ← write (on_nodes <[nodeID := set_revoked now row]>);
      _ ← write (on_keys (fmap (λ k, if bool_decide (ky_node_id k = nodeID) then revoke_key now k else k)));
      write (on_tokens (filter (λ t, ¬ (tk_node_id t.2 = nodeID ∧ tk_used_at t.2 = None))))
  end.

(** * Enrollment *)
Definition HashEnrollmentToken (token : string) : list N := SHA256.Sum256 (bytes_of token).

(** [base64.RawURLEncoding] *)
Definition b64url_char (n : N) : ascii :=
  default "A"%char
    (nth_error (chars "ABCDEFGHIJKLMNOPQRSTUVWXYZabcdefghijklmnopqrstuvwxyz0123456789-_") (N.to_nat n)).
Fixpoint base64url (fuel : nat) (l : list N) : list ascii :=
  match fuel, l with
  | S f, a :: b :: c :: rest =>
      b64url_char (a / 4) :: b64url_char (a mod 4 * 16 + b / 16)
      :: b64url_char (b mod 16 * 4 + c / 64) :: b64url_char (c mod 64) :: base64url f rest
  | S _, [a; b] =>
      [b64url_char (a / 4); b64url_char (a mod 4 * 16 + b / 16); b64url_char (b mod 16 * 4)]
  | S _, [a] => [b64url_char (a / 4); b64url_char (a mod 4 * 16)]
  | _, _ => []
  end.
Definition EncodeToString (l : list N) : string := of_chars (base64url (length l) l).

Definition Minute : Z := 60 * Second.
Definition Hour : Z := 60 * Minute.

(** [raw] are the 32 bytes read from the system's random source. *)
Definition CreateEnrollmentToken (nodeID : string) (ttl : Z) (raw : list N) (now : Time) :
    Tx (string * Time) :=
  _ ← checked "node_id" nodeID;
  _ ← require_that (negb ((ttl <? Minute)%Z || (24 * Hour <? ttl)%Z))
        (Failure "enrollment token TTL must be between one minute and 24 hours");
  let token := EncodeToString raw in
  _ ← ensurePendingNodeTx nodeID;
  alreadyEnrolled ← read (enrolled nodeID);
  _ ← require_that (negb alreadyEnrolled) ErrNodeAlreadyEnrolled;
  let expiresAt := Time_Add now ttl in
  tokens ← read db_tokens;
  tokens ← lift (insert_new (HashEnrollmentToken token) (MkTokenRow nodeID expiresAt None None None)
                   tokens);
  _ ← write (on_tokens (λ _, tokens));
  mret (token, expiresAt).

Record NodeKeyRecord := MkNodeKeyRecord {
  nk_NodeID : string;
  nk_Fingerprint : string;
  nk_PublicKey : list N;
  nk_CreatedAt : Time;
}.

Definition fingerprint_of (publicKey : list N) : string := hex_encode (SHA256.Sum256 publicKey).

(** A token that has been used answers the key it was used with, and no other. *)
Definition enrolled_before (nodeID fingerprint : string) (publicKey : list N) (row : TokenRow) :
    Tx NodeKeyRecord :=
  if bool_decide (tk_node_key_fingerprint row = Some fingerprint)
     && bool_decide (tk_node_public_key row = Some publicKey)
  then
    key ← read (λ db, db_keys db !! fingerprint);
    key ← the (Failure "read enrolled node key") key;
    mret (MkNodeKeyRecord nodeID fingerprint publicKey (ky_created_at key))
  else fail ErrInvalidEnrollment.

(** [node_keys] has unique fingerprints and unique public keys. *)
Definition insert_key (fingerprint : string) (row : KeyRow) : Tx unit :=
  keys ← read db_keys;
  _ ← require_that (negb (existsb (λ k, bool_decide (ky_public_key k.2 = ky_public_key row))
                            (map_to_list keys)))
        (Failure "UNIQUE constraint failed");
  keys ← lift (insert_new fingerprint row keys);
  write (on_keys (λ _, keys)).

Definition CompleteEnrollment (nodeID token : string) (publicKey : list N) (now : Time) :
    Tx NodeKeyRecord :=
  _ ← checked "node_id" nodeID;
  _ ← require_that (length publicKey =? 32)%nat (Failure "node Noise public key must be 32 bytes");
  let fingerprint := fingerprint_of publicKey in
  let hash := HashEnrollmentToken token in
  row ← read (λ db, db_tokens db !! hash);
  match row with
  | None => fail ErrInvalidEnrollment
  | Some row =>
      if negb (bool_decide (tk_node_id row = nodeID)) then fail ErrInvalidEnrollment
      else match tk_used_at row with
      | Some _ => enrolled_before nodeID fingerprint publicKey row
      | None =>
          _ ← require_that (Time_Before now (tk_expires_at row)) ErrInvalidEnrollment;
          alreadyEnrolled ← read (enrolled nodeID);
          _ ← require_that (negb alreadyEnrolled) ErrNodeAlreadyEnrolled;
          _ ← write (on_tokens <[hash := MkTokenRow nodeID (tk_expires_at row)
                                    (Some (CURRENT_TIMESTAMP now)) (Some fingerprint)
                                    (Some publicKey)]>);
          _ ← insert_key fingerprint (MkKeyRow nodeID publicKey now None None);
          mret (MkNodeKeyRecord nodeID fingerprint publicKey now)
      end
  end.

Definition AuthorizeNodeKey (nodeID : string) (publicKey : list N) : Tx unit :=
  _ ← require_that (length publicKey =? 32)%nat ErrCredentialRevoked;
  node ← read (λ db, db_nodes db !! nodeID);
  key ← read (λ db, db_keys db !! fingerprint_of publicKey);
  match node, key with
  | Some node, Some key =>
      if negb (bool_decide (ky_node_id key = nodeID)) then fail ErrCredentialRevoked
      else match nd_revoked_at node with
      | Some _ => fail ErrNodeRevoked
      | None =>
          require_that (bool_decide (ky_revoked_at key = None)
                        && bool_decide (ky_public_key key = publicKey)) ErrCredentialRevoked
      end
  | _, _ => fail ErrCredentialRevoked
  end.

(** * Liveness *)
Record HelloRecord := MkHelloRecord {
  hr_NodeID : string;
  hr_KeyFingerprint : string;
  hr_AgentVersion : string;
  hr_Capabilities : list Capability;
  hr_WireGuardPublicKey : string;
  hr_ObservedAt : Time;
}.

(** [WHERE id=$1 AND revoked_at IS NULL] *)
Definition live_node (nodeID : string) (db : Db) : option NodeRow :=
  match db_nodes db !! nodeID with
  | Some row => match nd_revoked_at row with Some _ => None | None => Some row end
  | None => None
  end.

(** [COALESCE(NULLIF($5,''),wireguard_public_key)] *)
Definition coalesce (value : string) (previous : option string) : option string :=
  if bool_decide (value = "") then previous else Some value.

Definition RecordHello (record : HelloRecord) : Tx unit :=
  node ← read (live_node (hr_NodeID record));
  node ← the ErrNodeNotFound node;
  let previous := nd_wireguard_public_key node in
  let key := hr_WireGuardPublicKey record in
  _ ← write (on_nodes <[hr_NodeID record :=
        MkNodeRow (nd_desired_generation node) (nd_applied_generation node)
          (nd_applied_desired_checksum node) (nd_applied_program_checksum node)
          (Some (hr_AgentVersion record)) (hr_Capabilities record) (coalesce key previous)
          (Some (hr_ObservedAt record)) (nd_policy_checked_at node) (nd_revoked_at node)]>);
  _ ← (if negb (bool_decide (key = "")) && negb (bool_decide (previous = Some key))
       then write (on_wireguard_events (λ l,
              l ++ [MkWireGuardEvent (hr_NodeID record) previous key (hr_ObservedAt record)]))
       else mret tt);
  write (on_keys (alter (λ k, if bool_decide (ky_node_id k = hr_NodeID record)
                              then see_key (hr_ObservedAt record) k else k)
                    (hr_KeyFingerprint record))).

Definition RecordHeartbeat (nodeID : string) (observedAt : Time) : Tx unit :=
  node ← read (live_node nodeID);
  node ← the ErrNodeNotFound node;
  write (on_nodes <[nodeID := set_seen observedAt node]>).
