(* ===== verification/ControlPublish.v ===== *)
(** Publishing a desired state: generations, traffic classes and service VIPs,
    the publishing part of [internal/controller/store/store.go]. *)
From S2P Require Import Prelude.
From S2P Require Import GoNet.
From S2P Require Import SpecTypes.
From S2P Require Import SpecCanonical.
From S2P Require Import SpecValidate.
From S2P Require Import SpecChecksum.
From S2P Require Import Capabilities.
From S2P Require Import ClusterTypes.
From S2P Require Import ControlDb.
From S2P Require Import ControlNodes.

Record SnapshotRecord := MkSnapshotRecord {
  sp_NodeID : string;
  sp_Generation : N;
  sp_SchemaVersion : N;
  sp_DesiredChecksum : string;
  sp_DesiredState : DesiredState;
  sp_RequiredCapabilities : list Capability;
  sp_CreatedAt : Time;
}.

(** * Traffic classes *)

(** The scan for the first class a sorted list of allocated ones leaves free. *)
Fixpoint first_free (candidate : N) (allocated : list N) : N :=
  match allocated with
  | [] => candidate
  | a :: rest =>
      if a <? candidate then first_free candidate rest
      else if a =? candidate then first_free (candidate + 1) rest
      else candidate
  end.

Definition classes_of (nodeID : string) (db : Db) : list N :=
  sort_slice N.ltb (map snd (filter (λ kv, kv.1.1.1 = nodeID) (map_to_list (db_classes db)))).

Definition allocateTrafficClass (nodeID ownerKind ownerID : string) : Tx N :=
  existing ← read (λ db, db_classes db !! (nodeID, ownerKind, ownerID));
  match existing with
  | Some class => mret class
  | None =>
      allocated ← read (classes_of nodeID);
      let candidate := first_free 2 allocated in
      _ ← require_that (candidate <=? 65534) (Failure "node traffic class space is exhausted");
      (* UNIQUE(node_id,class_id) *)
      _ ← require_that (negb (bool_decide (candidate ∈ allocated))) (Failure "UNIQUE constraint failed");
      _ ← write (on_classes <[(nodeID, ownerKind, ownerID) := candidate]>);
      mret candidate
  end.

Definition set_policy_class (class : N) (p : UserPolicySpec) : UserPolicySpec :=
  MkUserPolicySpec (up_UserID p) class (up_RateLimit p) (up_TrafficQuota p) (up_ResourceVersion p).
Definition set_forward_class (class : N) (f : ForwardSpec) : ForwardSpec :=
  MkForwardSpec (fw_ID f) (fw_UserID f) (fw_Protocols f) (fw_IngressNodeID f) (fw_ExitNodeID f)
    (fw_Listen f) (fw_Target f) (fw_ServiceVIP f) (fw_FabricLinkID f) (fw_PathMode f) (fw_SNAT f)
    class (fw_RateLimit f) (fw_TrafficQuota f) (fw_ExpiresAt f) (fw_DrainDeadline f)
    (fw_Lifecycle f) (fw_ResourceVersion f).

Definition resolve_policy (nodeID : string) (ingressUsers : list string) (p : UserPolicySpec) :
    Tx UserPolicySpec :=
  if negb (bool_decide (up_UserID p ∈ ingressUsers)) || bool_decide (up_RateLimit p = None)
  then mret (set_policy_class 0 p)
  else class ← allocateTrafficClass nodeID "user" (up_UserID p); mret (set_policy_class class p).

Definition resolve_forward (nodeID : string) (f : ForwardSpec) : Tx ForwardSpec :=
  if negb (bool_decide (fw_IngressNodeID f = nodeID)) || bool_decide (fw_RateLimit f = None)
  then mret (set_forward_class 0 f)
  else class ← allocateTrafficClass nodeID "forward" (fw_ID f); mret (set_forward_class class f).

Definition set_resources (policies : list UserPolicySpec) (forwards : list ForwardSpec)
    (d : DesiredState) : DesiredState :=
  MkDesiredState (ds_SchemaVersion d) (ds_NodeID d) (ds_Generation d) (ds_ManagementDomain d)
    (ds_ServiceCIDRs d) (ds_FabricLinks d) (ds_HealthChecks d) policies (ds_ProtocolBlocks d)
    forwards.

(** [resolveTrafficClasses]; the node is the one the state is published for. *)
Definition resolveTrafficClasses (nodeID : string) (desired : DesiredState) : Tx DesiredState :=
  let ingressUsers :=
    map fw_UserID (filter (λ f, fw_IngressNodeID f = ds_NodeID desired) (ds_Forwards desired)) in
  policies ← gather (resolve_policy nodeID ingressUsers) (ds_UserPolicies desired);
  forwards ← gather (resolve_forward nodeID) (ds_Forwards desired);
  mret (set_resources policies forwards desired).

(** * Service VIPs *)
Definition vip_of (f : ForwardSpec) : string := Addr_String (default AddrZero (fw_ServiceVIP f)).

(** The upsert of an allocation: a VIP belongs to one forward of one tenant, a
    forward has one VIP, and its two ends differ. *)
Definition allocate_vip (f : ForwardSpec) : Tx unit :=
  let vip := vip_of f in
  let row := MkVipRow (fw_ID f) (fw_UserID f) (fw_IngressNodeID f) (fw_ExitNodeID f) in
  _ ← require_that (negb (bool_decide (fw_IngressNodeID f = fw_ExitNodeID f)))
        (Failure "CHECK constraint failed");
  existing ← read (λ db, db_vips db !! vip);
  match existing with
  | Some held =>
      _ ← require_that (bool_decide (vp_forward_id held = fw_ID f)
                        && bool_decide (vp_user_id held = fw_UserID f)) ErrServiceVIPConflict;
      write (on_vips <[vip := row]>)
  | None =>
      taken ← read (λ db, existsb (λ v, bool_decide (vp_forward_id v.2 = fw_ID f))
                            (map_to_list (db_vips db)));
      _ ← require_that (negb taken) (Failure "UNIQUE constraint failed");
      write (on_vips <[vip := row]>)
  end.

(** [UNIQUE(node_id,service_vip)] *)
Definition bind_vip (nodeID : string) (f : ForwardSpec) : Tx unit :=
  let vip := vip_of f in
  taken ← read (λ db, existsb (λ b, bool_decide (b.1.1 = nodeID) && bool_decide (b.2 = vip)
                                    && negb (bool_decide (b.1.2 = fw_ID f)))
                        (map_to_list (db_bindings db)));
  _ ← require_that (negb taken) (Failure "UNIQUE constraint failed");
  write (on_bindings <[(nodeID, fw_ID f) := vip]>).

Definition sync_vip (nodeID : string) (f : ForwardSpec) : Tx unit :=
  _ ← allocate_vip f; bind_vip nodeID f.

Definition bound (db : Db) (vip : string) : bool :=
  existsb (λ b, bool_decide (b.2 = vip)) (map_to_list (db_bindings db)).

Definition syncServiceVIPBindings (desired : DesiredState) : Tx unit :=
  let nodeID := ds_NodeID desired in
  let crossing := filter (λ f, fw_PathMode f = PathViaExit) (ds_Forwards desired) in
  _ ← each (sync_vip nodeID) crossing;
  _ ← write (on_bindings (filter (λ b, ¬ (b.1.1 = nodeID ∧ b.1.2 ∉ map fw_ID crossing))));
  write (λ db, on_vips (filter (λ v, bound db v.1 = true)) db).

(** * Generations *)
Definition set_identity (nodeID : string) (generation : N) (d : DesiredState) : DesiredState :=
  MkDesiredState (if ds_SchemaVersion d =? 0 then CurrentSchemaVersion else ds_SchemaVersion d)
    nodeID generation (ds_ManagementDomain d) (ds_ServiceCIDRs d) (ds_FabricLinks d)
    (ds_HealthChecks d) (ds_UserPolicies d) (ds_ProtocolBlocks d) (ds_Forwards d).

Definition set_desired_generation (generation : N) (n : NodeRow) : NodeRow :=
  MkNodeRow generation (nd_applied_generation n) (nd_applied_desired_checksum n)
    (nd_applied_program_checksum n) (nd_agent_version n) (nd_capabilities n)
    (nd_wireguard_public_key n) (nd_last_seen_at n) (nd_policy_checked_at n) (nd_revoked_at n).

(** [AUTOINCREMENT]: rows of the outbox are never deleted. *)
Definition outbox_row (id : N) (topic aggregate : string) (generation : N) (now : Time) : OutboxRow :=
  MkOutboxRow id topic aggregate generation (CURRENT_TIMESTAMP now) None None 0 None None.
Definition emit_event (topic aggregate : string) (generation : N) (now : Time) : Tx unit :=
  write (on_outbox (λ l,
    l ++ [outbox_row (N.of_nat (length l) + 1) topic aggregate generation now])).

(** The insertion of a generation, its event, and the node's pointer. *)
Definition insert_generation (nodeID : string) (generation : N) (row : GenerationRow) (now : Time) :
    Tx unit :=
  generations ← read db_generations;
  generations ← lift (insert_new (nodeID, generation) row generations);
  _ ← write (on_generations (λ _, generations));
  _ ← emit_event "node.snapshot.ready" nodeID generation now;
  write (on_nodes (alter (set_desired_generation generation) nodeID)).

Definition publishDesiredTx (nodeID : string) (current : N) (desired : DesiredState) (now : Time) :
    Tx SnapshotRecord :=
  _ ← require_that (negb (current =? MaxInt64)) (Failure "node generation exhausted");
  let generation := uadd 64 current 1 in
  let desired := set_identity nodeID generation desired in
  desired ← (if SchemaVersionV2 <=? ds_SchemaVersion desired
             then resolveTrafficClasses nodeID desired else mret desired);
  _ ← require_that (bool_decide (Validate desired = [])) (DesiredInvalid (Validate desired));
  _ ← syncServiceVIPBindings desired;
  let requiredCapabilities := RequiredCapabilities desired in
  encoded ← lift (EncodeDesiredJSON desired);
  checksum ← the (Failure "calculate desired checksum") (Checksum desired);
  _ ← insert_generation nodeID generation
        (MkGenerationRow (ds_SchemaVersion desired) checksum encoded requiredCapabilities
           "pending" now None) now;
  mret (MkSnapshotRecord nodeID generation (ds_SchemaVersion desired) checksum encoded
          requiredCapabilities now).

(** [strings.HasPrefix(domain, "cluster:")] *)
Definition cluster_owned (domain : string) : bool := String.prefix "cluster:" domain.

(** A node whose current state belongs to a cluster is not published directly. *)
Definition check_domain (nodeID : string) (current : N) : Tx unit :=
  if current =? 0 then mret tt
  else
    row ← read (λ db, db_generations db !! (nodeID, current));
    row ← the (Failure "read current management domain") row;
    currentDesired ← lift (DecodeDesiredJSON (gn_desired_state row));
    require_that (negb (cluster_owned (ds_ManagementDomain currentDesired))) ErrManagementConflict.

(** [PublishDesired]; the capabilities of the caller are replaced by those the
    state requires, after being checked to be JSON. *)
Definition PublishDesired (nodeID : string) (desired : DesiredState) (now : Time) :
    Tx SnapshotRecord :=
  _ ← checked "node_id" nodeID;
  _ ← require_that (negb (cluster_owned (ds_ManagementDomain desired)))
        (Failure "cluster-owned desired state must be published through a cluster plan");
  node ← read (live_node nodeID);
  node ← the ErrNodeNotFound node;
  profile ← read (λ db, db_profiles db !! nodeID);
  _ ← require_that (negb (bool_decide (is_Some profile))) ErrManagementConflict;
  _ ← check_domain nodeID (nd_desired_generation node);
  publishDesiredTx nodeID (nd_desired_generation node) desired now.

(** [ORDER BY generation DESC LIMIT 1] *)
Definition latest_generation (nodeID : string) (db : Db) : option N :=
  last (sort_slice N.ltb (map (λ kv, kv.1.2)
    (filter (λ kv, kv.1.1 = nodeID) (map_to_list (db_generations db))))).

Definition snapshot_of (nodeID : string) (generation : N) (row : GenerationRow) : SnapshotRecord :=
  MkSnapshotRecord nodeID generation (gn_schema_version row) (gn_desired_checksum row)
    (gn_desired_state row) (gn_required_capabilities row) (gn_created_at row).

Definition LatestSnapshot (nodeID : string) (db : Db) : option SnapshotRecord :=
  generation ← latest_generation nodeID db;
  row ← db_generations db !! (nodeID, generation);
  Some (snapshot_of nodeID generation row).
