(* ===== verification/ControlRollout.v ===== *)
(** The rollout machine of [internal/controller/store/cluster.go]: stages are
    published one at a time, acknowledged by the nodes, baked, and compensated
    when they fail. *)
From S2P Require Import Prelude.
From S2P Require Import GoNet.
From S2P Require Import SpecTypes.
From S2P Require Import SpecValidate.
From S2P Require Import Health.
From S2P Require Import Hostname.
From S2P Require Import ClusterTypes.
From S2P Require Import ClusterValidate.
From S2P Require Import PlanJson.
From S2P Require Import Rollout.
From S2P Require Import ControlDb.
From S2P Require Import ControlNodes.
From S2P Require Import ControlPublish.

(** * Column updates *)
Definition set_rollout (status : string) (stage : N) (bake : option Time) (r : RolloutRow) : RolloutRow :=
  MkRolloutRow (ro_plan_id r) (ro_revision r) (ro_previous_revision r) (ro_actor r) (ro_action r)
    status (ro_detail r) stage bake (ro_failure_message r) (ro_auto_rollback r)
    (ro_completed_at r).
Definition close_rollout (status : string) (now : Time) (r : RolloutRow) : RolloutRow :=
  MkRolloutRow (ro_plan_id r) (ro_revision r) (ro_previous_revision r) (ro_actor r) (ro_action r)
    status (ro_detail r) (ro_current_stage r) None (ro_failure_message r) (ro_auto_rollback r)
    (Some now).
Definition fail_rollout (status message : string) (completed : option Time) (r : RolloutRow) :
    RolloutRow :=
  MkRolloutRow (ro_plan_id r) (ro_revision r) (ro_previous_revision r) (ro_actor r) (ro_action r)
    status (ro_detail r) (ro_current_stage r) None message (ro_auto_rollback r) completed.
Definition start_stage (status : string) (now : Time) (s : StageRow) : StageRow :=
  MkStageRow (sg_wave s) (sg_phase s) status (sg_bake_seconds s) (Some now) (sg_completed_at s).
Definition end_stage (status : string) (now : Time) (s : StageRow) : StageRow :=
  MkStageRow (sg_wave s) (sg_phase s) status (sg_bake_seconds s) (sg_started_at s) (Some now).
Definition wake_plan (error : option string) (reconcile : Time) (p : PlanRow) : PlanRow :=
  MkPlanRow (pn_active_revision p) (pn_active_checksum p) reconcile (pn_last_scheduled_at p) error
    (pn_paused_at p).
Definition pause_plan (message : string) (now : Time) (p : PlanRow) : PlanRow :=
  MkPlanRow (pn_active_revision p) (pn_active_checksum p) (pn_reconcile_after p)
    (pn_last_scheduled_at p) (Some message) (Some (default now (pn_paused_at p))).
Definition publish_target (previous : N) (record : SnapshotRecord) (t : TargetRow) : TargetRow :=
  MkTargetRow previous (Some (sp_Generation record)) (Some (sp_DesiredChecksum record))
    (sp_DesiredState record) "pending" "" None.

Definition active_status (status : string) : bool :=
  bool_decide (status ∈ ["publishing"; "awaiting_ack"; "baking"; "rollback_pending"; "rolling_back"]).

(** [insertClusterAudit] *)
Definition insertClusterAudit (planID : string) (revision : N) (actor action subject : string) :
    Tx unit :=
  write (on_cluster_audits (λ l,
    l ++ [MkClusterAudit planID (if revision =? 0 then None else Some revision) actor action subject])).

Definition nul : ascii := Ascii.zero.
Definition truncateClusterError (message : string) : string :=
  of_chars (take 2048 (filter (λ c, c ≠ nul) (chars message))).

(** * Publishing a stage *)

(** The queued targets of a stage, by node. *)
Definition queued_targets (rolloutID stageOrder : N) (db : Db) : list (string * TargetRow) :=
  sort_slice (less_by fst) (map (λ kv, (kv.1.2, kv.2))
    (filter (λ kv, kv.1.1.1 = rolloutID ∧ kv.1.1.2 = stageOrder ∧ tg_status kv.2 = "queued")
       (map_to_list (db_targets db)))).

Definition publish_one (rolloutID stageOrder : N) (now : Time) (target : string * TargetRow) :
    Tx SnapshotRecord :=
  let '(nodeID, row) := target in
  node ← read (λ db, db_nodes db !! nodeID);
  node ← the (Failure "lock node for rollout stage") node;
  let current := nd_desired_generation node in
  desired ← lift (DecodeDesiredJSON (tg_desired_state row));
  record ← publishDesiredTx nodeID current desired now;
  _ ← write (on_targets (alter (publish_target current record) (rolloutID, stageOrder, nodeID)));
  mret record.

Definition publishClusterStageTx (rolloutID stageOrder : N) (now : Time) :
    Tx (list SnapshotRecord) :=
  stage ← read (λ db, db_stages db !! (rolloutID, stageOrder));
  stage ← the (Failure "lock cluster rollout stage") stage;
  let status := sg_status stage in
  if bool_decide (status ∈ ["completed"; "awaiting_ack"; "baking"]) then mret []
  else
    _ ← require_that (bool_decide (status = "pending")) (Failure "cluster rollout stage cannot publish");
    if bool_decide (sg_phase stage = RolloutPhaseBake) then
      let bakeUntil := Time_Add now (Z.of_N (sg_bake_seconds stage) * Second)%Z in
      _ ← write (on_stages (alter (start_stage "baking" now) (rolloutID, stageOrder)));
      _ ← write (on_rollouts (alter (set_rollout "baking" stageOrder (Some bakeUntil)) rolloutID));
      mret []
    else
      targets ← read (queued_targets rolloutID stageOrder);
      records ← gather (publish_one rolloutID stageOrder now) targets;
      if bool_decide (targets = []) then
        _ ← write (on_stages (alter (λ s, end_stage "completed" now (start_stage "completed" now s))
                     (rolloutID, stageOrder)));
        mret records
      else
        _ ← write (on_stages (alter (start_stage "awaiting_ack" now) (rolloutID, stageOrder)));
        _ ← write (on_rollouts (alter (set_rollout "awaiting_ack" stageOrder None) rolloutID));
        mret records.

(** * Failure *)
Definition requestClusterRollbackTx (rolloutID : N) (planID : string) (revision stageOrder : N)
    (phase : string) (autoRollback : bool) (message actor : string) (now : Time) : Tx unit :=
  let message := truncateClusterError message in
  _ ← write (on_stages (alter (end_stage "failed" now) (rolloutID, stageOrder)));
  let terminal := bool_decide (phase = RolloutPhaseCompensate) || negb autoRollback in
  let status := if terminal then "failed" else "rollback_pending" in
  let completed := if terminal then Some now else None in
  _ ← write (on_rollouts (alter (fail_rollout status message completed) rolloutID));
  _ ← write (on_plans (alter (pause_plan message now) planID));
  insertClusterAudit planID revision actor
    (if terminal then "cluster_rollout_failed" else "cluster_rollout_compensation_requested")
    (show rolloutID).

(** * Acknowledgements *)
Definition less_stage (a b : N * N) : bool :=
  (a.1 <? b.1) || (a.1 =? b.1) && (a.2 <? b.2).

(** The targets an acknowledgement is about. *)
Definition ack_matches (record : ApplyRecord) (kv : N * N * string * TargetRow) : bool :=
  bool_decide (kv.1.2 = ar_NodeID record)
  && bool_decide (tg_generation kv.2 = Some (ar_Generation record))
  && (negb (bool_decide (tg_status kv.2 = "applied")) || bool_decide (ar_Status record = "applied")).

Definition ack_target (record : ApplyRecord) (t : TargetRow) : TargetRow :=
  let applied := bool_decide (ar_Status record = "applied") in
  let kept := bool_decide (tg_status t = "applied") && negb applied in
  MkTargetRow (tg_previous_generation t) (tg_generation t) (tg_desired_checksum t)
    (tg_desired_state t) (if kept then tg_status t else ar_Status record)
    (if kept then tg_error_message t else truncateClusterError (ar_ErrorMessage record))
    (if applied then Some (ar_ObservedAt record) else tg_applied_at t).

Definition ack_one (record : ApplyRecord) (match_ : N * N) : Tx unit :=
  let '(rolloutID, stage) := match_ in
  rollout ← read (λ db, db_rollouts db !! rolloutID);
  rollout ← the (Failure "lock cluster rollout ACK") rollout;
  if bool_decide (ro_status rollout ∈ ["completed"; "rolled_back"; "failed"]) then mret tt
  else if negb (bool_decide (ar_Status record = "permanent_error")) then mret tt
  else
    let message := "node " +:+ ar_NodeID record +:+ " generation " +:+ show (ar_Generation record)
                   +:+ ": " +:+ ar_ErrorMessage record in
    row ← read (λ db, db_stages db !! (rolloutID, stage));
    row ← the (Failure "read failed cluster rollout stage") row;
    requestClusterRollbackTx rolloutID (ro_plan_id rollout) (ro_revision rollout) stage
      (sg_phase row) (ro_auto_rollback rollout) (truncateClusterError message) "system:controller"
      (ar_ObservedAt record).

(** [recordClusterRolloutACKTx] *)
Definition recordClusterRolloutACKTx (record : ApplyRecord) : Tx unit :=
  matches ← read (λ db, sort_slice less_stage (map (λ kv, kv.1.1)
    (filter (λ kv, ack_matches record kv = true) (map_to_list (db_targets db)))));
  _ ← write (on_targets (map_imap (λ k t,
        Some (if ack_matches record (k, t) then ack_target record t else t))));
  each (ack_one record) matches.

(** * Compensation *)

(** The stage that takes every node already published back to its baseline. *)
Definition published (rolloutID : N) (nodeID : string) (db : Db) : bool :=
  existsb (λ kv, bool_decide (kv.1.1.1 = rolloutID) && bool_decide (kv.1.2 = nodeID)
                 && bool_decide (is_Some (tg_generation kv.2))) (map_to_list (db_targets db)).

Definition stage_orders (rolloutID : N) (keep : StageRow → bool) (db : Db) : list N :=
  sort_slice N.ltb (map (λ kv, kv.1.2)
    (filter (λ kv, kv.1.1 = rolloutID ∧ keep kv.2 = true) (map_to_list (db_stages db)))).

Definition compensation_targets (rolloutID stageOrder : N) (db : Db) :
    gmap (N * N * string) TargetRow :=
  list_to_map (map (λ kv, ((rolloutID, stageOrder, kv.1.2),
                           MkTargetRow 0 None None kv.2 "queued" "" None))
    (filter (λ kv, kv.1.1 = rolloutID ∧ published rolloutID kv.1.2 db = true)
       (map_to_list (db_baselines db)))).

Definition ensureCompensationStage (rolloutID : N) : Tx N :=
  existing ← read (λ db, last (stage_orders rolloutID
                (λ s, bool_decide (sg_phase s = RolloutPhaseCompensate)) db));
  match existing with
  | Some stage =>
      _ ← write (on_rollouts (alter (set_rollout "rolling_back" stage None) rolloutID));
      mret stage
  | None =>
      orders ← read (stage_orders rolloutID (λ _, true));
      let stageOrder := default 0 (last orders) + 1 in
      _ ← write (on_stages <[(rolloutID, stageOrder) :=
            MkStageRow RolloutWaveCompensation RolloutPhaseCompensate "pending" 0 None None]>);
      _ ← write (λ db, on_targets (λ m, compensation_targets rolloutID stageOrder db ∪ m) db);
      _ ← write (on_rollouts (alter (set_rollout "rolling_back" stageOrder None) rolloutID));
      mret stageOrder
  end.

(** * Completion *)
Section completion.
Context `{!Idna}.

(** What the plan's codec refuses, as an error of the store. *)
Definition plan_json {A} (r : (string + list string) + A) : store_error + A :=
  match r with
  | inl (inl message) => inl (Failure message)
  | inl (inr issues) => inl (PlanInvalid issues)
  | inr a => inr a
  end.

(** [replacePlacements]: the exit's columns are [NULL] for a direct placement. *)
Definition placement_row (plan : Plan) (vips : gmap string Addr) (p : Placement) : PlacementRow :=
  let direct := bool_decide (pc_ExitID p = "") in
  MkPlacementRow (pl_Revision plan)
    {| pc_ForwardID := pc_ForwardID p; pc_IngressID := pc_IngressID p; pc_ExitID := pc_ExitID p;
       pc_BackendID := pc_BackendID p; pc_Target := pc_Target p; pc_PathMode := pc_PathMode p;
       pc_FabricInID := if direct then "" else pc_FabricInID p;
       pc_FabricOutID := if direct then "" else pc_FabricOutID p |}
    (if direct then None else Some (default AddrZero (vips !! pc_ForwardID p))).

Definition replacePlacements (plan : Plan) (placements : list Placement) (vips : gmap string Addr) :
    Tx unit :=
  _ ← each (λ p, write (on_placements <[(pl_ID plan, pc_ForwardID p) := placement_row plan vips p]>))
        placements;
  write (on_placements (filter (λ kv,
    ¬ (kv.1.1 = pl_ID plan ∧ kv.1.2 ∉ map pc_ForwardID placements)))).

Definition removeRetiredNodeProfiles (plan : Plan) : Tx unit :=
  write (on_profiles (filter (λ kv,
    ¬ (pf_plan_id kv.2 = pl_ID plan ∧ kv.1 ∉ map nd_ID (pl_Nodes plan))))).

Definition next_stage (rolloutID stageOrder : N) (db : Db) : option N :=
  head (filter (λ o, stageOrder < o)
    (stage_orders rolloutID (λ s, bool_decide (sg_status s = "pending")) db)).

Definition stored_plan (planID : string) (revision : N) : Tx Plan :=
  row ← read (λ db, db_revisions db !! (planID, revision));
  row ← the (Failure "read cluster rollout plan") row;
  lift (plan_json (DecodePlanJSON (rv_plan row))).

Definition completeClusterStageTx (rolloutID : N) (planID : string) (revision stageOrder : N)
    (phase : string) (detail : clusterRolloutDetail) (now : Time) (actor : string) : Tx unit :=
  _ ← write (on_stages (alter (end_stage "completed" now) (rolloutID, stageOrder)));
  if bool_decide (phase = RolloutPhaseCompensate) then
    _ ← write (on_rollouts (alter (close_rollout "rolled_back" now) rolloutID));
    insertClusterAudit planID revision actor "cluster_rollout_compensated" (show rolloutID)
  else
    next ← read (next_stage rolloutID stageOrder);
    match next with
    | Some nextStage =>
        _ ← write (on_rollouts (alter (set_rollout "publishing" nextStage None) rolloutID));
        _ ← publishClusterStageTx rolloutID nextStage now;
        mret tt
    | None =>
        _ ← (if rd_CommitPlacements detail then
               plan ← stored_plan planID revision;
               _ ← replacePlacements plan (rd_Placements detail) (rd_ServiceVIPs detail);
               removeRetiredNodeProfiles plan
             else mret tt);
        _ ← write (on_rollouts (alter (close_rollout "completed" now) rolloutID));
        _ ← write (on_plans (alter (wake_plan None now) planID));
        insertClusterAudit planID revision actor "cluster_rollout_applied" (show rolloutID)
    end.

(** * Baking *)
Definition observation_fresh (backend : Backend) (staleAfter : N) (o : ObservationRow) (now : Time) :
    bool :=
  (bo_resource_version o =? be_ResourceVersion backend)
  && negb (Time_After (bo_observed_at o) (Time_Add now (5 * Minute)))
  && (Time_Sub now (bo_observed_at o) <=? Z.of_N staleAfter * Second)%Z.

(** [backendPoolExplicitlyUnhealthy] *)
Definition backendPoolExplicitlyUnhealthy (planID : string) (pool : BackendPool) (probeNode : string)
    (observations : gmap ObservationKey ObservationRow) (now : Time) : bool :=
  match bp_Health pool with
  | None => false
  | Some policy =>
      let unhealthy (backend : Backend) :=
        match observations !! (planID, probeNode, bp_ID pool, be_ID backend) with
        | Some o => observation_fresh backend (hp_StaleAfterSeconds policy) o now
                    && bool_decide (bo_status o = StatusUnhealthy)
        | None => false
        end in
      negb (bool_decide (bp_Backends pool = [])) && forallb unhealthy (bp_Backends pool)
  end.

Definition canary_fails (planID : string) (forwards : gmap string Forward)
    (pools : gmap string BackendPool) (placements : gmap string Placement)
    (observations : gmap ObservationKey ObservationRow) (now : Time) (forwardID : string) : bool :=
  match forwards !! forwardID with
  | None => false
  | Some forward =>
      let pool := default BackendPoolZero (pools !! cf_BackendPoolID forward) in
      let placement := default PlacementZero (placements !! forwardID) in
      let probeNode := if bool_decide (pc_PathMode placement = PathViaExit)
                       then pc_ExitID placement else pc_IngressID placement in
      backendPoolExplicitlyUnhealthy planID pool probeNode observations now
  end.

(** [canaryBakeFailure]: the first canary without a healthy backend, or [""]. *)
Definition canaryBakeFailure (planID : string) (revision : N) (detail : clusterRolloutDetail)
    (now : Time) : Tx string :=
  if bool_decide (rd_CanaryForwardIDs detail = []) then mret ""
  else
    plan ← stored_plan planID revision;
    observations ← read db_observations;
    let forwards := index_by cf_ID (pl_Forwards plan) in
    let pools := index_by bp_ID (pl_BackendPools plan) in
    let placements := index_by pc_ForwardID (rd_Placements detail) in
    mret (default "" (head (filter (λ id,
      canary_fails planID forwards pools placements observations now id = true)
      (rd_CanaryForwardIDs detail)))).

(** * The machine *)
Definition clusterRolloutACKTimeout : Z := 10 * Minute.

Definition pending_acks (rolloutID stageOrder : N) (db : Db) : bool :=
  existsb (λ kv, bool_decide (kv.1.1.1 = rolloutID) && bool_decide (kv.1.1.2 = stageOrder)
                 && negb (bool_decide (tg_status kv.2 = "applied")))
    (map_to_list (db_targets db)).

Definition advanceClusterRolloutTx (rolloutID : N) (now : Time) (actor : string) : Tx bool :=
  rollout ← read (λ db, db_rollouts db !! rolloutID);
  rollout ← the (Failure "read active cluster rollout") rollout;
  let status := ro_status rollout in
  let current := ro_current_stage rollout in
  if bool_decide (status = "rollback_pending") then
    stageOrder ← ensureCompensationStage rolloutID;
    _ ← publishClusterStageTx rolloutID stageOrder now;
    mret true
  else
    stage ← read (λ db, db_stages db !! (rolloutID, current));
    stage ← the (Failure "read current cluster rollout stage") stage;
    let complete :=
      _ ← completeClusterStageTx rolloutID (ro_plan_id rollout) (ro_revision rollout) current
            (sg_phase stage) (ro_detail rollout) now actor;
      mret true in
    let rollback message :=
      _ ← requestClusterRollbackTx rolloutID (ro_plan_id rollout) (ro_revision rollout) current
            (sg_phase stage) (ro_auto_rollback rollout) message actor now;
      mret true in
    if bool_decide (status = "publishing") || bool_decide (status = "rolling_back") then
      if bool_decide (sg_status stage = "completed") then complete
      else _ ← publishClusterStageTx rolloutID current now; mret true
    else if bool_decide (status = "awaiting_ack") then
      waiting ← read (pending_acks rolloutID current);
      if negb waiting then complete
      else match sg_started_at stage with
      | Some startedAt =>
          if (clusterRolloutACKTimeout <=? Time_Sub now startedAt)%Z
          then rollback "rollout stage did not receive all Agent ACKs"
          else mret false
      | None => mret false
      end
    else if bool_decide (status = "baking") then
      failed ← canaryBakeFailure (ro_plan_id rollout) (ro_revision rollout) (ro_detail rollout) now;
      if negb (bool_decide (failed = ""))
      then rollback "canary forward has no fresh healthy backend during bake"
      else if match ro_bake_until rollout with Some t => Time_Before now t | None => false end
      then mret false
      else complete
    else fail (Failure "cluster rollout has unsupported active status").

(** The plans with an active rollout, and the first such rollout of a plan. *)
Definition active_rollouts (planID : string) (db : Db) : list N :=
  sort_slice N.ltb (map fst (filter (λ kv,
    ro_plan_id kv.2 = planID ∧ active_status (ro_status kv.2) = true)
    (map_to_list (db_rollouts db)))).
Definition active_plans (limit : nat) (db : Db) : list string :=
  take limit (filter (λ id, active_rollouts id db ≠ [])
    (sort_slice str_lt (map fst (map_to_list (db_plans db))))).

Definition advance_plan (now : Time) (actor planID : string) : Tx bool :=
  rollout ← read (λ db, head (active_rollouts planID db));
  match rollout with
  | Some rolloutID => advanceClusterRolloutTx rolloutID now actor
  | None => mret false
  end.

Definition system_actor (owner : string) : string := of_chars (take 256 (chars ("system:" +:+ owner))).

Definition AdvanceClusterRollouts (owner : string) (limit : nat) (now : Time) : Tx nat :=
  _ ← require_that (negb (bool_decide (owner = "") || (limit <? 1)%nat || (100 <? limit)%nat))
        (Failure "invalid cluster rollout advancer arguments");
  plans ← read (active_plans limit);
  changed ← gather (advance_plan now (system_actor owner)) plans;
  mret (length (filter (λ b, b = true) changed)).

(** [ensureNoActiveClusterRollout] *)
Definition ensureNoActiveClusterRollout (planID : string) : Tx unit :=
  rollouts ← read (active_rollouts planID);
  require_that (bool_decide (rollouts = [])) ErrRolloutInProgress.
End completion.
