(* ===== verification/ControlStore.v ===== *)
(** What the nodes report and what the Controller decides on its own:
    acknowledgements, usage and quotas, wall-clock policies and the outbox, the
    rest of [internal/controller/store/store.go]. *)
From S2P Require Import Prelude.
From S2P Require Import GoNet.
From S2P Require Import SpecTypes.
From S2P Require Import SpecCanonical.
From S2P Require Import SpecValidate.
From S2P Require Import SpecChecksum.
From S2P Require Import Meter.
From S2P Require Import Capabilities.
From S2P Require Import ControlDb.
From S2P Require Import ControlNodes.
From S2P Require Import ControlPublish.
From S2P Require Import ControlRollout.

(** * Acknowledgements *)
Definition ack_generation (record : ApplyRecord) (row : GenerationRow) : GenerationRow :=
  let applied := bool_decide (ar_Status record = "applied") in
  MkGenerationRow (gn_schema_version row) (gn_desired_checksum row) (gn_desired_state row)
    (gn_required_capabilities row)
    (if bool_decide (gn_status row = "applied") && negb applied then gn_status row
     else ar_Status record)
    (gn_created_at row) (if applied then Some (ar_ObservedAt record) else gn_applied_at row).

Definition set_applied (record : ApplyRecord) (n : NodeRow) : NodeRow :=
  MkNodeRow (nd_desired_generation n) (ar_Generation record) (Some (ar_DesiredChecksum record))
    (Some (ar_ProgramChecksum record)) (nd_agent_version n) (nd_capabilities n)
    (nd_wireguard_public_key n) (Some (ar_ObservedAt record)) (nd_policy_checked_at n)
    (nd_revoked_at n).

Definition without_forced (d : DesiredState) : DesiredState :=
  set_resources (ds_UserPolicies d)
    (filter (λ f, fw_Lifecycle f ≠ LifecycleForceDeleting) (ds_Forwards d)) d.
Definition forced (d : DesiredState) : list string :=
  map fw_ID (filter (λ f, fw_Lifecycle f = LifecycleForceDeleting) (ds_Forwards d)).

Definition insertPolicyAudits (nodeID : string) (generation : N) (audits : list (string * string)) :
    Tx unit :=
  write (on_policy_audits (λ l,
    l ++ map (λ a, MkPolicyAudit nodeID generation a.1 a.2) audits)).

(** When the current generation has been applied, the forwards it force-deleted
    are taken out of the next one. *)
Definition remove_forced (record : ApplyRecord) (now : Time) : Tx unit :=
  row ← read (λ db, db_generations db !! (ar_NodeID record, ar_Generation record));
  row ← the (Failure "read applied desired state") row;
  desired ← lift (DecodeDesiredJSON (gn_desired_state row));
  if bool_decide (forced desired = []) then mret tt
  else
    next ← publishDesiredTx (ar_NodeID record) (ar_Generation record) (without_forced desired) now;
    insertPolicyAudits (ar_NodeID record) (sp_Generation next)
      (map (λ id, ("force_remove", id)) (forced desired)).

Definition apply_status (status : string) : bool :=
  bool_decide (status ∈ ["applied"; "retryable_error"; "permanent_error"]).

Definition RecordApplyResult (record : ApplyRecord) (now : Time) : Tx unit :=
  let key := (ar_NodeID record, ar_Generation record) in
  row ← read (λ db, db_generations db !! key);
  row ← the ErrGenerationMissing row;
  _ ← require_that (bool_decide (gn_desired_checksum row = ar_DesiredChecksum record)) ErrChecksumMismatch;
  node ← read (λ db, db_nodes db !! ar_NodeID record);
  node ← the (Failure "lock node ACK state") node;
  let applied := bool_decide (ar_Status record = "applied") in
  _ ← require_that (negb (applied && (nd_applied_generation node =? ar_Generation record)
        && negb (bool_decide (nd_applied_desired_checksum node = Some (ar_DesiredChecksum record)))))
        ErrProgramMismatch;
  (* CHECK(status IN (...)) *)
  _ ← require_that (apply_status (ar_Status record)) (Failure "CHECK constraint failed");
  _ ← write (on_acks (λ l, l ++ [record]));
  _ ← write (on_generations <[key := ack_generation record row]>);
  _ ← (if applied then
         _ ← write (on_nodes (alter (λ n,
               if nd_applied_generation n <=? ar_Generation record then set_applied record n else n)
               (ar_NodeID record)));
         if nd_desired_generation node =? ar_Generation record
         then remove_forced record now else mret tt
       else mret tt);
  recordClusterRolloutACKTx record.

(** * Usage *)
Definition forwardHasProtocol (forward : ForwardSpec) (protocol : Protocol) : bool :=
  bool_decide (protocol ∈ fw_Protocols forward).

Definition delta_key (batch : Meter.Usage.Batch) (delta : Meter.Usage.Delta) : DeltaKey :=
  (Meter.Usage.ub_NodeID batch, Meter.Usage.ub_Epoch batch, Meter.Usage.ub_Sequence batch,
   Meter.Usage.ud_ForwardID delta, Meter.Usage.ud_Protocol delta, Meter.Usage.ud_Direction delta,
   Meter.Usage.ud_ResourceVersion delta).
Definition rollup_key (batch : Meter.Usage.Batch) (delta : Meter.Usage.Delta) : RollupKey :=
  (Meter.Usage.ub_NodeID batch, Meter.Usage.ud_ForwardID delta, Meter.Usage.ud_Protocol delta,
   Meter.Usage.ud_Direction delta).

(** The upsert of a rollup. Beyond [MaxInt64] SQLite goes over to floating
    point; such totals are outside the model. *)
Definition add_rollup (user : string) (delta : Meter.Usage.Delta) (row : option RollupRow) :
    RollupRow :=
  match row with
  | None => MkRollupRow user (Meter.Usage.ud_Packets delta) (Meter.Usage.ud_Bytes delta)
  | Some r => MkRollupRow user (rl_packets r + Meter.Usage.ud_Packets delta)
                (rl_bytes r + Meter.Usage.ud_Bytes delta)
  end.

Definition record_delta (batch : Meter.Usage.Batch) (forwards : gmap string ForwardSpec)
    (delta : Meter.Usage.Delta) : Tx unit :=
  _ ← require_that (negb ((MaxInt64 <? Meter.Usage.ud_Packets delta)
                          || (MaxInt64 <? Meter.Usage.ud_Bytes delta)))
        (Failure "usage delta exceeds controller range");
  let binding := Failure "usage binding is not present in generation" in
  forward ← the binding (forwards !! Meter.Usage.ud_ForwardID delta);
  _ ← require_that ((fw_ResourceVersion forward =? Meter.Usage.ud_ResourceVersion delta)
                    && forwardHasProtocol forward (Meter.Usage.ud_Protocol delta)) binding;
  (* CHECK(resource_version > 0), after [int64] *)
  _ ← require_that (Meter.Usage.ud_ResourceVersion delta <=? MaxInt64) (Failure "CHECK constraint failed");
  deltas ← read db_deltas;
  deltas ← lift (insert_new (delta_key batch delta)
             (MkDeltaRow (fw_UserID forward) (Meter.Usage.ud_Packets delta)
                (Meter.Usage.ud_Bytes delta) (Meter.Usage.ud_Reset delta)) deltas);
  _ ← write (on_deltas (λ _, deltas));
  write (on_rollups (partial_alter (λ row, Some (add_rollup (fw_UserID forward) delta row))
                       (rollup_key batch delta))).

(** [SUM(bytes)] of a node's rollups *)
Definition total_bytes (keep : RollupKey * RollupRow → bool) (db : Db) : N :=
  foldr N.add 0 (map (λ kv, rl_bytes kv.2)
    (filter (λ kv, keep kv = true) (map_to_list (db_rollups db)))).
Definition user_bytes (nodeID userID : string) : Db → N :=
  total_bytes (λ kv, bool_decide (kv.1.1.1.1 = nodeID) && bool_decide (rl_user_id kv.2 = userID)).
Definition forward_bytes (nodeID forwardID : string) : Db → N :=
  total_bytes (λ kv, bool_decide (kv.1.1.1.1 = nodeID) && bool_decide (kv.1.1.1.2 = forwardID)).

Definition exceeds (quota : option TrafficQuotaSpec) (used : N) : bool :=
  match quota with Some q => tq_Bytes q <=? used | None => false end.

(** [forward.Lifecycle = l; forward.DrainDeadline = nil; forward.ResourceVersion++] *)
Definition set_lifecycle (l : Lifecycle) (f : ForwardSpec) : ForwardSpec :=
  MkForwardSpec (fw_ID f) (fw_UserID f) (fw_Protocols f) (fw_IngressNodeID f) (fw_ExitNodeID f)
    (fw_Listen f) (fw_Target f) (fw_ServiceVIP f) (fw_FabricLinkID f) (fw_PathMode f) (fw_SNAT f)
    (fw_TrafficClassID f) (fw_RateLimit f) (fw_TrafficQuota f) (fw_ExpiresAt f) None l
    (uadd 64 (fw_ResourceVersion f) 1).

Definition quota_action (db : Db) (nodeID : string) (pausedUsers : list string) (f : ForwardSpec) :
    option string :=
  if bool_decide (fw_Lifecycle f ∈ [LifecyclePaused; LifecycleForceDeleting]) then None
  else if bool_decide (fw_UserID f ∈ pausedUsers) then Some "user_quota_pause"
  else if exceeds (fw_TrafficQuota f) (forward_bytes nodeID (fw_ID f) db)
  then Some "forward_quota_pause" else None.

(** [evaluateQuotas]: the state with exceeding forwards paused, and the audits
    of the users first and of the forwards then. *)
Definition evaluateQuotas (nodeID : string) (desired : DesiredState) (db : Db) :
    DesiredState * bool * list (string * string) :=
  let pausedUsers := map up_UserID
    (filter (λ p, exceeds (up_TrafficQuota p) (user_bytes nodeID (up_UserID p) db) = true)
       (ds_UserPolicies desired)) in
  let action := quota_action db nodeID pausedUsers in
  let paused := filter (λ f, is_Some (action f)) (ds_Forwards desired) in
  (set_resources (ds_UserPolicies desired)
     (map (λ f, match action f with Some _ => set_lifecycle LifecyclePaused f | None => f end)
        (ds_Forwards desired)) desired,
   negb (bool_decide (paused = [])),
   map (λ u, ("user_quota_pause", u)) pausedUsers
   ++ map (λ f, (default "" (action f), fw_ID f)) paused).

Definition enforce_quotas (nodeID : string) (now : Time) : Tx unit :=
  node ← read (live_node nodeID);
  node ← the (Failure "lock node for quota evaluation") node;
  let current := nd_desired_generation node in
  if current =? 0 then mret tt
  else
    row ← read (λ db, db_generations db !! (nodeID, current));
    row ← the (Failure "read current state for quota evaluation") row;
    desired ← lift (DecodeDesiredJSON (gn_desired_state row));
    verdict ← read (evaluateQuotas nodeID desired);
    let '(next, changed, audits) := verdict in
    if negb changed then mret tt
    else
      record ← publishDesiredTx nodeID current next now;
      insertPolicyAudits nodeID (sp_Generation record) audits.

Definition RecordUsageBatch (batch : Meter.Usage.Batch) (now : Time) : Tx unit :=
  let nodeID := Meter.Usage.ub_NodeID batch in
  _ ← match Meter.Usage.Validate batch with Some e => fail (Failure e) | None => mret tt end;
  _ ← require_that (negb ((MaxInt64 <? Meter.Usage.ub_Sequence batch)
                          || (MaxInt64 <? Meter.Usage.ub_Generation batch)))
        (Failure "usage sequence or generation exceeds controller range");
  row ← read (λ db, db_generations db !! (nodeID, Meter.Usage.ub_Generation batch));
  row ← the ErrGenerationMissing row;
  let key := (nodeID, Meter.Usage.ub_Epoch batch, Meter.Usage.ub_Sequence batch) in
  existing ← read (λ db, db_batches db !! key);
  match existing with
  | Some _ => mret tt
  | None =>
      _ ← write (on_batches <[key := MkBatchRow (Meter.Usage.ub_Generation batch)
                                       (Meter.Usage.ub_ObservedAt batch)]>);
      desired ← lift (DecodeDesiredJSON (gn_desired_state row));
      let forwards := index_by fw_ID (ds_Forwards desired) in
      _ ← each (record_delta batch forwards) (Meter.Usage.ub_Deltas batch);
      enforce_quotas nodeID now
  end.

(** * Wall-clock policies *)
Definition due (now : Time) (t : option Time) : bool :=
  match t with Some t => negb (Time_Before now t) | None => false end.

Definition policy_action (now : Time) (f : ForwardSpec) : option (string * Lifecycle) :=
  if due now (fw_ExpiresAt f)
     && negb (bool_decide (fw_Lifecycle f ∈ [LifecyclePaused; LifecycleForceDeleting]))
  then Some ("expiry_pause", LifecyclePaused)
  else if bool_decide (fw_Lifecycle f = LifecycleDraining) && due now (fw_DrainDeadline f)
  then Some ("drain_force", LifecycleForceDeleting)
  else None.

Definition enforce_forward (now : Time) (f : ForwardSpec) : ForwardSpec :=
  match policy_action now f with Some (_, l) => set_lifecycle l f | None => f end.
Definition policy_audits (now : Time) (desired : DesiredState) : list (string * string) :=
  omap (λ f, match policy_action now f with Some (a, _) => Some (a, fw_ID f) | None => None end)
    (ds_Forwards desired).

(** A node that an active rollout is changing is left alone. *)
Definition in_rollout (nodeID : string) (db : Db) : bool :=
  existsb (λ kv : N * N * string * TargetRow, bool_decide (kv.1.2 = nodeID)
                 && match db_rollouts db !! kv.1.1.1 with
                    | Some r => active_status (ro_status r)
                    | None => false
                    end) (map_to_list (db_targets db)).

(** [ORDER BY policy_checked_at NULLS FIRST, id] *)
Definition less_checked (a b : string * NodeRow) : bool :=
  match nd_policy_checked_at a.2, nd_policy_checked_at b.2 return bool with
  | None, Some _ => true
  | Some _, None => false
  | None, None => str_lt a.1 b.1
  | Some s, Some t => (s <? t)%Z || (s =? t)%Z && str_lt a.1 b.1
  end.
Definition policy_nodes (limit : nat) (db : Db) : list (string * N) :=
  map (λ kv, (kv.1, nd_desired_generation kv.2))
    (take limit (sort_slice less_checked
       (filter (λ kv : string * NodeRow, nd_revoked_at kv.2 = None ∧ nd_desired_generation kv.2 ≠ 0
                      ∧ in_rollout kv.1 db = false) (map_to_list (db_nodes db))))).

Definition set_checked (now : Time) (n : NodeRow) : NodeRow :=
  MkNodeRow (nd_desired_generation n) (nd_applied_generation n) (nd_applied_desired_checksum n)
    (nd_applied_program_checksum n) (nd_agent_version n) (nd_capabilities n)
    (nd_wireguard_public_key n) (nd_last_seen_at n) (Some now) (nd_revoked_at n).

Definition enforce_node (now : Time) (node : string * N) : Tx bool :=
  let '(nodeID, generation) := node in
  rolloutActive ← read (in_rollout nodeID);
  if (rolloutActive : bool) then mret false
  else
    _ ← write (on_nodes (alter (set_checked now) nodeID));
    row ← read (λ db, db_generations db !! (nodeID, generation));
    row ← the (Failure "read policy desired state") row;
    desired ← lift (DecodeDesiredJSON (gn_desired_state row));
    let audits := policy_audits now desired in
    if bool_decide (audits = []) then mret false
    else
      next ← publishDesiredTx nodeID generation
               (set_resources (ds_UserPolicies desired)
                  (map (enforce_forward now) (ds_Forwards desired)) desired) now;
      _ ← insertPolicyAudits nodeID (sp_Generation next) audits;
      mret true.

Definition EnforcePolicies (limit : nat) (now : Time) : Tx nat :=
  _ ← require_that (negb ((limit <? 1)%nat || (1000 <? limit)%nat))
        (Failure "policy scan limit must be between 1 and 1000");
  nodes ← read (policy_nodes limit);
  published ← gather (enforce_node now) nodes;
  mret (length (filter (λ b, b = true) published)).

(** * The outbox *)
Definition ready (now : Time) (r : OutboxRow) : bool :=
  bool_decide (ob_delivered_at r = None) && (ob_available_at r <=? CURRENT_TIMESTAMP now)%Z
  && match ob_leased_until r with Some t => (t <? CURRENT_TIMESTAMP now)%Z | None => true end.

Definition lease_row (owner : string) (until : Time) (ids : list N) (r : OutboxRow) : OutboxRow :=
  if bool_decide (ob_id r ∈ ids) && bool_decide (ob_delivered_at r = None) then
    MkOutboxRow (ob_id r) (ob_topic r) (ob_aggregate_id r) (ob_generation r) (ob_available_at r)
      (Some owner) (Some until) (ob_attempts r + 1) (ob_delivered_at r) (ob_last_error r)
  else r.

Definition ClaimOutbox (owner : string) (limit : nat) (lease : Z) (now : Time) : Tx (list OutboxRow) :=
  _ ← require_that (negb (bool_decide (owner = "") || (limit <? 1)%nat || (1000 <? limit)%nat
                          || (lease <? Second)%Z)) (Failure "invalid outbox claim arguments");
  events ← read (λ db, take limit (filter (λ r, ready now r = true) (db_outbox db)));
  _ ← write (on_outbox (map (lease_row owner (Time_Add now lease) (map ob_id events))));
  mret events.

(** [WHERE id=$1 AND leased_by=$2 AND delivered_at IS NULL] *)
Definition holds_lease (owner : string) (id : N) (r : OutboxRow) : bool :=
  (ob_id r =? id) && bool_decide (ob_leased_by r = Some owner)
  && bool_decide (ob_delivered_at r = None).

Definition deliver (now : Time) (r : OutboxRow) : OutboxRow :=
  MkOutboxRow (ob_id r) (ob_topic r) (ob_aggregate_id r) (ob_generation r) (ob_available_at r)
    None None (ob_attempts r) (Some (CURRENT_TIMESTAMP now)) (ob_last_error r).
Definition release (reason : string) (now : Time) (r : OutboxRow) : OutboxRow :=
  MkOutboxRow (ob_id r) (ob_topic r) (ob_aggregate_id r) (ob_generation r)
    (Time_Add now (2 * Second)) None None (ob_attempts r) (ob_delivered_at r)
    (Some (of_chars (take 2048 (chars reason)))).

Definition MarkOutboxDelivered (owner : string) (id : N) (now : Time) : Tx unit :=
  held ← read (λ db, existsb (holds_lease owner id) (db_outbox db));
  _ ← require_that held (Failure "outbox lease was lost");
  write (on_outbox (map (λ r, if holds_lease owner id r then deliver now r else r))).

Definition ReleaseOutbox (owner : string) (id : N) (reason : string) (now : Time) : Tx unit :=
  write (on_outbox (map (λ r, if holds_lease owner id r then release reason now r else r))).
