(* ===== verification/ControlFacts.v ===== *)
(** A program logic for the Controller's transactions, and the invariant of its
    database: what the tables say about generations, acknowledgements, classes,
    service VIPs and identities in every reachable state. *)
From S2P Require Import Prelude.
From S2P Require Import GoNet.
From S2P Require Import SpecTypes.
From S2P Require Import SpecCanonical.
From S2P Require Import SpecValidate.
From S2P Require Import SpecFacts.
From S2P Require Import SpecChecksum.
From S2P Require Import Capabilities.
From S2P Require Import Meter.
From S2P Require Import ControlDb.
From S2P Require Import ControlNodes.
From S2P Require Import ControlPublish.
From S2P Require Import ControlRollout.
From S2P Require Import ControlStore.

(** * Triples *)

(** If [m] succeeds from a state in [P], its answer and its state are in [Q];
    a failure leaves nothing behind. *)
Definition tx {A} (P : Db → Prop) (m : Tx A) (Q : A → Db → Prop) : Prop :=
  ∀ db, P db → match m db with inl _ => True | inr (db', a) => Q a db' end.

Section logic.
Implicit Types P : Db → Prop.

Lemma tx_ret {A} P Q (a : A) : (∀ db, P db → Q a db) → tx P (mret a) Q.
Proof. exact id. Qed.

Lemma tx_bind {A B} P R Q (m : Tx A) (f : A → Tx B) :
  tx P m R → (∀ a, tx (R a) (f a) Q) → tx P (m ≫= f) Q.
Proof.
  intros Hm Hf db Hdb. specialize (Hm db Hdb). unfold mbind, Tx_bind.
  destruct (m db) as [e|[db' a]]; [done|]. by apply Hf.
Qed.

Lemma tx_conseq {A} P P' Q Q' (m : Tx A) :
  tx P' m Q' → (∀ db, P db → P' db) → (∀ a db, Q' a db → Q a db) → tx P m Q.
Proof.
  intros Hm HP HQ db Hdb. specialize (Hm db (HP db Hdb)). destruct (m db) as [|[]]; auto.
Qed.

Lemma tx_fail {A} P e (Q : A → Db → Prop) : tx P (fail e) Q.
Proof. by intros db _. Qed.

Lemma tx_read {A} P (f : Db → A) : tx P (read f) (λ a db, P db ∧ a = f db).
Proof. by intros db Hdb. Qed.

Lemma tx_write P f (Q : unit → Db → Prop) : (∀ db, P db → Q tt (f db)) → tx P (write f) Q.
Proof. exact id. Qed.

Lemma tx_require P cond e : tx P (require_that cond e) (λ _ db, P db ∧ cond = true).
Proof. unfold require_that. by destruct cond; intros db Hdb. Qed.

Lemma tx_the {A} P e (row : option A) : tx P (the e row) (λ a db, P db ∧ row = Some a).
Proof. by destruct row; intros db Hdb. Qed.

Lemma tx_lift {A} P (r : store_error + A) : tx P (lift r) (λ a db, P db ∧ r = inr a).
Proof. by destruct r; intros db Hdb. Qed.

Lemma tx_checked P name value : tx P (checked name value) (λ _ db, P db).
Proof. unfold checked. by destruct (ValidateIdentifier _ _); intros db Hdb. Qed.

(** ** Invariants *)
Definition tx_keeps {A} P (m : Tx A) : Prop := tx P m (λ _, P).

Lemma keep_ret {A} P (a : A) : tx_keeps P (mret a).
Proof. by intros db. Qed.

Lemma keep_bind {A B} P (m : Tx A) (f : A → Tx B) :
  tx_keeps P m → (∀ a, tx_keeps P (f a)) → tx_keeps P (m ≫= f).
Proof. intros Hm Hf. by eapply tx_bind. Qed.

Lemma keep_read {A} P (f : Db → A) : tx_keeps P (read f).
Proof. by intros db. Qed.
Lemma keep_require P cond e : tx_keeps P (require_that cond e).
Proof. unfold require_that. by destruct cond; intros db. Qed.
Lemma keep_the {A} P e (row : option A) : tx_keeps P (the e row).
Proof. by destruct row; intros db. Qed.
Lemma keep_lift {A} P (r : store_error + A) : tx_keeps P (lift r).
Proof. by destruct r; intros db. Qed.
Lemma keep_fail {A} P e : tx_keeps P (fail e : Tx A).
Proof. by intros db. Qed.
Lemma keep_write P f : (∀ db, P db → P (f db)) → tx_keeps P (write f).
Proof. exact id. Qed.

Lemma keep_each {A} P (f : A → Tx unit) l : (∀ x, x ∈ l → tx_keeps P (f x)) → tx_keeps P (each f l).
Proof.
  induction l as [|x l IH]; intros Hf; [apply keep_ret|]. cbn. apply keep_bind.
  - apply Hf. left.
  - intros _. apply IH. intros y Hy. apply Hf. by right.
Qed.

Lemma keep_gather {A B} P (f : A → Tx B) l :
  (∀ x, x ∈ l → tx_keeps P (f x)) → tx_keeps P (gather f l).
Proof.
  induction l as [|x l IH]; intros Hf; [apply keep_ret|]. cbn. apply keep_bind.
  - apply Hf. left.
  - intros b. apply keep_bind; [|intros; apply keep_ret].
    apply IH. intros y Hy. apply Hf. by right.
Qed.

(** A read of the rows remembers what it saw. *)
Lemma tx_read_bind {A B} P (f : Db → A) (g : A → Tx B) Q :
  (∀ a, tx (λ db, P db ∧ a = f db) (g a) Q) → tx P (read f ≫= g) Q.
Proof. intros H. eapply tx_bind; [apply tx_read|done]. Qed.

Lemma tx_pure {A} P (φ : Prop) (m : Tx A) Q : (φ → tx P m Q) → tx (λ db, P db ∧ φ) m Q.
Proof. intros H db [Hdb Hφ]. by apply H. Qed.

Lemma transact_keeps {A} P (m : Tx A) db : tx_keeps P m → P db → P (transact m db).1.
Proof.
  intros Hm Hdb. specialize (Hm db Hdb). unfold transact. by destruct (m db) as [|[]].
Qed.
End logic.

(** Follow a transaction that leaves [P] alone. *)
Ltac tx_step :=
  first
    [ assumption | apply keep_ret | apply keep_read | apply keep_require | apply keep_the
    | apply keep_lift | apply keep_fail
    | apply keep_bind; [|intros ?] | apply keep_each; intros ? ? | apply keep_gather; intros ? ?
    | progress case_match ].
Ltac tx_steps := repeat tx_step.
