(* ===== verification/ControlLedger.v ===== *)
(** The ledger of generations: in every reachable state of the Controller's
    database a node's generations are numbered without gaps up to the desired
    one, every stored state is one an Agent accepts as it is, what has been
    published never changes, and what a node is said to have applied is a
    generation that was published for it. *)
From S2P Require Import Prelude.
From S2P Require Import GoNet.
From S2P Require Import SpecTypes.
From S2P Require Import SpecCanonical.
From S2P Require Import SpecValidate.
From S2P Require Import SpecFacts.
From S2P Require Import SpecChecksum.
From S2P Require Import SpecAccepted.
From S2P Require Import Hostname.
From S2P Require Import Capabilities.
From S2P Require Import Meter.
From S2P Require Import ControlDb.
From S2P Require Import ControlNodes.
From S2P Require Import ControlPublish.
From S2P Require Import ControlRollout.
From S2P Require Import ControlStore.
From S2P Require Import ControlFacts.

(** * What is stored *)

(** A published generation: canonical, valid, its own, under its own checksum
    and with the capabilities it needs. *)
Record published_as (nodeID : string) (generation : N) (row : GenerationRow) : Prop := {
  pa_valid : Valid (gn_desired_state row);
  pa_canonical : Canonical (gn_desired_state row) = gn_desired_state row;
  pa_node : ds_NodeID (gn_desired_state row) = nodeID;
  pa_generation_number : ds_Generation (gn_desired_state row) = generation;
  pa_schema : ds_SchemaVersion (gn_desired_state row) = gn_schema_version row;
  pa_checksum : Checksum (gn_desired_state row) = Some (gn_desired_checksum row);
  pa_capabilities : RequiredCapabilities (gn_desired_state row) = gn_required_capabilities row;
}.

(** What the node's row says about its generations. *)
Definition applied_of (n : NodeRow) : N * option string :=
  (nd_applied_generation n, nd_applied_desired_checksum n).

Record ledger (nodes : gmap string NodeRow) (gens : gmap (string * N) GenerationRow) : Prop := {
  lg_published nodeID g row : gens !! (nodeID, g) = Some row → published_as nodeID g row;
  lg_owned nodeID g row :
    gens !! (nodeID, g) = Some row →
    ∃ n, nodes !! nodeID = Some n ∧ 1 ≤ g ≤ nd_desired_generation n;
  lg_dense nodeID n g :
    nodes !! nodeID = Some n → 1 ≤ g ≤ nd_desired_generation n → is_Some (gens !! (nodeID, g));
  lg_bound nodeID n : nodes !! nodeID = Some n → nd_desired_generation n ≤ MaxInt64;
  lg_applied nodeID n :
    nodes !! nodeID = Some n →
    applied_of n = (0, None)
    ∨ ∃ row, gens !! (nodeID, nd_applied_generation n) = Some row
             ∧ nd_applied_desired_checksum n = Some (gn_desired_checksum row);
}.

(** ** History: what has been published stays as it is, and a node that has a
    generation keeps its place in the ledger *)
Definition same_generation (r r' : GenerationRow) : Prop :=
  gn_schema_version r = gn_schema_version r' ∧ gn_desired_checksum r = gn_desired_checksum r'
  ∧ gn_desired_state r = gn_desired_state r'
  ∧ gn_required_capabilities r = gn_required_capabilities r' ∧ gn_created_at r = gn_created_at r'
  ∧ (gn_status r = "applied" → gn_status r' = "applied").

Record extends (nodes nodes' : gmap string NodeRow)
    (gens gens' : gmap (string * N) GenerationRow) : Prop := {
  ex_generations k r : gens !! k = Some r → ∃ r', gens' !! k = Some r' ∧ same_generation r r';
  ex_nodes nodeID n :
    nodes !! nodeID = Some n → nd_desired_generation n ≠ 0 →
    ∃ n', nodes' !! nodeID = Some n'
          ∧ nd_desired_generation n ≤ nd_desired_generation n'
          ∧ nd_applied_generation n ≤ nd_applied_generation n'
          ∧ (is_Some (nd_revoked_at n) → is_Some (nd_revoked_at n'));
}.

Lemma same_generation_refl r : same_generation r r.
Proof. by split_and!. Qed.
Lemma same_generation_trans r1 r2 r3 :
  same_generation r1 r2 → same_generation r2 r3 → same_generation r1 r3.
Proof. unfold same_generation. intuition congruence. Qed.

Lemma extends_refl nodes gens : extends nodes nodes gens gens.
Proof. split; [eauto using same_generation_refl|]. intros id n Hn _. exists n. split_and!; done || lia. Qed.

Lemma extends_trans n1 n2 n3 g1 g2 g3 : extends n1 n2 g1 g2 → extends n2 n3 g2 g3 → extends n1 n3 g1 g3.
Proof.
  intros [H1 H2] [H3 H4]. split.
  - intros k r (r' & (r'' & ? & ?)%H3 & ?)%H1. eauto using same_generation_trans.
  - intros id n Hn H0. destruct (H2 id n Hn H0) as (n' & Hn' & ? & ? & ?).
    destruct (H4 id n' Hn') as (n'' & ? & ? & ? & ?); [lia|]. exists n''. split_and!; auto; lia.
Qed.

(** * Updates of the two tables *)
Definition same_place (n n' : NodeRow) : Prop :=
  nd_desired_generation n = nd_desired_generation n' ∧ applied_of n = applied_of n'
  ∧ (is_Some (nd_revoked_at n) → is_Some (nd_revoked_at n')).

Section updates.
Context (nodes : gmap string NodeRow) (gens : gmap (string * N) GenerationRow).
Hypothesis L : ledger nodes gens.

Lemma book_touch id n n' :
  nodes !! id = Some n → same_place n n' →
  ledger (<[id := n']> nodes) gens ∧ extends nodes (<[id := n']> nodes) gens gens.
Proof.
  intros Hn (Hd & Ha & Hr). destruct L as [L1 L2 L3 L4 L5]. split; [split; [done|..]|split].
  - intros k g row Hg. destruct (L2 k g row Hg) as (m & Hm & Hb). destruct (decide (id = k)) as [->|].
    + exists n'. rewrite lookup_insert_eq. split; [done|]. congruence.
    + exists m. by rewrite lookup_insert_ne.
  - intros k m g [[<- <-]|[? Hm]]%lookup_insert_Some; [rewrite <- Hd|]; eauto.
  - intros k m [[<- <-]|[? Hm]]%lookup_insert_Some; [rewrite <- Hd|]; eauto.
  - intros k m [[<- <-]|[? Hm]]%lookup_insert_Some; [|eauto].
    pose proof (L5 id n Hn) as H. rewrite <- Ha. injection Ha as Ha1 Ha2. by rewrite <- Ha1, <- Ha2.
  - eauto using same_generation_refl.
  - intros k m Hm _. destruct (decide (id = k)) as [->|].
    + rewrite Hn in Hm. injection Hm as <-. exists n'. rewrite lookup_insert_eq.
      pose proof Ha as [= Ha1 _]. split_and!; [done|lia|lia|done].
    + exists m. rewrite lookup_insert_ne by done. split_and!; done || lia.
Qed.

Lemma book_new id n :
  nodes !! id = None → nd_desired_generation n = 0 → applied_of n = (0, None) →
  ledger (<[id := n]> nodes) gens ∧ extends nodes (<[id := n]> nodes) gens gens.
Proof.
  intros Hid H0 Ha. destruct L as [L1 L2 L3 L4 L5].
  assert (∀ k m, nodes !! k = Some m → k ≠ id) as Hne by congruence.
  split; [split; [done|..]|split].
  - intros k g row Hg. destruct (L2 k g row Hg) as (m & Hm & Hb).
    exists m. by rewrite lookup_insert_ne by (symmetry; eauto).
  - intros k m g [[<- <-]|[? Hm]]%lookup_insert_Some; [lia|eauto].
  - intros k m [[<- <-]|[? Hm]]%lookup_insert_Some; [|eauto]. rewrite H0. done.
  - intros k m [[<- <-]|[? Hm]]%lookup_insert_Some; [by left|eauto].
  - eauto using same_generation_refl.
  - intros k m Hm _. exists m. rewrite lookup_insert_ne by (symmetry; eauto). split_and!; done || lia.
Qed.

Lemma book_delete id n :
  nodes !! id = Some n → nd_desired_generation n = 0 →
  ledger (delete id nodes) gens ∧ extends nodes (delete id nodes) gens gens.
Proof.
  intros Hn H0. destruct L as [L1 L2 L3 L4 L5]. split; [split; [done|..]|split].
  - intros k g row Hg. destruct (L2 k g row Hg) as (m & Hm & Hb). exists m. split; [|done].
    rewrite lookup_delete_ne; [done|]. intros <-. rewrite Hn in Hm. injection Hm as <-. lia.
  - intros k m g [? Hm]%lookup_delete_Some. eauto.
  - intros k m [? Hm]%lookup_delete_Some. eauto.
  - intros k m [? Hm]%lookup_delete_Some. eauto.
  - eauto using same_generation_refl.
  - intros k m Hm Hd. exists m. rewrite lookup_delete_ne by congruence. split_and!; done || lia.
Qed.

Lemma book_publish id n current row :
  nodes !! id = Some n → current ≤ nd_desired_generation n → current + 1 ≤ MaxInt64 →
  gens !! (id, current + 1) = None → published_as id (current + 1) row →
  current = nd_desired_generation n
  ∧ ledger (alter (set_desired_generation (current + 1)) id nodes) (<[(id, current + 1) := row]> gens)
  ∧ extends nodes (alter (set_desired_generation (current + 1)) id nodes)
      gens (<[(id, current + 1) := row]> gens).
Proof.
  intros Hn Hle Hmax Hnone Hrow. destruct L as [L1 L2 L3 L4 L5].
  assert (current = nd_desired_generation n) as Hcur.
  { destruct (N.lt_ge_cases current (nd_desired_generation n)); [|lia].
    destruct (L3 id n (current + 1) Hn) as [? ?]; [lia|congruence]. }
  split; [done|].
  assert (alter (set_desired_generation (current + 1)) id nodes
          = <[id := set_desired_generation (current + 1) n]> nodes) as ->.
  { apply map_eq. intros k. destruct (decide (id = k)) as [<-|].
    - by rewrite lookup_alter_eq, lookup_insert_eq, Hn.
    - by rewrite lookup_alter_ne, lookup_insert_ne. }
  split; [split|split].
  - intros k g r [[[= <- <-] <-]|[? Hg]]%lookup_insert_Some; eauto.
  - intros k g r [[[= <- <-] <-]|[? Hg]]%lookup_insert_Some.
    + eexists. rewrite lookup_insert_eq. split; [done|]. cbn. lia.
    + destruct (L2 k g r Hg) as (m & Hm & Hb). destruct (decide (id = k)) as [<-|].
      * eexists. rewrite lookup_insert_eq. split; [done|]. cbn.
        rewrite Hn in Hm. injection Hm as <-. lia.
      * exists m. by rewrite lookup_insert_ne.
  - intros k m g [[<- <-]|[? Hm]]%lookup_insert_Some Hb; cbn in *.
    + destruct (decide (g = current + 1)) as [->|]; [by rewrite lookup_insert_eq; eauto|].
      rewrite lookup_insert_ne by congruence. apply (L3 id n); [done|lia].
    + rewrite lookup_insert_ne by congruence. eauto.
  - intros k m [[<- <-]|[? Hm]]%lookup_insert_Some; [done|eauto].
  - assert (∀ k m, nodes !! k = Some m → applied_of m = (0, None)
       ∨ ∃ r, <[(id, current + 1) := row]> gens !! (k, nd_applied_generation m) = Some r
              ∧ nd_applied_desired_checksum m = Some (gn_desired_checksum r)) as H.
    { intros k m Hm. destruct (L5 k m Hm) as [?|(r & Hr & ?)]; [by left|]. right. exists r. split; [|done].
      rewrite lookup_insert_ne; [done|]. intros Heq. rewrite <- Heq in Hr. congruence. }
    intros k m [[<- <-]|[? Hm]]%lookup_insert_Some; [by apply (H id n)|eauto].
  - intros k r Hr. exists r. split; [|apply same_generation_refl].
    rewrite lookup_insert_ne by congruence. done.
  - intros k m Hm Hd. destruct (decide (id = k)) as [<-|].
    + rewrite Hn in Hm. injection Hm as <-. eexists. rewrite lookup_insert_eq.
      split_and!; [done|cbn; lia|cbn; lia|done].
    + exists m. rewrite lookup_insert_ne by done. split_and!; done || lia.
Qed.

Lemma book_ack k row row' :
  gens !! k = Some row → same_generation row row' →
  ledger nodes (<[k := row']> gens) ∧ extends nodes nodes gens (<[k := row']> gens).
Proof.
  intros Hk Hs. destruct L as [L1 L2 L3 L4 L5]. destruct Hs as (H1 & H2 & H3 & H4 & H5 & H6).
  split; [split|split].
  - intros id g r [[-> <-]|[? Hg]]%lookup_insert_Some; [|eauto].
    destruct (L1 id g row Hk). split; congruence.
  - intros id g r [[-> <-]|[? Hg]]%lookup_insert_Some; eauto.
  - intros id n g Hn Hb. destruct (L3 id n g Hn Hb) as [r Hr].
    destruct (decide (k = (id, g))) as [->|]; [rewrite lookup_insert_eq|rewrite lookup_insert_ne]; eauto.
  - done.
  - intros id n Hn. destruct (L5 id n Hn) as [?|(r & Hr & Hc)]; [by left|]. right.
    destruct (decide (k = (id, nd_applied_generation n))) as [->|].
    + exists row'. rewrite lookup_insert_eq. split; [done|]. congruence.
    + exists r. by rewrite lookup_insert_ne.
  - intros k' r Hr. destruct (decide (k = k')) as [<-|].
    + exists row'. rewrite lookup_insert_eq. split; [done|].
      rewrite Hk in Hr. injection Hr as <-. by split_and!.
    + exists r. rewrite lookup_insert_ne by done. split; [done|apply same_generation_refl].
  - intros id n Hn _. exists n. split_and!; done || lia.
Qed.

Lemma book_applied id n n' row :
  nodes !! id = Some n → gens !! (id, nd_applied_generation n') = Some row →
  nd_applied_generation n ≤ nd_applied_generation n' →
  nd_desired_generation n' = nd_desired_generation n →
  nd_applied_desired_checksum n' = Some (gn_desired_checksum row) →
  nd_revoked_at n' = nd_revoked_at n →
  ledger (<[id := n']> nodes) gens ∧ extends nodes (<[id := n']> nodes) gens gens.
Proof.
  intros Hn Hrow Hle Hd Hc Hr. destruct L as [L1 L2 L3 L4 L5]. split; [split; [done|..]|split].
  - intros k g r Hg. destruct (L2 k g r Hg) as (m & Hm & Hb). destruct (decide (id = k)) as [<-|].
    + exists n'. rewrite lookup_insert_eq. split; [done|]. congruence.
    + exists m. by rewrite lookup_insert_ne.
  - intros k m g [[<- <-]|[? Hm]]%lookup_insert_Some; [rewrite Hd|]; eauto.
  - intros k m [[<- <-]|[? Hm]]%lookup_insert_Some; [rewrite Hd|]; eauto.
  - intros k m [[<- <-]|[? Hm]]%lookup_insert_Some; [|eauto]. right. eauto.
  - eauto using same_generation_refl.
  - intros k m Hm _. destruct (decide (id = k)) as [<-|].
    + rewrite Hn in Hm. injection Hm as <-. exists n'. rewrite lookup_insert_eq, Hr.
      split_and!; done || lia.
    + exists m. rewrite lookup_insert_ne by done. split_and!; done || lia.
Qed.
End updates.

(** * Transactions *)

(** The ledger holds, and holds everything it held in [db0]. *)
Definition book (db0 db : Db) : Prop :=
  ledger (db_nodes db) (db_generations db)
  ∧ extends (db_nodes db0) (db_nodes db) (db_generations db0) (db_generations db).

Lemma book_refl db : ledger (db_nodes db) (db_generations db) → book db db.
Proof. intros H. split; [done|apply extends_refl]. Qed.

Lemma book_step db0 db db' :
  book db0 db →
  (ledger (db_nodes db) (db_generations db) →
   ledger (db_nodes db') (db_generations db')
   ∧ extends (db_nodes db) (db_nodes db') (db_generations db) (db_generations db')) →
  book db0 db'.
Proof. intros [H1 H2] H. destruct (H H1). split; [done|]. by eapply extends_trans. Qed.

(** A predicate on the two tables only. *)
Definition on_ledger (P : Db → Prop) : Prop :=
  ∀ db db', db_nodes db' = db_nodes db → db_generations db' = db_generations db → P db → P db'.

Lemma book_on_ledger db0 : on_ledger (book db0).
Proof. intros db db' H1 H2. unfold book. by rewrite H1, H2. Qed.

(** The node is there and has come as far as [current]. *)
Definition at_gen (nodeID : string) (current : N) (db : Db) : Prop :=
  ∃ n, db_nodes db !! nodeID = Some n ∧ current ≤ nd_desired_generation n.

Lemma at_gen_on_ledger nodeID current : on_ledger (at_gen nodeID current).
Proof. intros db db' H1 _. unfold at_gen. by rewrite H1. Qed.

Lemma and_on_ledger P Q : on_ledger P → on_ledger Q → on_ledger (λ db, P db ∧ Q db).
Proof. intros HP HQ db db' H1 H2 [? ?]. split; [eapply HP|eapply HQ]; eauto. Qed.

Lemma keep_elsewhere P f :
  on_ledger P → (∀ db, db_nodes (f db) = db_nodes db) → (∀ db, db_generations (f db) = db_generations db) →
  tx_keeps P (write f).
Proof. intros HP H1 H2. apply keep_write. intros db H. by apply (HP db). Qed.

(** Follow a transaction that writes other tables. *)
Ltac elsewhere_step :=
  first [ apply keep_elsewhere; [assumption || apply book_on_ledger|reflexivity|reflexivity] | tx_step ].
Ltac elsewhere := repeat elsewhere_step.

Section elsewhere.
Context (P : Db → Prop) (HP : on_ledger P).

Lemma checked_keeps name value : tx_keeps P (checked name value).
Proof. apply tx_checked. Qed.

Lemma allocateTrafficClass_elsewhere nodeID kind owner : tx_keeps P (allocateTrafficClass nodeID kind owner).
Proof. unfold allocateTrafficClass. elsewhere. Qed.

Lemma resolveTrafficClasses_elsewhere nodeID d :
  tx P (resolveTrafficClasses nodeID d) (λ d' db, P db ∧ ds_NodeID d' = ds_NodeID d
    ∧ ds_Generation d' = ds_Generation d ∧ ds_SchemaVersion d' = ds_SchemaVersion d).
Proof.
  unfold resolveTrafficClasses. eapply tx_bind.
  { apply keep_gather. intros p _. unfold resolve_policy. case_match; [apply keep_ret|].
    apply keep_bind; [apply allocateTrafficClass_elsewhere|intros; apply keep_ret]. }
  intros policies. cbn. eapply tx_bind.
  { apply keep_gather. intros f _. unfold resolve_forward. case_match; [apply keep_ret|].
    apply keep_bind; [apply allocateTrafficClass_elsewhere|intros; apply keep_ret]. }
  intros forwards. by apply tx_ret.
Qed.

Lemma syncServiceVIPBindings_elsewhere d : tx_keeps P (syncServiceVIPBindings d).
Proof. unfold syncServiceVIPBindings, sync_vip, allocate_vip, bind_vip. elsewhere. Qed.

Lemma emit_event_elsewhere topic aggregate generation now :
  tx_keeps P (emit_event topic aggregate generation now).
Proof. unfold emit_event. elsewhere. Qed.

Lemma insertPolicyAudits_elsewhere nodeID generation audits :
  tx_keeps P (insertPolicyAudits nodeID generation audits).
Proof. unfold insertPolicyAudits. elsewhere. Qed.

Lemma insertClusterAudit_elsewhere plan revision actor action subject :
  tx_keeps P (insertClusterAudit plan revision actor action subject).
Proof. unfold insertClusterAudit. elsewhere. Qed.
End elsewhere.

(** ** Publication *)
Lemma insert_generation_book db0 nodeID current row now :
  current + 1 ≤ MaxInt64 → published_as nodeID (current + 1) row →
  tx (λ db, book db0 db ∧ at_gen nodeID current db)
    (insert_generation nodeID (current + 1) row now)
    (λ _ db, book db0 db ∧ db_generations db !! (nodeID, current + 1) = Some row
             ∧ ∃ n, db_nodes db !! nodeID = Some n ∧ nd_desired_generation n = current + 1).
Proof.
  intros Hmax Hrow db [Hb (n & Hn & Hle)].
  unfold insert_generation, emit_event, read, lift, write, insert_new, mbind, Tx_bind, mret, Tx_ret. cbn.
  destruct (db_generations db !! (nodeID, current + 1)) as [r|] eqn:Hg; [done|]. cbn. split_and!.
  - eapply book_step; [exact Hb|]. intros HL. cbn.
    by destruct (book_publish _ _ HL nodeID n current row Hn Hle Hmax Hg Hrow) as [_ ?].
  - by rewrite lookup_insert_eq.
  - eexists. by rewrite lookup_alter_eq, Hn.
Qed.

Lemma EncodeDesiredJSON_published d e checksum nodeID generation now :
  EncodeDesiredJSON d = inr e → Checksum d = Some checksum → ds_NodeID d = nodeID →
  ds_Generation d = generation →
  published_as nodeID generation
    (MkGenerationRow (ds_SchemaVersion d) checksum e (RequiredCapabilities d) "pending" now None).
Proof.
  unfold EncodeDesiredJSON. destruct (Validate d) eqn:Hv; [|done].
  destruct (json_desired (Canonical d)); [|done]. intros [= <-] Hc <- <-. split; cbn -[Canonical].
  - by apply Valid_Canonical.
  - apply Canonical_idemp.
  - done.
  - done.
  - done.
  - by rewrite Checksum_Canonical.
  - apply required_of_map, required_map_Canonical.
Qed.

(** What a successful publication leaves: the answer is the stored row. *)
Definition published (db : Db) (nodeID : string) (current : N) (record : SnapshotRecord) : Prop :=
  sp_NodeID record = nodeID ∧ sp_Generation record = current + 1
  ∧ (∃ row, db_generations db !! (nodeID, current + 1) = Some row
            ∧ record = snapshot_of nodeID (current + 1) row)
  ∧ ∃ n, db_nodes db !! nodeID = Some n ∧ nd_desired_generation n = current + 1.

Lemma publishDesiredTx_book db0 nodeID current desired now :
  tx (λ db, book db0 db ∧ at_gen nodeID current db)
    (publishDesiredTx nodeID current desired now)
    (λ record db, book db0 db ∧ published db nodeID current record).
Proof.
  intros db H0. revert db H0. set (P := λ db, book db0 db ∧ at_gen nodeID current db).
  change (tx P (publishDesiredTx nodeID current desired now)
            (λ record db, book db0 db ∧ published db nodeID current record)).
  assert (on_ledger P) as HP by (apply and_on_ledger; [apply book_on_ledger|apply at_gen_on_ledger]).
  assert (∀ A Q (m : Tx A), (current ≤ MaxInt64 → tx P m Q) → tx P m Q) as Hbound.
  { intros A Q m H db Hdb. apply H; [|done]. destruct Hdb as [[HL _] (n & Hn & Hle)].
    pose proof (lg_bound _ _ HL nodeID n Hn). lia. }
  apply Hbound. intros Hmax. unfold publishDesiredTx.
  eapply tx_bind; [apply tx_require|]. intros [] db [Hdb Hne]. revert db Hdb.
  apply negb_true_iff, N.eqb_neq in Hne.
  replace (uadd 64 current 1) with (current + 1)
    by (symmetry; apply uadd_small; unfold MaxInt64 in *; lia).
  eapply (tx_bind P (λ d db, P db ∧ ds_NodeID d = nodeID ∧ ds_Generation d = current + 1)).
  { case_match; [|by apply tx_ret].
    eapply tx_conseq; [by apply (resolveTrafficClasses_elsewhere P)|done|].
    intros d db (? & -> & -> & _). done. }
  intros d db [Hdb [Hid Hgen]]. revert db Hdb.
  eapply tx_bind; [apply tx_require|]. intros [] db [Hdb _]. revert db Hdb.
  eapply tx_bind; [by apply (syncServiceVIPBindings_elsewhere P)|]. intros [].
  eapply tx_bind; [apply tx_lift|]. intros e db [Hdb He]. revert db Hdb.
  eapply tx_bind; [apply tx_the|]. intros checksum db [Hdb Hc]. revert db Hdb.
  eapply tx_bind.
  { apply insert_generation_book; [unfold MaxInt64 in *; lia|]. by apply EncodeDesiredJSON_published. }
  intros [] db (Hb & Hrow & Hn). cbn. split; [done|]. by split_and!; eauto.
Qed.
