(* ===== verification/ControlOps.v ===== *)
(** Every operation of the store keeps the ledger of generations. *)
From S2P Require Import Prelude.
From S2P Require Import GoNet.
From S2P Require Import SpecTypes.
From S2P Require Import SpecCanonical.
From S2P Require Import SpecValidate.
From S2P Require Import SpecFacts.
From S2P Require Import SpecChecksum.
From S2P Require Import Hostname.
From S2P Require Import Capabilities.
From S2P Require Import Meter.
From S2P Require Import ClusterTypes.
From S2P Require Import ClusterValidate.
From S2P Require Import Rollout.
From S2P Require Import ControlDb.
From S2P Require Import ControlNodes.
From S2P Require Import ControlPublish.
From S2P Require Import ControlRollout.
From S2P Require Import ControlStore.
From S2P Require Import ControlFacts.
From S2P Require Import ControlLedger.

(** * Registration and liveness *)
Lemma book_keeps db0 db (f : Db → Db) :
  book db0 db →
  (ledger (db_nodes db) (db_generations db) →
   ledger (db_nodes (f db)) (db_generations (f db))
   ∧ extends (db_nodes db) (db_nodes (f db)) (db_generations db) (db_generations (f db))) →
  book db0 (f db).
Proof. intros Hb H. by eapply book_step. Qed.

Lemma tx_the_bind {A B} R e (row : option A) (g : A → Tx B) Q :
  (∀ a, row = Some a → tx R (g a) Q) → tx R (the e row ≫= g) Q.
Proof. intros H. destruct row as [a|]; [by apply H|by intros db ?]. Qed.

Lemma tx_require_bind {A} R cond e (m : Tx A) Q :
  (cond = true → tx R m Q) → tx R (require_that cond e ≫= λ _, m) Q.
Proof. intros H. destruct cond; [by apply H|by intros db ?]. Qed.

(** A row of a node that keeps its place. *)
Lemma write_node_book db0 id n n' :
  same_place n n' →
  tx (λ db, book db0 db ∧ db_nodes db !! id = Some n) (write (on_nodes <[id := n']>))
    (λ _ db, book db0 db ∧ db_nodes db !! id = Some n').
Proof.
  intros Hs. apply tx_write. intros db [Hb Hn]. split.
  - apply book_keeps; [done|]. intros HL. by apply (book_touch _ _ HL id n n').
  - cbn. by rewrite lookup_insert_eq.
Qed.

Lemma alter_insert {A} (f : A → A) k (m : gmap string A) (a : A) :
  m !! k = Some a → alter f k m = <[k := f a]> m.
Proof.
  intros Hk. apply map_eq. intros j. destruct (decide (k = j)) as [<-|].
  - by rewrite lookup_alter_eq, lookup_insert_eq, Hk.
  - by rewrite lookup_alter_ne, lookup_insert_ne.
Qed.

Lemma alter_missing {A} (f : A → A) k (m : gmap string A) : m !! k = None → alter f k m = m.
Proof.
  intros Hk. apply map_eq. intros j. destruct (decide (k = j)) as [<-|].
  - by rewrite lookup_alter_eq, Hk.
  - by rewrite lookup_alter_ne.
Qed.

Lemma alter_node_book db0 id f :
  (∀ n, same_place n (f n)) → tx_keeps (book db0) (write (on_nodes (alter f id))).
Proof.
  intros Hf. apply tx_write. intros db Hb. apply book_keeps; [done|]. intros HL. cbn.
  destruct (db_nodes db !! id) as [n|] eqn:Hn.
  - rewrite (alter_insert f id _ n) by done. by apply (book_touch _ _ HL id n).
  - rewrite alter_missing by done. split; [done|apply extends_refl].
Qed.

Lemma live_node_some id db n :
  live_node id db = Some n → db_nodes db !! id = Some n ∧ nd_revoked_at n = None.
Proof. unfold live_node. repeat case_match; naive_solver. Qed.

Section ops.
Context (db0 : Db).
#[local] Abbreviation P := (book db0).

Lemma ensurePendingNodeTx_book id : tx_keeps P (ensurePendingNodeTx id).
Proof.
  unfold ensurePendingNodeTx. apply tx_read_bind. intros [row|].
  - case_match; [apply tx_fail|]. apply tx_ret. by intros db [Hb ?].
  - eapply (tx_bind _ (λ _, P)); [|intros; apply keep_ret].
    apply tx_write. intros db [Hb Hn]. apply book_keeps; [done|]. intros HL. by apply book_new.
Qed.

Lemma EnsurePendingNode_book id : tx_keeps P (EnsurePendingNode id).
Proof. apply keep_bind; [apply tx_checked|intros; apply ensurePendingNodeTx_book]. Qed.

Lemma DeletePendingNode_book id : tx_keeps P (DeletePendingNode id).
Proof.
  apply keep_bind; [apply tx_checked|intros _]. apply tx_read_bind. intros row.
  apply tx_read_bind. intros has. destruct row as [n|]; [|apply tx_fail].
  case_match eqn:Hc; [apply tx_fail|]. apply orb_false_iff in Hc as [Hc _].
  apply orb_false_iff in Hc as [Hc _]. apply orb_false_iff in Hc as [Hc _].
  apply negb_false_iff, N.eqb_eq in Hc.
  apply tx_read_bind. intros restrict. eapply tx_bind; [apply tx_require|]. intros [].
  eapply (tx_bind _ (λ _, P)).
  - apply tx_write. intros db [[[[Hb Hn] _] _] _]. apply book_keeps; [done|]. intros HL.
    by apply (book_delete _ _ HL id n).
  - intros _. elsewhere.
Qed.

Lemma RevokeNode_book id now : tx_keeps P (RevokeNode id now).
Proof.
  apply keep_bind; [apply tx_checked|intros _]. apply keep_bind; [apply keep_require|intros _].
  apply tx_read_bind. intros [n|]; [|apply tx_fail]. eapply (tx_bind _ (λ _, P)).
  - eapply tx_conseq; [apply (write_node_book db0 id n)|..].
    + by split_and!.
    + by intros db [? ?].
    + by intros _ db [Hb ?].
  - intros _. elsewhere.
Qed.

Lemma CreateEnrollmentToken_book id ttl raw now : tx_keeps P (CreateEnrollmentToken id ttl raw now).
Proof.
  apply keep_bind; [apply tx_checked|intros _]. apply keep_bind; [apply keep_require|intros _].
  apply keep_bind; [apply ensurePendingNodeTx_book|intros _]. elsewhere.
Qed.

Lemma CompleteEnrollment_book id token key now : tx_keeps P (CompleteEnrollment id token key now).
Proof. unfold CompleteEnrollment, enrolled_before, insert_key, checked. elsewhere. Qed.

Lemma live_node_book {A} id (e : store_error) (m : NodeRow → Tx A) Q :
  (∀ n, nd_revoked_at n = None → tx (λ db, P db ∧ db_nodes db !! id = Some n) (m n) Q) →
  tx P (n ← read (live_node id); n ← the e n; m n) Q.
Proof.
  intros H. apply tx_read_bind. intros [n|]; [|apply tx_fail]. intros db [Hb Hn].
  symmetry in Hn. apply live_node_some in Hn as [Hn Hr]. by apply (H n Hr db).
Qed.

Lemma RecordHello_book record : tx_keeps P (RecordHello record).
Proof.
  unfold RecordHello. apply live_node_book. intros n Hr. eapply (tx_bind _ (λ _, P)).
  - eapply tx_conseq; [apply (write_node_book db0 (hr_NodeID record) n); by split_and!|done|].
    by intros _ db [Hb ?].
  - intros _. elsewhere.
Qed.

Lemma RecordHeartbeat_book id t : tx_keeps P (RecordHeartbeat id t).
Proof.
  unfold RecordHeartbeat. apply live_node_book. intros n Hr.
  eapply tx_conseq; [apply (write_node_book db0 id n); by split_and!|done|]. by intros _ db [Hb ?].
Qed.
End ops.

(** Follow a transaction, by the lemmas known for its parts. *)
Create HintDb book.
Ltac books := repeat first [ solve [auto 1 with book nocore] | elsewhere_step ].

(** * Publication *)
Section publication.
Context (db0 : Db).
#[local] Abbreviation P := (book db0).

(** A publication under the node's current generation keeps the ledger. *)
Lemma publish_book {A} id current d now (k : SnapshotRecord → Tx A) :
  (∀ record, tx_keeps P (k record)) →
  tx (λ db, P db ∧ at_gen id current db) (record ← publishDesiredTx id current d now; k record)
    (λ _, P).
Proof.
  intros Hk. eapply tx_bind; [apply publishDesiredTx_book|]. intros record db [Hb ?]. by apply Hk.
Qed.

Lemma PublishDesired_book id d now : tx_keeps P (PublishDesired id d now).
Proof.
  apply keep_bind; [apply tx_checked|intros _]. apply keep_bind; [apply keep_require|intros _].
  apply live_node_book. intros n Hr. set (R := λ db, P db ∧ at_gen id (nd_desired_generation n) db).
  assert (∀ db, P db ∧ db_nodes db !! id = Some n → R db) as Himp.
  { intros db [Hb Hn]. split; [done|]. by exists n. }
  eapply (tx_bind _ (λ _, R)); [intros db Hdb; by apply Himp|]. intros profile.
  eapply (tx_bind _ (λ _, R)); [apply keep_require|]. intros [].
  eapply (tx_bind _ (λ _, R)); [unfold check_domain; tx_steps|]. intros [].
  eapply tx_conseq; [apply publishDesiredTx_book|done|]. by intros record db [Hb ?].
Qed.

(** ** Rollouts *)
Lemma publish_one_book rollout stage now target : tx_keeps P (publish_one rollout stage now target).
Proof.
  destruct target as [id row]. unfold publish_one. apply tx_read_bind. intros node. apply tx_the_bind. intros n ->.
  eapply (tx_bind _ (λ (_ : DesiredState) db, P db ∧ at_gen id (nd_desired_generation n) db)).
  { intros db [Hb Hn]. unfold lift. destruct (DecodeDesiredJSON _); [done|]. split; [done|].
    by exists n. }
  intros d. apply publish_book. intros record. elsewhere.
Qed.

Lemma publishClusterStageTx_book rollout stage now : tx_keeps P (publishClusterStageTx rollout stage now).
Proof.
  unfold publishClusterStageTx. repeat (apply publish_one_book || elsewhere_step).
Qed.

Lemma requestClusterRollbackTx_book rollout plan revision stage phase auto message actor now :
  tx_keeps P (requestClusterRollbackTx rollout plan revision stage phase auto message actor now).
Proof. unfold requestClusterRollbackTx, insertClusterAudit. elsewhere. Qed.
#[local] Hint Resolve publish_one_book publishClusterStageTx_book requestClusterRollbackTx_book : book.

Lemma recordClusterRolloutACKTx_book record : tx_keeps P (recordClusterRolloutACKTx record).
Proof.
  unfold recordClusterRolloutACKTx, ack_one.
  books.
Qed.

Lemma ensureCompensationStage_book rollout : tx_keeps P (ensureCompensationStage rollout).
Proof. unfold ensureCompensationStage. elsewhere. Qed.
#[local] Hint Resolve ensureCompensationStage_book : book.

Lemma completeClusterStageTx_book `{!Idna} rollout plan revision stage phase detail now actor :
  tx_keeps P (completeClusterStageTx rollout plan revision stage phase detail now actor).
Proof.
  unfold completeClusterStageTx, insertClusterAudit, stored_plan, replacePlacements, removeRetiredNodeProfiles.
  books.
Qed.
#[local] Hint Resolve completeClusterStageTx_book : book.

Lemma advanceClusterRolloutTx_book `{!Idna} rollout now actor :
  tx_keeps P (advanceClusterRolloutTx rollout now actor).
Proof.
  unfold advanceClusterRolloutTx, canaryBakeFailure, stored_plan.
  books.
Qed.
#[local] Hint Resolve advanceClusterRolloutTx_book : book.

Lemma AdvanceClusterRollouts_book `{!Idna} owner limit now :
  tx_keeps P (AdvanceClusterRollouts owner limit now).
Proof.
  unfold AdvanceClusterRollouts, advance_plan.
  books.
Qed.

(** ** Acknowledgements *)
Lemma remove_forced_book record now :
  tx (λ db, P db ∧ at_gen (ar_NodeID record) (ar_Generation record) db) (remove_forced record now)
    (λ _, P).
Proof.
  unfold remove_forced. set (R := λ db, P db ∧ at_gen (ar_NodeID record) (ar_Generation record) db).
  eapply (tx_bind _ (λ _, R)); [apply keep_read|]. intros row.
  eapply (tx_bind _ (λ _, R)); [apply keep_the|]. intros r.
  eapply (tx_bind _ (λ _, R)); [apply keep_lift|]. intros d.
  case_match; [by apply tx_ret; intros db [Hb ?]|].
  apply publish_book. intros next. apply insertPolicyAudits_elsewhere, book_on_ledger.
Qed.

(** An acknowledgement: the row is marked, the node moved on to it. *)
Definition acked (record : ApplyRecord) (row : GenerationRow) (current : N) (db : Db) : Prop :=
  P db ∧ db_generations db !! (ar_NodeID record, ar_Generation record) = Some row
  ∧ at_gen (ar_NodeID record) current db.

Lemma write_ack_book record row row' current :
  same_generation row row' →
  tx (acked record row current)
    (write (on_generations <[(ar_NodeID record, ar_Generation record) := row']>))
    (λ _, acked record row' current).
Proof.
  intros Hs. apply tx_write. intros db (Hb & Hk & Hn). split_and!; [|cbn; by rewrite lookup_insert_eq|done].
  apply book_keeps; [done|]. intros HL. by apply (book_ack _ _ HL _ row row').
Qed.

Lemma write_applied_book record row current :
  gn_desired_checksum row = ar_DesiredChecksum record →
  tx_keeps (acked record row current)
    (write (on_nodes (alter (λ n, if nd_applied_generation n <=? ar_Generation record
                                  then set_applied record n else n) (ar_NodeID record)))).
Proof.
  intros Hc. apply tx_write. intros db (Hb & Hk & n & Hn & Hg). split_and!; [|done|].
  - apply book_keeps; [done|]. intros HL. cbn. erewrite alter_insert by done. case_match eqn:Hle.
    + apply (book_applied _ _ HL _ n _ row); try done; cbn; [by apply N.leb_le|by rewrite Hc].
    + apply (book_touch _ _ HL _ n n Hn). by split_and!.
  - eexists. cbn. rewrite lookup_alter_eq, Hn. split; [done|]. by case_match.
Qed.

Lemma ack_generation_same record row : same_generation row (ack_generation record row).
Proof.
  unfold same_generation, ack_generation. cbn. split_and!; try done.
  intros ->. destruct (decide (ar_Status record = "applied")) as [->|Hne]; [done|].
  by rewrite (bool_decide_eq_false_2 _ Hne).
Qed.

Lemma RecordApplyResult_book record now : tx_keeps P (RecordApplyResult record now).
Proof.
  unfold RecordApplyResult. apply tx_read_bind. intros r. apply tx_the_bind. intros row ->.
  apply tx_require_bind. intros Hc%bool_decide_eq_true. apply tx_read_bind. intros n.
  apply tx_the_bind. intros node ->. do 2 (apply tx_require_bind; intros _).
  set (row' := ack_generation record row).
  eapply (tx_bind _ (λ _, acked record row (nd_desired_generation node))).
  { apply tx_write. intros db [[Hb Hk] Hn]. split_and!; [by eapply book_on_ledger|done|]. by exists node. }
  intros []. eapply tx_bind; [apply (write_ack_book _ _ row'), ack_generation_same|]. intros [].
  eapply (tx_bind _ (λ _, P)); [|intros []; apply recordClusterRolloutACKTx_book].
  case_match; [|by apply tx_ret; intros db (? & ? & ?)].
  eapply tx_bind; [by apply write_applied_book|]. intros []. case_match eqn:Hg.
  - apply N.eqb_eq in Hg. eapply tx_conseq; [apply remove_forced_book| |done].
    intros db (Hb & _ & Ha). rewrite Hg in Ha. done.
  - by apply tx_ret; intros db (? & ? & ?).
Qed.

(** ** Usage and policies *)
Lemma enforce_quotas_book id now : tx_keeps P (enforce_quotas id now).
Proof.
  unfold enforce_quotas. apply live_node_book. intros n _. case_match; [by apply tx_ret; intros db [??]|].
  set (R := λ db, P db ∧ at_gen id (nd_desired_generation n) db).
  apply (tx_conseq _ R _ (λ _, P)); [|intros db [Hb Hn]; split; [done|by exists n]|done].
  eapply (tx_bind _ (λ _, R)); [apply keep_read|]. intros row.
  eapply (tx_bind _ (λ _, R)); [apply keep_the|]. intros r.
  eapply (tx_bind _ (λ _, R)); [apply keep_lift|]. intros d.
  eapply (tx_bind _ (λ _, R)); [apply keep_read|]. intros [[next changed] audits].
  case_match; [by apply tx_ret; intros db [??]|].
  apply publish_book. intros record. apply insertPolicyAudits_elsewhere, book_on_ledger.
Qed.

Lemma RecordUsageBatch_book batch now : tx_keeps P (RecordUsageBatch batch now).
Proof.
  unfold RecordUsageBatch, record_delta.
  repeat first [ apply enforce_quotas_book | elsewhere_step ].
Qed.

(** A scan reads the generations once, and each node is still where it was when
    its turn comes. *)
Lemma enforce_node_book now id current :
  tx (λ db, P db ∧ at_gen id current db) (enforce_node now (id, current)) (λ _, P).
Proof.
  set (R := λ db, P db ∧ at_gen id current db). unfold enforce_node.
  eapply (tx_bind _ (λ _, R)); [apply keep_read|]. intros [].
  { by apply tx_ret; intros db [??]. }
  eapply (tx_bind _ (λ _, R)).
  { apply tx_write. intros db [Hb (n & Hn & Hg)]. split.
    - apply book_keeps; [done|]. intros HL. cbn. erewrite alter_insert by done.
      by apply (book_touch _ _ HL id n).
    - eexists. cbn. rewrite lookup_alter_eq, Hn. by split. }
  intros []. eapply (tx_bind _ (λ _, R)); [apply keep_read|]. intros row.
  eapply (tx_bind _ (λ _, R)); [apply keep_the|]. intros r.
  eapply (tx_bind _ (λ _, R)); [apply keep_lift|]. intros d.
  case_match; [by apply tx_ret; intros db [??]|].
  apply publish_book. intros record. apply keep_bind; [|intros; apply keep_ret].
  apply insertPolicyAudits_elsewhere, book_on_ledger.
Qed.

(** ** The outbox *)
Lemma ClaimOutbox_book owner limit lease now : tx_keeps P (ClaimOutbox owner limit lease now).
Proof. unfold ClaimOutbox. elsewhere. Qed.
Lemma MarkOutboxDelivered_book owner id now : tx_keeps P (MarkOutboxDelivered owner id now).
Proof. unfold MarkOutboxDelivered. elsewhere. Qed.
Lemma ReleaseOutbox_book owner id reason now : tx_keeps P (ReleaseOutbox owner id reason now).
Proof. unfold ReleaseOutbox. elsewhere. Qed.
End publication.

Lemma at_gen_extends id g db db' :
  g ≠ 0 → extends (db_nodes db) (db_nodes db') (db_generations db) (db_generations db') →
  at_gen id g db → at_gen id g db'.
Proof.
  intros H0 [_ He] (n & Hn & Hg). destruct (He id n Hn) as (n' & ? & ? & _); [lia|].
  exists n'. split; [done|lia].
Qed.

Lemma book_trans db0 db1 db2 : book db0 db1 → book db1 db2 → book db0 db2.
Proof. intros [_ H1] [H2 H3]. split; [done|]. by eapply extends_trans. Qed.

Lemma policy_nodes_at limit db id g :
  (id, g) ∈ policy_nodes limit db → g ≠ 0 ∧ at_gen id g db.
Proof.
  unfold policy_nodes. intros H. apply list_elem_of_fmap in H as ([k n] & [= -> ->] & H).
  apply elem_of_take in H as [i [H _]]. apply list_elem_of_lookup_2 in H.
  rewrite sort_slice_perm in H. apply list_elem_of_filter in H as [(_ & H0 & _) H].
  apply elem_of_map_to_list in H. split; [done|]. exists n. split; [done|]. cbn. lia.
Qed.

Lemma EnforcePolicies_book db0 limit now : tx_keeps (book db0) (EnforcePolicies limit now).
Proof.
  unfold EnforcePolicies. apply keep_bind; [apply keep_require|intros _].
  intros db1 Hb1. apply (tx_bind (book db1) (λ _, book db1)
    (λ _ db, book db0 db) (gather (enforce_node now) (policy_nodes limit db1))).
  - apply keep_gather. intros [id g] Hin. apply policy_nodes_at in Hin as [H0 Ha].
    apply (tx_conseq _ (λ db, book db1 db ∧ at_gen id g db) _ (λ _, book db1)); [apply enforce_node_book| |done]. intros db Hb. split; [done|].
    destruct Hb as [_ He]. by eapply at_gen_extends.
  - intros l. apply tx_ret. intros db Hb. by eapply book_trans.
  - by apply book_refl, Hb1.
Qed.
