(* ===== verification/ControlVips.v ===== *)
(** Service VIPs for a schedule, [allocateServiceVIPs] and [nextAvailableVIP] of
    [internal/controller/store/cluster.go]: a cross-node forward keeps the
    address it has, a new one gets the first free address of the service
    ranges. *)
From S2P Require Import Prelude.
From S2P Require Import GoNet.
From S2P Require Import NetFacts.
From S2P Require Import SpecTypes.
From S2P Require Import ClusterTypes.
From S2P Require Import ControlDb.
From S2P Require Import ControlNodes.

(** [netip.AddrFrom4] of a 32-bit sum *)
Definition vip_at (base cursor : N) : Addr := Addr4 (wrap 32 (base + cursor)).

(** The loop over one range: the first free address from [cursor] on, below
    [last], and the cursor after it. Each turn skips a used address, so that
    one turn more than there are used addresses is enough. *)
Fixpoint scan_prefix (fuel : nat) (base last cursor : N) (used : gmap Addr string) :
    option Addr * N :=
  match fuel with
  | O => (None, cursor)
  | S fuel =>
      if cursor <? last then
        let candidate := vip_at base cursor in
        match used !! candidate with
        | None => (Some candidate, cursor + 1)
        | Some _ => scan_prefix fuel base last (cursor + 1) used
        end
      else (None, cursor)
  end.

Definition base_of (prefix : Prefix) : N :=
  match p_addr prefix with Addr4 b => b | _ => 0 end.
Definition size_of (prefix : Prefix) : N := 2 ^ (32 - Z.to_N (p_bits prefix)).
Definition first_of (prefix : Prefix) : N := if 2 <? size_of prefix then 1 else 0.
Definition last_of (prefix : Prefix) : N :=
  if 2 <? size_of prefix then size_of prefix - 1 else size_of prefix.

(** [nextAvailableVIP]; the ranges are IPv4 ([As4] panics on others). *)
Fixpoint nextAvailableVIP (prefixes : list Prefix) (used : gmap Addr string)
    (cursors : gmap string N) : option Addr * gmap string N :=
  match prefixes with
  | [] => (None, cursors)
  | prefix :: rest =>
      let prefix := Prefix_Masked prefix in
      let key := Prefix_String prefix in
      let cursor := N.max (default 0 (cursors !! key)) (first_of prefix) in
      let '(found, next) := scan_prefix (S (size used)) (base_of prefix) (last_of prefix) cursor used in
      let cursors := if next =? cursor then cursors else <[key := next]> cursors in
      match found with
      | Some address => (Some address, cursors)
      | None => nextAvailableVIP rest used cursors
      end
  end.

(** [prefixContainsAny] *)
Definition prefixContainsAny (prefixes : list Prefix) (address : Addr) : bool :=
  existsb (λ prefix, Prefix_Contains prefix address) prefixes.

(** The stored allocations: by address, and by forward. *)
Definition less_vip : string * VipRow → string * VipRow → bool := less_by fst.
Definition stored_vips (db : Db) : option (list (Addr * string)) :=
  mapM (λ kv : string * VipRow, address ← ParseAddr kv.1; Some (Addr_Unmap address, vp_forward_id kv.2))
    (sort_slice less_vip (map_to_list (db_vips db))).
Definition used_vips (l : list (Addr * string)) : gmap Addr string :=
  foldl (λ m kv, <[kv.1 := kv.2]> m) ∅ l.
Definition vips_by_forward (l : list (Addr * string)) : gmap string Addr :=
  foldl (λ m kv, <[kv.2 := kv.1]> m) ∅ l.

Record vip_state := MkVipState {
  vs_used : gmap Addr string;
  vs_byForward : gmap string Addr;
  vs_cursors : gmap string N;
  vs_result : gmap string Addr;
}.

Definition place_vip (serviceCIDRs : list Prefix) (placement : Placement) (st : vip_state) :
    store_error + vip_state :=
  if negb (bool_decide (pc_PathMode placement = PathViaExit)) then inr st
  else match vs_byForward st !! pc_ForwardID placement with
  | Some existing =>
      if prefixContainsAny serviceCIDRs existing then
        inr (MkVipState (vs_used st) (vs_byForward st) (vs_cursors st)
               (<[pc_ForwardID placement := existing]> (vs_result st)))
      else inl ErrServiceVIPMigration
  | None =>
      let '(found, cursors) := nextAvailableVIP serviceCIDRs (vs_used st) (vs_cursors st) in
      match found with
      | None => inl ErrServiceVIPCapacity
      | Some allocated =>
          inr (MkVipState (<[allocated := pc_ForwardID placement]> (vs_used st))
                 (<[pc_ForwardID placement := allocated]> (vs_byForward st)) cursors
                 (<[pc_ForwardID placement := allocated]> (vs_result st)))
      end
  end.

Definition place_vips (serviceCIDRs : list Prefix) (stored : list (Addr * string))
    (placements : list Placement) : store_error + gmap string Addr :=
  match eloop (λ _, place_vip serviceCIDRs) 0 (sort_slice (less_by pc_ForwardID) placements)
          (MkVipState (used_vips stored) (vips_by_forward stored) ∅ ∅) with
  | inl e => inl e
  | inr st => inr (vs_result st)
  end.

Definition allocateServiceVIPs (plan : Plan) (placements : list Placement) : Tx (gmap string Addr) :=
  stored ← read stored_vips;
  stored ← the (Failure "parse service VIP allocation") stored;
  lift (place_vips (pl_ServiceCIDRs plan) stored placements).
