(* ===== verification/ControlSchedule.v ===== *)
(** Scheduling a cluster plan, the other half of
    [internal/controller/store/cluster.go] and [dns_targets.go]: what the
    database says about nodes, placements and health is given to the scheduler
    and the compiler, and their result becomes a staged rollout, all in one
    transaction. *)
From S2P Require Import Prelude.
From S2P Require Import GoNet.
From S2P Require Import SpecTypes.
From S2P Require Import SpecCanonical.
From S2P Require Import SpecValidate.
From S2P Require Import SpecChecksum.
From S2P Require Import Hostname.
From S2P Require Import Health.
From S2P Require Import Capabilities.
From S2P Require Import Iam.
From S2P Require Import ClusterTypes.
From S2P Require Import ClusterValidate.
From S2P Require Import PlanJson.
From S2P Require Import Scheduler.
From S2P Require Import ClusterCompile.
From S2P Require Import Rollout.
From S2P Require Import ControlDb.
From S2P Require Import ControlNodes.
From S2P Require Import ControlPublish.
From S2P Require Import ControlRollout.
From S2P Require Import ControlVips.

(** * Errors and savepoints *)

(** [ROLLBACK TO SAVEPOINT] when the guarded part fails. *)
Definition attempt {A} (m : Tx A) : Tx (store_error + A) := λ db,
  match m db with
  | inl e => inr (db, inl e)
  | inr (db, a) => inr (db, inr a)
  end.

(** [err.Error()], for the errors without further detail; a wrapped error is
    represented by what it wraps. *)
Definition error_text (e : store_error) : string :=
  match e with
  | ErrManagementConflict => "node desired state is owned by another management domain"
  | ErrServiceVIPConflict => "service VIP is already allocated to another forward path"
  | ErrServiceVIPCapacity => "service CIDR capacity is exhausted"
  | ErrServiceVIPMigration => "service VIP is outside the active service CIDRs"
  | ErrNoPlacement message | Failure message => message
  | PlanInvalid issues => PlanValidationError_Error issues
  | DesiredInvalid issues => String.concat "; " issues
  | _ => ""
  end.

(** [deferrableScheduleError] *)
Definition deferrableScheduleError (e : store_error) : bool :=
  match e with
  | ErrNoPlacement _ | ErrManagementConflict | ErrServiceVIPConflict | ErrServiceVIPCapacity
  | ErrServiceVIPMigration | PlanInvalid _ | DesiredInvalid _ => true
  | _ => false
  end.

(** [validateActor] *)
Definition validateActor (actor : string) : Tx unit :=
  require_that (negb (bool_decide (TrimSpace actor = "") || (256 <? String.length actor)%nat
                      || bool_decide (nul ∈ chars actor)))
    (Failure "actor must contain between 1 and 256 safe characters").

(** * What the database says *)

(** The domain of the states a plan owns. *)
Definition plan_domain (planID : string) : string := "cluster:" +:+ planID.

Definition desiredHasManagedResources (d : DesiredState) : bool :=
  negb (bool_decide (ds_Forwards d = [])) || negb (bool_decide (ds_FabricLinks d = []))
  || negb (bool_decide (ds_HealthChecks d = [])) || negb (bool_decide (ds_UserPolicies d = []))
  || negb (bool_decide (ds_ServiceCIDRs d = [])).

(** The highest version of each capability an Agent offers. *)
Definition capability_map (capabilities : list Capability) : gmap string N :=
  foldl (λ m c, if default 0 (m !! cap_Name c) <? cap_Version c
                then <[cap_Name c := cap_Version c]> m else m) ∅ capabilities.

Definition load_runtime (plan : Plan) (now : Time) (nodeID : string) (row : NodeRow) : NodeRuntime :=
  {| nr_ID := nodeID;
     nr_Available :=
       match nd_last_seen_at row with
       | Some seen =>
           bool_decide (nd_revoked_at row = None)
           && (Time_Sub now seen <=? Z.of_N (pl_NodeOfflineAfterSeconds plan) * Second)%Z
           && (- (5 * Minute) <=? Time_Sub now seen)%Z
       | None => false
       end;
     nr_LastSeen := default 0%Z (nd_last_seen_at row);
     nr_Capabilities := capability_map (nd_capabilities row);
     nr_WireGuardPublicKey := default "" (nd_wireguard_public_key row) |}.

(** The stored state of a node at a generation. *)
Definition current_state (nodeID : string) (generation : N) : Tx DesiredState :=
  row ← read (λ db, db_generations db !! (nodeID, generation));
  row ← the (Failure "read current desired state") row;
  lift (DecodeDesiredJSON (gn_desired_state row)).

Definition check_owner (planID nodeID : string) (generation : N) : Tx unit :=
  if generation =? 0 then mret tt
  else
    current ← current_state nodeID generation;
    require_that (bool_decide (ds_ManagementDomain current = plan_domain planID)
                  || bool_decide (ds_ManagementDomain current = "")
                     && negb (desiredHasManagedResources current)) ErrManagementConflict.

Definition loadNodeRuntimes (plan : Plan) (now : Time) :
    Tx (gmap string NodeRuntime * gmap string N) :=
  let ids := sort_slice str_lt (map nd_ID (pl_Nodes plan)) in
  nodes ← read (λ db, filter (λ kv, kv.1 ∈ ids) (db_nodes db));
  let runtimes := map_imap (λ id row, Some (load_runtime plan now id row)) nodes in
  let currents := nd_desired_generation <$> nodes in
  _ ← require_that (size runtimes =? length ids)%nat
        (Failure "cluster plan references a node that has not been enrolled");
  _ ← each (λ id, check_owner (pl_ID plan) id (default 0 (currents !! id))) ids;
  mret (runtimes, currents).

(** The nodes that still have the plan's profile but are no longer in it. *)
Definition retired_nodes (plan : Plan) (db : Db) : list (string * N) :=
  sort_slice (less_by fst) (omap (λ kv : string * ProfileRow,
    if bool_decide (pf_plan_id kv.2 = pl_ID plan) && negb (bool_decide (kv.1 ∈ map nd_ID (pl_Nodes plan)))
    then row ← db_nodes db !! kv.1; Some (kv.1, nd_desired_generation row) else None)
    (map_to_list (db_profiles db))).

Definition check_retired (planID : string) (node : string * N) : Tx unit :=
  if node.2 =? 0 then mret tt
  else
    desired ← current_state node.1 node.2;
    require_that (bool_decide (ds_ManagementDomain desired = plan_domain planID)) ErrManagementConflict.

Definition loadRetiredClusterNodes (plan : Plan) : Tx (list (string * N)) :=
  retired ← read (retired_nodes plan);
  _ ← each (check_retired (pl_ID plan)) retired;
  mret retired.

(** The placements as [loadPlacements] reads them back. *)
Definition loaded_placement (row : PlacementRow) : Placement :=
  let p := pm_placement row in
  {| pc_ForwardID := pc_ForwardID p; pc_IngressID := pc_IngressID p; pc_ExitID := pc_ExitID p;
     pc_BackendID := pc_BackendID p;
     pc_Target := MkEndpoint (Addr_Unmap (ep_Address (pc_Target p))) "" (ep_Port (pc_Target p));
     pc_PathMode := if bool_decide (pc_ExitID p = "") then PathDirect else PathViaExit;
     pc_FabricInID := pc_FabricInID p; pc_FabricOutID := pc_FabricOutID p |}.
Definition loadPlacements (planID : string) (db : Db) : list Placement :=
  map (λ kv, loaded_placement kv.2) (sort_slice (less_by (λ kv : string * string * PlacementRow, kv.1.2))
    (filter (λ kv, kv.1.1 = planID) (map_to_list (db_placements db)))).

Definition loadHealthObservations (planID : string) (db : Db) : gmap HealthKey HealthObservation :=
  list_to_map (map (λ kv : ObservationKey * ObservationRow,
      ((kv.1.1.1.2, kv.1.1.2, kv.1.2),
       {| ho_Status := bo_status kv.2; ho_ResourceVersion := bo_resource_version kv.2;
          ho_ObservedAt := bo_observed_at kv.2 |}))
    (filter (λ kv, kv.1.1.1.1 = planID) (map_to_list (db_observations db)))).

(** The states a rollout starts from, with the generation of a stage. *)
Definition set_stage_generation (d : DesiredState) : DesiredState :=
  MkDesiredState (ds_SchemaVersion d) (ds_NodeID d) 1 (ds_ManagementDomain d) (ds_ServiceCIDRs d)
    (ds_FabricLinks d) (ds_HealthChecks d) (ds_UserPolicies d) (ds_ProtocolBlocks d) (ds_Forwards d).
Definition load_current (node : string * N) : Tx (string * DesiredState) :=
  if node.2 =? 0 then mret (node.1, emptyStageState node.1)
  else
    desired ← current_state node.1 node.2;
    mret (node.1, Canonical (set_stage_generation desired)).
Definition loadCurrentDesiredStates (generations : gmap string N) : Tx (gmap string DesiredState) :=
  l ← gather load_current (sort_slice (less_by fst) (map_to_list generations));
  mret (list_to_map l).

(** * Lifecycles decided at run time

    A node's own state can be ahead of the plan: a quota, an expiry or a drain
    has moved a forward on. The version tells, and for one version the severity. *)
Record runtimeLifecycle := MkRuntimeLifecycle {
  rt_lifecycle : Lifecycle;
  rt_drainDeadline : option Time;
  rt_version : N;
}.

Definition severity (value : Lifecycle) : N :=
  if bool_decide (value = LifecycleForceDeleting) then 4
  else if bool_decide (value = LifecyclePaused) then 3
  else if bool_decide (value = LifecycleDraining) then 2 else 1.

Definition runtime_of (f : ForwardSpec) : runtimeLifecycle :=
  MkRuntimeLifecycle (fw_Lifecycle f) (fw_DrainDeadline f) (fw_ResourceVersion f).

Definition ahead (candidate existing : runtimeLifecycle) : bool :=
  (rt_version existing <? rt_version candidate)
  || (rt_version candidate =? rt_version existing)
     && (severity (rt_lifecycle existing) <? severity (rt_lifecycle candidate)).

Definition note_runtime (latest : gmap string runtimeLifecycle) (f : ForwardSpec) :
    gmap string runtimeLifecycle :=
  match latest !! fw_ID f with
  | Some existing => if ahead (runtime_of f) existing then <[fw_ID f := runtime_of f]> latest else latest
  | None => <[fw_ID f := runtime_of f]> latest
  end.

Definition latest_runtimes `{!StateRange} (current : gmap string DesiredState) :
    gmap string runtimeLifecycle :=
  foldl note_runtime ∅ (flat_map (λ kv, ds_Forwards kv.2) (range_states current)).

Definition preserve_forward (latest : gmap string runtimeLifecycle) (f : ForwardSpec) : ForwardSpec :=
  match latest !! fw_ID f with
  | Some r =>
      if rt_version r <=? fw_ResourceVersion f then f
      else MkForwardSpec (fw_ID f) (fw_UserID f) (fw_Protocols f) (fw_IngressNodeID f) (fw_ExitNodeID f)
             (fw_Listen f) (fw_Target f) (fw_ServiceVIP f) (fw_FabricLinkID f) (fw_PathMode f)
             (fw_SNAT f) (fw_TrafficClassID f) (fw_RateLimit f) (fw_TrafficQuota f) (fw_ExpiresAt f)
             (rt_drainDeadline r) (rt_lifecycle r) (rt_version r)
  | None => f
  end.

Definition preserveRuntimeLifecycles `{!StateRange} (current target : gmap string DesiredState) :
    gmap string DesiredState :=
  let latest := latest_runtimes current in
  (λ s, Canonical (set_Forwards (map (preserve_forward latest) (ds_Forwards s)) s)) <$> target.

(** * Alerts *)
Definition alert_key (forwardID code : string) : string := forwardID +:+ ClusterCompile.nul +:+ code.

Definition raise_alert (planID : string) (alert : Alert) : Tx unit :=
  write (on_alerts <[(planID, al_ForwardID alert, al_Code alert) := MkAlertRow "active" alert None]>).

Definition resolve_row (now : Time) (row : AlertRow) : AlertRow :=
  MkAlertRow "resolved" (aw_alert row) (Some (CURRENT_TIMESTAMP now)).

Definition stale_alerts (planID : string) (alerts : list Alert) (db : Db) : list (string * string) :=
  map (λ kv, (kv.1.1.2, kv.1.2))
    (filter (λ kv : string * string * string * AlertRow,
        kv.1.1.1 = planID ∧ aw_status kv.2 = "active"
        ∧ alert_key kv.1.1.2 kv.1.2 ∉ map (λ a, alert_key (al_ForwardID a) (al_Code a)) alerts)
      (map_to_list (db_alerts db))).

Definition resolve_alert (plan : Plan) (actor : string) (now : Time) (item : string * string) : Tx unit :=
  _ ← write (on_alerts (alter (resolve_row now) (pl_ID plan, item.1, item.2)));
  insertClusterAudit (pl_ID plan) (pl_Revision plan) actor "cluster_alert_resolved" item.1.

Definition syncClusterAlerts (plan : Plan) (actor : string) (alerts : list Alert) (now : Time) : Tx unit :=
  _ ← each (raise_alert (pl_ID plan)) alerts;
  stale ← read (stale_alerts (pl_ID plan) alerts);
  each (resolve_alert plan actor now) stale.

(** * Scheduling *)
Record ClusterApplyResult := MkClusterApplyResult {
  cr_PlanID : string;
  cr_Revision : N;
  cr_Checksum : string;
  cr_Scheduled : bool;
  cr_RolloutID : N;
  cr_Published : list SnapshotRecord;
  cr_Placements : list Placement;
  cr_Alerts : list Alert;
  cr_Blocked : bool;        (** [LastError] is not empty *)
  cr_RolledBack : bool;
  cr_PreviousRevision : N;
}.

Definition result_of (plan : Plan) (placed : Result) (previous : N) : ClusterApplyResult :=
  MkClusterApplyResult (pl_ID plan) (pl_Revision plan) "" false 0 [] (re_Placements placed)
    (re_Alerts placed) false false previous.

(** [placementsEqual] *)
Definition placementsEqual (first second : list Placement) : bool :=
  bool_decide (sort_slice (less_by pc_ForwardID) first = sort_slice (less_by pc_ForwardID) second).

(** Column updates of the plan *)
Definition defer_plan (t : Time) (p : PlanRow) : PlanRow :=
  MkPlanRow (pn_active_revision p) (pn_active_checksum p) t (pn_last_scheduled_at p)
    (pn_last_error p) (pn_paused_at p).
Definition scheduled_plan (now : Time) (p : PlanRow) : PlanRow :=
  MkPlanRow (pn_active_revision p) (pn_active_checksum p) (Time_Add now (5 * Second)) (Some now) None
    (pn_paused_at p).
Definition mark_scheduled (planID : string) (now : Time) : Tx unit :=
  write (on_plans (alter (scheduled_plan now) planID)).

(** The errors of the pure parts. [Compile] wraps a validation error only for a
    compiled state, under this message. *)
Definition place_error `{!Idna} (plan : Plan) (message : string) : store_error :=
  match PlanValidate plan with [] => ErrNoPlacement message | issues => PlanInvalid issues end.
Definition compile_error `{!Idna} (plan : Plan) (message : string) : store_error :=
  match PlanValidate plan with
  | [] => if String.prefix "compile desired state for node " message
          then DesiredInvalid [message] else Failure message
  | issues => PlanInvalid issues
  end.
Definition or_error {A} (kind : string → store_error) (r : string + A) : store_error + A :=
  match r with inl message => inl (kind message) | inr a => inr a end.

(** [AUTOINCREMENT]: rollouts are never deleted. *)
Definition next_rollout (db : Db) : N := foldr N.max 0 (map fst (map_to_list (db_rollouts db))) + 1.

Definition record_target (rolloutID stageOrder : N) (kv : string * DesiredState) : Tx unit :=
  encoded ← lift (EncodeDesiredJSON kv.2);
  write (on_targets <[(rolloutID, stageOrder, kv.1) := MkTargetRow 0 None None encoded "queued" "" None]>).
Definition record_stage (rolloutID : N) (stage : nat * RolloutStage) : Tx unit :=
  let stageOrder := N.of_nat (S stage.1) in
  (* CHECK(bake_seconds BETWEEN 0 AND 86400) *)
  _ ← require_that (sg_BakeSeconds stage.2 <=? 86400) (Failure "CHECK constraint failed");
  _ ← write (on_stages <[(rolloutID, stageOrder) :=
        MkStageRow (sg_Wave stage.2) (sg_Phase stage.2) "pending" (sg_BakeSeconds stage.2) None None]>);
  each (record_target rolloutID stageOrder)
    (sort_slice (less_by fst) (map_to_list (sg_Desired stage.2))).
Definition record_baseline (rolloutID : N) (kv : string * DesiredState) : Tx unit :=
  encoded ← lift (EncodeDesiredJSON kv.2);
  write (on_baselines <[(rolloutID, kv.1) := encoded]>).

Definition index_stages (stages : list RolloutStage) : list (nat * RolloutStage) :=
  imap pair stages.

(** The rows of a new rollout, and the publication of its first stage. *)
Definition create_rollout (plan : Plan) (actor action : string) (previousRevision : N)
    (detail : clusterRolloutDetail) (stages : list RolloutStage) (baselines : gmap string DesiredState)
    (now : Time) : Tx (N * list SnapshotRecord) :=
  rolloutID ← read next_rollout;
  _ ← write (on_rollouts <[rolloutID :=
        MkRolloutRow (pl_ID plan) (pl_Revision plan)
          (if previousRevision =? 0 then None else Some previousRevision) actor action "publishing"
          detail 1 None "" true None]>);
  _ ← each (record_stage rolloutID) (index_stages stages);
  _ ← each (record_baseline rolloutID) (sort_slice (less_by fst) (map_to_list baselines));
  published ← publishClusterStageTx rolloutID 1 now;
  mret (rolloutID, published).

(** What a schedule without a change of any node's state leaves. *)
Definition record_metadata `{!Idna} (plan : Plan) (actor action : string) (metadataChanged : bool)
    (placements : list Placement) (vips : gmap string Addr) (now : Time) : Tx unit :=
  _ ← (if metadataChanged then
         _ ← replacePlacements plan placements vips; removeRetiredNodeProfiles plan
       else mret tt);
  _ ← mark_scheduled (pl_ID plan) now;
  if metadataChanged then
    insertClusterAudit (pl_ID plan) (pl_Revision plan) actor ("cluster_" +:+ action +:+ "_metadata") (pl_ID plan)
  else mret tt.

Section scheduling.
Context `{!Idna} `{!MapRange} `{!StateRange} `{!StringRange}.

(** The answers of the DNS cache, call by call (pool, backend, hostname and
    fallback), and the tenant policies, a table of the identity store. *)
Context (dns : nat → nat → string → Addr → Addr) (policies : gmap string Policy).

(** ** Hostnames *)

(** [candidateAllowedForUsers] *)
Definition candidateAllowedForUsers (address : Addr) (users : list string) : bool :=
  forallb (λ user, bool_decide (user = "owner")
    || match policies !! user with
       | Some policy => match AuthorizeTarget policy address with inr _ => true | inl _ => false end
       | None => false
       end) users.

Definition pool_users (plan : Plan) (poolID : string) : list string :=
  map cf_UserID (filter (λ f, cf_BackendPoolID f = poolID) (pl_Forwards plan)).

Definition resolve_backend (users : list string) (i j : nat) (b : Backend) : Backend :=
  let endpoint := be_Target b in
  if bool_decide (ep_Hostname endpoint = "") then b
  else
    let fallback := Addr_Unmap (ep_Address endpoint) in
    let candidate := dns i j (ep_Hostname endpoint) fallback in
    let candidate := if candidateAllowedForUsers candidate users then candidate else fallback in
    {| be_ID := be_ID b; be_Target := MkEndpoint (Addr_Unmap candidate) "" (ep_Port endpoint);
       be_ProbeEndpoint := be_ProbeEndpoint b; be_Priority := be_Priority b;
       be_ResourceVersion := be_ResourceVersion b |}.

Definition resolve_pool (plan : Plan) (i : nat) (pool : BackendPool) : BackendPool :=
  {| bp_ID := bp_ID pool;
     bp_Backends := imap (resolve_backend (pool_users plan (bp_ID pool)) i) (bp_Backends pool);
     bp_Health := bp_Health pool; bp_ResourceVersion := bp_ResourceVersion pool |}.

Definition set_pools (pools : list BackendPool) (p : Plan) : Plan :=
  {| pl_SchemaVersion := pl_SchemaVersion p; pl_ID := pl_ID p; pl_Revision := pl_Revision p;
     pl_NodeOfflineAfterSeconds := pl_NodeOfflineAfterSeconds p; pl_Rollout := pl_Rollout p;
     pl_ServiceCIDRs := pl_ServiceCIDRs p; pl_Nodes := pl_Nodes p; pl_UserPolicies := pl_UserPolicies p;
     pl_BackendPools := pools; pl_Forwards := pl_Forwards p |}.

Definition resolvePlanTargets (plan : Plan) : Plan :=
  let plan := PlanCanonical plan in
  set_pools (imap (resolve_pool plan) (pl_BackendPools plan)) plan.

(** ** One schedule *)
Definition schedulePlanTx (plan : Plan) (actor action : string) (force : bool)
    (previousRevision : N) (now : Time) : Tx ClusterApplyResult :=
  inFlight ← read (active_rollouts (pl_ID plan));
  if negb (bool_decide (inFlight = [])) then
    _ ← write (on_plans (alter (defer_plan (Time_Add now Second)) (pl_ID plan)));
    mret (MkClusterApplyResult (pl_ID plan) (pl_Revision plan) "" false 0 [] [] [] true false previousRevision)
  else
    loaded ← loadNodeRuntimes plan now;
    let '(runtimes, currents) := loaded in
    retired ← loadRetiredClusterNodes plan;
    let currents := list_to_map retired ∪ currents in
    previous ← read (loadPlacements (pl_ID plan));
    observations ← read (loadHealthObservations (pl_ID plan));
    let operationalPlan := resolvePlanTargets plan in
    placed ← lift (or_error (place_error operationalPlan)
                     (Place operationalPlan runtimes observations previous now));
    vips ← allocateServiceVIPs operationalPlan (re_Placements placed);
    compiled ← lift (or_error (compile_error operationalPlan)
                       (Compile operationalPlan placed vips runtimes));
    let compiled := list_to_map (map (λ kv, (kv.1, emptyStageState kv.1)) retired) ∪ compiled in
    let moved := negb (bool_decide (retired = [])) || negb (placementsEqual previous (re_Placements placed)) in
    let changed := force || moved in
    let metadataChanged := negb (bool_decide (action = "health_reconcile")) || moved in
    let result := result_of plan placed previousRevision in
    _ ← syncClusterAlerts plan actor (re_Alerts placed) now;
    if negb changed then
      _ ← mark_scheduled (pl_ID plan) now; mret result
    else
      currentStates ← loadCurrentDesiredStates currents;
      let compiled := preserveRuntimeLifecycles currentStates compiled in
      rollout ← lift (or_error Failure
                  (BuildRolloutStages (pl_ID plan) (EffectiveRolloutStrategy plan) currentStates compiled));
      let '(stages, canaryForwards) := rollout in
      if bool_decide (length stages = 0%nat) then
        _ ← record_metadata plan actor action metadataChanged (re_Placements placed) vips now;
        mret result
      else
        created ← create_rollout plan actor action previousRevision
          (MkRolloutDetail 1 true (re_Placements placed) vips (map fst retired) canaryForwards)
          stages currentStates now;
        _ ← mark_scheduled (pl_ID plan) now;
        _ ← insertClusterAudit (pl_ID plan) (pl_Revision plan) actor ("cluster_" +:+ action) (pl_ID plan);
        mret (MkClusterApplyResult (pl_ID plan) (pl_Revision plan) "" true created.1 created.2
                (re_Placements placed) (re_Alerts placed) false false previousRevision).

(** ** Applying a plan *)

(** [syncNodeProfiles] *)
Definition sync_profile (plan : Plan) (node : Node) : Tx unit :=
  row ← read (λ db, db_nodes db !! nd_ID node);
  _ ← the (Failure "cluster node has not been registered") row;
  profile ← read (λ db, db_profiles db !! nd_ID node);
  _ ← require_that (match profile with
                    | Some p => bool_decide (pf_plan_id p = pl_ID plan)
                    | None => true
                    end) ErrManagementConflict;
  write (on_profiles <[nd_ID node := MkProfileRow (pl_ID plan) (pl_Revision plan) node]>).
Definition syncNodeProfiles (plan : Plan) : Tx unit := each (sync_profile plan) (pl_Nodes plan).

(** The highest stored revision of a plan. *)
Definition maximum_revision (planID : string) (db : Db) : N :=
  foldr N.max 0 (map (λ kv, kv.1.2) (filter (λ kv, kv.1.1 = planID) (map_to_list (db_revisions db)))).

(** [UNIQUE(plan_id,checksum)], [CHECK(revision > 0)] after [int64] *)
Definition insert_revision (plan : Plan) (checksum : string) (encoded : Plan) (actor : string) : Tx unit :=
  _ ← require_that ((0 <? pl_Revision plan) && (pl_Revision plan <=? MaxInt64))
        (Failure "CHECK constraint failed");
  taken ← read (λ db, existsb (λ kv : string * N * RevisionRow,
            bool_decide (kv.1.1 = pl_ID plan) && bool_decide (rv_checksum kv.2 = checksum))
            (map_to_list (db_revisions db)));
  _ ← require_that (negb taken) (Failure "UNIQUE constraint failed");
  revisions ← read db_revisions;
  revisions ← lift (insert_new (pl_ID plan, pl_Revision plan) (MkRevisionRow checksum encoded actor) revisions);
  write (on_revisions (λ _, revisions)).

Definition activate (revision : N) (checksum : string) (now : Time) (p : PlanRow) : PlanRow :=
  MkPlanRow revision checksum (CURRENT_TIMESTAMP now) (pn_last_scheduled_at p) (pn_last_error p) None.

(** The history of the plan: a new revision above all stored ones, or the
    active one again with the same content. *)
Definition store_plan (plan : Plan) (checksum : string) (encoded : Plan) (actor : string) (now : Time) :
    Tx (option N) :=
  row ← read (λ db, db_plans db !! pl_ID plan);
  match row with
  | None =>
      _ ← require_that ((0 <? pl_Revision plan) && (pl_Revision plan <=? MaxInt64))
            (Failure "CHECK constraint failed");
      _ ← write (on_plans <[pl_ID plan :=
            MkPlanRow (pl_Revision plan) checksum (CURRENT_TIMESTAMP now) None None None]>);
      _ ← insert_revision plan checksum encoded actor;
      mret None
  | Some row =>
      maximum ← read (maximum_revision (pl_ID plan));
      (* [int64(plan.Revision) <= maximum] *)
      _ ← (if (pl_Revision plan <=? maximum) || (MaxInt64 <? pl_Revision plan) then
             stored ← read (λ db, db_revisions db !! (pl_ID plan, pl_Revision plan));
             stored ← the ErrPlanRevisionConflict stored;
             _ ← require_that (bool_decide (rv_checksum stored = checksum)) ErrPlanRevisionConflict;
             require_that (pn_active_revision row =? pl_Revision plan)
               (Failure "historical cluster revision must be activated with plan-rollback")
           else insert_revision plan checksum encoded actor);
      _ ← write (on_plans (alter (activate (pl_Revision plan) checksum now) (pl_ID plan)));
      mret (Some (pn_active_revision row))
  end.

Definition blocked_plan (now : Time) (e : store_error) (p : PlanRow) : PlanRow :=
  MkPlanRow (pn_active_revision p) (pn_active_checksum p) (Time_Add now (5 * Second))
    (pn_last_scheduled_at p) (Some (error_text e)) (pn_paused_at p).

Definition with_checksum (checksum : string) (previous : N) (rolledBack : bool) (r : ClusterApplyResult) :
    ClusterApplyResult :=
  MkClusterApplyResult (cr_PlanID r) (cr_Revision r) checksum (cr_Scheduled r) (cr_RolloutID r)
    (cr_Published r) (cr_Placements r) (cr_Alerts r) (cr_Blocked r) rolledBack previous.

Definition ApplyClusterPlan (plan : Plan) (actor : string) (now : Time) : Tx ClusterApplyResult :=
  _ ← require_that (bool_decide (PlanValidate plan = [])) (PlanInvalid (PlanValidate plan));
  _ ← validateActor actor;
  let plan := PlanCanonical plan in
  encoded ← lift (plan_json (EncodePlanJSON plan));
  checksum ← the (Failure "checksum cluster plan") (PlanChecksum plan);
  _ ← ensureNoActiveClusterRollout (pl_ID plan);
  stored ← store_plan plan checksum encoded actor now;
  let previousRevision := default 0 stored in
  _ ← syncNodeProfiles plan;
  let force := negb (bool_decide (stored = Some (pl_Revision plan))) in
  scheduled ← attempt (schedulePlanTx plan actor "apply" force previousRevision now);
  match scheduled with
  | inl e =>
      _ ← require_that (deferrableScheduleError e) e;
      _ ← write (on_plans (alter (blocked_plan now e) (pl_ID plan)));
      _ ← insertClusterAudit (pl_ID plan) (pl_Revision plan) actor "plan_schedule_blocked" (pl_ID plan);
      mret (MkClusterApplyResult (pl_ID plan) (pl_Revision plan) checksum false 0 [] [] [] true false
              previousRevision)
  | inr result => mret (with_checksum checksum previousRevision (cr_RolledBack result) result)
  end.

Definition RollbackClusterPlan (planID : string) (revision : N) (actor : string) (now : Time) :
    Tx ClusterApplyResult :=
  _ ← checked "plan_id" planID;
  _ ← require_that (negb (revision =? 0)) (Failure "rollback revision must be greater than zero");
  _ ← validateActor actor;
  _ ← ensureNoActiveClusterRollout planID;
  row ← read (λ db, db_plans db !! planID);
  row ← the (Failure "cluster plan does not exist") row;
  stored ← read (λ db, db_revisions db !! (planID, revision));
  stored ← the (Failure "rollback revision does not exist") stored;
  plan ← lift (plan_json (DecodePlanJSON (rv_plan stored)));
  _ ← write (on_plans (alter (activate revision (rv_checksum stored) now) planID));
  _ ← syncNodeProfiles plan;
  result ← schedulePlanTx plan actor "rollback" true (pn_active_revision row) now;
  mret (with_checksum (rv_checksum stored) (pn_active_revision row) true result).

(** ** The reconciler *)

(** The plans that are due, [ORDER BY reconcile_after,id]. *)
Definition less_due (a b : string * PlanRow) : bool :=
  (pn_reconcile_after a.2 <? pn_reconcile_after b.2)%Z
  || (pn_reconcile_after a.2 =? pn_reconcile_after b.2)%Z && str_lt a.1 b.1.
Definition due_plans (limit : nat) (now : Time) (db : Db) : list Plan :=
  take limit (omap (λ kv : string * PlanRow,
      row ← db_revisions db !! (kv.1, pn_active_revision kv.2); Some (rv_plan row))
    (sort_slice less_due (filter (λ kv : string * PlanRow,
        pn_paused_at kv.2 = None ∧ (pn_reconcile_after kv.2 <=? now)%Z = true)
      (map_to_list (db_plans db))))).

Definition reconcile_plan (actor : string) (now : Time) (plan : Plan) : Tx bool :=
  scheduled ← attempt (schedulePlanTx plan actor "health_reconcile" false (pl_Revision plan) now);
  match scheduled with
  | inl e =>
      _ ← write (on_plans (alter (blocked_plan now e) (pl_ID plan)));
      mret false
  | inr result => mret (cr_Scheduled result)
  end.

Definition ReconcileClusterPlans (owner : string) (limit : nat) (now : Time) : Tx nat :=
  _ ← require_that (negb (bool_decide (owner = "") || (limit <? 1)%nat || (100 <? limit)%nat))
        (Failure "invalid cluster reconciler arguments");
  plans ← read (due_plans limit now);
  plans ← gather (λ p, lift (plan_json (DecodePlanJSON p))) plans;
  scheduled ← gather (reconcile_plan (system_actor owner) now) plans;
  mret (length (filter (λ b, b = true) scheduled)).

(** ** Deletes *)
Record ActivePlan := MkActivePlan { ap_Plan : Plan; ap_MaximumRevision : N }.

Definition ActiveClusterPlan (planID : string) : Tx ActivePlan :=
  _ ← checked "plan_id" planID;
  row ← read (λ db, db_plans db !! planID);
  row ← the ErrClusterPlanNotFound row;
  stored ← read (λ db, db_revisions db !! (planID, pn_active_revision row));
  stored ← the ErrClusterPlanNotFound stored;
  maximum ← read (maximum_revision planID);
  plan ← lift (plan_json (DecodePlanJSON (rv_plan stored)));
  _ ← require_that (negb (maximum <? 1)) (Failure "active cluster plan has invalid revision history");
  mret (MkActivePlan plan maximum).
End scheduling.
