(* ===== verification/ControlEnforce.v ===== *)
(** What the Controller decides about stored plans: health reports, forwards
    whose deletion is complete, traffic quotas over all nodes and tenant
    policies; the rest of [cluster.go], [quota_enforcement.go] and
    [tenant_enforcement.go]. *)
From S2P Require Import Prelude.
From S2P Require Import GoNet.
From S2P Require Import SpecTypes.
From S2P Require Import SpecCanonical.
From S2P Require Import SpecValidate.
From S2P Require Import SpecChecksum.
From S2P Require Import Hostname.
From S2P Require Import Health.
From S2P Require Import Capabilities.
From S2P Require Import Iam.
From S2P Require Import ClusterTypes.
From S2P Require Import ClusterValidate.
From S2P Require Import PlanJson.
From S2P Require Import Scheduler.
From S2P Require Import ClusterCompile.
From S2P Require Import Rollout.
From S2P Require Import ControlDb.
From S2P Require Import ControlNodes.
From S2P Require Import ControlPublish.
From S2P Require Import ControlRollout.
From S2P Require Import ControlStore.
From S2P Require Import ControlSchedule.

(** * Health reports *)
Definition truncateHealthError (value : string) : string :=
  of_chars (take 512 (filter (λ c, c ≠ nul) (chars value))).

Definition probed (desired : DesiredState) (r : Report) : bool :=
  existsb (λ c, bool_decide (hc_PoolID c = rp_PoolID r) && bool_decide (hc_BackendID c = rp_BackendID r)
                && (hc_ResourceVersion c =? rp_ResourceVersion r)) (ds_HealthChecks desired).

(** [reconcile_after=MIN(reconcile_after,CURRENT_TIMESTAMP)] *)
Definition hasten (now : Time) (p : PlanRow) : PlanRow :=
  MkPlanRow (pn_active_revision p) (pn_active_checksum p)
    (Z.min (pn_reconcile_after p) (CURRENT_TIMESTAMP now)) (pn_last_scheduled_at p)
    (pn_last_error p) (pn_paused_at p).

Definition RecordBackendHealth (r : Report) (now : Time) : Tx unit :=
  _ ← checked "node_id" (rp_NodeID r);
  _ ← require_that (negb ((rp_Generation r =? 0) || (rp_ResourceVersion r =? 0) || Time_IsZero (rp_ObservedAt r)))
        (Failure "backend health identity or version is invalid");
  _ ← require_that (bool_decide (rp_Status r ∈ [StatusUnknown; StatusHealthy; StatusUnhealthy]))
        (Failure "backend health status is invalid");
  _ ← require_that (0 <=? rp_Latency r)%Z (Failure "backend health latency must not be negative");
  row ← read (λ db, db_generations db !! (rp_NodeID r, rp_Generation r));
  row ← the ErrGenerationMissing row;
  desired ← lift (DecodeDesiredJSON (gn_desired_state row));
  _ ← require_that (probed desired r && cluster_owned (ds_ManagementDomain desired)) ErrHealthProbeMissing;
  (* [strings.TrimPrefix] *)
  let planID := of_chars (drop 8 (chars (ds_ManagementDomain desired))) in
  let key : ObservationKey := (planID, rp_NodeID r, rp_PoolID r, rp_BackendID r) in
  existing ← read (λ db, db_observations db !! key);
  plan ← read (λ db, db_plans db !! planID);
  _ ← require_that (bool_decide (is_Some plan)) (Failure "FOREIGN KEY constraint failed");
  _ ← require_that (rp_ResourceVersion r <=? MaxInt64) (Failure "CHECK constraint failed");
  let newer := match existing with Some o => (bo_observed_at o <=? rp_ObservedAt r)%Z | None => true end in
  let previous := match existing with Some o => bo_status o | None => "" end in
  if negb newer then mret tt
  else
    _ ← write (on_observations <[key :=
          MkObservationRow (rp_Generation r) (rp_ResourceVersion r) (rp_Status r)
            (rp_Latency r / Millisecond)%Z (truncateHealthError (rp_Error r)) (rp_ObservedAt r)]>);
    if bool_decide (previous = rp_Status r) then mret tt
    else
      _ ← write (on_plans (alter (hasten now) planID));
      insertClusterAudit planID 0 ("system:agent:" +:+ rp_NodeID r) "backend_health_transition"
        (rp_PoolID r +:+ "/" +:+ rp_BackendID r).

(** * Sweeps over the plans

    A sweep reads the plans that are neither paused nor rolling out, and then
    works on each with transactions of its own; it stops at the first error
    that is not a conflict with another change, and says how far it came. *)
Definition idle_plans (limit : nat) (db : Db) : list string :=
  take limit (filter (λ id, active_rollouts id db = [])
    (sort_slice str_lt (map fst (filter (λ kv : string * PlanRow, pn_paused_at kv.2 = None)
       (map_to_list (db_plans db)))))).

Fixpoint sweep (f : string → Db → Db * (store_error + nat)) (ids : list string) (done : nat) (db : Db) :
    Db * (nat * option store_error) :=
  match ids with
  | [] => (db, (done, None))
  | id :: rest =>
      match f id db with
      | (db, inr n) => sweep f rest (done + n)%nat db
      | (db, inl e) => (db, (done, Some e))
      end
  end.

(** The answer of [ApplyClusterPlan] as a sweep takes it: a conflict is left
    for the next one. *)
Definition conflict (e : store_error) : bool :=
  bool_decide (e ∈ [ErrRolloutInProgress; ErrPlanRevisionConflict]).
Definition applied_count {A} (n : nat) (r : Db * (store_error + A)) : Db * (store_error + nat) :=
  match r with
  | (db, inr _) => (db, inr n)
  | (db, inl e) => (db, if conflict e then inr 0%nat else inl e)
  end.

(** A decision on a plan: nothing to do, or a next revision and its weight. *)
Definition decide_and_apply {A} (decision : Tx (option (Plan * nat))) (apply : Plan → Tx A) (db : Db) :
    Db * (store_error + nat) :=
  match decision db with
  | inl e => (db, inl e)
  | inr (_, None) => (db, inr 0%nat)
  | inr (_, Some (plan, n)) => applied_count n (transact (apply plan) db)
  end.

(** ** Completed deletions *)

(** [clusterForwardAbsentFromLatestDesired] *)
Definition absent_on (forwardID nodeID : string) : Tx bool :=
  node ← read (λ db, db_nodes db !! nodeID);
  let generation := match node with Some n => nd_desired_generation n | None => 0 end in
  row ← read (λ db, db_generations db !! (nodeID, generation));
  match row with
  | Some row =>
      if generation =? 0 then mret false
      else
        desired ← lift (DecodeDesiredJSON (gn_desired_state row));
        mret (negb (bool_decide (forwardID ∈ map fw_ID (ds_Forwards desired))))
  | None => mret false
  end.
Fixpoint absent_on_all (forwardID : string) (nodes : list string) : Tx bool :=
  match nodes with
  | [] => mret true
  | id :: rest =>
      absent ← absent_on forwardID id;
      if (absent : bool) then absent_on_all forwardID rest else mret false
  end.
Definition placement_nodes (planID forwardID : string) (db : Db) : list string :=
  match db_placements db !! (planID, forwardID) with
  | Some row =>
      let p := pm_placement row in
      pc_IngressID p :: (if bool_decide (pc_ExitID p = "") then [] else [pc_ExitID p])
  | None => []
  end.
Definition clusterForwardAbsentFromLatestDesired (planID forwardID : string) : Tx bool :=
  nodes ← read (placement_nodes planID forwardID);
  absent_on_all forwardID nodes.

Definition deletion_due (now : Time) (f : Forward) : bool :=
  bool_decide (cf_Lifecycle f = LifecycleForceDeleting)
  || bool_decide (cf_Lifecycle f = LifecycleDraining)
     && match cf_DrainDeadline f with Some t => negb (Time_Before now t) | None => false end.

Definition ready_to_delete (planID : string) (now : Time) (f : Forward) : Tx (option string) :=
  if deletion_due now f then
    ready ← clusterForwardAbsentFromLatestDesired planID (cf_ID f);
    mret (if (ready : bool) then Some (cf_ID f) else None)
  else mret None.

Definition next_plan (plan : Plan) (revision : N) (policies : list UserPolicySpec)
    (pools : list BackendPool) (forwards : list Forward) : Plan :=
  {| pl_SchemaVersion := pl_SchemaVersion plan; pl_ID := pl_ID plan; pl_Revision := revision;
     pl_NodeOfflineAfterSeconds := pl_NodeOfflineAfterSeconds plan; pl_Rollout := pl_Rollout plan;
     pl_ServiceCIDRs := pl_ServiceCIDRs plan; pl_Nodes := pl_Nodes plan; pl_UserPolicies := policies;
     pl_BackendPools := pools; pl_Forwards := forwards |}.

(** A pool goes with the last forward that used it. *)
Definition without_forwards (removed : list string) (revision : N) (plan : Plan) : Plan :=
  let kept := filter (λ f, cf_ID f ∉ removed) (pl_Forwards plan) in
  let removedPools := map cf_BackendPoolID (filter (λ f, cf_ID f ∈ removed) (pl_Forwards plan)) in
  let usedPools := map cf_BackendPoolID kept in
  next_plan plan revision (pl_UserPolicies plan)
    (filter (λ p, bp_ID p ∉ removedPools ∨ bp_ID p ∈ usedPools) (pl_BackendPools plan)) kept.

Section enforcement.
Context `{!Idna} `{!MapRange} `{!StateRange} `{!StringRange}.
(** Each plan resolves its names in its own turn. *)
Context (dns_at : string → nat → nat → string → Addr → Addr) (policies : gmap string Policy).

Definition guarded_sweep (actor : string) (limit : nat) (f : string → Db → Db * (store_error + nat))
    (db : Db) : Db * (nat * option store_error) :=
  match validateActor actor db with
  | inl e => (db, (0%nat, Some e))
  | inr _ =>
      if ((limit <? 1) || (100 <? limit))%nat
      then (db, (0%nat, Some (Failure "limit must be between 1 and 100")))
      else sweep f (idle_plans limit db) 0 db
  end.

Definition apply_plan (actor : string) (now : Time) (plan : Plan) : Tx ClusterApplyResult :=
  ApplyClusterPlan (dns_at (pl_ID plan)) policies plan actor now.

(** [FinalizeClusterDeletes] *)
Definition deletion_decision (now : Time) (planID : string) : Tx (option (Plan * nat)) :=
  record ← ActiveClusterPlan planID;
  removable ← gather (ready_to_delete planID now) (pl_Forwards (ap_Plan record));
  let removed := omap id removable in
  mret (if bool_decide (removed = []) then None
        else Some (without_forwards removed (uadd 64 (ap_MaximumRevision record) 1)
                     (PlanCanonical (ap_Plan record)), length removed)).

Definition FinalizeClusterDeletes (actor : string) (limit : nat) (now : Time) (db : Db) :
    Db * (nat * option store_error) :=
  guarded_sweep actor limit
    (λ planID, decide_and_apply (deletion_decision now planID) (apply_plan actor now)) db.

(** ** Quotas over all nodes *)
Definition cluster_user_bytes (userID : string) : Db → N :=
  total_bytes (λ kv, bool_decide (rl_user_id kv.2 = userID)).
Definition cluster_forward_bytes (forwardID : string) : Db → N :=
  total_bytes (λ kv, bool_decide (kv.1.1.1.2 = forwardID)).

(** [forward.Lifecycle = paused; DrainDeadline = nil; ResourceVersion++] *)
Definition pause_forward (f : Forward) : Forward :=
  {| cf_ID := cf_ID f; cf_UserID := cf_UserID f; cf_Protocols := cf_Protocols f; cf_Listen := cf_Listen f;
     cf_PathMode := cf_PathMode f; cf_Ingress := cf_Ingress f; cf_Exit := cf_Exit f;
     cf_FailureDomainPolicy := cf_FailureDomainPolicy f; cf_BackendPoolID := cf_BackendPoolID f;
     cf_SNAT := cf_SNAT f; cf_Reservation := cf_Reservation f; cf_RateLimit := cf_RateLimit f;
     cf_TrafficQuota := cf_TrafficQuota f; cf_ExpiresAt := cf_ExpiresAt f; cf_DrainDeadline := None;
     cf_Lifecycle := LifecyclePaused; cf_ResourceVersion := uadd 64 (cf_ResourceVersion f) 1 |}.

Definition over_quota (db : Db) (exceededUsers : list string) (f : Forward) : bool :=
  negb (bool_decide (cf_Lifecycle f ∈ [LifecyclePaused; LifecycleForceDeleting]))
  && (bool_decide (cf_UserID f ∈ exceededUsers)
      || exceeds (cf_TrafficQuota f) (cluster_forward_bytes (cf_ID f) db)).

Definition quota_decision (planID : string) : Tx (option (Plan * nat)) :=
  record ← ActiveClusterPlan planID;
  let plan := PlanCanonical (ap_Plan record) in
  exceededUsers ← read (λ db, map up_UserID (filter (λ p,
    exceeds (up_TrafficQuota p) (cluster_user_bytes (up_UserID p) db) = true) (pl_UserPolicies plan)));
  over ← read (λ db, over_quota db exceededUsers);
  let paused := filter (λ f, over f = true) (pl_Forwards plan) in
  mret (if bool_decide (paused = []) then None
        else Some (next_plan plan (uadd 64 (ap_MaximumRevision record) 1) (pl_UserPolicies plan)
                     (pl_BackendPools plan)
                     (map (λ f, if over f then pause_forward f else f) (pl_Forwards plan)),
                   length (remove_dups (map cf_ID paused)))).

Definition EnforceTrafficQuotas (actor : string) (limit : nat) (now : Time) (db : Db) :
    Db * (nat * option store_error) :=
  guarded_sweep actor limit
    (λ planID, decide_and_apply (quota_decision planID) (apply_plan actor now)) db.

(** ** Tenant policies *)

(** The columns of a tenant the sweep reads. *)
Record Tenant := MkTenant { tn_Status : Iam.Status; tn_ExpiresAt : option Time }.

Context (tenants : gmap string Tenant) (exit_first : bool).

(** [resolvedTenantForward] *)
Definition resolvedTenantForward (f : Forward) (target : Endpoint) : ForwardSpec :=
  let only (ids : list string) := match ids with [id] => id | _ => "" end in
  MkForwardSpec (cf_ID f) (cf_UserID f) (cf_Protocols f) (only (ns_NodeIDs (cf_Ingress f)))
    (match cf_Exit f with Some exit => only (ns_NodeIDs exit) | None => "" end) (cf_Listen f) target None ""
    (cf_PathMode f) (cf_SNAT f) 0 (cf_RateLimit f) (cf_TrafficQuota f) (cf_ExpiresAt f) None
    (cf_Lifecycle f) (cf_ResourceVersion f).

Definition tenant_inactive (now : Time) (t : Tenant) : bool :=
  negb (bool_decide (tn_Status t = StatusActive))
  || match tn_ExpiresAt t with Some e => negb (Time_Before now e) | None => false end.

(** A forward its tenant may not have as it stands. *)
Definition non_compliant (now : Time) (pools : gmap string BackendPool) (t : Tenant) (p : Policy)
    (currentCount : N) (f : Forward) : bool :=
  tenant_inactive now t
  || match pools !! cf_BackendPoolID f with
     | Some pool =>
         bool_decide (bp_Backends pool = [])
         || existsb (λ b, match AuthorizeForward exit_first p (resolvedTenantForward f (be_Target b))
                                  currentCount (tn_ExpiresAt t) now with
                          | inl _ => true
                          | inr _ => false
                          end) (bp_Backends pool)
     | None => true
     end.

Record tenant_scan := MkTenantScan {
  ts_seen : gmap string N;
  ts_tenants : gset string;
  ts_forwards : list Forward;
  ts_paused : list string;
}.

Definition scan_forward (now : Time) (pools : gmap string BackendPool) (f : Forward) (st : tenant_scan) :
    store_error + tenant_scan :=
  let user := cf_UserID f in
  let leave seen found := inr (MkTenantScan seen found (ts_forwards st ++ [f]) (ts_paused st)) in
  if bool_decide (user = "owner") || bool_decide (cf_Lifecycle f = LifecycleForceDeleting)
  then leave (ts_seen st) (ts_tenants st)
  else
    let currentCount := default 0 (ts_seen st !! user) in
    let seen := <[user := uadd 32 currentCount 1]> (ts_seen st) in
    match tenants !! user with
    | None => leave seen (ts_tenants st)
    | Some t =>
        match policies !! user with
        | None => inl (Failure "identity resource not found")
        | Some p =>
            let found := {[user]} ∪ ts_tenants st in
            if bool_decide (cf_Lifecycle f = LifecyclePaused) then leave seen found
            else if non_compliant now pools t p currentCount f then
              inr (MkTenantScan seen found (ts_forwards st ++ [pause_forward f]) (ts_paused st ++ [cf_ID f]))
            else leave seen found
        end
    end.

(** [synchronizeTenantUserPolicy]: the first policy of the tenant is replaced,
    removed or added. *)
Fixpoint remove_first (tenantID : string) (l : list UserPolicySpec) : list UserPolicySpec :=
  match l with
  | [] => []
  | p :: rest => if bool_decide (up_UserID p = tenantID) then rest else p :: remove_first tenantID rest
  end.
Fixpoint replace_first (tenantID : string) (expected : UserPolicySpec) (l : list UserPolicySpec) :
    list UserPolicySpec :=
  match l with
  | [] => [expected]
  | p :: rest => if bool_decide (up_UserID p = tenantID) then expected :: rest
                 else p :: replace_first tenantID expected rest
  end.
Definition synchronizeTenantUserPolicy (l : list UserPolicySpec) (tenantID : string)
    (expected : option UserPolicySpec) : list UserPolicySpec * bool :=
  let current := head (filter (λ p, up_UserID p = tenantID) l) in
  match expected with
  | None => match current with None => (l, false) | Some _ => (remove_first tenantID l, true) end
  | Some e =>
      if bool_decide (current = Some e) then (l, false) else (replace_first tenantID e l, true)
  end.

Definition sync_tenant (_ : nat) (tenantID : string) (st : list UserPolicySpec * bool) :
    store_error + (list UserPolicySpec * bool) :=
  match policies !! tenantID with
  | None => inr st
  | Some p =>
      match DataPlanePolicy exit_first p with
      | inl _ => inl (Failure "tenant policy is invalid")
      | inr expected =>
          let '(l, changed) := synchronizeTenantUserPolicy st.1 tenantID expected in
          inr (l, st.2 || changed)
      end
  end.

Definition tenant_decision (now : Time) (planID : string) : Tx (option (Plan * nat)) :=
  record ← ActiveClusterPlan planID;
  let plan := PlanCanonical (ap_Plan record) in
  let pools := index_by bp_ID (pl_BackendPools plan) in
  scan ← lift (eloop (λ _, scan_forward now pools) 0 (pl_Forwards plan) (MkTenantScan ∅ ∅ [] []));
  synced ← lift (eloop sync_tenant 0 (range_strings (ts_tenants scan)) (pl_UserPolicies plan, false));
  mret (if bool_decide (ts_paused scan = []) && negb synced.2 then None
        else Some (next_plan plan (uadd 64 (ap_MaximumRevision record) 1) synced.1 (pl_BackendPools plan)
                     (ts_forwards scan), length (remove_dups (ts_paused scan)))).

Definition EnforceTenantForwardPolicies (actor : string) (limit : nat) (now : Time) (db : Db) :
    Db * (nat * option store_error) :=
  guarded_sweep actor limit
    (λ planID, decide_and_apply (tenant_decision now planID) (apply_plan actor now)) db.
End enforcement.
