(* ===== verification/ControlHistory.v ===== *)
(** The operations of the store as the steps of one machine, and the ledger as
    its invariant: whatever the nodes report, whatever the owner asks for and in
    whatever order, the generations of a node stay a gapless and immutable
    history. *)
From S2P Require Import Prelude.
From S2P Require Import GoNet.
From S2P Require Import SpecTypes.
From S2P Require Import SpecCanonical.
From S2P Require Import SpecValidate.
From S2P Require Import SpecSamples.
From S2P Require Import SpecFacts.
From S2P Require Import SpecChecksum.
From S2P Require Import Hostname.
From S2P Require Import Health.
From S2P Require Import Capabilities.
From S2P Require Import Meter.
From S2P Require Import Iam.
From S2P Require Import ClusterTypes.
From S2P Require Import ClusterValidate.
From S2P Require Import PlanJson.
From S2P Require Import Scheduler.
From S2P Require Import ClusterCompile.
From S2P Require Import Rollout.
From S2P Require Import ControlDb.
From S2P Require Import ControlNodes.
From S2P Require Import ControlPublish.
From S2P Require Import ControlRollout.
From S2P Require Import ControlStore.
From S2P Require Import ControlVips.
From S2P Require Import ControlSchedule.
From S2P Require Import ControlEnforce.
From S2P Require Import ControlFacts.
From S2P Require Import ControlLedger.
From S2P Require Import ControlOps.

(** * Schedules keep the ledger *)
Lemma tx_attempt {A} P (m : Tx A) : tx_keeps P m → tx_keeps P (attempt m).
Proof.
  intros Hm db Hdb. specialize (Hm db Hdb). unfold attempt. by destruct (m db) as [|[]].
Qed.

#[export] Hint Resolve publishClusterStageTx_book : book.

Section scheduling.
Context `{!Idna} `{!MapRange} `{!StateRange} `{!StringRange}.
Context (dns : nat → nat → string → Addr → Addr) (policies : gmap string Policy) (db0 : Db).

Lemma loadNodeRuntimes_book plan now : tx_keeps (book db0) (loadNodeRuntimes plan now).
Proof. unfold loadNodeRuntimes, check_owner, current_state. elsewhere. Qed.
Lemma loadRetiredClusterNodes_book plan : tx_keeps (book db0) (loadRetiredClusterNodes plan).
Proof. unfold loadRetiredClusterNodes, check_retired, current_state. elsewhere. Qed.
Lemma allocateServiceVIPs_book plan placements : tx_keeps (book db0) (allocateServiceVIPs plan placements).
Proof. unfold allocateServiceVIPs. elsewhere. Qed.
Lemma syncClusterAlerts_book plan actor alerts now : tx_keeps (book db0) (syncClusterAlerts plan actor alerts now).
Proof. unfold syncClusterAlerts, raise_alert, resolve_alert, insertClusterAudit. elsewhere. Qed.
Lemma loadCurrentDesiredStates_book generations : tx_keeps (book db0) (loadCurrentDesiredStates generations).
Proof. unfold loadCurrentDesiredStates, load_current, current_state. elsewhere. Qed.
Lemma record_metadata_book plan actor action changed placements vips now :
  tx_keeps (book db0) (record_metadata plan actor action changed placements vips now).
Proof.
  unfold record_metadata, replacePlacements, removeRetiredNodeProfiles, mark_scheduled, insertClusterAudit.
  elsewhere.
Qed.
Lemma create_rollout_book plan actor action previous detail stages baselines now :
  tx_keeps (book db0) (create_rollout plan actor action previous detail stages baselines now).
Proof. unfold create_rollout, record_stage, record_target, record_baseline. books. Qed.

#[local] Hint Resolve loadNodeRuntimes_book loadRetiredClusterNodes_book allocateServiceVIPs_book
  syncClusterAlerts_book loadCurrentDesiredStates_book record_metadata_book create_rollout_book : book.

Lemma schedulePlanTx_book plan actor action force previous now :
  tx_keeps (book db0) (schedulePlanTx dns policies plan actor action force previous now).
Proof. unfold schedulePlanTx, mark_scheduled, insertClusterAudit. books. Qed.
#[local] Hint Resolve schedulePlanTx_book : book.

Lemma syncNodeProfiles_book plan : tx_keeps (book db0) (syncNodeProfiles plan).
Proof. unfold syncNodeProfiles, sync_profile. elsewhere. Qed.
Lemma store_plan_book plan checksum encoded actor now :
  tx_keeps (book db0) (store_plan plan checksum encoded actor now).
Proof. unfold store_plan, insert_revision. elsewhere. Qed.
#[local] Hint Resolve syncNodeProfiles_book store_plan_book : book.

Lemma ApplyClusterPlan_book plan actor now :
  tx_keeps (book db0) (ApplyClusterPlan dns policies plan actor now).
Proof.
  unfold ApplyClusterPlan, validateActor, ensureNoActiveClusterRollout, insertClusterAudit.
  repeat first [ apply tx_attempt; auto with book | solve [auto 1 with book nocore] | elsewhere_step ].
Qed.

Lemma RollbackClusterPlan_book planID revision actor now :
  tx_keeps (book db0) (RollbackClusterPlan dns policies planID revision actor now).
Proof.
  unfold RollbackClusterPlan, checked, validateActor, ensureNoActiveClusterRollout. books.
Qed.

Lemma ReconcileClusterPlans_book owner limit now :
  tx_keeps (book db0) (ReconcileClusterPlans dns policies owner limit now).
Proof.
  unfold ReconcileClusterPlans, reconcile_plan.
  repeat first [ apply tx_attempt; auto with book | solve [auto 1 with book nocore] | elsewhere_step ].
Qed.

Lemma RecordBackendHealth_book report now : tx_keeps (book db0) (RecordBackendHealth report now).
Proof. unfold RecordBackendHealth, checked, insertClusterAudit. elsewhere. Qed.
End scheduling.

(** * The machine *)
Section machine.
Context `{!Idna} `{!MapRange} `{!StateRange} `{!StringRange}.

(** One call of an operation that may change the database, with what it takes
    from outside: the clock, random bytes, the answers of DNS and the table of
    tenant policies. *)
Inductive store_op :=
  | OpEnsurePendingNode (nodeID : string)
  | OpDeletePendingNode (nodeID : string)
  | OpRevokeNode (nodeID : string) (now : Time)
  | OpCreateEnrollmentToken (nodeID : string) (ttl : Z) (raw : list N) (now : Time)
  | OpCompleteEnrollment (nodeID token : string) (publicKey : list N) (now : Time)
  | OpRecordHello (record : HelloRecord)
  | OpRecordHeartbeat (nodeID : string) (observedAt : Time)
  | OpPublishDesired (nodeID : string) (desired : DesiredState) (now : Time)
  | OpRecordApplyResult (record : ApplyRecord) (now : Time)
  | OpRecordUsageBatch (batch : Meter.Usage.Batch) (now : Time)
  | OpEnforcePolicies (limit : nat) (now : Time)
  | OpRecordBackendHealth (report : Report) (now : Time)
  | OpApplyClusterPlan (dns : nat → nat → string → Addr → Addr) (policies : gmap string Policy)
      (plan : Plan) (actor : string) (now : Time)
  | OpRollbackClusterPlan (dns : nat → nat → string → Addr → Addr) (policies : gmap string Policy)
      (planID : string) (revision : N) (actor : string) (now : Time)
  | OpReconcileClusterPlans (dns : nat → nat → string → Addr → Addr) (policies : gmap string Policy)
      (owner : string) (limit : nat) (now : Time)
  | OpAdvanceClusterRollouts (owner : string) (limit : nat) (now : Time)
  | OpClaimOutbox (owner : string) (limit : nat) (lease : Z) (now : Time)
  | OpMarkOutboxDelivered (owner : string) (id : N) (now : Time)
  | OpReleaseOutbox (owner : string) (id : N) (reason : string) (now : Time).

Definition ignoring {A} (m : Tx A) : Tx unit := _ ← m; mret tt.

Definition perform (op : store_op) : Tx unit :=
  match op with
  | OpEnsurePendingNode nodeID => ignoring (EnsurePendingNode nodeID)
  | OpDeletePendingNode nodeID => DeletePendingNode nodeID
  | OpRevokeNode nodeID now => RevokeNode nodeID now
  | OpCreateEnrollmentToken nodeID ttl raw now => ignoring (CreateEnrollmentToken nodeID ttl raw now)
  | OpCompleteEnrollment nodeID token key now => ignoring (CompleteEnrollment nodeID token key now)
  | OpRecordHello record => RecordHello record
  | OpRecordHeartbeat nodeID t => RecordHeartbeat nodeID t
  | OpPublishDesired nodeID desired now => ignoring (PublishDesired nodeID desired now)
  | OpRecordApplyResult record now => RecordApplyResult record now
  | OpRecordUsageBatch batch now => RecordUsageBatch batch now
  | OpEnforcePolicies limit now => ignoring (EnforcePolicies limit now)
  | OpRecordBackendHealth report now => RecordBackendHealth report now
  | OpApplyClusterPlan dns policies plan actor now => ignoring (ApplyClusterPlan dns policies plan actor now)
  | OpRollbackClusterPlan dns policies planID revision actor now =>
      ignoring (RollbackClusterPlan dns policies planID revision actor now)
  | OpReconcileClusterPlans dns policies owner limit now =>
      ignoring (ReconcileClusterPlans dns policies owner limit now)
  | OpAdvanceClusterRollouts owner limit now => ignoring (AdvanceClusterRollouts owner limit now)
  | OpClaimOutbox owner limit lease now => ignoring (ClaimOutbox owner limit lease now)
  | OpMarkOutboxDelivered owner id now => MarkOutboxDelivered owner id now
  | OpReleaseOutbox owner id reason now => ReleaseOutbox owner id reason now
  end.

(** The database after some calls, each committed or rolled back. *)
Definition runs (ops : list store_op) (db : Db) : Db :=
  foldl (λ db op, (transact (perform op) db).1) db ops.

Lemma runs_app ops ops' db : runs (ops ++ ops') db = runs ops' (runs ops db).
Proof. apply foldl_app. Qed.

Lemma runs_keep P ops db : (∀ op, tx_keeps P (perform op)) → P db → P (runs ops db).
Proof.
  intros Hk. revert db. induction ops as [|op ops IH]; intros db Hdb; [done|].
  apply IH. by apply transact_keeps.
Qed.

Lemma keep_ignoring {A} P (m : Tx A) : tx_keeps P m → tx_keeps P (ignoring m).
Proof. intros Hm. apply keep_bind; [done|intros; apply keep_ret]. Qed.

Lemma perform_book db0 op : tx_keeps (book db0) (perform op).
Proof.
  destruct op; cbn [perform]; try apply keep_ignoring.
  - apply EnsurePendingNode_book.
  - apply DeletePendingNode_book.
  - apply RevokeNode_book.
  - apply CreateEnrollmentToken_book.
  - apply CompleteEnrollment_book.
  - apply RecordHello_book.
  - apply RecordHeartbeat_book.
  - apply PublishDesired_book.
  - apply RecordApplyResult_book.
  - apply RecordUsageBatch_book.
  - apply EnforcePolicies_book.
  - apply RecordBackendHealth_book.
  - apply ApplyClusterPlan_book.
  - apply RollbackClusterPlan_book.
  - apply ReconcileClusterPlans_book.
  - apply AdvanceClusterRollouts_book.
  - apply ClaimOutbox_book.
  - apply MarkOutboxDelivered_book.
  - apply ReleaseOutbox_book.
Qed.

Lemma runs_book ops db : ledger (db_nodes db) (db_generations db) → book db (runs ops db).
Proof. intros HL. apply runs_keep; [apply perform_book|by apply book_refl]. Qed.

Lemma ledger_empty : ledger (db_nodes DbEmpty) (db_generations DbEmpty).
Proof. split; intros *; cbn; rewrite ?lookup_empty; done. Qed.

Lemma runs_ledger ops : ledger (db_nodes (runs ops DbEmpty)) (db_generations (runs ops DbEmpty)).
Proof. by destruct (runs_book ops DbEmpty ledger_empty). Qed.

(** C9. In every state the operations of the store can reach from an empty
    database, whatever they are asked and whether they succeed, the generations
    of each node are numbered without a gap from 1 to its desired one; each is
    the canonical form of a valid state of that node under its own checksum and
    capabilities; a node's applied generation is one that was published for it,
    under its checksum. And whatever happens afterwards, a generation keeps its
    content, an applied one stays applied, a node that has generations keeps its
    place, neither generation number of it falls, and a revocation is final. *)
Theorem generations_history before after :
  let db := runs before DbEmpty in
  let db' := runs after db in
  ledger (db_nodes db) (db_generations db)
  ∧ extends (db_nodes db) (db_nodes db') (db_generations db) (db_generations db').
Proof.
  intros db db'. split; [apply runs_ledger|].
  apply (runs_book after db), runs_ledger.
Qed.

(** * What a node is sent *)
Lemma latest_generation_desired db nodeID n :
  ledger (db_nodes db) (db_generations db) → db_nodes db !! nodeID = Some n →
  latest_generation nodeID db
  = if nd_desired_generation n =? 0 then None else Some (nd_desired_generation n).
Proof.
  intros HL Hn. unfold latest_generation. set (l := map _ _).
  assert (∀ g, g ∈ l ↔ 1 ≤ g ≤ nd_desired_generation n) as Hl.
  { intros g. unfold l. rewrite list_elem_of_fmap. split.
    - intros ([[id g'] row] & -> & [Hid Hin]%list_elem_of_filter). cbn in Hid. subst id.
      apply elem_of_map_to_list in Hin. destruct (lg_owned _ _ HL _ _ _ Hin) as (n' & Hn' & ?).
      cbn. by simplify_eq.
    - intros Hg. destruct (lg_dense _ _ HL nodeID n g Hn Hg) as [row Hrow].
      exists ((nodeID, g), row). split; [done|]. apply list_elem_of_filter. split; [done|].
      by apply elem_of_map_to_list. }
  clearbody l. destruct (nd_desired_generation n =? 0) eqn:Hz; reflect_bool.
  - destruct l as [|g l]; [done|]. destruct (proj1 (Hl g)) as [? ?]; [left|]. lia.
  - assert (nd_desired_generation n ∈ l) as Hin by (apply Hl; lia).
    destruct (last (sort_slice N.ltb l)) as [g|] eqn:Hlast.
    + f_equal. pose proof (sort_slice_last_greatest N.ltb l g _ Hlast Hin) as Hle%N.ltb_ge.
      assert (g ∈ l) as [_ Hg]%Hl by (rewrite <- (elem_of_sort_slice N.ltb); by apply last_Some_elem_of).
      lia.
    + apply last_None in Hlast. rewrite <- (elem_of_sort_slice N.ltb), Hlast in Hin.
      by apply not_elem_of_nil in Hin.
Qed.

(** The snapshot of a node is its desired generation, if it has one. *)
Lemma LatestSnapshot_desired db nodeID n :
  ledger (db_nodes db) (db_generations db) → db_nodes db !! nodeID = Some n →
  match LatestSnapshot nodeID db with
  | None => nd_desired_generation n = 0
  | Some s => ∃ row, db_generations db !! (nodeID, nd_desired_generation n) = Some row
                     ∧ s = snapshot_of nodeID (nd_desired_generation n) row
  end.
Proof.
  intros HL Hn. unfold LatestSnapshot. rewrite (latest_generation_desired db nodeID n) by done.
  destruct (nd_desired_generation n =? 0) eqn:Hz; cbn; reflect_bool; [done|].
  destruct (lg_dense _ _ HL nodeID n (nd_desired_generation n) Hn) as [row Hrow]; [lia|].
  rewrite Hrow. cbn. eauto.
Qed.
End machine.
