(* ===== verification/ControlWire.v ===== *)
(** The messages of the control stream, [proto/flux/control/v1/control.proto].
    Enumerations are open in proto3, hence numbers; a field that is a message,
    and the payload of an event, may be missing. A desired state travels as its
    JSON, which is represented by the state it was made from. *)
From S2P Require Import Prelude.
From S2P Require Import GoNet.
From S2P Require Import SpecTypes.
From S2P Require Import Capabilities.

(** * Agent to Controller *)
Record AgentHello := MkAgentHello {
  ah_ProtocolVersion : N;
  ah_NodeId : string;
  ah_AgentVersion : string;
  ah_SupportedSchemaVersions : list N;
  ah_Capabilities : list (option Capability);
  ah_AppliedGeneration : N;
  ah_AppliedDesiredChecksum : string;
  ah_AppliedProgramChecksum : string;
  ah_PendingGeneration : N;
  ah_PendingDesiredChecksum : string;
  ah_SessionNonce : list N;
  ah_WireguardPublicKey : string;
}.

(** [ApplyStatus] *)
Definition APPLY_STATUS_APPLIED : N := 1.
Definition APPLY_STATUS_RETRYABLE_ERROR : N := 2.
Definition APPLY_STATUS_PERMANENT_ERROR : N := 3.

(** [ApplyErrorCode] *)
Definition APPLY_ERROR_CODE_UNSPECIFIED : N := 0.
Definition APPLY_ERROR_CODE_NONE : N := 1.
Definition APPLY_ERROR_CODE_INVALID_SNAPSHOT : N := 2.
Definition APPLY_ERROR_CODE_CHECKSUM_MISMATCH : N := 3.
Definition APPLY_ERROR_CODE_UNSUPPORTED_CAPABILITY : N := 4.
Definition APPLY_ERROR_CODE_STALE_GENERATION : N := 5.
Definition APPLY_ERROR_CODE_GENERATION_CONFLICT : N := 6.
Definition APPLY_ERROR_CODE_NODE_IDENTITY : N := 7.
Definition APPLY_ERROR_CODE_DATAPLANE_CONFLICT : N := 8.
Definition APPLY_ERROR_CODE_PREFLIGHT_FAILED : N := 9.
Definition APPLY_ERROR_CODE_APPLY_FAILED : N := 10.
Definition APPLY_ERROR_CODE_INTERNAL : N := 11.

(** [ApplyErrorCode.String] *)
Definition error_code_names : list string :=
  ["UNSPECIFIED"; "NONE"; "INVALID_SNAPSHOT"; "CHECKSUM_MISMATCH"; "UNSUPPORTED_CAPABILITY";
   "STALE_GENERATION"; "GENERATION_CONFLICT"; "NODE_IDENTITY"; "DATAPLANE_CONFLICT";
   "PREFLIGHT_FAILED"; "APPLY_FAILED"; "INTERNAL"].
Definition ApplyErrorCode_String (code : N) : string :=
  match error_code_names !! N.to_nat code with
  | Some name => "APPLY_ERROR_CODE_" +:+ name
  | None => show code
  end.

Record ApplyResult := MkApplyResult {
  am_NodeId : string;
  am_Generation : N;
  am_DesiredChecksum : string;
  am_ProgramChecksum : string;
  am_Status : N;
  am_ErrorCode : N;
  am_ErrorMessage : string;
  am_ObservedAtUnix : Z;
}.

Record AgentHeartbeat := MkAgentHeartbeat { hb_NodeId : string; hb_ObservedAtUnix : Z }.

(** [UsageDirection] *)
Definition USAGE_DIRECTION_UPLOAD : N := 1.
Definition USAGE_DIRECTION_DOWNLOAD : N := 2.

Record UsageDelta := MkUsageDelta {
  um_ForwardId : string;
  um_Protocol : string;
  um_Direction : N;
  um_ResourceVersion : N;
  um_Packets : N;
  um_Bytes : N;
  um_Reset : bool;
}.

Record UsageBatch := MkUsageBatch {
  bm_NodeId : string;
  bm_CounterEpoch : string;
  bm_Sequence : N;
  bm_Generation : N;
  bm_ObservedAtUnix : Z;
  bm_Deltas : list (option UsageDelta);
}.

(** [BackendHealthStatus] *)
Definition BACKEND_HEALTH_STATUS_UNKNOWN : N := 1.
Definition BACKEND_HEALTH_STATUS_HEALTHY : N := 2.
Definition BACKEND_HEALTH_STATUS_UNHEALTHY : N := 3.

Record BackendHealthReport := MkBackendHealthReport {
  hm_NodeId : string;
  hm_Generation : N;
  hm_PoolId : string;
  hm_BackendId : string;
  hm_ResourceVersion : N;
  hm_Status : N;
  hm_LatencyMilliseconds : N;
  hm_ErrorMessage : string;
  hm_ObservedAtUnix : Z;
}.

(** [NodeCommandKind] *)
Definition NODE_COMMAND_KIND_UNSPECIFIED : N := 0.
Definition NODE_COMMAND_KIND_TCP_CHECK : N := 1.
Definition NODE_COMMAND_KIND_AGENT_UPGRADE : N := 2.
Definition NODE_COMMAND_KIND_AGENT_UNINSTALL : N := 3.

Record NodeCommandResult := MkNodeCommandResult {
  nr_RequestId : string;
  nr_Kind : N;
  nr_Success : bool;
  nr_ErrorCode : string;
  nr_ErrorMessage : string;
  nr_CompletedAtUnix : Z;
  nr_LatencyMicros : N;
}.

Inductive AgentEvent :=
  | AgentEvent_Hello (hello : option AgentHello)
  | AgentEvent_ApplyResult (result : option ApplyResult)
  | AgentEvent_Heartbeat (heartbeat : option AgentHeartbeat)
  | AgentEvent_UsageBatch (batch : option UsageBatch)
  | AgentEvent_BackendHealth (report : option BackendHealthReport)
  | AgentEvent_CommandResult (result : option NodeCommandResult)
  | AgentEvent_Empty.        (** no payload *)

(** * Controller to Agent *)
Record NodeCommand := MkNodeCommand {
  nc_RequestId : string;
  nc_Kind : N;
  nc_DeadlineUnix : Z;
  nc_Address : string;
  nc_Port : N;
  nc_ReleaseUrl : string;
  nc_ChecksumUrl : string;
}.

Record DesiredSnapshot := MkDesiredSnapshot {
  dm_ProtocolVersion : N;
  dm_SchemaVersion : N;
  dm_NodeId : string;
  dm_Generation : N;
  dm_DesiredChecksum : string;
  dm_DesiredStateJson : DesiredState;
  dm_RequiredCapabilities : list (option Capability);
  dm_IssuedAtUnix : Z;
}.

Inductive ControllerEvent :=
  | ControllerEvent_Snapshot (snapshot : option DesiredSnapshot)
  | ControllerEvent_Ping (nonce : list N) (sentAtUnix : Z)
  | ControllerEvent_Disconnect (reason : string) (retryable : bool)
  | ControllerEvent_UsageAck (epoch : string) (sequence : N)
  | ControllerEvent_Command (command : NodeCommand)
  | ControllerEvent_CommandAck (requestId : string) (kind : N).

(** [time.Unix(s, 0)] and [Time.Unix]: seconds since 1970. *)
Definition unix_epoch : Z := 62135596800.
Definition of_unix (s : Z) : Time := ((unix_epoch + s) * Second)%Z.
Definition to_unix (t : Time) : Z := (t / Second - unix_epoch)%Z.

(** * Errors of the stream, the codes of gRPC that are used *)
Inductive status_code :=
  | InvalidArgument
  | Unauthenticated
  | PermissionDenied
  | FailedPrecondition
  | DataLoss
  | Unavailable
  | Internal
  | codes_DeadlineExceeded.
#[export] Instance status_code_eq_dec : EqDecision status_code.
Proof. solve_decision. Defined.
Record status_error := MkStatus { st_code : status_code; st_message : string }.
