(* ===== verification/ControlCommands.v ===== *)
(** The command broker, [internal/controller/control/commands.go]: short-lived
    requests of the management API travel over the stream of a node, and their
    callers wait for the result. A caller's channel takes one outcome; here the
    outcomes are a list per request, in the order they were put into it. *)
From S2P Require Import Prelude.
From S2P Require Import GoNet.
From S2P Require Import ControlWire.

Inductive broker_error :=
  | ErrNodeOffline
  | ErrCommandQueueFull
  | ErrCommandConnectionLost
  | BrokerFailure (message : string).

Record CommandRequest := MkCommandRequest {
  cq_Kind : N;
  cq_Deadline : Time;
  cq_Address : string;
  cq_Port : N;
  cq_ReleaseURL : string;
  cq_ChecksumURL : string;
}.

(** [commandOutcome] *)
Abbreviation outcome := (broker_error + NodeCommandResult)%type.

Record pendingCommand := MkPending { pd_nodeID : string; pd_kind : N }.

(** [commandConnection]: its number, and the commands in its channel. *)
Record commandConnection := MkConnection { cc_id : N; cc_outbound : list NodeCommand }.

Record CommandBroker := MkBroker {
  br_nextID : N;
  br_connections : gmap string commandConnection;
  br_pending : gmap string pendingCommand;
  br_outcomes : gmap string (list outcome);
}.

Definition NewCommandBroker : CommandBroker := MkBroker 0 ∅ ∅ ∅.

(** [pending.done <- outcome] *)
Definition put (requestID : string) (o : outcome) (m : gmap string (list outcome)) :
    gmap string (list outcome) :=
  <[requestID := default [] (m !! requestID) ++ [o]]> m.

(** [failNodeLocked] *)
Definition failNodeLocked (nodeID : string) (e : broker_error) (b : CommandBroker) : CommandBroker :=
  let lost := filter (λ kv : string * pendingCommand, pd_nodeID kv.2 = nodeID) (br_pending b) in
  MkBroker (br_nextID b) (br_connections b) (br_pending b ∖ lost)
    (foldr (λ id m, put id (inl e) m) (br_outcomes b) (map fst (map_to_list lost))).

(** [Register], with the number of the new connection *)
Definition Register (nodeID : string) (b : CommandBroker) : CommandBroker * N :=
  let id := uadd 64 (br_nextID b) 1 in
  let registered :=
    MkBroker id (<[nodeID := MkConnection id []]> (br_connections b)) (br_pending b) (br_outcomes b) in
  (match br_connections b !! nodeID with
   | Some _ => failNodeLocked nodeID ErrCommandConnectionLost registered
   | None => registered
   end, id).

(** The function [Register] returns *)
Definition Unregister (nodeID : string) (id : N) (b : CommandBroker) : CommandBroker :=
  match br_connections b !! nodeID with
  | Some current =>
      if cc_id current =? id then
        failNodeLocked nodeID ErrCommandConnectionLost
          (MkBroker (br_nextID b) (delete nodeID (br_connections b)) (br_pending b) (br_outcomes b))
      else b
  | None => b
  end.

Definition outbound_capacity : nat := 8.

Definition message_of (requestID : string) (request : CommandRequest) (now : Time) : NodeCommand :=
  let deadline := if Time_IsZero (cq_Deadline request) then Time_Add now (10 * Second)
                  else cq_Deadline request in
  MkNodeCommand requestID (cq_Kind request) (to_unix deadline) (cq_Address request) (cq_Port request)
    (cq_ReleaseURL request) (cq_ChecksumURL request).

(** [Dispatch] up to the wait; the caller goes on waiting for an outcome. The
    identity is random, and is given. *)
Definition Dispatch (nodeID requestID : string) (request : CommandRequest) (now : Time)
    (b : CommandBroker) : CommandBroker * option broker_error :=
  match br_connections b !! nodeID with
  | None => (b, Some ErrNodeOffline)
  | Some connection =>
      if (length (cc_outbound connection) <? outbound_capacity)%nat then
        (MkBroker (br_nextID b)
           (<[nodeID := MkConnection (cc_id connection)
                          (cc_outbound connection ++ [message_of requestID request now])]> (br_connections b))
           (<[requestID := MkPending nodeID (cq_Kind request)]> (br_pending b))
           (<[requestID := []]> (br_outcomes b)), None)
      else
        (MkBroker (br_nextID b) (br_connections b) (delete requestID (br_pending b)) (br_outcomes b),
         Some ErrCommandQueueFull)
  end.

(** The caller gives up: [<-ctx.Done()]. *)
Definition Cancel (requestID : string) (b : CommandBroker) : CommandBroker :=
  MkBroker (br_nextID b) (br_connections b) (delete requestID (br_pending b)) (br_outcomes b).

(** [<-connection.outbound] in the server's loop *)
Definition Take (nodeID : string) (b : CommandBroker) : CommandBroker * option NodeCommand :=
  match br_connections b !! nodeID with
  | Some (MkConnection id (command :: rest)) =>
      (MkBroker (br_nextID b) (<[nodeID := MkConnection id rest]> (br_connections b)) (br_pending b)
         (br_outcomes b), Some command)
  | _ => (b, None)
  end.

Definition Complete (nodeID : string) (result : option NodeCommandResult) (b : CommandBroker) :
    CommandBroker * option broker_error :=
  let fail message := (b, Some (BrokerFailure message)) in
  match result with
  | None => fail "command result is empty"
  | Some result =>
      if bool_decide (nr_RequestId result = "") then fail "command result is empty"
      else match br_pending b !! nr_RequestId result with
      | None => fail "command result does not match an active request"
      | Some pending =>
          if negb (bool_decide (pd_nodeID pending = nodeID)) || negb (pd_kind pending =? nr_Kind result)
          then fail "command result identity does not match its request"
          else (MkBroker (br_nextID b) (br_connections b) (delete (nr_RequestId result) (br_pending b))
                  (put (nr_RequestId result) (inr result) (br_outcomes b)), None)
      end
  end.

(** * Histories *)
Inductive broker_step :=
  | BRegister (nodeID : string)
  | BUnregister (nodeID : string) (id : N)
  | BDispatch (nodeID requestID : string) (request : CommandRequest) (now : Time)
  | BCancel (requestID : string)
  | BTake (nodeID : string)
  | BComplete (nodeID : string) (result : option NodeCommandResult).

Definition broker_run (s : broker_step) (b : CommandBroker) : CommandBroker :=
  match s with
  | BRegister nodeID => (Register nodeID b).1
  | BUnregister nodeID id => Unregister nodeID id b
  | BDispatch nodeID requestID request now => (Dispatch nodeID requestID request now b).1
  | BCancel requestID => Cancel requestID b
  | BTake nodeID => (Take nodeID b).1
  | BComplete nodeID result => (Complete nodeID result b).1
  end.
Definition broker_runs (steps : list broker_step) (b : CommandBroker) : CommandBroker :=
  foldl (λ b s, broker_run s b) b steps.

(** The identities of the requests that were dispatched. *)
Definition dispatched (s : broker_step) : option string :=
  match s with BDispatch _ requestID _ _ => Some requestID | _ => None end.

Definition outcomes_of (b : CommandBroker) (requestID : string) : list outcome :=
  default [] (br_outcomes b !! requestID).

Lemma put_all o ids m id :
  NoDup ids →
  default [] (foldr (λ id m, put id o m) m ids !! id)
  = default [] (m !! id) ++ (if decide (id ∈ ids) then [o] else []).
Proof.
  induction ids as [|x ids IH]; intros Hnd; cbn.
  { rewrite decide_False by apply not_elem_of_nil. by rewrite app_nil_r. }
  apply NoDup_cons in Hnd as [Hx Hnd]. unfold put at 1. destruct (decide (x = id)) as [->|Hne].
  - rewrite lookup_insert_eq. cbn. rewrite IH by done. rewrite (decide_False (P := id ∈ ids)) by done.
    rewrite decide_True by left. by rewrite app_nil_r.
  - rewrite lookup_insert_ne by done. rewrite IH by done. f_equal.
    destruct (decide (id ∈ ids)); [rewrite decide_True by (by right)|rewrite decide_False]; [done..|].
    by intros [->|?]%elem_of_cons.
Qed.

Lemma failNodeLocked_outcomes nodeID e b id :
  outcomes_of (failNodeLocked nodeID e b) id
  = outcomes_of b id ++ match br_pending b !! id with
                        | Some p => if decide (pd_nodeID p = nodeID) then [inl e] else []
                        | None => []
                        end.
Proof.
  unfold outcomes_of, failNodeLocked. cbn. rewrite put_all by apply NoDup_fst_map_to_list. f_equal.
  set (lost := filter _ _).
  assert (id ∈ (map_to_list lost).*1 ↔ ∃ p, br_pending b !! id = Some p ∧ pd_nodeID p = nodeID) as H.
  { rewrite list_elem_of_fmap. split.
    - intros ([k p] & -> & Hin%elem_of_map_to_list). apply map_lookup_filter_Some in Hin. eauto.
    - intros (p & Hp & Hn). exists (id, p). split; [done|]. apply elem_of_map_to_list.
      by apply map_lookup_filter_Some. }
  destruct (br_pending b !! id) as [p|].
  - destruct (decide (pd_nodeID p = nodeID)).
    + rewrite decide_True; [done|]. apply H. eauto.
    + rewrite decide_False; [done|]. intros (? & [= <-] & ?)%H. done.
  - rewrite decide_False; [done|]. by intros (? & ? & ?)%H.
Qed.

Lemma failNodeLocked_pending nodeID e b id p :
  br_pending (failNodeLocked nodeID e b) !! id = Some p ↔
  br_pending b !! id = Some p ∧ pd_nodeID p ≠ nodeID.
Proof.
  unfold failNodeLocked. cbn. rewrite lookup_difference_Some, map_lookup_filter_None. split.
  - intros [Hp [?|Hn]]; [congruence|]. split; [done|]. by apply Hn.
  - intros [Hp Hn]. split; [done|]. right. intros p' Hp'. by simplify_eq.
Qed.

(** A request that waits has no outcome and a connected node; one that has an
    outcome has one only, and a result is for it. *)
Definition answers (steps : list broker_step) (id : string) (o : outcome) : Prop :=
  match o with
  | inl e => e = ErrCommandConnectionLost
  | inr r => ∃ nodeID request now, BDispatch nodeID id request now ∈ steps
             ∧ BComplete nodeID (Some r) ∈ steps ∧ nr_RequestId r = id ∧ nr_Kind r = cq_Kind request
  end.

Record orderly (steps : list broker_step) (b : CommandBroker) : Prop := {
  od_pending id p : br_pending b !! id = Some p →
    outcomes_of b id = [] ∧ is_Some (br_connections b !! pd_nodeID p)
    ∧ ∃ request now, BDispatch (pd_nodeID p) id request now ∈ steps ∧ pd_kind p = cq_Kind request;
  od_single id : (length (outcomes_of b id) ≤ 1)%nat;
  od_answers id o : o ∈ outcomes_of b id → answers steps id o;
}.

Lemma orderly_mono steps s b : orderly steps b → orderly (steps ++ [s]) b.
Proof.
  assert (∀ x, x ∈ steps → x ∈ steps ++ [s]) as Hin by (intros; apply elem_of_app; by left).
  intros [H1 H2 H3]. split; [|done|].
  - intros id p (? & ? & request & now & ? & ?)%H1. split_and!; eauto 6.
  - intros id [e|r] Hr%H3; [done|]. destruct Hr as (n & q & t & ? & ? & ? & ?). exists n, q, t. split_and!; auto.
Qed.

(** A connection of [nodeID] is replaced or removed. *)
Lemma orderly_fail steps nodeID next connections b :
  orderly steps b →
  (∀ n, n ≠ nodeID → is_Some (br_connections b !! n) → is_Some (connections !! n)) →
  orderly steps (failNodeLocked nodeID ErrCommandConnectionLost
                   (MkBroker next connections (br_pending b) (br_outcomes b))).
Proof.
  intros [H1 H2 H3] Hc. split.
  - intros id p [Hp Hn]%failNodeLocked_pending. cbn in *. destruct (H1 id p Hp) as (Ho & Hs & Hd).
    rewrite failNodeLocked_outcomes. cbn. rewrite Hp, decide_False by done.
    unfold outcomes_of in *. cbn. rewrite Ho. split_and!; auto.
  - intros id. rewrite failNodeLocked_outcomes. cbn. destruct (br_pending b !! id) as [p|] eqn:Hp.
    + destruct (H1 id p Hp) as [Ho _]. unfold outcomes_of in *. cbn. rewrite Ho. case_match; cbn; lia.
    + rewrite app_nil_r. apply H2.
  - intros id o. rewrite failNodeLocked_outcomes, elem_of_app. intros [Ho|Ho]; [by apply H3|].
    repeat case_match; [|by apply not_elem_of_nil in Ho..]. by apply list_elem_of_singleton in Ho as ->.
Qed.

Lemma orderly_Register steps nodeID b : orderly steps b → orderly steps (Register nodeID b).1.
Proof.
  intros Hb. unfold Register. cbn. destruct (br_connections b !! nodeID) as [c|] eqn:Hc; cbn.
  - apply orderly_fail; [done|]. intros n Hn Hs. by rewrite lookup_insert_ne.
  - destruct Hb as [H1 H2 H3]. split; [|done..]. intros id p Hp. destruct (H1 id p Hp) as (? & Hs & ?).
    split_and!; [done| |done]. cbn. rewrite lookup_insert_is_Some'. by right.
Qed.

Lemma orderly_Unregister steps nodeID id b : orderly steps b → orderly steps (Unregister nodeID id b).
Proof.
  intros Hb. unfold Unregister. repeat case_match; [|done..].
  apply orderly_fail; [done|]. intros n Hn Hs. by rewrite lookup_delete_ne.
Qed.

Lemma orderly_forget steps requestID b :
  orderly steps b →
  orderly steps (MkBroker (br_nextID b) (br_connections b) (delete requestID (br_pending b)) (br_outcomes b)).
Proof. intros [H1 H2 H3]. split; [|done..]. intros id p. cbn. by intros [_ ?%H1]%lookup_delete_Some. Qed.

Lemma orderly_Dispatch steps nodeID requestID request now b :
  orderly steps b →
  orderly (steps ++ [BDispatch nodeID requestID request now])
    (Dispatch nodeID requestID request now b).1.
Proof.
  intros Hb%(orderly_mono _ (BDispatch nodeID requestID request now)). unfold Dispatch.
  destruct (br_connections b !! nodeID) as [c|] eqn:Hc; [|done].
  case_match; [|by apply orderly_forget]. destruct Hb as [H1 H2 H3]. unfold outcomes_of in *. split; cbn.
  - intros id p [[<- <-]|[Hne Hp]]%lookup_insert_Some; unfold outcomes_of; cbn.
    + rewrite lookup_insert_eq. split_and!; [done|by rewrite lookup_insert_is_Some'; left|].
      exists request, now. split; [|done]. apply elem_of_app. right. by left.
    + rewrite lookup_insert_ne by done. destruct (H1 id p Hp) as (? & ? & ?).
      split_and!; [done|by rewrite lookup_insert_is_Some'; right|done].
  - intros id. unfold outcomes_of. cbn. destruct (decide (requestID = id)) as [->|].
    + rewrite lookup_insert_eq. cbn. lia.
    + by rewrite lookup_insert_ne.
  - intros id o. unfold outcomes_of. cbn. destruct (decide (requestID = id)) as [->|].
    + rewrite lookup_insert_eq. cbn. by intros ?%not_elem_of_nil.
    + rewrite lookup_insert_ne by done. apply H3.
Qed.

Lemma orderly_Take steps nodeID b : orderly steps b → orderly steps (Take nodeID b).1.
Proof.
  intros [H1 H2 H3]. unfold Take. destruct (br_connections b !! nodeID) as [[i [|m l]]|] eqn:Hc; cbn;
    [by split..|split; [|done..]|by split].
  intros id p Hp. destruct (H1 id p Hp) as (? & ? & ?). split_and!; [done| |done].
  cbn. rewrite lookup_insert_is_Some'. by right.
Qed.

Lemma orderly_Complete steps nodeID result b :
  orderly steps b →
  orderly (steps ++ [BComplete nodeID result]) (Complete nodeID result b).1.
Proof.
  intros Hb%(orderly_mono _ (BComplete nodeID result)). unfold Complete.
  destruct result as [r|]; [|done]. case_bool_decide; [done|].
  destruct (br_pending b !! nr_RequestId r) as [p|] eqn:Hp; [|done].
  destruct (_ || _) eqn:Hm; [done|]. apply orb_false_iff in Hm as [Hn Hk]. reflect_bool.
  pose proof (orderly_forget _ (nr_RequestId r) _ Hb) as [F1 F2 F3]. destruct Hb as [H1 H2 H3].
  destruct (H1 _ _ Hp) as (Ho & _ & request & now & Hd & Hkind). unfold put, outcomes_of in *. cbn in *.
  split; cbn.
  - intros id q Hq. destruct (F1 id q Hq) as (? & ? & ?). split_and!; [|done..]. unfold outcomes_of. cbn.
    apply lookup_delete_Some in Hq as [Hne _]. by rewrite lookup_insert_ne.
  - intros id. unfold outcomes_of. cbn. destruct (decide (nr_RequestId r = id)) as [<-|].
    + rewrite lookup_insert_eq, Ho. done.
    + by rewrite lookup_insert_ne.
  - intros id o. unfold outcomes_of. cbn. destruct (decide (nr_RequestId r = id)) as [<-|].
    + rewrite lookup_insert_eq, Ho. cbn. intros ->%list_elem_of_singleton. cbn.
      exists nodeID, request, now. rewrite <- Hn at 1. split_and!; [done| |done|congruence].
      apply elem_of_app. right. by left.
    + rewrite lookup_insert_ne by done. apply H3.
Qed.

Lemma broker_runs_orderly steps : orderly steps (broker_runs steps NewCommandBroker).
Proof.
  induction steps as [|s steps IH] using rev_ind.
  { split; [done| |]; intros id; unfold outcomes_of; cbn;
      rewrite lookup_empty; cbn; [lia|by intros o ?%not_elem_of_nil]. }
  unfold broker_runs in *. rewrite foldl_app. cbn. destruct s; cbn [broker_run].
  - by apply orderly_Register, orderly_mono.
  - by apply orderly_Unregister, orderly_mono.
  - by apply orderly_Dispatch.
  - by apply orderly_forget, orderly_mono.
  - by apply orderly_Take, orderly_mono.
  - by apply orderly_Complete.
Qed.

