(* ===== verification/ControlAcks.v ===== *)
(** What the store answers a node that reports what it has: for a generation of
    its ledger an acknowledgement is never said to be unknown or in conflict,
    and no usage of it belongs to an unknown generation. *)
From S2P Require Import Prelude.
From S2P Require Import GoNet.
From S2P Require Import SpecTypes.
From S2P Require Import SpecCanonical.
From S2P Require Import SpecValidate.
From S2P Require Import SpecChecksum.
From S2P Require Import Capabilities.
From S2P Require Import Meter.
From S2P Require Import ControlDb.
From S2P Require Import ControlNodes.
From S2P Require Import ControlPublish.
From S2P Require Import ControlRollout.
From S2P Require Import ControlStore.
From S2P Require Import ControlFacts.
From S2P Require Import ControlLedger.

(** * The errors of a transaction *)
Definition raises {A} (ok : store_error → Prop) (m : Tx A) : Prop := ∀ db e, m db = inl e → ok e.

Section raises.
Context (ok : store_error → Prop).

Lemma raises_ret {A} (a : A) : raises ok (mret a).
Proof. done. Qed.
Lemma raises_bind {A B} (m : Tx A) (f : A → Tx B) :
  raises ok m → (∀ a, raises ok (f a)) → raises ok (m ≫= f).
Proof.
  intros Hm Hf db e. unfold mbind, Tx_bind. destruct (m db) as [e'|[db' a]] eqn:E; [|apply Hf].
  intros [= <-]. by eapply Hm.
Qed.
Lemma raises_read {A} (f : Db → A) : raises ok (read f).
Proof. done. Qed.
Lemma raises_write f : raises ok (write f).
Proof. done. Qed.
Lemma raises_fail {A} e : ok e → raises ok (fail e : Tx A).
Proof. by intros He db e' [= <-]. Qed.
Lemma raises_require cond e : ok e → raises ok (require_that cond e).
Proof. intros He db e'. destruct cond; [done|]. by intros [= <-]. Qed.
Lemma raises_the {A} e (row : option A) : ok e → raises ok (the e row).
Proof. intros He db e'. destruct row; [done|]. by intros [= <-]. Qed.
Lemma raises_lift {A} (r : store_error + A) : (∀ e, r = inl e → ok e) → raises ok (lift r).
Proof. intros He db e'. destruct r; [|done]. intros [= <-]. auto. Qed.
Lemma raises_each {A} (f : A → Tx unit) l : (∀ x, raises ok (f x)) → raises ok (each f l).
Proof. intros Hf. induction l; [done|]. cbn. apply raises_bind; [apply Hf|done]. Qed.
Lemma raises_gather {A B} (f : A → Tx B) l : (∀ x, raises ok (f x)) → raises ok (gather f l).
Proof.
  intros Hf. induction l; [done|]. cbn. apply raises_bind; [apply Hf|intros].
  apply raises_bind; [done|intros; apply raises_ret].
Qed.
End raises.

Ltac raise_step :=
  first
    [ assumption | apply raises_ret | apply raises_read | apply raises_write
    | apply raises_bind; [|intros ?] | apply raises_each; intros ? | apply raises_gather; intros ?
    | apply raises_require; done | apply raises_the; done | apply raises_fail; done
    | progress case_match ].
Ltac raise_steps := repeat raise_step.

(** The errors that end a connection as a loss of data. *)
Definition loses_data (e : store_error) : bool :=
  match e with ErrGenerationMissing | ErrChecksumMismatch | ErrProgramMismatch => true | _ => false end.
Abbreviation harmless := (λ e, loses_data e = false).

Lemma EncodeDesiredJSON_harmless d e : EncodeDesiredJSON d = inl e → harmless e.
Proof. unfold EncodeDesiredJSON. repeat case_match; naive_solver. Qed.
Lemma DecodeDesiredJSON_harmless d e : DecodeDesiredJSON d = inl e → harmless e.
Proof. unfold DecodeDesiredJSON. repeat case_match; naive_solver. Qed.
Lemma insert_new_harmless `{Countable K} {V} (k : K) (v : V) m e : insert_new k v m = inl e → harmless e.
Proof. unfold insert_new. case_match; naive_solver. Qed.

Create HintDb harmless.
#[local] Hint Resolve EncodeDesiredJSON_harmless DecodeDesiredJSON_harmless insert_new_harmless : harmless.
Ltac harmless_steps :=
  repeat first [ solve [eauto with harmless] | raise_step
               | apply raises_lift; solve [eauto with harmless] ].

Lemma publishDesiredTx_harmless nodeID current desired now :
  raises harmless (publishDesiredTx nodeID current desired now).
Proof.
  unfold publishDesiredTx, resolveTrafficClasses, resolve_policy, resolve_forward, allocateTrafficClass,
    syncServiceVIPBindings, sync_vip, allocate_vip, bind_vip, insert_generation, emit_event.
  harmless_steps.
Qed.
#[local] Hint Resolve publishDesiredTx_harmless : harmless.

Lemma remove_forced_harmless record now : raises harmless (remove_forced record now).
Proof. unfold remove_forced, insertPolicyAudits. harmless_steps. Qed.

Lemma recordClusterRolloutACKTx_harmless record : raises harmless (recordClusterRolloutACKTx record).
Proof.
  unfold recordClusterRolloutACKTx, ack_one, requestClusterRollbackTx, insertClusterAudit. harmless_steps.
Qed.
#[local] Hint Resolve remove_forced_harmless recordClusterRolloutACKTx_harmless : harmless.

(** ** Acknowledgements *)
Definition known (db : Db) (nodeID : string) (generation : N) (checksum : string) : Prop :=
  ∃ row, db_generations db !! (nodeID, generation) = Some row ∧ gn_desired_checksum row = checksum.

Lemma raises_prefix {A B} ok (m : Tx A) (f : A → Tx B) db a :
  m db = inr (db, a) → (∀ e, f a db = inl e → ok e) → ∀ e, (m ≫= f) db = inl e → ok e.
Proof. intros Hm Hf e. unfold mbind, Tx_bind. by rewrite Hm; auto. Qed.

(** In a ledger the applied generation has the checksum of its row, so that an
    acknowledgement whose checksum is the row's cannot differ from it. *)
Lemma RecordApplyResult_known db record now e :
  ledger (db_nodes db) (db_generations db) →
  known db (ar_NodeID record) (ar_Generation record) (ar_DesiredChecksum record) →
  RecordApplyResult record now db = inl e → harmless e.
Proof.
  intros HL (row & Hrow & Hc). unfold RecordApplyResult.
  destruct (lg_owned _ _ HL _ _ _ Hrow) as (n & Hn & Hb).
  assert (negb (bool_decide (ar_Status record = "applied") && (nd_applied_generation n =? ar_Generation record)
                && negb (bool_decide (nd_applied_desired_checksum n = Some (ar_DesiredChecksum record)))) = true)
    as Hguard.
  { destruct (bool_decide (ar_Status record = "applied")); [|done].
    destruct (nd_applied_generation n =? ar_Generation record) eqn:Hg; [|done]. reflect_bool.
    destruct (lg_applied _ _ HL _ _ Hn) as [[= H0 _]|(row' & Hrow' & ->)]; [lia|].
    rewrite Hg, Hrow in Hrow'. injection Hrow' as <-. by rewrite bool_decide_eq_true_2 by congruence. }
  revert e. eapply raises_prefix; [reflexivity|]. cbn beta. rewrite Hrow.
  eapply raises_prefix; [reflexivity|]. rewrite (bool_decide_eq_true_2 (gn_desired_checksum row = ar_DesiredChecksum record)) by done.
  eapply raises_prefix; [reflexivity|]. eapply raises_prefix; [reflexivity|]. cbn beta. rewrite Hn.
  eapply raises_prefix; [reflexivity|]. rewrite Hguard.
  eapply raises_prefix; [reflexivity|].
  match goal with |- ∀ e, ?m db = inl e → _ => cut (raises harmless m); [intros H e; apply H|] end.
  harmless_steps.
Qed.

(** ** Usage *)
Lemma RecordUsageBatch_known db batch now e :
  is_Some (db_generations db !! (Meter.Usage.ub_NodeID batch, Meter.Usage.ub_Generation batch)) →
  RecordUsageBatch batch now db = inl e → harmless e.
Proof.
  intros [row Hrow]. unfold RecordUsageBatch. revert e.
  destruct (Meter.Usage.Validate batch); [by intros e [= <-]|].
  eapply raises_prefix; [reflexivity|]. destruct (_ || _); [by intros e [= <-]|].
  eapply raises_prefix; [reflexivity|]. eapply raises_prefix; [reflexivity|]. cbn beta. rewrite Hrow.
  eapply raises_prefix; [reflexivity|].
  match goal with |- ∀ e, ?m db = inl e → _ => cut (raises harmless m); [intros H e; apply H|] end.
  unfold record_delta, enforce_quotas, insertPolicyAudits. harmless_steps.
Qed.

(** The check that should compare program checksums compares desired ones, which
    are already known to agree: the error is never returned. *)
Theorem ErrProgramMismatch_unreachable db record now :
  ledger (db_nodes db) (db_generations db) → RecordApplyResult record now db ≠ inl ErrProgramMismatch.
Proof.
  intros HL He. destruct (db_generations db !! (ar_NodeID record, ar_Generation record)) as [row|] eqn:Hrow.
  - destruct (decide (gn_desired_checksum row = ar_DesiredChecksum record)) as [Hc|Hc].
    + apply RecordApplyResult_known in He; [done|done|]. by exists row.
    + revert He. unfold RecordApplyResult, mbind, Tx_bind, read. cbn. rewrite Hrow. cbn.
      by rewrite bool_decide_eq_false_2.
  - revert He. unfold RecordApplyResult, mbind, Tx_bind, read. cbn. by rewrite Hrow.
Qed.
