(* ===== verification/ControlServer.v ===== *)
(** The Controller's end of a control stream, [internal/controller/control/server.go]:
    one connection of one node, from its hello to its end. Every event of the
    select loop is one call; the clock is read once per event. A [Send] that
    fails ends the connection, which the loop shows as the end of its events. *)
From S2P Require Import Prelude.
From S2P Require Import GoNet.
From S2P Require Import SpecTypes.
From S2P Require Import SpecValidate.
From S2P Require Import SpecChecksum.
From S2P Require Import Health.
From S2P Require Import Meter.
From S2P Require Import Capabilities.
From S2P Require Import ControlDb.
From S2P Require Import ControlNodes.
From S2P Require Import ControlPublish.
From S2P Require Import ControlRollout.
From S2P Require Import ControlStore.
From S2P Require Import ControlSchedule.
From S2P Require Import ControlEnforce.
From S2P Require Import ControlWire.
From S2P Require Import ControlCommands.

(** * The connection *)
Record connectionState := MkConnectionState {
  cs_appliedGeneration : N;
  cs_appliedChecksum : string;
  cs_lastSentGeneration : N;
  cs_lastSentChecksum : string;
  cs_blockedGeneration : N;
  cs_retryAfter : Time;
  cs_supported : list (option Capability);
  cs_supportedSchemas : list N;
  cs_lastActivity : Time;
}.

(** [NewServerWithConfig]: an interval that is not positive gets its default. *)
Record ServerConfig := MkServerConfig { sc_HeartbeatTimeout : Z; sc_RetryDelay : Z }.
Definition NewServerConfig (heartbeatTimeout retryDelay : Z) : ServerConfig :=
  MkServerConfig (if (heartbeatTimeout <=? 0)%Z then (95 * Second)%Z else heartbeatTimeout)
    (if (retryDelay <=? 0)%Z then (5 * Second)%Z else retryDelay).

(** What a connection works on: the database, the broker, its own state and
    what it has sent. *)
Record conn := MkConn {
  cn_db : Db;
  cn_broker : CommandBroker;
  cn_state : connectionState;
  cn_sent : list ControllerEvent;
}.

(** Effects of a call that fails stay. *)
Definition Srv (A : Type) : Type := conn → conn * (status_error + A).
#[export] Instance Srv_ret : MRet Srv := λ A a c, (c, inr a).
#[export] Instance Srv_bind : MBind Srv := λ A B f m c,
  match m c with (c, inl e) => (c, inl e) | (c, inr a) => f a c end.

Definition reject {A} (code : status_code) (message : string) : Srv A :=
  λ c, (c, inl (MkStatus code message)).
Definition demand (cond : bool) (code : status_code) (message : string) : Srv unit :=
  if cond then mret tt else reject code message.
Definition look {A} (f : conn → A) : Srv A := λ c, (c, inr (f c)).
Definition send (e : ControllerEvent) : Srv unit :=
  λ c, (MkConn (cn_db c) (cn_broker c) (cn_state c) (cn_sent c ++ [e]), inr tt).
Definition update (f : connectionState → connectionState) : Srv unit :=
  λ c, (MkConn (cn_db c) (cn_broker c) (f (cn_state c)) (cn_sent c), inr tt).
(** A call of the repository *)
Definition repository {A} (m : Tx A) : Srv (store_error + A) :=
  λ c, let '(db, r) := transact m (cn_db c) in
       (MkConn db (cn_broker c) (cn_state c) (cn_sent c), inr r).
Definition commands {A} (f : CommandBroker → CommandBroker * A) : Srv A :=
  λ c, let '(b, a) := f (cn_broker c) in
       (MkConn (cn_db c) b (cn_state c) (cn_sent c), inr a).

Definition set_applied_state (generation : N) (checksum : string) (s : connectionState) : connectionState :=
  MkConnectionState generation checksum (cs_lastSentGeneration s) (cs_lastSentChecksum s) 0
    (cs_retryAfter s) (cs_supported s) (cs_supportedSchemas s) (cs_lastActivity s).
Definition set_retryAfter (t : Time) (s : connectionState) : connectionState :=
  MkConnectionState (cs_appliedGeneration s) (cs_appliedChecksum s) (cs_lastSentGeneration s)
    (cs_lastSentChecksum s) (cs_blockedGeneration s) t (cs_supported s) (cs_supportedSchemas s)
    (cs_lastActivity s).
Definition set_blocked (generation : N) (s : connectionState) : connectionState :=
  MkConnectionState (cs_appliedGeneration s) (cs_appliedChecksum s) (cs_lastSentGeneration s)
    (cs_lastSentChecksum s) generation (cs_retryAfter s) (cs_supported s) (cs_supportedSchemas s)
    (cs_lastActivity s).
Definition set_lastSent (generation : N) (checksum : string) (s : connectionState) : connectionState :=
  MkConnectionState (cs_appliedGeneration s) (cs_appliedChecksum s) generation checksum
    (cs_blockedGeneration s) 0%Z (cs_supported s) (cs_supportedSchemas s) (cs_lastActivity s).
Definition set_lastActivity (t : Time) (s : connectionState) : connectionState :=
  MkConnectionState (cs_appliedGeneration s) (cs_appliedChecksum s) (cs_lastSentGeneration s)
    (cs_lastSentChecksum s) (cs_blockedGeneration s) (cs_retryAfter s) (cs_supported s)
    (cs_supportedSchemas s) t.

(** * Messages *)
Definition validateHello (hello : AgentHello) (authenticatedNodeID : string) : option string :=
  let checks := [
    (negb (ah_ProtocolVersion hello =? ProtocolVersion), "unsupported protocol version");
    ((MaxInt64 <? ah_AppliedGeneration hello) || (MaxInt64 <? ah_PendingGeneration hello),
     "agent generation exceeds the controller range");
    (negb (bool_decide (ah_NodeId hello = authenticatedNodeID)),
     "hello node identity does not match the authenticated Noise key");
    ((String.length (ah_AgentVersion hello) =? 0)%nat || (128 <? String.length (ah_AgentVersion hello))%nat,
     "agent_version is invalid");
    (negb (length (ah_SessionNonce hello) =? 16)%nat, "session nonce must be 16 bytes");
    (bool_decide (is_Some (ValidateCapabilities (ah_Capabilities hello))),
     default "" (ValidateCapabilities (ah_Capabilities hello)));
    (negb (bool_decide (ah_WireguardPublicKey hello = ""))
     && bool_decide (is_Some (ValidateWireGuardPublicKey "wireguard_public_key" (ah_WireguardPublicKey hello))),
     default "" (ValidateWireGuardPublicKey "wireguard_public_key" (ah_WireguardPublicKey hello)));
    (existsb (λ c, match c with Some c => bool_decide (cap_Name c = "fabric.wireguard") | None => false end)
       (ah_Capabilities hello) && bool_decide (ah_WireguardPublicKey hello = ""),
     "fabric.wireguard capability requires wireguard_public_key");
    (negb (bool_decide (CurrentSchemaVersion ∈ ah_SupportedSchemaVersions hello)),
     "agent does not advertise the current schema version");
    ((ah_AppliedGeneration hello =? 0)
     && negb (bool_decide (ah_AppliedDesiredChecksum hello = "") && bool_decide (ah_AppliedProgramChecksum hello = "")),
     "empty applied generation must not carry checksums");
    (negb (ah_AppliedGeneration hello =? 0)
     && (negb (ValidChecksum (ah_AppliedDesiredChecksum hello)) || negb (ValidChecksum (ah_AppliedProgramChecksum hello))),
     "applied generation checksums are invalid");
    ((ah_PendingGeneration hello =? 0) && negb (bool_decide (ah_PendingDesiredChecksum hello = ""))
     || (0 <? ah_PendingGeneration hello) && negb (ValidChecksum (ah_PendingDesiredChecksum hello)),
     "pending generation checksum is invalid")] in
  match filter (λ c : bool * string, c.1 = true) checks with
  | [] => None
  | (_, message) :: _ => Some message
  end.

Definition validateApplyResult (result : option ApplyResult) (nodeID : string) : option string :=
  match result with
  | None => Some "apply result identity, generation, or desired checksum is invalid"
  | Some r =>
      if negb (bool_decide (am_NodeId r = nodeID)) || (am_Generation r =? 0) || (MaxInt64 <? am_Generation r)
         || negb (ValidChecksum (am_DesiredChecksum r))
      then Some "apply result identity, generation, or desired checksum is invalid"
      else if (am_ObservedAtUnix r <=? 0)%Z then Some "apply result observed time is invalid"
      else if am_Status r =? APPLY_STATUS_APPLIED then
        if negb (ValidChecksum (am_ProgramChecksum r)) || negb (am_ErrorCode r =? APPLY_ERROR_CODE_NONE)
           || negb (bool_decide (am_ErrorMessage r = ""))
        then Some "applied result must carry a program checksum and no error" else None
      else if (am_Status r =? APPLY_STATUS_RETRYABLE_ERROR) || (am_Status r =? APPLY_STATUS_PERMANENT_ERROR) then
        if negb (bool_decide (am_ProgramChecksum r = "")) && negb (ValidChecksum (am_ProgramChecksum r))
        then Some "failed result program checksum is invalid"
        else if (am_ErrorCode r =? APPLY_ERROR_CODE_NONE) || (am_ErrorCode r =? APPLY_ERROR_CODE_UNSPECIFIED)
        then Some "failed result must carry an error code" else None
      else Some "apply result status is invalid"
  end.

Definition applyStatusName (value : N) : string :=
  if value =? APPLY_STATUS_APPLIED then "applied"
  else if value =? APPLY_STATUS_RETRYABLE_ERROR then "retryable_error"
  else if value =? APPLY_STATUS_PERMANENT_ERROR then "permanent_error"
  else "".

Definition sanitize (value : string) (limit : nat) : string :=
  of_chars (take limit (filter (λ c, c ≠ nul) (chars value))).

(** [delta > 10*time.Minute || delta < -10*time.Minute] *)
Definition clock_differs (now : Time) (unix : Z) : bool :=
  let delta := Time_Sub now (of_unix unix) in
  (600 * Second <? delta)%Z || (delta <? - (600 * Second))%Z.

Definition apply_record (nodeID : string) (r : ApplyResult) : ApplyRecord :=
  MkApplyRecord nodeID (am_Generation r) (am_DesiredChecksum r) (am_ProgramChecksum r)
    (applyStatusName (am_Status r)) (ApplyErrorCode_String (am_ErrorCode r))
    (sanitize (am_ErrorMessage r) 2048) (of_unix (am_ObservedAtUnix r)).

Definition usage_delta_of (d : option UsageDelta) : string + Meter.Usage.Delta :=
  match d with
  | None => inl "usage delta must not be nil"
  | Some d =>
      let make direction :=
        inr {| Meter.Usage.ud_ForwardID := um_ForwardId d; Meter.Usage.ud_Protocol := um_Protocol d;
               Meter.Usage.ud_Direction := direction; Meter.Usage.ud_ResourceVersion := um_ResourceVersion d;
               Meter.Usage.ud_Packets := um_Packets d; Meter.Usage.ud_Bytes := um_Bytes d;
               Meter.Usage.ud_Reset := um_Reset d |} in
      if um_Direction d =? USAGE_DIRECTION_UPLOAD then make DirectionUpload
      else if um_Direction d =? USAGE_DIRECTION_DOWNLOAD then make DirectionDownload
      else inl "usage direction is invalid"
  end.
Fixpoint usage_deltas_of (l : list (option UsageDelta)) : string + list Meter.Usage.Delta :=
  match l with
  | [] => inr []
  | d :: rest =>
      match usage_delta_of d with
      | inl e => inl e
      | inr d => match usage_deltas_of rest with inl e => inl e | inr l => inr (d :: l) end
      end
  end.

Definition health_status_of (status : N) : option Health.Status :=
  if status =? BACKEND_HEALTH_STATUS_UNKNOWN then Some StatusUnknown
  else if status =? BACKEND_HEALTH_STATUS_HEALTHY then Some StatusHealthy
  else if status =? BACKEND_HEALTH_STATUS_UNHEALTHY then Some StatusUnhealthy
  else None.

(** * The latest snapshot *)
Definition snapshot_event (record : SnapshotRecord) (required : list (option Capability)) : ControllerEvent :=
  ControllerEvent_Snapshot (Some
    (MkDesiredSnapshot ProtocolVersion (sp_SchemaVersion record) (sp_NodeID record) (sp_Generation record)
       (sp_DesiredChecksum record) (sp_DesiredState record) required (to_unix (sp_CreatedAt record)))).

Definition sendLatest (now : Time) (nodeID : string) : Srv unit :=
  record ← look (λ c, LatestSnapshot nodeID (cn_db c));
  state ← look cn_state;
  match record with
  | None => mret tt
  | Some record =>
      _ ← demand (bool_decide (sp_SchemaVersion record ∈ cs_supportedSchemas state))
            FailedPrecondition "agent does not support desired schema version";
      if sp_Generation record <? cs_appliedGeneration state
      then reject DataLoss "agent applied generation is ahead of controller"
      else if sp_Generation record =? cs_appliedGeneration state then
        demand (bool_decide (sp_DesiredChecksum record = cs_appliedChecksum state))
          DataLoss "agent and controller disagree on applied generation checksum"
      else if cs_blockedGeneration state =? sp_Generation record then mret tt
      else if (cs_lastSentGeneration state =? sp_Generation record)
              && bool_decide (cs_lastSentChecksum state = sp_DesiredChecksum record)
              && (Time_IsZero (cs_retryAfter state) || Time_Before now (cs_retryAfter state))
      then mret tt
      else
        let required := map Some (sp_RequiredCapabilities record) in
        _ ← demand (bool_decide (ValidateCapabilities required = None))
              Internal "stored required capabilities are invalid";
        let missing := MissingCapabilities (cs_supported state) required in
        if negb (bool_decide (missing = [])) then
          _ ← send (ControllerEvent_Disconnect ("missing capabilities: " +:+ String.concat "," missing) false);
          reject FailedPrecondition "agent lacks required capabilities"
        else
          _ ← send (snapshot_event record required);
          update (set_lastSent (sp_Generation record) (sp_DesiredChecksum record))
  end.

(** * Events of the Agent *)
Section server.
Context (config : ServerConfig) (nodeID : string) (now : Time).

Definition handle_apply_result (result : option ApplyResult) : Srv unit :=
  match validateApplyResult result nodeID, result with
  | Some message, _ => reject InvalidArgument message
  | None, None => mret tt
  | None, Some result =>
      _ ← demand (negb (clock_differs now (am_ObservedAtUnix result))) InvalidArgument
            "apply result clock differs from controller by more than ten minutes";
      recorded ← repository (RecordApplyResult (apply_record nodeID result) now);
      match recorded with
      | inl (ErrGenerationMissing | ErrChecksumMismatch | ErrProgramMismatch) =>
          reject DataLoss "agent and controller disagree on a generation"
      | inl e => reject Unavailable ("record apply result: " +:+ error_text e)
      | inr _ =>
          if am_Status result =? APPLY_STATUS_APPLIED
          then update (set_applied_state (am_Generation result) (am_DesiredChecksum result))
          else if am_Status result =? APPLY_STATUS_RETRYABLE_ERROR
          then update (set_retryAfter (Time_Add now (sc_RetryDelay config)))
          else if am_Status result =? APPLY_STATUS_PERMANENT_ERROR
          then update (set_blocked (am_Generation result))
          else mret tt
      end
  end.

Definition handle_heartbeat (heartbeat : option AgentHeartbeat) : Srv unit :=
  _ ← demand (match heartbeat with Some h => bool_decide (hb_NodeId h = nodeID) | None => false end)
        InvalidArgument "heartbeat node identity mismatch";
  _ ← demand (match heartbeat with Some h => (0 <? hb_ObservedAtUnix h)%Z | None => false end)
        InvalidArgument "heartbeat observed time is invalid";
  recorded ← repository (RecordHeartbeat nodeID now);
  match recorded with
  | inl e => reject Unavailable ("record heartbeat: " +:+ error_text e)
  | inr _ => mret tt
  end.

Definition handle_usage_batch (encoded : option UsageBatch) : Srv unit :=
  match encoded with
  | None => reject InvalidArgument "usage batch envelope is invalid"
  | Some m =>
      _ ← demand (bool_decide (bm_NodeId m = nodeID) && negb (bm_Sequence m =? 0) && negb (bm_Generation m =? 0)
                  && ValidChecksum (bm_CounterEpoch m)
                  && (length (bm_Deltas m) <=? MaxForwardsPerSnapshot * 4)%nat)
            InvalidArgument "usage batch envelope is invalid";
      _ ← demand (negb (clock_differs now (bm_ObservedAtUnix m))) InvalidArgument
            "usage batch clock differs from controller by more than ten minutes";
      match usage_deltas_of (bm_Deltas m) with
      | inl message => reject InvalidArgument message
      | inr deltas =>
          let batch :=
            {| Meter.Usage.ub_NodeID := nodeID; Meter.Usage.ub_Epoch := bm_CounterEpoch m;
               Meter.Usage.ub_Sequence := bm_Sequence m; Meter.Usage.ub_Generation := bm_Generation m;
               Meter.Usage.ub_ObservedAt := of_unix (bm_ObservedAtUnix m);
               Meter.Usage.ub_Deltas := deltas |} in
          match Meter.Usage.Validate batch with
          | Some message => reject InvalidArgument message
          | None =>
              recorded ← repository (RecordUsageBatch batch now);
              match recorded with
              | inl ErrGenerationMissing => reject DataLoss "usage generation is unknown"
              | inl e => reject Unavailable ("record usage batch: " +:+ error_text e)
              | inr _ =>
                  send (ControllerEvent_UsageAck (Meter.Usage.ub_Epoch batch) (Meter.Usage.ub_Sequence batch))
              end
          end
      end
  end.

Definition handle_backend_health (encoded : option BackendHealthReport) : Srv unit :=
  match encoded with
  | None => reject InvalidArgument "backend health envelope is invalid"
  | Some m =>
      _ ← demand (bool_decide (hm_NodeId m = nodeID) && negb (hm_Generation m =? 0)
                  && negb (hm_ResourceVersion m =? 0) && (0 <? hm_ObservedAtUnix m)%Z)
            InvalidArgument "backend health envelope is invalid";
      _ ← demand (bool_decide (ValidateIdentifier "pool_id" (hm_PoolId m) = None)) InvalidArgument
            (default "" (ValidateIdentifier "pool_id" (hm_PoolId m)));
      _ ← demand (bool_decide (ValidateIdentifier "backend_id" (hm_BackendId m) = None)) InvalidArgument
            (default "" (ValidateIdentifier "backend_id" (hm_BackendId m)));
      match health_status_of (hm_Status m) with
      | None => reject InvalidArgument "backend health status is invalid"
      | Some status =>
          _ ← demand (negb (clock_differs now (hm_ObservedAtUnix m))) InvalidArgument
                "backend health clock differs from controller by more than ten minutes";
          recorded ← repository (RecordBackendHealth
            {| rp_NodeID := nodeID; rp_Generation := hm_Generation m; rp_PoolID := hm_PoolId m;
               rp_BackendID := hm_BackendId m; rp_ResourceVersion := hm_ResourceVersion m;
               rp_Status := status; rp_Latency := (Z.of_N (hm_LatencyMilliseconds m) * Millisecond)%Z;
               rp_Error := sanitize (hm_ErrorMessage m) 512;
               rp_ObservedAt := of_unix (hm_ObservedAtUnix m) |} now);
          match recorded with
          | inl (ErrGenerationMissing | ErrHealthProbeMissing) =>
              reject FailedPrecondition "backend health does not match a probe"
          | inl e => reject Unavailable ("record backend health: " +:+ error_text e)
          | inr _ => mret tt
          end
      end
  end.

(** A result nobody waits for is acknowledged all the same. *)
Definition handle_command_result (result : option NodeCommandResult) : Srv unit :=
  match result with
  | None => reject InvalidArgument "command result is invalid"
  | Some r =>
      _ ← demand (negb (bool_decide (nr_RequestId r = "")) && (String.length (nr_RequestId r) <=? 128)%nat
                  && negb (nr_Kind r =? NODE_COMMAND_KIND_UNSPECIFIED) && (0 <? nr_CompletedAtUnix r)%Z
                  && (String.length (nr_ErrorCode r) <=? 128)%nat
                  && (String.length (nr_ErrorMessage r) <=? 1024)%nat)
            InvalidArgument "command result is invalid";
      _ ← demand (negb (clock_differs now (nr_CompletedAtUnix r))) InvalidArgument
            "command result clock differs from controller by more than ten minutes";
      _ ← demand (negb (nr_Success r && negb (bool_decide (nr_ErrorCode r = "") && bool_decide (nr_ErrorMessage r = ""))))
            InvalidArgument "successful command result must not include an error";
      _ ← demand (nr_Success r || negb (bool_decide (nr_ErrorCode r = "")))
            InvalidArgument "failed command result must include an error code";
      _ ← commands (Complete nodeID (Some r));
      send (ControllerEvent_CommandAck (nr_RequestId r) (nr_Kind r))
  end.

Definition handleEvent (event : option AgentEvent) : Srv unit :=
  match event with
  | None => reject InvalidArgument "agent event must not be nil"
  | Some (AgentEvent_ApplyResult result) => handle_apply_result result
  | Some (AgentEvent_Heartbeat heartbeat) => handle_heartbeat heartbeat
  | Some (AgentEvent_UsageBatch batch) => handle_usage_batch batch
  | Some (AgentEvent_BackendHealth report) => handle_backend_health report
  | Some (AgentEvent_CommandResult result) => handle_command_result result
  | Some (AgentEvent_Hello _) => reject InvalidArgument "hello may only be sent once"
  | Some AgentEvent_Empty => reject InvalidArgument "agent event payload is required"
  end.

(** * The loop of [Connect] *)
Inductive server_event :=
  | SvReceived (event : option AgentEvent)
  | SvNotified
  | SvCommand
  | SvPoll
  | SvPing (nonce : list N)
  | SvAuthorize
  | SvWatchdog.

Definition serve (publicKey : list N) (e : server_event) : Srv unit :=
  match e with
  | SvReceived event => _ ← update (set_lastActivity now); handleEvent event
  | SvNotified | SvPoll => sendLatest now nodeID
  | SvCommand =>
      command ← commands (Take nodeID);
      match command with Some command => send (ControllerEvent_Command command) | None => mret tt end
  | SvPing nonce => send (ControllerEvent_Ping nonce (to_unix now))
  | SvAuthorize =>
      authorized ← repository (AuthorizeNodeKey nodeID publicKey);
      match authorized with
      | inl _ => reject PermissionDenied "node Noise identity is no longer authorized"
      | inr _ => mret tt
      end
  | SvWatchdog =>
      state ← look cn_state;
      demand (negb (sc_HeartbeatTimeout config <? Time_Sub now (cs_lastActivity state))%Z)
        codes_DeadlineExceeded "agent heartbeat timed out"
  end.
End server.

(** [Connect] up to its loop, for the identity the handshake of the secure
    channel has proved; the number of the broker's connection. *)
Definition connected_state (hello : AgentHello) (now : Time) : connectionState :=
  MkConnectionState (ah_AppliedGeneration hello) (ah_AppliedDesiredChecksum hello) 0 "" 0 0%Z
    (ah_Capabilities hello) (ah_SupportedSchemaVersions hello) now.

Definition Connect (peer : option (string * list N)) (first : option AgentEvent) (now : Time) : Srv N :=
  match first with
  | Some (AgentEvent_Hello (Some hello)) =>
      match peer with
      | Some (nodeID, publicKey) =>
          _ ← demand (negb (bool_decide (nodeID = "")) && (length publicKey =? 32)%nat)
                Unauthenticated "authenticated Noise client identity is missing";
          _ ← demand (bool_decide (validateHello hello nodeID = None)) InvalidArgument
                (default "" (validateHello hello nodeID));
          authorized ← repository (AuthorizeNodeKey nodeID publicKey);
          match authorized with
          | inl _ => reject PermissionDenied "node Noise identity is not authorized"
          | inr _ =>
              recorded ← repository (RecordHello
                (MkHelloRecord nodeID (fingerprint_of publicKey) (ah_AgentVersion hello)
                   (omap id (ah_Capabilities hello)) (ah_WireguardPublicKey hello) now));
              match recorded with
              | inl e => reject Unavailable ("record hello: " +:+ error_text e)
              | inr _ =>
                  id ← commands (Register nodeID);
                  _ ← update (λ _, connected_state hello now);
                  _ ← sendLatest now nodeID;
                  mret id
              end
          end
      | None => reject Unauthenticated "authenticated Noise client identity is missing"
      end
  | _ => reject InvalidArgument "first agent event must be hello"
  end.
