(* ===== verification/AgentClient.v ===== *)
(** The Agent's end of the control stream, [internal/agent/controlclient]: what
    it says when it connects, how a snapshot from the Controller is checked and
    given to the reconciler, and what it reports. Each operation runs over the
    reconciler's world; the runner's own clock is read once per operation. *)
From S2P Require Import Prelude.
From S2P Require Import GoNet.
From S2P Require Import SpecTypes.
From S2P Require Import SpecValidate.
From S2P Require Import SpecChecksum.
From S2P Require Import Hostname.
From S2P Require Import Health.
From S2P Require Import Meter.
From S2P Require Import Capabilities.
From S2P Require Import ControlDb.
From S2P Require Import ControlWire.
From S2P Require Import NftCompiler.
From S2P Require Import AgentStore.
From S2P Require Import Reconciler.

(** * Configuration *)

(** [capabilitiesWithoutFabric] *)
Definition capabilitiesWithoutFabric (capabilities : list (option Capability)) : list (option Capability) :=
  filter (λ c, match c with
               | Some c => negb (String.prefix "fabric." (cap_Name c) || bool_decide (cap_Name c = "nft.via-exit"))
               | None => false
               end = true) capabilities.

Record Config := MkConfig {
  cf_NodeID : string;
  cf_AgentVersion : string;
  cf_Capabilities : list (option Capability);
  cf_WireGuardPublicKey : string;
}.

(** The checks and defaults of [New] *)
Definition New (config : Config) : string + Config :=
  match ValidateIdentifier "node_id" (cf_NodeID config) with
  | Some e => inl e
  | None =>
      if (String.length (cf_AgentVersion config) =? 0)%nat || (128 <? String.length (cf_AgentVersion config))%nat
      then inl "agent version is invalid"
      else
        let capabilities :=
          if bool_decide (cf_Capabilities config = []) then
            if bool_decide (cf_WireGuardPublicKey config = "")
            then capabilitiesWithoutFabric DefaultCapabilities else DefaultCapabilities
          else cf_Capabilities config in
        match ValidateCapabilities capabilities with
        | Some e => inl e
        | None =>
            let key := cf_WireGuardPublicKey config in
            match (if bool_decide (key = "") then None else ValidateWireGuardPublicKey "wireguard_public_key" key) with
            | Some e => inl e
            | None => inr (MkConfig (cf_NodeID config) (cf_AgentVersion config) capabilities key)
            end
        end
  end.

(** * Errors *)

(** [err.Error()], of the errors of this module in the words of the model. *)
Fixpoint error_string (e : error) : string :=
  match e with
  | Sentinel _ => ""
  | Plain message => message
  | Validation issues => ValidationError_Error issues
  | Wrap message e => message +:+ ": " +:+ error_string e
  | Join es => String.concat "; " (map error_string es)
  end.

Definition classifyApplyError (e : error) : N * N :=
  let permanent code := (APPLY_STATUS_PERMANENT_ERROR, code) in
  let retryable code := (APPLY_STATUS_RETRYABLE_ERROR, code) in
  if errors_As_validation e then permanent APPLY_ERROR_CODE_INVALID_SNAPSHOT
  else if errors_Is e ErrUnsupported then permanent APPLY_ERROR_CODE_UNSUPPORTED_CAPABILITY
  else if errors_Is e ErrStaleGeneration then permanent APPLY_ERROR_CODE_STALE_GENERATION
  else if errors_Is e ErrGenerationConflict then permanent APPLY_ERROR_CODE_GENERATION_CONFLICT
  else if errors_Is e ErrNodeIdentity then permanent APPLY_ERROR_CODE_NODE_IDENTITY
  else if errors_Is e ErrForeignTable || errors_Is e ErrKernelAhead
  then permanent APPLY_ERROR_CODE_DATAPLANE_CONFLICT
  else if errors_Is e DeadlineExceeded || errors_Is e Canceled
  then retryable APPLY_ERROR_CODE_APPLY_FAILED
  else retryable APPLY_ERROR_CODE_INTERNAL.

(** [truncate] *)
Definition truncate (value : string) (limit : nat) : string := of_chars (take limit (chars value)).

(** * Usage and health messages *)
Definition usage_delta_message (d : Meter.Usage.Delta) : option UsageDelta :=
  Some (MkUsageDelta (Meter.Usage.ud_ForwardID d) (Meter.Usage.ud_Protocol d)
    (if bool_decide (Meter.Usage.ud_Direction d = DirectionDownload) then USAGE_DIRECTION_DOWNLOAD
     else USAGE_DIRECTION_UPLOAD)
    (Meter.Usage.ud_ResourceVersion d) (Meter.Usage.ud_Packets d) (Meter.Usage.ud_Bytes d)
    (Meter.Usage.ud_Reset d)).
Definition usage_message (b : Meter.Usage.Batch) : AgentEvent :=
  AgentEvent_UsageBatch (Some
    (MkUsageBatch (Meter.Usage.ub_NodeID b) (Meter.Usage.ub_Epoch b) (Meter.Usage.ub_Sequence b)
       (Meter.Usage.ub_Generation b) (to_unix (Meter.Usage.ub_ObservedAt b))
       (map usage_delta_message (Meter.Usage.ub_Deltas b)))).
Definition sendUsage (batches : list Meter.Usage.Batch) : list AgentEvent := map usage_message batches.

Definition health_status_message (status : Health.Status) : N :=
  if bool_decide (status = StatusHealthy) then BACKEND_HEALTH_STATUS_HEALTHY
  else if bool_decide (status = StatusUnhealthy) then BACKEND_HEALTH_STATUS_UNHEALTHY
  else BACKEND_HEALTH_STATUS_UNKNOWN.
Definition health_message (r : Report) : AgentEvent :=
  let milliseconds := Z.max 0 (Z.min (2 ^ 32 - 1) (rp_Latency r ÷ Millisecond)) in
  AgentEvent_BackendHealth (Some
    (MkBackendHealthReport (rp_NodeID r) (rp_Generation r) (rp_PoolID r) (rp_BackendID r)
       (rp_ResourceVersion r) (health_status_message (rp_Status r)) (Z.to_N milliseconds)
       (truncate (rp_Error r) 512) (to_unix (rp_ObservedAt r)))).
Definition sendHealth (reports : list Report) : list AgentEvent := map health_message reports.

(** [healthLast]: the latest report of every probe *)
Definition health_key (pool backend : string) : string := pool +:+ String "000"%char EmptyString +:+ backend.
Definition report_key (r : Report) : string := health_key (rp_PoolID r) (rp_BackendID r).

Definition replaceHealth (desired : DesiredState) (reports : list Report) (healthLast : gmap string Report) :
    gmap string Report :=
  let active := map (λ c, health_key (hc_PoolID c) (hc_BackendID c)) (ds_HealthChecks desired) in
  foldl (λ m r, <[report_key r := r]> m) (filter (λ kv, kv.1 ∈ active) healthLast) reports.

Definition fresh_report (now : Time) (r : Report) : bool :=
  let age := Time_Sub now (rp_ObservedAt r) in
  negb (Time_IsZero (rp_ObservedAt r) || (300 * Second <? age)%Z || (age <? - (300 * Second))%Z).

(** [sort.Slice] by pool and backend *)
Definition less_pending (a b : Report) : bool :=
  if bool_decide (rp_PoolID a = rp_PoolID b) then str_lt (rp_BackendID a) (rp_BackendID b)
  else str_lt (rp_PoolID a) (rp_PoolID b).
Definition pendingHealth (now : Time) (healthLast : gmap string Report) : gmap string Report * list Report :=
  let kept := filter (λ kv : string * Report, fresh_report now kv.2 = true) healthLast in
  (kept, sort_slice less_pending (map snd (map_to_list kept))).

(** * Commands: what is accepted *)

(** The checks of [startCommand]; a command that passes them is started, or
    answered at once when another one is running. *)
Definition command_refused (now : Time) (command : NodeCommand) : option string :=
  let deadline := of_unix (nc_DeadlineUnix command) in
  if bool_decide (nc_RequestId command = "") || (128 <? String.length (nc_RequestId command))%nat
  then Some "controller node command identity is invalid"
  else if (nc_Kind command =? NODE_COMMAND_KIND_UNSPECIFIED) || (nc_DeadlineUnix command <=? 0)%Z
  then Some "controller node command kind or deadline is invalid"
  else if negb (Time_After deadline now) || Time_After deadline (Time_Add now (300 * Second))
  then Some "controller node command deadline is invalid"
  else None.

Definition commandFailure (command : NodeCommand) (code message : string) (now : Time) : NodeCommandResult :=
  MkNodeCommandResult (nc_RequestId command) (nc_Kind command) false code (truncate message 1024)
    (to_unix now) 0.

(** [tcp_check]: the targets [executeTCPCheck] dials *)
Definition tcp_target (command : NodeCommand) : option Addr :=
  address ← ParseAddr (TrimSpace (nc_Address command));
  if negb (Addr_Is4 address) || Addr_IsUnspecified address || Addr_IsMulticast address
     || (nc_Port command =? 0) || (65535 <? nc_Port command)
  then None else Some address.

(** * Snapshots and hello *)
Section client.
Context {W : Type} (E : Env W) (config : Config) (now : Time).

(** The answer of [applySnapshot] before the reconciler is asked *)
Definition refuse (snapshot : DesiredSnapshot) (code : N) (message : string) : ApplyResult :=
  MkApplyResult (cf_NodeID config) (dm_Generation snapshot) (dm_DesiredChecksum snapshot) ""
    APPLY_STATUS_PERMANENT_ERROR code (truncate message 2048) (to_unix now).

(** The checks of [applySnapshot]: a refusal, or the state and its checksum. *)
Definition check_snapshot (snapshot : DesiredSnapshot) : ApplyResult + (DesiredState * string) :=
  let invalid message := inl (refuse snapshot APPLY_ERROR_CODE_INVALID_SNAPSHOT message) in
  if negb (dm_ProtocolVersion snapshot =? ProtocolVersion)
     || negb (SupportedSchemaVersion (dm_SchemaVersion snapshot))
     || negb (bool_decide (dm_NodeId snapshot = cf_NodeID config)) || (dm_Generation snapshot =? 0)
  then invalid "snapshot envelope version, identity, or generation is invalid"
  else if negb (ValidChecksum (dm_DesiredChecksum snapshot))
  then inl (refuse snapshot APPLY_ERROR_CODE_CHECKSUM_MISMATCH "snapshot checksum format is invalid")
  else match ValidateCapabilities (dm_RequiredCapabilities snapshot) with
  | Some e => invalid e
  | None =>
      let missing := MissingCapabilities (cf_Capabilities config) (dm_RequiredCapabilities snapshot) in
      if negb (bool_decide (missing = []))
      then inl (refuse snapshot APPLY_ERROR_CODE_UNSUPPORTED_CAPABILITY
                  ("missing capabilities: " +:+ String.concat "," missing))
      else match DecodeDesiredJSON (dm_DesiredStateJson snapshot) with
      | inl (DesiredInvalid issues) => invalid (ValidationError_Error issues)
      | inl _ => invalid "desired state cannot be decoded"
      | inr desired =>
          if negb (bool_decide (ds_NodeID desired = dm_NodeId snapshot))
             || negb (ds_Generation desired =? dm_Generation snapshot)
             || negb (ds_SchemaVersion desired =? dm_SchemaVersion snapshot)
          then invalid "snapshot envelope does not match desired state"
          else match Checksum desired with
          | Some checksum =>
              if bool_decide (checksum = dm_DesiredChecksum snapshot) then inr (desired, checksum)
              else inl (refuse snapshot APPLY_ERROR_CODE_CHECKSUM_MISMATCH "desired state checksum mismatch")
          | None => inl (refuse snapshot APPLY_ERROR_CODE_CHECKSUM_MISMATCH "desired state checksum mismatch")
          end
      end
  end.

(** The report on an attempt *)
Definition apply_report (snapshot : DesiredSnapshot) (desired : DesiredState) (checksum : string)
    (r : Result * option error) : ApplyResult :=
  match r with
  | (r, Some e) =>
      let '(status, code) := classifyApplyError e in
      MkApplyResult (cf_NodeID config) (dm_Generation snapshot) (dm_DesiredChecksum snapshot)
        (rs_ProgramChecksum r) status code (truncate (error_string e) 2048) (to_unix now)
  | (r, None) =>
      MkApplyResult (cf_NodeID config) (dm_Generation snapshot) (dm_DesiredChecksum snapshot)
        (if bool_decide (rs_ProgramChecksum r = "") then Nft.ProgramChecksumAt desired checksum now
         else rs_ProgramChecksum r)
        APPLY_STATUS_APPLIED APPLY_ERROR_CODE_NONE "" (to_unix now)
  end.

Definition applySnapshot (snapshot : option DesiredSnapshot) : M W ApplyResult :=
  match snapshot with
  | None => mret (MkApplyResult (cf_NodeID config) 0 "" "" APPLY_STATUS_PERMANENT_ERROR
                    APPLY_ERROR_CODE_INVALID_SNAPSHOT "snapshot is empty" (to_unix now))
  | Some snapshot =>
      match check_snapshot snapshot with
      | inl result => mret result
      | inr (desired, checksum) =>
          r ← Apply E desired;
          mret (apply_report snapshot desired checksum r)
      end
  end.

(** A report that a state is applied *)
Definition applied_result (generation : N) (checksum programChecksum : string) : ApplyResult :=
  MkApplyResult (cf_NodeID config) generation checksum programChecksum APPLY_STATUS_APPLIED
    APPLY_ERROR_CODE_NONE "" (to_unix now).

Definition applied_report (applied : Snapshot) : ApplyResult :=
  applied_result (generation_of applied) (sn_Checksum applied)
    (if bool_decide (sn_ProgramChecksum applied = "")
     then Nft.ProgramChecksumAt (sn_Desired applied) (sn_Checksum applied) now
     else sn_ProgramChecksum applied).

Definition hello_of (record : StateRecord) (nonce : list N) : AgentHello :=
  let report := applied_report <$> sr_Applied record in
  MkAgentHello ProtocolVersion (cf_NodeID config) (cf_AgentVersion config) SupportedSchemaVersions
    (cf_Capabilities config)
    (match report with Some r => am_Generation r | None => 0 end)
    (match report with Some r => am_DesiredChecksum r | None => "" end)
    (match report with Some r => am_ProgramChecksum r | None => "" end)
    (match sr_Pending record with Some p => generation_of p | None => 0 end)
    (match sr_Pending record with Some p => sn_Checksum p | None => "" end)
    nonce (cf_WireGuardPublicKey config).

(** [buildHello]; the nonce is random, and is given. *)
Definition buildHello (nonce : list N) : M W (error + (AgentHello * option ApplyResult)) :=
  record ← load E;
  mret (match record with
        | inl e => inl (Wrap "load durable agent state" e)
        | inr record =>
            match sr_Applied record with
            | Some applied =>
                if bool_decide (node_of applied = cf_NodeID config)
                then inr (hello_of record nonce, Some (applied_report applied))
                else inl (Plain ("durable state belongs to node " +:+ node_of applied))
            | None => inr (hello_of record nonce, None)
            end
        end).

(** What [runSession] sends first: the hello, the last durable acknowledgement,
    the usage not yet acknowledged and the health reports. *)
Definition greeting (nonce : list N) (reports : list Report) : M W (error + list AgentEvent) :=
  hello ← buildHello nonce;
  match hello with
  | inl e => mret (inl e)
  | inr (hello, applied) =>
      pending ← PendingUsage E;
      mret (match pending with
            | inl e => inl (Wrap "load durable usage outbox" e)
            | inr batches =>
                inr ([AgentEvent_Hello (Some hello)]
                     ++ match applied with Some r => [AgentEvent_ApplyResult (Some r)] | None => [] end
                     ++ sendUsage batches ++ sendHealth reports)
            end)
  end.

(** [resultIsCurrent], and the report on a local change *)
Definition resultIsCurrent (result : Result) : M W (error + bool) :=
  record ← load E;
  mret (match record with
        | inl e => inl e
        | inr record =>
            inr (match sr_Applied record with
                 | Some applied =>
                     (generation_of applied =? rs_Generation result)
                     && bool_decide (sn_Checksum applied = rs_Checksum result)
                     && bool_decide (sn_ProgramChecksum applied = rs_ProgramChecksum result)
                 | None => false
                 end)
        end).
Definition report_local (result : Result) : M W (list AgentEvent) :=
  current ← resultIsCurrent result;
  mret (match current with
        | inr true => [AgentEvent_ApplyResult (Some
            (applied_result (rs_Generation result) (rs_Checksum result) (rs_ProgramChecksum result)))]
        | _ => []
        end).

Definition heartbeat : AgentEvent :=
  AgentEvent_Heartbeat (Some (MkAgentHeartbeat (cf_NodeID config) (to_unix now))).

(** [handleControllerEvent]: what is sent, or the end of the session.
    [uninstalling] tells whether an uninstall runs. A command goes to
    [startCommand], an acknowledgement of a result to the loop. *)
Definition handleControllerEvent (uninstalling : bool) (event : ControllerEvent) :
    M W (error + list AgentEvent) :=
  match event with
  | ControllerEvent_Snapshot snapshot =>
      if uninstalling then
        mret (inr [AgentEvent_ApplyResult (Some
          (MkApplyResult (cf_NodeID config)
             (match snapshot with Some s => dm_Generation s | None => 0 end)
             (match snapshot with Some s => dm_DesiredChecksum s | None => "" end) ""
             APPLY_STATUS_RETRYABLE_ERROR APPLY_ERROR_CODE_INTERNAL
             "Agent is completing an uninstall and cannot apply another snapshot" (to_unix now)))])
      else
        result ← applySnapshot snapshot;
        mret (inr [AgentEvent_ApplyResult (Some result)])
  | ControllerEvent_Ping _ _ => mret (inr [heartbeat])
  | ControllerEvent_Disconnect reason _ =>
      mret (inl (Plain ("controller requested disconnect: " +:+ reason)))
  | ControllerEvent_UsageAck epoch sequence =>
      if negb (ValidChecksum epoch) || (sequence =? 0)
      then mret (inl (Plain "controller usage ACK is invalid"))
      else
        e ← AckUsage E epoch sequence;
        mret (match e with Some e => inl (Wrap "commit usage ACK" e) | None => inr [] end)
  | ControllerEvent_Command command =>
      mret (match command_refused now command with Some e => inl (Plain e) | None => inr [] end)
  | ControllerEvent_CommandAck requestId kind =>
      mret (if bool_decide (requestId = "") || (128 <? String.length requestId)%nat
               || (kind =? NODE_COMMAND_KIND_UNSPECIFIED)
            then inl (Plain "controller command acknowledgement is invalid") else inr [])
  end.
End client.

(** [Run]: the delay before the next attempt, doubled up to half a minute. *)
Definition next_delay (delay : Z) : Z :=
  if (delay <? 30 * Second)%Z then Z.min (delay * 2) (30 * Second)%Z else delay.

(** [fatalSessionError]: the codes that end the Agent's process; other errors,
    those without a code among them, are tried again. *)
Definition fatalSessionError (code : option status_code) : bool :=
  match code with
  | Some (InvalidArgument | Unauthenticated | PermissionDenied | FailedPrecondition | DataLoss) => true
  | _ => false
  end.
