(* ===== verification/ControlLoop.v ===== *)
(** The Controller and one Agent together: everything the two ends of a node's
    control stream do, with the messages in flight between them, connections
    that break and are made again, and whatever else happens at both ends in
    between. What the Controller sends fits what the Agent has, and what the
    Agent reports fits the Controller's ledger. *)
From S2P Require Import Prelude.
From S2P Require Import GoNet.
From S2P Require Import SpecTypes.
From S2P Require Import SpecCanonical.
From S2P Require Import SpecValidate.
From S2P Require Import SpecFacts.
From S2P Require Import SpecChecksum.
From S2P Require Import SpecTheorems.
From S2P Require Import SpecAccepted.
From S2P Require Import Hostname.
From S2P Require Import Health.
From S2P Require Import Meter.
From S2P Require Import Capabilities.
From S2P Require Import Iam.
From S2P Require Import ClusterTypes.
From S2P Require Import Scheduler.
From S2P Require Import ClusterCompile.
From S2P Require Import Rollout.
From S2P Require Import ControlDb.
From S2P Require Import ControlNodes.
From S2P Require Import ControlPublish.
From S2P Require Import ControlRollout.
From S2P Require Import ControlStore.
From S2P Require Import ControlSchedule.
From S2P Require Import ControlEnforce.
From S2P Require Import ControlFacts.
From S2P Require Import ControlLedger.
From S2P Require Import ControlOps.
From S2P Require Import ControlHistory.
From S2P Require Import ControlAcks.
From S2P Require Import ControlWire.
From S2P Require Import ControlCommands.
From S2P Require Import ControlServer.
From S2P Require Import AgentStore.
From S2P Require Import Reconciler.
From S2P Require Import ReconcilerFacts.
From S2P Require Import ReconcilerSafety.
From S2P Require Import AgentClient.

#[local] Opaque Checksum Canonical.

(** * What an Agent keeps *)

(** The state and checksum of a snapshot, and the usage batches, of a record. *)
Section kept.
Context (good : DesiredState → string → Prop) (usable : string → N → Prop).
Hypothesis good_canonical : ∀ d c, good d c → Canonical d = d.
Hypothesis good_usable : ∀ d c, good d c → usable (ds_NodeID d) (ds_Generation d).

Definition kept_snapshot (s : Snapshot) : Prop := good (sn_Desired s) (sn_Checksum s).
Definition kept_batch (b : Meter.Usage.Batch) : Prop :=
  usable (Meter.Usage.ub_NodeID b) (Meter.Usage.ub_Generation b).

Record kept (r : StateRecord) : Prop := {
  kp_snapshots s : sr_Pending r = Some s ∨ sr_Applied r = Some s → kept_snapshot s;
  kp_batches b : b ∈ sr_UsageOutbox r → kept_batch b;
}.

Lemma kept_copy s target : same_state s target → kept_snapshot target → kept_snapshot (snapshotCopy s).
Proof.
  intros [Hd Hc] Ht. unfold kept_snapshot in *. cbn. rewrite Hd, Hc.
  by rewrite (good_canonical _ _ Ht).
Qed.

Lemma kept_accounts r m o b : kept r → accounts r m o → b ∈ o → kept_batch b.
Proof.
  intros [H1 H2] Ha Hb. destruct Ha as [|applied program bindings raw now r' Happ Hacc]; [by apply H2|].
  assert (kept_snapshot applied) as Hs by (apply H1; auto). revert Hacc. unfold account.
  repeat (case_match; try done); intros; simplify_eq; cbn in Hb; try (by apply H2);
    (apply elem_of_app in Hb as [Hb| ->%list_elem_of_singleton]; [by apply H2|]);
    unfold kept_batch; cbn; by eapply good_usable.
Qed.

Lemma kept_invariant : invariant (λ _ _, True) kept_snapshot kept.
Proof.
  split.
  - intros r s _ [H1 _]. apply H1.
  - intros r r' Hc [H1 H2]. split.
    + rewrite <- (same_content_pending _ _ Hc), <- (same_content_applied _ _ Hc). exact H1.
    + destruct r, r'. injection Hc as -> -> -> ->. exact H2.
  - intros r m o _ Hr Ha. split; [apply Hr|]. intros b. by apply (kept_accounts r m o).
  - intros r m o s target _ Hr Ha _ Ht Hs. split; cbn.
    + intros s' [[= <-]|Hs']; [by eapply kept_copy|]. apply (kp_snapshots r Hr). by right.
    + intros b. by apply (kept_accounts r m o).
  - intros r m o s target _ Hr Ha _ Ht Hs. split; cbn.
    + intros s' [?|[= <-]]; [done|]. by eapply kept_copy.
    + intros b. by apply (kept_accounts r m o).
  - intros r e q i b _ [H1 H2] _ _. split; [exact H1|]. cbn. intros b' Hb'. apply H2.
    rewrite <- (take_drop (S i) (sr_UsageOutbox r)). apply elem_of_app. by right.
Qed.
End kept.

(** * The link *)

(** Running an operation of the Agent, and a handler of the Controller that
    starts with nothing sent. *)
Definition exec {W A} (m : M W A) (w : W) : W * A := let '(st, a) := m (w, []) in (st.1, a).
Definition serving {A} (m : Srv A) (c : conn) : conn * (status_error + A) :=
  m (MkConn (cn_db c) (cn_broker c) (cn_state c) []).

(** The Controller's connection and whether it is open, the Agent's world, and
    the messages in flight in both directions. *)
Record link (W : Type) := MkLink {
  lk_conn : conn;
  lk_live : bool;
  lk_world : W;
  lk_down : list ControllerEvent;
  lk_up : list AgentEvent;
}.
Arguments MkLink {_} _ _ _ _ _.
Arguments lk_conn {_} _.
Arguments lk_live {_} _.
Arguments lk_world {_} _.
Arguments lk_down {_} _.
Arguments lk_up {_} _.

Definition succeeded {A B} (r : A + B) : bool := match r with inl _ => false | inr _ => true end.

(** What the Agent says without being asked, other than its reports. *)
Definition aside (e : AgentEvent) : bool :=
  match e with AgentEvent_ApplyResult _ | AgentEvent_UsageBatch _ => false | _ => true end.

Section link.
Context {idna : Idna} {mapRange : MapRange} {stateRange : StateRange} {stringRange : StringRange}.
Context {W : Type} (E : Env W) (stored : W → StateRecord) (server : ServerConfig) (config : Config).
Abbreviation node := (cf_NodeID config).

Definition with_db (db : Db) (c : conn) : conn := MkConn db (cn_broker c) (cn_state c) (cn_sent c).
Definition with_broker (b : CommandBroker) (c : conn) : conn :=
  MkConn (cn_db c) b (cn_state c) (cn_sent c).

(** The link after a handler. *)
Definition served {A} (l : link W) (r : conn * (status_error + A)) (up : list AgentEvent) : link W :=
  MkLink r.1 (lk_live l && succeeded r.2) (lk_world l) (lk_down l ++ cn_sent r.1) up.

Definition failure {A B} (r : A + B) : option A := match r with inl e => Some e | inr _ => None end.

(** One step of the two ends, and the error the Controller's handler ended
    with. *)
Inductive link_step (l : link W) : option status_error → link W → Prop :=
  | ls_store op :
      (** any operation on the store: the owner, other nodes, the worker *)
      link_step l None
        (MkLink (with_db (transact (perform op) (cn_db (lk_conn l))).1 (lk_conn l))
           (lk_live l) (lk_world l) (lk_down l) (lk_up l))
  | ls_broker b :
      (** any use of the command broker *)
      link_step l None
        (MkLink (with_broker b (lk_conn l)) (lk_live l) (lk_world l) (lk_down l) (lk_up l))
  | ls_local op :
      (** any operation of the reconciler but applying a state: maintenance,
          recovery after a restart, an uninstall *)
      (∀ d, op ≠ OpApply d) →
      link_step l None
        (MkLink (lk_conn l) (lk_live l) (exec (run E op) (lk_world l)).1 (lk_down l) (lk_up l))
  | ls_reset w :
      (** the Agent starts over with an empty store *)
      stored w = EmptyStateRecord → link_step l None (MkLink (lk_conn l) false w [] [])
  | ls_report now result :
      (** the report on a local change *)
      link_step l None
        (let '(w, events) := exec (report_local E config now result) (lk_world l) in
         MkLink (lk_conn l) (lk_live l) w (lk_down l) (lk_up l ++ events))
  | ls_usage :
      (** the usage outbox is sent *)
      link_step l None
        (let '(w, batches) := exec (PendingUsage E) (lk_world l) in
         MkLink (lk_conn l) (lk_live l) w (lk_down l)
           (lk_up l ++ match batches with inr b => sendUsage b | inl _ => [] end))
  | ls_aside e :
      aside e = true →
      link_step l None
        (MkLink (lk_conn l) (lk_live l) (lk_world l) (lk_down l) (lk_up l ++ [e]))
  | ls_serve now key e :
      (** the select loop of the Controller, other than a receive *)
      lk_live l = true → (∀ event, e ≠ SvReceived event) →
      let r := serving (serve server node now key e) (lk_conn l) in
      link_step l (failure r.2) (served l r (lk_up l))
  | ls_receive now key e rest :
      lk_live l = true → lk_up l = e :: rest →
      let r := serving (serve server node now key (SvReceived (Some e))) (lk_conn l) in
      link_step l (failure r.2) (served l r rest)
  | ls_deliver now uninstalling e rest :
      lk_down l = e :: rest →
      link_step l None
        (let '(w, r) := exec (handleControllerEvent E config now uninstalling e) (lk_world l) in
         match r with
         | inr events => MkLink (lk_conn l) (lk_live l) w rest (lk_up l ++ events)
         | inl _ => MkLink (lk_conn l) false w [] []
         end)
  | ls_greet_fails now nonce reports w e :
      exec (greeting E config now nonce reports) (lk_world l) = (w, inl e) →
      link_step l None (MkLink (lk_conn l) false w [] [])
  | ls_connect now now' nonce reports key w hello events :
      (** a new stream takes the place of the old one *)
      exec (greeting E config now nonce reports) (lk_world l) = (w, inr (hello :: events)) →
      let r := serving (Connect (Some (node, key)) (Some hello) now') (lk_conn l) in
      link_step l (failure r.2) (MkLink r.1 (succeeded r.2) w (cn_sent r.1) events).

(** A delivery that goes on *)
Lemma deliver_step l now uninstalling e rest w events :
  lk_down l = e :: rest →
  exec (handleControllerEvent E config now uninstalling e) (lk_world l) = (w, inr events) →
  link_step l None (MkLink (lk_conn l) (lk_live l) w rest (lk_up l ++ events)).
Proof. intros Hd He. pose proof (ls_deliver l now uninstalling e rest Hd) as Hs. by rewrite He in Hs. Qed.

(** The start: whatever the store has been through, nothing at the Agent. *)
Record link_start (l : link W) : Prop := {
  ln_db : ∃ ops, cn_db (lk_conn l) = runs ops DbEmpty;
  ln_live : lk_live l = false;
  ln_down : lk_down l = [];
  ln_up : lk_up l = [];
  ln_stored : stored (lk_world l) = EmptyStateRecord;
}.
Definition reachable (l : link W) : Prop :=
  ∃ l0, link_start l0 ∧ rtc (λ l l', ∃ o, link_step l o l') l0 l.

(** * The invariant of the link *)

(** The states and generations of the ledger of this node. *)
Definition good (db : Db) (d : DesiredState) (c : string) : Prop :=
  ∃ row, db_generations db !! (node, ds_Generation d) = Some row
         ∧ gn_desired_state row = d ∧ gn_desired_checksum row = c.
Definition usable (db : Db) (nodeID : string) (generation : N) : Prop :=
  nodeID = node ∧ is_Some (db_generations db !! (node, generation)).

Definition snapshot_fits (db : Db) (m : DesiredSnapshot) : Prop :=
  good db (dm_DesiredStateJson m) (dm_DesiredChecksum m)
  ∧ dm_ProtocolVersion m = ProtocolVersion ∧ dm_NodeId m = node
  ∧ dm_Generation m = ds_Generation (dm_DesiredStateJson m)
  ∧ dm_SchemaVersion m = ds_SchemaVersion (dm_DesiredStateJson m)
  ∧ ValidateCapabilities (dm_RequiredCapabilities m) = None
  ∧ MissingCapabilities (cf_Capabilities config) (dm_RequiredCapabilities m) = [].

Definition event_fits (db : Db) (e : ControllerEvent) : Prop :=
  match e with
  | ControllerEvent_Snapshot (Some m) => snapshot_fits db m
  | ControllerEvent_Snapshot None => False
  | _ => True
  end.

Definition down_generation (e : ControllerEvent) : option N :=
  match e with ControllerEvent_Snapshot (Some m) => Some (dm_Generation m) | _ => None end.

Definition report_fits (db : Db) (e : AgentEvent) : Prop :=
  match e with
  | AgentEvent_ApplyResult (Some r) => known db node (am_Generation r) (am_DesiredChecksum r)
  | AgentEvent_UsageBatch (Some m) => is_Some (db_generations db !! (node, bm_Generation m))
  | _ => True
  end.

Definition state_fits (db : Db) (s : connectionState) : Prop :=
  (cs_appliedGeneration s = 0 ∨ known db node (cs_appliedGeneration s) (cs_appliedChecksum s))
  ∧ cs_supported s = cf_Capabilities config.

(** What an Agent keeps is of the ledger, and not ahead of what is under way. *)
Definition behind (db : Db) (down : list ControllerEvent) (d : DesiredState) (c : string) : Prop :=
  good db d c ∧ ∀ g, g ∈ omap down_generation down → ds_Generation d ≤ g.

Context `{!StoreLaws E stored}.

Definition agent_fits (db : Db) (down : list ControllerEvent) (w : W) : Prop :=
  sound (kept (behind db down) (usable db)) (stored w).

Record fits (l : link W) : Prop := {
  ft_ledger : ledger (db_nodes (cn_db (lk_conn l))) (db_generations (cn_db (lk_conn l)));
  ft_agent : agent_fits (cn_db (lk_conn l)) (lk_down l) (lk_world l);
  ft_down e : e ∈ lk_down l → event_fits (cn_db (lk_conn l)) e;
  ft_sorted : StronglySorted N.le (omap down_generation (lk_down l));
  ft_up e : e ∈ lk_up l → report_fits (cn_db (lk_conn l)) e;
  ft_state : lk_live l = true → state_fits (cn_db (lk_conn l)) (cn_state (lk_conn l));
}.

(** ** The ledger grows *)
Section grows.
Context (db0 db : Db) (B : book db0 db).

Lemma grows_row k r :
  db_generations db0 !! k = Some r → ∃ r', db_generations db !! k = Some r' ∧ same_generation r r'.
Proof using B. destruct B as [_ X]. apply (ex_generations _ _ _ _ X). Qed.

Lemma grows_known g c : known db0 node g c → known db node g c.
Proof using B. intros (r & (r' & Hr' & (_ & Hc & _))%grows_row & <-). by exists r'. Qed.
Lemma grows_usable n g : usable db0 n g → usable db n g.
Proof using B. intros [-> [r (r' & Hr' & _)%grows_row]]. split; [done|eauto]. Qed.
Lemma grows_good d c : good db0 d c → good db d c.
Proof using B. intros (r & (r' & Hr' & (_ & Hc & Hd & _))%grows_row & <- & <-). by exists r'. Qed.
Lemma grows_event e : event_fits db0 e → event_fits db e.
Proof using B. destruct e as [[m|]| | | | |]; try done. intros [Hg Hm]. split; [by apply grows_good|done]. Qed.
Lemma grows_report e : report_fits db0 e → report_fits db e.
Proof using B.
  destruct e as [|[r|]| |[m|]| | |]; try done; cbn; [apply grows_known|].
  intros [r (r' & Hr' & _)%grows_row]. eauto.
Qed.
Lemma grows_state s : state_fits db0 s → state_fits db s.
Proof using B. intros [[Ha|Ha%grows_known] Hs]; split; auto. Qed.
Lemma grows_agent down w : agent_fits db0 down w → agent_fits db down w.
Proof using B.
  intros [Hv [H1 H2]]. split; [done|]. split.
  - intros s [Hg Hd]%H1. split; [by apply grows_good|done].
  - intros b Hb%H2. by apply grows_usable.
Qed.
End grows.

(** A state of the ledger *)
Lemma good_inv db d c :
  ledger (db_nodes db) (db_generations db) → good db d c →
  published_as node (ds_Generation d) (MkGenerationRow (ds_SchemaVersion d) c d (RequiredCapabilities d) "" 0%Z None)
  ∧ ∃ n, db_nodes db !! node = Some n ∧ 1 ≤ ds_Generation d ≤ nd_desired_generation n.
Proof.
  intros HL (row & Hrow & <- & <-). destruct (lg_published _ _ HL _ _ _ Hrow). split.
  - by split.
  - by apply (lg_owned _ _ HL _ _ row).
Qed.

Lemma good_canonical db down d c :
  ledger (db_nodes db) (db_generations db) → behind db down d c → Canonical d = d.
Proof. intros HL [Hg _]. destruct (good_inv db d c HL Hg) as [[] _]. done. Qed.

Lemma good_usable db down d c :
  ledger (db_nodes db) (db_generations db) → behind db down d c →
  usable db (ds_NodeID d) (ds_Generation d).
Proof.
  intros HL [Hg _]. destruct (good_inv db d c HL Hg) as [[_ _ Hn _ _ _ _] _]. split; [done|].
  destruct Hg as (row & ? & _). eauto.
Qed.

Lemma good_unique db d d' c c' :
  good db d c → good db d' c' → ds_Generation d = ds_Generation d' → d = d' ∧ c = c'.
Proof. intros (r & Hr & <- & <-) (r' & Hr' & <- & <-) Hg. rewrite Hg in Hr. by simplify_eq. Qed.

(** ** The Agent's side *)
Section agent.
Context (db : Db) (HL : ledger (db_nodes db) (db_generations db)).
Abbreviation J down := (kept (behind db down) (usable db)).

Lemma agent_invariant down :
  invariant (λ _ _, True) (kept_snapshot (behind db down)) (J down).
Proof using HL.
  apply kept_invariant; intros d c Hd; [by eapply good_canonical|by eapply good_usable].
Qed.

(** What holds of the answer of an operation run from a fitting world. *)
Lemma exec_triple {A} down (m : M W A) w (Q : A → Prop) :
  triple (λ st, sound (J down) (stored st.1)) m (λ a st, sound (J down) (stored st.1) ∧ Q a) →
  agent_fits db down w → agent_fits db down (exec m w).1 ∧ Q (exec m w).2.
Proof. intros Hm Hw. specialize (Hm (w, []) Hw). unfold exec. by destruct (m (w, [])) as [[w' tr] a]. Qed.

Lemma exec_keeps {A} down (m : M W A) w :
  keeps (λ st, sound (J down) (stored st.1)) m → agent_fits db down w → agent_fits db down (exec m w).1.
Proof.
  intros Hm Hw. apply (exec_triple down m w (λ _, True)); [|done]. by apply keeps_post.
Qed.

Lemma local_fits down op w :
  (∀ d, op ≠ OpApply d) → agent_fits db down w → agent_fits db down (exec (run E op) w).1.
Proof using HL StoreLaws0.
  intros Hop. apply exec_keeps, (run_sound E stored _ _ _ (agent_invariant down)); [done|].
  intros d ->. by destruct (Hop d).
Qed.

Lemma load_fits down :
  triple (λ st, sound (J down) (stored st.1)) (load E)
    (λ a st, sound (J down) (stored st.1) ∧ ∀ r, a = inr r → sound (J down) r).
Proof using HL StoreLaws0. apply (load_sound E stored _ _ _ (agent_invariant down)). Qed.

Lemma applied_known down r s :
  sound (J down) r → sr_Applied r = Some s → known db node (generation_of s) (sn_Checksum s).
Proof.
  intros [_ [H1 _]] Hs. destruct (H1 s (or_intror Hs)) as [(row & ? & _ & ?) _]. by exists row.
Qed.

Lemma applied_node down r s : sound (J down) r → sr_Applied r = Some s → node_of s = node.
Proof using HL.
  intros [_ [H1 _]] Hs. destruct (H1 s (or_intror Hs)) as [Hg _].
  by destruct (good_inv _ _ _ HL Hg) as [[_ _ ? _ _ _ _] _].
Qed.

(** Batches that are sent *)
Lemma usage_fits batches e :
  (∀ b, b ∈ batches → kept_batch (usable db) b) → e ∈ sendUsage batches → report_fits db e.
Proof.
  intros Hb He. apply list_elem_of_fmap in He as (b & -> & [_ Hu]%Hb). exact Hu.
Qed.

Lemma pending_fits down :
  triple (λ st, sound (J down) (stored st.1)) (PendingUsage E)
    (λ a st, sound (J down) (stored st.1) ∧ ∀ bs, a = inr bs → ∀ b, b ∈ bs → kept_batch (usable db) b).
Proof using HL StoreLaws0.
  unfold PendingUsage. eapply triple_bind; [apply load_fits|].
  intros r. apply triple_ret. intros st [Hst Hr]. split; [done|].
  destruct r as [|r]; [done|]. intros bs [= <-] b. unfold cloneUsageBatches.
  rewrite elem_of_sort_slice. apply (Hr r eq_refl).
Qed.

Lemma report_local_fits down now result :
  triple (λ st, sound (J down) (stored st.1)) (report_local E config now result)
    (λ a st, sound (J down) (stored st.1) ∧ ∀ e, e ∈ a → report_fits db e).
Proof using HL StoreLaws0.
  unfold report_local, resultIsCurrent.
  eapply (triple_bind _ (λ a st, sound (J down) (stored st.1)
            ∧ (a = inr true → known db node (rs_Generation result) (rs_Checksum result)))).
  - eapply triple_bind; [apply load_fits|]. intros r. apply triple_ret. intros st [Hst Hr].
    split; [done|]. destruct r as [|r]; [done|]. destruct (sr_Applied r) as [s|] eqn:Hs; [|done].
    intros [= Hc]. reflect_bool. pose proof (applied_known _ _ _ (Hr r eq_refl) Hs) as Hk. congruence.
  - intros [|[]]; apply triple_ret; intros st [Hst Hr]; (split; [done|]).
    + by intros x ?%not_elem_of_nil.
    + intros x ->%list_elem_of_singleton. by apply Hr.
    + by intros x ?%not_elem_of_nil.
Qed.

(** The greeting: a hello that says what is applied, and reports that fit. *)
Definition honest_hello (e : AgentEvent) : Prop :=
  ∃ hello, e = AgentEvent_Hello (Some hello) ∧ ah_Capabilities hello = cf_Capabilities config
    ∧ (ah_AppliedGeneration hello = 0
       ∨ known db node (ah_AppliedGeneration hello) (ah_AppliedDesiredChecksum hello)).

Lemma greeting_fits down now nonce reports :
  triple (λ st, sound (J down) (stored st.1)) (greeting E config now nonce reports)
    (λ a st, sound (J down) (stored st.1)
       ∧ match a with
         | inr (hello :: events) => honest_hello hello ∧ ∀ e, e ∈ events → report_fits db e
         | _ => True
         end).
Proof using HL StoreLaws0.
  unfold greeting, buildHello.
  eapply (triple_bind _ (λ a st, sound (J down) (stored st.1)
    ∧ ∀ h r, a = inr (h, r) → honest_hello (AgentEvent_Hello (Some h))
             ∧ ∀ r', r = Some r' → report_fits db (AgentEvent_ApplyResult (Some r')))).
  - eapply triple_bind; [apply load_fits|]. intros r. apply triple_ret. intros st [Hst Hr].
    split; [done|]. destruct r as [|r]; [done|]. specialize (Hr r eq_refl).
    destruct (sr_Applied r) as [s|] eqn:Hs.
    + pose proof (applied_known _ _ _ Hr Hs) as Hk. case_bool_decide; [|done]. intros h q [= <- <-]. split.
      * eexists. split; [done|]. split; [done|]. right. cbn. rewrite Hs. exact Hk.
      * intros q' [= <-]. exact Hk.
    + intros h q [= <- <-]. split; [|done]. eexists. split; [done|]. split; [done|]. left. cbn. by rewrite Hs.
  - intros [e|[h q]]; [by apply triple_ret; intros st [? _]|].
    eapply (triple_bind _ (λ a st, (sound (J down) (stored st.1)
        ∧ ∀ bs, a = inr bs → ∀ b, b ∈ bs → kept_batch (usable db) b)
        ∧ (honest_hello (AgentEvent_Hello (Some h))
           ∧ ∀ r', q = Some r' → report_fits db (AgentEvent_ApplyResult (Some r'))))).
    + intros st [Hst Hh]. split; [by apply pending_fits|by apply Hh].
    + intros [e|bs]; apply triple_ret; intros st [[Hst Hb] [Hh Hq]]; (split; [done|]); [done|].
      cbn. split; [done|]. intros e. rewrite !elem_of_app. intros [He|[He|He]].
      * destruct q as [r|]; [|by apply not_elem_of_nil in He].
        apply list_elem_of_singleton in He as ->. by apply Hq.
      * eapply usage_fits; [by apply Hb|done].
      * apply list_elem_of_fmap in He as (r & -> & _). done.
Qed.

(** ** A delivery *)

(** The checks of the Agent let a fitting snapshot pass, up to the codec's limit
    on the size. *)
Lemma snapshot_passes now m :
  snapshot_fits db m → encoded_size (dm_DesiredStateJson m) ≤ MaxDesiredJSONBytes →
  check_snapshot config now m = inr (dm_DesiredStateJson m, dm_DesiredChecksum m).
Proof using HL.
  intros (Hg & Hp & Hn & Hgen & Hs & Hv & Hm) Hsize.
  destruct (good_inv _ _ _ HL Hg) as [[Hval Hcan Hid _ _ Hsum _] (n & _ & Hb)]. cbn in *.
  unfold check_snapshot. rewrite Hp, Hn, Hgen, Hs, Hv, Hm, N.eqb_refl.
  rewrite !bool_decide_eq_true_2 by done.
  assert (SupportedSchemaVersion (ds_SchemaVersion (dm_DesiredStateJson m)) = true) as ->.
  { apply Valid_header, validate_header_iff in Hval. by destruct Hval. }
  destruct (ds_Generation (dm_DesiredStateJson m) =? 0) eqn:H0; [reflect_bool; lia|]. cbn.
  rewrite (proj2 (Checksum_canonical_valid _) _ Hsum). cbn.
  unfold DecodeDesiredJSON. destruct (MaxDesiredJSONBytes <? _) eqn:Hlt; [reflect_bool; lia|].
  unfold Valid in Hval. rewrite Hval, Hcan, Hid, !N.eqb_refl, bool_decide_eq_true_2 by done. cbn.
  by rewrite Hsum, bool_decide_eq_true_2.
Qed.

Lemma check_snapshot_inv now m d c :
  snapshot_fits db m → check_snapshot config now m = inr (d, c) →
  d = dm_DesiredStateJson m ∧ c = dm_DesiredChecksum m.
Proof using HL.
  intros (Hg & _). destruct (good_inv _ _ _ HL Hg) as [[_ Hcan _ _ _ _ _] _]. cbn in Hcan.
  unfold check_snapshot, DecodeDesiredJSON. rewrite Hcan.
  repeat (case_match; try done); intros; simplify_eq; reflect_bool; done.
Qed.

Lemma check_snapshot_refused now m r :
  check_snapshot config now m = inl r →
  am_Generation r = dm_Generation m ∧ am_DesiredChecksum r = dm_DesiredChecksum m.
Proof.
  unfold check_snapshot. repeat (case_match; try done); intros; simplify_eq; done.
Qed.

(** What an Agent keeps does not stand in the way of a later generation. *)
Lemma incoming_fits down r d c :
  sound (J down) r → good db d c → ds_Generation d ∈ omap down_generation down →
  validateIncomingGeneration r (ds_NodeID d) (ds_Generation d) c = None.
Proof using HL.
  intros [_ [H1 _]] Hg Hin.
  destruct (good_inv _ _ _ HL Hg) as [[_ _ Hn _ _ _ _] _]. cbn in Hn.
  assert (∀ s, sr_Pending r = Some s ∨ sr_Applied r = Some s →
    node_of s = node ∧ generation_of s ≤ ds_Generation d
    ∧ (ds_Generation d = generation_of s → c = sn_Checksum s)) as Hs.
  { intros s Hs. destruct (H1 s Hs) as [Hgs Hb].
    destruct (good_inv _ _ _ HL Hgs) as [[_ _ Hns _ _ _ _] _]. split_and!; [done|by apply Hb|].
    intros Heq. by destruct (good_unique _ _ _ _ _ Hg Hgs Heq) as [_ ?]. }
  clear H1. unfold validateIncomingGeneration.
  assert (∀ what s, sr_Pending r = Some s ∨ sr_Applied r = Some s →
    (if ds_Generation d <? generation_of s
     then Some (Wrap ("received generation is before the " +:+ what +:+ " one") (Sentinel ErrStaleGeneration))
     else if (ds_Generation d =? generation_of s) && negb (bool_decide (c = sn_Checksum s))
     then Some (Wrap ("generation is " +:+ what) (Sentinel ErrGenerationConflict)) else None) = None) as Hno.
  { intros what s Hw. destruct (Hs s Hw) as (_ & Hle & Hc). apply N.ltb_ge in Hle. rewrite Hle.
    destruct (ds_Generation d =? generation_of s) eqn:He; [|done]. reflect_bool.
    by rewrite bool_decide_eq_true_2 by auto. }
  destruct (sr_Applied r) as [a|], (sr_Pending r) as [p|].
  - destruct (Hs a) as (-> & _); [by right|]. rewrite Hn, (bool_decide_eq_true_2 (node = node)), andb_false_r by done.
    rewrite Hno by auto. apply Hno. auto.
  - destruct (Hs a) as (-> & _); [by right|]. rewrite Hn, (bool_decide_eq_true_2 (node = node)), andb_false_r by done.
    by rewrite Hno by auto.
  - destruct (Hs p) as (-> & _); [by left|]. rewrite Hn, (bool_decide_eq_true_2 (node = node)), andb_false_r by done.
    apply Hno. auto.
  - done.
Qed.

Lemma agent_rest e rest w : agent_fits db (e :: rest) w → agent_fits db rest w.
Proof.
  intros [Hv [H1 H2]]. split; [done|]. split; [|done]. intros s Hs. destruct (H1 s Hs) as [Hg Hb].
  split; [done|]. intros g Hin. apply Hb. cbn. destruct (down_generation e); [by right|done].
Qed.

Definition answer_fits {B} (r : B + list AgentEvent) : Prop :=
  match r with inr events => ∀ e, e ∈ events → report_fits db e | inl _ => True end.

Lemma answers {B} down (r : B + list AgentEvent) :
  answer_fits r →
  triple (λ st, sound (J down) (stored st.1)) (mret r : M W _)
    (λ a st, sound (J down) (stored st.1) ∧ answer_fits a).
Proof. intros Hr. by apply triple_ret. Qed.

Lemma answer_none : answer_fits (B := error) (inr []).
Proof. intros e He. by apply not_elem_of_nil in He. Qed.
Lemma answer_one e : report_fits db e → answer_fits (B := error) (inr [e]).
Proof. by intros He e' ->%list_elem_of_singleton. Qed.

Lemma snapshot_delivered rest now uninstalling snapshot :
  event_fits db (ControllerEvent_Snapshot snapshot) →
  StronglySorted N.le (omap down_generation (ControllerEvent_Snapshot snapshot :: rest)) →
  triple (λ st, sound (J rest) (stored st.1))
    (handleControllerEvent E config now uninstalling (ControllerEvent_Snapshot snapshot))
    (λ a st, sound (J rest) (stored st.1) ∧ answer_fits a).
Proof using HL StoreLaws0.
  intros He Hsort. destruct snapshot as [m|]; [|done].
  assert (known db node (dm_Generation m) (dm_DesiredChecksum m)) as Hk.
  { destruct He as ((row & Hrow & _ & Hc) & _ & _ & -> & _). by exists row. }
  unfold handleControllerEvent. destruct uninstalling; [by apply answers, answer_one|].
  eapply (triple_bind _ (λ a st, sound (J rest) (stored st.1) ∧ report_fits db (AgentEvent_ApplyResult (Some a))));
    [|intros r; apply triple_ret; intros st [? ?]; split; [done|by apply answer_one]].
  unfold applySnapshot. destruct (check_snapshot config now m) as [r|[d c]] eqn:Hchk.
  { apply check_snapshot_refused in Hchk as [Hc1 Hc2]. apply triple_ret. intros st Hst.
    split; [done|]. cbn. by rewrite Hc1, Hc2. }
  apply check_snapshot_inv in Hchk as [-> ->]; [|done].
  eapply triple_bind.
  - apply (Apply_sound E stored _ _ _ (agent_invariant rest)). intros c now' Hval Hc.
    pose proof He as (Hg & _ & _ & Hgen & _). destruct (good_inv _ _ _ HL Hg) as [[_ Hcan _ _ _ Hsum _] _].
    cbn in Hcan, Hsum. rewrite Hcan in Hc. rewrite Hsum in Hc. injection Hc as <-.
    unfold kept_snapshot. cbn [sn_Desired sn_Checksum]. rewrite Hcan. split; [done|].
    intros g Hin. cbn in Hsort. inv Hsort. rewrite Forall_forall in H2. rewrite <- Hgen. by apply H2.
  - intros [r [er|]]; apply triple_ret; intros st Hst; (split; [done|]); cbn; [|done].
    by destruct (classifyApplyError er).
Qed.

Lemma delivery_fits now uninstalling e rest w :
  event_fits db e → StronglySorted N.le (omap down_generation (e :: rest)) → agent_fits db (e :: rest) w →
  agent_fits db rest (exec (handleControllerEvent E config now uninstalling e) w).1
  ∧ answer_fits (exec (handleControllerEvent E config now uninstalling e) w).2.
Proof using HL StoreLaws0.
  intros He Hsort Hw%agent_rest. apply (exec_triple rest _ w answer_fits); [|done].
  destruct e as [m| | |epoch sequence| |]; [by apply snapshot_delivered|cbn [handleControllerEvent]..].
  - by apply answers, answer_one.
  - by apply answers.
  - case_match; [by apply answers|].
    eapply triple_bind; [by apply (AckUsage_sound E stored _ _ _ (agent_invariant rest))|].
    intros [er|]; apply triple_ret; intros st Hst; (split; [done|]); [done|apply answer_none].
  - apply answers. case_match; [done|apply answer_none].
  - apply answers. case_match; [done|apply answer_none].
Qed.
End agent.

(** ** The Controller's side *)
Definition plain (e : ControllerEvent) : Prop :=
  match e with ControllerEvent_Snapshot _ => False | _ => True end.

(** What a handler may have sent: nothing older than the desired generation. *)
Record sent_fits (db : Db) (l : list ControllerEvent) : Prop := {
  se_fit e : e ∈ l → event_fits db e;
  se_sorted : StronglySorted N.le (omap down_generation l);
  se_latest g n :
    g ∈ omap down_generation l → db_nodes db !! node = Some n → nd_desired_generation n ≤ g;
}.

Lemma plain_event db e : plain e → event_fits db e.
Proof. by destruct e. Qed.
Lemma plain_generation l : Forall plain l → omap down_generation l = [].
Proof. induction 1 as [|e l He _ IH]; [done|]. cbn. by destruct e. Qed.
Lemma plain_sent db l : Forall plain l → sent_fits db l.
Proof.
  intros Hl. split; rewrite ?plain_generation by done; [|constructor|].
  - intros e He. apply plain_event. rewrite Forall_forall in Hl. auto.
  - intros g n Hg. by apply not_elem_of_nil in Hg.
Qed.

Section controller.
Context (db0 : Db).

Definition fresh (c : conn) : Prop :=
  book db0 (cn_db c) ∧ state_fits db0 (cn_state c) ∧ Forall plain (cn_sent c).
Definition settled (c : conn) : Prop := book db0 (cn_db c) ∧ sent_fits (cn_db c) (cn_sent c).
Definition done_with (c : conn) : Prop := settled c ∧ state_fits db0 (cn_state c).

(** No loss of data is reported, and what is sent on the way out fits. *)
Definition srv {A} (P : conn → Prop) (m : Srv A) (Q : A → conn → Prop) : Prop :=
  ∀ c, P c → match m c with
             | (c', inl e) => settled c' ∧ st_code e ≠ DataLoss
             | (c', inr a) => Q a c'
             end.

Lemma srv_post {A} P (m : Srv A) (Q Q' : A → conn → Prop) :
  srv P m Q → (∀ a c, Q a c → Q' a c) → srv P m Q'.
Proof. intros Hm HQ c Hc. specialize (Hm c Hc). destruct (m c) as [c' [e|a]]; auto. Qed.
Lemma srv_ret {A} P (a : A) (Q : A → conn → Prop) : (∀ c, P c → Q a c) → srv P (mret a) Q.
Proof. intros H c. apply H. Qed.
Lemma srv_bind {A B} P (m : Srv A) (R : A → conn → Prop) (f : A → Srv B) Q :
  srv P m R → (∀ a, srv (R a) (f a) Q) → srv P (m ≫= f) Q.
Proof.
  intros Hm Hf c Hc. specialize (Hm c Hc). unfold mbind, Srv_bind.
  destruct (m c) as [c' [e|a]]; [done|]. by apply Hf.
Qed.

Lemma fresh_done c : fresh c → done_with c.
Proof. intros (Hb & Hs & Hp). split; [split; [done|by apply plain_sent]|done]. Qed.

Lemma srv_reject {A} code message (Q : A → conn → Prop) :
  code ≠ DataLoss → srv fresh (reject code message) Q.
Proof. intros Hcode c Hc%fresh_done. split; [apply Hc|done]. Qed.
Lemma srv_demand cond code message (Q : conn → Prop) :
  code ≠ DataLoss → (∀ c, fresh c → cond = true → Q c) → srv fresh (demand cond code message) (λ _, Q).
Proof. intros Hcode HQ. unfold demand. destruct cond; [apply srv_ret; auto|by apply srv_reject]. Qed.
Lemma srv_send e : plain e → srv fresh (send e) (λ _, fresh).
Proof.
  intros He c (Hb & Hs & Hp). split_and!; [done..|]. cbn. apply Forall_app. split; [done|by repeat constructor].
Qed.
Lemma srv_update f :
  (∀ s, state_fits db0 s → state_fits db0 (f s)) → srv fresh (update f) (λ _, fresh).
Proof. intros Hf c (Hb & Hs & Hp). split_and!; [done|by apply Hf|done]. Qed.
Lemma srv_commands {A} (f : CommandBroker → CommandBroker * A) : srv fresh (commands f) (λ _, fresh).
Proof. intros c Hc. unfold commands. by destruct (f (cn_broker c)). Qed.

(** A call of the repository keeps the ledger, and answers as [ok] says. *)
Lemma transact_book {A} (m : Tx A) db :
  tx_keeps (book db0) m → book db0 db → book db0 (transact m db).1.
Proof. intros Hm Hb. specialize (Hm db Hb). unfold transact. by destruct (m db) as [|[]]. Qed.
Lemma srv_repository {A} (m : Tx A) (ok : store_error → Prop) :
  tx_keeps (book db0) m → (∀ db e, book db0 db → m db = inl e → ok e) →
  srv fresh (repository m) (λ r c, fresh c ∧ match r with inl e => ok e | inr _ => True end).
Proof.
  intros Hm Hok c (Hb & Hs & Hp). unfold repository.
  pose proof (transact_book m (cn_db c) Hm Hb) as Hb'. unfold transact in *.
  destruct (m (cn_db c)) as [e|[db a]] eqn:Hr; cbn in *; split; [done| |done..]. by eapply Hok.
Qed.

(** Follow a handler. *)
Ltac srv_step :=
  match goal with
  | |- srv _ (mret _) _ => apply srv_ret; intros ? ?
  | |- srv _ (reject _ _) _ => apply srv_reject; discriminate
  | |- srv _ (demand _ _ _ ≫= _) _ =>
      eapply srv_bind; [apply (srv_demand _ _ _ fresh); [discriminate|auto]|intros ?]
  | |- srv _ (demand _ _ _) _ => apply srv_demand; [discriminate|intros ? ? ?]
  | |- srv _ (send _) _ => eapply srv_post; [apply srv_send; exact I|intros ? ? ?]
  | |- srv _ (send _ ≫= _) _ => eapply srv_bind; [apply srv_send; exact I|intros ?]
  | |- srv _ (update _) _ => eapply srv_post; [apply srv_update; intros ? ?|intros ? ? ?]
  | |- srv _ (update _ ≫= _) _ => eapply srv_bind; [apply srv_update; intros ? ?|intros ?]
  | |- srv _ (commands _ ≫= _) _ => eapply srv_bind; [apply srv_commands|intros ?]
  end.

Lemma srv_after {A B} (m : Tx A) (ok : store_error → Prop) (f : store_error + A → Srv B) Q :
  tx_keeps (book db0) m → (∀ db e, book db0 db → m db = inl e → ok e) →
  (∀ e, ok e → srv fresh (f (inl e)) Q) → (∀ a, srv fresh (f (inr a)) Q) →
  srv fresh (repository m ≫= f) Q.
Proof.
  intros Hm Hok He Ha. eapply srv_bind; [by apply (srv_repository m ok)|].
  intros [e|a] c [Hc H]; [by apply He|by apply Ha].
Qed.

(** The state of a connection *)
Lemma state_touch f s :
  cs_appliedGeneration (f s) = cs_appliedGeneration s → cs_appliedChecksum (f s) = cs_appliedChecksum s →
  cs_supported (f s) = cs_supported s → state_fits db0 s → state_fits db0 (f s).
Proof. intros H1 H2 H3. unfold state_fits. by rewrite H1, H2, H3. Qed.

Lemma handle_apply_result_fits now result :
  report_fits db0 (AgentEvent_ApplyResult result) →
  srv fresh (handle_apply_result server node now result) (λ _, done_with).
Proof.
  intros Hk. unfold handle_apply_result. destruct (validateApplyResult result node); [srv_step|].
  destruct result as [r|]; [|srv_step; by apply fresh_done]. cbn in Hk.
  srv_step. apply (srv_after _ (λ e, loses_data e = false)).
  - apply RecordApplyResult_book.
  - intros db e Hb. apply RecordApplyResult_known; [apply Hb|]. eapply grows_known; eauto.
  - intros [] Hl; try done; srv_step.
  - intros ?. repeat case_match; repeat srv_step; try (by apply fresh_done); try (by apply state_touch).
    split; [by right|apply H0].
Qed.

Lemma handle_usage_batch_fits now encoded :
  report_fits db0 (AgentEvent_UsageBatch encoded) →
  srv fresh (handle_usage_batch node now encoded) (λ _, done_with).
Proof.
  intros Hk. unfold handle_usage_batch. destruct encoded as [m|]; [|srv_step]. cbn in Hk.
  srv_step. srv_step. destruct (usage_deltas_of _) as [|deltas]; [srv_step|]. cbn zeta.
  case_match; [srv_step|]. apply (srv_after _ (λ e, loses_data e = false)).
  - apply RecordUsageBatch_book.
  - intros db e Hb. apply RecordUsageBatch_known. cbn. destruct Hk as [r Hr].
    destruct (grows_row _ _ Hb _ _ Hr) as (r' & Hr' & _). eauto.
  - intros [] Hl; try done; srv_step.
  - intros ?. srv_step. by apply fresh_done.
Qed.

Lemma handleEvent_fits now e :
  report_fits db0 e → srv fresh (handleEvent server node now (Some e)) (λ _, done_with).
Proof.
  intros He. destruct e as [hello|r|h|b|m|r|]; cbn [handleEvent].
  - srv_step.
  - by apply handle_apply_result_fits.
  - unfold handle_heartbeat. repeat srv_step. apply (srv_after _ (λ _, True)); [|done|..].
    + apply RecordHeartbeat_book.
    + intros; srv_step.
    + intros; srv_step. by apply fresh_done.
  - by apply handle_usage_batch_fits.
  - unfold handle_backend_health. destruct m as [m|]; [|srv_step]. repeat srv_step.
    case_match; [|srv_step]. srv_step. apply (srv_after _ (λ _, True)); [|done|..].
    + apply RecordBackendHealth_book.
    + intros []; intros; srv_step.
    + intros; srv_step. by apply fresh_done.
  - unfold handle_command_result. destruct r as [r|]; [|srv_step]. repeat srv_step. by apply fresh_done.
  - srv_step.
Qed.

(** ** The latest snapshot *)
Lemma LatestSnapshot_inv db s :
  ledger (db_nodes db) (db_generations db) → LatestSnapshot node db = Some s →
  ∃ n row, db_nodes db !! node = Some n
           ∧ db_generations db !! (node, nd_desired_generation n) = Some row
           ∧ s = snapshot_of node (nd_desired_generation n) row.
Proof.
  intros HL Hs. destruct (db_nodes db !! node) as [n|] eqn:Hn.
  - pose proof (LatestSnapshot_desired db node n HL Hn) as H. rewrite Hs in H.
    destruct H as (row & ? & ?). eauto 6.
  - revert Hs. unfold LatestSnapshot. intros (g & _ & (row & Hrow & _)%bind_Some)%bind_Some.
    destruct (lg_owned _ _ HL _ _ _ Hrow) as (n & ? & _). congruence.
Qed.

(** No known generation is ahead of the desired one. *)
Lemma known_below db g c n :
  ledger (db_nodes db) (db_generations db) → db_nodes db !! node = Some n → known db node g c →
  g ≤ nd_desired_generation n.
Proof. intros HL Hn (row & Hrow & _). destruct (lg_owned _ _ HL _ _ _ Hrow) as (n' & ? & ?). simplify_eq. lia. Qed.

Lemma snapshot_event_fits db n row required :
  ledger (db_nodes db) (db_generations db) → db_nodes db !! node = Some n →
  db_generations db !! (node, nd_desired_generation n) = Some row →
  ValidateCapabilities required = None → MissingCapabilities (cf_Capabilities config) required = [] →
  sent_fits db [snapshot_event (snapshot_of node (nd_desired_generation n) row) required].
Proof.
  intros HL Hn Hrow Hv Hm. destruct (lg_published _ _ HL _ _ _ Hrow). split.
  - intros e ->%list_elem_of_singleton. cbn. split_and!; [|done..].
    exists row. cbn. split; [congruence|done].
  - repeat constructor.
  - intros g n' ->%list_elem_of_singleton Hn'. cbn. by simplify_eq.
Qed.

Lemma sendLatest_fits now : srv (λ c, fresh c ∧ cn_sent c = []) (sendLatest now node) (λ _, done_with).
Proof.
  intros c [Hc Hsent]. pose proof Hc as (Hb & Hstate & _). unfold sendLatest, mbind, Srv_bind, look.
  destruct (LatestSnapshot node (cn_db c)) as [s|] eqn:Hs; [|by apply fresh_done].
  destruct (LatestSnapshot_inv _ _ (proj1 Hb) Hs) as (n & row & Hn & Hrow & ->).
  cbn [snapshot_of sp_SchemaVersion sp_Generation sp_DesiredChecksum sp_RequiredCapabilities].
  destruct Hstate as [Happ Hsup]. assert (fresh c → done_with c) as Hdone by apply fresh_done.
  unfold demand. destruct (bool_decide _); [cbn|by split; [apply Hdone|]].
  destruct (nd_desired_generation n <? _) eqn:Hahead; reflect_bool.
  { destruct Happ as [?|Hk]; [lia|]. apply (grows_known _ _ Hb) in Hk.
    pose proof (known_below _ _ _ _ (proj1 Hb) Hn Hk). lia. }
  destruct (nd_desired_generation n =? _) eqn:Hsame; reflect_bool.
  { destruct Happ as [H0|Hk].
    - destruct (lg_owned _ _ (proj1 Hb) _ _ _ Hrow) as (? & _ & ?). lia.
    - apply (grows_known _ _ Hb) in Hk as (row' & Hrow' & Hk). rewrite <- Hsame, Hrow in Hrow'.
      injection Hrow' as <-. rewrite bool_decide_eq_true_2 by done. exact (Hdone Hc). }
  destruct (_ =? nd_desired_generation n); [exact (Hdone Hc)|].
  destruct (_ && _); [exact (Hdone Hc)|].
  destruct (bool_decide_reflect (ValidateCapabilities (map Some (gn_required_capabilities row)) = None)) as [Hv|];
    [cbn|by split; [apply Hdone|]].
  destruct (bool_decide_reflect
    (MissingCapabilities (cs_supported (cn_state c)) (map Some (gn_required_capabilities row)) = [])) as [Hm|]; cbn.
  - rewrite Hsent. split; [|by split]. split; [done|]. rewrite Hsup in Hm.
    by apply snapshot_event_fits; [apply Hb|..].
  - rewrite Hsent. split; [|done]. split; [done|]. apply plain_sent. by repeat constructor.
Qed.

(** ** The loop and the start of a connection *)
Lemma AuthorizeNodeKey_book key : tx_keeps (book db0) (AuthorizeNodeKey node key).
Proof. unfold AuthorizeNodeKey. elsewhere. Qed.

Definition event_honest (e : server_event) : Prop :=
  match e with SvReceived (Some event) => report_fits db0 event | SvReceived None => False | _ => True end.

Lemma serve_fits now key e :
  event_honest e →
  srv (λ c, fresh c ∧ cn_sent c = []) (serve server node now key e) (λ _, done_with).
Proof.
  intros He. assert (∀ (m : Srv unit), srv fresh m (λ _, done_with) →
    srv (λ c, fresh c ∧ cn_sent c = []) m (λ _, done_with)) as Hweak.
  { intros m Hm c [Hc _]. by apply Hm. }
  destruct e as [event| | | |nonce| |]; cbn [serve]; [|by apply sendLatest_fits| |by apply sendLatest_fits|..];
    apply Hweak.
  - destruct event as [event|]; [|done]. srv_step; [by apply state_touch|]. by apply handleEvent_fits.
  - srv_step. case_match; srv_step; by apply fresh_done.
  - srv_step. by apply fresh_done.
  - apply (srv_after _ (λ _, True)); [apply AuthorizeNodeKey_book|done| |]; intros; srv_step. by apply fresh_done.
  - eapply (srv_bind _ _ (λ _, fresh)); [by intros c|]. intros s. srv_step. by apply fresh_done.
Qed.

(** A stream that starts has no state yet. *)
Definition starting (c : conn) : Prop := book db0 (cn_db c) ∧ cn_sent c = [].
Lemma starting_settled c : starting c → settled c.
Proof. intros [Hb Hs]. split; [done|]. rewrite Hs. by apply plain_sent. Qed.
Lemma starting_demand cond code message :
  code ≠ DataLoss → srv starting (demand cond code message) (λ _, starting).
Proof. intros Hcode. unfold demand. destruct cond; [by apply srv_ret|]. intros c Hc%starting_settled. done. Qed.
Lemma starting_repository {A} (m : Tx A) :
  tx_keeps (book db0) m → srv starting (repository m) (λ _, starting).
Proof.
  intros Hm c [Hb Hs]. unfold repository. pose proof (transact_book m (cn_db c) Hm Hb) as Hb'.
  by destruct (transact m (cn_db c)) as [db r].
Qed.

Lemma Connect_fits key hello now :
  honest_hello db0 hello →
  srv starting (Connect (Some (node, key)) (Some hello) now) (λ _, done_with).
Proof.
  intros (h & -> & Hcaps & Happ). cbn [Connect].
  do 2 (eapply srv_bind; [by apply starting_demand|intros ?]).
  eapply srv_bind; [apply starting_repository, AuthorizeNodeKey_book|].
  intros [e|[]]; [intros c Hc%starting_settled; done|].
  eapply srv_bind; [apply starting_repository, RecordHello_book|].
  intros [e|[]]; [intros c Hc%starting_settled; done|].
  eapply (srv_bind _ _ (λ _, starting)); [intros c Hc; unfold commands; by destruct (Register node (cn_broker c))|].
  intros id. eapply (srv_bind _ _ (λ _ c, fresh c ∧ cn_sent c = [])).
  - intros c [Hb Hs]. split; [|done]. split; [done|]. cbn. rewrite Hs. repeat split; try done.
  - intros []. eapply srv_bind; [apply sendLatest_fits|]. intros []. by apply srv_ret.
Qed.
End controller.

(** ** The link keeps the invariant *)
Lemma agent_fewer db down down' w :
  (∀ g, g ∈ omap down_generation down' → g ∈ omap down_generation down) →
  agent_fits db down w → agent_fits db down' w.
Proof.
  intros Hsub [Hv [H1 H2]]. split; [done|]. split; [|done]. intros s Hs. destruct (H1 s Hs) as [Hg Hb].
  split; [done|]. auto.
Qed.

Lemma event_generation db e g :
  event_fits db e → down_generation e = Some g → ∃ c, known db node g c.
Proof.
  destruct e as [[m|]| | | | |]; try done. intros ((row & Hrow & _ & Hc) & _ & _ & Hgen & _) [= <-].
  exists (dm_DesiredChecksum m), row. by rewrite Hgen.
Qed.

(** A handler has run: the ledger has grown and what it sent follows what is
    under way. *)
Lemma extend_fits db0 c live w down up :
  agent_fits db0 down w → (∀ e, e ∈ down → event_fits db0 e) →
  StronglySorted N.le (omap down_generation down) → settled db0 c →
  (live = true → state_fits db0 (cn_state c)) → (∀ e, e ∈ up → report_fits db0 e) →
  fits (MkLink c live w (down ++ cn_sent c) up).
Proof.
  intros Ha Hd Hsort [Hb [Hfit Hsorted Hlatest]] Hs Hu. pose proof (proj1 Hb) as HL.
  apply (grows_agent _ _ Hb) in Ha.
  assert (∀ e, e ∈ down → event_fits (cn_db c) e) as Hd' by (intros e He; apply (grows_event _ _ Hb); auto).
  assert (∀ g k g', known (cn_db c) node g k → g' ∈ omap down_generation (cn_sent c) → g ≤ g') as Hle.
  { intros g k g' Hk Hg'. destruct Hk as (row & Hrow & Hc).
    destruct (lg_owned _ _ HL _ _ _ Hrow) as (n & Hn & ?). specialize (Hlatest g' n Hg' Hn). lia. }
  split; cbn; [done| | | |by intros e He; apply (grows_report _ _ Hb); auto|by intros Hl; apply (grows_state _ _ Hb); auto].
  - destruct Ha as [Hv [H1 H2]]. split; [done|]. split; [|done]. intros s Hk. destruct (H1 s Hk) as [Hg Hbelow].
    split; [done|]. intros g. rewrite omap_app, elem_of_app. intros [?|Hin]; [auto|].
    destruct Hg as (row & Hrow & _). eapply Hle; [|done]. by exists row.
  - intros e [?|?]%elem_of_app; auto.
  - rewrite omap_app. apply StronglySorted_app_2; [|done..]. intros g g' Hg Hg'.
    apply list_elem_of_omap in Hg as (e & He & Hg). destruct (event_generation _ _ _ (Hd' e He) Hg) as [k Hk].
    by eapply Hle.
Qed.

Lemma served_fits l (m : Srv unit) up :
  fits l → lk_live l = true →
  srv (cn_db (lk_conn l)) (λ c, fresh (cn_db (lk_conn l)) c ∧ cn_sent c = []) m
    (λ _, done_with (cn_db (lk_conn l))) →
  (∀ e, e ∈ up → report_fits (cn_db (lk_conn l)) e) →
  fits (served l (serving m (lk_conn l)) up)
  ∧ ∀ e, (serving m (lk_conn l)).2 = inl e → st_code e ≠ DataLoss.
Proof.
  intros [HL Ha Hd Hsort Hu Hs] Hlive Hm Hup. unfold serving, served.
  set (c0 := MkConn (cn_db (lk_conn l)) (cn_broker (lk_conn l)) (cn_state (lk_conn l)) []).
  assert (fresh (cn_db (lk_conn l)) c0 ∧ cn_sent c0 = []) as Hc0.
  { split; [|done]. split; [by apply book_refl|]. split; [by apply Hs|done]. }
  specialize (Hm c0 Hc0). destruct (m c0) as [c' [e|[]]]; cbn.
  - destruct Hm as [Hset Hcode]. split; [|by intros e' [= <-]].
    rewrite andb_false_r. by eapply extend_fits.
  - destruct Hm as [Hset Hstate]. split; [|done]. by eapply extend_fits.
Qed.

Lemma empty_fits db down w : stored w = EmptyStateRecord → agent_fits db down w.
Proof.
  unfold agent_fits. intros ->. split; [reflexivity|]. split; [by intros s [?|?]|].
  by intros b ?%not_elem_of_nil.
Qed.

Lemma fits_agent l w up :
  fits l → agent_fits (cn_db (lk_conn l)) (lk_down l) w →
  (∀ e, e ∈ up → report_fits (cn_db (lk_conn l)) e) →
  fits (MkLink (lk_conn l) (lk_live l) w (lk_down l) up).
Proof. intros [HL Ha Hd Hsort Hu Hs] Hw Hup. by split. Qed.

Lemma fits_closed l w :
  fits l → agent_fits (cn_db (lk_conn l)) (lk_down l) w → fits (MkLink (lk_conn l) false w [] []).
Proof.
  intros [HL Ha Hd Hsort Hu Hs] Hw. split; cbn; try done; [|by intros e ?%not_elem_of_nil|constructor|by intros e ?%not_elem_of_nil].
  eapply agent_fewer; [|done]. by intros g ?%not_elem_of_nil.
Qed.

Lemma store_fits l db :
  fits l → book (cn_db (lk_conn l)) db →
  fits (MkLink (with_db db (lk_conn l)) (lk_live l) (lk_world l) (lk_down l) (lk_up l)).
Proof.
  intros [HL Ha Hd Hsort Hu Hs] Hb. split; cbn; [apply Hb| |intros e He|done|intros e He|intros Hl].
  - by apply (grows_agent _ _ Hb).
  - apply (grows_event _ _ Hb). auto.
  - apply (grows_report _ _ Hb). auto.
  - apply (grows_state _ _ Hb). auto.
Qed.

Lemma aside_fits db e : aside e = true → report_fits db e.
Proof. by destruct e. Qed.

Definition no_loss (o : option status_error) : Prop := ∀ e, o = Some e → st_code e ≠ DataLoss.

Lemma deliver_fits l now uninstalling e rest :
  fits l → lk_down l = e :: rest →
  fits (let '(w, r) := exec (handleControllerEvent E config now uninstalling e) (lk_world l) in
        match r with
        | inr events => MkLink (lk_conn l) (lk_live l) w rest (lk_up l ++ events)
        | inl _ => MkLink (lk_conn l) false w [] []
        end).
Proof.
  intros [HL Ha Hd Hsort Hu Hs] Hdown. rewrite Hdown in Ha, Hd, Hsort.
  destruct (delivery_fits _ HL now uninstalling e rest (lk_world l)) as [Hw Hr]; [apply Hd; by left|done..|].
  assert (fits (MkLink (lk_conn l) (lk_live l) (exec (handleControllerEvent E config now uninstalling e) (lk_world l)).1 rest (lk_up l))) as Hf.
  { split; cbn; try done; [intros x Hx; apply Hd; by right|]. cbn in Hsort.
    destruct (down_generation e); [by inv Hsort|done]. }
  destruct (exec _ (lk_world l)) as [w [er|events]]; cbn in *; [by apply (fits_closed _ w Hf)|].
  apply (fits_agent _ w (lk_up l ++ events) Hf Hw). intros x [?|?]%elem_of_app; auto.
Qed.

Lemma connect_fits l now now' nonce reports key w hello events :
  fits l → exec (greeting E config now nonce reports) (lk_world l) = (w, inr (hello :: events)) →
  let r := serving (Connect (Some (node, key)) (Some hello) now') (lk_conn l) in
  fits (MkLink r.1 (succeeded r.2) w (cn_sent r.1) events) ∧ no_loss (failure r.2).
Proof.
  intros [HL Ha Hd Hsort Hu Hs] Hg r.
  destruct (exec_triple _ _ _ (lk_world l) _ (greeting_fits _ HL (lk_down l) now nonce reports) Ha) as [Hw Hr].
  rewrite Hg in Hw, Hr. cbn in Hw, Hr. destruct Hr as [Hhello Hevents].
  apply (agent_fewer _ _ []) in Hw; [|by intros g ?%not_elem_of_nil].
  pose proof (Connect_fits (cn_db (lk_conn l)) key hello now' Hhello
    (MkConn (cn_db (lk_conn l)) (cn_broker (lk_conn l)) (cn_state (lk_conn l)) [])) as Hc.
  unfold r, serving in *. destruct (Connect _ _ _ _) as [c' [e|id]]; cbn.
  - destruct Hc as [Hset Hcode]; [by split; [apply book_refl|]|]. split; [|by intros e' [= <-]].
    eapply (extend_fits _ _ _ _ []); try done; [by intros x ?%not_elem_of_nil|constructor].
  - destruct Hc as [Hset Hst]; [by split; [apply book_refl|]|]. split; [|done].
    eapply (extend_fits _ _ _ _ []); try done; [by intros x ?%not_elem_of_nil|constructor].
Qed.

Lemma link_step_fits l o l' : fits l → link_step l o l' → fits l' ∧ no_loss o.
Proof.
  intros Hf Hstep. pose proof Hf as [HL Ha Hd Hsort Hu Hs].
  destruct Hstep as [op|b|op Hop|w Hw|now result| |e He|now key e Hlive He r|now key e rest Hlive Hup r
    |now uninstalling e rest Hdown|now nonce reports w e Hg|now now' nonce reports key w hello events Hg r].
  - split; [|done]. apply store_fits; [done|]. apply transact_book, book_refl; [apply perform_book|done].
  - split; [by split|done].
  - split; [|done]. apply fits_agent; [done|by apply local_fits|done].
  - split; [|done]. apply fits_closed; [done|by apply empty_fits].
  - split; [|done].
    destruct (exec_triple _ _ _ (lk_world l) _ (report_local_fits _ HL (lk_down l) now result) Ha) as [Hw Hr].
    destruct (exec _ _) as [w events]. apply fits_agent; [done..|]. intros e [?|?]%elem_of_app; auto.
  - split; [|done].
    destruct (exec_triple _ _ _ (lk_world l) _ (pending_fits _ HL (lk_down l)) Ha) as [Hw Hr].
    destruct (exec _ _) as [w [e|batches]]; apply fits_agent; try done; intros x [?|Hx]%elem_of_app; auto.
    + by apply not_elem_of_nil in Hx.
    + eapply usage_fits; [|done]. by apply Hr.
  - split; [|done]. apply fits_agent; [done..|].
    intros x [?| ->%list_elem_of_singleton]%elem_of_app; [auto|by apply aside_fits].
  - destruct (served_fits l (serve server node now key e) (lk_up l) Hf Hlive) as [H1 H2]; [|done|].
    + apply serve_fits. destruct e; try done. by destruct (He event).
    + split; [done|]. subst r. destruct (serving _ _) as [c [er|]]; [|done]. intros e' [= <-]. by apply H2.
  - assert (∀ x, x ∈ e :: rest → report_fits (cn_db (lk_conn l)) x) as Hr by (rewrite <- Hup; auto).
    destruct (served_fits l (serve server node now key (SvReceived (Some e))) rest Hf Hlive) as [H1 H2].
    + apply serve_fits. apply Hr. by left.
    + intros x Hx. apply Hr. by right.
    + split; [done|]. subst r. destruct (serving _ _) as [c [er|]]; [|done]. intros e' [= <-]. by apply H2.
  - split; [|done]. by apply deliver_fits.
  - split; [|done]. destruct (exec_triple _ _ _ (lk_world l) _ (greeting_fits _ HL (lk_down l) now nonce reports) Ha) as [Hw _].
    rewrite Hg in Hw. by apply fits_closed.
  - by apply (connect_fits l now now' nonce reports key w hello events).
Qed.

Lemma start_fits l : link_start l → fits l.
Proof.
  intros [[ops Hdb] Hlive Hdown Hup Hst]. split; rewrite ?Hdown, ?Hup, ?Hlive; try done.
  - rewrite Hdb. apply runs_ledger.
  - by apply empty_fits.
  - by intros e ?%not_elem_of_nil.
  - constructor.
  - by intros e ?%not_elem_of_nil.
Qed.

Lemma reachable_fits l : reachable l → fits l.
Proof.
  intros (l0 & Hl0%start_fits & Hsteps). induction Hsteps as [|l1 l2 l3 [o Hstep] _ IH]; [done|].
  apply IH. by apply (link_step_fits l1 o l2).
Qed.

(** C4. In every state the Controller and an Agent can reach together, whatever
    the owner, the worker and the other nodes do to the store, however often
    the stream breaks, the Agent restarts or even loses its store, and in
    whatever order messages are handled, no handler ends the Agent's stream
    with DataLoss: the two never disagree on a generation or its checksum. *)
Theorem session_no_data_loss l o l' :
  reachable l → link_step l o l' → ∀ e, o = Some e → st_code e ≠ DataLoss.
Proof. intros Hl%reachable_fits Hstep. by apply (link_step_fits l o l'). Qed.

End link.
