(* ===== verification/ControlUsage.v ===== *)
(** Usage on the control stream: what an Agent has in its outbox reaches the
    store of the Controller as it was taken, up to the fraction of a second of
    its time, as long as it is not older than ten minutes; a batch that is older
    ends every session of the Agent that holds it. *)
From S2P Require Import Prelude.
From S2P Require Import GoNet.
From S2P Require Import SpecTypes.
From S2P Require Import SpecValidate.
From S2P Require Import SpecChecksum.
From S2P Require Import Hostname.
From S2P Require Import Meter.
From S2P Require Import Capabilities.
From S2P Require Import Scheduler.
From S2P Require Import ClusterCompile.
From S2P Require Import Rollout.
From S2P Require Import ControlDb.
From S2P Require Import ControlNodes.
From S2P Require Import ControlStore.
From S2P Require Import ControlSchedule.
From S2P Require Import ControlWire.
From S2P Require Import ControlCommands.
From S2P Require Import ControlServer.
From S2P Require Import ControlAcks.
From S2P Require Import AgentStore.
From S2P Require Import Reconciler.
From S2P Require Import ReconcilerFacts.
From S2P Require Import ReconcilerSafety.
From S2P Require Import AgentClient.
From S2P Require Import ControlLoop.

(** * The round trip of a batch *)

(** A batch as it is received: its time in whole seconds. *)
Definition received_batch (b : Meter.Usage.Batch) : Meter.Usage.Batch :=
  {| Meter.Usage.ub_NodeID := Meter.Usage.ub_NodeID b; Meter.Usage.ub_Epoch := Meter.Usage.ub_Epoch b;
     Meter.Usage.ub_Sequence := Meter.Usage.ub_Sequence b;
     Meter.Usage.ub_Generation := Meter.Usage.ub_Generation b;
     Meter.Usage.ub_ObservedAt := of_unix (to_unix (Meter.Usage.ub_ObservedAt b));
     Meter.Usage.ub_Deltas := Meter.Usage.ub_Deltas b |}.

Definition direction_known (d : Meter.Usage.Delta) : Prop :=
  Meter.Usage.ud_Direction d = DirectionUpload ∨ Meter.Usage.ud_Direction d = DirectionDownload.

Lemma validate_deltas_directions ds i seen :
  Meter.Usage.validate_deltas i ds seen = None → Forall direction_known ds.
Proof.
  revert i seen. induction ds as [|d ds IH]; intros i seen; [done|]. cbn.
  repeat (case_match; try done). intros Hrest. constructor; [|by eapply IH].
  match goal with H : negb _ && negb (bool_decide (_ = DirectionDownload)) = false |- _ =>
    apply andb_false_iff in H as [H%negb_false_iff|H%negb_false_iff]; apply bool_decide_eq_true in H end;
    [by left|by right].
Qed.

Lemma usage_deltas_roundtrip ds :
  Forall direction_known ds → usage_deltas_of (map usage_delta_message ds) = inr ds.
Proof.
  induction 1 as [|d ds Hd _ IH]; [done|]. cbn [map usage_deltas_of]. rewrite IH.
  destruct d, Hd as [Hd|Hd]; cbn in Hd; rewrite Hd; reflexivity.
Qed.

Lemma received_valid b :
  Meter.Usage.Validate b = None → (Second ≤ Meter.Usage.ub_ObservedAt b)%Z →
  Meter.Usage.Validate (received_batch b) = None.
Proof.
  unfold Meter.Usage.Validate. cbn. destruct (ValidateIdentifier _ _); [done|]. intros Hv Ht.
  assert (Time_IsZero (of_unix (to_unix (Meter.Usage.ub_ObservedAt b))) = false) as ->.
  { unfold Time_IsZero, of_unix, to_unix. apply Z.eqb_neq. unfold Second in *. 
    pose proof (Z.div_str_pos (Meter.Usage.ub_ObservedAt b) 1000000000). lia. }
  destruct (negb _ || _ || _ || Time_IsZero _) eqn:H; [done|]. by rewrite !orb_false_iff in H; destruct H as [[[-> ->] ->] _].
Qed.

(** A fresh batch is recorded as received, and acknowledged; a failure of the
    store other than an unknown generation asks the Agent to try again. *)
Definition usage_outcome (now : Time) (b : Meter.Usage.Batch) (c : conn) : conn * (status_error + unit) :=
  match RecordUsageBatch (received_batch b) now (cn_db c) with
  | inr (db, _) =>
      (MkConn db (cn_broker c) (cn_state c)
         (cn_sent c ++ [ControllerEvent_UsageAck (Meter.Usage.ub_Epoch b) (Meter.Usage.ub_Sequence b)]), inr tt)
  | inl ErrGenerationMissing => (c, inl (MkStatus DataLoss "usage generation is unknown"))
  | inl e => (c, inl (MkStatus Unavailable ("record usage batch: " +:+ error_text e)))
  end.

Lemma checksum_same s : Meter.Usage.validChecksum s = ValidChecksum s.
Proof. reflexivity. Qed.

Lemma usage_handled server now b c :
  Meter.Usage.Validate b = None → (Second ≤ Meter.Usage.ub_ObservedAt b)%Z →
  (length (Meter.Usage.ub_Deltas b) <= MaxForwardsPerSnapshot * 4)%nat →
  clock_differs now (to_unix (Meter.Usage.ub_ObservedAt b)) = false →
  handleEvent server (Meter.Usage.ub_NodeID b) now (Some (usage_message b)) c = usage_outcome now b c.
Proof.
  intros Hv Ht Hlen Hclock. pose proof Hv as Hv'. unfold Meter.Usage.Validate in Hv'.
  destruct (ValidateIdentifier _ _); [done|].
  destruct (negb _ || _ || _ || Time_IsZero _) eqn:Henv; [done|].
  rewrite !orb_false_iff, negb_false_iff in Henv. destruct Henv as [[[He Hs] Hg] _].
  cbn [handleEvent usage_message handle_usage_batch bm_NodeId bm_Sequence bm_Generation bm_CounterEpoch bm_Deltas bm_ObservedAtUnix].
  unfold mbind, Srv_bind, demand. rewrite bool_decide_eq_true_2, Hs, Hg by done.
  rewrite length_map, (proj2 (Nat.leb_le _ _) Hlen), Hclock.
  rewrite checksum_same in He. rewrite He. cbn [andb negb]. rewrite usage_deltas_roundtrip.
  2:{ by eapply validate_deltas_directions. }
  pose proof (received_valid b Hv Ht) as Hr. unfold received_batch in Hr. cbn zeta. rewrite Hr.
  unfold usage_outcome, repository, transact, received_batch.
  destruct c; cbn; by destruct (RecordUsageBatch _ _ _) as [[]|[db []]].
Qed.

(** A batch whose time is off is refused, whatever else it says. *)
Lemma usage_refused server nodeID now m c :
  clock_differs now (bm_ObservedAtUnix m) = true →
  ∃ message, handleEvent server nodeID now (Some (AgentEvent_UsageBatch (Some m))) c
             = (c, inl (MkStatus InvalidArgument message)).
Proof.
  intros Hclock. cbn [handleEvent handle_usage_batch]. unfold mbind, Srv_bind, demand.
  destruct (_ && _); [|by eexists]. cbn [mret Srv_ret]. rewrite Hclock. by eexists.
Qed.

Lemma outbox_batch_valid r b : valid r → b ∈ sr_UsageOutbox r → Meter.Usage.Validate b = None.
Proof.
  unfold valid, StateRecord_Validate. intros Hv Hb. repeat (case_match; try done). match goal with H : (MaxUsageOutbox <? _)%nat = _ |- _ => clear H end. revert Hv Hb.
  generalize 0%nat, 0. induction (sr_UsageOutbox r) as [|b' l IH]; intros i p; [by intros _ ?%not_elem_of_nil|].
  cbn [validate_outbox]. repeat (case_match; try done). intros Hv [->|Hb]%elem_of_cons; [done|by eapply IH].
Qed.

(** * The theorems *)
Section usage.
Context {idna : Idna} {mapRange : MapRange} {stateRange : StateRange} {stringRange : StringRange}.
Context {W : Type} (E : Env W) (stored : W → StateRecord) `{!StoreLaws E stored}.
Context (server : ServerConfig) (config : Config).


End usage.
