(* ===== verification/ControlSession.v ===== *)
(** A session of a node, run: a node is enrolled, a state is published for it,
    it connects, is sent the state, applies it and reports it. The theorems of
    the control stream at this session. *)
From S2P Require Import Prelude.
From S2P Require Import GoNet.
From S2P Require Import GoCrypto.
From S2P Require Import SpecTypes.
From S2P Require Import SpecCanonical.
From S2P Require Import SpecValidate.
From S2P Require Import SpecSamples.
From S2P Require Import SpecChecksum.
From S2P Require Import Capabilities.
From S2P Require Import Hostname.
From S2P Require Import Scheduler.
From S2P Require Import PlaceFacts.
From S2P Require Import ClusterCompile.
From S2P Require Import Rollout.
From S2P Require Import ControlDb.
From S2P Require Import ControlPublish.
From S2P Require Import ControlNodes.
From S2P Require Import ControlHistory.
From S2P Require Import ControlWire.
From S2P Require Import ControlCommands.
From S2P Require Import ControlServer.
From S2P Require Import NftCompiler.
From S2P Require Import AgentStore.
From S2P Require Import Reconciler.
From S2P Require Import Meter.
From S2P Require Import ReconcilerFacts.
From S2P Require Import ReconcilerSafety.
From S2P Require Import ReconcilerWorld.
From S2P Require Import ControlStore.
From S2P Require Import AgentClient.
From S2P Require Import ControlLoop.
From S2P Require Import ControlUsage.

Definition sample_key : list N := repeat 7 32.
Definition sample_secret : list N := repeat 9 32.
Definition sample_time : Time := of_unix 1000.
(** One TCP forward that ends at the node *)
Definition session_forward : ForwardSpec :=
  {| fw_ID := "web"; fw_UserID := "tenant-a"; fw_Protocols := [ProtocolTCP];
     fw_IngressNodeID := "node-a"; fw_ExitNodeID := "";
     fw_Listen := endpoint (ip 192 0 2 10) 8080; fw_Target := endpoint (ip 198 51 100 20) 80;
     fw_ServiceVIP := None; fw_FabricLinkID := ""; fw_PathMode := PathDirect;
     fw_SNAT := MkSNATSpec SNATMasquerade None; fw_TrafficClassID := 0;
     fw_RateLimit := None; fw_TrafficQuota := None; fw_ExpiresAt := None;
     fw_DrainDeadline := None; fw_Lifecycle := LifecycleActive; fw_ResourceVersion := 7 |}.
Definition session_state : DesiredState :=
  {| ds_SchemaVersion := CurrentSchemaVersion; ds_NodeID := "node-a"; ds_Generation := 5;
     ds_ManagementDomain := "m"; ds_ServiceCIDRs := []; ds_FabricLinks := [];
     ds_HealthChecks := []; ds_UserPolicies := []; ds_ProtocolBlocks := None;
     ds_Forwards := [session_forward] |}.
Definition sample_operations `{!Idna} `{!MapRange} `{!StateRange} `{!StringRange} : list store_op :=
  [OpCreateEnrollmentToken "node-a" Hour sample_secret sample_time;
   OpCompleteEnrollment "node-a" (EncodeToString sample_secret) sample_key sample_time;
   OpPublishDesired "node-a" session_state sample_time].
Definition sample_config : Config :=
  MkConfig "node-a" "v1" (capabilitiesWithoutFabric DefaultCapabilities) "".

(** * The node *)
Section session.
#[local] Instance session_idna : Idna := ascii_idna.
#[local] Instance session_nodes : MapRange := some_range.
#[local] Instance session_states : StateRange := some_states.
#[local] Instance session_strings : StringRange := elements.

Definition sample_db : Db := runs sample_operations DbEmpty.
Definition sample_latest := LatestSnapshot "node-a" sample_db.

(** A kernel that has the script of the published state once it was given one. *)
Definition sample_published : DesiredState :=
  match sample_latest with Some s => sp_DesiredState s | None => session_state end.
Definition sample_sum : string :=
  match sample_latest with Some s => sp_DesiredChecksum s | None => "" end.
Definition session_installed : InstalledState :=
  {| in_Exists := true; in_Managed := true; in_Generation := 1; in_DesiredChecksum := sample_sum;
     in_ProgramChecksum := Nft.ProgramChecksumAt sample_published sample_sum sample_time |}.
(** Every counter of the program has counted five packets. *)
Definition session_counters : list RawCounter :=
  match Nft.CompileAt sample_published sample_sum true sample_time with
  | inr program =>
      map (λ b, {| rc_Name := Nft.cb_Name b; rc_Packets := 5; rc_Bytes := 500 |}) (Nft.np_Counters program)
  | inl _ => []
  end.
Definition session_kernel : Env (option string) :=
  {| e_now k := (k, sample_time);
     e_Inspect k := (k, inr (match k with Some _ => session_installed | None => not_installed end));
     e_Check _ := fine;
     e_Apply script _ := (Some script, None);
     e_ReadCounters := Some (λ k, (k, inr session_counters));
     e_tc := e_tc sample_kernel;
     e_conntrack := None;
     e_fabric := e_fabric sample_kernel;
     e_Load k := (k, inl (Plain "no store"));
     e_Save _ k := (k, Some (Plain "no store")) |}.
Definition session_node : Env (FileStore.directory * option string) :=
  with_file_store session_kernel (λ k, (k, λ _, false)).

Definition session_server : ServerConfig := NewServerConfig 0 0.
Definition no_state : connectionState := connected_state
  (MkAgentHello 0 "" "" [] [] 0 "" "" 0 "" [] "") 0%Z.
Definition link0 : link (FileStore.directory * option string) :=
  MkLink (MkConn sample_db NewCommandBroker no_state []) false fresh_node [] [].

(** The stream starts: the snapshot is sent. *)
Definition greeted := exec (greeting session_node sample_config sample_time (repeat 1 16) []) fresh_node.
Definition first_event : AgentEvent :=
  match greeted.2 with inr (e :: _) => e | _ => AgentEvent_Empty end.
Definition connected :=
  serving (Connect (Some ("node-a", sample_key)) (Some first_event) sample_time) (lk_conn link0).
(** A key the store does not know *)
Definition refused :=
  serving (Connect (Some ("node-a", repeat 8 32)) (Some first_event) sample_time) (lk_conn link0).
Definition link1 := MkLink connected.1 (succeeded connected.2) greeted.1 (cn_sent connected.1) [].

(** The snapshot arrives, and is applied. *)
Definition first_snapshot : ControllerEvent :=
  match lk_down link1 with e :: _ => e | [] => ControllerEvent_Ping [] 0%Z end.
Definition applied :=
  exec (handleControllerEvent session_node sample_config sample_time false first_snapshot) (lk_world link1).
Definition answer : AgentEvent := match applied.2 with inr [e] => e | _ => AgentEvent_Empty end.

(** The report arrives. *)
Definition recorded :=
  serving (serve session_server "node-a" sample_time sample_key (SvReceived (Some answer))) (lk_conn link1).

(** The first session brings the node to its desired state. *)
Example session_applies :
  (failure connected.2, failure recorded.2, cs_appliedGeneration (cn_state recorded.1),
   nd_applied_generation <$> (db_nodes (cn_db recorded.1) !! "node-a"))
  = (None, None, 1, Some 1).
Proof. vm_compute. reflexivity. Qed.

(** * The theorems at this session *)
Lemma link0_start : link_start stored link0.
Proof. split; [by exists sample_operations|reflexivity..]. Qed.

Lemma greeted_events : greeted = (greeted.1, inr [first_event]).
Proof. vm_compute. reflexivity. Qed.

Lemma link0_connects :
  link_step session_node stored session_server sample_config link0 None link1.
Proof.
  assert (failure connected.2 = None) as Hc by (vm_compute; reflexivity).
  rewrite <- Hc. exact (ls_connect session_node stored session_server sample_config link0 sample_time sample_time
    (repeat 1 16) [] sample_key greeted.1 first_event [] greeted_events).
Qed.

Lemma link1_reachable : reachable session_node stored session_server sample_config link1.
Proof. exists link0. split; [apply link0_start|]. eapply rtc_once. exists None. apply link0_connects. Qed.

(** The snapshot of the first session *)
Definition sample_sent : DesiredSnapshot :=
  match lk_down link1 with
  | [ControllerEvent_Snapshot (Some m)] => m
  | _ => MkDesiredSnapshot 0 0 "" 0 "" session_state [] 0
  end.
Lemma sample_sent_down : lk_down link1 = [ControllerEvent_Snapshot (Some sample_sent)].
Proof. vm_compute. reflexivity. Qed.
Lemma sample_sent_size : encoded_size (dm_DesiredStateJson sample_sent) ≤ MaxDesiredJSONBytes.
Proof. vm_compute. discriminate. Qed.


(** A stream of a key that is not the node's is refused, not lost. *)
Lemma session_no_data_loss_witness :
  ∃ e, failure refused.2 = Some e ∧ st_code e ≠ DataLoss.
Proof.
  assert (∃ e, failure refused.2 = Some e) as [e He] by (eexists; vm_compute; reflexivity).
  exists e. split; [exact He|].
  refine (session_no_data_loss session_node stored session_server sample_config link0 (failure refused.2) _
    _ _ e He).
  - exists link0. split; [exact link0_start|]. apply rtc_refl.
  - exact (ls_connect session_node stored session_server sample_config link0 sample_time sample_time
      (repeat 1 16) [] (repeat 8 32) _ _ _ greeted_events).
Defined.

(** ** Usage *)

(** The snapshot has been applied and the counters have been read. *)
Definition link2 :=
  MkLink (lk_conn link1) (lk_live link1) applied.1 [] (lk_up link1 ++ [answer]).
Definition link3 :=
  MkLink (lk_conn link2) (lk_live link2) (exec (run session_node OpCollectUsage) (lk_world link2)).1
    (lk_down link2) (lk_up link2).
Definition no_batch : Meter.Usage.Batch :=
  {| Meter.Usage.ub_NodeID := ""; Meter.Usage.ub_Epoch := ""; Meter.Usage.ub_Sequence := 0;
     Meter.Usage.ub_Generation := 0; Meter.Usage.ub_ObservedAt := 0%Z; Meter.Usage.ub_Deltas := [] |}.
(** Its value, computed once *)
Definition session_batch : Meter.Usage.Batch :=
  Eval vm_compute in List.hd no_batch (sr_UsageOutbox (stored (lk_world link3))).
Lemma session_outbox_one : sr_UsageOutbox (stored (lk_world link3)) = [session_batch].
Proof. vm_compute. reflexivity. Qed.

Lemma link3_reachable : reachable session_node stored session_server sample_config link3.
Proof.
  exists link0. split; [apply link0_start|].
  apply (rtc_l _ _ link1); [exists None; apply link0_connects|].
  apply (rtc_l _ _ link2).
  - exists None.
    assert (lk_down link1 = [first_snapshot]) as Hd by (vm_compute; reflexivity).
    assert (applied = (applied.1, inr [answer])) as Ha by (vm_compute; reflexivity).
    exact (deliver_step session_node stored session_server sample_config link1 sample_time false
      first_snapshot [] applied.1 [answer] Hd Ha).
  - apply rtc_once. exists None.
    apply (ls_local session_node stored session_server sample_config link2 OpCollectUsage). done.
Qed.


(** An hour later it ends the session. *)
Definition late_greeting :=
  exec (greeting session_node sample_config sample_time (repeat 1 16) []) (lk_world link3).
End session.
