(* ===== verification/ControlIdentity.v ===== *)
(** Accounts of people, [internal/controller/store/identity.go] with the tables
    of [migrations/002_identity.sql] and the account functions of
    [controller/iam/types.go]: the owner, the tenants with their policies,
    management sessions and the management audit. Random bytes and the clock
    are given. *)
From S2P Require Import Prelude.
From S2P Require Import GoNet.
From S2P Require Import GoCrypto.
From S2P Require Import SpecTypes.
From S2P Require Import SpecValidate.
From S2P Require Import Hostname.
From S2P Require Import Iam.
From S2P Require Import ControlDb.
From S2P Require Import ControlNodes.

(** * Errors *)
Inductive identity_error :=
  | IdUnauthenticated
  | IdForbidden (message : string)
  | IdConflict (message : string)
  | IdNotFound
  | IdPolicy (e : iam_error)
  | IdFailure (message : string).

(** * Tables *)
Record TenantRow := MkTenantRow {
  tr_name : string;
  tr_status : Status;
  tr_expires_at : option Time;
  tr_resource_version : N;
  tr_created_at : Time;
  tr_updated_at : Time;
}.

Record SessionRow := MkSessionRow {
  ms_csrf_hash : list N;
  ms_account_id : string;
  ms_expires_at : Time;
  ms_created_at : Time;
  ms_last_seen_at : Time;
  ms_revoked_at : option Time;
  ms_remote_ip : string;
  ms_user_agent : string;
}.

(** [AuditEvent] without its number and the time of its row; the detail is its
    JSON text. *)
Record AuditEvent := MkAuditEvent {
  ev_ActorAccountID : string;
  ev_ActorUsername : string;
  ev_ActorRole : Role;
  ev_TenantID : string;
  ev_Action : string;
  ev_ResourceType : string;
  ev_ResourceID : string;
  ev_Outcome : string;
  ev_SourceIP : string;
  ev_Detail : string;
}.

(** Accounts and policies are stored as the records the code makes of a row. *)
Record IdentityDb := MkIdentityDb {
  id_tenants : gmap string TenantRow;
  id_accounts : gmap string Account;
  id_policies : gmap string Policy;
  id_sessions : gmap (list N) SessionRow;
  id_audit : list (AuditEvent * Time);
}.
Definition IdentityEmpty : IdentityDb := MkIdentityDb ∅ ∅ ∅ ∅ [].

Definition on_tenants f (db : IdentityDb) : IdentityDb :=
  MkIdentityDb (f (id_tenants db)) (id_accounts db) (id_policies db) (id_sessions db) (id_audit db).
Definition on_accounts f (db : IdentityDb) : IdentityDb :=
  MkIdentityDb (id_tenants db) (f (id_accounts db)) (id_policies db) (id_sessions db) (id_audit db).
Definition on_policies f (db : IdentityDb) : IdentityDb :=
  MkIdentityDb (id_tenants db) (id_accounts db) (f (id_policies db)) (id_sessions db) (id_audit db).
Definition on_sessions f (db : IdentityDb) : IdentityDb :=
  MkIdentityDb (id_tenants db) (id_accounts db) (id_policies db) (f (id_sessions db)) (id_audit db).
Definition on_audit f (db : IdentityDb) : IdentityDb :=
  MkIdentityDb (id_tenants db) (id_accounts db) (id_policies db) (id_sessions db) (f (id_audit db)).

(** * Operations: a failing one leaves no trace *)
Definition Id (A : Type) : Type := IdentityDb → identity_error + (IdentityDb * A).
#[export] Instance Id_ret : MRet Id := λ A a db, inr (db, a).
#[export] Instance Id_bind : MBind Id := λ A B f m db,
  match m db with inl e => inl e | inr (db, a) => f a db end.

Definition deny {A} (e : identity_error) : Id A := λ _, inl e.
Definition ensure (cond : bool) (e : identity_error) : Id unit := if cond then mret tt else deny e.
Definition get {A} (f : IdentityDb → A) : Id A := λ db, inr (db, f db).
Definition put (f : IdentityDb → IdentityDb) : Id unit := λ db, inr (f db, tt).
Definition found {A} (row : option A) : Id A :=
  match row with Some a => mret a | None => deny IdNotFound end.
Definition from {A} (r : identity_error + A) : Id A :=
  match r with inl e => deny e | inr a => mret a end.

(** What a caller is left with *)
Definition identity_transact {A} (m : Id A) (db : IdentityDb) : IdentityDb * (identity_error + A) :=
  match m db with inl e => (db, inl e) | inr (db, a) => (db, inr a) end.

(** * Names *)

(** [strings.ToLower] where its result can be all ASCII: besides the ASCII
    letters only U+212A (Kelvin sign) and U+0130 (dotted capital I) have an
    ASCII lower case; the bytes of other characters stay, and fit no username. *)
Fixpoint lower_bytes (fuel : nat) (l : list N) : list N :=
  match fuel, l with
  | S f, 226 :: 132 :: 170 :: rest => 107 :: lower_bytes f rest
  | S f, 196 :: 176 :: rest => 105 :: lower_bytes f rest
  | S f, c :: rest => (if (65 <=? c) && (c <=? 90) then c + 32 else c) :: lower_bytes f rest
  | _, _ => []
  end.
Definition lower_name (s : string) : string :=
  let l := bytes_of s in to_string (lower_bytes (length l) l).

(** [^[a-z0-9][a-z0-9._-]{2,63}$] *)
Definition lower_alnum (c : ascii) : bool := byte_in "a" "z" c || byte_in "0" "9" c.
Definition username_char (c : ascii) : bool :=
  lower_alnum c || bool_decide (c ∈ ["."%char; "_"%char; "-"%char]).
Definition usernamePattern (value : string) : bool :=
  match chars value with
  | [] => false
  | c :: l => lower_alnum c && (2 <=? length l)%nat && (length l <=? 63)%nat && forallb username_char l
  end.

Definition NormalizeUsername (value : string) : identity_error + string :=
  let value := lower_name (TrimSpace value) in
  if usernamePattern value then inr value
  else inl (IdFailure "username must be 3-64 lowercase letters, digits, dots, underscores or hyphens").

(** [ValidateDisplayName] and [ValidateTenantName] *)
Definition validate_name (message : string) (value : string) : identity_error + string :=
  let value := TrimSpace value in
  if (String.length value =? 0)%nat || (128 <? String.length value)%nat then inl (IdFailure message) else inr value.
Definition ValidateDisplayName := validate_name "display name must be 1-128 bytes".
Definition ValidateTenantName := validate_name "tenant name must be 1-128 bytes".

Definition ValidateInternalID (name value : string) : Id unit :=
  match ValidateIdentifier name value with Some e => deny (IdFailure e) | None => mret tt end.

(** [NewID] with its 16 random bytes, [NewSecret] with its 32 *)
Definition NewID (prefix : string) (random : list N) : string := prefix +:+ "_" +:+ hex_encode random.
Definition HashSecret (raw : string) : list N := SHA256.Sum256 (bytes_of raw).
Definition NewSecret (random : list N) : string * list N :=
  let raw := EncodeToString random in (raw, HashSecret raw).

Definition truncate_to (value : string) (maximum : nat) : string := of_chars (take maximum (chars value)).

(** * Accounts *)
Definition AccountByID (accountID : string) : Id Account :=
  _ ← ValidateInternalID "account_id" accountID;
  account ← get (λ db, id_accounts db !! accountID);
  found account.

(** The first account a condition holds of *)
Definition account_where (P : Account → bool) (db : IdentityDb) : option Account :=
  snd <$> head (filter (λ kv : string * Account, P kv.2 = true) (map_to_list (id_accounts db))).

Definition AccountByUsername (username : string) : Id Account :=
  match NormalizeUsername username with
  | inl _ => deny IdUnauthenticated
  | inr username =>
      account ← get (account_where (λ a, bool_decide (ac_Username a = username)));
      found account
  end.

Definition TenantAccountByTenantID (tenantID : string) : Id Account :=
  _ ← ValidateInternalID "tenant_id" tenantID;
  account ← get (account_where (λ a, bool_decide (ac_TenantID a = tenantID) && bool_decide (ac_Role a = RoleTenant)));
  found account.

(** The constraints of an [INSERT INTO accounts] *)
Definition account_clashes (a : Account) (db : IdentityDb) : bool :=
  bool_decide (is_Some (id_accounts db !! ac_ID a))
  || bool_decide (is_Some (account_where (λ b, bool_decide (ac_Username b = ac_Username a)) db))
  || (bool_decide (ac_Role a = RoleOwner)
      && bool_decide (is_Some (account_where (λ b, bool_decide (ac_Role b = RoleOwner)) db))).

Definition new_account (accountID tenantID username displayName : string) (role : Role)
    (passwordHash : string) (expiresAt : option Time) (now : Time) : Account :=
  {| ac_ID := accountID; ac_TenantID := tenantID; ac_Username := username; ac_DisplayName := displayName;
     ac_Role := role; ac_Status := StatusActive; ac_PasswordHash := passwordHash; ac_FailedLoginCount := 0;
     ac_LockedUntil := None; ac_ExpiresAt := expiresAt; ac_ResourceVersion := 1; ac_LastLoginAt := None;
     ac_CreatedAt := now; ac_UpdatedAt := now |}.

Definition hash_fits (passwordHash : string) : bool :=
  negb ((String.length passwordHash <? 32)%nat || (512 <? String.length passwordHash)%nat).

Definition CreateOwner (username displayName passwordHash : string) (random : list N) (now : Time) :
    Id Account :=
  username ← from (NormalizeUsername username);
  displayName ← from (ValidateDisplayName displayName);
  _ ← ensure (hash_fits passwordHash) (IdFailure "owner password hash is invalid");
  let account := new_account (NewID "account" random) "" username displayName RoleOwner passwordHash None now in
  clashes ← get (account_clashes account);
  _ ← ensure (negb clashes) (IdConflict "an Owner or username already exists");
  _ ← put (on_accounts <[ac_ID account := account]>);
  AccountByID (ac_ID account).

Definition OwnerCount (db : IdentityDb) : nat :=
  length (filter (λ kv : string * Account, ac_Role kv.2 = RoleOwner) (map_to_list (id_accounts db))).

(** * Tenants *)
Definition TenantByID (tenantID : string) : Id TenantRow :=
  _ ← ValidateInternalID "tenant_id" tenantID;
  tenant ← get (λ db, id_tenants db !! tenantID);
  found tenant.

Definition TenantPolicy (tenantID : string) : Id Policy :=
  _ ← ValidateInternalID "tenant_id" tenantID;
  policy ← get (λ db, id_policies db !! tenantID);
  found policy.

Section identity.
(** The nodes of the cluster, and the order [Validate] takes its two lists in *)
Context (nodes : gmap string NodeRow) (exit_first : bool).

Definition node_live (nodeID : string) : bool :=
  match nodes !! nodeID with Some n => bool_decide (nd_revoked_at n = None) | None => false end.
Definition validatePolicyNodes (policy : Policy) : Id unit :=
  match filter (λ nodeID, node_live nodeID = false) (po_AllowedIngressNodes policy ++ po_AllowedExitNodes policy) with
  | [] => mret tt
  | nodeID :: _ => deny (IdFailure ("assigned node " +:+ nodeID +:+ " does not exist or is revoked"))
  end.

Definition check_policy (policy : Policy) : Id unit :=
  match Validate exit_first policy with inl e => deny (IdPolicy e) | inr _ => mret tt end.

Record TenantCreate := MkTenantCreate {
  tc_ID : string;
  tc_Name : string;
  tc_Username : string;
  tc_DisplayName : string;
  tc_PasswordHash : string;
  tc_ExpiresAt : option Time;
  tc_InitialPolicy : option Policy;
}.

Definition with_identity (tenantID : string) (version : N) (created updated : Time) (p : Policy) : Policy :=
  {| po_TenantID := tenantID; po_AllowedIngressNodes := po_AllowedIngressNodes p;
     po_AllowedExitNodes := po_AllowedExitNodes p; po_AllowedListenIPs := po_AllowedListenIPs p;
     po_AllowedPortRanges := po_AllowedPortRanges p; po_AllowedProtocols := po_AllowedProtocols p;
     po_AllowViaExit := po_AllowViaExit p; po_MaxForwards := po_MaxForwards p;
     po_IngressRateLimitBPS := po_IngressRateLimitBPS p; po_EgressRateLimitBPS := po_EgressRateLimitBPS p;
     po_TrafficQuotaBytes := po_TrafficQuotaBytes p; po_AllowedTargetCIDRs := po_AllowedTargetCIDRs p;
     po_DeniedTargetCIDRs := po_DeniedTargetCIDRs p; po_ResourceVersion := version;
     po_CreatedAt := created; po_UpdatedAt := updated |}.

Definition initial_policy (tenantID : string) (initial : option Policy) : Id Policy :=
  match initial with
  | None => mret (EmptyPolicy tenantID)
  | Some policy =>
      let policy := CanonicalizePolicy (with_identity tenantID 1 0%Z 0%Z policy) in
      _ ← check_policy policy;
      _ ← validatePolicyNodes policy;
      mret policy
  end.

(** [CHECK (max_forwards BETWEEN 0 AND 1000000)] *)
Definition policy_storable (p : Policy) : Id unit :=
  ensure (po_MaxForwards p <=? 1000000) (IdFailure "CHECK constraint failed").

Definition CreateTenant (input : TenantCreate) (random random' : list N) (now : Time) :
    Id (TenantRow * Account * Policy) :=
  name ← from (ValidateTenantName (tc_Name input));
  username ← from (NormalizeUsername (tc_Username input));
  displayName ← from (ValidateDisplayName (tc_DisplayName input));
  _ ← ensure (hash_fits (tc_PasswordHash input)) (IdFailure "tenant password hash is invalid");
  _ ← ensure (match tc_ExpiresAt input with Some e => Time_Before now e | None => true end)
        (IdFailure "tenant expiry must be in the future");
  let given := TrimSpace (tc_ID input) in
  let tenantID := if bool_decide (given = "") then NewID "tenant" random else given in
  _ ← (if bool_decide (given = "") then mret tt else ValidateInternalID "tenant_id" given);
  policy ← initial_policy tenantID (tc_InitialPolicy input);
  existing ← get (λ db, id_tenants db !! tenantID);
  _ ← ensure (bool_decide (existing = None)) (IdConflict "tenant already exists");
  _ ← put (on_tenants <[tenantID := MkTenantRow name StatusActive (tc_ExpiresAt input) 1 now now]>);
  _ ← policy_storable policy;
  _ ← put (on_policies <[tenantID := with_identity tenantID 1 now now policy]>);
  let account := new_account (NewID "account" random') tenantID username displayName RoleTenant
                   (tc_PasswordHash input) (tc_ExpiresAt input) now in
  clashes ← get (account_clashes account);
  _ ← ensure (negb clashes) (IdConflict "username already exists");
  _ ← put (on_accounts <[ac_ID account := account]>);
  tenant ← TenantByID tenantID;
  account ← AccountByID (ac_ID account);
  policy ← TenantPolicy tenantID;
  mret (tenant, account, policy).

(** [ORDER BY created_at DESC,id LIMIT limit OFFSET offset] *)
Definition less_tenant (a b : string * TenantRow) : bool :=
  if (tr_created_at a.2 =? tr_created_at b.2)%Z then str_lt a.1 b.1
  else (tr_created_at b.2 <? tr_created_at a.2)%Z.
Definition ListTenants (limit offset : Z) (db : IdentityDb) : list (string * TenantRow) :=
  let limit := if (limit <=? 0)%Z || (200 <? limit)%Z then 50%Z else limit in
  take (Z.to_nat limit) (drop (Z.to_nat (Z.max 0 offset))
    (sort_slice less_tenant (map_to_list (id_tenants db)))).

(** Sessions of the accounts of a tenant, or of one account *)
Definition revoke_session (now : Time) (s : SessionRow) : SessionRow :=
  MkSessionRow (ms_csrf_hash s) (ms_account_id s) (ms_expires_at s) (ms_created_at s) (ms_last_seen_at s)
    (Some (default now (ms_revoked_at s))) (ms_remote_ip s) (ms_user_agent s).
Definition revoke_sessions (P : string → bool) (now : Time) : Id unit :=
  put (on_sessions (fmap (λ s, if P (ms_account_id s) then revoke_session now s else s))).
Definition of_tenant (tenantID : string) (db : IdentityDb) (accountID : string) : bool :=
  match id_accounts db !! accountID with Some a => bool_decide (ac_TenantID a = tenantID) | None => false end.

(** Absent, or of another version *)
Definition missing_or_conflict {A} (row : option A) : identity_error :=
  match row with None => IdNotFound | Some _ => IdConflict "" end.

Definition UpdateTenant (tenantID name : string) (status : Status) (expiresAt : option Time)
    (expectedVersion : N) (now : Time) : Id TenantRow :=
  _ ← ValidateInternalID "tenant_id" tenantID;
  name ← from (ValidateTenantName name);
  _ ← ensure (bool_decide (status = StatusActive) || bool_decide (status = StatusDisabled))
        (IdFailure "tenant status is invalid");
  _ ← ensure (negb (expectedVersion =? 0)) (IdFailure "tenant resource_version is required");
  row ← get (λ db, id_tenants db !! tenantID);
  match row with
  | Some t =>
      if tr_resource_version t =? expectedVersion then
        _ ← put (on_tenants <[tenantID :=
              MkTenantRow name status expiresAt (tr_resource_version t + 1) (tr_created_at t) now]>);
        owned ← get (of_tenant tenantID);
        _ ← (if bool_decide (status = StatusDisabled) then revoke_sessions owned now else mret tt);
        TenantByID tenantID
      else deny (IdConflict "")
  | None => deny IdNotFound
  end.

Definition UpdateTenantPolicy (policy : Policy) (now : Time) : Id Policy :=
  let policy := CanonicalizePolicy policy in
  _ ← check_policy policy;
  _ ← validatePolicyNodes policy;
  row ← get (λ db, id_policies db !! po_TenantID policy);
  match row with
  | Some p =>
      if po_ResourceVersion p =? po_ResourceVersion policy then
        _ ← policy_storable policy;
        _ ← put (on_policies <[po_TenantID policy :=
              with_identity (po_TenantID policy) (po_ResourceVersion p + 1) (po_CreatedAt p) now policy]>);
        TenantPolicy (po_TenantID policy)
      else deny (IdConflict "")
  | None => deny IdNotFound
  end.

(** * Passwords and logins *)
Definition with_password (passwordHash : string) (now : Time) (a : Account) : Account :=
  {| ac_ID := ac_ID a; ac_TenantID := ac_TenantID a; ac_Username := ac_Username a;
     ac_DisplayName := ac_DisplayName a; ac_Role := ac_Role a; ac_Status := ac_Status a;
     ac_PasswordHash := passwordHash; ac_FailedLoginCount := 0; ac_LockedUntil := None;
     ac_ExpiresAt := ac_ExpiresAt a; ac_ResourceVersion := ac_ResourceVersion a + 1;
     ac_LastLoginAt := ac_LastLoginAt a; ac_CreatedAt := ac_CreatedAt a; ac_UpdatedAt := now |}.

Definition ReplaceAccountPassword (accountID passwordHash : string) (expectedVersion : N) (now : Time) :
    Id Account :=
  _ ← ValidateInternalID "account_id" accountID;
  _ ← ensure (hash_fits passwordHash) (IdFailure "account password hash is invalid");
  _ ← ensure (negb (expectedVersion =? 0)) (IdFailure "account resource_version is required");
  row ← get (λ db, id_accounts db !! accountID);
  match row with
  | Some a =>
      if ac_ResourceVersion a =? expectedVersion then
        _ ← put (on_accounts <[accountID := with_password passwordHash now a]>);
        _ ← revoke_sessions (λ id, bool_decide (id = accountID)) now;
        AccountByID accountID
      else deny (IdConflict "")
  | None => deny IdNotFound
  end.

Definition with_login (failures : N) (locked : option Time) (last : option Time) (now : Time) (a : Account) : Account :=
  {| ac_ID := ac_ID a; ac_TenantID := ac_TenantID a; ac_Username := ac_Username a;
     ac_DisplayName := ac_DisplayName a; ac_Role := ac_Role a; ac_Status := ac_Status a;
     ac_PasswordHash := ac_PasswordHash a; ac_FailedLoginCount := failures; ac_LockedUntil := locked;
     ac_ExpiresAt := ac_ExpiresAt a; ac_ResourceVersion := ac_ResourceVersion a;
     ac_LastLoginAt := last; ac_CreatedAt := ac_CreatedAt a; ac_UpdatedAt := now |}.

Definition fail_login (now : Time) (a : Account) : Account :=
  let failures := ac_FailedLoginCount a + 1 in
  with_login failures
    (if 5 <=? failures then Some (Time_Add now (15 * Minute)) else ac_LockedUntil a)
    (ac_LastLoginAt a) now a.
Definition RecordLoginFailure (accountID : string) (now : Time) : Id unit :=
  put (on_accounts (alter (fail_login now) accountID)).
Definition RecordLoginSuccess (accountID : string) (now : Time) : Id unit :=
  put (on_accounts (alter (λ a, with_login 0 None (Some now) now a) accountID)).

(** * Sessions *)
Record Session := MkSession { ss_Account : Account; ss_CSRFHash : list N; ss_ExpiresAt : Time }.

Definition check_available (a : Account) (now : Time) : Id unit :=
  match Available a now with inl _ => deny IdUnauthenticated | inr _ => mret tt end.

(** A tenant that can act *)
Definition tenant_open (now : Time) (t : TenantRow) : bool :=
  bool_decide (tr_status t = StatusActive)
  && match tr_expires_at t with Some e => Time_Before now e | None => true end.
Definition account_open (now : Time) (a : Account) (db : IdentityDb) : bool :=
  negb (bool_decide (ac_Role a = RoleTenant))
  || match id_tenants db !! ac_TenantID a with Some t => tenant_open now t | None => false end.

Definition CreateManagementSession (accountID : string) (ttl : Z) (remoteIP userAgent : string)
    (random random' : list N) (now : Time) : Id (string * string * Session) :=
  _ ← ensure (negb ((ttl <? 5 * Minute)%Z || (30 * 24 * Hour <? ttl)%Z))
        (IdFailure "management session TTL must be between five minutes and 30 days");
  account ← AccountByID accountID;
  _ ← check_available account now;
  opened ← get (account_open now account);
  _ ← ensure opened IdUnauthenticated;
  let '(token, tokenHash) := NewSecret random in
  let '(csrf, csrfHash) := NewSecret random' in
  let expiresAt := Time_Add now ttl in
  let expiresAt := match ac_ExpiresAt account with
                   | Some e => if Time_After expiresAt e then e else expiresAt
                   | None => expiresAt
                   end in
  existing ← get (λ db, id_sessions db !! tokenHash);
  _ ← ensure (bool_decide (existing = None)) (IdFailure "UNIQUE constraint failed");
  _ ← put (on_sessions <[tokenHash := MkSessionRow csrfHash accountID expiresAt now now None
                                        (truncate_to remoteIP 128) (truncate_to userAgent 512)]>);
  mret (token, csrf, MkSession account csrfHash expiresAt).

Definition touch_session (now : Time) (s : SessionRow) : SessionRow :=
  MkSessionRow (ms_csrf_hash s) (ms_account_id s) (ms_expires_at s) (ms_created_at s)
    (if (ms_last_seen_at s <? Time_Add now (- (5 * Minute)))%Z then now else ms_last_seen_at s)
    (ms_revoked_at s) (ms_remote_ip s) (ms_user_agent s).

Definition ManagementSession (rawToken : string) (now : Time) : Id Session :=
  _ ← ensure (negb ((String.length rawToken <? 32)%nat || (128 <? String.length rawToken)%nat)) IdUnauthenticated;
  let hash := HashSecret rawToken in
  row ← get (λ db, id_sessions db !! hash);
  match row with
  | None => deny IdUnauthenticated
  | Some s =>
      _ ← ensure (bool_decide (ms_revoked_at s = None) && (now <? ms_expires_at s)%Z) IdUnauthenticated;
      account ← get (λ db, id_accounts db !! ms_account_id s);
      match account with
      | None => deny IdUnauthenticated
      | Some account =>
          _ ← check_available account now;
          opened ← get (account_open now account);
          _ ← ensure opened IdUnauthenticated;
          _ ← ensure (length (ms_csrf_hash s) =? 32)%nat IdUnauthenticated;
          _ ← put (on_sessions (alter (touch_session now) hash));
          mret (MkSession account (ms_csrf_hash s) (ms_expires_at s))
      end
  end.

Definition RevokeManagementSession (rawToken : string) (now : Time) : Id unit :=
  put (on_sessions (alter (revoke_session now) (HashSecret rawToken))).

(** * The audit *)
Definition audit_references (e : AuditEvent) (db : IdentityDb) : bool :=
  (bool_decide (ev_ActorAccountID e = "") || bool_decide (is_Some (id_accounts db !! ev_ActorAccountID e)))
  && (bool_decide (ev_TenantID e = "") || bool_decide (is_Some (id_tenants db !! ev_TenantID e))).
Definition stored_event (e : AuditEvent) : AuditEvent :=
  MkAuditEvent (ev_ActorAccountID e) (truncate_to (ev_ActorUsername e) 64) (ev_ActorRole e) (ev_TenantID e)
    (ev_Action e) (ev_ResourceType e) (truncate_to (ev_ResourceID e) 128) (ev_Outcome e)
    (truncate_to (ev_SourceIP e) 128) (ev_Detail e).

Definition RecordManagementAudit (e : AuditEvent) (now : Time) : Id unit :=
  _ ← ensure (negb (bool_decide (ev_Action e = "") || (128 <? String.length (ev_Action e))%nat
                    || bool_decide (ev_ResourceType e = "") || (64 <? String.length (ev_ResourceType e))%nat))
        (IdFailure "management audit event is invalid");
  _ ← ensure (bool_decide (ev_Outcome e ∈ ["success"; "denied"; "error"]))
        (IdFailure "management audit outcome is invalid");
  _ ← ensure (negb (65536 <? N.of_nat (String.length (ev_Detail e))))
        (IdFailure "management audit detail is too large");
  _ ← ensure (bool_decide (ev_ActorRole e ∈ [""; "owner"; "tenant"; "system"])) (IdFailure "CHECK constraint failed");
  references ← get (audit_references e);
  _ ← ensure references (IdFailure "FOREIGN KEY constraint failed");
  put (on_audit (λ l, l ++ [(stored_event e, now)])).

(** The newest first; events of one time by their number, the latest first. *)
Definition less_audit (a b : nat * (AuditEvent * Time)) : bool :=
  if (a.2.2 =? b.2.2)%Z then (b.1 <? a.1)%nat else (b.2.2 <? a.2.2)%Z.
Definition ListManagementAudit (limit offset : Z) (db : IdentityDb) : list (nat * (AuditEvent * Time)) :=
  let limit := if (limit <=? 0)%Z || (500 <? limit)%Z then 100%Z else limit in
  take (Z.to_nat limit) (drop (Z.to_nat (Z.max 0 offset))
    (sort_slice less_audit (imap pair (id_audit db)))).
End identity.
