(* ===== verification/ControlIdentityFacts.v ===== *)
(** What holds of accounts: the tables stay well formed, and a session that was
    ended stays ended. *)
From S2P Require Import Prelude.
From S2P Require Import GoNet.
From S2P Require Import GoCrypto.
From S2P Require Import SpecTypes.
From S2P Require Import SpecValidate.
From S2P Require Import Hostname.
From S2P Require Import Iam.
From S2P Require Import ControlDb.
From S2P Require Import ControlNodes.
From S2P Require Import ControlIdentity.

(** * Following an operation that succeeds *)
Lemma id_get {A B} (f : IdentityDb → A) (g : A → Id B) db r : (get f ≫= g) db = r → g (f db) db = r.
Proof. done. Qed.
Lemma id_put {B} (f : IdentityDb → IdentityDb) (g : unit → Id B) db r :
  (put f ≫= g) db = r → g tt (f db) = r.
Proof. done. Qed.
Lemma id_ensure {B} c e (g : unit → Id B) db r :
  (ensure c e ≫= g) db = inr r → c = true ∧ g tt db = inr r.
Proof. by destruct c. Qed.
Lemma id_from {A B} (r : identity_error + A) (g : A → Id B) db r' :
  (from r ≫= g) db = inr r' → ∃ a, r = inr a ∧ g a db = inr r'.
Proof. destruct r; [done|]. eauto. Qed.
Lemma id_found {A B} (row : option A) (g : A → Id B) db r :
  (found row ≫= g) db = inr r → ∃ a, row = Some a ∧ g a db = inr r.
Proof. destruct row; [|done]. eauto. Qed.
Lemma id_bind {A B} (m : Id A) (g : A → Id B) db r :
  (m ≫= g) db = inr r → ∃ db' a, m db = inr (db', a) ∧ g a db' = inr r.
Proof. unfold mbind, Id_bind. destruct (m db) as [|[db' a]]; [done|]. eauto. Qed.
Lemma id_valid {B} name value (g : unit → Id B) db r :
  (ValidateInternalID name value ≫= g) db = inr r → validIdentifier value = true ∧ g tt db = inr r.
Proof. unfold ValidateInternalID, ValidateIdentifier. by destruct (validIdentifier value). Qed.

Ltac id_step H :=
  first
    [ apply id_get in H | apply id_put in H
    | let E := fresh "E" in apply id_ensure in H as [E H]
    | let a := fresh "a" in let E := fresh "E" in apply id_from in H as (a & E & H)
    | let a := fresh "a" in let E := fresh "E" in apply id_found in H as (a & E & H)
    | let E := fresh "E" in apply id_valid in H as [E H] ].
Ltac id_steps H := repeat id_step H.

Lemma AccountByID_inv id db db' a :
  AccountByID id db = inr (db', a) → db' = db ∧ id_accounts db !! id = Some a.
Proof.
  unfold AccountByID. intros H. id_steps H. unfold found in H. destruct (id_accounts db !! id); [|done].
  by injection H as <- <-.
Qed.
Lemma TenantByID_inv id db db' t :
  TenantByID id db = inr (db', t) → db' = db ∧ id_tenants db !! id = Some t.
Proof.
  unfold TenantByID. intros H. id_steps H. unfold found in H. destruct (id_tenants db !! id); [|done].
  by injection H as <- <-.
Qed.
Lemma TenantByID_valid id db r : TenantByID id db = inr r → validIdentifier id = true.
Proof. unfold TenantByID. by intros [? _]%id_valid. Qed.
Lemma TenantPolicy_inv id db db' p :
  TenantPolicy id db = inr (db', p) → db' = db ∧ id_policies db !! id = Some p.
Proof.
  unfold TenantPolicy. intros H. id_steps H. unfold found in H. destruct (id_policies db !! id); [|done].
  by injection H as <- <-.
Qed.

#[local] Opaque AccountByID TenantByID TenantPolicy.

(** * Well-formed tables *)

(** An account is filed under its number, has a normal name and a hash that
    fits, and is the owner's or that of a tenant that exists. *)
Record account_ok (db : IdentityDb) (id : string) (a : Account) : Prop := {
  ak_id : ac_ID a = id;
  ak_username : usernamePattern (ac_Username a) = true;
  ak_hash : hash_fits (ac_PasswordHash a) = true;
  ak_version : 1 ≤ ac_ResourceVersion a;
  ak_role : ac_Role a = RoleOwner ∧ ac_TenantID a = ""
            ∨ ac_Role a = RoleTenant ∧ is_Some (id_tenants db !! ac_TenantID a);
}.

Record tenant_ok (db : IdentityDb) (id : string) (t : TenantRow) : Prop := {
  tk_id : validIdentifier id = true;
  tk_name : tr_name t ≠ "" ∧ (String.length (tr_name t) <= 128)%nat;
  tk_status : tr_status t = StatusActive ∨ tr_status t = StatusDisabled;
  tk_version : 1 ≤ tr_resource_version t;
  tk_account : ∃ a, id_accounts db !! ac_ID a = Some a ∧ ac_TenantID a = id ∧ ac_Role a = RoleTenant;
  tk_policy : is_Some (id_policies db !! id);
}.

Record policy_ok (db : IdentityDb) (id : string) (p : Policy) : Prop := {
  pk_id : po_TenantID p = id;
  pk_tenant : is_Some (id_tenants db !! id);
  pk_valid : policy_valid p;
}.

Record session_ok (db : IdentityDb) (hash : list N) (s : SessionRow) : Prop := {
  sk_account : is_Some (id_accounts db !! ms_account_id s);
  sk_times : (ms_created_at s ≤ ms_last_seen_at s)%Z;
}.

Record identity_ok (db : IdentityDb) : Prop := {
  io_accounts id a : id_accounts db !! id = Some a → account_ok db id a;
  io_tenants id t : id_tenants db !! id = Some t → tenant_ok db id t;
  io_policies id p : id_policies db !! id = Some p → policy_ok db id p;
  io_sessions h s : id_sessions db !! h = Some s → session_ok db h s;
  io_usernames i j a b :
    id_accounts db !! i = Some a → id_accounts db !! j = Some b → ac_Username a = ac_Username b → i = j;
  io_owner i j a b :
    id_accounts db !! i = Some a → id_accounts db !! j = Some b →
    ac_Role a = RoleOwner → ac_Role b = RoleOwner → i = j;
  io_one_account i j a b :
    id_accounts db !! i = Some a → id_accounts db !! j = Some b →
    ac_Role a = RoleTenant → ac_Role b = RoleTenant → ac_TenantID a = ac_TenantID b → i = j;
}.

Lemma identity_empty : identity_ok IdentityEmpty.
Proof. split; cbn; intros *; rewrite lookup_empty; done. Qed.

(** ** Changes of one table *)

(** Who an account is does not change; its hash still fits. *)
Definition same_person (a b : Account) : Prop :=
  ac_ID a = ac_ID b ∧ ac_TenantID a = ac_TenantID b ∧ ac_Username a = ac_Username b ∧ ac_Role a = ac_Role b
  ∧ ac_ResourceVersion a ≤ ac_ResourceVersion b
  ∧ (hash_fits (ac_PasswordHash a) = true → hash_fits (ac_PasswordHash b) = true).

Section changes.
Context (db : IdentityDb) (H : identity_ok db).

Lemma accounts_same id a a' :
  id_accounts db !! id = Some a → same_person a a' → identity_ok (on_accounts <[id := a']> db).
Proof using H.
  intros Ha (S1 & S2 & S3 & S4 & S5 & S6). destruct H as [H1 H2 H3 H4 H5 H6 H7].
  assert (∀ i b', <[id := a']> (id_accounts db) !! i = Some b' →
    ∃ b, id_accounts db !! i = Some b ∧ same_person b b') as Hback.
  { intros i b' [[<- <-]|[? ?]]%lookup_insert_Some; [exists a|exists b']; split; try done;
      unfold same_person; split_and!; done || lia. }
  split; cbn.
  - intros i b' (b & Hb & T1 & T2 & T3 & T4 & T5 & T6)%Hback.
    destruct (H1 i b Hb) as [A1 A2 A3 A4 A5]. rewrite T1 in A1. rewrite T3 in A2. rewrite T2, T4 in A5.
    split; [done|done|auto|lia|done].
  - intros i t Ht. destruct (H2 i t Ht) as [A1 A2 A3 A4 (b & Hb & Hb1 & Hb2) A6]. split; try done.
    destruct (decide (ac_ID b = id)) as [Heq|Hne].
    + rewrite Heq, Ha in Hb. injection Hb as ->. exists a'. cbn. rewrite <- S1, Heq, lookup_insert_eq.
      split_and!; congruence.
    + exists b. cbn. by rewrite lookup_insert_ne by done.
  - intros i p Hp. by destruct (H3 i p Hp).
  - intros h s Hs. destruct (H4 h s Hs) as [[b Hb] ?]. split; [|done]. cbn.
    destruct (decide (ms_account_id s = id)) as [->|]; [by rewrite lookup_insert_eq|]. by rewrite lookup_insert_ne, Hb.
  - intros i j b' c' (b & Hb & _ & _ & T & _)%Hback (c & Hc & _ & _ & T' & _)%Hback Heq.
    apply (H5 i j b c); congruence.
  - intros i j b' c' (b & Hb & _ & _ & _ & T & _)%Hback (c & Hc & _ & _ & _ & T' & _)%Hback ? ?.
    apply (H6 i j b c); congruence.
  - intros i j b' c' (b & Hb & _ & Tt & _ & T & _)%Hback (c & Hc & _ & Tt' & _ & T' & _)%Hback ? ? ?.
    apply (H7 i j b c); congruence.
Qed.

Lemma accounts_alter id f : (∀ a, same_person a (f a)) → identity_ok (on_accounts (alter f id) db).
Proof using H.
  intros Hf. destruct (id_accounts db !! id) as [a|] eqn:Ha.
  - replace (on_accounts (alter f id) db) with (on_accounts <[id := f a]> db).
    { by eapply accounts_same. }
    unfold on_accounts. f_equal. apply map_eq. intros i. destruct (decide (i = id)) as [->|].
    + by rewrite lookup_insert_eq, lookup_alter_eq, Ha.
    + by rewrite lookup_insert_ne, lookup_alter_ne by done.
  - replace (on_accounts (alter f id) db) with db; [done|]. destruct db as [t ac p s au]. unfold on_accounts. f_equal.
    apply map_eq. intros i. cbn in Ha |- *. destruct (decide (i = id)) as [->|].
    + by rewrite lookup_alter_eq, Ha.
    + by rewrite lookup_alter_ne.
Qed.

(** Sessions may go and change as long as their accounts stay. *)
Lemma sessions_change f :
  (∀ h s', f (id_sessions db) !! h = Some s' → session_ok db h s') → identity_ok (on_sessions f db).
Proof using H. intros Hf. destruct H as [H1 H2 H3 H4 H5 H6 H7]. split; try done; cbn.
  - intros i a Ha. by destruct (H1 i a Ha).
  - intros i t Ht. by destruct (H2 i t Ht).
  - intros i p Hp. by destruct (H3 i p Hp).
  - intros h s Hs%Hf. by destruct Hs.
Qed.

Lemma sessions_alter h f :
  (∀ s, session_ok db h s → session_ok db h (f s)) → identity_ok (on_sessions (alter f h) db).
Proof using H.
  intros Hf. apply sessions_change. intros i s [(-> & s0 & Hs & ->)|[? Hs]]%lookup_alter_Some.
  - apply Hf. by apply (io_sessions db H).
  - by apply (io_sessions db H).
Qed.

Lemma audit_change f : identity_ok (on_audit f db).
Proof using H.
  destruct H as [H1 H2 H3 H4 H5 H6 H7]. split; try done; cbn.
  - intros i a Ha. by destruct (H1 i a Ha).
  - intros i t Ht. by destruct (H2 i t Ht).
  - intros i p Hp. by destruct (H3 i p Hp).
  - intros h s Hs. by destruct (H4 h s Hs).
Qed.

Lemma tenants_change id t t' :
  id_tenants db !! id = Some t → tr_name t' ≠ "" → (String.length (tr_name t') <= 128)%nat →
  tr_status t' = StatusActive ∨ tr_status t' = StatusDisabled → tr_resource_version t ≤ tr_resource_version t' →
  identity_ok (on_tenants <[id := t']> db).
Proof using H.
  intros Ht Hn Hl Hs Hv. destruct H as [H1 H2 H3 H4 H5 H6 H7].
  assert (∀ i, is_Some (id_tenants db !! i) → is_Some (<[id := t']> (id_tenants db) !! i)) as Hsome.
  { intros i Hi. destruct (decide (i = id)) as [->|]; [by rewrite lookup_insert_eq|by rewrite lookup_insert_ne]. }
  split; try done; cbn.
  - intros i a Ha. destruct (H1 i a Ha) as [A1 A2 A3 A4 A5]. split; try done. destruct A5 as [|[? ?%Hsome]]; auto.
  - intros i u [[<- <-]|[? Hu]]%lookup_insert_Some.
    + destruct (H2 id t Ht) as [A1 A2 A3 A4 A5 A6]. split; try done. lia.
    + by destruct (H2 i u Hu).
  - intros i p Hp. destruct (H3 i p Hp) as [A1 A2 A3]. split; auto.
  - intros h s Hss. by destruct (H4 h s Hss).
Qed.

Lemma policies_change id p p' :
  id_policies db !! id = Some p → po_TenantID p' = id → policy_valid p' →
  identity_ok (on_policies <[id := p']> db).
Proof using H.
  intros Hp Hid Hv. destruct H as [H1 H2 H3 H4 H5 H6 H7]. split; try done; cbn.
  - intros i a Ha. by destruct (H1 i a Ha).
  - intros i t Ht. destruct (H2 i t Ht) as [A1 A2 A3 A4 A5 A6]. split; try done. cbn.
    destruct (decide (i = id)) as [->|]; [by rewrite lookup_insert_eq|by rewrite lookup_insert_ne].
  - intros i q [[<- <-]|[? Hq]]%lookup_insert_Some.
    + split; [done|by destruct (H3 id p Hp)|done].
    + by destruct (H3 i q Hq).
  - intros h s Hs. by destruct (H4 h s Hs).
Qed.
End changes.

(** ** The operations *)
Definition id_keeps {A} (m : Id A) : Prop := ∀ db db' a, identity_ok db → m db = inr (db', a) → identity_ok db'.

Lemma NormalizeUsername_ok value name : NormalizeUsername value = inr name → usernamePattern name = true.
Proof. unfold NormalizeUsername. case_match eqn:E; [|done]. by intros [= <-]. Qed.
Lemma validate_name_ok message value name :
  validate_name message value = inr name → name ≠ "" ∧ (String.length name <= 128)%nat.
Proof.
  unfold validate_name. destruct (_ || _) eqn:E; [done|]. intros [= <-].
  apply orb_false_iff in E as [E1%Nat.eqb_neq E2%Nat.ltb_ge]. split; [|done]. intros E. by rewrite E in E1.
Qed.

Lemma account_where_none P db i a : account_where P db = None → id_accounts db !! i = Some a → P a = false.
Proof.
  unfold account_where. intros Hn Ha. apply not_true_is_false. intros HP.
  assert ((i, a) ∈ filter (λ kv : string * Account, P kv.2 = true) (map_to_list (id_accounts db))) as Hin.
  { apply list_elem_of_filter. split; [done|]. by apply elem_of_map_to_list. }
  by destruct (filter _ _); [apply not_elem_of_nil in Hin|].
Qed.

(** A new account clashes with none. *)
Lemma account_clashes_spec a db :
  account_clashes a db = false →
  id_accounts db !! ac_ID a = None
  ∧ (∀ i b, id_accounts db !! i = Some b → ac_Username b ≠ ac_Username a)
  ∧ (ac_Role a = RoleOwner → ∀ i b, id_accounts db !! i = Some b → ac_Role b ≠ RoleOwner).
Proof.
  unfold account_clashes. intros [[H1 H2]%orb_false_iff H3]%orb_false_iff. split_and!.
  - apply eq_None_not_Some. by apply bool_decide_eq_false in H1.
  - intros i b Hb. clear H3. apply bool_decide_eq_false in H2. destruct (account_where _ db) eqn:E; [by destruct H2|].
    by apply (account_where_none _ _ _ _ E), bool_decide_eq_false in Hb.
  - intros Hr i b Hb. rewrite (bool_decide_eq_true_2 (ac_Role a = RoleOwner)) in H3 by done.
    clear H2. apply bool_decide_eq_false in H3. destruct (account_where _ db) eqn:E; [by destruct H3|].
    by apply (account_where_none _ _ _ _ E), bool_decide_eq_false in Hb.
Qed.

(** A new account of a person that is there: the owner, or a tenant without one. *)
Lemma new_account_ok db a :
  identity_ok db → account_clashes a db = false → usernamePattern (ac_Username a) = true →
  hash_fits (ac_PasswordHash a) = true → ac_ResourceVersion a = 1 → ac_Role a = RoleOwner → ac_TenantID a = "" →
  identity_ok (on_accounts <[ac_ID a := a]> db).
Proof.
  intros H (C1 & C2 & C3)%account_clashes_spec Hu Hh Hv Hr Ht. destruct H as [H1 H2 H3 H4 H5 H6 H7].
  specialize (C3 Hr).
  assert (∀ i b, id_accounts db !! i = Some b → i ≠ ac_ID a) as Hne by congruence.
  split; cbn.
  - intros i b [[<- <-]|[? Hb]]%lookup_insert_Some; [split; auto; lia|]. by destruct (H1 i b Hb).
  - intros i t Htt. destruct (H2 i t Htt) as [A1 A2 A3 A4 (b & Hb & ? & ?) A6]. split; try done.
    exists b. cbn. rewrite lookup_insert_ne by (symmetry; eauto). done.
  - intros i p Hp. by destruct (H3 i p Hp).
  - intros h s Hs. destruct (H4 h s Hs) as [[b Hb] ?]. split; [|done]. cbn.
    rewrite lookup_insert_ne by (symmetry; eauto). by rewrite Hb.
  - intros i j b c [[<- <-]|[? Hb]]%lookup_insert_Some [[<- <-]|[? Hc]]%lookup_insert_Some Heq; try done.
    + by destruct (C2 j c Hc).
    + by destruct (C2 i b Hb).
    + by apply (H5 i j b c).
  - intros i j b c [[<- <-]|[? Hb]]%lookup_insert_Some [[<- <-]|[? Hc]]%lookup_insert_Some Hrb Hrc; try done.
    + by destruct (C3 j c Hc).
    + by destruct (C3 i b Hb).
    + by apply (H6 i j b c).
  - intros i j b c [[<- <-]|[? Hb]]%lookup_insert_Some [[<- <-]|[? Hc]]%lookup_insert_Some Hrb Hrc Htt; try done.
    + by rewrite Hr in Hrb.
    + by rewrite Hr in Hrc.
    + by apply (H7 i j b c).
Qed.

(** A tenant comes with its policy and its account. *)
Definition add_tenant (id : string) (t : TenantRow) (p : Policy) (a : Account) (db : IdentityDb) : IdentityDb :=
  on_accounts <[ac_ID a := a]> (on_policies <[id := p]> (on_tenants <[id := t]> db)).

Lemma new_tenant_ok db id t p a :
  identity_ok db → id_tenants db !! id = None → validIdentifier id = true →
  tr_name t ≠ "" ∧ (String.length (tr_name t) <= 128)%nat → tr_status t = StatusActive → tr_resource_version t = 1 →
  po_TenantID p = id → policy_valid p →
  account_clashes a (on_policies <[id := p]> (on_tenants <[id := t]> db)) = false →
  usernamePattern (ac_Username a) = true → hash_fits (ac_PasswordHash a) = true → ac_ResourceVersion a = 1 →
  ac_Role a = RoleTenant → ac_TenantID a = id → identity_ok (add_tenant id t p a db).
Proof.
  intros H Hid Hval Hn Hs Hv Hpid Hp (C1 & C2 & _)%account_clashes_spec Hu Hh Hav Hr Ht. cbn in C1, C2.
  destruct H as [H1 H2 H3 H4 H5 H6 H7].
  assert (∀ i b, id_accounts db !! i = Some b → i ≠ ac_ID a) as Hne by congruence.
  assert (∀ i b, id_accounts db !! i = Some b → ac_Role b = RoleTenant → ac_TenantID b ≠ id) as Hto.
  { intros i b Hb Hrb Heq. destruct (H1 i b Hb) as [_ _ _ _ [[Ho _]|[_ [u Hu']]]]; [by rewrite Hrb in Ho|congruence]. }
  assert (∀ i, is_Some (id_tenants db !! i) → is_Some (<[id := t]> (id_tenants db) !! i)) as Hsome.
  { intros i Hi. destruct (decide (i = id)) as [->|]; [by rewrite lookup_insert_eq|by rewrite lookup_insert_ne]. }
  split; cbn.
  - intros i b [[<- <-]|[? Hb]]%lookup_insert_Some.
    + split; cbn; auto; [lia|]. right. split; [done|]. rewrite Ht. by rewrite lookup_insert_eq.
    + destruct (H1 i b Hb) as [A1 A2 A3 A4 A5]. split; auto. destruct A5 as [|[? ?%Hsome]]; auto.
  - intros i u [[<- <-]|[? Hu']]%lookup_insert_Some.
    + split; cbn; [done..|auto|lia| |by rewrite lookup_insert_eq].
      exists a. by rewrite lookup_insert_eq.
    + destruct (H2 i u Hu') as [A1 A2 A3 A4 (b & Hb & ? & ?) A6]. split; try done; cbn.
      * exists b. rewrite lookup_insert_ne by (symmetry; eauto). done.
      * by rewrite lookup_insert_ne.
  - intros i q [[<- <-]|[? Hq]]%lookup_insert_Some.
    + split; cbn; [done|by rewrite lookup_insert_eq|done].
    + destruct (H3 i q Hq) as [A1 A2 A3]. split; cbn; auto.
  - intros h s Hss. destruct (H4 h s Hss) as [[b Hb] ?]. split; [|done]. cbn.
    rewrite lookup_insert_ne by (symmetry; eauto). by rewrite Hb.
  - intros i j b c [[<- <-]|[? Hb]]%lookup_insert_Some [[<- <-]|[? Hc]]%lookup_insert_Some Heq; try done.
    + by destruct (C2 j c Hc).
    + by destruct (C2 i b Hb).
    + by apply (H5 i j b c).
  - intros i j b c [[<- <-]|[? Hb]]%lookup_insert_Some [[<- <-]|[? Hc]]%lookup_insert_Some Hrb Hrc; try done.
    + by rewrite Hr in Hrb.
    + by rewrite Hr in Hrc.
    + by apply (H6 i j b c).
  - intros i j b c [[<- <-]|[? Hb]]%lookup_insert_Some [[<- <-]|[? Hc]]%lookup_insert_Some Hrb Hrc Htt; try done.
    + by destruct (Hto j c Hc Hrc); congruence.
    + by destruct (Hto i b Hb Hrb); congruence.
    + by apply (H7 i j b c).
Qed.

Lemma CreateOwner_ok username displayName passwordHash random now :
  id_keeps (CreateOwner username displayName passwordHash random now).
Proof.
  intros db db' a H. unfold CreateOwner. intros E. id_steps E.
  apply AccountByID_inv in E as [-> _]. apply negb_true_iff in E3.
  apply new_account_ok; try done. by eapply NormalizeUsername_ok.
Qed.

Section operations.
Context (nodes : gmap string NodeRow) (exit_first : bool).

Lemma check_policy_inv p {B} (g : unit → Id B) db r :
  (check_policy exit_first p ≫= g) db = inr r → policy_valid p ∧ g tt db = inr r.
Proof.
  unfold check_policy. destruct (Validate exit_first p) as [|u] eqn:E; [done|].
  apply Validate_ok in E. done.
Qed.
Lemma validatePolicyNodes_inv p {B} (g : unit → Id B) db r :
  (validatePolicyNodes nodes p ≫= g) db = inr r → g tt db = inr r.
Proof. unfold validatePolicyNodes. by destruct (filter _ _). Qed.

Lemma with_identity_valid id version created updated p :
  policy_valid p → validIdentifier id = true → version ≠ 0 →
  policy_valid (with_identity id version created updated p).
Proof. intros [] Hid Hv. by split. Qed.

Lemma EmptyPolicy_valid id : validIdentifier id = true → policy_valid (EmptyPolicy id).
Proof. intros Hid. apply (Validate_ok true _ tt). unfold Validate, ValidateIdentifier. cbn. by rewrite Hid. Qed.

Lemma initial_policy_inv id initial {B} (g : Policy → Id B) db r :
  (initial_policy nodes exit_first id initial ≫= g) db = inr r →
  ∃ p, (validIdentifier id = true → policy_valid p) ∧ g p db = inr r.
Proof.
  unfold initial_policy. destruct initial as [p|]; intros H.
  - apply id_bind in H as (db1 & q & H1 & H2). apply check_policy_inv in H1 as [Hv H1].
    apply validatePolicyNodes_inv in H1. injection H1 as <- <-. eauto.
  - exists (EmptyPolicy id). split; [by apply EmptyPolicy_valid|done].
Qed.

Lemma CreateTenant_ok input random random' now :
  id_keeps (CreateTenant nodes exit_first input random random' now).
Proof.
  intros db db' r H. unfold CreateTenant. intros E. id_steps E. cbv zeta in E.
  set (id := if bool_decide (TrimSpace (tc_ID input) = "") then _ else _) in E.
  apply id_bind in E as (db1 & [] & Hid & E).
  assert (db1 = db) as ->.
  { destruct (bool_decide _); [by injection Hid|]. unfold ValidateInternalID in Hid.
    destruct (ValidateIdentifier _ _); [done|]. by injection Hid. }
  apply initial_policy_inv in E as (p & Hp & E). id_steps E.
  apply id_bind in E as (db2 & t & Ht & E). pose proof (TenantByID_valid _ _ _ Ht) as Hval.
  apply TenantByID_inv in Ht as [-> _].
  apply id_bind in E as (db3 & b & [-> _]%AccountByID_inv & E).
  apply id_bind in E as (db4 & q & [-> _]%TenantPolicy_inv & [= <- <-]).
  rewrite negb_true_iff in *. apply bool_decide_eq_true in E5.
  apply new_tenant_ok; try done.
  - by eapply validate_name_ok.
  - apply with_identity_valid; [by apply Hp|done|done].
  - by eapply NormalizeUsername_ok.
Qed.

(** Sessions that are ended *)
Lemma revoke_session_ok db h now s : session_ok db h s → session_ok db h (revoke_session now s).
Proof. intros []. by split. Qed.
Lemma revoke_sessions_ok P now : id_keeps (revoke_sessions P now).
Proof.
  intros db db' [] H [= <-]. apply sessions_change; [done|]. intros h s.
  rewrite lookup_fmap. intros (s0 & Hs & ->)%fmap_Some.
  pose proof (io_sessions _ H _ _ Hs). case_match; [by apply revoke_session_ok|done].
Qed.

Lemma UpdateTenant_ok tenantID name status expiresAt version now :
  id_keeps (UpdateTenant tenantID name status expiresAt version now).
Proof.
  intros db db' t H. unfold UpdateTenant. intros E. id_steps E.
  destruct (id_tenants db !! tenantID) as [u|] eqn:Hu; [|done].
  destruct (tr_resource_version u =? version); [|done]. id_steps E.
  apply id_bind in E as (db1 & [] & Hrun & E). apply TenantByID_inv in E as [-> _].
  assert (identity_ok (on_tenants <[tenantID := MkTenantRow a status expiresAt (tr_resource_version u + 1) (tr_created_at u) now]> db)) as H1.
  { apply (tenants_change _ H _ u); cbn; try done; [by eapply validate_name_ok..| |lia].
    match goal with Hst : _ || _ = true |- _ =>
      apply orb_true_iff in Hst as [?%bool_decide_eq_true|?%bool_decide_eq_true]; auto end. }
  case_match; [|by injection Hrun as <-]. by eapply revoke_sessions_ok.
Qed.

Lemma CanonicalizePolicy_tenant p : po_TenantID (CanonicalizePolicy p) = po_TenantID p.
Proof. reflexivity. Qed.

Lemma UpdateTenantPolicy_ok policy now : id_keeps (UpdateTenantPolicy nodes exit_first policy now).
Proof.
  intros db db' p H. unfold UpdateTenantPolicy. cbv zeta. intros E.
  apply check_policy_inv in E as [Hv E]. apply validatePolicyNodes_inv in E. id_steps E.
  destruct (id_policies db !! _) as [q|] eqn:Hq; [|done].
  destruct (po_ResourceVersion q =? _); [|done]. id_steps E. apply TenantPolicy_inv in E as [-> _].
  apply (policies_change _ H _ q); [done|done|].
  apply with_identity_valid; [done|by destruct Hv|lia].
Qed.

Lemma ReplaceAccountPassword_ok accountID passwordHash version now :
  id_keeps (ReplaceAccountPassword accountID passwordHash version now).
Proof.
  intros db db' a H. unfold ReplaceAccountPassword. intros E. id_steps E.
  destruct (id_accounts db !! accountID) as [b|] eqn:Hb; [|done].
  destruct (ac_ResourceVersion b =? version); [|done]. id_steps E.
  apply AccountByID_inv in E as [-> _].
  eapply (revoke_sessions_ok (λ id, bool_decide (id = accountID)) now); [|reflexivity]. apply (accounts_same _ H _ b); [done|].
  unfold same_person, with_password. cbn. split_and!; done || lia.
Qed.

Lemma RecordLoginFailure_ok accountID now : id_keeps (RecordLoginFailure accountID now).
Proof. intros db db' [] H [= <-]. apply accounts_alter; [done|]. intros a. by split_and!. Qed.
Lemma RecordLoginSuccess_ok accountID now : id_keeps (RecordLoginSuccess accountID now).
Proof. intros db db' [] H [= <-]. apply accounts_alter; [done|]. intros a. by split_and!. Qed.

Lemma CreateManagementSession_ok accountID ttl remoteIP userAgent random random' now :
  id_keeps (CreateManagementSession accountID ttl remoteIP userAgent random random' now).
Proof.
  intros db db' r H. unfold CreateManagementSession. intros E. id_steps E.
  apply id_bind in E as (db1 & a & [-> Ha]%AccountByID_inv & E).
  apply id_bind in E as (db2 & [] & Hrun & E).
  assert (db2 = db) as -> by (unfold check_available in Hrun; destruct (Available a now); [done|by injection Hrun]).
  id_steps E. destruct (NewSecret random) as [token hash], (NewSecret random') as [csrf csrfHash].
  cbv zeta in E. id_steps E. injection E as <- <-. apply sessions_change; [done|].
  intros h s [[<- <-]|[_ Hs]]%lookup_insert_Some; [|by apply (io_sessions _ H)].
  split; cbn; [by rewrite Ha|lia].
Qed.

Lemma ManagementSession_inv rawToken now db db' r :
  ManagementSession rawToken now db = inr (db', r) →
  ∃ s a, id_sessions db !! HashSecret rawToken = Some s ∧ ms_revoked_at s = None ∧ (now < ms_expires_at s)%Z
         ∧ id_accounts db !! ms_account_id s = Some a ∧ Available a now = inr tt ∧ account_open now a db = true
         ∧ r = MkSession a (ms_csrf_hash s) (ms_expires_at s)
         ∧ db' = on_sessions (alter (touch_session now) (HashSecret rawToken)) db.
Proof.
  unfold ManagementSession. intros E. id_steps E.
  destruct (id_sessions db !! HashSecret rawToken) as [s|] eqn:Hs; [|done]. id_steps E.
  apply andb_true_iff in E1 as [E1%bool_decide_eq_true E2%Z.ltb_lt].
  destruct (id_accounts db !! ms_account_id s) as [a|] eqn:Ha; [|done].
  apply id_bind in E as (db1 & [] & Hrun & E). unfold check_available in Hrun.
  destruct (Available a now) as [|[]] eqn:Hav; [done|]. injection Hrun as <-.
  id_steps E. injection E as <- <-. by exists s, a.
Qed.

Lemma ManagementSession_ok rawToken now : id_keeps (ManagementSession rawToken now).
Proof.
  intros db db' r H (s & a & _ & _ & _ & _ & _ & _ & _ & ->)%ManagementSession_inv.
  apply sessions_alter; [done|]. intros u []. split; [done|]. cbn. case_match; [|done].
  reflect_bool. unfold Time_Add in *. unfold Minute, Second in *. lia.
Qed.

Lemma RevokeManagementSession_ok rawToken now : id_keeps (RevokeManagementSession rawToken now).
Proof.
  intros db db' [] H [= <-]. apply sessions_alter; [done|]. intros s. apply revoke_session_ok.
Qed.

Lemma RecordManagementAudit_ok e now : id_keeps (RecordManagementAudit e now).
Proof.
  intros db db' [] H. unfold RecordManagementAudit. intros E. id_steps E. injection E as <-. by apply audit_change.
Qed.
End operations.

(** * The machine *)
Inductive identity_op :=
  | OpCreateOwner (username displayName passwordHash : string) (random : list N) (now : Time)
  | OpCreateTenant (input : TenantCreate) (random random' : list N) (now : Time)
  | OpUpdateTenant (tenantID name : string) (status : Status) (expiresAt : option Time) (version : N) (now : Time)
  | OpUpdateTenantPolicy (policy : Policy) (now : Time)
  | OpReplaceAccountPassword (accountID passwordHash : string) (version : N) (now : Time)
  | OpRecordLoginFailure (accountID : string) (now : Time)
  | OpRecordLoginSuccess (accountID : string) (now : Time)
  | OpCreateManagementSession (accountID : string) (ttl : Z) (remoteIP userAgent : string)
      (random random' : list N) (now : Time)
  | OpManagementSession (rawToken : string) (now : Time)
  | OpRevokeManagementSession (rawToken : string) (now : Time)
  | OpRecordManagementAudit (e : AuditEvent) (now : Time).

Definition discard {A} (m : Id A) : Id unit := m ≫= λ _, mret tt.

(** One call, with the nodes of the cluster at that time. *)
Definition identity_perform (exit_first : bool) (call : gmap string NodeRow * identity_op) : Id unit :=
  let '(nodes, op) := call in
  match op with
  | OpCreateOwner username displayName passwordHash random now =>
      discard (CreateOwner username displayName passwordHash random now)
  | OpCreateTenant input random random' now => discard (CreateTenant nodes exit_first input random random' now)
  | OpUpdateTenant tenantID name status expiresAt version now =>
      discard (UpdateTenant tenantID name status expiresAt version now)
  | OpUpdateTenantPolicy policy now => discard (UpdateTenantPolicy nodes exit_first policy now)
  | OpReplaceAccountPassword accountID passwordHash version now =>
      discard (ReplaceAccountPassword accountID passwordHash version now)
  | OpRecordLoginFailure accountID now => RecordLoginFailure accountID now
  | OpRecordLoginSuccess accountID now => RecordLoginSuccess accountID now
  | OpCreateManagementSession accountID ttl remoteIP userAgent random random' now =>
      discard (CreateManagementSession accountID ttl remoteIP userAgent random random' now)
  | OpManagementSession rawToken now => discard (ManagementSession rawToken now)
  | OpRevokeManagementSession rawToken now => RevokeManagementSession rawToken now
  | OpRecordManagementAudit e now => RecordManagementAudit e now
  end.

Definition identity_runs (exit_first : bool) (calls : list (gmap string NodeRow * identity_op)) (db : IdentityDb) :
    IdentityDb :=
  foldl (λ db call, (identity_transact (identity_perform exit_first call) db).1) db calls.

Lemma discard_inv {A} (m : Id A) db db' u :
  discard m db = inr (db', u) → ∃ a, m db = inr (db', a).
Proof. intros (db1 & a & Hm & [= <- <-])%id_bind. eauto. Qed.

Lemma identity_perform_ok exit_first call : id_keeps (identity_perform exit_first call).
Proof.
  destruct call as [nodes op]. intros db db' [] H E.
  destruct op; cbn [identity_perform] in E; try apply discard_inv in E as [a E]; revert E.
  - by apply CreateOwner_ok.
  - by apply CreateTenant_ok.
  - by apply UpdateTenant_ok.
  - by apply UpdateTenantPolicy_ok.
  - by apply ReplaceAccountPassword_ok.
  - by apply RecordLoginFailure_ok.
  - by apply RecordLoginSuccess_ok.
  - by apply CreateManagementSession_ok.
  - by apply ManagementSession_ok.
  - by apply RevokeManagementSession_ok.
  - by apply RecordManagementAudit_ok.
Qed.

Lemma identity_runs_induct exit_first (P : IdentityDb → Prop) calls db :
  P db → (∀ call db db', P db → identity_perform exit_first call db = inr (db', tt) → P db') →
  P (identity_runs exit_first calls db).
Proof.
  intros Hdb Hstep. unfold identity_runs. revert db Hdb.
  induction calls as [|call calls IH]; intros db Hdb; [done|]. apply IH. unfold identity_transact.
  destruct (identity_perform exit_first call db) as [|[db' []]] eqn:E; [done|by eapply Hstep].
Qed.

(** C29. In every state the account operations reach from empty tables, whatever
    they are asked and whether they succeed: every account is filed under its
    identity with a normal username no other account has and a hash that fits,
    and is the only owner or the only account of a tenant that exists; every
    tenant has a valid identity and name, an account and a policy; every policy
    is that of its tenant and passes the validation of policies; and every
    session belongs to an account. *)
Theorem identity_well_formed exit_first calls : identity_ok (identity_runs exit_first calls IdentityEmpty).
Proof.
  apply identity_runs_induct; [apply identity_empty|]. intros call db db' H E. by eapply identity_perform_ok.
Qed.

(** * Sessions that were ended *)
Definition ended (hash : list N) (db : IdentityDb) : Prop :=
  ∃ s, id_sessions db !! hash = Some s ∧ ms_revoked_at s ≠ None.

Lemma ended_same hash db db' : id_sessions db' = id_sessions db → ended hash db → ended hash db'.
Proof. unfold ended. by intros ->. Qed.
Lemma ended_fmap hash f db :
  (∀ s, ms_revoked_at s ≠ None → ms_revoked_at (f s) ≠ None) → ended hash db → ended hash (on_sessions (fmap f) db).
Proof. intros Hf (s & Hs & Hr). exists (f s). cbn. rewrite lookup_fmap, Hs. auto. Qed.
Lemma ended_alter hash h f db :
  (∀ s, ms_revoked_at s ≠ None → ms_revoked_at (f s) ≠ None) → ended hash db →
  ended hash (on_sessions (alter f h) db).
Proof.
  intros Hf (s & Hs & Hr). destruct (decide (hash = h)) as [->|].
  - exists (f s). cbn. rewrite lookup_alter_eq, Hs. auto.
  - exists s. cbn. by rewrite lookup_alter_ne.
Qed.

(** A successful operation leaves a session that was ended as it is. *)
Lemma ended_perform exit_first hash call db db' :
  ended hash db → identity_perform exit_first call db = inr (db', tt) → ended hash db'.
Proof.
  intros H E. destruct call as [nodes op].
  destruct op; cbn [identity_perform] in E; try apply discard_inv in E as [a E].
  - unfold CreateOwner in E. id_steps E. by apply AccountByID_inv in E as [-> _].
  - unfold CreateTenant in E. id_steps E. cbv zeta in E. apply id_bind in E as (db1 & [] & Hid & E).
    assert (db1 = db) as ->.
    { destruct (bool_decide _); [by injection Hid|]. unfold ValidateInternalID in Hid.
      destruct (ValidateIdentifier _ _); [done|]. by injection Hid. }
    apply initial_policy_inv in E as (p & _ & E). id_steps E.
    apply id_bind in E as (db2 & t & [-> _]%TenantByID_inv & E).
    apply id_bind in E as (db3 & b & [-> _]%AccountByID_inv & E).
    by apply id_bind in E as (db4 & q & [-> _]%TenantPolicy_inv & [= <- <-]).
  - unfold UpdateTenant in E. id_steps E. destruct (id_tenants db !! tenantID) as [u|]; [|done].
    destruct (tr_resource_version u =? version); [|done]. id_steps E.
    apply id_bind in E as (db1 & [] & Hrun & E). apply TenantByID_inv in E as [-> _].
    case_match; [|by injection Hrun as <-]. injection Hrun as <-. apply ended_fmap; [|done].
    intros s Hs. by case_match.
  - unfold UpdateTenantPolicy in E. cbv zeta in E. apply check_policy_inv in E as [_ E].
    apply validatePolicyNodes_inv in E. id_steps E. destruct (id_policies db !! _) as [q|]; [|done].
    destruct (po_ResourceVersion q =? _); [|done]. id_steps E. by apply TenantPolicy_inv in E as [-> _].
  - unfold ReplaceAccountPassword in E. id_steps E. destruct (id_accounts db !! accountID) as [b|]; [|done].
    destruct (ac_ResourceVersion b =? version); [|done]. id_steps E. apply AccountByID_inv in E as [-> _].
    apply (ended_fmap hash _ (on_accounts _ db)); [|done]. intros s Hs. by case_match.
  - by injection E as <-.
  - by injection E as <-.
  - unfold CreateManagementSession in E. id_steps E.
    apply id_bind in E as (db1 & b & [-> _]%AccountByID_inv & E).
    apply id_bind in E as (db2 & [] & Hrun & E).
    assert (db2 = db) as -> by (unfold check_available in Hrun; destruct (Available b now); [done|by injection Hrun]).
    id_steps E. injection E as <- <-.
    match goal with Hnew : bool_decide (id_sessions db !! _ = None) = true |- _ =>
      apply bool_decide_eq_true in Hnew; rename Hnew into Hn end.
    destruct H as (s & Hs & Hr). exists s. split; [|done]. cbn. rewrite lookup_insert_ne; [done|]. congruence.
  - apply ManagementSession_inv in E as (s & b & _ & _ & _ & _ & _ & _ & _ & ->). by apply ended_alter.
  - injection E as <-. by apply ended_alter.
  - unfold RecordManagementAudit in E. id_steps E. by injection E as <-.
Qed.

(** The operations that end a session: its logout, a new password of its
    account, and its tenant being disabled. *)
Definition ends (op : identity_op) (db : IdentityDb) (hash : list N) (s : SessionRow) : Prop :=
  match op with
  | OpRevokeManagementSession rawToken _ => HashSecret rawToken = hash
  | OpReplaceAccountPassword accountID _ _ _ => ms_account_id s = accountID
  | OpUpdateTenant tenantID _ status _ _ _ =>
      status = StatusDisabled ∧ of_tenant tenantID db (ms_account_id s) = true
  | _ => False
  end.

Lemma revoked_ended now s : ms_revoked_at (revoke_session now s) ≠ None.
Proof. done. Qed.

Lemma ends_ended exit_first nodes op db db' hash s :
  id_sessions db !! hash = Some s → ends op db hash s →
  identity_perform exit_first (nodes, op) db = inr (db', tt) → ended hash db'.
Proof.
  intros Hs He E. destruct op; try done; cbn [identity_perform ends] in *; try apply discard_inv in E as [a E].
  - destruct He as [-> Hof]. unfold UpdateTenant in E. id_steps E.
    destruct (id_tenants db !! tenantID) as [u|]; [|done].
    destruct (tr_resource_version u =? version); [|done]. id_steps E.
    apply TenantByID_inv in E as [-> _].
    exists (revoke_session now s). split; [|done]. cbn. rewrite lookup_fmap, Hs. cbn.
    unfold of_tenant in *. cbn. by rewrite Hof.
  - unfold ReplaceAccountPassword in E. id_steps E. destruct (id_accounts db !! accountID) as [b|]; [|done].
    destruct (ac_ResourceVersion b =? version); [|done]. id_steps E. apply AccountByID_inv in E as [-> _].
    exists (revoke_session now s). split; [|done]. cbn. rewrite lookup_fmap, Hs. cbn.
    by rewrite bool_decide_eq_true_2.
  - injection E as <-. subst hash. exists (revoke_session now s). split; [|done]. cbn.
    by rewrite lookup_alter_eq, Hs.
Qed.

(** C30. A session that was ended, by its logout, by a new password of its
    account or because its tenant was disabled, is never accepted again,
    whatever operations come later. *)
Theorem ended_sessions_refused exit_first nodes op db db' hash s later rawToken now :
  id_sessions db !! hash = Some s → ends op db hash s →
  identity_perform exit_first (nodes, op) db = inr (db', tt) → HashSecret rawToken = hash →
  ManagementSession rawToken now (identity_runs exit_first later db') = inl IdUnauthenticated.
Proof.
  intros Hs He E Hh.
  assert (ended hash (identity_runs exit_first later db')) as (s' & Hs' & Hr).
  { apply identity_runs_induct; [by eapply ends_ended|]. intros. by eapply ended_perform. }
  unfold ManagementSession, mbind, Id_bind, get, ensure, deny. rewrite Hh.
  destruct (negb _); cbn; [|done]. rewrite Hs'. by rewrite bool_decide_eq_false_2.
Qed.

(** * An owner who logs out *)
Definition sample_now : Time := (1000 * Second)%Z.
Definition sample_calls : list (gmap string NodeRow * identity_op) :=
  [(∅, OpCreateOwner " Admin " "The owner" "$argon2id$v=19$m=65536,t=3,p=2$c2FsdA$aGFzaA" (repeat 1 16) sample_now);
   (∅, OpCreateManagementSession (NewID "account" (repeat 1 16)) Hour "192.0.2.1" "browser"
         (repeat 2 32) (repeat 3 32) sample_now)].
Definition sample_identities : IdentityDb := identity_runs true sample_calls IdentityEmpty.
Definition sample_token : string := EncodeToString (repeat 2 32).

Example sample_session_accepted :
  match ManagementSession sample_token (Time_Add sample_now Minute) sample_identities with
  | inr (_, session) => ac_Username (ss_Account session)
  | inl _ => ""
  end = "admin".
Proof. vm_compute. reflexivity. Qed.

Definition sample_session : SessionRow :=
  default (MkSessionRow [] "" 0%Z 0%Z 0%Z None "" "") (id_sessions sample_identities !! HashSecret sample_token).

Lemma ended_sessions_refused_witness :
  ManagementSession sample_token (Time_Add sample_now Minute)
    (identity_runs true sample_calls
       (identity_transact (RevokeManagementSession sample_token sample_now) sample_identities).1)
  = inl IdUnauthenticated.
Proof.
  apply (ended_sessions_refused true ∅ (OpRevokeManagementSession sample_token sample_now) sample_identities _
           (HashSecret sample_token) sample_session); [vm_compute; reflexivity|reflexivity..].
Defined.
