(* ===== verification/ControlExpiry.v ===== *)
(** The expiry of an account. A tenant's account takes the tenant's expiry when
    it is created, and no operation ever changes it: prolonging the tenant does
    not prolong its account. *)
From S2P Require Import Prelude.
From S2P Require Import GoNet.
From S2P Require Import GoCrypto.
From S2P Require Import SpecTypes.
From S2P Require Import SpecValidate.
From S2P Require Import Hostname.
From S2P Require Import Iam.
From S2P Require Import ControlDb.
From S2P Require Import ControlNodes.
From S2P Require Import ControlIdentity.
From S2P Require Import ControlIdentityFacts.

#[local] Opaque AccountByID TenantByID TenantPolicy.

(** The account is there with this expiry. *)
Definition expires (id : string) (e : Time) (db : IdentityDb) : Prop :=
  ∃ a, id_accounts db !! id = Some a ∧ ac_ExpiresAt a = Some e.

Lemma expires_same id e db db' : id_accounts db' = id_accounts db → expires id e db → expires id e db'.
Proof. unfold expires. by intros ->. Qed.
Lemma expires_insert id e i a' db :
  (∀ a, id_accounts db !! i = Some a → ac_ExpiresAt a' = ac_ExpiresAt a) → expires id e db →
  expires id e (on_accounts <[i := a']> db).
Proof.
  intros Hi (a & Ha & He). destruct (decide (id = i)) as [->|].
  - exists a'. cbn. rewrite lookup_insert_eq. split; [done|]. by rewrite (Hi a Ha).
  - exists a. cbn. by rewrite lookup_insert_ne.
Qed.
Lemma expires_alter id e i f db :
  (∀ a, ac_ExpiresAt (f a) = ac_ExpiresAt a) → expires id e db → expires id e (on_accounts (alter f i) db).
Proof.
  intros Hf (a & Ha & He). destruct (decide (id = i)) as [->|].
  - exists (f a). cbn. rewrite lookup_alter_eq, Ha. split; [done|]. by rewrite Hf.
  - exists a. cbn. by rewrite lookup_alter_ne.
Qed.
Lemma expires_clash id e a db :
  account_clashes a db = false → expires id e db → expires id e (on_accounts <[ac_ID a := a]> db).
Proof. intros (C1 & _)%account_clashes_spec. apply expires_insert. intros b Hb. congruence. Qed.

(** A successful operation leaves it as it is. *)
Lemma expires_perform exit_first id e call db db' :
  expires id e db → identity_perform exit_first call db = inr (db', tt) → expires id e db'.
Proof.
  intros H E. destruct call as [nodes op].
  destruct op; cbn [identity_perform] in E; try apply discard_inv in E as [a E].
  - unfold CreateOwner in E. id_steps E. apply AccountByID_inv in E as [-> _].
    apply expires_clash; [|done]. by apply negb_true_iff.
  - unfold CreateTenant in E. id_steps E. cbv zeta in E. apply id_bind in E as (db1 & [] & Hid & E).
    assert (db1 = db) as ->.
    { destruct (bool_decide _); [by injection Hid|]. unfold ValidateInternalID in Hid.
      destruct (ValidateIdentifier _ _); [done|]. by injection Hid. }
    apply initial_policy_inv in E as (p & _ & E). id_steps E.
    apply id_bind in E as (db2 & t & [-> _]%TenantByID_inv & E).
    apply id_bind in E as (db3 & b & [-> _]%AccountByID_inv & E).
    apply id_bind in E as (db4 & q & [-> _]%TenantPolicy_inv & [= <- <-]).
    apply expires_clash; [by apply negb_true_iff|]. by eapply expires_same.
  - unfold UpdateTenant in E. id_steps E. destruct (id_tenants db !! tenantID) as [u|]; [|done].
    destruct (tr_resource_version u =? version); [|done]. id_steps E.
    apply id_bind in E as (db1 & [] & Hrun & E). apply TenantByID_inv in E as [-> _].
    revert H. apply expires_same. case_match; by injection Hrun as <-.
  - unfold UpdateTenantPolicy in E. cbv zeta in E. apply check_policy_inv in E as [_ E].
    apply validatePolicyNodes_inv in E. id_steps E. destruct (id_policies db !! _) as [q|]; [|done].
    destruct (po_ResourceVersion q =? _); [|done]. id_steps E. apply TenantPolicy_inv in E as [-> _].
    by eapply expires_same.
  - unfold ReplaceAccountPassword in E. id_steps E. destruct (id_accounts db !! accountID) as [b|] eqn:Hb; [|done].
    destruct (ac_ResourceVersion b =? version); [|done]. id_steps E. apply AccountByID_inv in E as [-> _].
    eapply expires_same; [|apply (expires_insert id e accountID (with_password passwordHash now b) db);
      [intros c Hc; by simplify_eq|done]]. reflexivity.
  - injection E as <-. by apply expires_alter.
  - injection E as <-. by apply expires_alter.
  - unfold CreateManagementSession in E. id_steps E.
    apply id_bind in E as (db1 & b & [-> _]%AccountByID_inv & E).
    apply id_bind in E as (db2 & [] & Hrun & E).
    assert (db2 = db) as -> by (unfold check_available in Hrun; destruct (Available b now); [done|by injection Hrun]).
    id_steps E. injection E as <- <-. by eapply expires_same.
  - apply ManagementSession_inv in E as (s & b & _ & _ & _ & _ & _ & _ & _ & ->). by eapply expires_same.
  - injection E as <-. by eapply expires_same.
  - unfold RecordManagementAudit in E. id_steps E. injection E as <-. by eapply expires_same.
Qed.

Lemma expired_unavailable a e now : ac_ExpiresAt a = Some e → (e ≤ now)%Z → Available a now = inl ErrUnauthenticated.
Proof.
  intros He Hn. unfold Available. destruct (negb _); [done|]. rewrite He. unfold Time_Before.
  by rewrite (proj2 (Z.ltb_ge now e) Hn).
Qed.

(** C40. The expiry an account was created with is final: whatever operations
    come, also ones that prolong its tenant, from then on no login makes a
    session for the account and no session of it is accepted. *)
Theorem expired_account_stays_out exit_first calls db id a e now :
  id_accounts db !! id = Some a → ac_ExpiresAt a = Some e → (e ≤ now)%Z →
  let db' := identity_runs exit_first calls db in
  (∀ ttl remoteIP userAgent random random', ∃ err,
     CreateManagementSession id ttl remoteIP userAgent random random' now db' = inl err)
  ∧ ∀ rawToken s, id_sessions db' !! HashSecret rawToken = Some s → ms_account_id s = id →
      ManagementSession rawToken now db' = inl IdUnauthenticated.
Proof.
  intros Ha He Hn db'. assert (expires id e db') as (a' & Ha' & He').
  { apply identity_runs_induct; [by exists a|]. intros. by eapply expires_perform. }
  pose proof (expired_unavailable a' e now He' Hn) as Hav. split.
  - intros ttl remoteIP userAgent random random'.
    destruct (CreateManagementSession id ttl remoteIP userAgent random random' now db') as [err|[db2 r]] eqn:E;
      [by exists err|].
    unfold CreateManagementSession in E. id_steps E.
    apply id_bind in E as (db1 & b & [-> Hb]%AccountByID_inv & E). simplify_eq.
    apply id_bind in E as (db3 & [] & Hrun & E). unfold check_available in Hrun. by rewrite Hav in Hrun.
  - intros rawToken s Hs <-. destruct (ManagementSession rawToken now db') as [err|[db2 r]] eqn:E.
    + revert E. unfold ManagementSession, mbind, Id_bind, get, ensure, deny, found.
      destruct (negb _); [|by intros [= <-]]. cbn. rewrite Hs.
      destruct (bool_decide _ && _); [|by intros [= <-]]. cbn. rewrite Ha'. unfold check_available. rewrite Hav.
      by intros [= <-].
    + apply ManagementSession_inv in E as (s' & b & Hs' & _ & _ & Hb & Hav' & _). simplify_eq. congruence.
Qed.

(** * A tenant that is prolonged *)
Definition tenant_hash : string := "$argon2id$v=19$m=65536,t=3,p=2$c2FsdA$aGFzaA".
Definition short_tenant : list (gmap string NodeRow * identity_op) :=
  [(∅, OpCreateTenant (MkTenantCreate "acme" "Acme" "acme" "Acme" tenant_hash
         (Some (Time_Add sample_now Hour)) None) (repeat 1 16) (repeat 2 16) sample_now)].
Definition prolong : list (gmap string NodeRow * identity_op) :=
  [(∅, OpUpdateTenant "acme" "Acme" StatusActive (Some (Time_Add sample_now (48 * Hour))) 1
         (Time_Add sample_now Minute))].
Definition short_db : IdentityDb := identity_runs true short_tenant IdentityEmpty.
Definition short_account : string := NewID "account" (repeat 2 16).

Example prolonged :
  (tr_expires_at <$> id_tenants (identity_runs true prolong short_db) !! "acme")
  = Some (Some (Time_Add sample_now (48 * Hour))).
Proof. vm_compute. reflexivity. Qed.

Lemma expired_account_stays_out_witness :
  ∃ err, CreateManagementSession short_account Hour "192.0.2.1" "browser" (repeat 3 32) (repeat 4 32)
           (Time_Add sample_now Hour) (identity_runs true prolong short_db) = inl err.
Proof.
  assert (∃ a, id_accounts short_db !! short_account = Some a ∧ ac_ExpiresAt a = Some (Time_Add sample_now Hour))
    as (a & Ha & He) by (eexists; split; [vm_compute; reflexivity|reflexivity]).
  apply (expired_account_stays_out true prolong short_db short_account a (Time_Add sample_now Hour)); [done|done|].
  apply Z.leb_le. reflexivity.
Defined.
