(* ===== verification/Password.v ===== *)
(** Password hashes, [internal/controller/iam/password.go]. Argon2id is a
    library of its own, and a parameter: what it derives has the length asked
    for. *)
From S2P Require Import Prelude.
From S2P Require Import GoNet.
From S2P Require Import GoCrypto.
From S2P Require Import Hostname.

(** [argon2.IDKey(password, salt, time, memory, threads, keyLen)] *)
Class Argon2 := IDKey : list N → list N → N → N → N → N → list N.
Class Argon2Laws (A : Argon2) : Prop := {
  IDKey_length password salt time memory threads keyLen :
    length (IDKey password salt time memory threads keyLen) = N.to_nat keyLen;
  IDKey_bytes password salt time memory threads keyLen :
    Forall (λ b, b < 256) (IDKey password salt time memory threads keyLen);
}.
Definition argon2_Version : N := 19.

Definition argonMemory : N := 64 * 1024.
Definition argonIterations : N := 3.
Definition argonParallelism : N := 2.
Definition argonSaltLength : N := 16.
Definition argonKeyLength : N := 32.

(** * [base64.RawStdEncoding] *)
Definition b64_char (n : N) : ascii :=
  default "A"%char
    (nth_error (chars "ABCDEFGHIJKLMNOPQRSTUVWXYZabcdefghijklmnopqrstuvwxyz0123456789+/") (N.to_nat n)).
Fixpoint raw_encode (l : list N) : list ascii :=
  match l with
  | a :: b :: c :: rest =>
      b64_char (a / 4) :: b64_char (a mod 4 * 16 + b / 16)
      :: b64_char (b mod 16 * 4 + c / 64) :: b64_char (c mod 64) :: raw_encode rest
  | [a; b] => [b64_char (a / 4); b64_char (a mod 4 * 16 + b / 16); b64_char (b mod 16 * 4)]
  | [a] => [b64_char (a / 4); b64_char (a mod 4 * 16)]
  | [] => []
  end.
Fixpoint raw_decode (l : list ascii) : option (list N) :=
  match l with
  | [] => Some []
  | a :: b :: [] => x ← b64_val a; y ← b64_val b; Some [x * 4 + y / 16]
  | a :: b :: c :: [] =>
      x ← b64_val a; y ← b64_val b; z ← b64_val c;
      Some [x * 4 + y / 16; (y mod 16) * 16 + z / 4]
  | a :: b :: c :: d :: l' =>
      x ← b64_val a; y ← b64_val b; z ← b64_val c; t ← b64_val d;
      rest ← raw_decode l';
      Some (x * 4 + y / 16 :: (y mod 16) * 16 + z / 4 :: (z mod 4) * 64 + t :: rest)
  | _ => None
  end.
Definition newlines : list ascii := [Strings.Ascii.ascii_of_N 10; Strings.Ascii.ascii_of_N 13].
(** Newlines are skipped. *)
Definition RawStdDecode (s : list ascii) : option (list N) := raw_decode (filter (λ c, c ∉ newlines) s).

(** * [fmt.Sscanf] with ["m=%d,t=%d,p=%d"] *)

(** White space before a number is skipped, a newline is an error. *)
Definition blanks : list (list N) := filter (λ s, s ≠ [10]) spaces.
Definition skip_blanks (l : list ascii) : list ascii :=
  let bytes := Strings.Ascii.N_of_ascii <$> l in
  Strings.Ascii.ascii_of_N <$> skip_all blanks (length bytes) bytes.
Fixpoint take_digits (l acc : list ascii) : list ascii * list ascii :=
  match l with
  | c :: rest => if byte_in "0" "9" c then take_digits rest (c :: acc) else (rev acc, l)
  | [] => (rev acc, [])
  end.
Definition scan_uint (w : N) (l : list ascii) : option (N * list ascii) :=
  let '(digits, rest) := take_digits (skip_blanks l) [] in
  n ← ParseUint 64 (of_chars digits);
  if n <? 2 ^ w then Some (n, rest) else None.
Fixpoint scan_literal (literal l : list ascii) : option (list ascii) :=
  match literal, l with
  | [], _ => Some l
  | c :: literal, d :: l => if bool_decide (c = d) then scan_literal literal l else None
  | _ :: _, [] => None
  end.
(** What follows the last number is not looked at. *)
Definition scan_parameters (l : list ascii) : option (N * N * N) :=
  l ← scan_literal (chars "m=") l;
  '(memory, l) ← scan_uint 32 l;
  l ← scan_literal (chars ",t=") l;
  '(iterations, l) ← scan_uint 32 l;
  l ← scan_literal (chars ",p=") l;
  '(parallelism, _) ← scan_uint 8 l;
  Some (memory, iterations, parallelism).

(** * The hashes *)
Definition ValidatePassword (password : string) : string + unit :=
  if (String.length password <? 12)%nat || (128 <? String.length password)%nat
  then inl "password must be 12-128 bytes"
  else if existsb (λ b, b =? 0) (bytes_of password) then inl "password contains an invalid character"
  else inr tt.

Section passwords.
Context {argon2 : Argon2}.

Definition format_hash (salt digest : list N) : string :=
  "$argon2id$v=" +:+ show argon2_Version +:+ "$m=" +:+ show argonMemory +:+ ",t=" +:+ show argonIterations
  +:+ ",p=" +:+ show argonParallelism +:+ "$" +:+ of_chars (raw_encode salt) +:+ "$"
  +:+ of_chars (raw_encode digest).

(** [salt] are the 16 bytes read from the system's random source. *)
Definition HashPassword (salt : list N) (password : string) : string + string :=
  match ValidatePassword password with
  | inl e => inl e
  | inr _ =>
      inr (format_hash salt
             (IDKey (bytes_of password) salt argonIterations argonMemory argonParallelism argonKeyLength))
  end.

Definition outside (lo hi n : N) : bool := (n <? lo) || (hi <? n).

Definition VerifyPassword (encoded password : string) : bool :=
  match split_at "$"%char (chars encoded) [] with
  | [_; kind; version; parameters; salt; digest] =>
      bool_decide (kind = chars "argon2id") && bool_decide (version = chars ("v=" +:+ show argon2_Version))
      && match scan_parameters parameters with
         | Some (memory, iterations, parallelism) =>
             negb (outside (8 * 1024) (1024 * 1024) memory || outside 1 10 iterations
                   || outside 1 16 parallelism)
             && match RawStdDecode salt, RawStdDecode digest with
                | Some salt, Some expected =>
                    negb (outside 8 64 (N.of_nat (length salt)))
                    && negb (outside 16 64 (N.of_nat (length expected)))
                    && bool_decide (IDKey (bytes_of password) salt iterations memory parallelism
                                      (N.of_nat (length expected)) = expected)
                | _, _ => false
                end
         | None => false
         end
  | _ => false
  end.
End passwords.

(** * A hash verifies the password it was made of *)
Definition sextets : list N := N.of_nat <$> seq 0 64.
Definition sextet_ok (n : N) : bool :=
  bool_decide (b64_val (b64_char n) = Some n) && negb (bool_decide (b64_char n ∈ "$"%char :: newlines)).
Lemma sextets_ok : forallb sextet_ok sextets = true.
Proof. vm_compute. done. Qed.

Lemma sextet n : n < 64 → b64_val (b64_char n) = Some n ∧ b64_char n ∉ "$"%char :: newlines.
Proof.
  intros H. pose proof sextets_ok as Hall. rewrite forallb_forall in Hall.
  specialize (Hall n). unfold sextet_ok in Hall.
  rewrite andb_true_iff, negb_true_iff, bool_decide_eq_true, bool_decide_eq_false in Hall. apply Hall.
  apply list_elem_of_In, list_elem_of_fmap. exists (N.to_nat n). split; [lia|]. apply elem_of_seq. lia.
Qed.
Lemma b64_val_char n : n < 64 → b64_val (b64_char n) = Some n.
Proof. intros H. apply (sextet n H). Qed.

(** Three bytes at a time *)
Lemma triples_ind (P : list N → Prop) :
  P [] → (∀ a, P [a]) → (∀ a b, P [a; b]) → (∀ a b c l, P l → P (a :: b :: c :: l)) → ∀ l, P l.
Proof.
  intros H0 H1 H2 H3 l. enough (P l ∧ (∀ a, P (a :: l)) ∧ ∀ a b, P (a :: b :: l)) by tauto.
  induction l as [|c l (IH & IH1 & IH2)]; [auto|]. repeat split; auto.
Qed.

Local Ltac b64_bounds :=
  repeat match goal with H : Forall _ (_ :: _) |- _ => apply Forall_cons in H as [? H] end;
  cbn beta in *; zify; Z.to_euclidean_division_equations; lia.
Lemma raw_decode_encode l : Forall (λ b, b < 256) l → raw_decode (raw_encode l) = Some l.
Proof.
  induction l as [|a|a b|a b c l IH] using triples_ind; intros H; cbn [raw_encode raw_decode]; [done| | |].
  all: rewrite !b64_val_char by b64_bounds; cbn [mbind option_bind].
  - do 2 f_equal. b64_bounds.
  - do 2 f_equal; [b64_bounds|]. f_equal. b64_bounds.
  - rewrite IH by (by do 3 apply Forall_cons in H as [_ H]). cbn [mbind option_bind].
    do 2 f_equal; [b64_bounds|]. f_equal; [b64_bounds|]. f_equal. b64_bounds.
Qed.

Lemma raw_encode_plain l :
  Forall (λ b, b < 256) l → Forall (λ c, c ∉ "$"%char :: newlines) (raw_encode l).
Proof.
  induction l as [|a|a b|a b c l IH] using triples_ind; intros H; cbn [raw_encode]; [done| | |].
  all: repeat (apply Forall_cons; split; [apply sextet; b64_bounds|]); try done.
  apply IH. by do 3 apply Forall_cons in H as [_ H].
Qed.
Lemma length_raw_encode l : length (raw_encode l) = ((8 * length l + 5) / 6)%nat.
Proof.
  induction l as [|a|a b|a b c l IH] using triples_ind; [done..|]. cbn [raw_encode length]. rewrite IH.
  replace (8 * S (S (S (length l))) + 5)%nat with (8 * length l + 5 + 4 * 6)%nat by lia.
  rewrite Nat.div_add by lia. lia.
Qed.
Lemma filter_forall {A} (P : A → Prop) `{!∀ x, Decision (P x)} l : Forall P l → filter P l = l.
Proof. induction 1; [done|]. rewrite filter_cons_True by done. by f_equal. Qed.
Lemma RawStdDecode_encode l : Forall (λ b, b < 256) l → RawStdDecode (raw_encode l) = Some l.
Proof.
  intros H. unfold RawStdDecode. rewrite filter_forall; [by apply raw_decode_encode|].
  eapply Forall_impl; [by apply raw_encode_plain|]. intros c Hc Hin. apply Hc. by right.
Qed.

Lemma split_at_stop sep a b acc :
  sep ∉ a → split_at sep (a ++ sep :: b) acc = (rev acc ++ a) :: split_at sep b [].
Proof.
  revert acc. induction a as [|c a IH]; intros acc H; cbn.
  - rewrite bool_decide_eq_true_2 by done. by rewrite app_nil_r.
  - rewrite bool_decide_eq_false_2 by set_solver. rewrite IH by set_solver. cbn. by rewrite <- app_assoc.
Qed.
Lemma split_at_end sep a acc : sep ∉ a → split_at sep a acc = [rev acc ++ a].
Proof.
  revert acc. induction a as [|c a IH]; intros acc H; cbn.
  - by rewrite app_nil_r.
  - rewrite bool_decide_eq_false_2 by set_solver. rewrite IH by set_solver. cbn. by rewrite <- app_assoc.
Qed.

Lemma length_chars s : length (chars s) = String.length s.
Proof. induction s as [|c s IH]; [done|]. cbn. by f_equal. Qed.

Section facts.
Context {argon2 : Argon2}.

Definition hash_head : list ascii := chars "argon2id".
Definition hash_version : list ascii := chars "v=19".
Definition hash_parameters : list ascii := chars "m=65536,t=3,p=2".

Lemma chars_format_hash salt digest :
  chars (format_hash salt digest) =
  [] ++ "$"%char :: hash_head ++ "$"%char :: hash_version ++ "$"%char :: hash_parameters ++ "$"%char
  :: raw_encode salt ++ "$"%char :: raw_encode digest.
Proof.
  unfold format_hash. rewrite !chars_app, !chars_of_chars. reflexivity.
Qed.

Lemma dollar_free l : Forall (λ b, b < 256) l → "$"%char ∉ raw_encode l.
Proof.
  intros H Hin. pose proof (raw_encode_plain l H) as Hp. rewrite Forall_forall in Hp.
  specialize (Hp _ Hin). cbn in Hp. apply Hp. left.
Qed.

Lemma split_format_hash salt digest :
  Forall (λ b, b < 256) salt → Forall (λ b, b < 256) digest →
  split_at "$"%char (chars (format_hash salt digest)) [] =
  [[]; hash_head; hash_version; hash_parameters; raw_encode salt; raw_encode digest].
Proof.
  intros Hs Hd. rewrite chars_format_hash.
  rewrite (split_at_stop "$" []) by set_solver.
  rewrite (split_at_stop "$" hash_head) by (apply (bool_decide_unpack _); vm_compute; done).
  rewrite (split_at_stop "$" hash_version) by (apply (bool_decide_unpack _); vm_compute; done).
  rewrite (split_at_stop "$" hash_parameters) by (apply (bool_decide_unpack _); vm_compute; done).
  rewrite (split_at_stop "$" (raw_encode salt)) by by apply dollar_free.
  by rewrite split_at_end by by apply dollar_free.
Qed.

Lemma verify_format `{!Argon2Laws _} salt digest attempt :
  length salt = 16%nat → Forall (λ b, b < 256) salt →
  length digest = 32%nat → Forall (λ b, b < 256) digest →
  VerifyPassword (format_hash salt digest) attempt =
  bool_decide (IDKey (bytes_of attempt) salt argonIterations argonMemory argonParallelism argonKeyLength = digest).
Proof.
  intros Hl Hs Hd Hb. unfold VerifyPassword. rewrite split_format_hash by done.
  assert (scan_parameters hash_parameters = Some (argonMemory, argonIterations, argonParallelism)) as ->
    by (vm_compute; done).
  rewrite !RawStdDecode_encode by done. rewrite Hl, Hd. reflexivity.
Qed.

(** C37. A password that the rules accept has a hash of 97 bytes, which fits the
    store's column, and the hash verifies exactly the passwords from which
    Argon2id derives the same key under the hash's own salt; the password
    itself is one of them. *)
Theorem passwords_verify `{!Argon2Laws _} salt password hash :
  length salt = N.to_nat argonSaltLength → Forall (λ b, b < 256) salt →
  HashPassword salt password = inr hash →
  String.length hash = 97%nat
  ∧ VerifyPassword hash password = true
  ∧ ∀ attempt, VerifyPassword hash attempt = true ↔
      IDKey (bytes_of attempt) salt argonIterations argonMemory argonParallelism argonKeyLength
      = IDKey (bytes_of password) salt argonIterations argonMemory argonParallelism argonKeyLength.
Proof.
  unfold HashPassword. intros Hl Hs H. destruct (ValidatePassword password) as [|[]]; [done|].
  injection H as <-. set (digest := IDKey (bytes_of password) _ _ _ _ _).
  assert (length digest = 32%nat) as Hd by apply IDKey_length.
  assert (Forall (λ b, b < 256) digest) as Hb by apply IDKey_bytes.
  split; [|split; [|intros attempt]].
  - rewrite <- length_chars, chars_format_hash.
    repeat first [rewrite length_app | rewrite length_cons]. rewrite !length_raw_encode, Hl, Hd. reflexivity.
  - rewrite verify_format by done. by apply bool_decide_eq_true.
  - rewrite verify_format by done. apply bool_decide_eq_true.
Qed.
End facts.

(** A function of the right length, and not an easy one to confuse *)
Definition sample_argon2 : Argon2 := λ password salt time memory threads keyLen,
  (λ i, nth i (SHA256.Sum256 (password ++ salt)) 0) <$> seq 0 (N.to_nat keyLen).
Lemma sample_argon2_laws : Argon2Laws sample_argon2.
Proof.
  split; intros.
  - unfold IDKey, sample_argon2. by rewrite length_fmap, length_seq.
  - apply Forall_fmap, Forall_forall. intros i _. cbn.
    destruct (nth_in_or_default i (SHA256.Sum256 (password ++ salt)) 0) as [Hin|Hin]; [|by rewrite Hin].
    destruct (Sum256_bytes (password ++ salt)) as [_ H]. rewrite Forall_forall in H.
    by apply H, list_elem_of_In.
Qed.
Definition sample_salt : list N := N.of_nat <$> seq 100 16.
Definition sample_hash : string :=
  match @HashPassword sample_argon2 sample_salt "correct horse battery" with inr h => h | inl _ => "" end.

Lemma passwords_verify_witness :
  String.length sample_hash = 97%nat
  ∧ @VerifyPassword sample_argon2 sample_hash "correct horse battery" = true
  ∧ ∀ attempt, @VerifyPassword sample_argon2 sample_hash attempt = true ↔
      @IDKey sample_argon2 (bytes_of attempt) sample_salt argonIterations argonMemory argonParallelism argonKeyLength
      = @IDKey sample_argon2 (bytes_of "correct horse battery") sample_salt argonIterations argonMemory
          argonParallelism argonKeyLength.
Proof.
  apply (@passwords_verify sample_argon2 sample_argon2_laws sample_salt "correct horse battery" sample_hash).
  - reflexivity.
  - apply Forall_fmap, Forall_forall. intros i Hi. apply elem_of_seq in Hi. cbn. lia.
  - reflexivity.
Defined.

Example wrong_password_fails :
  @VerifyPassword sample_argon2 sample_hash "wrong horse battery" = false.
Proof. vm_compute. reflexivity. Qed.
