(* ===== verification/ManagementServer.v ===== *)
(** The management server, [internal/controller/management/server.go] and
    [password.go]: what an HTTP request does to the accounts and the cluster,
    and the status it is answered with. A handler is a function of the request;
    the clock is read once for a request, and random bytes are given. Of an
    error's answer its status and code are kept, of a page its data. *)
From S2P Require Import Prelude.
From S2P Require Import GoNet.
From S2P Require Import GoCrypto.
From S2P Require Import SpecTypes.
From S2P Require Import SpecCanonical.
From S2P Require Import SpecValidate.
From S2P Require Import Hostname.
From S2P Require Import Iam.
From S2P Require Import Password.
From S2P Require Import ClusterTypes.
From S2P Require Import ClusterValidate.
From S2P Require Import PlanJson.
From S2P Require Import ControlDb.
From S2P Require Import ControlNodes.
From S2P Require Import ControlSchedule.
From S2P Require Import ControlIdentity.

(** * The login limiter *)
Definition maxLoginIPWindows : nat := 64 * 64.
Definition loginWindowTTL : Z := 15 * Minute.
Definition loginAttempts : N := 20.

Record loginWindow := MkLoginWindow { lw_started : Time; lw_count : N }.
Record loginLimiter := MkLoginLimiter { ll_attempts : gmap string loginWindow; ll_lastSweep : Time }.
Definition loginLimiterZero : loginLimiter := MkLoginLimiter ∅ 0%Z.

Definition window_over (now : Time) (w : loginWindow) : bool :=
  (loginWindowTTL <=? Time_Sub now (lw_started w))%Z.
Definition crowded (attempts : gmap string loginWindow) : bool := (maxLoginIPWindows <=? size attempts)%nat.
Definition swept (now : Time) (l : loginLimiter) : loginLimiter :=
  if Time_IsZero (ll_lastSweep l) || (Minute <=? Time_Sub now (ll_lastSweep l))%Z || crowded (ll_attempts l)
  then MkLoginLimiter (filter (λ kv, window_over now kv.2 = false) (ll_attempts l)) now
  else l.

Definition allow (key : string) (now : Time) (l : loginLimiter) : loginLimiter * bool :=
  let l := swept now l in
  let window := ll_attempts l !! key in
  let set w := MkLoginLimiter (<[key := w]> (ll_attempts l)) (ll_lastSweep l) in
  if bool_decide (window = None) && crowded (ll_attempts l) then (l, false)
  else
    match window with
    | Some w =>
        if Time_IsZero (lw_started w) || window_over now w then (set (MkLoginWindow now 1), true)
        else if loginAttempts <=? lw_count w then (l, false)
        else (set (MkLoginWindow (lw_started w) (lw_count w + 1)), true)
    | None => (set (MkLoginWindow now 1), true)
    end.
Definition reset (key : string) (l : loginLimiter) : loginLimiter :=
  MkLoginLimiter (delete key (ll_attempts l)) (ll_lastSweep l).

(** * Requests and answers *)
Record Request := MkRequest {
  rq_RemoteAddr : string;
  rq_XForwardedFor : string;
  rq_XRealIP : string;
  rq_UserAgent : string;
  rq_Path : string;
  rq_sessionCookie : option string;
  rq_csrfCookie : option string;
  rq_csrfHeader : string;
}.

(** What a request meets: the time, random bytes, the order of [Validate]'s two
    lists, whether a login slot is free, and the answer of the resolver. *)
Record Env := MkEnv {
  en_now : Time;
  en_random : list N;
  en_random2 : list N;
  en_salt : list N;
  en_exit_first : bool;
  en_slot : bool;
  en_resolve : string → option Addr;
}.

Record Config := MkConfig { mc_SessionTTL : Z; mc_PlanID : string }.
Definition NewConfig (ttl : Z) (planID : string) : string + Config :=
  let ttl := if (ttl =? 0)%Z then (24 * Hour)%Z else ttl in
  if (ttl <? 5 * Minute)%Z || (30 * 24 * Hour <? ttl)%Z
  then inl "management session TTL must be between five minutes and 30 days"
  else
    let planID := if bool_decide (TrimSpace planID = "") then "default" else planID in
    match ValidateIdentifier "management plan_id" planID with
    | Some e => inl e
    | None => inr (MkConfig ttl planID)
    end.

Record World := MkWorld { w_db : Db; w_identity : IdentityDb; w_limiter : loginLimiter }.

Record tenantView := MkTenantView {
  tv_ID : string;
  tv_Name : string;
  tv_Username : string;
  tv_DisplayName : string;
  tv_Status : Status;
  tv_ForwardsCount : N;
  tv_ExpiresAt : option Time;
  tv_CreatedAt : Time;
  tv_UpdatedAt : Time;
  tv_ResourceVersion : N;
}.

Record forwardEndpointPayload := MkEndpointPayload { fe_Address : string; fe_Port : N }.

Record forwardView := MkForwardView {
  fv_ID : string;
  fv_TenantID : string;
  fv_TenantName : string;
  fv_Protocols : list Protocol;
  fv_Listen : Endpoint;
  fv_Target : forwardEndpointPayload;
  fv_PathMode : PathMode;
  fv_IngressNodeID : string;
  fv_IngressNodeName : string;
  fv_ExitNodeID : string;
  fv_ExitNodeName : string;
  fv_RateLimit : option RateLimitSpec;
  fv_TrafficQuota : option TrafficQuotaSpec;
  fv_ExpiresAt : option Time;
  fv_Lifecycle : Lifecycle;
  fv_ResourceVersion : N;
  fv_Editable : bool;
  fv_PlanRevision : N;
}.

Inductive payload :=
  | PSession (account : Account) (csrf : string) (expiresAt : Time)
  | PTenants (items : list tenantView) (limit offset : Z)
  | PTenant (view : tenantView)
  | PTenantCreated (view : tenantView) (account : Account) (policy : Policy)
  | PPolicy (policy : Policy)
  | PAudit (events : list (nat * (AuditEvent * Time))) (limit offset : Z)
  | PForwards (items : list forwardView) (planID : string) (revision : N)
  | PForward (view : forwardView)
  | PForwardRollout (view : forwardView) (rollout : ClusterApplyResult).

Inductive cookies := CookiesKept | CookiesCleared | CookiesSet (token csrf : string) (expiresAt : Time) (maxAge : Z).

Record Response := MkResponse {
  rs_status : N;
  rs_code : string;
  rs_cookies : cookies;
  rs_body : option payload;
}.
Definition writeError (status : N) (code : string) : Response := MkResponse status code CookiesKept None.
Definition writeData (status : N) (data : payload) : Response := MkResponse status "" CookiesKept (Some data).
Definition noContent : Response := MkResponse 204 "" CookiesKept None.
Definition with_cookies (c : cookies) (r : Response) : Response :=
  MkResponse (rs_status r) (rs_code r) c (rs_body r).

(** [sourceIP] *)
Definition ParseIP (s : string) : option Addr :=
  match ParseAddr s with
  | Some (Addr6 _ zone) as parsed => if bool_decide (zone = "") then Addr_Unmap <$> parsed else None
  | parsed => parsed
  end.
Definition Addr_IsLoopback (a : Addr) : bool :=
  match a with
  | Addr4 b => N.shiftr b 24 =? 127
  | Addr6 b _ => b =? 1
  | AddrZero => false
  end.
Definition first_of (sep : ascii) (s : string) : string :=
  match split_at sep (chars s) [] with l :: _ => of_chars l | [] => "" end.
Definition sourceIP (request : Request) : string :=
  let host := match SplitHostPort (rq_RemoteAddr request) with
              | Some (host, _) => host
              | None => rq_RemoteAddr request
              end in
  match ParseIP (TrimSpace host) with
  | None => host
  | Some remoteIP =>
      let candidates :=
        if Addr_IsLoopback remoteIP
        then [TrimSpace (first_of "," (rq_XForwardedFor request)); TrimSpace (rq_XRealIP request)] else [] in
      match omap ParseIP candidates with
      | parsed :: _ => Addr_String parsed
      | [] => Addr_String remoteIP
      end
  end.

(** [pagination]; [strconv.Atoi] answers 0 for what is no number and the nearest
    integer for one out of range. *)
Definition Atoi (s : string) : Z :=
  let '(sign, l) := match chars s with
                    | "-"%char :: l => ((-1)%Z, l)
                    | "+"%char :: l => (1%Z, l)
                    | l => (1%Z, l)
                    end in
  match l with
  | [] => 0%Z
  | _ => match digits_val l 0 with
         | Some n => Z.max (- 2 ^ 63) (Z.min (2 ^ 63 - 1) (sign * Z.of_N n))
         | None => 0%Z
         end
  end.
Definition pagination (limit offset : string) : Z * Z :=
  let limit := Atoi limit in
  (if (limit <=? 0)%Z || (200 <? limit)%Z then 50%Z else limit, Z.max 0 (Atoi offset)).

(** * Errors of the repository *)
Inductive api_error :=
  | ApiIdentity (e : identity_error)
  | ApiStore (e : store_error)
  | ApiPolicy (e : iam_error).

Definition policy_text (e : iam_error) : string :=
  match e with
  | ErrUnauthenticated => "authentication failed"
  | ErrForbidden message => "operation is not permitted: " +:+ message
  | ErrInvalid message => message
  | ErrDuplicate name value => name +:+ " contains duplicate " +:+ value
  | ErrProtocolUnsupported protocol => "allowed protocol " +:+ protocol +:+ " is unsupported"
  | ErrProtocolDuplicated protocol => "allowed protocol " +:+ protocol +:+ " is duplicated"
  end.
Definition identity_text (e : identity_error) : string :=
  match e with
  | IdUnauthenticated => "authentication failed"
  | IdForbidden message => "operation is not permitted: " +:+ message
  | IdConflict message => "resource version conflict: " +:+ message
  | IdNotFound => "identity resource not found"
  | IdPolicy e => policy_text e
  | IdFailure message => message
  end.
Definition store_text (e : store_error) : string :=
  match e with
  | ErrInvalidEnrollment => "enrollment token is invalid, expired, used, or bound to another node"
  | ErrCredentialRevoked => "node Noise key is unknown or revoked"
  | ErrGenerationMissing => "node generation does not exist"
  | ErrChecksumMismatch => "generation checksum does not match controller state"
  | ErrProgramMismatch => "applied program checksum conflicts with an earlier ACK"
  | ErrHealthProbeMissing => "backend health report does not match its desired generation"
  | DesiredInvalid issues => "invalid desired state: " +:+ String.concat "; " issues
  | _ => error_text e
  end.
Definition api_text (e : api_error) : string :=
  match e with ApiIdentity e => identity_text e | ApiStore e => store_text e | ApiPolicy e => policy_text e end.

(** [strings.Contains] *)
Fixpoint occurs (needle l : list ascii) : bool :=
  bool_decide (take (length needle) l = needle)
  || match l with [] => false | _ :: l => occurs needle l end.
Definition isInputError (message : string) : bool :=
  existsb (λ word, occurs (chars word) (chars (lower_name message)))
    ["invalid"; "must"; "required"; "expiry"; "exceeds"; "duplicate"].

Definition internalError : Response := writeError 500 "internal_error".
Definition otherwise_error (message : string) : Response :=
  if isInputError message then writeError 400 "invalid_request" else internalError.

Definition writeRepositoryError (e : api_error) : Response :=
  match e with
  | ApiIdentity IdNotFound => writeError 404 "not_found"
  | ApiStore ErrNodeNotFound => writeError 404 "not_found"
  | ApiStore ErrNodeDeletionConflict => writeError 409 "node_delete_conflict"
  | ApiStore ErrClusterPlanNotFound => writeError 409 "cluster_plan_not_configured"
  | ApiStore ErrNodeAlreadyEnrolled => writeError 409 "node_already_enrolled"
  | ApiStore ErrNodeRevoked => writeError 409 "node_revoked"
  | ApiIdentity (IdConflict _) | ApiStore ErrPlanRevisionConflict | ApiStore ErrRolloutInProgress
  | ApiStore ErrManagementConflict => writeError 409 "resource_conflict"
  | ApiIdentity (IdForbidden _) | ApiIdentity (IdPolicy (ErrForbidden _)) | ApiPolicy (ErrForbidden _) =>
      writeError 403 "forbidden"
  | e => otherwise_error (api_text e)
  end.

(** * Handlers: what a call committed stays, also when the handler answers an
    error *)
Definition Handler (A : Type) : Type := World → World * (Response + A).
#[export] Instance Handler_ret : MRet Handler := λ A a w, (w, inr a).
#[export] Instance Handler_bind : MBind Handler := λ A B f m w,
  match m w with (w, inl r) => (w, inl r) | (w, inr a) => f a w end.

Definition answer {A} (r : Response) : Handler A := λ w, (w, inl r).
Definition unless (cond : bool) (r : Response) : Handler unit := if cond then answer r else mret tt.
Definition of_world {A} (f : World → A) : Handler A := λ w, (w, inr (f w)).
Definition set_limiter (f : loginLimiter → loginLimiter) : Handler unit := λ w,
  (MkWorld (w_db w) (w_identity w) (f (w_limiter w)), inr tt).

(** One call of the repository, with its result *)
Definition identity_call {A} (m : Id A) : Handler (identity_error + A) := λ w,
  let '(db, r) := identity_transact m (w_identity w) in (MkWorld (w_db w) db (w_limiter w), inr r).
Definition store_call {A} (m : Tx A) : Handler (store_error + A) := λ w,
  let '(db, r) := transact m (w_db w) in (MkWorld db (w_identity w) (w_limiter w), inr r).

(** [if err != nil { s.writeRepositoryError(writer, err); return }] *)
Definition or_answer {E A} (f : E → Response) (r : E + A) : Handler A :=
  match r with inl e => answer (f e) | inr a => mret a end.
Definition from_identity {A} (m : Id A) : Handler A :=
  r ← identity_call m; or_answer (λ e, writeRepositoryError (ApiIdentity e)) r.
Definition from_store {A} (m : Tx A) : Handler A :=
  r ← store_call m; or_answer (λ e, writeRepositoryError (ApiStore e)) r.
(** [decodeJSON], which failed or decoded the input *)
Definition decoded {A} (input : option A) : Handler A :=
  match input with Some a => mret a | None => answer (writeError 400 "invalid_request") end.

Definition serve (m : Handler Response) (w : World) : World * Response :=
  match m w with (w, inl r) | (w, inr r) => (w, r) end.

(** The JSON of an audit detail; the strings in it need no escape. *)
Definition quoted (s : string) : string := of_chars ["034"%char] +:+ s +:+ of_chars ["034"%char].
Definition detail_of (name value : string) : string := "{" +:+ quoted name +:+ ":" +:+ value +:+ "}".

(** * Sessions *)
Section server.
Context {argon2 : Argon2}.
Context (config : Config) (env : Env) (request : Request).
Let now : Time := en_now env.

(** A failing audit is logged, and the answer stays. *)
Definition audit (e : AuditEvent) : Handler unit :=
  _ ← identity_call (RecordManagementAudit e now); mret tt.
Definition auditSession (session : Session) (action resourceType resourceID outcome detail : string) :
    Handler unit :=
  let account := ss_Account session in
  audit (MkAuditEvent (ac_ID account) (ac_Username account) (ac_Role account) (ac_TenantID account)
           action resourceType resourceID outcome (sourceIP request) detail).

(** Letters outside ASCII keep their case here. *)
Definition normalizedAuditUsername (value : string) : string := truncate_to (lower_name (TrimSpace value)) 64.
Definition login_event (account : option Account) (username outcome : string) : AuditEvent :=
  match account with
  | Some a => MkAuditEvent (ac_ID a) (ac_Username a) (ac_Role a) (ac_TenantID a) "auth.login" "session" ""
                outcome (sourceIP request) "{}"
  | None => MkAuditEvent "" (normalizedAuditUsername username) "" "" "auth.login" "session" "" outcome
              (sourceIP request) "{}"
  end.

Definition publicAccount (a : Account) : Account :=
  {| ac_ID := ac_ID a; ac_TenantID := ac_TenantID a; ac_Username := ac_Username a;
     ac_DisplayName := ac_DisplayName a; ac_Role := ac_Role a; ac_Status := ac_Status a;
     ac_PasswordHash := ""; ac_FailedLoginCount := 0; ac_LockedUntil := None;
     ac_ExpiresAt := ac_ExpiresAt a; ac_ResourceVersion := ac_ResourceVersion a;
     ac_LastLoginAt := ac_LastLoginAt a; ac_CreatedAt := ac_CreatedAt a; ac_UpdatedAt := ac_UpdatedAt a |}.

Definition session_cookies (token csrf : string) (expiresAt : Time) : cookies :=
  CookiesSet token csrf expiresAt (Z.max 1 (Z.quot (Time_Sub expiresAt now) Second)).

Definition password_shape (password : string) : bool :=
  (1 <=? String.length password)%nat && (String.length password <=? 128)%nat
  && negb (existsb (λ b, b =? 0) (bytes_of password)).
Definition is_available (a : Account) : bool :=
  match Available a now with inr _ => true | inl _ => false end.
Definition login_failed : Response := writeError 401 "invalid_credentials".

Definition limited (remoteIP : string) : Handler unit := λ w,
  let '(l, allowed) := allow remoteIP now (w_limiter w) in
  (MkWorld (w_db w) (w_identity w) l,
   if allowed then inr tt else inl (writeError 429 "login_rate_limited")).

(** [handleLogin]; the verification against the dummy hash has no result. *)
Definition complete_login (account : Account) : Handler Response :=
  let remoteIP := sourceIP request in
  recorded ← identity_call (RecordLoginSuccess (ac_ID account) now);
  _ ← or_answer (λ _, internalError) recorded;
  created ← identity_call (CreateManagementSession (ac_ID account) (mc_SessionTTL config) remoteIP
                             (rq_UserAgent request) (en_random env) (en_random2 env) now);
  created ← or_answer (λ _, internalError) created;
  let '(token, csrf, session) := created in
  _ ← set_limiter (reset remoteIP);
  _ ← audit (login_event (Some account) "" "success");
  mret (with_cookies (session_cookies token csrf (ss_ExpiresAt session))
          (writeData 200 (PSession (publicAccount (ss_Account session)) csrf (ss_ExpiresAt session)))).

Definition handleLogin (input : option (string * string)) : Handler Response :=
  _ ← limited (sourceIP request);
  input ← decoded input;
  let '(username, password) := input in
  _ ← unless (negb (en_slot env)) (writeError 429 "login_busy");
  lookup ← identity_call (AccountByUsername username);
  match lookup with
  | inl _ =>
      _ ← audit (login_event None username "denied");
      answer login_failed
  | inr account =>
      let passwordOK := password_shape password && VerifyPassword (ac_PasswordHash account) password in
      if negb passwordOK || negb (is_available account) then
        _ ← (if passwordOK then mret (inr tt) else identity_call (RecordLoginFailure (ac_ID account) now));
        _ ← audit (login_event None username "denied");
        answer login_failed
      else complete_login account
  end.

Definition csrfValid (expected : list N) : bool :=
  match rq_csrfCookie request with
  | Some cookie =>
      let header := rq_csrfHeader request in
      negb (bool_decide (header = "")) && (String.length header <=? 128)%nat
      && bool_decide (header = cookie) && bool_decide (HashSecret header = expected)
  | None => false
  end.

Definition authenticated (ownerOnly requireCSRF : bool) (next : Session → Handler Response) :
    Handler Response :=
  match rq_sessionCookie request with
  | None => answer (writeError 401 "unauthenticated")
  | Some token =>
      _ ← unless (bool_decide (token = "")) (writeError 401 "unauthenticated");
      session ← identity_call (ManagementSession token now);
      session ← or_answer (λ _, with_cookies CookiesCleared (writeError 401 "unauthenticated")) session;
      if ownerOnly && negb (bool_decide (ac_Role (ss_Account session) = RoleOwner)) then
        _ ← auditSession session "authorization.denied" "route" (rq_Path request) "denied" "{}";
        answer (writeError 403 "forbidden")
      else if requireCSRF && negb (csrfValid (ss_CSRFHash session)) then
        _ ← auditSession session "csrf.denied" "route" (rq_Path request) "denied" "{}";
        answer (writeError 403 "invalid_csrf")
      else next session
  end.

Definition handleLogout (session : Session) : Handler Response :=
  _ ← (match rq_sessionCookie request with
       | Some cookie => _ ← identity_call (RevokeManagementSession cookie now); mret tt
       | None => mret tt
       end);
  _ ← auditSession session "auth.logout" "session" "" "success" "{}";
  mret (with_cookies CookiesCleared noContent).

Definition handleMe (session : Session) : Handler Response :=
  mret (writeData 200 (PSession (publicAccount (ss_Account session)) (default "" (rq_csrfCookie request))
                         (ss_ExpiresAt session))).

Definition hashed (password : string) : Handler string :=
  or_answer (λ _, writeError 400 "invalid_password") (HashPassword (en_salt env) password).

Definition handleChangePassword (input : option (string * string)) (session : Session) : Handler Response :=
  input ← decoded input;
  let '(currentPassword, newPassword) := input in
  let account := ss_Account session in
  if negb (VerifyPassword (ac_PasswordHash account) currentPassword) then
    _ ← auditSession session "auth.password.change" "account" (ac_ID account) "denied" "{}";
    answer login_failed
  else
    passwordHash ← hashed newPassword;
    _ ← from_identity (ReplaceAccountPassword (ac_ID account) passwordHash (ac_ResourceVersion account) now);
    _ ← auditSession session "auth.password.change" "account" (ac_ID account) "success" "{}";
    mret (with_cookies CookiesCleared noContent).

Definition handleResetTenantPassword (tenantID : string) (input : option string) (session : Session) :
    Handler Response :=
  password ← decoded input;
  account ← from_identity (TenantAccountByTenantID tenantID);
  passwordHash ← hashed password;
  _ ← from_identity (ReplaceAccountPassword (ac_ID account) passwordHash (ac_ResourceVersion account) now);
  _ ← auditSession session "tenant.password.reset" "tenant" tenantID "success" "{}";
  mret noContent.

(** * Tenants *)
Section tenants.
(** [ActiveClusterPlan] of the configured plan, as [w_db] answers it *)
Context (activePlan : Tx ActivePlan).

Definition canAccessTenant (account : Account) (tenantID : string) : bool :=
  bool_decide (ac_Role account = RoleOwner)
  || bool_decide (ac_Role account = RoleTenant) && bool_decide (ac_TenantID account = tenantID).

Definition counted (tenantID : string) (f : Forward) : bool :=
  bool_decide (cf_UserID f = tenantID) && negb (bool_decide (cf_Lifecycle f = LifecycleForceDeleting)).
Definition tenantForwardCount (plan : Plan) (tenantID : string) : N :=
  wrap 32 (N.of_nat (length (filter (λ f, counted tenantID f = true) (pl_Forwards plan)))).
Definition tenantForwardCounts : Handler (string → N) :=
  record ← store_call activePlan;
  mret (λ tenantID, match record with
                    | inl _ => 0
                    | inr record => if bool_decide (tenantID = "owner") then 0
                                    else tenantForwardCount (ap_Plan record) tenantID
                    end).

Definition tenantViewFrom (tenantID : string) (t : TenantRow) (account : Account) (forwardsCount : N) : tenantView :=
  MkTenantView tenantID (tr_name t) (ac_Username account) (ac_DisplayName account) (tr_status t) forwardsCount
    (tr_expires_at t) (tr_created_at t) (tr_updated_at t) (tr_resource_version t).

Fixpoint viewTenants (counts : string → N) (tenants : list (string * TenantRow)) : Handler (list tenantView) :=
  match tenants with
  | [] => mret []
  | (tenantID, t) :: rest =>
      account ← identity_call (TenantAccountByTenantID tenantID);
      account ← or_answer (λ _, internalError) account;
      views ← viewTenants counts rest;
      mret (tenantViewFrom tenantID t account (counts tenantID) :: views)
  end.

Definition handleListTenants (limit offset : string) : Handler Response :=
  let '(limit, offset) := pagination limit offset in
  tenants ← of_world (λ w, ListTenants limit offset (w_identity w));
  counts ← tenantForwardCounts;
  views ← viewTenants counts tenants;
  mret (writeData 200 (PTenants views limit offset)).

Definition handleCreateTenant (input : option (TenantCreate * string)) (session : Session) : Handler Response :=
  input ← decoded input;
  let '(input, password) := input in
  passwordHash ← hashed password;
  let name := if bool_decide (TrimSpace (tc_Name input) = "") then tc_DisplayName input else tc_Name input in
  let create := MkTenantCreate (tc_ID input) name (tc_Username input) (tc_DisplayName input) passwordHash
                  (tc_ExpiresAt input) (tc_InitialPolicy input) in
  nodes ← of_world (λ w, db_nodes (w_db w));
  created ← from_identity (CreateTenant nodes (en_exit_first env) create (en_random env) (en_random2 env) now);
  let '(tenant, account, policy) := created in
  _ ← auditSession session "tenant.create" "tenant" (ac_TenantID account) "success"
        (detail_of "username" (quoted (ac_Username account)));
  mret (writeData 201 (PTenantCreated (tenantViewFrom (ac_TenantID account) tenant account 0)
                         (publicAccount account) policy)).

Definition view_answer (tenantID : string) (tenant : TenantRow) : Handler Response :=
  account ← from_identity (TenantAccountByTenantID tenantID);
  counts ← tenantForwardCounts;
  mret (writeData 200 (PTenant (tenantViewFrom tenantID tenant account (counts tenantID)))).

Definition handleGetTenant (tenantID : string) (session : Session) : Handler Response :=
  _ ← unless (negb (canAccessTenant (ss_Account session) tenantID)) (writeError 403 "forbidden");
  tenant ← from_identity (TenantByID tenantID);
  view_answer tenantID tenant.

(** [expires_at]: absent, [null], a time, or something else *)
Inductive expiryInput := ExpiryAbsent | ExpiryNull | ExpiryAt (t : Time) | ExpiryMalformed.
Record tenantInput := MkTenantInput {
  ti_Name : option string;
  ti_Status : option Status;
  ti_ExpiresAt : expiryInput;
  ti_ResourceVersion : N;
}.
Definition new_expiry (current : option Time) (input : expiryInput) : Handler (option Time) :=
  match input with
  | ExpiryAbsent => mret current
  | ExpiryNull => mret None
  | ExpiryAt t => mret (Some t)
  | ExpiryMalformed => answer (writeError 400 "invalid_request")
  end.

Definition handleUpdateTenant (tenantID : string) (input : option tenantInput) (session : Session) :
    Handler Response :=
  input ← decoded input;
  current ← from_identity (TenantByID tenantID);
  expiresAt ← new_expiry (tr_expires_at current) (ti_ExpiresAt input);
  tenant ← from_identity (UpdateTenant tenantID (default (tr_name current) (ti_Name input))
             (default (tr_status current) (ti_Status input)) expiresAt (ti_ResourceVersion input) now);
  _ ← auditSession session "tenant.update" "tenant" tenantID "success"
        (detail_of "status" (quoted (tr_status tenant)));
  view_answer tenantID tenant.

Definition handleGetPolicy (tenantID : string) (session : Session) : Handler Response :=
  _ ← unless (negb (canAccessTenant (ss_Account session) tenantID)) (writeError 403 "forbidden");
  policy ← from_identity (TenantPolicy tenantID);
  mret (writeData 200 (PPolicy policy)).

(** The input is a policy without its tenant and times. *)
Definition handleUpdatePolicy (tenantID : string) (input : option Policy) (session : Session) : Handler Response :=
  input ← decoded input;
  nodes ← of_world (λ w, db_nodes (w_db w));
  policy ← from_identity (UpdateTenantPolicy nodes (en_exit_first env)
             (with_identity tenantID (po_ResourceVersion input) 0%Z 0%Z input) now);
  _ ← auditSession session "tenant.policy.update" "tenant_policy" tenantID "success"
        (detail_of "resource_version" (show (po_ResourceVersion policy)));
  mret (writeData 200 (PPolicy policy)).

Definition handleListAudit (limit offset : string) : Handler Response :=
  let '(limit, offset) := pagination limit offset in
  events ← of_world (λ w, ListManagementAudit limit offset (w_identity w));
  mret (writeData 200 (PAudit events limit offset)).
End tenants.
End server.
