(* ===== verification/ManagementForwards.v ===== *)
(** Forwards and nodes of the management server,
    [internal/controller/management/forward.go], parts of [node.go], and the
    routes of [server.go]. A change of forwards reads the active plan, makes the
    next revision of it and applies that. *)
From S2P Require Import Prelude.
From S2P Require Import GoNet.
From S2P Require Import GoCrypto.
From S2P Require Import SpecTypes.
From S2P Require Import SpecCanonical.
From S2P Require Import SpecValidate.
From S2P Require Import SpecChecksum.
From S2P Require Import Hostname.
From S2P Require Import Health.
From S2P Require Import Capabilities.
From S2P Require Import Iam.
From S2P Require Import Password.
From S2P Require Import ClusterTypes.
From S2P Require Import ClusterValidate.
From S2P Require Import PlanJson.
From S2P Require Import Scheduler.
From S2P Require Import ClusterCompile.
From S2P Require Import Rollout.
From S2P Require Import ControlDb.
From S2P Require Import ControlNodes.
From S2P Require Import ControlSchedule.
From S2P Require Import ControlIdentity.
From S2P Require Import ManagementServer.

Record forwardInput := MkForwardInput {
  fi_TenantID : string;
  fi_Protocols : list Protocol;
  fi_Listen : Endpoint;
  fi_Target : forwardEndpointPayload;
  fi_PathMode : PathMode;
  fi_IngressNodeID : string;
  fi_ExitNodeID : string;
  fi_RateLimit : option RateLimitSpec;
  fi_TrafficQuota : option TrafficQuotaSpec;
  fi_ExpiresAt : option Time;
  fi_Enabled : option bool;
  fi_ResourceVersion : N;
}.

(** * Looking at a plan *)

(** The first index a condition holds at *)
Definition index_where {A} (P : A → bool) (l : list A) : option nat :=
  fst <$> list_find (λ a, P a = true) l.

Definition forwardIndex (plan : Plan) (forwardID : string) : option nat :=
  index_where (λ f, bool_decide (cf_ID f = forwardID)) (pl_Forwards plan).

Definition references (plan : Plan) (poolID : string) : nat :=
  length (filter (λ f, cf_BackendPoolID f = poolID) (pl_Forwards plan)).
Definition editablePool (plan : Plan) (poolID : string) : option nat * bool :=
  match index_where (λ p, bool_decide (bp_ID p = poolID)) (pl_BackendPools plan) with
  | None => (None, false)
  | Some index =>
      let managed := match pl_BackendPools plan !! index with
                     | Some pool =>
                         match bp_Backends pool with
                         | [backend] => bool_decide (be_ID backend = "primary")
                         | _ => false
                         end
                     | None => false
                     end in
      (Some index, String.prefix "pool_fwd_" poolID && managed && (references plan poolID =? 1)%nat)
  end.

Definition validateManagementListenIP (plan : Plan) (forward : Forward) : bool :=
  match ns_NodeIDs (cf_Ingress forward) with
  | [nodeID] =>
      match head (filter (λ n, nd_ID n = nodeID) (pl_Nodes plan)) with
      | Some node => existsb (λ a, bool_decide (Addr_Unmap a = Addr_Unmap (ep_Address (cf_Listen forward))))
                       (nd_ListenIPs node)
      | None => false
      end
  | _ => false
  end.

Definition replaceUserPolicy (policies : list UserPolicySpec) (userID : string)
    (expected : option UserPolicySpec) : list UserPolicySpec :=
  filter (λ p, up_UserID p ≠ userID) policies ++ match expected with Some p => [p] | None => [] end.

(** [plan.Forwards[index] = forward] and the like *)
Definition with_plan (revision : N) (policies : list UserPolicySpec) (pools : list BackendPool)
    (forwards : list Forward) (p : Plan) : Plan :=
  {| pl_SchemaVersion := pl_SchemaVersion p; pl_ID := pl_ID p; pl_Revision := revision;
     pl_NodeOfflineAfterSeconds := pl_NodeOfflineAfterSeconds p; pl_Rollout := pl_Rollout p;
     pl_ServiceCIDRs := pl_ServiceCIDRs p; pl_Nodes := pl_Nodes p; pl_UserPolicies := policies;
     pl_BackendPools := pools; pl_Forwards := forwards |}.

(** * Views *)
Definition forwardTargetPayload (endpoint : Endpoint) : forwardEndpointPayload :=
  MkEndpointPayload
    (if bool_decide (ep_Hostname endpoint = "") then Addr_String (ep_Address endpoint) else ep_Hostname endpoint)
    (ep_Port endpoint).

(** The node of a selector that names one *)
Definition sole (l : list string) : string := match l with [nodeID] => nodeID | _ => "" end.
Definition exit_of (f : Forward) : string :=
  match cf_Exit f with Some selector => sole (ns_NodeIDs selector) | None => "" end.

Definition viewForForward (plan : Plan) (index : option nat) : option forwardView :=
  index ← index;
  forward ← pl_Forwards plan !! index;
  let '(poolIndex, editable) := editablePool plan (cf_BackendPoolID forward) in
  poolIndex ← poolIndex;
  pool ← pl_BackendPools plan !! poolIndex;
  backend ← head (bp_Backends pool);
  Some (MkForwardView (cf_ID forward) (cf_UserID forward) "" (cf_Protocols forward) (cf_Listen forward)
    (forwardTargetPayload (be_Target backend)) (cf_PathMode forward)
    (sole (ns_NodeIDs (cf_Ingress forward))) (sole (ns_NodeIDs (cf_Ingress forward)))
    (exit_of forward) (exit_of forward) (cf_RateLimit forward) (cf_TrafficQuota forward)
    (cf_ExpiresAt forward) (cf_Lifecycle forward) (cf_ResourceVersion forward) editable (pl_Revision plan)).

Definition set_tenantName (name : string) (v : forwardView) : forwardView :=
  MkForwardView (fv_ID v) (fv_TenantID v) name (fv_Protocols v) (fv_Listen v) (fv_Target v) (fv_PathMode v)
    (fv_IngressNodeID v) (fv_IngressNodeName v) (fv_ExitNodeID v) (fv_ExitNodeName v) (fv_RateLimit v)
    (fv_TrafficQuota v) (fv_ExpiresAt v) (fv_Lifecycle v) (fv_ResourceVersion v) (fv_Editable v)
    (fv_PlanRevision v).
Definition decorateForwardView (v : forwardView) : Handler forwardView :=
  if bool_decide (fv_TenantID v = "owner") then mret (set_tenantName "Owner" v)
  else
    tenant ← identity_call (TenantByID (fv_TenantID v));
    mret (set_tenantName (match tenant with inr t => tr_name t | inl _ => fv_TenantID v end) v).
Definition shown (plan : Plan) (index : option nat) : Handler forwardView :=
  match viewForForward plan index with
  | None => answer internalError
  | Some view => decorateForwardView view
  end.

(** * The target of a forward *)
Section target.
Context `{!Idna} (env : Env).

Definition usable_target (a : Addr) : bool :=
  Addr_Is4 a && negb (Addr_IsUnspecified a) && negb (Addr_IsMulticast a).

(** An error of it is an invalid request. *)
Definition resolveForwardTarget (input : forwardEndpointPayload) : option Endpoint :=
  let value := TrimSpace (fe_Address input) in
  if bool_decide (value = "") || (fe_Port input =? 0) then None
  else
    match ParseAddr value with
    | Some address =>
        let address := Addr_Unmap address in
        if usable_target address then Some (MkEndpoint address "" (fe_Port input)) else None
    | None =>
        match NormalizeHostname value with
        | inl _ => None
        | inr hostname =>
            match en_resolve env hostname with
            | None => None
            | Some address =>
                let address := Addr_Unmap address in
                if usable_target address then Some (MkEndpoint address hostname (fe_Port input)) else None
            end
        end
    end.

(** * Building a forward *)
Definition valid_id (value : string) : bool := bool_decide (ValidateIdentifier "" value = None).

Definition managed_forward (id tenantID : string) (input : forwardInput) (lifecycle : Lifecycle)
    (exit : option NodeSelector) (policy : FailureDomainPolicy) (resourceVersion : N) : Forward :=
  {| cf_ID := id; cf_UserID := tenantID; cf_Protocols := fi_Protocols input; cf_Listen := fi_Listen input;
     cf_PathMode := fi_PathMode input; cf_Ingress := MkNodeSelector [fi_IngressNodeID input] ∅;
     cf_Exit := exit; cf_FailureDomainPolicy := policy; cf_BackendPoolID := "pool_" +:+ id;
     cf_SNAT := MkSNATSpec SNATMasquerade None; cf_Reservation := (MkReservation 0 0);
     cf_RateLimit := fi_RateLimit input; cf_TrafficQuota := fi_TrafficQuota input;
     cf_ExpiresAt := fi_ExpiresAt input; cf_DrainDeadline := None; cf_Lifecycle := lifecycle;
     cf_ResourceVersion := resourceVersion |}.
Definition managed_pool (id : string) (target : Endpoint) (resourceVersion : N) : BackendPool :=
  {| bp_ID := "pool_" +:+ id;
     bp_Backends := [{| be_ID := "primary"; be_Target := target; be_ProbeEndpoint := None; be_Priority := 1;
                        be_ResourceVersion := resourceVersion |}];
     bp_Health := None; bp_ResourceVersion := resourceVersion |}.

Definition buildManagementForward (id tenantID : string) (input : forwardInput) (target : Endpoint)
    (resourceVersion : N) : option (Forward * BackendPool) :=
  if negb (valid_id id) || negb (valid_id tenantID) || bool_decide (fi_Protocols input = [])
     || negb (valid_id (fi_IngressNodeID input))
  then None
  else
    let lifecycle := if bool_decide (fi_Enabled input = Some false) then LifecyclePaused else LifecycleActive in
    let built exit policy :=
      Some (managed_forward id tenantID input lifecycle exit policy resourceVersion,
            managed_pool id target resourceVersion) in
    if bool_decide (fi_PathMode input = PathDirect) then
      if bool_decide (TrimSpace (fi_ExitNodeID input) = "") then built None "" else None
    else if bool_decide (fi_PathMode input = PathViaExit) then
      if valid_id (fi_ExitNodeID input)
      then built (Some (MkNodeSelector [fi_ExitNodeID input] ∅)) FailureDomainAny else None
    else None.
End target.

Section forwards.
Context `{!Idna} `{!MapRange} `{!StateRange} `{!StringRange}.
Context (dns : nat → nat → string → Addr → Addr).
Context (config : Config) (env : Env) (request : Request).
Let now : Time := en_now env.

Definition activePlan : Tx ActivePlan := ActiveClusterPlan (mc_PlanID config).

(** * Who may do what *)

(** [managementForward]: the active plan and the index of the forward in it *)
Definition managementForward (session : Session) (forwardID : string) : Handler (ActivePlan * nat * Forward) :=
  record ← from_store activePlan;
  match forwardIndex (ap_Plan record) forwardID with
  | None => answer (writeRepositoryError (ApiIdentity IdNotFound))
  | Some index =>
      match pl_Forwards (ap_Plan record) !! index with
      | None => answer (writeRepositoryError (ApiIdentity IdNotFound))
      | Some forward =>
          _ ← unless (bool_decide (ac_Role (ss_Account session) = RoleTenant)
                      && negb (bool_decide (cf_UserID forward = ac_TenantID (ss_Account session))))
                (writeRepositoryError (ApiIdentity (IdForbidden "")));
          mret (record, index, forward)
      end
  end.

(** [forwardTenantID] *)
Definition forwardTenantID (session : Session) (requested : string) : Handler string :=
  let requested := TrimSpace requested in
  let forbidden := writeRepositoryError (ApiIdentity (IdForbidden "")) in
  if bool_decide (ac_Role (ss_Account session) = RoleTenant) then
    _ ← unless (negb (bool_decide (requested = ""))
                && negb (bool_decide (requested = ac_TenantID (ss_Account session)))) forbidden;
    mret (ac_TenantID (ss_Account session))
  else if bool_decide (requested = "") then mret "owner"
  else
    _ ← from_identity (ValidateInternalID "tenant_id" requested);
    if bool_decide (requested = "owner") then mret requested
    else
      tenant ← from_identity (TenantByID requested);
      _ ← unless (negb (tenant_open now tenant)) forbidden;
      mret requested.

Definition resolved_forward (forward : Forward) (target : Endpoint) : ForwardSpec :=
  MkForwardSpec (cf_ID forward) (cf_UserID forward) (cf_Protocols forward)
    (sole (ns_NodeIDs (cf_Ingress forward))) (exit_of forward) (cf_Listen forward) target None ""
    (cf_PathMode forward) (cf_SNAT forward) 0 (cf_RateLimit forward) (cf_TrafficQuota forward)
    (cf_ExpiresAt forward) None (cf_Lifecycle forward) (cf_ResourceVersion forward).

Definition authorizeForward (session : Session) (forward : Forward) (target : Endpoint) (currentCount : N) :
    Handler unit :=
  let account := ss_Account session in
  if bool_decide (ac_Role account = RoleOwner) && bool_decide (cf_UserID forward = "owner") then mret tt
  else
    _ ← unless (bool_decide (ac_Role account = RoleTenant)
                && negb (bool_decide (cf_UserID forward = ac_TenantID account)))
          (writeRepositoryError (ApiIdentity (IdForbidden "")));
    tenant ← from_identity (TenantByID (cf_UserID forward));
    policy ← from_identity (TenantPolicy (cf_UserID forward));
    or_answer (λ e, writeRepositoryError (ApiPolicy e))
      (AuthorizeForward (en_exit_first env) policy (resolved_forward forward target) currentCount
         (tr_expires_at tenant) now).

(** [syncManagedUserPolicy] *)
Definition syncManagedUserPolicy (plan : Plan) (tenantID : string) : Handler (list UserPolicySpec) :=
  if bool_decide (tenantID = "owner") then mret (pl_UserPolicies plan)
  else
    policy ← from_identity (TenantPolicy tenantID);
    expected ← or_answer (λ e, writeRepositoryError (ApiPolicy e)) (DataPlanePolicy (en_exit_first env) policy);
    mret (replaceUserPolicy (pl_UserPolicies plan) tenantID expected).

Definition applyManagementPlan (session : Session) (plan : Plan) : Handler ClusterApplyResult :=
  let account := ss_Account session in
  policies ← of_world (λ w, id_policies (w_identity w));
  from_store (ApplyClusterPlan dns policies plan (ac_Role account +:+ ":" +:+ ac_Username account) now).

Definition rollout_detail (revision rollout : N) : string :=
  "{" +:+ quoted "plan_revision" +:+ ":" +:+ show revision +:+ "," +:+ quoted "rollout_id" +:+ ":"
  +:+ show rollout +:+ "}".

(** The end of a handler that changed a forward: apply, view, audit. *)
Definition finish (session : Session) (action forwardID : string) (status : N) (plan : Plan)
    (index : option nat) : Handler Response :=
  result ← applyManagementPlan session plan;
  view ← shown plan index;
  _ ← auditSession env request session action "forward" forwardID "success"
        (rollout_detail (pl_Revision plan) (cr_RolloutID result));
  mret (writeData status (PForwardRollout view result)).

Definition bad_request {A} : Handler A := answer (writeError 400 "invalid_request").
Definition given {A} (value : option A) : Handler A :=
  match value with Some a => mret a | None => bad_request end.

(** * The handlers *)
Definition handleCreateForward (input : option forwardInput) (session : Session) : Handler Response :=
  input ← decoded input;
  _ ← unless (negb (fi_ResourceVersion input =? 0)) (writeError 400 "invalid_request");
  tenantID ← forwardTenantID session (fi_TenantID input);
  record ← from_store activePlan;
  target ← given (resolveForwardTarget env (fi_Target input));
  let forwardID := NewID "fwd" (en_random env) in
  built ← given (buildManagementForward forwardID tenantID input target 1);
  let '(forward, pool) := built in
  _ ← unless (negb (validateManagementListenIP (ap_Plan record) forward)) (writeError 400 "invalid_request");
  _ ← authorizeForward session forward target (tenantForwardCount (ap_Plan record) tenantID);
  let plan := PlanCanonical (ap_Plan record) in
  policies ← syncManagedUserPolicy plan tenantID;
  let plan := with_plan (uadd 64 (ap_MaximumRevision record) 1) policies (pl_BackendPools plan ++ [pool])
                (pl_Forwards plan ++ [forward]) plan in
  finish session "forward.create" forwardID 201 plan (forwardIndex plan forwardID).

(** A pool with another target for its only backend *)
Definition retarget (target : Endpoint) (pool : BackendPool) : BackendPool :=
  {| bp_ID := bp_ID pool;
     bp_Backends := match bp_Backends pool with
                    | b :: rest =>
                        {| be_ID := be_ID b; be_Target := target; be_ProbeEndpoint := be_ProbeEndpoint b;
                           be_Priority := be_Priority b;
                           be_ResourceVersion := uadd 64 (be_ResourceVersion b) 1 |} :: rest
                    | [] => []
                    end;
     bp_Health := bp_Health pool; bp_ResourceVersion := uadd 64 (bp_ResourceVersion pool) 1 |}.

Definition updated_forward (existing updated : Forward) (enabled : option bool) : Forward :=
  {| cf_ID := cf_ID updated; cf_UserID := cf_UserID updated; cf_Protocols := cf_Protocols updated;
     cf_Listen := cf_Listen updated; cf_PathMode := cf_PathMode updated; cf_Ingress := cf_Ingress updated;
     cf_Exit := cf_Exit updated; cf_FailureDomainPolicy := cf_FailureDomainPolicy updated;
     cf_BackendPoolID := cf_BackendPoolID existing; cf_SNAT := cf_SNAT updated;
     cf_Reservation := cf_Reservation updated; cf_RateLimit := cf_RateLimit updated;
     cf_TrafficQuota := cf_TrafficQuota updated; cf_ExpiresAt := cf_ExpiresAt updated;
     cf_DrainDeadline := cf_DrainDeadline updated;
     cf_Lifecycle := match enabled with Some _ => cf_Lifecycle updated | None => cf_Lifecycle existing end;
     cf_ResourceVersion := cf_ResourceVersion updated |}.

Definition conflict {A} : Handler A := answer (writeRepositoryError (ApiIdentity (IdConflict ""))).
Definition deleting (f : Forward) : bool :=
  bool_decide (cf_Lifecycle f = LifecycleDraining) || bool_decide (cf_Lifecycle f = LifecycleForceDeleting).
Definition editable_pool (plan : Plan) (f : Forward) : Handler nat :=
  match editablePool plan (cf_BackendPoolID f) with
  | (Some poolIndex, true) => mret poolIndex
  | _ => conflict
  end.

Definition handleUpdateForward (forwardID : string) (input : option forwardInput) (session : Session) :
    Handler Response :=
  input ← decoded input;
  _ ← unless (fi_ResourceVersion input =? 0) (writeError 400 "invalid_request");
  found ← managementForward session forwardID;
  let '(record, index, existing) := found in
  _ ← unless (negb (fi_ResourceVersion input =? cf_ResourceVersion existing))
        (writeRepositoryError (ApiIdentity (IdConflict "")));
  _ ← unless (negb (bool_decide (fi_TenantID input = "")) && negb (bool_decide (fi_TenantID input = cf_UserID existing)))
        (writeRepositoryError (ApiIdentity (IdForbidden "")));
  _ ← unless (deleting existing) (writeRepositoryError (ApiIdentity (IdConflict "")));
  poolIndex ← editable_pool (ap_Plan record) existing;
  target ← given (resolveForwardTarget env (fi_Target input));
  built ← given (buildManagementForward (cf_ID existing) (cf_UserID existing) input target
                   (uadd 64 (cf_ResourceVersion existing) 1));
  let updated := updated_forward existing built.1 (fi_Enabled input) in
  _ ← unless (negb (bool_decide (cf_Listen updated = cf_Listen existing))
              && negb (validateManagementListenIP (ap_Plan record) updated)) (writeError 400 "invalid_request");
  let count := tenantForwardCount (ap_Plan record) (cf_UserID existing) in
  _ ← authorizeForward session updated target (if count =? 0 then 0 else count - 1);
  let plan := PlanCanonical (ap_Plan record) in
  policies ← syncManagedUserPolicy plan (cf_UserID existing);
  let plan := with_plan (uadd 64 (ap_MaximumRevision record) 1) policies
                (alter (retarget target) poolIndex (pl_BackendPools plan))
                (<[index := updated]> (pl_Forwards plan)) plan in
  finish session "forward.update" (cf_ID existing) 200 plan (Some index).

(** The query of a delete *)
Record deleteQuery := MkDeleteQuery { dq_resource_version : string; dq_mode : string; dq_drain_seconds : string }.

Definition with_deletion (lifecycle : Lifecycle) (deadline : option Time) (f : Forward) : Forward :=
  {| cf_ID := cf_ID f; cf_UserID := cf_UserID f; cf_Protocols := cf_Protocols f; cf_Listen := cf_Listen f;
     cf_PathMode := cf_PathMode f; cf_Ingress := cf_Ingress f; cf_Exit := cf_Exit f;
     cf_FailureDomainPolicy := cf_FailureDomainPolicy f; cf_BackendPoolID := cf_BackendPoolID f;
     cf_SNAT := cf_SNAT f; cf_Reservation := cf_Reservation f; cf_RateLimit := cf_RateLimit f;
     cf_TrafficQuota := cf_TrafficQuota f; cf_ExpiresAt := cf_ExpiresAt f; cf_DrainDeadline := deadline;
     cf_Lifecycle := lifecycle; cf_ResourceVersion := uadd 64 (cf_ResourceVersion f) 1 |}.

Definition drain_seconds (raw : string) : option N :=
  let raw := TrimSpace raw in
  if bool_decide (raw = "") then Some 300
  else
    seconds ← ParseUint 32 raw;
    if (seconds <? 30) || (86400 <? seconds) then None else Some seconds.

Definition deleted_forward (mode drainSeconds : string) (f : Forward) : option Forward :=
  if bool_decide (mode = "force") then Some (with_deletion LifecycleForceDeleting None f)
  else if bool_decide (mode = "drain") then
    seconds ← drain_seconds drainSeconds;
    Some (with_deletion LifecycleDraining (Some (Time_Add now (Z.of_N seconds * Second))) f)
  else None.

Definition handleDeleteForward (forwardID : string) (query : deleteQuery) (session : Session) :
    Handler Response :=
  found ← managementForward session forwardID;
  let '(record, index, forward) := found in
  expected ← given (ParseUint 64 (dq_resource_version query));
  _ ← unless (expected =? 0) (writeError 400 "invalid_request");
  _ ← unless (negb (expected =? cf_ResourceVersion forward)) (writeRepositoryError (ApiIdentity (IdConflict "")));
  let mode := lower_name (TrimSpace (dq_mode query)) in
  let mode := if bool_decide (mode = "") then "drain" else mode in
  forward ← given (deleted_forward mode (dq_drain_seconds query) forward);
  let plan := PlanCanonical (ap_Plan record) in
  let plan := with_plan (uadd 64 (ap_MaximumRevision record) 1) (pl_UserPolicies plan) (pl_BackendPools plan)
                (<[index := forward]> (pl_Forwards plan)) plan in
  finish session ("forward.delete." +:+ mode) (cf_ID forward) 202 plan (Some index).

(** * Nodes *)
Definition set_blocks (blocks : option ProtocolBlockPolicy) (n : Node) : Node :=
  {| nd_ID := nd_ID n; nd_Enabled := nd_Enabled n; nd_Roles := nd_Roles n; nd_Labels := nd_Labels n;
     nd_ListenIPs := nd_ListenIPs n; nd_FailureDomain := nd_FailureDomain n; nd_Capacity := nd_Capacity n;
     nd_FabricLinks := nd_FabricLinks n; nd_ProtocolBlocks := blocks |}.
Definition with_nodes (revision : N) (nodes : list Node) (p : Plan) : Plan :=
  {| pl_SchemaVersion := pl_SchemaVersion p; pl_ID := pl_ID p; pl_Revision := revision;
     pl_NodeOfflineAfterSeconds := pl_NodeOfflineAfterSeconds p; pl_Rollout := pl_Rollout p;
     pl_ServiceCIDRs := pl_ServiceCIDRs p; pl_Nodes := nodes; pl_UserPolicies := pl_UserPolicies p;
     pl_BackendPools := pl_BackendPools p; pl_Forwards := pl_Forwards p |}.

Definition checked_node (nodeID : string) : Handler unit :=
  unless (negb (bool_decide (ValidateIdentifier "node_id" nodeID = None))) (writeError 400 "invalid_request").

Definition handleUpdateNodeProtocolBlocks (nodeID : string) (input : option (N * ProtocolBlockPolicy))
    (session : Session) : Handler Response :=
  input ← decoded input;
  let '(resourceVersion, blocks) := input in
  _ ← unless (resourceVersion =? 0) (writeError 400 "invalid_request");
  _ ← checked_node nodeID;
  record ← from_store activePlan;
  _ ← unless (negb (resourceVersion =? pl_Revision (ap_Plan record)))
        (writeRepositoryError (ApiIdentity (IdConflict "")));
  let plan := PlanCanonical (ap_Plan record) in
  match list_find (λ n, nd_ID n = nodeID) (pl_Nodes plan) with
  | None => answer (writeError 409 "node_not_configured")
  | Some (nodeIndex, node) =>
      if bool_decide (default (MkProtocolBlockPolicy false false false false) (nd_ProtocolBlocks node) = blocks)
      then mret noContent
      else
        let wanted := if ProtocolBlockPolicy_Any blocks then Some blocks else None in
        let plan := with_nodes (uadd 64 (ap_MaximumRevision record) 1)
                      (alter (set_blocks wanted) nodeIndex (pl_Nodes plan)) plan in
        result ← applyManagementPlan session plan;
        _ ← auditSession env request session "node.protocol_blocks.update" "node" nodeID "success"
              (rollout_detail (pl_Revision plan) (cr_RolloutID result));
        mret noContent
  end.

Definition handleRevokeNode (nodeID : string) (session : Session) : Handler Response :=
  _ ← checked_node nodeID;
  _ ← from_store (RevokeNode nodeID now);
  _ ← auditSession env request session "node.revoke" "node" nodeID "success" "{}";
  mret noContent.

Definition handleDeleteNode (nodeID : string) (session : Session) : Handler Response :=
  _ ← checked_node nodeID;
  _ ← from_store (DeletePendingNode nodeID);
  _ ← auditSession env request session "node.delete" "node" nodeID "success" (detail_of "state" (quoted "pending"));
  mret noContent.

(** * Reading *)
Fixpoint views_of (session : Session) (plan : Plan) (indices : list nat) : Handler (list forwardView) :=
  match indices with
  | [] => mret []
  | index :: rest =>
      let hidden := match pl_Forwards plan !! index with
                    | Some f => bool_decide (ac_Role (ss_Account session) = RoleTenant)
                                && negb (bool_decide (cf_UserID f = ac_TenantID (ss_Account session)))
                    | None => true
                    end in
      if hidden then views_of session plan rest
      else
        view ← shown plan (Some index);
        views ← views_of session plan rest;
        mret (view :: views)
  end.

Definition handleListForwards (session : Session) : Handler Response :=
  record ← from_store activePlan;
  let plan := ap_Plan record in
  items ← views_of session plan (seq 0 (length (pl_Forwards plan)));
  mret (writeData 200 (PForwards items (pl_ID plan) (pl_Revision plan))).

Definition handleGetForward (forwardID : string) (session : Session) : Handler Response :=
  found ← managementForward session forwardID;
  let '(record, index, _) := found in
  view ← shown (ap_Plan record) (Some index);
  mret (writeData 200 (PForward view)).
(** * Routes *)

(** A request by its route, with its path values and what its body decodes to. The
    routes of [usage.go], [system.go] and [commands.go], and the list of nodes and
    install commands of [node.go], are not among them. *)
Inductive call :=
  | PostLogin (input : option (string * string))
  | PostLogout
  | GetMe
  | PostPassword (input : option (string * string))
  | GetTenants (limit offset : string)
  | PostTenant (input : option (TenantCreate * string))
  | GetTenant (tenantID : string)
  | PatchTenant (tenantID : string) (input : option tenantInput)
  | PostPasswordReset (tenantID : string) (input : option string)
  | GetPolicy (tenantID : string)
  | PatchPolicy (tenantID : string) (input : option Policy)
  | GetAudit (limit offset : string)
  | GetForwards
  | PostForward (input : option forwardInput)
  | GetForward (forwardID : string)
  | PatchForward (forwardID : string) (input : option forwardInput)
  | DeleteForward (forwardID : string) (query : deleteQuery)
  | PatchProtocolBlocks (nodeID : string) (input : option (N * ProtocolBlockPolicy))
  | DeleteNode (nodeID : string)
  | PostRevoke (nodeID : string).

Context {argon2 : Argon2}.

(** [routes]: [authenticated] with its two flags around a handler *)
Definition guards (c : call) : bool * bool :=
  match c with
  | PostLogin _ => (false, false)
  | PostLogout | PostPassword _ | PostForward _ | PatchForward _ _ | DeleteForward _ _ => (false, true)
  | GetMe | GetTenant _ | GetPolicy _ | GetForwards | GetForward _ => (false, false)
  | GetTenants _ _ | GetAudit _ _ => (true, false)
  | PostTenant _ | PatchTenant _ _ | PostPasswordReset _ _ | PatchPolicy _ _ | PatchProtocolBlocks _ _
  | DeleteNode _ | PostRevoke _ => (true, true)
  end.

Definition inner (c : call) (session : Session) : Handler Response :=
  match c with
  | PostLogin input => handleLogin config env request input
  | PostLogout => handleLogout env request session
  | GetMe => handleMe request session
  | PostPassword input => handleChangePassword env request input session
  | GetTenants limit offset => handleListTenants activePlan limit offset
  | PostTenant input => handleCreateTenant env request input session
  | GetTenant tenantID => handleGetTenant activePlan tenantID session
  | PatchTenant tenantID input => handleUpdateTenant env request activePlan tenantID input session
  | PostPasswordReset tenantID input => handleResetTenantPassword env request tenantID input session
  | GetPolicy tenantID => handleGetPolicy tenantID session
  | PatchPolicy tenantID input => handleUpdatePolicy env request tenantID input session
  | GetAudit limit offset => handleListAudit limit offset
  | GetForwards => handleListForwards session
  | PostForward input => handleCreateForward input session
  | GetForward forwardID => handleGetForward forwardID session
  | PatchForward forwardID input => handleUpdateForward forwardID input session
  | DeleteForward forwardID query => handleDeleteForward forwardID query session
  | PatchProtocolBlocks nodeID input => handleUpdateNodeProtocolBlocks nodeID input session
  | DeleteNode nodeID => handleDeleteNode nodeID session
  | PostRevoke nodeID => handleRevokeNode nodeID session
  end.

Definition route (c : call) : Handler Response :=
  match c with
  | PostLogin input => handleLogin config env request input
  | c => authenticated env request (guards c).1 (guards c).2 (inner c)
  end.

Definition handle (c : call) (w : World) : World * Response := serve (route c) w.
End forwards.
