(* ===== verification/ManagementLimiter.v ===== *)
(** How many logins the limiter lets through. *)
From S2P Require Import Prelude.
From S2P Require Import GoNet.
From S2P Require Import ControlNodes.
From S2P Require Import ManagementServer.

(** * Uses of the limiter: an attempt from an address, and the reset after a
    login of that address *)
Inductive limiter_op :=
  | Attempt (key : string) (now : Time)
  | LoggedIn (key : string) (now : Time).
Definition op_time (op : limiter_op) : Time := match op with Attempt _ t | LoggedIn _ t => t end.
Definition limiter_step (op : limiter_op) (l : loginLimiter) : loginLimiter * bool :=
  match op with Attempt key now => allow key now l | LoggedIn key _ => (reset key l, false) end.
Definition limiter_runs (ops : list limiter_op) (l : loginLimiter) : loginLimiter :=
  foldl (λ l op, (limiter_step op l).1) l ops.

(** The attempts from [key] between two times that were let through *)
Definition counts (key : string) (from till : Time) (op : limiter_op) : bool :=
  match op with
  | Attempt key' t => bool_decide (key' = key) && (from <=? t)%Z && (t <? till)%Z
  | LoggedIn _ _ => false
  end.
Fixpoint admitted (key : string) (from till : Time) (ops : list limiter_op) (l : loginLimiter) : nat :=
  match ops with
  | [] => 0
  | op :: rest =>
      let '(l', allowed) := limiter_step op l in
      (if allowed && counts key from till op then 1 else 0) + admitted key from till rest l'
  end%nat.

(** * The table is bounded *)
Record limiter_ok (l : loginLimiter) : Prop := {
  lo_size : (size (ll_attempts l) <= maxLoginIPWindows)%nat;
  lo_count key w : ll_attempts l !! key = Some w → lw_count w ≤ loginAttempts;
}.

Lemma swept_lookup now l key w :
  ll_attempts (swept now l) !! key = Some w → ll_attempts l !! key = Some w.
Proof. unfold swept. case_match; [|done]. cbn. by intros [? _]%map_lookup_filter_Some. Qed.
Lemma swept_kept now l key w :
  ll_attempts l !! key = Some w → window_over now w = false → ll_attempts (swept now l) !! key = Some w.
Proof. intros Hw Ho. unfold swept. case_match; [|done]. cbn. by apply map_lookup_filter_Some. Qed.
Lemma swept_none now l key : ll_attempts l !! key = None → ll_attempts (swept now l) !! key = None.
Proof.
  intros Hn. destruct (ll_attempts (swept now l) !! key) eqn:E; [|done]. apply swept_lookup in E. congruence.
Qed.
Lemma swept_ok now l : limiter_ok l → limiter_ok (swept now l).
Proof.
  intros [Hs Hc]. split.
  - unfold swept. case_match; [|done]. cbn. etransitivity; [|exact Hs]. apply map_size_filter.
  - intros key w Hw. by eapply Hc, swept_lookup.
Qed.

Lemma insert_ok l key w t :
  limiter_ok l → lw_count w ≤ loginAttempts →
  (ll_attempts l !! key = None → (size (ll_attempts l) < maxLoginIPWindows)%nat) →
  limiter_ok (MkLoginLimiter (<[key := w]> (ll_attempts l)) t).
Proof.
  intros [Hs Hc] Hw Hn. split; cbn.
  - rewrite map_size_insert. destruct (ll_attempts l !! key); cbn; [done|]. by apply Hn.
  - intros k v [[<- <-]|[_ Hv]]%lookup_insert_Some; [done|by eapply Hc].
Qed.

Lemma limiter_step_ok op l : limiter_ok l → limiter_ok (limiter_step op l).1.
Proof.
  intros Hl. destruct op as [key now|key t]; cbn.
  - unfold allow. pose proof (swept_ok now l Hl) as Hs. set (s := swept now l) in *.
    destruct (bool_decide _ && crowded _) eqn:Ec; [done|].
    destruct (ll_attempts s !! key) as [w|] eqn:Ew; cbn.
    + destruct (_ || window_over now w); cbn; [apply insert_ok; cbn; [done|done|congruence]|].
      destruct (loginAttempts <=? lw_count w) eqn:E; cbn; [done|]. apply N.leb_gt in E.
      apply insert_ok; cbn; [done|unfold loginAttempts in *; lia|congruence].
    + apply insert_ok; cbn; [done|done|]. intros _. rewrite bool_decide_eq_true_2 in Ec by done.
      by apply Nat.leb_gt in Ec.
  - destruct Hl as [Hs Hc]. split; cbn.
    + rewrite map_size_delete. destruct (_ !! key); cbn; unfold maxLoginIPWindows in *; lia.
    + intros k w [_ Hw]%lookup_delete_Some. by eapply Hc.
Qed.
Lemma limiter_runs_ok ops l : limiter_ok l → limiter_ok (limiter_runs ops l).
Proof. revert l. induction ops as [|op ops IH]; intros l Hl; [done|]. by apply IH, limiter_step_ok. Qed.
Lemma limiter_zero_ok : limiter_ok loginLimiterZero.
Proof. split; [apply Nat.le_0_l|done]. Qed.

(** * One address within one window's time *)
Section address.
Context (key : string) (from : Time) (Hfrom : (0 < from)%Z).
Let till : Time := (from + loginWindowTTL)%Z.

(** What the window of the address leaves for the rest of the time *)
Definition remaining (l : loginLimiter) : nat :=
  match ll_attempts l !! key with
  | None => 20
  | Some w => if (from <=? lw_started w)%Z then 20 - N.to_nat (lw_count w) else 40 - N.to_nat (lw_count w)
  end.

Lemma remaining_bound l : (remaining l <= 40)%nat.
Proof. unfold remaining. case_match; [case_match|]; lia. Qed.

(** A window that began in the time is not over in it. *)
Lemma young now w : (from ≤ lw_started w)%Z → (now < till)%Z → window_over now w = false.
Proof.
  unfold window_over, Time_Sub, till, loginWindowTTL, Minute, Second. intros H1 H2.
  apply Z.leb_gt. lia.
Qed.

Lemma attempt_remaining now l :
  limiter_ok l → (from ≤ now)%Z → (now < till)%Z →
  let '(l', allowed) := allow key now l in
  ((if allowed then 1 else 0) + remaining l' <= remaining l)%nat.
Proof.
  intros Hl H1 H2. unfold allow. set (s := swept now l).
  assert (remaining s <= remaining l)%nat as Hsw.
  { unfold remaining. destruct (ll_attempts l !! key) as [w|] eqn:Ew.
    - destruct (from <=? lw_started w)%Z eqn:Ef.
      + apply Z.leb_le in Ef.
        assert (ll_attempts s !! key = Some w) as -> by (apply swept_kept; [done|by apply young]).
        by rewrite (proj2 (Z.leb_le from _) Ef).
      + pose proof (lo_count _ Hl key w Ew) as Hc. unfold loginAttempts in Hc.
        destruct (ll_attempts s !! key) as [v|] eqn:Ev; [|lia].
        apply swept_lookup in Ev. simplify_eq. by rewrite Ef.
    - assert (ll_attempts s !! key = None) as -> by by apply swept_none. done. }
  destruct (bool_decide _ && crowded _); [lia|].
  assert (∀ c t, remaining (MkLoginLimiter (<[key := MkLoginWindow now c]> (ll_attempts s)) t)
                 = 20 - N.to_nat c)%nat as Hnew.
  { intros c t. unfold remaining. cbn. rewrite lookup_insert_eq. cbn. by rewrite (proj2 (Z.leb_le from now) H1). }
  destruct (ll_attempts s !! key) as [w|] eqn:Ew.
  - pose proof (lo_count _ (swept_ok now l Hl) key w Ew) as Hc. unfold loginAttempts in *.
    unfold remaining in Hsw at 1. rewrite Ew in Hsw. destruct (_ || window_over now w) eqn:Eo.
    + rewrite Hnew. destruct (from <=? lw_started w)%Z eqn:Ef; [|lia].
      apply Z.leb_le in Ef. rewrite (young now w Ef H2), orb_false_r in Eo. unfold Time_IsZero in Eo.
      apply Z.eqb_eq in Eo. lia.
    + destruct (20 <=? lw_count w) eqn:E20; [unfold remaining at 1; rewrite Ew; lia|]. apply N.leb_gt in E20.
      unfold remaining at 1. cbn. rewrite lookup_insert_eq. cbn. case_match; lia.
  - unfold remaining in Hsw at 1. rewrite Ew in Hsw. rewrite Hnew. lia.
Qed.

Lemma other_remaining op l :
  (from ≤ op_time op)%Z → (op_time op < till)%Z → limiter_ok l →
  (∀ t, op ≠ LoggedIn key t) → (∀ t, op ≠ Attempt key t) → (remaining (limiter_step op l).1 <= remaining l)%nat.
Proof.
  intros H1 H2 Hl Hr Ha. destruct op as [k now|k t]; cbn in *.
  - assert (k ≠ key) as Hk by (intros ->; by apply (Ha now)).
    assert (ll_attempts (allow k now l).1 !! key = ll_attempts (swept now l) !! key) as Heq.
    { unfold allow. destruct (bool_decide _ && crowded _); [done|].
      repeat case_match; cbn; rewrite ?lookup_insert_ne by done; done. }
    unfold remaining. rewrite Heq. destruct (ll_attempts l !! key) as [w|] eqn:Ew.
    + pose proof (lo_count _ Hl key w Ew) as Hc. unfold loginAttempts in Hc.
      destruct (ll_attempts (swept now l) !! key) as [v|] eqn:Ev.
      * apply swept_lookup in Ev. by simplify_eq.
      * destruct (from <=? lw_started w)%Z eqn:Ef; [|lia]. apply Z.leb_le in Ef.
        by rewrite (swept_kept now l key w Ew) in Ev by by apply young.
    + by rewrite (swept_none now l key Ew).
  - unfold remaining. cbn. rewrite lookup_delete_ne; [done|]. intros ->. by apply (Hr t).
Qed.

Lemma admitted_late ops l : Forall (λ op, (till ≤ op_time op)%Z) ops → admitted key from till ops l = 0%nat.
Proof.
  intros H. revert l. induction H as [|op ops Hop _ IH]; intros l; [done|]. cbn.
  destruct (limiter_step op l) as [l' allowed]. rewrite IH.
  assert (counts key from till op = false) as ->; [|by rewrite andb_false_r].
  destruct op; cbn in *; [|done]. by rewrite (proj2 (Z.ltb_ge _ _) Hop), andb_false_r.
Qed.

Lemma admitted_within ops l :
  StronglySorted (λ a b, op_time a ≤ op_time b)%Z ops → Forall (λ op, from ≤ op_time op)%Z ops →
  (∀ t, LoggedIn key t ∉ ops) → limiter_ok l → (admitted key from till ops l <= remaining l)%nat.
Proof.
  intros Hs. revert l. induction Hs as [|op ops _ IH Hop]; intros l Hf Hr Hl; [cbn; lia|].
  apply Forall_cons in Hf as [Hf1 Hf].
  destruct (Z_lt_le_dec (op_time op) till) as [Ht|Ht].
  2: { rewrite (admitted_late (op :: ops)); [lia|]. constructor; [done|]. eapply Forall_impl; [exact Hop|]. cbn. lia. }
  assert (∀ t, LoggedIn key t ∉ ops) as Hr' by set_solver.
  cbn. pose proof (limiter_step_ok op l Hl) as Hl'. specialize (IH (limiter_step op l).1 Hf Hr' Hl').
  assert ((if (limiter_step op l).2 && counts key from till op then 1 else 0)
          + remaining (limiter_step op l).1 <= remaining l)%nat as H.
  { destruct op as [k now|k t]; [destruct (decide (k = key)) as [->|Hk]|].
    - cbn in Hf1, Ht. pose proof (attempt_remaining now l Hl Hf1 Ht) as H. cbn [limiter_step counts].
      destruct (allow key now l) as [l' allowed]. cbn.
      rewrite bool_decide_eq_true_2, (proj2 (Z.leb_le _ _) Hf1), (proj2 (Z.ltb_lt _ _) Ht) by done.
      by rewrite andb_true_r.
    - cbn [counts]. rewrite bool_decide_eq_false_2 by done. cbn. rewrite andb_false_r.
      apply (other_remaining (Attempt k now)); [done..|congruence].
    - cbn. apply (other_remaining (LoggedIn k t)); try done; set_solver. }
  destruct (limiter_step op l) as [l' allowed]. cbn in *. lia.
Qed.
End address.


(** A crowd of attempts: 45 from one address within a minute and one from
    another *)
Definition crowd : list limiter_op :=
  map (λ i, Attempt "192.0.2.1" (Second * Z.of_nat i)%Z) (seq 1 45) ++ [Attempt "192.0.2.2" (Second * 50)%Z].
Example crowd_admitted :
  (admitted "192.0.2.1" Second (Second + loginWindowTTL)%Z crowd loginLimiterZero,
   admitted "192.0.2.2" Second (Second + loginWindowTTL)%Z crowd loginLimiterZero) = (20, 1)%nat.
Proof. vm_compute. reflexivity. Qed.

