(* ===== verification/ManagementAccess.v ===== *)
(** Who a request of the management server is handled for. *)
From S2P Require Import Prelude.
From S2P Require Import GoNet.
From S2P Require Import SpecTypes.
From S2P Require Import SpecCanonical.
From S2P Require Import Hostname.
From S2P Require Import Iam.
From S2P Require Import Password.
From S2P Require Import ClusterTypes.
From S2P Require Import ClusterValidate.
From S2P Require Import PlanJson.
From S2P Require Import Scheduler.
From S2P Require Import PlaceFacts.
From S2P Require Import ClusterCompile.
From S2P Require Import Rollout.
From S2P Require Import ControlDb.
From S2P Require Import ControlNodes.
From S2P Require Import ControlIdentity.
From S2P Require Import ControlIdentityFacts.
From S2P Require Import ManagementServer.
From S2P Require Import ManagementForwards.

(** * Sessions that are let in *)

(** The CSRF token of a request: one nonempty string, as cookie and as header,
    with the hash of the session. *)
Definition carries_csrf (request : Request) (hash : list N) : Prop :=
  rq_csrfCookie request = Some (rq_csrfHeader request) ∧ rq_csrfHeader request ≠ ""
  ∧ (String.length (rq_csrfHeader request) <= 128)%nat ∧ HashSecret (rq_csrfHeader request) = hash.

Lemma csrfValid_spec request hash : csrfValid request hash = true ↔ carries_csrf request hash.
Proof.
  unfold csrfValid, carries_csrf. destruct (rq_csrfCookie request) as [cookie|].
  - rewrite !andb_true_iff, negb_true_iff, bool_decide_eq_false, Nat.leb_le, !bool_decide_eq_true.
    split; [intros [[[? ?] <-] ?]; done|intros (Heq & ? & ? & ?); by injection Heq as ->].
  - split; [done|by intros [? _]].
Qed.

Section access.
Context (ownerOnly requireCSRF : bool) (request : Request) (now : Time) (db : IdentityDb).

(** The cookie names a session that is neither revoked nor over, of an account
    that can act, and of the role and with the token that are asked for. *)
Record admits (token : string) (s : SessionRow) (a : Account) : Prop := {
  ad_cookie : rq_sessionCookie request = Some token;
  ad_token : (32 <= String.length token <= 128)%nat;
  ad_session : id_sessions db !! HashSecret token = Some s;
  ad_revoked : ms_revoked_at s = None;
  ad_expires : (now < ms_expires_at s)%Z;
  ad_hash : length (ms_csrf_hash s) = 32%nat;
  ad_account : id_accounts db !! ms_account_id s = Some a;
  ad_available : Available a now = inr tt;
  ad_tenant : ac_Role a = RoleTenant → ∃ t, id_tenants db !! ac_TenantID a = Some t ∧ tenant_open now t = true;
  ad_owner : ownerOnly = true → ac_Role a = RoleOwner;
  ad_csrf : requireCSRF = true → carries_csrf request (ms_csrf_hash s);
}.

Lemma account_open_spec a :
  account_open now a db = true
  ↔ (ac_Role a = RoleTenant → ∃ t, id_tenants db !! ac_TenantID a = Some t ∧ tenant_open now t = true).
Proof.
  unfold account_open. case_bool_decide as Hr; cbn.
  - destruct (id_tenants db !! ac_TenantID a) as [t|]; [naive_solver|]. split; [done|]. intros H. naive_solver.
  - split; [done|]. intros _. done.
Qed.

(** [ManagementSession] succeeds for the sessions that may be used, whatever the
    call asks for. *)
Lemma ManagementSession_ok_iff token r :
  ManagementSession token now db = inr r ↔
  (32 <= String.length token <= 128)%nat
  ∧ ∃ s a, id_sessions db !! HashSecret token = Some s ∧ ms_revoked_at s = None ∧ (now < ms_expires_at s)%Z
           ∧ length (ms_csrf_hash s) = 32%nat ∧ id_accounts db !! ms_account_id s = Some a
           ∧ Available a now = inr tt ∧ account_open now a db = true
           ∧ r = (on_sessions (alter (touch_session now) (HashSecret token)) db,
                  MkSession a (ms_csrf_hash s) (ms_expires_at s)).
Proof.
  split.
  - destruct r as [db' session]. unfold ManagementSession. intros E. id_steps E.
    apply negb_true_iff, orb_false_iff in E0 as [?%Nat.ltb_ge ?%Nat.ltb_ge]. split; [lia|].
    destruct (id_sessions db !! HashSecret token) as [s|] eqn:Hs; [|done]. id_steps E.
    apply andb_true_iff in E0 as [Hr%bool_decide_eq_true He%Z.ltb_lt].
    destruct (id_accounts db !! ms_account_id s) as [a|] eqn:Ha; [|done].
    apply id_bind in E as (db1 & [] & Hrun & E). unfold check_available in Hrun.
    destruct (Available a now) as [|[]] eqn:Hav; [done|]. injection Hrun as <-.
    id_steps E. injection E as <- <-. apply Nat.eqb_eq in E1. by exists s, a.
  - intros (Hlen & s & a & Hs & Hr & He & Hh & Ha & Hav & Hop & ->).
    unfold ManagementSession, mbind, Id_bind, get, ensure, put, check_available.
    destruct (Nat.ltb_spec (String.length token) 32), (Nat.ltb_spec 128 (String.length token)); try lia.
    cbn -[account_open]. rewrite Hs, bool_decide_eq_true_2 by done. rewrite (proj2 (Z.ltb_lt _ _) He). cbn -[account_open].
    rewrite Ha, Hav. cbn -[account_open]. by rewrite Hop, Hh.
Qed.
End access.

(** * Requests *)

(** A session as it is, but for when it was seen last *)
Definition unseen (s : SessionRow) : SessionRow :=
  MkSessionRow (ms_csrf_hash s) (ms_account_id s) (ms_expires_at s) (ms_created_at s) 0%Z (ms_revoked_at s)
    (ms_remote_ip s) (ms_user_agent s).

(** What a refused request leaves: lines of the audit, and when its session was
    seen. *)
Record refused (w w' : World) (r : Response) : Prop := {
  rf_status : rs_status r ∈ [401; 403];
  rf_body : rs_body r = None;
  rf_db : w_db w' = w_db w;
  rf_limiter : w_limiter w' = w_limiter w;
  rf_tenants : id_tenants (w_identity w') = id_tenants (w_identity w);
  rf_accounts : id_accounts (w_identity w') = id_accounts (w_identity w);
  rf_policies : id_policies (w_identity w') = id_policies (w_identity w);
  rf_sessions : unseen <$> id_sessions (w_identity w') = unseen <$> id_sessions (w_identity w);
}.

(** The session of a request is seen. *)
Definition seen (now : Time) (token : string) (w : World) : World :=
  MkWorld (w_db w) (on_sessions (alter (touch_session now) (HashSecret token)) (w_identity w)) (w_limiter w).

Lemma seen_unseen now token w :
  unseen <$> id_sessions (w_identity (seen now token w)) = unseen <$> id_sessions (w_identity w).
Proof.
  apply map_eq. intros h. cbn. rewrite !lookup_fmap. destruct (decide (h = HashSecret token)) as [->|].
  - rewrite lookup_alter_eq. by destruct (id_sessions _ !! _).
  - by rewrite lookup_alter_ne.
Qed.

Section requests.
Context (env : Env) (request : Request).

(** An audit adds a line at most. *)
Lemma auditSession_world session action kind resource outcome detail w :
  ∃ audit, auditSession env request session action kind resource outcome detail w
           = (MkWorld (w_db w) (on_audit audit (w_identity w)) (w_limiter w), inr tt).
Proof.
  unfold auditSession, ManagementServer.audit, mbind, Handler_bind, identity_call, identity_transact.
  destruct (RecordManagementAudit _ _ (w_identity w)) as [|[db []]] eqn:E; cbn.
  - exists id. by destruct w as [? [] ?].
  - unfold RecordManagementAudit in E. id_steps E. injection E as <-. by eexists.
Qed.

Definition refuses {A} (w : World) (m : World * (Response + A)) : Prop :=
  ∃ w' r, m = (w', inl r) ∧ refused w w' r.

Lemma refused_seen token w audit r :
  rs_status r ∈ [401; 403] → rs_body r = None →
  let v := seen (en_now env) token w in
  refused w (MkWorld (w_db v) (on_audit audit (w_identity v)) (w_limiter v)) r.
Proof. intros H1 H2. split; [done..|]. apply (seen_unseen (en_now env)). Qed.

(** [authenticated], with its calls made *)
Lemma authenticated_eq ownerOnly requireCSRF next w :
  authenticated env request ownerOnly requireCSRF next w =
  match rq_sessionCookie request with
  | None => (w, inl (writeError 401 "unauthenticated"))
  | Some token =>
      if bool_decide (token = "") then (w, inl (writeError 401 "unauthenticated"))
      else
        match ManagementSession token (en_now env) (w_identity w) with
        | inl _ => (w, inl (with_cookies CookiesCleared (writeError 401 "unauthenticated")))
        | inr (db, session) =>
            let w' := MkWorld (w_db w) db (w_limiter w) in
            if ownerOnly && negb (bool_decide (ac_Role (ss_Account session) = RoleOwner)) then
              (_ ← auditSession env request session "authorization.denied" "route" (rq_Path request) "denied" "{}";
               answer (writeError 403 "forbidden")) w'
            else if requireCSRF && negb (csrfValid request (ss_CSRFHash session)) then
              (_ ← auditSession env request session "csrf.denied" "route" (rq_Path request) "denied" "{}";
               answer (writeError 403 "invalid_csrf")) w'
            else next session w'
        end
  end.
Proof.
  unfold authenticated. destruct (rq_sessionCookie request) as [token|]; [|done].
  unfold unless. case_bool_decide; [done|].
  unfold identity_call, identity_transact, mbind, Handler_bind, mret, Handler_ret.
  destruct (ManagementSession token _ _) as [e|[db session]]; [by destruct w|].
  unfold or_answer, mret, Handler_ret. by repeat case_match.
Qed.

(** A denial is written to the audit. *)
Lemma denial_refuses token session action code w :
  refuses w ((_ ← auditSession env request session action "route" (rq_Path request) "denied" "{}";
              answer (A := Response) (writeError 403 code)) (seen (en_now env) token w)).
Proof.
  unfold mbind, Handler_bind.
  destruct (auditSession_world session action "route" (rq_Path request) "denied" "{}" (seen (en_now env) token w))
    as [audit ->].
  eexists _, _. split; [done|]. apply refused_seen; [right; left|done].
Qed.

(** Either a session is let in and the handler goes on with it, or none is and
    the request is refused. *)
Lemma authenticated_cases ownerOnly requireCSRF next w :
  (∃ token s a, admits ownerOnly requireCSRF request (en_now env) (w_identity w) token s a
     ∧ authenticated env request ownerOnly requireCSRF next w
       = next (MkSession a (ms_csrf_hash s) (ms_expires_at s)) (seen (en_now env) token w))
  ∨ (∀ token s a, ¬ admits ownerOnly requireCSRF request (en_now env) (w_identity w) token s a)
    ∧ refuses w (authenticated env request ownerOnly requireCSRF next w).
Proof.
  assert (∀ r, rs_status r = 401 → rs_body r = None → refused w w r) as Hsame.
  { intros r Hs Hb. split; try done. rewrite Hs. left. }
  rewrite authenticated_eq. destruct (rq_sessionCookie request) as [token|] eqn:Ht.
  2: { right. split; [intros ??? []; congruence|]. eexists _, _. split; [done|by apply Hsame]. }
  assert (∀ t s a, admits ownerOnly requireCSRF request (en_now env) (w_identity w) t s a →
    ManagementSession token (en_now env) (w_identity w)
    = inr (on_sessions (alter (touch_session (en_now env)) (HashSecret token)) (w_identity w),
           MkSession a (ms_csrf_hash s) (ms_expires_at s))
    ∧ ownerOnly && negb (bool_decide (ac_Role a = RoleOwner)) = false
    ∧ requireCSRF && negb (csrfValid request (ms_csrf_hash s)) = false) as Hadm.
  { intros t s a []. rewrite Ht in ad_cookie0. injection ad_cookie0 as <-. split_and!.
    - apply ManagementSession_ok_iff. split; [done|]. exists s, a. split_and!; try done. by apply account_open_spec.
    - destruct ownerOnly; [|done]. by rewrite bool_decide_eq_true_2 by auto.
    - destruct requireCSRF; [|done]. by rewrite (proj2 (csrfValid_spec _ _)) by auto. }
  case_bool_decide as Hempty.
  { right. subst. split; [|eexists _, _; split; [done|by apply Hsame]].
    intros ??? [Hc Hlen]. rewrite Ht in Hc. injection Hc as <-. cbn in Hlen. lia. }
  destruct (ManagementSession token _ _) as [e|[db' session]] eqn:Hms.
  { right. split; [intros ??? [Had _]%Hadm; congruence|]. eexists _, _. split; [done|by apply Hsame]. }
  apply ManagementSession_ok_iff in Hms as (Hlen & s & a & Hs & Hr & He & Hh & Ha & Hav & Hop & Heq).
  injection Heq as -> ->. cbv zeta. cbn [ss_Account ss_CSRFHash].
  change (MkWorld (w_db w) _ (w_limiter w)) with (seen (en_now env) token w).
  destruct (ownerOnly && _) eqn:Ho; [|destruct (requireCSRF && _) eqn:Hc].
  - right. split; [|by apply denial_refuses]. intros t s' a' (Heq & Ho' & _)%Hadm. injection Heq as <- _ _. congruence.
  - right. split; [|by apply denial_refuses]. intros t s' a' (Heq & _ & Hc')%Hadm. injection Heq as _ Hs' _. congruence.
  - left. exists token, s, a. split; [|done]. split; try done.
    + by apply account_open_spec.
    + intros ->. by apply negb_false_iff, bool_decide_eq_true in Ho.
    + intros ->. by apply negb_false_iff, csrfValid_spec in Hc.
Qed.
End requests.

Section handled.
Context `{!Idna} `{!MapRange} `{!StateRange} `{!StringRange} {argon2 : Argon2}.
Context (dns : nat → nat → string → Addr → Addr) (config : Config) (env : Env) (request : Request).

(** C10. Every request but a login is either handled for the account of a live
    session that its cookie names, of the role and with the CSRF token its route
    asks for; or there is no such session, and then it is answered 401 or 403
    without data, and nothing is changed but the audit and when a session was
    last seen. *)
Theorem requests_authenticated c w :
  (∀ input, c ≠ PostLogin input) →
  let '(w', r) := handle dns config env request c w in
  (∃ token s a, admits (guards c).1 (guards c).2 request (en_now env) (w_identity w) token s a
     ∧ (w', r) = serve (inner dns config env request c (MkSession a (ms_csrf_hash s) (ms_expires_at s)))
                   (seen (en_now env) token w))
  ∨ (∀ token s a, ¬ admits (guards c).1 (guards c).2 request (en_now env) (w_identity w) token s a)
    ∧ refused w w' r.
Proof.
  intros Hc. unfold handle.
  assert (route dns config env request c
          = authenticated env request (guards c).1 (guards c).2 (inner dns config env request c)) as ->.
  { destruct c; try done. by destruct (Hc input). }
  destruct (authenticated_cases env request (guards c).1 (guards c).2 (inner dns config env request c) w)
    as [(token & s & a & Had & Heq)|[Hno (w' & r & Heq & Href)]].
  - unfold serve at 1. rewrite Heq. fold (serve (inner dns config env request c (MkSession a (ms_csrf_hash s) (ms_expires_at s))) (seen (en_now env) token w)).
    destruct (serve _ _) as [w' r] eqn:E. left. by exists token, s, a.
  - unfold serve. rewrite Heq. right. done.
Qed.
End handled.

(** * The owner looks at a session, and a stranger tries *)
Definition sample_env : Env :=
  MkEnv (Time_Add sample_now Minute) (repeat 4 32) (repeat 5 32) (repeat 6 16) true true (λ _, None).
Definition sample_config : Config := MkConfig (24 * Hour) "default".
Definition sample_world : World := MkWorld DbEmpty sample_identities loginLimiterZero.
Definition request_of (cookie csrf : option string) : Request :=
  MkRequest "192.0.2.1:40000" "" "" "browser" "/api/v1/forwards" cookie csrf (default "" csrf).
Definition no_dns : nat → nat → string → Addr → Addr := λ _ _ _ a, a.

Section sample.
#[local] Instance access_idna : Idna := ascii_idna.
#[local] Instance access_nodes : MapRange := some_range.
#[local] Instance access_states : StateRange := some_states.
#[local] Instance access_strings : StringRange := elements.
#[local] Instance access_argon2 : Argon2 := sample_argon2.

Definition sample_handle (request : Request) (c : call) : World * Response :=
  handle no_dns sample_config sample_env request c sample_world.

Example sample_statuses :
  ( rs_status (sample_handle (request_of (Some sample_token) None) GetMe).2
  , rs_status (sample_handle (request_of (Some sample_token) None) PostLogout).2
  , rs_status (sample_handle (request_of (Some sample_token) (Some (EncodeToString (repeat 3 32)))) PostLogout).2
  , rs_status (sample_handle (request_of None None) GetMe).2 ) = (200, 403, 204, 401).
Proof. vm_compute. reflexivity. Qed.

Lemma requests_authenticated_witness :
  let request := request_of (Some sample_token) None in
  let '(w', r) := sample_handle request GetMe in
  (∃ token s a, admits false false request (en_now sample_env) sample_identities token s a
     ∧ (w', r) = serve (inner no_dns sample_config sample_env request GetMe
                          (MkSession a (ms_csrf_hash s) (ms_expires_at s)))
                   (seen (en_now sample_env) token sample_world))
  ∨ (∀ token s a, ¬ admits false false request (en_now sample_env) sample_identities token s a)
    ∧ refused sample_world w' r.
Proof. apply (requests_authenticated no_dns sample_config sample_env _ GetMe sample_world). done. Defined.
End sample.
