(* ===== verification/ManagementPlans.v ===== *)
(** The stored plans under the operations of the store: they stay canonical, a
    plan that is applied becomes the active one, and nothing else of the history
    changes. *)
From S2P Require Import Prelude.
From S2P Require Import GoNet.
From S2P Require Import SpecTypes.
From S2P Require Import SpecCanonical.
From S2P Require Import SpecValidate.
From S2P Require Import SpecFacts.
From S2P Require Import Hostname.
From S2P Require Import TargetDns.
From S2P Require Import Health.
From S2P Require Import Capabilities.
From S2P Require Import Iam.
From S2P Require Import ClusterTypes.
From S2P Require Import ClusterValidate.
From S2P Require Import PlanJson.
From S2P Require Import PlanFacts.
From S2P Require Import Scheduler.
From S2P Require Import PlaceFacts.
From S2P Require Import ClusterCompile.
From S2P Require Import Rollout.
From S2P Require Import ControlDb.
From S2P Require Import ControlNodes.
From S2P Require Import ControlPublish.
From S2P Require Import ControlRollout.
From S2P Require Import ControlStore.
From S2P Require Import ControlVips.
From S2P Require Import ControlSchedule.
From S2P Require Import ControlEnforce.
From S2P Require Import ControlFacts.
From S2P Require Import ControlLedger.
From S2P Require Import ControlHistory.

(** * Canonical plans *)
Lemma canonicalNode_idemp n : canonicalNode (canonicalNode n) = canonicalNode n.
Proof.
  destruct n. unfold canonicalNode. cbn -[sort_slice]. f_equal.
  - apply (sort_slice_idemp str_lt).
  - by apply canonical_slice_idemp; [apply _|apply Unmap_idemp].
  - apply (sort_slice_idemp less_cluster_link).
  - apply canonicalProtocolBlocks_idemp.
Qed.
Lemma canonicalSelector_idemp s : canonicalSelector (canonicalSelector s) = canonicalSelector s.
Proof. destruct s. unfold canonicalSelector. cbn -[sort_slice]. by rewrite (sort_slice_idemp str_lt). Qed.
Lemma canonicalClusterForward_idemp f :
  canonicalClusterForward (canonicalClusterForward f) = canonicalClusterForward f.
Proof.
  destruct f as [? ? ? ? ? ? exit policy]. unfold canonicalClusterForward. cbn -[sort_slice canonicalSelector].
  f_equal; [apply (sort_slice_idemp str_lt)|apply canonicalSelector_idemp| |].
  - destruct exit; [|done]. cbn -[canonicalSelector]. by rewrite canonicalSelector_idemp.
  - unfold effectiveFailurePolicy. repeat case_bool_decide; done.
Qed.

Section idna.
Context `{!Idna} {laws : IdnaLaws _}.

Lemma canonicalTargetEndpoint_idemp e :
  canonicalTargetEndpoint (canonicalTargetEndpoint e) = canonicalTargetEndpoint e.
Proof.
  destruct e as [a h port]. unfold canonicalTargetEndpoint. cbn [ep_Address ep_Hostname ep_Port].
  rewrite Unmap_idemp. f_equal. destruct (decide (h = "")) as [->|Hh]; [done|].
  rewrite !(bool_decide_eq_false_2 (h = "")) by done.
  destruct (NormalizeHostname h) as [e|h'] eqn:E.
  - by rewrite bool_decide_eq_false_2, E by done.
  - rewrite (NormalizeHostname_stable _ _ E). by case_bool_decide.
Qed.
Lemma canonicalBackend_idemp b : canonicalBackend (canonicalBackend b) = canonicalBackend b.
Proof.
  destruct b as [? ? probe]. unfold canonicalBackend. cbn -[canonicalTargetEndpoint].
  rewrite canonicalTargetEndpoint_idemp. f_equal. destruct probe; [|done].
  cbn -[canonicalTargetEndpoint]. by rewrite canonicalTargetEndpoint_idemp.
Qed.
Lemma canonicalPool_idemp q : canonicalPool (canonicalPool q) = canonicalPool q.
Proof.
  destruct q. unfold canonicalPool. cbn -[sort_slice canonicalBackend]. f_equal.
  apply canonical_slice_idemp; [apply _|apply canonicalBackend_idemp].
Qed.
Lemma canonicalRollout_idemp p q :
  pl_Rollout q = canonicalRollout p → canonicalRollout q = canonicalRollout p.
Proof.
  set (norm r := if EffectiveCanaryPercent r =? 100 then MkRolloutStrategy 0 (ro_BakeSeconds r) else r).
  set (pack r := if bool_decide (r = RolloutStrategyZero) then None else Some r).
  assert (∀ r, default RolloutStrategyZero (pack r) = r) as Hpack by (intros r; unfold pack; by case_bool_decide).
  assert (∀ r, norm (norm r) = norm r) as Hnorm.
  { intros r. unfold norm at 2 3. destruct (EffectiveCanaryPercent r =? 100) eqn:E; [done|]. unfold norm. by rewrite E. }
  change (canonicalRollout q) with (pack (norm (default RolloutStrategyZero (pl_Rollout q)))).
  intros ->. change (canonicalRollout p) with (pack (norm (default RolloutStrategyZero (pl_Rollout p)))).
  by rewrite Hpack, Hnorm.
Qed.

Lemma PlanCanonical_idemp p : PlanCanonical (PlanCanonical p) = PlanCanonical p.
Proof.
  assert (canonicalRollout (PlanCanonical p) = canonicalRollout p) as Hr by by apply canonicalRollout_idemp.
  unfold PlanCanonical at 1 3. rewrite Hr. destruct p. cbn -[sort_slice canonicalRollout]. f_equal.
  - apply canonical_slice_idemp; [apply _|apply Prefix_Masked_idemp].
  - apply canonical_slice_idemp; [apply _|apply canonicalNode_idemp].
  - apply (sort_slice_idemp (less_by up_UserID)).
  - apply canonical_slice_idemp; [apply _|apply canonicalPool_idemp].
  - apply canonical_slice_idemp; [apply _|apply canonicalClusterForward_idemp].
Qed.
End idna.

(** * The history of the plans *)

(** The stored revisions, and which of each plan is the active one *)
Definition History : Type := gmap (string * N) RevisionRow * gmap string N.
Definition history (db : Db) : History := (db_revisions db, pn_active_revision <$> db_plans db).
Definition at_history (h : History) (db : Db) : Prop := history db = h.

Lemma alter_active f id (m : gmap string PlanRow) :
  (∀ p, pn_active_revision (f p) = pn_active_revision p) →
  pn_active_revision <$> alter f id m = pn_active_revision <$> m.
Proof.
  intros Hf. apply map_eq. intros i. rewrite !lookup_fmap. destruct (decide (i = id)) as [->|].
  - rewrite lookup_alter_eq. destruct (m !! id); cbn; by rewrite ?Hf.
  - by rewrite lookup_alter_ne.
Qed.
Lemma keep_active h f id :
  (∀ p, pn_active_revision (f p) = pn_active_revision p) →
  tx_keeps (at_history h) (write (on_plans (alter f id))).
Proof.
  intros Hf. apply keep_write. intros db <-. unfold at_history, history. cbn. by rewrite alter_active.
Qed.

(** Follow a transaction that leaves the history alone, into the operations it
    calls. *)
Create HintDb plans.
Ltac head_of m := match m with ?f _ => head_of f | _ => m end.
Ltac hist_step :=
  first
    [ assumption
    | solve [auto 1 with plans nocore]
    | apply keep_write; intros ? Hdb; exact Hdb
    | apply keep_active; intros ?; reflexivity
    | apply tx_attempt
    | tx_step
    | progress cbv zeta
    | match goal with |- tx_keeps _ ?m => let h := head_of m in unfold h; cbv beta zeta end ].
Ltac hist := repeat hist_step.

Section scheduling.
Context `{!Idna} `{!MapRange} `{!StateRange} `{!StringRange}.
Context (dns : nat → nat → string → Addr → Addr) (policies : gmap string Policy) (h : History).

Lemma publishClusterStageTx_history id stage now : tx_keeps (at_history h) (publishClusterStageTx id stage now).
Proof. hist. Qed.
#[local] Hint Resolve publishClusterStageTx_history : plans.
Lemma create_rollout_history plan actor action previous detail stages baselines now :
  tx_keeps (at_history h) (create_rollout plan actor action previous detail stages baselines now).
Proof. hist. Qed.
#[local] Hint Resolve create_rollout_history : plans.
Lemma syncNodeProfiles_history plan : tx_keeps (at_history h) (syncNodeProfiles plan).
Proof. hist. Qed.
Lemma schedulePlanTx_history plan actor action force previous now :
  tx_keeps (at_history h) (schedulePlanTx dns policies plan actor action force previous now).
Proof. hist. Qed.
End scheduling.

#[export] Hint Resolve publishClusterStageTx_history syncNodeProfiles_history schedulePlanTx_history : plans.

Section machine.
Context `{!Idna} `{!MapRange} `{!StateRange} `{!StringRange}.

(** The operations that do not choose a plan leave the history alone. *)
Definition chooses (op : store_op) : bool :=
  match op with
  | OpApplyClusterPlan _ _ _ _ _ | OpRollbackClusterPlan _ _ _ _ _ _ => true
  | _ => false
  end.
Lemma perform_history op h : chooses op = false → tx_keeps (at_history h) (perform op).
Proof.
  destruct op; intros Hop; try discriminate Hop; cbn [perform]; try apply keep_ignoring; hist.
Qed.
End machine.

(** * Plans that are applied *)

(** A stored revision is the canonical form of the plan it is a revision of. *)
Definition plans_ok `{!Idna} (revisions : gmap (string * N) RevisionRow) : Prop :=
  ∀ id revision row, revisions !! (id, revision) = Some row →
    pl_ID (rv_plan row) = id ∧ pl_Revision (rv_plan row) = revision ∧ PlanCanonical (rv_plan row) = rv_plan row.

(** What an applied plan does to the history: it is the active revision already,
    or becomes it as a new one. *)
Definition applied (plan encoded : Plan) (h h' : History) : Prop :=
  h' = h
  ∨ h.1 !! (pl_ID plan, pl_Revision plan) = None
    ∧ ∃ row, rv_plan row = encoded
             ∧ h' = (<[(pl_ID plan, pl_Revision plan) := row]> h.1, <[pl_ID plan := pl_Revision plan]> h.2).

Lemma keep_history {A} (Q : History → Prop) (m : Tx A) :
  (∀ h, tx_keeps (at_history h) m) → tx_keeps (λ db, Q (history db)) m.
Proof.
  intros Hm db Hdb. specialize (Hm (history db) db eq_refl). destruct (m db) as [|[db' a]]; [done|].
  unfold at_history in Hm. by rewrite Hm.
Qed.

Section applying.
Context `{!Idna} `{!MapRange} `{!StateRange} `{!StringRange}.
Context (dns : nat → nat → string → Addr → Addr) (policies : gmap string Policy) {laws : IdnaLaws _}.

Lemma insert_revision_applied h plan checksum encoded actor :
  tx (at_history h) (insert_revision plan checksum encoded actor)
    (λ _ db, h.1 !! (pl_ID plan, pl_Revision plan) = None
             ∧ ∃ row, rv_plan row = encoded
                      ∧ at_history (<[(pl_ID plan, pl_Revision plan) := row]> h.1, h.2) db).
Proof.
  unfold insert_revision. eapply tx_bind; [apply keep_require|]. intros [].
  eapply tx_bind; [apply keep_read|]. intros taken.
  eapply tx_bind; [apply keep_require|]. intros [].
  apply tx_read_bind. intros revisions. eapply tx_bind; [apply tx_lift|]. intros revisions'.
  apply tx_write. intros db [[Hh Heq] Hnew]. rewrite Heq in Hnew. unfold insert_new in Hnew.
  change (db_revisions db) with (history db).1 in Hnew. rewrite Hh in Hnew.
  destruct (h.1 !! (pl_ID plan, pl_Revision plan)) eqn:E; [done|]. injection Hnew as <-.
  split; [done|]. exists (MkRevisionRow checksum encoded actor). split; [done|].
  unfold at_history. by rewrite <- Hh.
Qed.

(** The row of the plan agrees with the history. *)
Lemma tx_active {B} h id (g : option PlanRow → Tx B) Q :
  (∀ row, h.2 !! id = pn_active_revision <$> row → tx (at_history h) (g row) Q) →
  tx (at_history h) (read (λ db, db_plans db !! id) ≫= g) Q.
Proof.
  intros Hg. apply tx_read_bind. intros row db [Hdb Hrow]. subst row.
  apply (Hg (db_plans db !! id)); [|done].
  rewrite <- Hdb. unfold history. cbn. by rewrite lookup_fmap.
Qed.

Lemma alter_applied h plan encoded f row :
  h.1 !! (pl_ID plan, pl_Revision plan) = None → rv_plan row = encoded → is_Some (h.2 !! pl_ID plan) →
  (∀ p, pn_active_revision (f p) = pl_Revision plan) →
  tx (at_history (<[(pl_ID plan, pl_Revision plan) := row]> h.1, h.2)) (write (on_plans (alter f (pl_ID plan))))
    (λ _ db, applied plan encoded h (history db)).
Proof.
  intros Hnew Hrow [r Hr] Hf. apply tx_write. intros db Hdb. right. split; [done|]. exists row.
  split; [done|]. unfold at_history, history in *. cbn. injection Hdb as -> Hp. f_equal. rewrite <- Hp.
  apply map_eq. intros i. rewrite !lookup_fmap. destruct (decide (i = pl_ID plan)) as [->|Hi].
  - rewrite lookup_alter_eq, lookup_insert_eq. rewrite <- Hp, lookup_fmap in Hr.
    destruct (db_plans db !! pl_ID plan); cbn in *; [by rewrite Hf|done].
  - by rewrite lookup_alter_ne, lookup_insert_ne, lookup_fmap.
Qed.

Lemma store_plan_applied h plan checksum encoded actor now :
  tx (at_history h) (store_plan plan checksum encoded actor now)
    (λ _ db, applied plan encoded h (history db)).
Proof.
  unfold store_plan. apply tx_active. intros [row|] Hrow.
  - eapply tx_bind; [apply keep_read|]. intros maximum. 
    eapply (tx_bind _ (λ _ db, (at_history h db ∧ pn_active_revision row = pl_Revision plan)
              ∨ h.1 !! (pl_ID plan, pl_Revision plan) = None ∧ ∃ row, rv_plan row = encoded
                  ∧ at_history (<[(pl_ID plan, pl_Revision plan) := row]> h.1, h.2) db)).
    + case_match; [|eapply tx_conseq; [apply insert_revision_applied|done|intros [] db Hdb; by right]].
      eapply tx_bind; [apply keep_read|]. intros stored.
      eapply tx_bind; [apply keep_the|]. intros r. eapply tx_bind; [apply keep_require|]. intros [].
      eapply tx_conseq; [apply tx_require|done|]. intros [] db [Hdb He%N.eqb_eq]. by left.
    + intros []. eapply (tx_bind _ (λ _ db, applied plan encoded h (history db))); [|intros; by apply tx_ret].
      intros db [[Hdb He]|(Hnew & r & Hr & Hdb)].
      * left. cbn. unfold at_history, history in *. rewrite <- Hdb. cbn. f_equal. apply map_eq. intros i.
        rewrite !lookup_fmap. destruct (decide (i = pl_ID plan)) as [->|Hi]; [|by rewrite lookup_alter_ne].
        rewrite lookup_alter_eq. rewrite <- Hdb in Hrow. cbn in Hrow. rewrite lookup_fmap in Hrow.
        destruct (db_plans db !! pl_ID plan); cbn in *; [|done]. injection Hrow as ->. by rewrite He.
      * apply (alter_applied h plan encoded _ r Hnew Hr); [by rewrite Hrow|done|done].
  - eapply tx_bind; [apply keep_require|]. intros [].
    eapply (tx_bind _ (λ _, at_history (h.1, <[pl_ID plan := pl_Revision plan]> h.2))).
    { apply tx_write. intros db Hdb. unfold at_history, history in *. rewrite <- Hdb. cbn. by rewrite fmap_insert. }
    intros []. eapply tx_bind; [apply insert_revision_applied|]. intros []. apply tx_ret.
    intros db (Hnew & r & Hr & Hdb). right. split; [done|]. by exists r.
Qed.

Lemma ApplyClusterPlan_applied h plan actor now :
  tx (at_history h) (ApplyClusterPlan dns policies plan actor now)
    (λ _ db, applied (PlanCanonical plan) (PlanCanonical plan) h (history db)).
Proof.
  unfold ApplyClusterPlan, validateActor.
  eapply tx_bind; [apply keep_require|]. intros []. eapply tx_bind; [apply keep_require|]. intros [].
  eapply tx_bind; [apply tx_lift|]. intros encoded db [Hdb He]. revert db Hdb.
  assert (encoded = PlanCanonical plan) as ->.
  { unfold EncodePlanJSON in He. destruct (PlanValidate _); [|done].
    destruct (json_plan _); [|done]. injection He as <-. apply PlanCanonical_idemp. }
  eapply tx_bind; [apply keep_the|]. intros checksum.
  eapply tx_bind; [unfold ensureNoActiveClusterRollout; hist|]. intros [].
  eapply tx_bind; [apply store_plan_applied|]. intros stored.
  apply (keep_history (applied (PlanCanonical plan) (PlanCanonical plan) h)). intros h'. hist.
Qed.
End applying.

(** * The plans of reachable states *)
Section reachable.
Context `{!Idna} `{!MapRange} `{!StateRange} `{!StringRange} {laws : IdnaLaws _}.

(** Nothing stored is lost or changed, and what is stored stays in order. *)
Definition carries (r : gmap (string * N) RevisionRow) (db : Db) : Prop :=
  plans_ok (db_revisions db) ∧ r ⊆ db_revisions db.

Lemma applied_carries r plan h h' :
  PlanCanonical plan = plan → applied plan plan h h' → plans_ok h.1 ∧ r ⊆ h.1 → plans_ok h'.1 ∧ r ⊆ h'.1.
Proof.
  intros Hc [->|(Hnew & row & Hrow & ->)] [Hok Hsub]; [done|]. cbn. split.
  - intros id revision row' [[[= <- <-] <-]|[_ H']]%lookup_insert_Some; [by rewrite Hrow|by eapply Hok].
  - apply insert_subseteq_r; [by eapply lookup_weaken_None|done].
Qed.

Lemma perform_carries r op : tx_keeps (carries r) (perform op).
Proof.
  assert (∀ A (m : Tx A), (∀ h, tx_keeps (at_history h) m) → tx_keeps (carries r) m) as Hkeep.
  { intros A m Hm. exact (keep_history (λ h, plans_ok h.1 ∧ r ⊆ h.1) m Hm). }
  destruct (chooses op) eqn:Hop; [|by apply Hkeep; intros h; apply perform_history].
  destruct op; try discriminate Hop; cbn [perform]; apply keep_ignoring.
  - intros db Hdb. pose proof (ApplyClusterPlan_applied dns policies (history db) plan actor now db eq_refl) as Ha.
    destruct (ApplyClusterPlan _ _ _ _ _ db) as [|[db' a]]; [done|].
    eapply (applied_carries r) in Ha; [exact Ha|apply PlanCanonical_idemp|exact Hdb].
  - unfold RollbackClusterPlan, checked, validateActor, ensureNoActiveClusterRollout.
    repeat first [apply keep_write; intros ? Hdb; exact Hdb | tx_step | apply Hkeep; intros h; solve [hist]].
Qed.

Lemma plans_ok_empty : plans_ok (db_revisions DbEmpty).
Proof. intros id revision row Hrow. cbn in Hrow. by rewrite lookup_empty in Hrow. Qed.

Lemma runs_plans_ok ops : plans_ok (db_revisions (runs ops DbEmpty)).
Proof.
  assert (carries ∅ (runs ops DbEmpty)) as [Hok _]; [|done].
  apply runs_keep; [apply perform_carries|]. split; [apply plans_ok_empty|done].
Qed.

(** C28. In every state the operations of the store can reach, each stored
    revision of a plan is a plan of that name and revision in its canonical
    form; and whatever is done afterwards, it stays as it is. *)
Theorem stored_plans_immutable before after :
  let db := runs before DbEmpty in
  plans_ok (db_revisions db) ∧ db_revisions db ⊆ db_revisions (runs after db).
Proof.
  intros db. pose proof (runs_plans_ok before) as Hok. split; [done|].
  apply (runs_keep (carries (db_revisions db)) after db); [apply perform_carries|done].
Qed.
End reachable.

#[local] Instance plans_idna : Idna := ascii_idna.
#[local] Instance plans_nodes : MapRange := some_range.
#[local] Instance plans_states : StateRange := some_states.
#[local] Instance plans_strings : StringRange := elements.
Definition plan_operations : list store_op :=
  [OpEnsurePendingNode "node-a"; OpEnsurePendingNode "node-b";
   OpApplyClusterPlan (λ _ _ _ a, a) ∅ sample_plan "owner:admin" (1000 * Second)%Z].
Example plan_stored : size (db_revisions (runs plan_operations DbEmpty)) = 1%nat.
Proof. vm_compute. reflexivity. Qed.
Lemma stored_plans_immutable_witness :
  plans_ok (db_revisions (runs plan_operations DbEmpty))
  ∧ db_revisions (runs plan_operations DbEmpty) ⊆ db_revisions (runs plan_operations (runs plan_operations DbEmpty)).
Proof. exact (stored_plans_immutable plan_operations plan_operations). Defined.
