(* ===== verification/ManagementTenants.v ===== *)
(** What a request of a tenant can change: its own forwards, as far as its
    policy allows, and its own account. *)
From S2P Require Import Prelude.
From S2P Require Import GoNet.
From S2P Require Import GoCrypto.
From S2P Require Import SpecTypes.
From S2P Require Import SpecCanonical.
From S2P Require Import SpecValidate.
From S2P Require Import Hostname.
From S2P Require Import Iam.
From S2P Require Import Password.
From S2P Require Import ClusterTypes.
From S2P Require Import ClusterValidate.
From S2P Require Import PlanJson.
From S2P Require Import Scheduler.
From S2P Require Import PlaceFacts.
From S2P Require Import ClusterCompile.
From S2P Require Import Rollout.
From S2P Require Import ControlDb.
From S2P Require Import ControlNodes.
From S2P Require Import ControlSchedule.
From S2P Require Import ControlFacts.
From S2P Require Import ControlHistory.
From S2P Require Import ControlIdentity.
From S2P Require Import ControlIdentityFacts.
From S2P Require Import ManagementServer.
From S2P Require Import ManagementForwards.
From S2P Require Import ManagementAccess.
From S2P Require Import ManagementPlans.

(** * The active plan *)
Definition active_of (h : History) (planID : string) : option Plan :=
  revision ← h.2 !! planID; rv_plan <$> h.1 !! (planID, revision).
Definition active_plan (planID : string) (db : Db) : option Plan := active_of (history db) planID.

Section plans.
Context `{!Idna} `{!MapRange} `{!StateRange} `{!StringRange}.

Lemma ActiveClusterPlan_inv planID db db' record :
  ActiveClusterPlan planID db = inr (db', record) →
  db' = db ∧ active_plan planID db = Some (ap_Plan record).
Proof.
  unfold ActiveClusterPlan, checked, read, mbind, Tx_bind, mret, Tx_ret, active_plan, active_of, history. cbn.
  destruct (ValidateIdentifier _ _); [done|]. rewrite lookup_fmap.
  destruct (db_plans db !! planID) as [row|]; [|done]. cbn.
  destruct (db_revisions db !! (planID, pn_active_revision row)) as [stored|]; [|done]. cbn.
  unfold DecodePlanJSON. destruct (_ <? _); [done|]. destruct (PlanValidate _); [|done]. cbn.
  unfold require_that. destruct (negb _); [|done]. by intros [= <- <-].
Qed.

Lemma active_plan_ok planID db p :
  plans_ok (db_revisions db) → active_plan planID db = Some p → pl_ID p = planID ∧ PlanCanonical p = p.
Proof.
  unfold active_plan, active_of. cbn. intros Hok. destruct (_ !! planID) as [r|]; [|done]. cbn.
  destruct (db_revisions db !! (planID, r)) as [row|] eqn:Hrow; [|done]. intros [= <-].
  by destruct (Hok _ _ _ Hrow) as (-> & _ & ->).
Qed.

(** An applied plan becomes the active one of its name, or changes no plan. *)
Lemma applied_active plan h h' :
  applied plan plan h h' →
  h.1 ⊆ h'.1 ∧ (∀ id, id ≠ pl_ID plan → active_of h' id = active_of h id)
  ∧ (active_of h' (pl_ID plan) = active_of h (pl_ID plan) ∨ active_of h' (pl_ID plan) = Some plan).
Proof.
  intros [->|(Hnew & row & Hrow & ->)]; [by split_and!; auto|]. cbn. split_and!.
  - by apply insert_subseteq.
  - intros id Hid. unfold active_of. cbn. rewrite lookup_insert_ne by done. destruct (h.2 !! id); [|done].
    cbn. rewrite lookup_insert_ne; [done|congruence].
  - right. unfold active_of. cbn. rewrite lookup_insert_eq. cbn. by rewrite lookup_insert_eq, <- Hrow.
Qed.
End plans.

(** * Changes of a tenant *)
Section tenant.
Context (T : string) (now : Time).

(** The deletion of a forward of the tenant *)
Definition deletes (p : Plan) (f : Forward) : Prop :=
  ∃ g, g ∈ pl_Forwards p ∧ cf_UserID g = T
       ∧ (f = with_deletion LifecycleForceDeleting None g
          ∨ ∃ deadline, f = with_deletion LifecycleDraining (Some deadline) g).

(** A forward the tenant's policy permits, new or in the place of one of its
    forwards, with the one target of its pool *)
Definition permitted (db : IdentityDb) (p q : Plan) (f : Forward) : Prop :=
  ∃ policy tenant count pool backend,
    id_policies db !! T = Some policy ∧ id_tenants db !! T = Some tenant ∧ policy_valid policy
    ∧ pool ∈ pl_BackendPools q ∧ bp_ID pool = cf_BackendPoolID f ∧ bp_Backends pool = [backend]
    ∧ permits policy (resolved_forward f (be_Target backend)) count (tr_expires_at tenant) now
    ∧ (count = tenantForwardCount p T
       ∨ count = N.pred (tenantForwardCount p T)
         ∧ ∃ g, g ∈ pl_Forwards p ∧ cf_UserID g = T ∧ cf_ID g = cf_ID f).

(** From plan [p] to plan [q] *)
Record tenant_edit (db : IdentityDb) (p q : Plan) : Prop := {
  te_frame : q = with_plan (pl_Revision q) (pl_UserPolicies q) (pl_BackendPools q) (pl_Forwards q) p;
  te_policies policy : up_UserID policy ≠ T → policy ∈ pl_UserPolicies q ↔ policy ∈ pl_UserPolicies p;
  te_pools f pool : f ∈ pl_Forwards p → cf_UserID f ≠ T → bp_ID pool = cf_BackendPoolID f →
    pool ∈ pl_BackendPools p → pool ∈ pl_BackendPools q;
  te_others f : cf_UserID f ≠ T → f ∈ pl_Forwards q ↔ f ∈ pl_Forwards p;
  te_own f : f ∈ pl_Forwards q → f ∉ pl_Forwards p → cf_UserID f = T ∧ (deletes p f ∨ permitted db p q f);
}.

(** What is not the tenant's in the identity tables: all but its account and the
    sessions of it *)
Record own_identity (accountID : string) (hash : list N) (db db' : IdentityDb) : Prop := {
  oi_tenants : id_tenants db' = id_tenants db;
  oi_policies : id_policies db' = id_policies db;
  oi_accounts id : id ≠ accountID → id_accounts db' !! id = id_accounts db !! id;
  oi_sessions h s : id_sessions db !! h = Some s → h ≠ hash → ms_account_id s ≠ accountID →
    id_sessions db' !! h = Some s;
}.

(** What is not the tenant's in the database *)
Record own_plan `{!Idna} (planID : string) (identity : IdentityDb) (db db' : Db) : Prop := {
  op_history : db_revisions db ⊆ db_revisions db';
  op_plans id : id ≠ planID → active_plan id db' = active_plan id db;
  op_active : active_plan planID db' = active_plan planID db
    ∨ ∃ p q, active_plan planID db = Some p ∧ tenant_edit identity p q
             ∧ active_plan planID db' = Some (PlanCanonical q);
}.

Lemma own_plan_ext `{!Idna} planID identity identity' db db' :
  own_plan planID identity db db' → id_policies identity' = id_policies identity →
  id_tenants identity' = id_tenants identity → own_plan planID identity' db db'.
Proof.
  intros [Hh Ho Ha] Hp Ht. split; [done|done|]. destruct Ha as [Ha|(p & q & Hpq & He & Ha)]; [by left|].
  right. exists p, q. split_and!; [done| |done]. destruct He as [H1 H2 H3 H4 H5]. split; try done.
  intros f Hf Hnew. destruct (H5 f Hf Hnew) as [HT Hd]. split; [done|]. unfold permitted in *. by rewrite Hp, Ht.
Qed.

Lemma own_identity_refl id hash db : own_identity id hash db db.
Proof. by split. Qed.
Lemma own_identity_trans id hash db1 db2 db3 :
  own_identity id hash db1 db2 → own_identity id hash db2 db3 → own_identity id hash db1 db3.
Proof.
  intros [] []. split; [congruence..| |].
  - intros i Hi. rewrite oi_accounts1, oi_accounts0; done.
  - intros h s Hs Hh Ha. by apply oi_sessions1; [apply oi_sessions0|..].
Qed.
End tenant.

(** * Handlers that read *)
Definition reads {A} (m : Handler A) : Prop := ∀ w, ∃ r, m w = (w, r).

Lemma reads_of {A} (m : Handler A) : (∀ w, (m w).1 = w) → reads m.
Proof. intros H w. exists (m w).2. rewrite <- (H w) at 2. by destruct (m w). Qed.
Lemma after_read {A B} (F : World → Prop) (m : Handler A) (f : A → Handler B) w :
  reads m → F w → (∀ a, m w = (w, inr a) → F (f a w).1) → F ((m ≫= f) w).1.
Proof.
  intros Hm Hw Hf. unfold mbind, Handler_bind. destruct (Hm w) as [[r|a] E]; rewrite E; [done|by apply Hf].
Qed.

Create HintDb reads.
Lemma reads_ret {A} (a : A) : reads (mret a).
Proof. intros w. by eexists. Qed.
Lemma reads_answer {A} r : reads (A := A) (answer r).
Proof. intros w. by eexists. Qed.
Lemma reads_bind {A B} (m : Handler A) (f : A → Handler B) : reads m → (∀ a, reads (f a)) → reads (m ≫= f).
Proof.
  intros Hm Hf w. unfold mbind, Handler_bind. destruct (Hm w) as [[r|a] E]; rewrite E; [by eexists|apply Hf].
Qed.
Lemma reads_of_world {A} (f : World → A) : reads (of_world f).
Proof. intros w. by eexists. Qed.
Lemma reads_identity_call {A} (m : Id A) : (∀ db db' a, m db = inr (db', a) → db' = db) → reads (identity_call m).
Proof.
  intros Hm. apply reads_of. intros w. unfold identity_call, identity_transact.
  destruct (m (w_identity w)) as [e|[db a]] eqn:E; cbn; [|apply Hm in E as ->]; by destruct w.
Qed.
Lemma reads_store_call {A} (m : Tx A) : (∀ db db' a, m db = inr (db', a) → db' = db) → reads (store_call m).
Proof.
  intros Hm. apply reads_of. intros w. unfold store_call, transact.
  destruct (m (w_db w)) as [e|[db a]] eqn:E; cbn; [|apply Hm in E as ->]; by destruct w.
Qed.
Lemma reads_tenant id : reads (identity_call (TenantByID id)).
Proof. apply reads_identity_call. by intros ? ? ? [-> _]%TenantByID_inv. Qed.
Lemma reads_policy id : reads (identity_call (TenantPolicy id)).
Proof. apply reads_identity_call. by intros ? ? ? [-> _]%TenantPolicy_inv. Qed.
Lemma reads_account id : reads (identity_call (TenantAccountByTenantID id)).
Proof.
  apply reads_identity_call. intros ? ? ? E. unfold TenantAccountByTenantID in E. id_steps E.
  unfold found in E. case_match; [|done]. by injection E as <- _.
Qed.
Lemma reads_valid name id : reads (identity_call (ValidateInternalID name id)).
Proof.
  apply reads_identity_call. intros ? ? ?. unfold ValidateInternalID. case_match; [done|]. by intros [= <- _].
Qed.
Lemma reads_active `{!Idna} config : reads (store_call (activePlan config)).
Proof. apply reads_store_call. by intros ? ? ? [-> _]%ActiveClusterPlan_inv. Qed.
#[export] Hint Resolve reads_ret reads_answer reads_of_world reads_tenant reads_policy reads_account reads_valid
  reads_active : reads.

(** Follow a handler through what it reads. *)
Ltac reads_step :=
  first
    [ solve [auto 1 with reads nocore]
    | apply reads_bind; [|intros ?]
    | progress case_match
    | progress cbv zeta
    | match goal with |- reads ?m => let h := head_of m in unfold h; cbv beta zeta end ].
Ltac reading := repeat reads_step.

Section reading.
Context `{!Idna} `{!MapRange} `{!StateRange} `{!StringRange}.
Context (config : Config) (env : Env) (session : Session).

Lemma managementForward_reads id : reads (managementForward config session id).
Proof. reading. Qed.
Lemma forwardTenantID_reads id : reads (forwardTenantID env session id).
Proof. reading. Qed.
Lemma authorizeForward_reads forward target count : reads (authorizeForward env session forward target count).
Proof. reading. Qed.
Lemma syncManagedUserPolicy_reads plan id : reads (syncManagedUserPolicy env plan id).
Proof. reading. Qed.
Lemma shown_reads plan index : reads (shown plan index).
Proof. reading. Qed.
Lemma views_of_reads plan indices : reads (views_of session plan indices).
Proof. induction indices; cbn; [apply reads_ret|]. case_match; [done|]. repeat first [assumption | reads_step]. Qed.
End reading.

(** * What a handler has read *)
Lemma handler_bind {A B} (m : Handler A) (f : A → Handler B) w w' b :
  (m ≫= f) w = (w', inr b) → ∃ w1 a, m w = (w1, inr a) ∧ f a w1 = (w', inr b).
Proof. unfold mbind, Handler_bind. destruct (m w) as [w1 [r|a]]; [done|]. eauto. Qed.
Lemma handler_unless {B} cond r (f : unit → Handler B) w w' b :
  (unless cond r ≫= f) w = (w', inr b) → cond = false ∧ f tt w = (w', inr b).
Proof. by destruct cond. Qed.
Lemma unless_inv cond r w w' u : unless cond r w = (w', inr u) → cond = false.
Proof. by destruct cond. Qed.
Lemma or_answer_inv {E A} f (r : E + A) w w' a : or_answer f r w = (w', inr a) → r = inr a.
Proof. destruct r; [done|]. by intros [= _ <-]. Qed.
Lemma given_inv {A} (v : option A) w w' a : given v w = (w', inr a) → v = Some a.
Proof. destruct v; [|done]. by intros [= _ <-]. Qed.
Lemma from_identity_inv {A} (m : Id A) w w' a :
  from_identity m w = (w', inr a) → ∃ db, m (w_identity w) = inr (db, a) ∧ w' = MkWorld (w_db w) db (w_limiter w).
Proof.
  unfold from_identity, identity_call, identity_transact, mbind, Handler_bind.
  destruct (m (w_identity w)) as [e|[db a']]; [done|]. intros [= <- <-]. eauto.
Qed.
Lemma from_store_inv {A} (m : Tx A) w w' a :
  from_store m w = (w', inr a) → ∃ db, m (w_db w) = inr (db, a) ∧ w' = MkWorld db (w_identity w) (w_limiter w).
Proof.
  unfold from_store, store_call, transact, mbind, Handler_bind.
  destruct (m (w_db w)) as [e|[db a']]; [done|]. intros [= <- <-]. eauto.
Qed.

Lemma editable_pool_inv plan f w w' index :
  editable_pool plan f w = (w', inr index) → editablePool plan (cf_BackendPoolID f) = (Some index, true).
Proof. unfold editable_pool. destruct (editablePool _ _) as [[i|] []]; try done. by intros [= _ <-]. Qed.

Lemma deleted_forward_inv env mode drain g f :
  deleted_forward env mode drain g = Some f →
  f = with_deletion LifecycleForceDeleting None g ∨ ∃ deadline, f = with_deletion LifecycleDraining (Some deadline) g.
Proof.
  unfold deleted_forward. case_bool_decide; [left; congruence|]. case_bool_decide; [|done].
  destruct (drain_seconds drain); [|done]. intros [= <-]. right. by eexists.
Qed.

Section facts.
Context `{!Idna} `{!MapRange} `{!StateRange} `{!StringRange}.
Context (config : Config) (env : Env) (session : Session) (w : World).
Context (Hrole : ac_Role (ss_Account session) = RoleTenant).
Let T := ac_TenantID (ss_Account session).

Lemma activePlan_inv w' record :
  from_store (activePlan config) w = (w', inr record) →
  w' = w ∧ active_plan (mc_PlanID config) (w_db w) = Some (ap_Plan record).
Proof. intros (db & [-> ?]%ActiveClusterPlan_inv & ->)%from_store_inv. by destruct w. Qed.

Lemma managementForward_inv id w' record index f :
  managementForward config session id w = (w', inr (record, index, f)) →
  active_plan (mc_PlanID config) (w_db w) = Some (ap_Plan record)
  ∧ pl_Forwards (ap_Plan record) !! index = Some f ∧ cf_UserID f = T.
Proof.
  unfold managementForward. intros (w1 & rec & [-> Hp]%activePlan_inv & E)%handler_bind.
  destruct (forwardIndex _ _) as [i|]; [|done]. destruct (pl_Forwards _ !! i) as [g|] eqn:Hg; [|done].
  apply handler_unless in E as [Hu E]. injection E as <- <- <- <-. split_and!; [done..|].
  rewrite bool_decide_eq_true_2 in Hu by done. cbn in Hu. by apply negb_false_iff, bool_decide_eq_true in Hu.
Qed.

Lemma forwardTenantID_inv requested w' id : forwardTenantID env session requested w = (w', inr id) → id = T.
Proof.
  unfold forwardTenantID. rewrite bool_decide_eq_true_2 by done. intros [_ E]%handler_unless. by injection E as _ <-.
Qed.

Lemma authorizeForward_inv f target count w' u :
  authorizeForward env session f target count w = (w', inr u) →
  cf_UserID f = T
  ∧ ∃ policy tenant, id_policies (w_identity w) !! T = Some policy ∧ id_tenants (w_identity w) !! T = Some tenant
      ∧ policy_valid policy ∧ permits policy (resolved_forward f target) count (tr_expires_at tenant) (en_now env).
Proof.
  unfold authorizeForward. rewrite Hrole, (bool_decide_eq_false_2 (RoleTenant = RoleOwner)),
    (bool_decide_eq_true_2 (RoleTenant = RoleTenant)) by done. cbn. intros [Hu E]%handler_unless.
  apply negb_false_iff, bool_decide_eq_true in Hu. split; [done|]. rewrite Hu in E.
  apply handler_bind in E as (w1 & tenant & Ht & E). apply from_identity_inv in Ht as (db & [-> Ht]%TenantByID_inv & ->).
  apply handler_bind in E as (w2 & policy & Hp & E). apply from_identity_inv in Hp as (db & [-> Hp]%TenantPolicy_inv & ->).
  apply or_answer_inv in E. destruct u. apply AuthorizeForward_iff in E as [Hv Hpm]. by exists policy, tenant.
Qed.

Lemma syncManagedUserPolicy_inv plan policy w' policies :
  id_policies (w_identity w) !! T = Some policy → po_TenantID policy = T →
  syncManagedUserPolicy env plan T w = (w', inr policies) →
  ∀ p, up_UserID p ≠ T → p ∈ policies ↔ p ∈ pl_UserPolicies plan.
Proof.
  intros Hpol Hid. unfold syncManagedUserPolicy. case_bool_decide; [by intros [= _ <-]|].
  intros (w1 & q & Hq & E)%handler_bind. apply from_identity_inv in Hq as (db & [-> Hq]%TenantPolicy_inv & ->).
  simplify_eq. apply handler_bind in E as (w2 & expected & Hx%or_answer_inv & E). injection E as _ <-.
  intros p Hp. unfold replaceUserPolicy. rewrite elem_of_app, list_elem_of_filter.
  split; [|by left]. intros [[_ ?]|Hin]; [done|]. destruct expected as [e|]; [|by apply not_elem_of_nil in Hin].
  apply list_elem_of_singleton in Hin as ->. exfalso. apply Hp.
  unfold DataPlanePolicy, andThen in Hx. destruct (Validate _ _); [done|]. injection Hx as Hx.
  case_match; [done|]. injection Hx as <-. done.
Qed.
End facts.

(** * The edits of the handlers *)
Lemma elem_of_replaced {A} (l : list A) i x y z :
  l !! i = Some x → z ∈ <[i := y]> l → z = y ∨ z ∈ l.
Proof.
  intros Hx (j & Hj)%list_elem_of_lookup. destruct (decide (j = i)) as [->|Hj'].
  - rewrite list_lookup_insert_eq in Hj by by eapply lookup_lt_Some. left. congruence.
  - rewrite list_lookup_insert_ne in Hj by done. right. by eapply list_elem_of_lookup_2.
Qed.
Lemma elem_of_kept {A} (l : list A) i x y z : l !! i = Some x → z ≠ x → z ∈ l → z ∈ <[i := y]> l.
Proof.
  intros Hx Hz (j & Hj)%list_elem_of_lookup. apply list_elem_of_lookup. exists j.
  destruct (decide (j = i)) as [->|Hj']; [congruence|]. by rewrite list_lookup_insert_ne.
Qed.
Lemma elem_of_altered {A} (l : list A) i f z : z ∈ l → l !! i ≠ Some z → z ∈ alter f i l.
Proof.
  intros (j & Hj)%list_elem_of_lookup Hi. apply list_elem_of_lookup. exists j.
  destruct (decide (j = i)) as [->|Hj']; [congruence|]. by rewrite list_lookup_alter_ne.
Qed.

Lemma index_where_spec {A} (P : A → bool) l i :
  index_where P l = Some i → ∃ x, l !! i = Some x ∧ P x = true.
Proof.
  unfold index_where. destruct (list_find _ l) as [[j x]|] eqn:E; [|done]. intros [= <-].
  apply list_find_Some in E as (? & ? & _). eauto.
Qed.

(** An editable pool has one backend, and one forward uses it. *)
Lemma editablePool_spec p id index :
  editablePool p id = (Some index, true) →
  (∃ pool backend, pl_BackendPools p !! index = Some pool ∧ bp_ID pool = id ∧ bp_Backends pool = [backend])
  ∧ ∀ f g, f ∈ pl_Forwards p → g ∈ pl_Forwards p → cf_BackendPoolID f = id → cf_BackendPoolID g = id → f = g.
Proof.
  unfold editablePool. destruct (index_where _ _) as [i|] eqn:Hi; [|done]. intros [= -> H].
  apply index_where_spec in Hi as (pool & Hpool & Hid%bool_decide_eq_true). rewrite Hpool in H.
  apply andb_true_iff in H as [[_ Hb]%andb_true_iff Hr%Nat.eqb_eq]. split.
  - destruct (bp_Backends pool) as [|b [|]] eqn:E; try done. eauto.
  - unfold references in Hr. intros f g Hf Hg Hf' Hg'.
    destruct (filter (λ f, cf_BackendPoolID f = id) (pl_Forwards p)) as [|x [|]] eqn:E; try done.
    assert (f ∈ [x] ∧ g ∈ [x]) as [->%list_elem_of_singleton ->%list_elem_of_singleton]; [|done].
    rewrite <- E. by rewrite !list_elem_of_filter.
Qed.

Lemma buildManagementForward_inv id T input target version forward pool :
  buildManagementForward id T input target version = Some (forward, pool) →
  cf_ID forward = id ∧ cf_UserID forward = T
  ∧ bp_ID pool = cf_BackendPoolID forward ∧ ∃ backend, bp_Backends pool = [backend] ∧ be_Target backend = target.
Proof.
  unfold buildManagementForward. intros E. repeat (case_match; try done).
  all: injection E as <- <-; cbn; split_and!; try done; by eexists.
Qed.

Section edits.
Context (T : string) (now : Time) (db : IdentityDb) (p : Plan) (revision : N).

Lemma create_edit policies policy tenant forward pool backend :
  id_policies db !! T = Some policy → id_tenants db !! T = Some tenant → policy_valid policy →
  permits policy (resolved_forward forward (be_Target backend)) (tenantForwardCount p T) (tr_expires_at tenant) now →
  (∀ u, up_UserID u ≠ T → u ∈ policies ↔ u ∈ pl_UserPolicies p) →
  cf_UserID forward = T → bp_ID pool = cf_BackendPoolID forward → bp_Backends pool = [backend] →
  tenant_edit T now db p
    (with_plan revision policies (pl_BackendPools p ++ [pool]) (pl_Forwards p ++ [forward]) p).
Proof.
  intros Hpol Hten Hv Hpm Hups HT Hid Hb. split; cbn.
  - done.
  - done.
  - intros f q _ _ _ Hq. apply elem_of_app. by left.
  - intros f Hf. rewrite elem_of_app, list_elem_of_singleton. split; [|by left]. intros [?| ->]; [done|done].
  - intros f [Hf| ->%list_elem_of_singleton]%elem_of_app Hnew; [done|]. split; [done|]. right.
    exists policy, tenant, (tenantForwardCount p T), pool, backend. split_and!; try done.
    + apply elem_of_app. right. by left.
    + by left.
Qed.

Lemma update_edit policies policy tenant target count index poolIndex existing updated :
  id_policies db !! T = Some policy → id_tenants db !! T = Some tenant → policy_valid policy →
  permits policy (resolved_forward updated target) count (tr_expires_at tenant) now →
  count = N.pred (tenantForwardCount p T) →
  (∀ u, up_UserID u ≠ T → u ∈ policies ↔ u ∈ pl_UserPolicies p) →
  pl_Forwards p !! index = Some existing → cf_UserID existing = T →
  editablePool p (cf_BackendPoolID existing) = (Some poolIndex, true) →
  cf_ID updated = cf_ID existing → cf_UserID updated = T → cf_BackendPoolID updated = cf_BackendPoolID existing →
  tenant_edit T now db p
    (with_plan revision policies (alter (retarget target) poolIndex (pl_BackendPools p))
       (<[index := updated]> (pl_Forwards p)) p).
Proof.
  intros Hpol Hten Hv Hpm Hcount Hups Hex HT [(pool & backend & Hpool & Hid & Hb) Hsole]%editablePool_spec
    HID HT' Hpid.
  assert (existing ∈ pl_Forwards p) as Hin by by eapply list_elem_of_lookup_2.
  split; cbn.
  - done.
  - done.
  - intros f q Hf HfT Hq Hqin. apply elem_of_altered; [done|]. rewrite Hpool. intros [= ->].
    apply HfT. rewrite <- HT. f_equal. apply Hsole; congruence.
  - intros f Hf. split.
    + intros [->|?]%(elem_of_replaced _ _ existing); done.
    + apply elem_of_kept with existing; [done|]. congruence.
  - intros f [->|?]%(elem_of_replaced _ _ existing) Hnew; [|done|done]. split; [done|]. right.
    exists policy, tenant, count, (retarget target pool). eexists. split_and!; try done.
    + apply list_elem_of_lookup. exists poolIndex. cbn [with_plan pl_BackendPools]. by rewrite list_lookup_alter_eq, Hpool.
    + cbn. congruence.
    + cbn. by rewrite Hb.
    + done.
    + right. split; [done|]. by exists existing.
Qed.

Lemma delete_edit index existing f :
  pl_Forwards p !! index = Some existing → cf_UserID existing = T →
  f = with_deletion LifecycleForceDeleting None existing
    ∨ (∃ deadline, f = with_deletion LifecycleDraining (Some deadline) existing) →
  tenant_edit T now db p
    (with_plan revision (pl_UserPolicies p) (pl_BackendPools p) (<[index := f]> (pl_Forwards p)) p).
Proof.
  intros Hex HT Hf. assert (cf_UserID f = T) as HfT by by destruct Hf as [->|[? ->]].
  split; cbn; try done.
  - intros g Hg. split.
    + intros [->|?]%(elem_of_replaced _ _ existing); done.
    + apply elem_of_kept with existing; [done|]. congruence.
  - intros g [->|?]%(elem_of_replaced _ _ existing) Hnew; [|done|done]. split; [done|]. left.
    exists existing. split_and!; [by eapply list_elem_of_lookup_2|done|done].
Qed.
End edits.

(** * The handlers of a tenant *)
Lemma after_bind {A B} (F : World → Prop) (m : Handler A) (f : A → Handler B) w :
  F (m w).1 → (∀ a w1, F w1 → F (f a w1).1) → F ((m ≫= f) w).1.
Proof. intros Hm Hf. unfold mbind, Handler_bind. destruct (m w) as [w1 [r|a]]; [done|]. by apply Hf. Qed.
Lemma read_keeps {A} (F : World → Prop) (m : Handler A) w : reads m → F w → F (m w).1.
Proof. intros Hm Hw. by destruct (Hm w) as [r ->]. Qed.

Section effects.
Context `{!Idna} `{!MapRange} `{!StateRange} `{!StringRange} {laws : IdnaLaws _} {argon2 : Argon2}.
Context (dns : nat → nat → string → Addr → Addr).
Context (config : Config) (env : Env) (request : Request) (session : Session).
Let a := ss_Account session.
Let T := ac_TenantID a.
Context (Hrole : ac_Role a = RoleTenant) (token : string) (Htoken : rq_sessionCookie request = Some token).
Context (w0 : World) (Hplans : plans_ok (db_revisions (w_db w0))).

(** All that has changed is the tenant's. *)
Definition settled (w : World) : Prop :=
  own_identity (ac_ID a) (HashSecret token) (w_identity w0) (w_identity w)
  ∧ own_plan T (en_now env) (mc_PlanID config) (w_identity w0) (w_db w0) (w_db w).

Lemma settled_start : settled w0.
Proof. split; [apply own_identity_refl|]. split; [done|done|by left]. Qed.
Lemma settled_identity w db :
  own_identity (ac_ID a) (HashSecret token) (w_identity w) db → settled w → settled (MkWorld (w_db w) db (w_limiter w)).
Proof. intros Hi [Hi' Hp]. split; [by eapply own_identity_trans|done]. Qed.
Lemma audit_settled s action kind resource outcome detail w :
  settled w → settled (auditSession env request s action kind resource outcome detail w).1.
Proof.
  intros Hw. destruct (auditSession_world env request s action kind resource outcome detail w) as [f ->].
  apply settled_identity; [|done]. by split.
Qed.

Lemma apply_settled p q :
  active_plan (mc_PlanID config) (w_db w0) = Some p → tenant_edit T (en_now env) (w_identity w0) p q →
  settled (applyManagementPlan dns env session q w0).1.
Proof.
  intros Hp Hedit. destruct (active_plan_ok _ _ _ Hplans Hp) as [Hid Hc].
  assert (pl_ID q = mc_PlanID config) as Hq by by rewrite (te_frame _ _ _ _ _ Hedit).
  unfold applyManagementPlan, of_world, from_store, store_call, transact, mbind, Handler_bind.
  match goal with |- context [ApplyClusterPlan dns ?ps q ?actor ?now ?db] =>
    pose proof (ApplyClusterPlan_applied dns ps (history db) q actor now db eq_refl) as Ha;
    destruct (ApplyClusterPlan dns ps q actor now db) as [e|[db' result]] end; [apply settled_identity; [apply own_identity_refl|apply settled_start]|].
  apply applied_active in Ha as (Hsub & Hother & Hact). split; [apply own_identity_refl|]. cbn.
  change (pl_ID (PlanCanonical q)) with (pl_ID q) in *. rewrite Hq in *. split; [done|done|].
  destruct Hact as [Hact|Hact]; [by left|]. right. by exists p, q.
Qed.

Lemma finish_settled p q action id status index :
  active_plan (mc_PlanID config) (w_db w0) = Some p → tenant_edit T (en_now env) (w_identity w0) p q →
  settled (finish dns env request session action id status q index w0).1.
Proof.
  intros Hp Hedit. unfold finish. apply after_bind; [by eapply apply_settled|]. intros result w1 Hw1.
  apply after_bind; [apply read_keeps; [apply shown_reads|done]|]. intros view w2 Hw2.
  apply after_bind; [by apply audit_settled|]. done.
Qed.

Lemma owned forward target policy count expiry :
  cf_UserID forward = T → permits policy (resolved_forward forward target) count expiry (en_now env) →
  po_TenantID policy = T.
Proof. intros HT Hpm. by rewrite <- (pm_tenant _ _ _ _ _ Hpm). Qed.

Ltac next a H := apply after_read; [by reading|apply settled_start|]; intros a H.

Lemma handleCreateForward_settled input :
  settled (handleCreateForward dns config env request input session w0).1.
Proof.
  unfold handleCreateForward. next fi Hfi. next u Hu. next tenantID Hid. apply forwardTenantID_inv in Hid as ->; [|done].
  next record Hrec. apply activePlan_inv in Hrec as [_ Hrec]. next target Ht.
  next built Hbuilt. apply given_inv in Hbuilt. destruct built as [forward pool].
  apply buildManagementForward_inv in Hbuilt as (_ & HT & Hpool & backend & Hb & <-).
  next u' Hlisten. next u'' Hauth.
  apply authorizeForward_inv in Hauth as (_ & policy & tenant & Hpol & Hten & Hv & Hpm); [|done].
  destruct (active_plan_ok _ _ _ Hplans Hrec) as [_ Hc]. cbv zeta. rewrite Hc.
  next policies Hps. pose proof (syncManagedUserPolicy_inv _ _ _ _ _ _ _ Hpol (owned _ _ _ _ _ HT Hpm) Hps) as Hsame.
  eapply finish_settled; [done|]. by eapply create_edit.
Qed.

Lemma handleUpdateForward_settled id input :
  settled (handleUpdateForward dns config env request id input session w0).1.
Proof.
  unfold handleUpdateForward. next fi Hfi. next u1 Hu1. next place Hfound. destruct place as [[record index] existing].
  apply managementForward_inv in Hfound as (Hrec & Hex & HT); [|done].
  next u2 Hu2. next u3 Hu3. next u4 Hu4. next poolIndex Hedit. next target Ht. next built Hbuilt.
  apply given_inv in Hbuilt. destruct built as [forward pool].
  apply buildManagementForward_inv in Hbuilt as (HID & HT' & _).
  next u5 Hu5. next u6 Hauth.
  apply authorizeForward_inv in Hauth as (HU & policy & tenant & Hpol & Hten & Hv & Hpm); [|done].
  destruct (active_plan_ok _ _ _ Hplans Hrec) as [_ Hc]. cbv zeta. rewrite Hc, HT. 
  next policies Hps. pose proof (syncManagedUserPolicy_inv _ _ _ _ _ _ _ Hpol (owned _ _ _ _ _ HU Hpm) Hps) as Hsame.
  eapply finish_settled; [done|]. eapply update_edit; try done.
  - unfold T, a. rewrite HT. generalize (tenantForwardCount (ap_Plan record) (ac_TenantID (ss_Account session))). intros n.
    destruct (N.eqb_spec n 0); lia.
  - by apply editable_pool_inv in Hedit.
Qed.

Lemma handleDeleteForward_settled id query :
  settled (handleDeleteForward dns config env request id query session w0).1.
Proof.
  unfold handleDeleteForward. next place Hfound. destruct place as [[record index] existing].
  apply managementForward_inv in Hfound as (Hrec & Hex & HT); [|done].
  next expected Hexp. next u1 Hu1. next u2 Hu2. cbv zeta. next f Hf.
  destruct (active_plan_ok _ _ _ Hplans Hrec) as [_ Hc]. rewrite Hc.
  eapply finish_settled; [done|]. eapply delete_edit; [done|done|]. by eapply deleted_forward_inv, given_inv.
Qed.

Lemma identity_call_settled {A} (m : Id A) :
  (∀ db db' x, m db = inr (db', x) → own_identity (ac_ID a) (HashSecret token) db db') →
  settled (identity_call m w0).1.
Proof.
  intros Hm. unfold identity_call, identity_transact. destruct (m (w_identity w0)) as [e|[db x]] eqn:E.
  - apply settled_identity; [apply own_identity_refl|apply settled_start].
  - apply settled_identity; [by eapply Hm|apply settled_start].
Qed.

Lemma handleLogout_settled : settled (handleLogout env request session w0).1.
Proof.
  unfold handleLogout. rewrite Htoken. apply after_bind.
  - apply after_bind; [|done]. apply identity_call_settled. intros db db' [] [= <-]. split; try done.
    intros h s Hs Hh _. cbn. by rewrite lookup_alter_ne.
  - intros u w1 Hw1. apply after_bind; [by apply audit_settled|done].
Qed.

Lemma handleChangePassword_settled input : settled (handleChangePassword env request input session w0).1.
Proof.
  unfold handleChangePassword. next fields Hf. destruct fields as [current new]. case_match.
  - apply after_bind; [apply audit_settled, settled_start|done].
  - next hash Hhash. apply after_bind.
    + unfold from_identity. apply after_bind; [|intros r w1 Hw1; apply read_keeps; [reading|done]].
      apply identity_call_settled. intros db db' x E. unfold ReplaceAccountPassword in E. id_steps E.
      case_match; [|done]. case_match; [|done]. id_steps E.
      unfold found in E. case_match; [|done]. injection E as <- _. split; cbn; try done.
      * intros i Hi. by rewrite lookup_insert_ne.
      * intros h s Hs Hh Ha. rewrite lookup_fmap, Hs. cbn. by rewrite bool_decide_eq_false_2.
    + intros u w1 Hw1. apply after_bind; [by apply audit_settled|done].
Qed.

Lemma inner_settled c :
  (∀ input, c ≠ PostLogin input) → (guards c).1 = false → settled (inner dns config env request c session w0).1.
Proof.
  intros Hlogin Hc. destruct c; try discriminate Hc; cbn [inner].
  - by destruct (Hlogin input).
  - apply handleLogout_settled.
  - apply read_keeps; [reading|apply settled_start].
  - apply handleChangePassword_settled.
  - apply read_keeps; [reading|apply settled_start].
  - apply read_keeps; [reading|apply settled_start].
  - apply read_keeps; [|apply settled_start]. unfold handleListForwards. repeat first [apply views_of_reads|reads_step].
  - apply handleCreateForward_settled.
  - apply read_keeps; [reading|apply settled_start].
  - apply handleUpdateForward_settled.
  - apply handleDeleteForward_settled.
Qed.
End effects.

Section isolation.
Context `{!Idna} `{!MapRange} `{!StateRange} `{!StringRange} {laws : IdnaLaws _} {argon2 : Argon2}.
Context (dns : nat → nat → string → Addr → Addr) (config : Config) (env : Env) (request : Request).

Lemma serve_world m w : (serve m w).1 = (m w).1.
Proof. unfold serve. by destruct (m w) as [? [|]]. Qed.

End isolation.

(** * A tenant deletes a forward *)
Definition tenant_token : string := EncodeToString (repeat 2 32).
Definition tenant_csrf : string := EncodeToString (repeat 3 32).
Definition tenant_calls : list (gmap string NodeRow * identity_op) :=
  [(∅, OpCreateTenant (MkTenantCreate "tenant-a" "Acme" "acme" "Acme" "$argon2id$v=19$m=65536,t=3,p=2$c2FsdA$aGFzaA"
         None None) (repeat 1 16) (repeat 2 16) sample_now);
   (∅, OpCreateManagementSession (NewID "account" (repeat 2 16)) Hour "192.0.2.1" "browser"
         (repeat 2 32) (repeat 3 32) sample_now)].
Definition tenant_identities : IdentityDb := identity_runs true tenant_calls IdentityEmpty.

Section sample.
#[local] Instance tenant_idna : Idna := ascii_idna.
#[local] Instance tenant_nodes : MapRange := some_range.
#[local] Instance tenant_states : StateRange := some_states.
#[local] Instance tenant_strings : StringRange := elements.
#[local] Instance tenant_argon2 : Argon2 := sample_argon2.

(** The nodes of the plan are known and not enrolled: it cannot be placed yet. *)
Definition tenant_world : World := MkWorld (runs plan_operations DbEmpty) tenant_identities loginLimiterZero.
Definition tenant_config : Config := MkConfig (24 * Hour) "main".
Definition tenant_request : Request := request_of (Some tenant_token) (Some tenant_csrf).
Definition delete_web : call := DeleteForward "web" (MkDeleteQuery "1" "force" "").

Example tenant_deletes :
  let '(w', r) := handle no_dns tenant_config sample_env tenant_request delete_web tenant_world in
  (rs_status r, (λ p, (pl_Revision p, (λ f, (cf_ID f, cf_Lifecycle f)) <$> pl_Forwards p))
                  <$> active_plan "main" (w_db w'))
  = (202, Some (8, [("tunnel", LifecycleActive); ("web", LifecycleForceDeleting)])).
Proof. vm_compute. reflexivity. Qed.

Definition tenant_session : SessionRow :=
  default (MkSessionRow [] "" 0%Z 0%Z 0%Z None "" "") (id_sessions tenant_identities !! HashSecret tenant_token).
Definition tenant_account : Account :=
  default (new_account "" "" "" "" RoleOwner "" None 0%Z) (id_accounts tenant_identities !! ms_account_id tenant_session).

End sample.
