(* ===== verification/Enrollment.v ===== *)
(** How a node becomes one of the cluster: keys
    ([internal/securechannel/key.go]), the Controller's enrollment service
    ([internal/controller/enrollment/handler.go]) and the Agent's side of it
    ([internal/agent/enrollment/client.go]).

    The Noise library and curve25519 are parameters. The channel of an
    enrollment reaches the holder of the pinned key or nobody, and delivers a
    message whole or not at all. A JSON text is represented by the value it was
    made from; of a request the size of its text is computed. *)
From S2P Require Import Prelude.
From S2P Require Import GoNet.
From S2P Require Import GoCrypto.
From S2P Require Import SpecTypes.
From S2P Require Import SpecValidate.
From S2P Require Import SpecChecksum.
From S2P Require Import Hostname.
From S2P Require Import Password.
From S2P Require Import ControlDb.
From S2P Require Import ControlNodes.

(** * Keys *)
Definition KeySize : nat := 32.
Record KeyPair := MkKeyPair { kp_Private : list N; kp_Public : list N }.

(** [noise.DH25519.GenerateKeypair] for the random bytes it reads, and
    [curve25519.X25519] of a scalar and the base point. *)
Class Noise := MkNoise {
  GenerateKeypair : list N → KeyPair;
  X25519_Basepoint : list N → option (list N);
}.
Definition key_bytes (k : list N) : Prop := length k = KeySize ∧ Forall (λ b, b < 256) k.
Class NoiseLaws (N : Noise) : Prop := {
  generated random : let keys := GenerateKeypair random in
    key_bytes (kp_Private keys) ∧ key_bytes (kp_Public keys)
    ∧ X25519_Basepoint (kp_Private keys) = Some (kp_Public keys);
}.

(** A key with or without padding *)
Definition decode_key (encoded : string) : option (list N) :=
  let key := match RawStdDecode (chars encoded) with
             | Some key => Some key
             | None => Base64Decode encoded
             end in
  match key with
  | Some key => if (length key =? KeySize)%nat then Some key else None
  | None => None
  end.
Definition ParsePublicKey (encoded : string) : string + list N :=
  match decode_key encoded with
  | Some key => inr key
  | None => inl "Noise public key must be a base64-encoded 32-byte key"
  end.
Definition EncodePublicKey (key : list N) : string := of_chars (raw_encode key).
Definition Fingerprint (key : list N) : string := hex_encode (SHA256.Sum256 key).

Definition ValidateKeyPair `{!Noise} (keys : KeyPair) : option string :=
  if negb (length (kp_Private keys) =? KeySize)%nat || negb (length (kp_Public keys) =? KeySize)%nat
  then Some "Noise identity must contain 32-byte private and public keys"
  else if bool_decide (X25519_Basepoint (kp_Private keys) = Some (kp_Public keys)) then None
  else Some "Noise identity public key does not match its private key".

(** * The Controller's service *)
Record Request := MkRequest {
  rq_NodeID : string;
  rq_Token : string;
  rq_PublicKey : string;
  rq_AgentVersion : string;
}.
Record Response := MkResponse {
  rs_NodeID : string;
  rs_NodeKeyFingerprint : string;
  rs_ControllerPublicKey : string;
  rs_ControllerKeyFingerprint : string;
  rs_EnrolledAt : Time;
}.
Record wireResponse := MkWireResponse {
  wr_OK : bool;
  wr_Response : option Response;
  wr_Code : string;
  wr_Message : string;
}.

(** [strings.ContainsAny(s, "\r\n\t ")] *)
Definition contains_blank (s : string) : bool :=
  existsb (λ b, bool_decide (b ∈ [13; 10; 9; 32])) (bytes_of s).

Definition validateRequest (request : Request) : option string :=
  match ValidateIdentifier "node_id" (rq_NodeID request) with
  | Some e => Some e
  | None =>
      let token := rq_Token request in
      if (String.length token <? 32)%nat || (256 <? N.of_nat (String.length token)) || contains_blank token
      then Some "token is invalid"
      else if (String.length (rq_PublicKey request) <? 40)%nat || (64 <? String.length (rq_PublicKey request))%nat
      then Some "node public key is invalid"
      else if (128 <? String.length (rq_AgentVersion request))%nat then Some "agent_version is too long"
      else None
  end.

(** A request as it arrives: its size, and what its text decodes to *)
Record payload := MkPayload { py_size : N; py_request : option Request }.

Definition json_request (r : Request) : json :=
  JObj [("node_id", JStr (rq_NodeID r)); ("token", JStr (rq_Token r)); ("public_key", JStr (rq_PublicKey r));
        ("agent_version", JStr (rq_AgentVersion r))].
Definition marshal_request (r : Request) : payload :=
  MkPayload (N.of_nat (length (Json.print (json_request r)))) (Some r).

Definition rejection (code message : string) : wireResponse := MkWireResponse false None code message.

(** [process], with the key of the Controller *)
Definition process (public : list N) (now : Time) (input : payload) (db : Db) : Db * wireResponse :=
  if (py_size input =? 0) || (N.shiftl 64 10 <? py_size input)
  then (db, rejection "invalid_request" "enrollment request size is invalid")
  else
    match py_request input with
    | None => (db, rejection "invalid_request" "enrollment request is invalid")
    | Some request =>
        match validateRequest request with
        | Some e => (db, rejection "invalid_request" e)
        | None =>
            match ParsePublicKey (rq_PublicKey request) with
            | inl e => (db, rejection "invalid_request" e)
            | inr publicKey =>
                let '(db, record) := transact
                  (CompleteEnrollment (rq_NodeID request) (rq_Token request) publicKey now) db in
                (db, match record with
                     | inl ErrInvalidEnrollment =>
                         rejection "enrollment_denied" "enrollment credentials were rejected"
                     | inl _ => rejection "enrollment_unavailable" "enrollment is temporarily unavailable"
                     | inr record =>
                         MkWireResponse true (Some (MkResponse (rq_NodeID request) (nk_Fingerprint record)
                           (EncodePublicKey public) (Fingerprint public) (nk_CreatedAt record))) "" ""
                     end)
            end
        end
    end.

(** [DecodeResponse] *)
Definition DecodeResponse (envelope : wireResponse) : string + Response :=
  if negb (wr_OK envelope)
  then inl (if bool_decide (wr_Message envelope = "") then "Controller rejected enrollment" else wr_Message envelope)
  else
    match wr_Response envelope with
    | Some response =>
        if bool_decide (rs_NodeID response = "") || bool_decide (rs_NodeKeyFingerprint response = "")
        then inl "Controller returned an incomplete enrollment response" else inr response
    | None => inl "Controller returned an incomplete enrollment response"
    end.

(** * The identity directory of an Agent *)
Record Identity := MkIdentity {
  it_Version : Z;
  it_NodeID : string;
  it_PrivateKey : string;
  it_PublicKey : string;
  it_ControllerPublicKey : string;
  it_EnrolledAt : Time;
}.
Inductive file := Missing | Malformed | Holds (identity : Identity).
Record directory := MkDirectory { di_identity : file; di_pending : file }.
Definition set_identity (f : file) (d : directory) : directory := MkDirectory f (di_pending d).
Definition set_pending (f : file) (d : directory) : directory := MkDirectory (di_identity d) f.

(** The calls of [WriteAtomic], in order. The file is the new one from the
    rename on; what fails before leaves it, and a temporary file nobody reads. *)
Inductive write_call :=
  | MkdirAll | CreateTemp | Chmod | Write | Sync | Close | Rename | OpenDirectory | SyncDirectory.
Definition write_failure (c : write_call) : string :=
  match c with
  | MkdirAll => "create identity directory"
  | CreateTemp => "create temporary identity"
  | Chmod => "set temporary identity permissions"
  | Write => "write temporary identity"
  | Sync => "sync temporary identity"
  | Close => "close temporary identity"
  | Rename => "replace identity"
  | OpenDirectory => "open identity directory for sync"
  | SyncDirectory => "sync identity directory"
  end.
Definition renamed_before (c : write_call) : bool :=
  match c with OpenDirectory | SyncDirectory => true | _ => false end.
(** The file afterwards, and the error *)
Definition WriteAtomic (fault : option write_call) (old : file) (data : Identity) : file * option string :=
  match fault with
  | None => (Holds data, None)
  | Some c => (if renamed_before c then Holds data else old, Some (write_failure c))
  end.

(** * The Agent *)
Record Config := MkConfig {
  cf_ControllerAddress : string;
  cf_NodeID : string;
  cf_Token : string;
  cf_ControllerPublicKey : list N;
  cf_IdentityDir : string;
  cf_AgentVersion : string;
}.

Definition validateConfig (config : Config) : option string :=
  match ValidateIdentifier "node_id" (cf_NodeID config) with
  | Some e => Some e
  | None =>
      let address := cf_ControllerAddress config in
      if bool_decide (TrimSpace address = "") || negb (bool_decide (String.index 0 "://" address = None))
      then Some "Controller enrollment address must be host:port without a URL scheme"
      else if (String.length (cf_Token config) <? 32)%nat || contains_blank (cf_Token config)
      then Some "enrollment token is invalid"
      else if negb (length (cf_ControllerPublicKey config) =? KeySize)%nat
      then Some "pinned Controller Noise public key is required"
      else if bool_decide (TrimSpace (cf_IdentityDir config) = "") then Some "identity directory is required"
      else None
  end.

(** What an enrollment meets on its way: file operations that fail, the random
    bytes of a new key, and whether the request and the answer get through. A
    crash is a fault of the first thing it prevents. *)
Record Circumstances := MkCircumstances {
  ci_mkdir : bool;
  ci_stat : bool;
  ci_read : bool;
  ci_random : list N;
  ci_pending_fault : option write_call;
  ci_request : bool;
  ci_response : bool;
  ci_now : Time;
  ci_identity_fault : option write_call;
  ci_remove : bool;
}.

Definition decodePrivateKey (encoded : string) : string + list N :=
  match decode_key encoded with
  | Some key => inr key
  | None => inl "node Noise private key is invalid"
  end.
Definition sameKey (left right : list N) : bool := bool_decide (left = right).

Section agent.
Context `{!Noise}.

(** The pair of a stored identity *)
Definition stored_pair (identity : Identity) : string + KeyPair :=
  match decodePrivateKey (it_PrivateKey identity), ParsePublicKey (it_PublicKey identity) with
  | inl e, _ => inl e
  | _, inl e => inl e
  | inr private, inr public =>
      let keys := MkKeyPair private public in
      match ValidateKeyPair keys with Some e => inl e | None => inr keys end
  end.

Definition new_identity (nodeID : string) (keys : KeyPair) (controllerPublic : list N) (enrolledAt : Time) :
    Identity :=
  MkIdentity 1 nodeID (EncodePublicKey (kp_Private keys)) (EncodePublicKey (kp_Public keys))
    (EncodePublicKey controllerPublic) enrolledAt.

(** A pending identity that is to be used again *)
Definition pending_pair (nodeID : string) (controllerPublic : list N) (pending : Identity) : string + KeyPair :=
  if negb (it_Version pending =? 1)%Z || negb (bool_decide (it_NodeID pending = nodeID))
  then inl "pending enrollment identity is invalid or belongs to another node"
  else
    match ParsePublicKey (it_ControllerPublicKey pending) with
    | inr pinned => if sameKey pinned controllerPublic then stored_pair pending
                    else inl "pending enrollment is pinned to another Controller"
    | inl _ => inl "pending enrollment is pinned to another Controller"
    end.

Definition loadOrCreatePending (nodeID : string) (controllerPublic : list N) (ci : Circumstances) (d : directory) :
    directory * (string + KeyPair) :=
  if negb (ci_mkdir ci) then (d, inl "create identity directory")
  else if negb (ci_stat ci) then (d, inl "inspect node identity")
  else
    match di_identity d with
    | Malformed | Holds _ => (d, inl "node identity already exists")
    | Missing =>
        if negb (ci_read ci) then (d, inl "read pending enrollment identity")
        else
          match di_pending d with
          | Malformed => (d, inl "pending enrollment identity is invalid or belongs to another node")
          | Holds pending => (d, pending_pair nodeID controllerPublic pending)
          | Missing =>
              let keys := GenerateKeypair (ci_random ci) in
              let '(f, e) := WriteAtomic (ci_pending_fault ci) Missing
                               (new_identity nodeID keys controllerPublic 0%Z) in
              (set_pending f d, match e with Some e => inl e | None => inr keys end)
          end
    end.

(** The checks of an answer *)
Definition checkResponse (config : Config) (keys : KeyPair) (response : Response) : option string :=
  if negb (bool_decide (rs_NodeID response = cf_NodeID config))
     || negb (bool_decide (rs_NodeKeyFingerprint response = Fingerprint (kp_Public keys)))
  then Some "enrollment response does not match the local node identity"
  else
    match ParsePublicKey (rs_ControllerPublicKey response) with
    | inr returned => if sameKey returned (cf_ControllerPublicKey config) then None
                      else Some "enrollment response does not match the pinned Controller identity"
    | inl _ => Some "enrollment response does not match the pinned Controller identity"
    end.

(** What the Agent does with the answer *)
Definition conclude (config : Config) (keys : KeyPair) (ci : Circumstances) (answer : wireResponse) (d : directory) :
    directory * (string + Response) :=
  match DecodeResponse answer with
  | inl e => (d, inl ("enrollment rejected: " +:+ e))
  | inr response =>
      match checkResponse config keys response with
      | Some e => (d, inl e)
      | None =>
          let identity := new_identity (cf_NodeID config) keys (cf_ControllerPublicKey config)
                            (rs_EnrolledAt response) in
          let '(f, e) := WriteAtomic (ci_identity_fault ci) (di_identity d) identity in
          let d := set_identity f d in
          match e with
          | Some e => (d, inl e)
          | None => (if ci_remove ci then set_pending Missing d else d, inr response)
          end
      end
  end.

(** The exchange of an Agent with a key pair and a Controller with a key and a
    database *)
Definition exchange (public : list N) (config : Config) (keys : KeyPair) (ci : Circumstances) (d : directory)
    (db : Db) : directory * Db * (string + Response) :=
  let request := MkRequest (cf_NodeID config) (cf_Token config) (EncodePublicKey (kp_Public keys))
                   (cf_AgentVersion config) in
  if negb (ci_request ci) || negb (bool_decide (cf_ControllerPublicKey config = public))
  then (d, db, inl "connect to Controller enrollment service")
  else
    let '(db, answer) := process public (ci_now ci) (marshal_request request) db in
    if negb (ci_response ci) then (d, db, inl "receive enrollment response")
    else let '(d, result) := conclude config keys ci answer d in (d, db, result).

(** [Enroll] *)
Definition Enroll (public : list N) (config : Config) (ci : Circumstances) (d : directory) (db : Db) :
    directory * Db * (string + Response) :=
  match validateConfig config with
  | Some e => (d, db, inl e)
  | None =>
      let '(d, loaded) := loadOrCreatePending (cf_NodeID config) (cf_ControllerPublicKey config) ci d in
      match loaded with
      | inl e => (d, db, inl e)
      | inr keys => exchange public config keys ci d db
      end
  end.

(** [LoadIdentity] *)
Definition LoadIdentity (expectedNodeID : string) (readable : bool) (d : directory) :
    string + (KeyPair * list N) :=
  match readable, di_identity d with
  | false, _ | _, Missing => inl "read node identity"
  | _, Malformed => inl "node identity file is invalid or unsupported"
  | true, Holds identity =>
      if negb (it_Version identity =? 1)%Z then inl "node identity file is invalid or unsupported"
      else
        match ValidateIdentifier "node_id" (it_NodeID identity) with
        | Some e => inl e
        | None =>
            if negb (bool_decide (expectedNodeID = "")) && negb (bool_decide (it_NodeID identity = expectedNodeID))
            then inl "node identity belongs to another node"
            else
              match stored_pair identity with
              | inl e => inl e
              | inr keys =>
                  match ParsePublicKey (it_ControllerPublicKey identity) with
                  | inl e => inl e
                  | inr controllerPublic => inr (keys, controllerPublic)
                  end
              end
        end
  end.
End agent.
