(* ===== verification/EnrollmentStore.v ===== *)
(** What an enrollment relies on in the database, and that only operations on
    its node or with its key disturb it. *)
From S2P Require Import Prelude.
From S2P Require Import GoNet.
From S2P Require Import GoCrypto.
From S2P Require Import SpecTypes.
From S2P Require Import SpecCanonical.
From S2P Require Import SpecValidate.
From S2P Require Import Hostname.
From S2P Require Import Health.
From S2P Require Import Capabilities.
From S2P Require Import Meter.
From S2P Require Import Iam.
From S2P Require Import ClusterTypes.
From S2P Require Import ClusterValidate.
From S2P Require Import PlanJson.
From S2P Require Import Scheduler.
From S2P Require Import ClusterCompile.
From S2P Require Import Rollout.
From S2P Require Import ControlDb.
From S2P Require Import ControlNodes.
From S2P Require Import ControlPublish.
From S2P Require Import ControlRollout.
From S2P Require Import ControlStore.
From S2P Require Import ControlVips.
From S2P Require Import ControlSchedule.
From S2P Require Import ControlEnforce.
From S2P Require Import ControlFacts.
From S2P Require Import ControlLedger.
From S2P Require Import ControlHistory.
From S2P Require Import ManagementPlans.

(** * The view of an enrollment *)

(** Nobody has the key. *)
Definition untaken (public : list N) (db : Db) : Prop :=
  db_keys db !! fingerprint_of public = None ∧ ∀ fp k, db_keys db !! fp = Some k → ky_public_key k ≠ public.

Section view.
Context (nodeID : string) (hash : list N).

(** The keys of the node, with whether they are revoked *)
Definition own_key (k : KeyRow) : option (list N * option Time) :=
  if bool_decide (ky_node_id k = nodeID) then Some (ky_public_key k, ky_revoked_at k) else None.
Definition own_keys (db : Db) : gmap string (list N * option Time) := omap own_key (db_keys db).

(** The operations that have nothing to do with the enrollment of the node with
    a key *)
Definition harmless (public : option (list N)) (op : store_op) : Prop :=
  match op with
  | OpDeletePendingNode id | OpRevokeNode id _ => id ≠ nodeID
  | OpCompleteEnrollment id _ key _ =>
      id ≠ nodeID ∧ ∀ p, public = Some p → key ≠ p ∧ fingerprint_of key ≠ fingerprint_of p
  | _ => True
  end.

Context (token : TokenRow) (keys : gmap string (list N * option Time)) (public : option (list N)).

(** The token, the keys of the node, that the node may come in, and a key it may
    come with *)
Record entry (db : Db) : Prop := {
  ey_token : db_tokens db !! hash = Some token;
  ey_keys : own_keys db = keys;
  ey_node : ∃ n, db_nodes db !! nodeID = Some n ∧ nd_revoked_at n = None;
  ey_free p : public = Some p → untaken p db;
}.

Lemma keep_node_alter f id :
  (∀ n, nd_revoked_at (f n) = nd_revoked_at n) → tx_keeps entry (write (on_nodes (alter f id))).
Proof.
  intros Hf. apply keep_write. intros db [Ht Hk (n & Hn & Hr) Hp]. split; [done|done| |done]. cbn.
  destruct (decide (nodeID = id)) as [<-|Hi].
  - exists (f n). by rewrite lookup_alter_eq, Hn, Hf.
  - exists n. by rewrite lookup_alter_ne.
Qed.
Lemma entry_node_insert id row db :
  entry db → (id = nodeID → nd_revoked_at row = None) → entry (on_nodes <[id := row]> db).
Proof.
  intros [Ht Hk (n & Hn & Hr) Hp] Hrow. split; [done|done| |done]. cbn.
  destruct (decide (id = nodeID)) as [->|Hi].
  - exists row. rewrite lookup_insert_eq. auto.
  - exists n. by rewrite lookup_insert_ne.
Qed.

(** Rows of keys that change in nothing that counts *)
Lemma entry_keys_change f db :
  entry db → (∀ fp, own_key <$> f (db_keys db) !! fp = own_key <$> db_keys db !! fp) →
  (∀ fp, ky_public_key <$> f (db_keys db) !! fp = ky_public_key <$> db_keys db !! fp) →
  entry (on_keys f db).
Proof.
  intros [Ht Hk Hn Hp] Hown Hpub. split; [done| |done|].
  - rewrite <- Hk. apply map_eq. intros fp. unfold own_keys. cbn. rewrite !lookup_omap. specialize (Hown fp).
    destruct (f (db_keys db) !! fp), (db_keys db !! fp); cbn in *; congruence.
  - intros p Hpp. destruct (Hp p Hpp) as [H1 H2]. split; cbn.
    + specialize (Hpub (fingerprint_of p)). rewrite H1 in Hpub. by destruct (f (db_keys db) !! _).
    + intros fp k Hfk. specialize (Hpub fp). rewrite Hfk in Hpub.
      destruct (db_keys db !! fp) as [k'|] eqn:Ek; cbn in Hpub; [|done]. injection Hpub as ->. by eapply H2.
Qed.
End view.

Ltac entry_step :=
  first
    [ assumption
    | solve [auto 1 with entries nocore]
    | apply keep_write; intros ? Hdb; exact Hdb
    | apply keep_write; intros ? [? ? ? ?]; split; assumption
    | apply keep_node_alter; intros ?; reflexivity
    | apply keep_node_alter; intros ?; cbv beta; repeat case_match; reflexivity
    | apply tx_attempt
    | tx_step
    | progress cbv zeta
    | match goal with |- tx_keeps _ ?m => let h := head_of m in unfold h; cbv beta zeta end ].
Create HintDb entries.
Ltac entries := repeat entry_step.

Section machine.
Context `{!Idna} `{!MapRange} `{!StateRange} `{!StringRange}.
Context (nodeID : string) (hash : list N) (token : TokenRow) (keys : gmap string (list N * option Time)).
Context (public : option (list N)) (Htoken : tk_node_id token = nodeID).
#[local] Abbreviation P := (entry nodeID hash token keys public).

Lemma publishClusterStageTx_entry id stage now : tx_keeps P (publishClusterStageTx id stage now).
Proof. entries. Qed.
#[local] Hint Resolve publishClusterStageTx_entry : entries.
Lemma create_rollout_entry plan actor action previous detail stages baselines now :
  tx_keeps P (create_rollout plan actor action previous detail stages baselines now).
Proof. entries. Qed.
#[local] Hint Resolve create_rollout_entry : entries.
Lemma schedulePlanTx_entry dns policies plan actor action force previous now :
  tx_keeps P (schedulePlanTx dns policies plan actor action force previous now).
Proof. entries. Qed.
#[local] Hint Resolve schedulePlanTx_entry : entries.


Lemma ensurePendingNodeTx_entry id : tx_keeps P (ensurePendingNodeTx id).
Proof.
  unfold ensurePendingNodeTx. apply tx_read_bind. intros [row|]; [case_match; [apply tx_fail|by intros db [Hdb _]]|].
  intros db [Hdb Hn]. cbn. apply entry_node_insert; [done|]. done.
Qed.
Lemma CreateEnrollmentToken_entry id ttl raw now : tx_keeps P (CreateEnrollmentToken id ttl raw now).
Proof.
  unfold CreateEnrollmentToken. apply keep_bind; [apply checked_keeps|intros []].
  apply keep_bind; [apply keep_require|intros []]. cbv zeta. apply keep_bind; [apply ensurePendingNodeTx_entry|intros _].
  apply keep_bind; [apply keep_read|intros e]. apply keep_bind; [apply keep_require|intros []].
  apply tx_read_bind. intros tokens. eapply tx_bind; [apply tx_lift|]. intros tokens'.
  eapply (tx_bind _ (λ _, P)); [|intros; apply keep_ret]. apply tx_write. intros db [[Hdb Ht] Hnew]. subst tokens.
  unfold insert_new in Hnew. case_match; [done|]. injection Hnew as <-. destruct Hdb as [Htok Hk Hn Hp].
  split; [|done..]. cbn. rewrite lookup_insert_ne; [done|]. congruence.
Qed.

Lemma DeletePendingNode_entry id : id ≠ nodeID → tx_keeps P (DeletePendingNode id).
Proof.
  intros Hid. unfold DeletePendingNode. apply keep_bind; [apply checked_keeps|intros []].
  apply keep_bind; [apply keep_read|intros row]. apply keep_bind; [apply keep_read|intros has].
  case_match; [|apply keep_fail]. case_match; [apply keep_fail|].
  apply keep_bind; [apply keep_read|intros r]. apply keep_bind; [apply keep_require|intros []].
  apply keep_bind; [|intros []; apply keep_bind; [|intros []; entries]].
  - apply keep_write. intros db [Ht Hk (n' & Hn & Hr) Hp]. split; [done|done| |done]. exists n'. cbn.
    by rewrite lookup_delete_ne.
  - apply keep_write. intros db [Ht Hk Hn Hp]. split; [|done..]. cbn.
    apply map_lookup_filter_Some. split; [done|]. cbn. congruence.
Qed.
Lemma RevokeNode_entry id now : id ≠ nodeID → tx_keeps P (RevokeNode id now).
Proof.
  intros Hid. unfold RevokeNode. apply keep_bind; [apply checked_keeps|intros []].
  apply keep_bind; [apply keep_require|intros []]. apply keep_bind; [apply keep_read|intros row].
  case_match; [|apply keep_fail]. apply keep_bind; [|intros []; apply keep_bind; [|intros []]].
  - apply keep_write. intros db Hdb. by apply entry_node_insert.
  - apply keep_write. intros db Hdb. apply entry_keys_change; [done|..]; intros fp; rewrite lookup_fmap;
      destruct (db_keys db !! fp) as [k|]; cbn; try done; case_bool_decide; try done.
    unfold own_key. cbn. by rewrite !bool_decide_eq_false_2 by congruence.
  - apply keep_write. intros db [Ht Hk Hn Hp]. split; [|done..]. cbn.
    apply map_lookup_filter_Some. split; [done|]. cbn. intros [? _]. congruence.
Qed.

(** [live_node] answers a row that is not revoked. *)
Lemma live_node_spec id db row :
  live_node id db = Some row → db_nodes db !! id = Some row ∧ nd_revoked_at row = None.
Proof. unfold live_node. destruct (db_nodes db !! id); [|done]. case_match; [done|]. by intros [= ->]. Qed.
Lemma live_entry {B} id (g : NodeRow → Tx B) :
  (∀ row, nd_revoked_at row = None → tx_keeps P (g row)) →
  tx_keeps P (node ← read (live_node id); node ← the ErrNodeNotFound node; g node).
Proof.
  intros Hg. apply tx_read_bind. intros node db [Hdb Hnode]. revert Hnode. destruct node as [row|]; [|done]. cbn.
  intros Hrow. symmetry in Hrow. apply live_node_spec in Hrow as [_ Hr]. by apply Hg.
Qed.
Lemma RecordHello_entry record : tx_keeps P (RecordHello record).
Proof.
  unfold RecordHello. apply live_entry. intros row Hr. apply keep_bind; [|intros []; apply keep_bind; [entries|intros []]].
  - apply keep_write. intros db Hdb. by apply entry_node_insert.
  - apply keep_write. intros db Hdb. apply entry_keys_change; [done|..]; intros fp;
      (destruct (decide (fp = hr_KeyFingerprint record)) as [->|];
       [rewrite lookup_alter_eq; destruct (db_keys db !! _); cbn; repeat case_bool_decide; done
       |by rewrite lookup_alter_ne]).
Qed.
Lemma RecordHeartbeat_entry id t : tx_keeps P (RecordHeartbeat id t).
Proof.
  unfold RecordHeartbeat. apply live_entry. intros row Hr. apply keep_write. intros db Hdb. by apply entry_node_insert.
Qed.

Lemma insert_key_entry fp row :
  ky_node_id row ≠ nodeID → (∀ p, public = Some p → fp ≠ fingerprint_of p ∧ ky_public_key row ≠ p) →
  tx_keeps P (insert_key fp row).
Proof.
  intros Hrow Hpub. unfold insert_key. apply tx_read_bind. intros keys'.
  eapply tx_bind; [apply tx_require|]. intros []. eapply tx_bind; [apply tx_lift|]. intros keys''.
  apply tx_write. intros db [[[Hdb Hkeys] _] Hnew]. subst keys'. unfold insert_new in Hnew.
  destruct (db_keys db !! fp) eqn:Efp; [done|]. injection Hnew as <-. destruct Hdb as [Ht Hk Hn Hp].
  split; [done| |done|].
  - rewrite <- Hk. apply map_eq. intros i. unfold own_keys. cbn. rewrite !lookup_omap.
    destruct (decide (i = fp)) as [->|]; [|by rewrite lookup_insert_ne].
    rewrite lookup_insert_eq, Efp. cbn. unfold own_key. by rewrite bool_decide_eq_false_2.
  - intros p Hpp. destruct (Hp p Hpp) as [H5 H6], (Hpub p Hpp) as [H7 H8]. split; cbn.
    + by rewrite lookup_insert_ne.
    + intros fp' k [[<- <-]|[_ Hk']]%lookup_insert_Some; [done|by eapply H6].
Qed.
Lemma CompleteEnrollment_entry id tok key now :
  id ≠ nodeID → (∀ p, public = Some p → key ≠ p ∧ fingerprint_of key ≠ fingerprint_of p) →
  tx_keeps P (CompleteEnrollment id tok key now).
Proof.
  intros Hid Hkey. unfold CompleteEnrollment. apply keep_bind; [apply checked_keeps|intros []].
  apply keep_bind; [apply keep_require|intros []]. cbv zeta. apply tx_read_bind. intros row db [Hdb Hrow].
  revert db Hdb Hrow. destruct row as [row|]; [|done].
  case_bool_decide as Hnode; cbn [negb]; [|done]. destruct (tk_used_at row).
  { intros db Hdb _. revert db Hdb. unfold enrolled_before. entries. }
  intros db Hdb Hrow. assert (HashEnrollmentToken tok ≠ hash) as Hhash.
  { intros Heq. rewrite Heq, (ey_token _ _ _ _ _ _ Hdb) in Hrow. congruence. }
  clear Hrow. revert db Hdb. apply keep_bind; [apply keep_require|intros []].
  apply keep_bind; [apply keep_read|intros e]. apply keep_bind; [apply keep_require|intros []].
  apply keep_bind; [|intros []; apply keep_bind; [|intros []; apply keep_ret]].
  - apply keep_write. intros db [Ht Hk Hn Hp]. split; [|done..]. cbn. by rewrite lookup_insert_ne.
  - apply insert_key_entry; [done|]. intros p Hp. split; [apply not_eq_sym|]; try apply (Hkey p Hp).
    intros Heq. by destruct (Hkey p Hp).
Qed.

(** What an enrollment relies on stays under every harmless operation. *)
Lemma perform_entry op : harmless nodeID public op → tx_keeps P (perform op).
Proof.
  destruct op; intros Hop; cbn [perform]; try apply keep_ignoring.
  - unfold EnsurePendingNode. apply keep_bind; [apply checked_keeps|intros []; apply ensurePendingNodeTx_entry].
  - by apply DeletePendingNode_entry.
  - by apply RevokeNode_entry.
  - apply CreateEnrollmentToken_entry.
  - destruct Hop. by apply CompleteEnrollment_entry.
  - apply RecordHello_entry.
  - apply RecordHeartbeat_entry.
  - entries.
  - entries.
  - entries.
  - entries.
  - entries.
  - entries.
  - entries.
  - entries.
  - entries.
  - entries.
  - entries.
  - entries.
Qed.
End machine.
