(* ===== verification/EnrollmentFacts.v ===== *)
(** An enrollment comes to its end, whatever interrupts it. *)
From S2P Require Import Prelude.
From S2P Require Import GoNet.
From S2P Require Import GoCrypto.
From S2P Require Import SpecTypes.
From S2P Require Import SpecCanonical.
From S2P Require Import SpecValidate.
From S2P Require Import SpecChecksum.
From S2P Require Import Hostname.
From S2P Require Import Password.
From S2P Require Import ClusterTypes.
From S2P Require Import ClusterValidate.
From S2P Require Import PlanJson.
From S2P Require Import Scheduler.
From S2P Require Import PlaceFacts.
From S2P Require Import ClusterCompile.
From S2P Require Import Rollout.
From S2P Require Import ControlDb.
From S2P Require Import ControlNodes.
From S2P Require Import ControlFacts.
From S2P Require Import ControlHistory.
From S2P Require Import Enrollment.
From S2P Require Import EnrollmentStore.

(** * Keys and their texts *)
Lemma decode_encode_key k : key_bytes k → decode_key (EncodePublicKey k) = Some k.
Proof.
  intros [Hlen Hb]. unfold decode_key, EncodePublicKey. rewrite chars_of_chars, RawStdDecode_encode by done.
  by rewrite Hlen.
Qed.
Lemma ParsePublicKey_encode k : key_bytes k → ParsePublicKey (EncodePublicKey k) = inr k.
Proof. intros Hk. unfold ParsePublicKey. by rewrite decode_encode_key. Qed.
Lemma length_EncodePublicKey k : length k = KeySize → String.length (EncodePublicKey k) = 43%nat.
Proof.
  intros Hk. unfold EncodePublicKey. rewrite <- length_chars, chars_of_chars, length_raw_encode, Hk. done.
Qed.

Lemma fingerprint_nonempty k : fingerprint_of k ≠ "".
Proof.
  intros E. destruct (Sum256_bytes k) as [Hs Hb], (hex_encode_spec _ Hb) as [Hl _].
  unfold fingerprint_of in E. by rewrite E, Hs in Hl.
Qed.

Definition good_pair `{!Noise} (keys : KeyPair) : Prop :=
  key_bytes (kp_Private keys) ∧ key_bytes (kp_Public keys)
  ∧ X25519_Basepoint (kp_Private keys) = Some (kp_Public keys).

Lemma good_pair_valid `{!Noise} keys : good_pair keys → ValidateKeyPair keys = None.
Proof.
  intros ([H1 _] & [H2 _] & Heq). unfold ValidateKeyPair. rewrite H1, H2. cbn. by rewrite bool_decide_eq_true_2.
Qed.
Lemma stored_pair_new `{!Noise} nodeID keys public t :
  good_pair keys → stored_pair (new_identity nodeID keys public t) = inr keys.
Proof.
  intros Hk. pose proof (good_pair_valid keys Hk) as Hv. destruct keys as [private key], Hk as (H1 & H2 & _).
  unfold stored_pair, decodePrivateKey. cbn [it_PrivateKey it_PublicKey new_identity kp_Private kp_Public] in *.
  rewrite decode_encode_key, ParsePublicKey_encode by done. by rewrite Hv.
Qed.

(** * The size of a request *)
Lemma length_escape_ascii a : (length (Json.escape_ascii a) <= 6)%nat.
Proof. unfold Json.escape_ascii. repeat case_match; cbn; lia. Qed.
Lemma length_escape f l : (length (Json.escape f l) <= 6 * length l)%nat.
Proof.
  revert l. induction f as [|f IH]; intros l; [cbn; lia|]. destruct l as [|a l]; [cbn; lia|].
  cbn [Json.escape]. destruct (Json.utf8_len (a :: l)) as [|[|n]].
  - rewrite length_app. specialize (IH l). cbn [length]. change (length (bytes_of "\ufffd")) with 6%nat. lia.
  - rewrite length_app. specialize (IH l). pose proof (length_escape_ascii a). cbn [length]. lia.
  - rewrite length_app. specialize (IH (drop (S (S n)) (a :: l))). rewrite length_drop in IH.
    assert (length (take (S (S n)) (a :: l)) <= length (a :: l))%nat as Ht by (rewrite length_take; lia).
    cbn [length] in *.
    case_bool_decide as E1; [|case_bool_decide as E2].
    + apply (f_equal length) in E1. rewrite length_take in E1. cbn in E1. change (length (bytes_of "\u2028")) with 6%nat. lia.
    + apply (f_equal length) in E2. rewrite length_take in E2. cbn in E2. change (length (bytes_of "\u2029")) with 6%nat. lia.
    + rewrite length_take. cbn [length]. lia.
Qed.
Lemma length_print_string s : (length (Json.print_string s) <= 6 * String.length s + 2)%nat.
Proof.
  unfold Json.print_string. rewrite !length_app. pose proof (length_escape (length (bytes_of s)) (bytes_of s)) as H.
  unfold bytes_of in *. rewrite length_fmap, length_chars in *. cbn. lia.
Qed.
Lemma marshal_request_size r :
  let total := (String.length (rq_NodeID r) + String.length (rq_Token r) + String.length (rq_PublicKey r)
                + String.length (rq_AgentVersion r))%nat in
  1 ≤ py_size (marshal_request r) ≤ N.of_nat (6 * total + 100).
Proof.
  cbn [marshal_request py_size]. unfold json_request. cbn [Json.print map fst snd Json.intersperse mbind list_bind].
  rewrite !length_app. cbn [length].
  pose proof (length_print_string (rq_NodeID r)). pose proof (length_print_string (rq_Token r)).
  pose proof (length_print_string (rq_PublicKey r)). pose proof (length_print_string (rq_AgentVersion r)).
  change (length (Json.print_string "node_id")) with 9%nat. change (length (Json.print_string "token")) with 7%nat.
  change (length (Json.print_string "public_key")) with 12%nat.
  change (length (Json.print_string "agent_version")) with 15%nat. lia.
Qed.

(** * The Controller completes an enrollment *)
Section service.
Context (nodeID secret : string).
Let hash : list N := HashEnrollmentToken secret.

(** The token has not been used and the node has no key that counts. *)
Definition open (t : TokenRow) (keys : gmap string (list N * option Time)) : Prop :=
  tk_used_at t = None ∧ ∀ fp p, keys !! fp ≠ Some (p, None).
(** The token has been used with a key, and the node has it. *)
Definition registered (public : list N) (t : TokenRow) (keys : gmap string (list N * option Time)) : Prop :=
  is_Some (tk_used_at t) ∧ tk_node_key_fingerprint t = Some (fingerprint_of public)
  ∧ tk_node_public_key t = Some public ∧ keys !! fingerprint_of public = Some (public, None).

Lemma own_keys_lookup db fp k r :
  own_keys nodeID db !! fp = Some (k, r) ↔
  ∃ row, db_keys db !! fp = Some row ∧ ky_node_id row = nodeID ∧ ky_public_key row = k ∧ ky_revoked_at row = r.
Proof.
  unfold own_keys, own_key. rewrite lookup_omap. destruct (db_keys db !! fp) as [row|]; cbn.
  - case_bool_decide as Hn.
    + split; [intros [= <- <-]; by exists row|]. by intros (? & [= <-] & _ & <- & <-).
    + split; [done|]. by intros (? & [= <-] & ? & _).
  - split; [done|]. by intros (? & ? & _).
Qed.
Lemma enrolled_open db : (∀ fp p, own_keys nodeID db !! fp ≠ Some (p, None)) → enrolled nodeID db = false.
Proof.
  intros Hno. apply not_true_is_false. unfold enrolled. intros (kv & Hin & Ha)%existsb_exists.
  destruct kv as [fp row]. apply list_elem_of_In, elem_of_map_to_list in Hin. cbn in Ha.
  apply andb_true_iff in Ha as [H1%bool_decide_eq_true H2%bool_decide_eq_true].
  apply (Hno fp (ky_public_key row)). apply own_keys_lookup. by exists row.
Qed.

Lemma complete_open db t keys public now :
  validIdentifier nodeID = true → length public = KeySize → entry nodeID hash t keys (Some public) db →
  tk_node_id t = nodeID → open t keys → (now < tk_expires_at t)%Z →
  ∃ db' t' keys', CompleteEnrollment nodeID secret public now db
                  = inr (db', MkNodeKeyRecord nodeID (fingerprint_of public) public now)
    ∧ entry nodeID hash t' keys' None db' ∧ tk_node_id t' = nodeID ∧ tk_expires_at t' = tk_expires_at t
    ∧ registered public t' keys'.
Proof.
  intros Hid Hlen [Ht Hk Hn Hp] Hnode [Hused Hno] Hnow. destruct (Hp _ eq_refl) as [Hfree Hfree'].
  unfold CompleteEnrollment, checked, ValidateIdentifier, require_that, read, write, lift, insert_key, insert_new,
    mbind, Tx_bind, mret, Tx_ret. rewrite Hid, Hlen. cbn -[fingerprint_of HashEnrollmentToken].
  fold hash. rewrite Ht, bool_decide_eq_true_2, Hused by done. unfold Time_Before.
  rewrite (proj2 (Z.ltb_lt _ _) Hnow). cbn -[fingerprint_of HashEnrollmentToken].
  rewrite enrolled_open by (by rewrite Hk). cbn -[fingerprint_of HashEnrollmentToken].
  assert (existsb (λ k : string * KeyRow, bool_decide (ky_public_key k.2 = public)) (map_to_list (db_keys db)) = false)
    as ->.
  { apply not_true_is_false. intros ([fp row] & Hin & Hx%bool_decide_eq_true)%existsb_exists.
    apply list_elem_of_In, elem_of_map_to_list in Hin. by apply (Hfree' _ _ Hin). }
  cbn -[fingerprint_of HashEnrollmentToken]. rewrite Hfree. cbn -[fingerprint_of HashEnrollmentToken].
  eexists _, (MkTokenRow nodeID (tk_expires_at t) (Some (CURRENT_TIMESTAMP now)) (Some (fingerprint_of public))
               (Some public)), (<[fingerprint_of public := (public, None)]> keys).
  split; [done|]. split; [|split_and!; try done].
  - split; cbn.
    + fold hash. by rewrite lookup_insert_eq.
    + rewrite <- Hk. apply map_eq. intros fp. unfold own_keys. cbn. rewrite lookup_omap.
      destruct (decide (fp = fingerprint_of public)) as [->|].
      * rewrite !lookup_insert_eq. cbn. unfold own_key. cbn. by rewrite bool_decide_eq_true_2.
      * rewrite !lookup_insert_ne by done. by rewrite lookup_omap.
    + done.
    + done.
  - split_and!; [by eexists|done|done|apply lookup_insert_eq].
Qed.

Lemma complete_registered db t keys public now free :
  validIdentifier nodeID = true → length public = KeySize → entry nodeID hash t keys free db →
  tk_node_id t = nodeID → registered public t keys →
  ∃ created, CompleteEnrollment nodeID secret public now db
             = inr (db, MkNodeKeyRecord nodeID (fingerprint_of public) public created).
Proof.
  intros Hid Hlen [Ht Hk Hn Hp] Hnode ([used Hused] & Hfp & Hpub & Hkey).
  rewrite <- Hk in Hkey. apply own_keys_lookup in Hkey as (row & Hrow & _).
  unfold CompleteEnrollment, checked, ValidateIdentifier, require_that, read, mbind, Tx_bind, mret, Tx_ret.
  rewrite Hid, Hlen. cbn -[fingerprint_of HashEnrollmentToken].
  fold hash. rewrite Ht, bool_decide_eq_true_2, Hused by done. cbn -[fingerprint_of HashEnrollmentToken].
  unfold enrolled_before. rewrite Hfp, Hpub, !bool_decide_eq_true_2 by done. cbn -[fingerprint_of].
  unfold read, the, mbind, Tx_bind, mret, Tx_ret. rewrite Hrow. by eexists.
Qed.

(** A registered key is let in. *)
Lemma registered_authorized db t keys public free :
  length public = KeySize → entry nodeID hash t keys free db → registered public t keys →
  AuthorizeNodeKey nodeID public db = inr (db, tt).
Proof.
  intros Hlen [Ht Hk (n & Hn & Hr) Hp] (_ & _ & _ & Hkey).
  rewrite <- Hk in Hkey. apply own_keys_lookup in Hkey as (row & Hrow & Hnode & Hpub & Hrev).
  unfold AuthorizeNodeKey, require_that, read, mbind, Tx_bind, mret, Tx_ret. rewrite Hlen. cbn -[fingerprint_of].
  rewrite Hn, Hrow. rewrite bool_decide_eq_true_2 by done. cbn. by rewrite Hr, Hrev, Hpub, !bool_decide_eq_true_2.
Qed.

(** A failure of the open enrollment leaves everything. *)
Lemma complete_open_or_not db t keys public now :
  validIdentifier nodeID = true → length public = KeySize → entry nodeID hash t keys (Some public) db →
  tk_node_id t = nodeID → open t keys → (tk_expires_at t ≤ now)%Z →
  CompleteEnrollment nodeID secret public now db = inl ErrInvalidEnrollment.
Proof.
  intros Hid Hlen [Ht Hk Hn Hp] Hnode [Hused Hno] Hnow.
  unfold CompleteEnrollment, checked, ValidateIdentifier, require_that, read, mbind, Tx_bind, mret, Tx_ret.
  rewrite Hid, Hlen. cbn -[fingerprint_of HashEnrollmentToken].
  fold hash. rewrite Ht, bool_decide_eq_true_2, Hused by done. unfold Time_Before.
  by rewrite (proj2 (Z.ltb_ge _ _) Hnow).
Qed.
End service.

(** * An Agent and its Controller *)
Section agent.
Context `{!Noise} {laws : NoiseLaws _}.
Context (config : Config) (public : list N) (expiry : Time).
Let nodeID : string := cf_NodeID config.
Let hash : list N := HashEnrollmentToken (cf_Token config).

(** A configuration that the Controller can accept *)
Record proper : Prop := {
  pr_valid : validateConfig config = None;
  pr_pinned : cf_ControllerPublicKey config = public;
  pr_key : key_bytes public;
  pr_token : (String.length (cf_Token config) <= 256)%nat;
  pr_version : (String.length (cf_AgentVersion config) <= 128)%nat;
}.
Context (Hproper : proper).

(** How far an enrollment has come, in the directory and in the database; a key
    that is not yet the node's must stay free. *)
Inductive standing (t : TokenRow) (keys : gmap string (list N * option Time)) : directory → option (list N) → Prop :=
  | st_fresh : open t keys → standing t keys (MkDirectory Missing Missing) None
  | st_pending k : good_pair k → open t keys →
      standing t keys (MkDirectory Missing (Holds (new_identity nodeID k public 0%Z))) (Some (kp_Public k))
  | st_answered k : good_pair k → registered (kp_Public k) t keys →
      standing t keys (MkDirectory Missing (Holds (new_identity nodeID k public 0%Z))) None
  | st_done k enrolledAt pending : good_pair k → registered (kp_Public k) t keys →
      standing t keys (MkDirectory (Holds (new_identity nodeID k public enrolledAt)) pending) None.

Definition underway (d : directory) (db : Db) : Prop :=
  ∃ t keys free, entry nodeID hash t keys free db ∧ tk_node_id t = nodeID ∧ tk_expires_at t = expiry
                 ∧ standing t keys d free.

Lemma entry_none t keys free db : entry nodeID hash t keys free db → entry nodeID hash t keys None db.
Proof. intros []. by split. Qed.
Lemma entry_some t keys p db :
  entry nodeID hash t keys None db → untaken p db → entry nodeID hash t keys (Some p) db.
Proof. intros [] Hp. split; try done. by intros ? [= <-]. Qed.

Lemma proper_node : validIdentifier nodeID = true.
Proof.
  pose proof (pr_valid Hproper) as Hv. unfold validateConfig, ValidateIdentifier in Hv. fold nodeID in Hv.
  by destruct (validIdentifier nodeID).
Qed.

(** What the Controller makes of a request of the Agent *)
Definition request_of (k : KeyPair) : Request :=
  MkRequest nodeID (cf_Token config) (EncodePublicKey (kp_Public k)) (cf_AgentVersion config).

Lemma process_request k now db :
  good_pair k →
  process public now (marshal_request (request_of k)) db =
  let '(db, record) := transact (CompleteEnrollment nodeID (cf_Token config) (kp_Public k) now) db in
  (db, match record with
       | inl ErrInvalidEnrollment => rejection "enrollment_denied" "enrollment credentials were rejected"
       | inl _ => rejection "enrollment_unavailable" "enrollment is temporarily unavailable"
       | inr record =>
           MkWireResponse true (Some (MkResponse nodeID (nk_Fingerprint record) (EncodePublicKey public)
                                        (Fingerprint public) (nk_CreatedAt record))) "" ""
       end).
Proof.
  intros (Hpriv & Hpub & _). pose proof (marshal_request_size (request_of k)) as [Hlo Hhi].
  pose proof (length_EncodePublicKey _ (proj1 Hpub)) as Hlen.
  pose proof (pr_token Hproper). pose proof (pr_version Hproper).
  assert (String.length nodeID <= 128)%nat as Hid.
  { pose proof proper_node as Hv. unfold validIdentifier in Hv. rewrite <- length_chars.
    destruct (chars nodeID); [done|]. apply andb_true_iff in Hv as [_ Hv%Nat.leb_le]. cbn. lia. }
  cbn [request_of rq_NodeID rq_Token rq_PublicKey rq_AgentVersion] in *.
  unfold process. change (N.shiftl 64 10) with 65536.
  destruct (N.eqb_spec (py_size (marshal_request (request_of k))) 0); [lia|].
  destruct (N.ltb_spec 65536 (py_size (marshal_request (request_of k)))); [lia|]. cbn [orb py_request marshal_request].
  assert (validateRequest (request_of k) = None) as ->; [|cbn [request_of rq_PublicKey]; by rewrite ParsePublicKey_encode].
  unfold validateRequest. cbn [request_of rq_NodeID rq_Token rq_PublicKey rq_AgentVersion]. unfold ValidateIdentifier.
  rewrite proper_node, Hlen. cbn [negb].
  pose proof (pr_valid Hproper) as Hv. unfold validateConfig, ValidateIdentifier in Hv. fold nodeID in Hv.
  rewrite proper_node in Hv. cbn [negb] in Hv. destruct (bool_decide _ || _); [done|].
  destruct ((String.length (cf_Token config) <? 32)%nat || contains_blank (cf_Token config)) eqn:Ht; [done|].
  apply orb_false_iff in Ht as [-> ->].
  destruct (N.ltb_spec 256 (N.of_nat (String.length (cf_Token config)))); [lia|].
  destruct (Nat.ltb_spec 128 (String.length (cf_AgentVersion config))); [lia|]. done.
Qed.

(** The answer of a completed enrollment is accepted: the identity is written,
    as far as the file system goes along. *)
Lemma conclude_completed k ci created pending :
  good_pair k →
  let answer := MkWireResponse true (Some (MkResponse nodeID (fingerprint_of (kp_Public k)) (EncodePublicKey public)
                                             (Fingerprint public) created)) "" "" in
  let d := MkDirectory Missing pending in
  let written := Holds (new_identity nodeID k public created) in
  ∃ d' r, conclude config k ci answer d = (d', r)
    ∧ (d' = d ∨ ∃ pending', d' = MkDirectory written pending')
    ∧ (ci_identity_fault ci = None → ∃ pending', d' = MkDirectory written pending').
Proof.
  intros Hk answer d written. unfold conclude, DecodeResponse, answer. cbn [wr_OK wr_Response negb rs_NodeID rs_NodeKeyFingerprint].
  rewrite (bool_decide_eq_false_2 (nodeID = "")).
  2: { intros E. pose proof proper_node as Hv. by rewrite E in Hv. }
  rewrite (bool_decide_eq_false_2 (fingerprint_of (kp_Public k) = "")).
  2: { apply fingerprint_nonempty. }
  cbn [orb]. unfold checkResponse. cbn [rs_NodeID rs_NodeKeyFingerprint rs_ControllerPublicKey].
  change (Fingerprint (kp_Public k)) with (fingerprint_of (kp_Public k)).
  rewrite !bool_decide_eq_true_2 by done. cbn [negb orb]. rewrite ParsePublicKey_encode by apply (pr_key Hproper).
  unfold sameKey. rewrite bool_decide_eq_true_2 by by rewrite (pr_pinned Hproper).
  fold nodeID. rewrite (pr_pinned Hproper). cbn [rs_EnrolledAt].
  unfold WriteAtomic. destruct (ci_identity_fault ci) as [c|]; cbn.
  - eexists _, _. split; [done|]. split; [|done]. destruct (renamed_before c); [right; by eexists|by left].
  - eexists _, _. split; [done|]. assert (∃ pending', (if ci_remove ci then MkDirectory written Missing
      else MkDirectory written pending) = MkDirectory written pending') as Hw by (destruct (ci_remove ci); by eexists).
    split; [by right|by intros _].
Qed.

Lemma conclude_rejected k ci code message d :
  ∃ e, conclude config k ci (rejection code message) d = (d, inl e).
Proof. unfold conclude, DecodeResponse, rejection. cbn. by eexists. Qed.

(** The identity is written and the Controller lets it in. *)
Definition enrolled_as (k : KeyPair) (d : directory) (db : Db) : Prop :=
  (∃ enrolledAt, di_identity d = Holds (new_identity nodeID k public enrolledAt))
  ∧ AuthorizeNodeKey nodeID (kp_Public k) db = inr (db, tt).

Definition kept_pair (k : KeyPair) : directory := MkDirectory Missing (Holds (new_identity nodeID k public 0%Z)).

(** After the Controller has registered the key, in this exchange or before *)
Lemma exchange_registered k ci db db' t keys free created :
  good_pair k → entry nodeID hash t keys free db' → tk_node_id t = nodeID → tk_expires_at t = expiry →
  registered (kp_Public k) t keys →
  CompleteEnrollment nodeID (cf_Token config) (kp_Public k) (ci_now ci) db
    = inr (db', MkNodeKeyRecord nodeID (fingerprint_of (kp_Public k)) (kp_Public k) created) →
  ci_request ci = true →
  let '(d', db'', r) := exchange public config k ci (kept_pair k) db in
  underway d' db''
  ∧ (ci_response ci = true → ci_identity_fault ci = None → enrolled_as k d' db'').
Proof.
  intros Hk Hentry Hnode Hexp Hreg Hrun Hreq. unfold exchange. fold nodeID.
  change (MkRequest nodeID (cf_Token config) (EncodePublicKey (kp_Public k)) (cf_AgentVersion config))
    with (request_of k).
  rewrite Hreq, (bool_decide_eq_true_2 (cf_ControllerPublicKey config = public)) by apply (pr_pinned Hproper).
  cbn [negb orb]. rewrite process_request by done. unfold transact. rewrite Hrun. cbn [nk_Fingerprint nk_CreatedAt].
  apply entry_none in Hentry.
  destruct (ci_response ci) eqn:Hresp; cbn [negb].
  - destruct (conclude_completed k ci created (Holds (new_identity nodeID k public 0%Z)) Hk) as (d' & r & Hc & Hd & Hd').
    change (MkDirectory Missing (Holds (new_identity nodeID k public 0%Z))) with (kept_pair k) in Hc.
    rewrite Hc. split.
    + exists t, keys, None. split_and!; [done..|]. destruct Hd as [->|[pending' ->]]; by constructor.
    + intros _ Hfault. destruct (Hd' Hfault) as [pending' ->]. split; [by eexists|].
      destruct Hk as (_ & [Hlen _] & _). by eapply registered_authorized.
  - split; [|done]. exists t, keys, None. split_and!; [done..|]. by constructor.
Qed.

Lemma exchange_underway k ci db t keys free :
  good_pair k → entry nodeID hash t keys free db → tk_node_id t = nodeID → tk_expires_at t = expiry →
  (open t keys ∧ free = Some (kp_Public k) ∨ registered (kp_Public k) t keys ∧ free = None) →
  let '(d', db', r) := exchange public config k ci (kept_pair k) db in
  underway d' db'
  ∧ (ci_request ci = true → ci_response ci = true → ci_identity_fault ci = None → (ci_now ci < expiry)%Z →
     enrolled_as k d' db').
Proof.
  intros Hk Hentry Hnode Hexp Hst. pose proof Hk as (_ & [Hlen _] & _).
  assert (underway (kept_pair k) db) as Hhere.
  { exists t, keys, free. split_and!; [done..|]. destruct Hst as [[? ->]|[? ->]]; by constructor. }
  destruct (ci_request ci) eqn:Hreq; [|unfold exchange; rewrite Hreq; cbn; by split].
  destruct Hst as [[Hopen ->]|[Hreg ->]].
  - destruct (Z_lt_le_dec (ci_now ci) expiry) as [Hlt|Hge].
    + destruct (complete_open nodeID (cf_Token config) db t keys (kp_Public k) (ci_now ci))
        as (db' & t' & keys' & Hrun & He & Hn' & Hx & Hr); try done; [apply proper_node|by rewrite Hexp|].
      rewrite Hexp in Hx.
      pose proof (exchange_registered k ci db db' t' keys' None (ci_now ci) Hk He Hn' Hx Hr Hrun Hreq) as Hex.
      destruct (exchange _ _ _ _ _ _) as [[d' db''] r]. destruct Hex. auto.
    + assert (CompleteEnrollment nodeID (cf_Token config) (kp_Public k) (ci_now ci) db = inl ErrInvalidEnrollment)
        as Hrun by (eapply complete_open_or_not; try done; [apply proper_node|by rewrite Hexp]).
      unfold exchange. fold nodeID.
      change (MkRequest nodeID (cf_Token config) (EncodePublicKey (kp_Public k)) (cf_AgentVersion config))
        with (request_of k).
      rewrite Hreq, (bool_decide_eq_true_2 (cf_ControllerPublicKey config = public)) by apply (pr_pinned Hproper).
      cbn [negb orb]. rewrite process_request by done. unfold transact. rewrite Hrun.
      destruct (ci_response ci); cbn [negb]; [|split; [done|lia]].
      destruct (conclude_rejected k ci "enrollment_denied" "enrollment credentials were rejected" (kept_pair k))
        as [e ->]. split; [done|lia].
  - destruct (complete_registered nodeID (cf_Token config) db t keys (kp_Public k) (ci_now ci) None)
      as [created Hrun]; try done; [apply proper_node|].
    pose proof (exchange_registered k ci db db t keys None created Hk Hentry Hnode Hexp Hreg Hrun Hreq) as Hex.
    destruct (exchange _ _ _ _ _ _) as [[d' db''] r]. destruct Hex. auto.
Qed.

(** An enrollment that nothing interrupts, before the token expires *)
Record undisturbed (ci : Circumstances) : Prop := {
  un_mkdir : ci_mkdir ci = true;
  un_stat : ci_stat ci = true;
  un_read : ci_read ci = true;
  un_pending : ci_pending_fault ci = None;
  un_request : ci_request ci = true;
  un_response : ci_response ci = true;
  un_identity : ci_identity_fault ci = None;
  un_time : (ci_now ci < expiry)%Z;
}.

Lemma pending_pair_kept k : good_pair k → pending_pair nodeID public (new_identity nodeID k public 0%Z) = inr k.
Proof.
  intros Hk. unfold pending_pair. cbn [new_identity it_Version it_NodeID it_ControllerPublicKey].
  rewrite bool_decide_eq_true_2 by done. cbn [negb orb Z.eqb Pos.eqb].
  rewrite ParsePublicKey_encode by apply (pr_key Hproper). unfold sameKey. rewrite bool_decide_eq_true_2 by done.
  by apply stored_pair_new.
Qed.

Lemma Enroll_underway ci d db :
  underway d db → untaken (kp_Public (GenerateKeypair (ci_random ci))) db →
  let '(d', db', r) := Enroll public config ci d db in
  underway d' db' ∧ (undisturbed ci → ∃ k, good_pair k ∧ enrolled_as k d' db').
Proof.
  intros (t & keys & free & Hentry & Hnode & Hexp & Hst) Hnew. unfold Enroll. rewrite (pr_valid Hproper).
  fold nodeID. rewrite (pr_pinned Hproper). unfold loadOrCreatePending.
  assert (underway d db) as Hhere by (by exists t, keys, free).
  destruct (ci_mkdir ci) eqn:H1; [|cbn; split; [done|intros []; congruence]].
  destruct (ci_stat ci) eqn:H2; [|cbn; split; [done|intros []; congruence]]. cbn [negb].
  assert (∀ k, good_pair k → d = kept_pair k →
    (open t keys ∧ free = Some (kp_Public k) ∨ registered (kp_Public k) t keys ∧ free = None) →
    let '(d', db', r) := exchange public config k ci (kept_pair k) db in
    underway d' db' ∧ (undisturbed ci → ∃ k, good_pair k ∧ enrolled_as k d' db')) as Hgo.
  { intros k Hk -> Hor. pose proof (exchange_underway k ci db t keys free Hk Hentry Hnode Hexp Hor) as Hex.
    destruct (exchange _ _ _ _ _ _) as [[d' db'] r]. destruct Hex as [Hu Hdone]. split; [done|].
    intros []. exists k. split; [done|]. auto. }
  destruct Hst as [Hopen|k Hk Hopen|k Hk Hreg|k enrolledAt pending Hk Hreg]; cbn [di_identity di_pending].
  - destruct (ci_read ci) eqn:H3; [|cbn; split; [done|intros []; congruence]]. cbn [negb].
    set (k := GenerateKeypair (ci_random ci)) in *. assert (good_pair k) as Hk by apply generated.
    assert (entry nodeID hash t keys (Some (kp_Public k)) db) as Hentry' by by apply entry_some.
    unfold WriteAtomic. destruct (ci_pending_fault ci) as [c|] eqn:H4; cbn -[exchange].
    + split; [|intros []; congruence]. destruct (renamed_before c); [|done].
      exists t, keys, (Some (kp_Public k)). split_and!; [done..|]. by constructor.
    + pose proof (exchange_underway k ci db t keys (Some (kp_Public k)) Hk Hentry' Hnode Hexp) as Hex.
      change (set_pending (Holds (new_identity nodeID k public 0%Z)) (MkDirectory Missing Missing)) with (kept_pair k).
      destruct (exchange _ _ _ _ _ _) as [[d' db'] r]. destruct Hex as [Hu Hdone]; [by left|]. split; [done|].
      intros []. exists k. split; [done|]. auto.
  - destruct (ci_read ci) eqn:H3; [|cbn; split; [done|intros []; congruence]]. cbn [negb].
    rewrite pending_pair_kept by done. apply Hgo; [done|done|by left].
  - destruct (ci_read ci) eqn:H3; [|cbn; split; [done|intros []; congruence]]. cbn [negb].
    rewrite pending_pair_kept by done. apply Hgo; [done|done|by right].
  - split; [done|]. intros _. exists k. split; [done|]. split; [by eexists|].
    destruct Hk as (_ & [Hlen _] & _). by eapply registered_authorized.
Qed.

Lemma enrolled_as_loads k d db : good_pair k → enrolled_as k d db → LoadIdentity nodeID true d = inr (k, public).
Proof.
  intros Hk [[enrolledAt Hd] _]. unfold LoadIdentity. rewrite Hd.
  cbn [new_identity it_Version it_NodeID it_ControllerPublicKey]. unfold ValidateIdentifier.
  rewrite proper_node, (bool_decide_eq_true_2 (nodeID = nodeID)) by done. cbn [negb Z.eqb Pos.eqb].
  rewrite andb_false_r, stored_pair_new by done. by rewrite ParsePublicKey_encode by apply (pr_key Hproper).
Qed.

Section store.
Context `{!Idna} `{!MapRange} `{!StateRange} `{!StringRange}.

(** The key a directory holds for the enrollment *)
Definition pending_key (d : directory) : option (list N) :=
  match di_pending d with Holds identity => decode_key (it_PublicKey identity) | _ => None end.

(** What happens to an enrollment: the Agent tries, whatever becomes of it, with
    a key nobody has if it makes one; and anything that the Controller does and
    that has nothing to do with the enrollment of this node *)
Inductive life_step : directory * Db → directory * Db → Prop :=
  | life_attempt ci d db d' db' r :
      untaken (kp_Public (GenerateKeypair (ci_random ci))) db →
      Enroll public config ci d db = (d', db', r) → life_step (d, db) (d', db')
  | life_store op d db :
      harmless nodeID (pending_key d) op → life_step (d, db) (d, (transact (perform op) db).1).

Lemma life_underway x y : life_step x y → underway x.1 x.2 → underway y.1 y.2.
Proof.
  intros [ci d db d' db' r Hnew Hrun|op d db Hop] Hu; cbn in *.
  - pose proof (Enroll_underway ci d db Hu Hnew) as He. rewrite Hrun in He. by destruct He.
  - destruct Hu as (t & keys & free & Hentry & Hnode & Hexp & Hst).
    exists t, keys, free. split_and!; [|done..]. apply transact_keeps; [|done]. apply perform_entry; [done|].
    assert (∀ q, free = Some q → pending_key d = Some q) as Hfree.
    { destruct Hst as [|k Hk| |]; try done. intros q [= <-]. cbn. apply decode_encode_key. by destruct Hk as (_ & ? & _). }
    destruct op; cbn in *; try done. destruct Hop as [Hid Hkey]. split; [done|]. intros q Hq. apply Hkey. by apply Hfree.
Qed.
Lemma rtc_underway x y : rtc life_step x y → underway x.1 x.2 → underway y.1 y.2.
Proof. induction 1 as [|x y z Hxy _ IH]; [done|]. intros Hx. by eapply IH, life_underway. Qed.
End store.
End agent.

(** * The theorem *)

Lemma ensurePendingNodeTx_live id db db' b :
  ensurePendingNodeTx id db = inr (db', b) → ∃ n, db_nodes db' !! id = Some n ∧ nd_revoked_at n = None.
Proof.
  unfold ensurePendingNodeTx, read, write, mbind, Tx_bind, mret, Tx_ret.
  destruct (db_nodes db !! id) as [row|] eqn:Hn; cbn.
  - destruct (nd_revoked_at row) eqn:Hr; [done|]. intros [= <- _]. eauto.
  - intros [= <- _]. cbn. exists NodeRowDefault. by rewrite lookup_insert_eq.
Qed.

(** A token that was created for the node *)
Lemma created_underway `{!Noise} config public nodeID ttl raw now db db' token expiry :
  cf_NodeID config = nodeID → cf_Token config = token →
  CreateEnrollmentToken nodeID ttl raw now db = inr (db', (token, expiry)) →
  underway config public expiry (MkDirectory Missing Missing) db'.
Proof.
  intros <- Htok. unfold CreateEnrollmentToken, checked, require_that, read, write, lift, insert_new, mbind, Tx_bind,
    mret, Tx_ret. destruct (ValidateIdentifier _ _); [done|]. cbn. destruct (negb _); [|done]. cbn.
  destruct (ensurePendingNodeTx (cf_NodeID config) db) as [e|[db1 b]] eqn:He; [done|]. cbn.
  destruct (enrolled (cf_NodeID config) db1) eqn:Hen; [done|]. cbn -[HashEnrollmentToken].
  destruct (db_tokens db1 !! HashEnrollmentToken (EncodeToString raw)); [done|]. cbn -[HashEnrollmentToken].
  intros [= <- Ht <-]. set (db' := on_tokens _ db1). rewrite <- Htok in Ht.
  eexists (MkTokenRow (cf_NodeID config) (Time_Add now ttl) None None None), (own_keys (cf_NodeID config) db1), None.
  split_and!; [|done|done|].
  - split; try done.
    + cbn -[HashEnrollmentToken]. rewrite Ht. apply lookup_insert_eq.
    + apply (ensurePendingNodeTx_live _ _ _ _ He).
  - constructor. split; [done|]. intros fp p Hin. apply own_keys_lookup in Hin as (row & Hrow & Hn & _ & Hr).
    assert (enrolled (cf_NodeID config) db1 = true); [|congruence]. unfold enrolled. apply existsb_exists.
    exists (fp, row). split; [by apply list_elem_of_In, elem_of_map_to_list|]. unfold active_key. cbn.
    by rewrite !bool_decide_eq_true_2.
Qed.

Section completes.
Context `{!Noise} {laws : NoiseLaws _} `{!Idna} `{!MapRange} `{!StateRange} `{!StringRange}.

(** C7. An enrollment comes to its end. Once the Controller has created a token
    for a node, an Agent that holds it may try to enroll as often as it likes;
    every try may break off anywhere (a file that cannot be written or not be
    synced, a request or an answer that is lost, a crash) and anything else may
    happen in the Controller in between. The first try before the token expires
    that nothing disturbs leaves an identity that loads, with the Controller's
    key, and whose own key the Controller lets in. *)
Theorem enrollment_completes config public ttl raw now db0 db1 token expiry d db ci :
  proper config public → cf_Token config = token →
  CreateEnrollmentToken (cf_NodeID config) ttl raw now db0 = inr (db1, (token, expiry)) →
  rtc (life_step config public) (MkDirectory Missing Missing, db1) (d, db) →
  undisturbed expiry ci → untaken (kp_Public (GenerateKeypair (ci_random ci))) db →
  let '(d', db', _) := Enroll public config ci d db in
  ∃ keys, LoadIdentity (cf_NodeID config) true d' = inr (keys, public)
          ∧ AuthorizeNodeKey (cf_NodeID config) (kp_Public keys) db' = inr (db', tt).
Proof.
  intros Hp Htok Hcreate Hlife Hci Hnew.
  assert (underway config public expiry d db) as Hu.
  { apply (rtc_underway config public expiry Hp _ _ Hlife). by eapply created_underway. }
  pose proof (Enroll_underway config public expiry Hp ci d db Hu Hnew) as He.
  destruct (Enroll _ _ _ _ _) as [[d' db'] r]. destruct He as [_ Hdone].
  destruct (Hdone Hci) as (k & Hk & Has). exists k. split; [by eapply enrolled_as_loads|]. by destruct Has.
Qed.
End completes.

(** * An Agent that does not get its first answer *)
Definition sample_noise : Noise :=
  MkNoise (λ random, let private := SHA256.Sum256 random in MkKeyPair private (SHA256.Sum256 (private ++ [1])))
    (λ private, Some (SHA256.Sum256 (private ++ [1]))).
Lemma sample_noise_laws : NoiseLaws sample_noise.
Proof. split. intros random. cbn. split_and!; [apply Sum256_bytes..|done]. Qed.

Definition untaken_check (public : list N) (db : Db) : bool :=
  bool_decide (db_keys db !! fingerprint_of public = None)
  && forallb (λ k : string * KeyRow, negb (bool_decide (ky_public_key k.2 = public))) (map_to_list (db_keys db)).
Lemma untaken_checked public db : untaken_check public db = true → untaken public db.
Proof.
  intros [H1%bool_decide_eq_true H2]%andb_true_iff. split; [done|]. intros fp k Hk.
  rewrite forallb_forall in H2. specialize (H2 (fp, k)). cbn in H2.
  apply negb_true_iff, bool_decide_eq_false in H2; [done|]. by apply list_elem_of_In, elem_of_map_to_list.
Qed.

Section sample.
#[local] Instance enrollment_noise : Noise := sample_noise.
#[local] Instance enrollment_laws : NoiseLaws sample_noise := sample_noise_laws.
#[local] Instance enrollment_idna : Idna := ascii_idna.
#[local] Instance enrollment_nodes : MapRange := some_range.
#[local] Instance enrollment_states : StateRange := some_states.
#[local] Instance enrollment_strings : StringRange := elements.

Definition enrollment_time : Time := (1000 * Second)%Z.
Definition enrollment_created : Db * (store_error + (string * Time)) :=
  transact (CreateEnrollmentToken "node-a" Hour (repeat 7 32) enrollment_time) DbEmpty.
Definition enrollment_secret : string := EncodeToString (repeat 7 32).
Definition controller_public : list N := kp_Public (GenerateKeypair [9]).
Definition enrollment_config : Config :=
  MkConfig "controller.example:7443" "node-a" enrollment_secret controller_public "/var/lib/flux-agent/identity" "v1".
Definition met (random : N) (response : bool) : Circumstances :=
  MkCircumstances true true true [random] None true response (Time_Add enrollment_time Minute) None true.
Definition lost_answer : directory * Db * (string + Response) :=
  Enroll controller_public enrollment_config (met 1 false) (MkDirectory Missing Missing) enrollment_created.1.

Example second_try :
  let '(_, db', r) := Enroll controller_public enrollment_config (met 2 true) lost_answer.1.1 lost_answer.1.2 in
  (lost_answer.2, match r with inr response => rs_NodeID response | inl e => e end, size (db_keys db'))
  = (inl "receive enrollment response", "node-a", 1%nat).
Proof. vm_compute. reflexivity. Qed.

Lemma enrollment_completes_witness :
  let '(d', db', _) := Enroll controller_public enrollment_config (met 2 true) lost_answer.1.1 lost_answer.1.2 in
  ∃ keys, LoadIdentity "node-a" true d' = inr (keys, controller_public)
          ∧ AuthorizeNodeKey "node-a" (kp_Public keys) db' = inr (db', tt).
Proof.
  apply (enrollment_completes enrollment_config controller_public Hour (repeat 7 32) enrollment_time DbEmpty
           enrollment_created.1 enrollment_secret (Time_Add enrollment_time Hour)).
  - assert (key_bytes controller_public) as Hk by apply Sum256_bytes.
    split; [vm_compute; reflexivity|done|exact Hk|cbn; lia..].
  - done.
  - vm_compute. reflexivity.
  - apply rtc_once, (life_attempt _ _ (met 1 false) _ _ _ _ lost_answer.2).
    + apply untaken_checked. vm_compute. reflexivity.
    + change (lost_answer = (lost_answer.1.1, lost_answer.1.2, lost_answer.2)). by rewrite <- !surjective_pairing.
  - by split.
  - apply untaken_checked. vm_compute. reflexivity.
Defined.
End sample.
