(* ===== verification/Executors.v ===== *)
(** The executors that run the tools of the kernel for the Reconciler:
    [internal/dataplane/nft/executor.go] and [internal/dataplane/tc/executor.go].

    The tools themselves are the parameter [Runner]: what a command answers may
    depend on every command and answer before it. An executor returns its result
    and the history with its own commands. The value a tool's output has as JSON
    comes with its text; its numbers are natural. The messages of errors name
    the operation and leave out the text of stderr they quote. *)
From S2P Require Import Prelude.
From S2P Require Import GoNet.
From S2P Require Import GoCrypto.
From S2P Require Import SpecTypes.
From S2P Require Import SpecChecksum.
From S2P Require Import Hostname.
From S2P Require Import Rollout.
From S2P Require Import FabricCompiler.
From S2P Require Import NftCompiler.
From S2P Require Import TcCompiler.
From S2P Require Import Reconciler.

(** * Running a tool *)
Record command := MkCommand { cm_path : string; cm_args : list string; cm_stdin : string }.
Record output := MkOutput {
  out_stdout : string;
  out_json : option json;       (** what [json.Unmarshal] reads in it *)
  out_stderr : string;
  out_err : option error;
}.
Definition history := list (command * output).
Class Runner := Run : history → command → output.

Definition Exec (A : Type) : Type := history → history * (error + A).
#[export] Instance Exec_ret : MRet Exec := λ A a h, (h, inr a).
#[export] Instance Exec_bind : MBind Exec := λ A B f m h,
  match m h with (h, inl e) => (h, inl e) | (h, inr a) => f a h end.
Definition fail {A} (e : error) : Exec A := λ h, (h, inl e).
Definition lift {A} (r : error + A) : Exec A := λ h, (h, r).
Definition run `{!Runner} (c : command) : Exec output :=
  λ h, let o := Run h c in (h ++ [(c, o)], inr o).
(** [for _, x := range l { if err := f(x); err != nil { return err } }] *)
Fixpoint each {A} (f : A → Exec unit) (l : list A) : Exec unit :=
  match l with [] => mret tt | x :: l => f x ≫= λ _, each f l end.
(** The same, with what the body appends to a batch *)
Fixpoint collect {A B} (f : A → Exec (list B)) (l : list A) : Exec (list B) :=
  match l with
  | [] => mret []
  | x :: l => f x ≫= λ y, collect f l ≫= λ ys, mret (y ++ ys)
  end.

Definition commandError (operation : string) (e : error) : error := Wrap operation e.
(** A command that must succeed *)
Definition must `{!Runner} (operation : string) (c : command) : Exec output :=
  o ← run c; match out_err o with Some e => fail (commandError operation e) | None => mret o end.

(** An operation as the Reconciler calls it *)
Definition unit_result (m : Exec unit) (h : history) : history * option error :=
  match m h with (h, inl e) => (h, Some e) | (h, inr tt) => (h, None) end.

(** * Text *)
Definition contains (sub s : string) : bool := bool_decide (is_Some (String.index 0 sub s)).
Definition has_prefix (prefix s : string) : bool := String.prefix prefix s.
(** [strings.TrimPrefix], [strings.TrimSuffix] *)
Definition trim_prefix (prefix s : string) : string :=
  if has_prefix prefix s then of_chars (drop (String.length prefix) (chars s)) else s.
(** [strings.SplitN(s, sep, 2)] in two parts *)
Definition cut (sep s : string) : option (string * string) :=
  i ← String.index 0 sep s;
  Some (of_chars (take i (chars s)), of_chars (drop (i + String.length sep) (chars s))).
Definition split (sep : ascii) (s : string) : list string := of_chars <$> split_at sep (chars s) [].
Definition line_break : ascii := Strings.Ascii.ascii_of_N 10.

(** [strings.Fields] *)
Fixpoint fields_from (fuel : nat) (l word : list N) : list (list N) :=
  let ended := match word with [] => [] | _ => [rev word] end in
  match fuel, l with
  | S fuel, b :: rest =>
      match skip_one spaces l with
      | Some rest => ended ++ fields_from fuel rest []
      | None => fields_from fuel rest (b :: word)
      end
  | _, _ => ended
  end.
Definition fields (s : string) : list string :=
  let l := bytes_of s in to_string <$> fields_from (S (length l)) l [].

(** [strconv.Atoi] of a text that may be no number *)
Definition parse_int (s : string) : option Z :=
  let '(sign, l) := match chars s with
                    | "-"%char :: l => ((-1)%Z, l)
                    | "+"%char :: l => (1%Z, l)
                    | l => (1%Z, l)
                    end in
  match l with
  | [] => None
  | _ => n ← digits_val l 0;
         let z := (sign * Z.of_N n)%Z in
         if (- 2 ^ 63 <=? z)%Z && (z <=? 2 ^ 63 - 1)%Z then Some z else None
  end.

(** * [json.Unmarshal] into a struct: the last of the members of a name, in any
    case of letters; [null] and an absent member leave the zero value *)
Definition members (v : json) : option (list (string * json)) :=
  match v with JObj l => Some l | JNull => Some [] | _ => None end.
Definition member (name : string) (l : list (string * json)) : json :=
  default JNull (snd <$> last (filter (λ kv, ToLower kv.1 = name) l)).
Definition json_string (v : json) : option string :=
  match v with JStr s => Some s | JNull => Some "" | _ => None end.
Definition json_uint (w : N) (v : json) : option N :=
  match v with JNum n => if n <? 2 ^ w then Some n else None | JNull => Some 0 | _ => None end.
Definition json_list (v : json) : option (list json) :=
  match v with JArr l => Some l | JNull => Some [] | _ => None end.

(** * nft *)
Module NftExecutor.
Record Executor := MkExecutor { path : string }.
Definition NewExecutor (path : string) : string + Executor :=
  if bool_decide (TrimSpace path = "") then inl "nft executable path must not be empty" else inr (MkExecutor path).

Definition parseTableComment (comment : string) : option (N * string * string) :=
  let prefix := "managed-by=flux;generation=" in
  if negb (has_prefix prefix comment) then None
  else
    '(number, checksums) ← cut ";desired=" (trim_prefix prefix comment);
    '(desired, program) ← cut ";program=" checksums;
    if negb (ValidChecksum desired) || negb (ValidChecksum program) then None
    else
      generation ← ParseUint 64 number;
      if generation =? 0 then None else Some (generation, desired, program).

(** What the metadata counters said so far *)
Record metadata := MkMetadata {
  md_generation : option N; md_desired : option string; md_program : option string }.
(** One counter; [None] when it is malformed or the second of its kind *)
Definition read_metadata (name : string) (m : metadata) : option metadata :=
  if has_prefix "flux_generation_" name then
    if md_generation m is Some _ then None
    else
      parsed ← ParseUint 64 (trim_prefix "flux_generation_" name);
      if parsed =? 0 then None else Some (MkMetadata (Some parsed) (md_desired m) (md_program m))
  else if has_prefix "flux_desired_" name then
    if md_desired m is Some _ then None
    else let value := trim_prefix "flux_desired_" name in
         if ValidChecksum value then Some (MkMetadata (md_generation m) (Some value) (md_program m)) else None
  else if has_prefix "flux_program_" name then
    if md_program m is Some _ then None
    else let value := trim_prefix "flux_program_" name in
         if ValidChecksum value then Some (MkMetadata (md_generation m) (md_desired m) (Some value)) else None
  else Some m.
Fixpoint read_all (names : list string) (m : metadata) : option metadata :=
  match names with [] => Some m | name :: names => m ← read_metadata name m; read_all names m end.
(** The values named, and whether all three are there *)
Definition parseMetadataCounters (counters : list RawCounter) : N * string * string * bool :=
  match read_all (map rc_Name counters) (MkMetadata None None None) with
  | None => (0, "", "", false)
  | Some m =>
      (default 0 (md_generation m), default "" (md_desired m), default "" (md_program m),
       match m with MkMetadata (Some _) (Some _) (Some _) => true | _ => false end)
  end.

Section nft.
Context `{!Runner} (e : Executor).

Definition nft (args : list string) (stdin : string) : command := MkCommand (path e) args stdin.
(** The entries of [{"nftables": [...]}] *)
Definition entries (o : output) : option (list json) :=
  v ← out_json o; l ← members v; json_list (member "nftables" l).

(** One entry of the counters: none when it is another table's *)
Definition counter_entry (raw : json) : option (option RawCounter) :=
  l ← members raw;
  match member "counter" l with
  | JNull => Some None
  | v =>
      c ← members v;
      family ← json_string (member "family" c); table ← json_string (member "table" c);
      name ← json_string (member "name" c);
      packets ← json_uint 64 (member "packets" c); bytes ← json_uint 64 (member "bytes" c);
      Some (if bool_decide (family = Nft.TableFamily) && bool_decide (table = Nft.TableName)
            then Some (Build_RawCounter name packets bytes) else None)
  end.
Definition ReadCounters : Exec (list RawCounter) :=
  o ← must "read nft counters" (nft ["-j"; "list"; "counters"] "");
  match entries o with
  | None => fail (Plain "decode nft counters")
  | Some l => match mapM counter_entry l with
              | None => fail (Plain "decode nft counter entry")
              | Some counters => mret (omap id counters)
              end
  end.

(** One entry of the tables: the comment of the table of the program *)
Definition table_entry (raw : json) : option (option string) :=
  l ← members raw;
  match member "table" l with
  | JNull => Some None
  | v =>
      t ← members v;
      family ← json_string (member "family" t); name ← json_string (member "name" t);
      comment ← json_string (member "comment" t);
      Some (if bool_decide (family = Nft.TableFamily) && bool_decide (name = Nft.TableName)
            then Some comment else None)
  end.
Definition not_installed : InstalledState := Build_InstalledState false false 0 "" "".
Definition found_table (comment : string) : Exec InstalledState :=
  match parseTableComment comment with
  | Some (generation, desired, program) => mret (Build_InstalledState true true generation desired program)
  | None => λ h,
      match ReadCounters h with
      | (h, inl e) => (h, inl (Wrap "inspect metadata counters" e))
      | (h, inr counters) =>
          let '(generation, desired, program, managed) := parseMetadataCounters counters in
          (h, inr (Build_InstalledState true managed generation desired program))
      end
  end.
Fixpoint find_table (l : list json) : Exec InstalledState :=
  match l with
  | [] => mret not_installed
  | raw :: l => match table_entry raw with
                | None => fail (Plain "decode nft table entry")
                | Some None => find_table l
                | Some (Some comment) => found_table comment
                end
  end.
Definition Inspect : Exec InstalledState :=
  o ← must "inspect tables" (nft ["-j"; "list"; "tables"] "");
  match entries o with None => fail (Plain "decode nft table list") | Some l => find_table l end.

Definition Check (script : string) : Exec unit :=
  _ ← must "preflight nft program" (nft ["-c"; "-f"; "-"] script); mret tt.
Definition Apply (script : string) : Exec unit :=
  _ ← must "apply nft program" (nft ["-f"; "-"] script); mret tt.
End nft.
End NftExecutor.

(** * tc *)
Module TcExecutor.
Record Executor := MkExecutor { tcPath : string; ipPath : string }.
Definition NewExecutor (tcPath ipPath : string) : string + Executor :=
  if bool_decide (TrimSpace tcPath = "") || bool_decide (TrimSpace ipPath = "")
  then inl "tc and ip executable paths must not be empty" else inr (MkExecutor tcPath ipPath).

Definition quoted_by (q : ascii) (l : list ascii) : bool :=
  bool_decide (head l = Some q) && bool_decide (last l = Some q).
Definition missingDeviceName (line : string) : string :=
  let line := ToLower (TrimSpace line) in
  let line := TrimSpace (trim_prefix "error:" line) in
  if negb (has_prefix "cannot find device " line) then ""
  else
    let name := TrimSpace (TrimSuffix (trim_prefix "cannot find device " line) ".") in
    let l := chars name in
    if (2 <=? length l)%nat && (quoted_by (Strings.Ascii.ascii_of_N 34) l || quoted_by "'"%char l)
    then of_chars (removelast (tail l)) else name.

Definition benign_message (parent device allowedMissingDevice message : string) : bool :=
  contains "cannot delete qdisc with handle of zero" message
  || contains "cannot find specified qdisc" message
  || bool_decide (parent = "clsact") && contains "invalid handle" message
  || negb (bool_decide (allowedMissingDevice = "")) && bool_decide (device = allowedMissingDevice)
     && bool_decide (missingDeviceName message = allowedMissingDevice).
Definition benignCleanupFailure (command messages : list string) (allowedMissingDevice : string) : bool :=
  match command with
  | [c0; c1; c2; device; parent] =>
      bool_decide (c0 = "qdisc") && bool_decide (c1 = "del") && bool_decide (c2 = "dev")
      && negb (bool_decide (device = ""))
      && (bool_decide (parent = "root") || bool_decide (parent = "clsact"))
      && forallb (benign_message parent device allowedMissingDevice) messages
  | _ => false
  end.

(** The lines of stderr: the messages of the commands that failed, each group
    closed by the number of its line in the batch. Read so far: whether a failure
    was found, and the messages of the group that is open. *)
Fixpoint read_failures (device : string) (batchLines lines : list string) (foundMissing : bool)
    (pending : list string) : bool :=
  match lines with
  | [] => foundMissing && bool_decide (pending = [])
  | line :: lines =>
      let line := TrimSpace line in
      if bool_decide (line = "") then read_failures device batchLines lines foundMissing pending
      else if has_prefix "warning:" line then read_failures device batchLines lines foundMissing pending
      else if has_prefix "command failed -:" line then
        match parse_int (trim_prefix "command failed -:" line) with
        | None => false
        | Some lineNumber =>
            if (lineNumber <? 1)%Z || (Z.of_nat (length batchLines) <? lineNumber)%Z
               || bool_decide (pending = [])
            then false
            else
              let command := fields (TrimSpace (default "" (batchLines !! Z.to_nat (lineNumber - 1)))) in
              if benignCleanupFailure command pending device
              then read_failures device batchLines lines true [] else false
        end
      else read_failures device batchLines lines foundMissing (pending ++ [line])
  end.
Definition onlyMissingQdiscErrors (stderr allowedMissingDevice batch : string) : bool :=
  let text := ToLower (TrimSpace stderr) in
  if bool_decide (text = "") then false
  else read_failures (ToLower (TrimSpace allowedMissingDevice)) (split line_break (ToLower batch))
         (split line_break text) false [].

(** The class handles of [tc class show], as JSON or as text *)
Fixpoint text_handles (l : list string) : option (list string) :=
  match l with
  | [] => Some []
  | line :: l =>
      match fields line with
      | [] => text_handles l
      | c :: _ :: handle :: _ =>
          if bool_decide (c = "class") then handles ← text_handles l; Some (ToLower handle :: handles) else None
      | _ => None
      end
  end.
Definition handle_entry (v : json) : option string := l ← members v; json_string (member "handle" l).
Definition decodeClassHandles (o : output) : option (gset string) :=
  let trimmed := TrimSpace (out_stdout o) in
  if bool_decide (trimmed = "") then Some ∅
  else if has_prefix "[" trimmed then
    v ← out_json o; l ← json_list v; handles ← mapM handle_entry l;
    Some (list_to_set (filter (λ handle, handle ≠ "") ((λ s, ToLower (TrimSpace s)) <$> handles)))
  else list_to_set <$> text_handles (split line_break trimmed).

Section tc.
Context `{!Runner} (e : Executor).

Definition ip (args : list string) : command := MkCommand (ipPath e) args "".
Definition show_link (device : string) : command := ip ["link"; "show"; "dev"; device].

Definition Check (program : Tc.Program) : Exec unit :=
  if negb (Tc.tp_Active program) then mret tt
  else _ ← must "inspect public interface" (show_link (Tc.cf_PublicInterface (Tc.tp_Config program))); mret tt.

(** The IFB device exists and is up *)
Definition ensure_ifb (device : string) : Exec unit :=
  o ← run (show_link device);
  _ ← (if out_err o is Some _
       then _ ← must "create IFB interface" (ip ["link"; "add"; "dev"; device; "type"; "ifb"]); mret tt
       else mret tt);
  _ ← must "enable IFB interface" (ip ["link"; "set"; "dev"; device; "up"]); mret tt.
Definition Apply (program : Tc.Program) : Exec unit :=
  if bool_decide (Tc.tp_Batch program = "") then mret tt
  else
    let device := Tc.cf_IFBInterface (Tc.tp_Config program) in
    _ ← (if Tc.tp_Active program then ensure_ifb device else mret tt);
    o ← run (MkCommand (tcPath e) ["-force"; "-batch"; "-"] (Tc.tp_Batch program));
    match out_err o with
    | Some err =>
        if onlyMissingQdiscErrors (out_stderr o) (if Tc.tp_Active program then "" else device)
             (Tc.tp_Batch program)
        then mret tt else fail (commandError "apply tc batch" err)
    | None => mret tt
    end.

Definition handle_of (class : Tc.ClassBinding) : string := "1:" +:+ show_hex (Tc.cl_ClassID class).
Definition expected_on (program : Tc.Program) (device : string) : gset string :=
  list_to_set (handle_of <$> filter (λ class, Tc.cl_Interface class = device) (Tc.tp_ExpectedClasses program)).
Definition verify_device (program : Tc.Program) (device : string) : Exec unit :=
  o ← must "verify tc classes" (MkCommand (tcPath e) ["-j"; "class"; "show"; "dev"; device] "");
  match decodeClassHandles o with
  | None => fail (Plain ("decode tc classes for " +:+ device))
  | Some handles => if bool_decide (expected_on program device ∖ handles = ∅) then mret tt
                    else fail (Plain ("tc classes are missing on " +:+ device))
  end.
Definition Verify `{!StringRange} (program : Tc.Program) : Exec unit :=
  if negb (Tc.tp_Active program) then mret tt
  else each (verify_device program)
         (range_strings (list_to_set (Tc.cl_Interface <$> Tc.tp_ExpectedClasses program))).
End tc.
End TcExecutor.

(** * What the executor of tc answers for: the failures [Apply] passes over, and the
    classes [Verify] has seen *)
Module TcExecutorFacts.
Import TcExecutor.

(** A command that only removes a qdisc *)
Definition cleanup_command (l : list string) : Prop :=
  ∃ device parent, l = ["qdisc"; "del"; "dev"; device; parent] ∧ (parent = "root" ∨ parent = "clsact").
(** The command a line of stderr says has failed *)
Definition failed_command (batch line : string) : option (list string) :=
  if has_prefix "command failed -:" (TrimSpace line) then
    n ← parse_int (trim_prefix "command failed -:" (TrimSpace line));
    Some (fields (TrimSpace (default "" (split line_break (ToLower batch) !! Z.to_nat (n - 1)))))
  else None.

Lemma benign_cleanup command messages device :
  benignCleanupFailure command messages device = true → cleanup_command command.
Proof.
  unfold benignCleanupFailure. destruct command as [|c0 [|c1 [|c2 [|d [|parent [|? ?]]]]]]; try done.
  rewrite !andb_true_iff, orb_true_iff, !bool_decide_eq_true. intros (((((-> & ->) & ->) & _) & Hp) & _).
  by exists d, parent.
Qed.

Lemma failed_not_blank s : has_prefix "command failed -:" s = true → s ≠ "" ∧ has_prefix "warning:" s = false.
Proof.
  destruct s as [|a s]; [done|]. unfold has_prefix. cbn [String.prefix]. intros H. split; [done|].
  destruct (Ascii.ascii_dec "c" a) as [<-|]; done.
Qed.

Lemma read_failures_cleanup device batch lines found pending line command :
  read_failures device (split line_break (ToLower batch)) lines found pending = true →
  line ∈ lines → failed_command batch line = Some command → cleanup_command command.
Proof.
  revert found pending. induction lines as [|l lines IH]; intros found pending; cbn; [by intros _ ?%elem_of_nil|].
  intros Hr [->|Hin]%elem_of_cons Hf.
  - unfold failed_command in Hf. destruct (has_prefix "command failed -:" (TrimSpace l)) eqn:Hp; [|done].
    destruct (failed_not_blank _ Hp) as [Hb Hw]. 
    rewrite (bool_decide_eq_false_2 (TrimSpace l = "") Hb), Hw in Hr.
    destruct (parse_int _) as [n|]; [|done]. unfold mbind, option_bind in Hf. apply (inj Some) in Hf as <-.
    destruct (_ || bool_decide (pending = [])); [done|]. destruct (benignCleanupFailure _ _ _) eqn:Hc; [|done].
    by apply benign_cleanup in Hc.
  - repeat case_match; try done; eauto.
Qed.

Section tc.
Context `{!Runner} (e : Executor).

(** [Apply] succeeds only when [tc] did, or when every command it said has failed
    is the removal of a qdisc. *)
Theorem Apply_tolerates program h h' :
  Apply e program h = (h', inr tt) → Tc.tp_Batch program ≠ "" →
  ∃ before o, h' = before ++ [(MkCommand (tcPath e) ["-force"; "-batch"; "-"] (Tc.tp_Batch program), o)]
    ∧ (out_err o = None
       ∨ ∀ line command, line ∈ split line_break (ToLower (TrimSpace (out_stderr o))) →
           failed_command (Tc.tp_Batch program) line = Some command → cleanup_command command).
Proof.
  unfold Apply. intros Ha Hb. rewrite bool_decide_eq_false_2 in Ha by done. unfold mbind at 1, Exec_bind in Ha.
  destruct ((if Tc.tp_Active program then ensure_ifb e (Tc.cf_IFBInterface (Tc.tp_Config program)) else mret tt) h)
    as [h1 [err|[]]]; [done|].
  set (c := MkCommand _ _ _) in *. unfold mbind, Exec_bind, run in Ha.
  exists h1, (Run h1 c). destruct (out_err (Run h1 c)) as [err|] eqn:He; [|injection Ha as <-; auto].
  destruct (onlyMissingQdiscErrors _ _ _) eqn:Ho; [|done]. injection Ha as <-. split; [done|]. right.
  unfold onlyMissingQdiscErrors in Ho. destruct (bool_decide _); [done|]. intros line command Hl Hf.
  by eapply read_failures_cleanup.
Qed.

Lemma each_done {A} (f : A → Exec unit) l h h' :
  Executors.each f l h = (h', inr tt) → ∀ x, x ∈ l → ∃ h1 h2, f x h1 = (h2, inr tt).
Proof.
  revert h. induction l as [|y l IH]; intros h; cbn; [by intros _ x ?%elem_of_nil|].
  unfold mbind, Exec_bind. destruct (f y h) as [h1 [err|[]]] eqn:Hy; [done|]. intros Hl x [->|Hx]%elem_of_cons; eauto.
Qed.

(** After [Verify] every expected class was listed on its device. *)
Theorem Verify_lists `{!StringRange, !StringRangeLaws _} program h h' class :
  Verify e program h = (h', inr tt) → Tc.tp_Active program = true → class ∈ Tc.tp_ExpectedClasses program →
  ∃ h1 handles, decodeClassHandles
      (Run h1 (MkCommand (tcPath e) ["-j"; "class"; "show"; "dev"; Tc.cl_Interface class] "")) = Some handles
    ∧ handle_of class ∈ handles.
Proof.
  unfold Verify. intros Hv Ha Hc. rewrite Ha in Hv. cbn in Hv.
  destruct (each_done _ _ _ _ Hv (Tc.cl_Interface class)) as (h1 & h2 & Hd).
  { rewrite range_strings_perm, elem_of_elements, elem_of_list_to_set. by apply list_elem_of_fmap_2. }
  unfold verify_device, must, mbind, Exec_bind, run in Hd. cbn in Hd.
  exists h1. destruct (out_err _); [done|]. cbn in Hd. destruct (decodeClassHandles _) as [handles|]; [|done].
  exists handles. split; [done|]. case_bool_decide as Hs; [|done].
  assert (handle_of class ∈ expected_on program (Tc.cl_Interface class)) as Hin.
  { unfold expected_on. rewrite elem_of_list_to_set. apply list_elem_of_fmap_2. by apply list_elem_of_filter. }
  apply (proj1 (set_eq _ _)) with (x := handle_of class) in Hs. destruct (decide (handle_of class ∈ handles)); [done|]. exfalso.
  apply (not_elem_of_empty (C := gset string) (handle_of class)), Hs, elem_of_difference. done.
Qed.
End tc.
End TcExecutorFacts.
