(* ===== verification/FabricExecutor.v ===== *)
(** The executor of the fabric, [internal/dataplane/fabric/executor.go], and the
    private key it gives to WireGuard ([loadPrivateKey] of [key.go]). A batch of
    [ip] is the text of a list of lines; its lines are a type, and their text is
    what the code prints. *)
From S2P Require Import Prelude.
From S2P Require Import GoNet.
From S2P Require Import SpecTypes.
From S2P Require Import SpecChecksum.
From S2P Require Import Hostname.
From S2P Require Import FabricCompiler.
From S2P Require Import NftCompiler.
From S2P Require Import TcCompiler.
From S2P Require Import Reconciler.
From S2P Require Import Executors.

Module FabricExecutor.
Import Fabric.

Definition ErrOwnershipRequired : string := "fabric management requires explicit ownership".
Definition ErrResourceConflict : string := "fabric resource conflicts with existing network state".

(** The file of the private key, as it is found *)
Inductive key_file :=
  | NoFile
  | StatFailed
  | File (regular : bool) (perm : N) (contents : option string).
Class KeyFile := key_at : history → string → key_file.

Record Config := MkConfig {
  cf_IPPath : string;
  cf_WGPath : string;
  cf_SysctlPath : string;
  cf_PrivateKeyPath : string;
  cf_AllowManage : bool;
}.
Definition NewExecutor (config : Config) : string + Config :=
  if existsb (λ path, bool_decide (path = ""))
       [cf_IPPath config; cf_WGPath config; cf_SysctlPath config; cf_PrivateKeyPath config]
  then inl "fabric executable and private key paths must not be empty" else inr config.

Definition privateKeyBytes : nat := 32.
(** On Linux; every 32 bytes are a private key of X25519. *)
Definition loadPrivateKey (file : key_file) : string + string :=
  match file with
  | NoFile => inl "no such file or directory"
  | StatFailed => inl "inspect WireGuard private key"
  | File regular perm contents =>
      if negb regular then inl "wireguard private key is not a regular file"
      else if negb (N.land perm 63 =? 0) then inl "wireguard private key permissions must be 0600 or stricter"
      else
        match contents with
        | None => inl "read WireGuard private key"
        | Some contents =>
            let encoded := TrimSpace contents in
            match Base64Decode encoded with
            | Some decoded =>
                if (length decoded =? privateKeyBytes)%nat then inr encoded
                else inl "wireguard private key must be a base64-encoded 32-byte value"
            | None => inl "wireguard private key must be a base64-encoded 32-byte value"
            end
        end
  end.

(** * Names and texts *)
Definition programUsesWireGuard (program : Program) : bool :=
  existsb (λ link, bool_decide (lp_Transport link = FabricWireGuard)) (fp_Links program).
Definition linkKind (transport : FabricTransport) : string :=
  if bool_decide (transport = FabricGRE) then "gre"
  else if bool_decide (transport = FabricWireGuard) then "wireguard" else "".
Definition linkAlias (link : LinkPlan) : string := "managed-by=flux;fabric=" +:+ lp_ID link.
Definition rpFilterKey (interfaceName : string) : string := "net.ipv4.conf." +:+ interfaceName +:+ ".rp_filter".
Definition direct (link : LinkPlan) : bool := bool_decide (lp_Transport link = FabricDirectL3).

Definition outputMeansMissing (stderr : string) : bool :=
  let text := ToLower stderr in
  contains "does not exist" text || contains "cannot find device" text || contains "no such device" text.
Definition missing_line (line : string) : bool :=
  contains "no such process" line || contains "cannot find device" line || contains "does not exist" line.
Definition outputOnlyMissing (stderr : string) : bool :=
  let text := ToLower (TrimSpace stderr) in
  negb (bool_decide (text = "")) && forallb missing_line (split line_break text).

Definition prefixList (prefixes : list Prefix) : string :=
  join "," (sort_slice str_lt (map Prefix_String prefixes)).
Definition wireGuardConfiguration (privateKey : string) (wireguard : WireGuardPeerSpec) (link : LinkPlan) : string :=
  lines
    (["[Interface]"; "PrivateKey = " +:+ privateKey; "ListenPort = " +:+ show (wg_ListenPort wireguard); "";
      "[Peer]"; "PublicKey = " +:+ wg_PeerPublicKey wireguard; "Endpoint = " +:+ wg_Endpoint wireguard;
      "AllowedIPs = " +:+ prefixList (lp_AllowedIPs link)]
     ++ (if wg_PersistentKeepaliveSeconds wireguard =? 0 then []
         else ["PersistentKeepalive = " +:+ show (wg_PersistentKeepaliveSeconds wireguard)])).

(** * The lines of a batch *)
Inductive ip_line :=
  | LinkAddWireGuard (dev : string)
  | LinkAddGRE (dev : string) (gre : GRESpec)
  | LinkSetGRE (dev : string) (gre : GRESpec)
  | AddressFlush (dev : string)
  | AddressAdd (dev : string) (address : Prefix)
  | LinkSetAlias (dev alias : string)
  | LinkSetUp (dev : string) (mtu : N)
  | LinkDel (dev : string)
  | RouteReplace (route : RoutePlan)
  | RouteDel (route : RoutePlan)
  | RuleAdd (rule : RulePlan)
  | RuleDel (rule : RulePlan).

Definition gre_text (gre : GRESpec) : string :=
  "type gre local " +:+ Addr_String (gre_UnderlayLocal gre) +:+ " remote "
  +:+ Addr_String (gre_UnderlayRemote gre) +:+ " key " +:+ show (gre_Key gre).
Definition writeRoute (operation : string) (route : RoutePlan) : string :=
  "route " +:+ operation +:+ " " +:+ Prefix_String (rt_Destination route)
  +:+ match rt_Gateway route with Some gateway => " via " +:+ Addr_String gateway | None => "" end
  +:+ " dev " +:+ rt_Interface route +:+ " table " +:+ show (rt_Table route) +:+ " proto " +:+ show (rt_Protocol route)
  +:+ (if rt_Gateway route is Some _ then "" else " scope link").
Definition writeRule (operation : string) (rule : RulePlan) : string :=
  "rule " +:+ operation +:+ " priority " +:+ show (rp_Priority rule) +:+ " fwmark 0x" +:+ pad_hex 8 (rp_Mark rule)
  +:+ "/0x" +:+ pad_hex 8 (rp_Mask rule) +:+ " lookup " +:+ show (rp_Table rule).
Definition line_text (l : ip_line) : string :=
  match l with
  | LinkAddWireGuard dev => "link add dev " +:+ dev +:+ " type wireguard"
  | LinkAddGRE dev gre => "link add dev " +:+ dev +:+ " " +:+ gre_text gre
  | LinkSetGRE dev gre => "link set dev " +:+ dev +:+ " " +:+ gre_text gre
  | AddressFlush dev => "address flush dev " +:+ dev +:+ " scope global"
  | AddressAdd dev address => "address add " +:+ Prefix_String address +:+ " dev " +:+ dev
  | LinkSetAlias dev alias => "link set dev " +:+ dev +:+ " alias " +:+ alias
  | LinkSetUp dev mtu => "link set dev " +:+ dev +:+ " mtu " +:+ show mtu +:+ " up"
  | LinkDel dev => "link del dev " +:+ dev
  | RouteReplace route => writeRoute "replace" route
  | RouteDel route => writeRoute "del" route
  | RuleAdd rule => writeRule "add" rule
  | RuleDel rule => writeRule "del" rule
  end.
Definition batch_text (batch : list ip_line) : string := lines (map line_text batch).

(** * Reading the answers *)
Record linkState := MkLinkState { ls_MTU : N; ls_Kind : string; ls_Alias : string }.
Definition decode_link (o : output) : option linkState :=
  v ← out_json o; l ← json_list v;
  match l with
  | [entry] =>
      m ← members entry;
      _ ← json_string (member "ifname" m);
      mtu ← json_uint 63 (member "mtu" m);
      alias ← json_string (member "ifalias" m);
      info ← members (member "linkinfo" m);
      kind ← json_string (member "info_kind" info);
      Some (MkLinkState mtu kind alias)
  | _ => None
  end.
(** What the answer to an inspection says: the link, or that there is none *)
Definition read_link (name : string) (o : output) : error + option linkState :=
  match out_err o with
  | Some e => if outputMeansMissing (out_stderr o) then inr None
              else inl (commandError ("inspect interface " +:+ name) e)
  | None => match decode_link o with
            | Some state => inr (Some state)
            | None => inl (Plain ("decode interface " +:+ name +:+ " state"))
            end
  end.

Definition address_entry (v : json) : option (string * string * N) :=
  m ← members v; family ← json_string (member "family" m); local ← json_string (member "local" m);
  bits ← json_uint 63 (member "prefixlen" m); Some (family, local, bits).
Definition decode_addresses (o : output) : option (list (string * string * N)) :=
  v ← out_json o; l ← json_list v;
  match l with
  | [entry] => m ← members entry; l ← json_list (member "addr_info" m); mapM address_entry l
  | _ => None
  end.

Record routeState := MkRouteState {
  rs_Destination : string; rs_Device : string; rs_Gateway : string; rs_Protocol : string }.
(** The raw text of the protocol without its quotes: of a number or a string *)
Definition protocol_text (v : json) : string :=
  match v with JNum n => show n | JStr s => s | _ => "" end.
Definition route_entry (v : json) : option routeState :=
  m ← members v; dst ← json_string (member "dst" m); dev ← json_string (member "dev" m);
  gateway ← json_string (member "gateway" m);
  Some (MkRouteState dst dev gateway (protocol_text (member "protocol" m))).
Definition decode_routes (o : output) : option (list routeState) :=
  v ← out_json o; l ← json_list v; mapM route_entry l.
Definition read_routes (route : RoutePlan) (o : output) : error + list routeState :=
  match out_err o with
  | Some e => if outputMeansMissing (out_stderr o) then inr []
              else inl (commandError ("inspect route " +:+ Prefix_String (rt_Destination route)) e)
  | None => match decode_routes o with
            | Some routes => inr routes
            | None => inl (Plain ("decode route " +:+ Prefix_String (rt_Destination route)))
            end
  end.

Definition routeDestinationMatches (installed : string) (expected : Prefix) : bool :=
  match ParsePrefix installed with
  | Some prefix => bool_decide (Prefix_Masked prefix = Prefix_Masked expected)
  | None =>
      match ParseAddr installed with
      | Some address => bool_decide (p_bits expected = Z.of_N (Addr_BitLen address))
                        && bool_decide (p_addr expected = address)
      | None => false
      end
  end.
Definition routeMatches (installed : routeState) (expected : RoutePlan) : bool :=
  routeDestinationMatches (rs_Destination installed) (rt_Destination expected)
  && bool_decide (rs_Device installed = rt_Interface expected)
  && bool_decide (rs_Gateway installed = match rt_Gateway expected with Some g => Addr_String g | None => "" end)
  && (bool_decide (rs_Protocol installed = show (rt_Protocol expected)) || bool_decide (rs_Protocol installed = "186")).

(** [strconv.ParseUint(s, 0, w)]: the prefix gives the base; no underscores *)
Fixpoint radix_value (base : N) (l : list ascii) (acc : N) : option N :=
  match l with
  | [] => Some acc
  | c :: l => d ← hex_val c; if d <? base then radix_value base l (acc * base + d) else None
  end.
Definition radix (l : list ascii) : N * list ascii :=
  match l with
  | "0"%char :: ("x" | "X")%char :: l => (16, l)
  | "0"%char :: ("b" | "B")%char :: l => (2, l)
  | "0"%char :: ("o" | "O")%char :: l => (8, l)
  | "0"%char :: ((_ :: _) as l) => (8, l)
  | l => (10, l)
  end.
Definition ParseNumber (w : N) (s : string) : option N :=
  let '(base, l) := radix (chars s) in
  match l with [] => None | _ => n ← radix_value base l 0; if n <? 2 ^ w then Some n else None end.
Definition numericJSON (v : json) : option N :=
  match v with JNum n => Some n | JStr s => ParseNumber 64 s | _ => None end.
Definition max_uint32 : N := 2 ^ 32 - 1.
Definition markJSON (v : json) : option (N * N) :=
  match v with
  | JStr text =>
      let '(first, second) := match cut "/" text with
                              | Some (first, second) => (first, Some second)
                              | None => (text, None)
                              end in
      mark ← ParseNumber 32 first;
      match second with
      | None => Some (mark, max_uint32)
      | Some second => mask ← ParseNumber 32 second; Some (mark, mask)
      end
  | _ => n ← numericJSON v; Some (wrap 32 n, max_uint32)
  end.
(** A [map[string]any]: its keys are exact *)
Definition key_value (name : string) (l : list (string * json)) : json :=
  default JNull (snd <$> last (filter (λ kv, kv.1 = name) l)).
Definition ruleMatches (installed : list (string * json)) (expected : RulePlan) : bool :=
  bool_decide (numericJSON (key_value "priority" installed) = Some (rp_Priority expected))
  && bool_decide (numericJSON (key_value "table" installed) = Some (rp_Table expected))
  && bool_decide (markJSON (key_value "fwmark" installed) = Some (rp_Mark expected, rp_Mask expected)).
Definition read_rules (priority : N) (o : output) : error + list (list (string * json)) :=
  match out_err o with
  | Some e => inl (commandError "inspect policy rule" e)
  | None => match v ← out_json o; l ← json_list v; mapM members l with
            | Some rules => inr rules
            | None => inl (Plain ("decode policy rule priority " +:+ show priority))
            end
  end.

(** * The operations *)
Section fabric.
Context `{!Runner} `{!KeyFile} (e : Config).

Definition ip (args : list string) : command := MkCommand (cf_IPPath e) args "".
Definition link_show (name : string) : command := ip ["-d"; "-j"; "link"; "show"; "dev"; name].
Definition address_show (name : string) : command := ip ["-j"; "address"; "show"; "dev"; name].
Definition route_show (route : RoutePlan) : command :=
  ip ["-N"; "-j"; "route"; "show"; "table"; show (rt_Table route); "exact"; Prefix_String (rt_Destination route)].
Definition rule_show (priority : N) : command := ip ["-j"; "rule"; "show"; "priority"; show priority].
Definition sysctl_read (key : string) : command := MkCommand (cf_SysctlPath e) ["-n"; key] "".
Definition wg_show (name : string) : command := MkCommand (cf_WGPath e) ["show"; name; "dump"] "".

Definition sysctlValue (key : string) : Exec string :=
  o ← must ("read sysctl " +:+ key) (sysctl_read key); mret (TrimSpace (out_stdout o)).
Definition linkInfo (name : string) : Exec (option linkState) :=
  o ← run (link_show name); lift (read_link name o).
Definition routes (route : RoutePlan) : Exec (list routeState) :=
  o ← run (route_show route); lift (read_routes route o).
Definition rulesAtPriority (priority : N) : Exec (list (list (string * json))) :=
  o ← run (rule_show priority); lift (read_rules priority o).
Definition ruleExists (rule : RulePlan) : Exec bool :=
  installed ← rulesAtPriority (rp_Priority rule);
  mret (existsb (λ candidate, ruleMatches candidate rule) installed).

Definition address_of (a : string * string * N) : string := a.1.2 +:+ "/" +:+ show a.2.
Definition verifyAddress (link : LinkPlan) : Exec unit :=
  o ← must ("inspect address on " +:+ lp_Interface link) (address_show (lp_Interface link));
  match decode_addresses o with
  | None => fail (Plain ("decode addresses on " +:+ lp_Interface link))
  | Some addresses =>
      if existsb (λ a, bool_decide (a.1.1 = "inet") && bool_decide (address_of a = Prefix_String (lp_LocalAddress link)))
           addresses
      then mret tt else fail (Plain ("verify address on " +:+ lp_Interface link +:+ ": it is missing"))
  end.

Definition load_key : Exec string := λ h,
  match loadPrivateKey (key_at h (cf_PrivateKeyPath e)) with
  | inl why => (h, inl (Wrap "load node-local WireGuard key" (Plain why)))
  | inr key => (h, inr key)
  end.

Definition conflict (what : string) : error := Plain (ErrResourceConflict +:+ ": " +:+ what).

Definition check_direct (link : LinkPlan) (info : option linkState) : Exec unit :=
  match info with
  | None => fail (Plain ("direct_l3 interface " +:+ lp_Interface link +:+ " does not exist"))
  | Some info =>
      if negb (ls_MTU info =? lp_MTU link)
      then fail (Plain ("direct_l3 interface " +:+ lp_Interface link +:+ " MTU differs"))
      else
        _ ← verifyAddress link;
        rpFilter ← sysctlValue (rpFilterKey (lp_Interface link));
        if negb (bool_decide (rpFilter = "0")) && negb (bool_decide (rpFilter = "2"))
        then fail (Plain ("direct_l3 interface " +:+ lp_Interface link +:+ " rp_filter must be 0 or 2"))
        else mret tt
  end.
Definition check_link (link : LinkPlan) : Exec unit :=
  info ← linkInfo (lp_Interface link);
  if direct link then check_direct link info
  else
    match info with
    | None => mret tt
    | Some info =>
        if negb (bool_decide (ls_Kind info = linkKind (lp_Transport link)))
        then fail (conflict ("interface " +:+ lp_Interface link +:+ " has another kind"))
        else if negb (bool_decide (ls_Alias info = linkAlias link))
        then fail (conflict ("interface " +:+ lp_Interface link +:+ " is not marked as Flux fabric " +:+ lp_ID link))
        else mret tt
    end.

Definition same_place (old route : RoutePlan) : bool :=
  (rt_Table old =? rt_Table route) && bool_decide (rt_Destination old = rt_Destination route).
Definition owned_route (route : RoutePlan) (previous : list RoutePlan) (installed : routeState) : bool :=
  routeMatches installed route
  || existsb (λ old, same_place old route && routeMatches installed old) previous.
Definition checkRoute (previous : list RoutePlan) (route : RoutePlan) : Exec unit :=
  installed ← routes route;
  if forallb (owned_route route previous) installed then mret tt
  else fail (conflict ("route " +:+ Prefix_String (rt_Destination route) +:+ " table " +:+ show (rt_Table route))).
Definition checkRule (rule : RulePlan) : Exec unit :=
  installed ← rulesAtPriority (rp_Priority rule);
  if forallb (λ candidate, ruleMatches candidate rule) installed then mret tt
  else fail (conflict ("policy rule priority " +:+ show (rp_Priority rule))).

Definition Check (previous target : Program) : Exec unit :=
  if negb (fp_Active target) then mret tt
  else if negb (cf_AllowManage e) then fail (Plain ErrOwnershipRequired)
  else
    forwarding ← sysctlValue "net.ipv4.ip_forward";
    if negb (bool_decide (forwarding = "1"))
    then fail (Plain "net.ipv4.ip_forward must be 1 before enabling fabric")
    else
      _ ← (if programUsesWireGuard target then _ ← load_key; mret tt else mret tt);
      _ ← each check_link (fp_Links target);
      _ ← each (checkRoute (fp_Routes previous)) (fp_Routes target);
      each checkRule (fp_Rules target).

Definition ip_batch (text : string) : command := MkCommand (cf_IPPath e) ["-force"; "-batch"; "-"] text.
Definition runIPBatch (batch : list ip_line) (allowMissing : bool) : Exec unit :=
  let text := batch_text batch in
  if bool_decide (TrimSpace text = "") then mret tt
  else
    o ← run (ip_batch text);
    match out_err o with
    | None => mret tt
    | Some err => if allowMissing && outputOnlyMissing (out_stderr o) then mret tt
                  else fail (commandError "apply fabric ip batch" err)
    end.

(** A field of a nil [*GRESpec] or [*WireGuardPeerSpec] *)
Definition nil_pointer {A} : Exec A := fail (Plain "runtime error: invalid memory address or nil pointer dereference").

(** The lines of one link in [Prepare] *)
Definition prepare_link (link : LinkPlan) : Exec (list ip_line) :=
  let dev := lp_Interface link in
  info ← linkInfo dev;
  let exists_already := bool_decide (is_Some info) in
  let gre := bool_decide (lp_Transport link = FabricGRE) in
  created ←
    (if exists_already then mret []
     else if bool_decide (lp_Transport link = FabricWireGuard) then mret [LinkAddWireGuard dev]
     else if gre then match lp_GRE link with Some g => mret [LinkAddGRE dev g] | None => nil_pointer end
     else if direct link
          then fail (Plain ("direct_l3 interface " +:+ dev +:+ " disappeared after preflight"))
          else mret []);
  if direct link then mret created
  else
    updated ←
      (if gre && exists_already then match lp_GRE link with Some g => mret [LinkSetGRE dev g] | None => nil_pointer end
       else mret []);
    mret (created ++ updated ++ [AddressFlush dev; AddressAdd dev (lp_LocalAddress link);
                                 LinkSetAlias dev (linkAlias link); LinkSetUp dev (lp_MTU link)]).
Definition prepare_rule (rule : RulePlan) : Exec (list ip_line) :=
  there ← ruleExists rule; mret (if there : bool then [] else [RuleAdd rule]).
Definition syncconf (name configuration : string) : command :=
  MkCommand (cf_WGPath e) ["syncconf"; name; "/dev/stdin"] configuration.
Definition configure_wireguard (privateKey : string) (link : LinkPlan) : Exec unit :=
  if negb (bool_decide (lp_Transport link = FabricWireGuard)) then mret tt
  else
    match lp_WireGuard link with
    | None => nil_pointer
    | Some wireguard =>
        _ ← must ("configure WireGuard interface " +:+ lp_Interface link)
              (syncconf (lp_Interface link) (wireGuardConfiguration privateKey wireguard link));
        mret tt
    end.
Definition sysctl_write (args : list string) : command := MkCommand (cf_SysctlPath e) ("-w" :: args) "".

Definition Prepare (target : Program) : Exec unit :=
  if negb (fp_Active target) then mret tt
  else if negb (cf_AllowManage e) then fail (Plain ErrOwnershipRequired)
  else
    privateKey ← (if programUsesWireGuard target then load_key else mret "");
    links ← collect prepare_link (fp_Links target);
    rules ← collect prepare_rule (fp_Rules target);
    _ ← runIPBatch (links ++ map RouteReplace (fp_Routes target) ++ rules) false;
    _ ← each (configure_wireguard privateKey) (fp_Links target);
    match map (λ link, rpFilterKey (lp_Interface link) +:+ "=0") (filter (λ link, direct link = false) (fp_Links target)) with
    | [] => mret tt
    | sysctlArgs => _ ← must "configure fabric rp_filter" (sysctl_write sysctlArgs); mret tt
    end.

(** * What is no longer used *)
Definition obsolete_route (target : Program) (route : RoutePlan) : bool :=
  negb (bool_decide (routeKey route ∈ map routeKey (fp_Routes target))).
Definition targetRules (target : Program) : gmap N RulePlan :=
  foldl (λ m rule, <[rp_Priority rule := rule]> m) ∅ (fp_Rules target).
Definition obsolete_rule (target : Program) (rule : RulePlan) : bool :=
  negb (bool_decide (targetRules target !! rp_Priority rule = Some rule)).
Definition obsolete_link (target : Program) (link : LinkPlan) : bool :=
  negb (bool_decide (lp_Interface link ∈ map lp_Interface (fp_Links target))) && negb (direct link).
Definition cleanup_link (target : Program) (link : LinkPlan) : Exec (list ip_line) :=
  if negb (obsolete_link target link) then mret []
  else
    info ← linkInfo (lp_Interface link);
    match info with
    | None => mret []
    | Some info =>
        if negb (bool_decide (ls_Kind info = linkKind (lp_Transport link)))
           || negb (bool_decide (ls_Alias info = linkAlias link))
        then fail (conflict ("refuse to delete unowned interface " +:+ lp_Interface link))
        else mret [LinkDel (lp_Interface link)]
    end.
Definition Cleanup (previous target : Program) : Exec unit :=
  if negb (fp_Active previous) then mret tt
  else
    links ← collect (cleanup_link target) (fp_Links previous);
    runIPBatch (map RouteDel (filter (λ route, obsolete_route target route = true) (fp_Routes previous))
                ++ map RuleDel (filter (λ rule, obsolete_rule target rule = true) (fp_Rules previous)) ++ links) true.

(** * Verification *)
Definition dump_matches (wireguard : option WireGuardPeerSpec) (link : LinkPlan) (stdout : string) : option string :=
  match split line_break (TrimSpace stdout) with
  | [line0; line1] =>
      let tab := Strings.Ascii.ascii_of_N 9 in
      let interfaceFields := split tab line0 in
      let peerFields := split tab line1 in
      if (length interfaceFields <? 4)%nat || (length peerFields <? 8)%nat then Some "malformed dump"
      else
        match wireguard with
        | None => Some "runtime error: invalid memory address or nil pointer dereference"
        | Some wireguard =>
            if negb (bool_decide (interfaceFields !! 2%nat = Some (show (wg_ListenPort wireguard))))
               || negb (bool_decide (peerFields !! 0%nat = Some (wg_PeerPublicKey wireguard)))
               || negb (bool_decide (peerFields !! 2%nat = Some (wg_Endpoint wireguard)))
            then Some "endpoint, key or listen port mismatch"
            else if negb (bool_decide (join "," (sort_slice str_lt (split ","%char (default "" (peerFields !! 3%nat))))
                                       = prefixList (lp_AllowedIPs link)))
                    || negb (bool_decide (peerFields !! 7%nat = Some (show (wg_PersistentKeepaliveSeconds wireguard))))
            then Some "allowed IPs or keepalive mismatch"
            else None
        end
  | _ => Some "expected exactly one peer"
  end.
Definition verifyWireGuard (link : LinkPlan) : Exec unit :=
  let name := lp_Interface link in
  o ← must ("inspect WireGuard interface " +:+ name) (wg_show name);
  match dump_matches (lp_WireGuard link) link (out_stdout o) with
  | Some why => fail (Plain ("verify WireGuard interface " +:+ name +:+ ": " +:+ why))
  | None => mret tt
  end.
(** The link is there, with its MTU, and its kind and mark unless it is direct *)
Definition link_stands (link : LinkPlan) (info : option linkState) : bool :=
  match info with
  | None => false
  | Some info =>
      (ls_MTU info =? lp_MTU link)
      && (direct link || bool_decide (ls_Kind info = linkKind (lp_Transport link))
                         && bool_decide (ls_Alias info = linkAlias link))
  end.
Definition verify_link (link : LinkPlan) : Exec unit :=
  info ← linkInfo (lp_Interface link);
  if negb (link_stands link info) then fail (Plain ("verify fabric interface " +:+ lp_Interface link))
  else
    _ ← verifyAddress link;
    if bool_decide (lp_Transport link = FabricWireGuard) then verifyWireGuard link else mret tt.
Definition verifyOwnedRoute (route : RoutePlan) : Exec unit :=
  installed ← routes route;
  if existsb (λ r, routeMatches r route) installed then mret tt
  else fail (Plain ("verify route " +:+ Prefix_String (rt_Destination route) +:+ ": missing")).
Definition verify_rule (rule : RulePlan) : Exec unit :=
  there ← ruleExists rule;
  if there : bool then mret tt
  else fail (Plain ("verify policy rule priority " +:+ show (rp_Priority rule) +:+ ": missing")).
Definition Verify (target : Program) : Exec unit :=
  _ ← each verify_link (fp_Links target);
  _ ← each verifyOwnedRoute (fp_Routes target);
  each verify_rule (fp_Rules target).

(** The executor as the Reconciler calls it *)
Definition backend : FabricBackend history :=
  {| fb_Check previous target := unit_result (Check previous target);
     fb_Prepare target := unit_result (Prepare target);
     fb_Cleanup previous target := unit_result (Cleanup previous target);
     fb_Verify target := unit_result (Verify target) |}.
End fabric.
End FabricExecutor.
