(* ===== verification/ExecutorFacts.v ===== *)
(** What the executors of the fabric and of nft do to a machine, whatever its
    tools answer: the commands a run issues, and the evidence it has for them. *)
From S2P Require Import Prelude.
From S2P Require Import GoNet.
From S2P Require Import GoCrypto.
From S2P Require Import SpecTypes.
From S2P Require Import SpecChecksum.
From S2P Require Import DataplaneFacts.
From S2P Require Import FabricCompiler.
From S2P Require Import NftCompiler.
From S2P Require Import Reconciler.
From S2P Require Import Executors.
From S2P Require Import FabricExecutor.
Import Fabric FabricExecutor.

(** * The commands of a run

    [issues P m Q]: every command of a run of [m], with its answer, satisfies [P];
    a run that succeeds with [a] after the commands [new] satisfies [Q new a]. *)
Definition issues {A} (P : command * output → Prop) (m : Exec A) (Q : history → A → Prop) : Prop :=
  ∀ h, ∃ new, (m h).1 = h ++ new ∧ Forall P new ∧ ∀ a, (m h).2 = inr a → Q new a.

Section issues.
Context (P : command * output → Prop).

Lemma issues_ret {A} (a : A) (Q : history → A → Prop) : Q [] a → issues P (mret a) Q.
Proof. intros HQ h. exists []. rewrite app_nil_r. split_and!; [done..|]. by intros b [= <-]. Qed.
Lemma issues_fail {A} e (Q : history → A → Prop) : issues P (fail e) Q.
Proof. intros h. exists []. by rewrite app_nil_r. Qed.
Lemma issues_lift {A} (r : error + A) (Q : history → A → Prop) :
  (∀ a, r = inr a → Q [] a) → issues P (lift r) Q.
Proof. intros HQ h. exists []. by rewrite app_nil_r. Qed.
Lemma issues_bind {A B} (m : Exec A) (f : A → Exec B) (Q : history → A → Prop) (R : history → B → Prop) :
  issues P m Q → (∀ new a, Q new a → issues P (f a) (λ new', R (new ++ new'))) → issues P (m ≫= f) R.
Proof.
  intros Hm Hf h. destruct (Hm h) as (new & H1 & HP & HQ). unfold mbind, Exec_bind.
  destruct (m h) as [h1 [e|a]]; cbn in *; subst h1.
  { exists new. by split_and!. }
  destruct (Hf new a (HQ a eq_refl) (h ++ new)) as (new' & H2 & HP' & HR).
  exists (new ++ new'). rewrite H2, app_assoc, Forall_app. by split_and!.
Qed.
Lemma issues_weaken {A} (m : Exec A) (Q R : history → A → Prop) :
  issues P m Q → (∀ new a, Q new a → R new a) → issues P m R.
Proof. intros Hm HR h. destruct (Hm h) as (new & ? & ? & HQ). exists new. split_and!; eauto. Qed.

Context `{!Runner}.
Lemma issues_run c (Q : history → output → Prop) :
  (∀ o, P (c, o)) → (∀ o, Q [(c, o)] o) → issues P (run c) Q.
Proof. intros HP HQ h. eexists [(c, _)]. split_and!; [done|by repeat constructor|]. by intros a [= <-]. Qed.
Lemma issues_must what c (Q : history → output → Prop) :
  (∀ o, P (c, o)) → (∀ o, Q [(c, o)] o) → issues P (must what c) Q.
Proof.
  intros HP HQ. unfold must. eapply (issues_bind _ _ (λ new o, new = [(c, o)])); [by apply issues_run|].
  intros new o ->. destruct (out_err o); [apply issues_fail|]. apply issues_ret, HQ.
Qed.

Lemma issues_each {A} (f : A → Exec unit) (l : list A) (T : A → history → Prop) :
  (∀ x new new', T x new → new ⊆ new' → T x new') →
  (∀ x, x ∈ l → issues P (f x) (λ new _, T x new)) →
  issues P (each f l) (λ new _, ∀ x, x ∈ l → T x new).
Proof.
  intros Hmono. induction l as [|x l IH]; intros Hf; cbn.
  { apply issues_ret. by intros x ?%elem_of_nil. }
  eapply issues_bind; [apply Hf; left|]. intros new [] Hx.
  eapply issues_weaken; [apply IH; intros y Hy; apply Hf; by right|]. cbn. intros new' _ Hl y [->|Hy]%elem_of_cons.
  - eapply Hmono; [done|]. set_solver.
  - eapply Hmono; [by apply Hl|]. set_solver.
Qed.
Lemma issues_collect {A B} (f : A → Exec (list B)) (l : list A) (T : history → B → Prop) :
  (∀ b new new', T new b → new ⊆ new' → T new' b) →
  (∀ x, x ∈ l → issues P (f x) (λ new ys, Forall (T new) ys)) →
  issues P (collect f l) (λ new ys, Forall (T new) ys).
Proof.
  intros Hmono. induction l as [|x l IH]; intros Hf; cbn; [by apply issues_ret|].
  eapply issues_bind; [apply Hf; left|]. intros new ys Hys.
  eapply issues_bind; [apply IH; intros y Hy; apply Hf; by right|]. intros new' zs Hzs.
  apply issues_ret. rewrite app_nil_r. apply Forall_app. split.
  - eapply Forall_impl; [exact Hys|]. intros b Hb. eapply Hmono; [exact Hb|set_solver].
  - eapply Forall_impl; [exact Hzs|]. intros b Hb. eapply Hmono; [exact Hb|set_solver].
Qed.
End issues.

Lemma issues_unit {A} P (m : Exec A) Q : issues P m Q → issues P m (λ _ _, True).
Proof. intros Hm. by eapply issues_weaken. Qed.

Ltac issues_step :=
  match goal with
  | |- issues _ (mret _) _ => apply issues_ret
  | |- issues _ (fail _) _ => apply issues_fail
  | |- issues _ nil_pointer _ => apply issues_fail
  | |- issues _ (lift _) _ => apply issues_lift
  | |- issues _ (if ?b then _ else _) _ => destruct b eqn:?
  | |- issues _ (match ?x with _ => _ end) _ => destruct x eqn:?
  end.

(** * The fabric *)
Section fabric.
Context `{!Runner} `{!KeyFile} (e : Config).

(** The commands that only look *)
Inductive inspection : command → Prop :=
  | looks_at_link name : inspection (link_show e name)
  | looks_at_address name : inspection (address_show e name)
  | looks_at_route route : inspection (route_show e route)
  | looks_at_rule priority : inspection (rule_show e priority)
  | looks_at_sysctl key : inspection (sysctl_read e key).
Definition looks (c : command * output) : Prop := inspection c.1.

(** The answers a change relies on, among those that were [seen]: a link that is
    absent or is Flux's by kind and mark, a route nobody else put there, a
    priority no other rule has *)
Definition own_link (link : LinkPlan) (info : linkState) : Prop :=
  ls_Kind info = linkKind (lp_Transport link) ∧ ls_Alias info = linkAlias link.
Definition link_free (seen : history) (link : LinkPlan) : Prop :=
  direct link = false ∧
  ∃ o info, (link_show e (lp_Interface link), o) ∈ seen ∧ read_link (lp_Interface link) o = inr info
            ∧ ∀ i, info = Some i → own_link link i.
Definition route_free (previous : list RoutePlan) (seen : history) (route : RoutePlan) : Prop :=
  ∃ o installed, (route_show e route, o) ∈ seen ∧ read_routes route o = inr installed
                 ∧ ∀ r, r ∈ installed → owned_route route previous r = true.
Definition rule_free (seen : history) (rule : RulePlan) : Prop :=
  ∃ o installed, (rule_show e (rp_Priority rule), o) ∈ seen ∧ read_rules (rp_Priority rule) o = inr installed
                 ∧ ∀ r, r ∈ installed → ruleMatches r rule = true.

(** What [Check] establishes *)
Record checked (previous target : Program) (seen : history) : Prop := {
  ck_links link : link ∈ fp_Links target → direct link = false → link_free seen link;
  ck_routes route : route ∈ fp_Routes target → route_free (fp_Routes previous) seen route;
  ck_rules rule : rule ∈ fp_Rules target → rule_free seen rule;
}.

Lemma linkInfo_looks name :
  issues looks (linkInfo e name) (λ new info, ∃ o, (link_show e name, o) ∈ new ∧ read_link name o = inr info).
Proof.
  unfold linkInfo. eapply (issues_bind _ _ _ (λ new o, new = [(link_show e name, o)])).
  { apply issues_run; [|done]. intros o. by constructor. }
  intros new o ->. apply issues_lift. intros info Hi. exists o. split; [left|done].
Qed.
Lemma routes_looks route :
  issues looks (routes e route) (λ new l, ∃ o, (route_show e route, o) ∈ new ∧ read_routes route o = inr l).
Proof.
  unfold routes. eapply (issues_bind _ _ _ (λ new o, new = [(route_show e route, o)])).
  { apply issues_run; [|done]. intros o. by constructor. }
  intros new o ->. apply issues_lift. intros info Hi. exists o. split; [left|done].
Qed.
Lemma rules_looks priority :
  issues looks (rulesAtPriority e priority)
    (λ new l, ∃ o, (rule_show e priority, o) ∈ new ∧ read_rules priority o = inr l).
Proof.
  unfold rulesAtPriority. eapply (issues_bind _ _ _ (λ new o, new = [(rule_show e priority, o)])).
  { apply issues_run; [|done]. intros o. by constructor. }
  intros new o ->. apply issues_lift. intros info Hi. exists o. split; [left|done].
Qed.
Lemma sysctlValue_looks key : issues looks (sysctlValue e key) (λ _ _, True).
Proof.
  unfold sysctlValue. eapply (issues_bind _ _ _ (λ _ _, True)).
  { apply issues_must; [|done]. intros o. by constructor. }
  intros new o _. by apply issues_ret.
Qed.
Lemma verifyAddress_looks link : issues looks (verifyAddress e link) (λ _ _, True).
Proof.
  unfold verifyAddress. eapply (issues_bind _ _ _ (λ _ _, True)).
  { apply issues_must; [|done]. intros o. by constructor. }
  intros new o _. by repeat issues_step.
Qed.
Lemma load_key_looks P : issues P (load_key e) (λ _ _, True).
Proof.
  intros h. exists []. unfold load_key. rewrite app_nil_r. by destruct (loadPrivateKey _).
Qed.

Lemma check_link_looks link :
  issues looks (check_link e link) (λ new _, direct link = false → link_free new link).
Proof.
  unfold check_link. eapply issues_bind; [apply linkInfo_looks|]. cbn. intros new info (o & Ho & Hi).
  destruct (direct link) eqn:Hd.
  { unfold check_direct. destruct info; [|apply issues_fail]. issues_step; [apply issues_fail|].
    eapply issues_bind; [apply verifyAddress_looks|]. intros new' [] _.
    eapply issues_bind; [apply sysctlValue_looks|]. intros new'' v _. by repeat issues_step. }
  destruct info as [info|]; repeat issues_step; intros _; rewrite app_nil_r; split; try done;
    eexists o, _; split_and!; try done; intros i [= <-].
  by repeat match goal with H : negb _ = false |- _ => apply negb_false_iff, bool_decide_eq_true in H end.
Qed.
Lemma checkRoute_looks previous route :
  issues looks (checkRoute e previous route) (λ new _, route_free previous new route).
Proof.
  unfold checkRoute. eapply issues_bind; [apply routes_looks|]. cbn. intros new l (o & Ho & Hl).
  repeat issues_step. rewrite app_nil_r. eexists o, l. split_and!; [done..|].
  intros r Hr. rewrite forallb_forall in Heqb. apply Heqb. by apply list_elem_of_In.
Qed.
Lemma checkRule_looks rule : issues looks (checkRule e rule) (λ new _, rule_free new rule).
Proof.
  unfold checkRule. eapply issues_bind; [apply rules_looks|]. cbn. intros new l (o & Ho & Hl).
  repeat issues_step. rewrite app_nil_r. eexists o, l. split_and!; [done..|].
  intros r Hr. rewrite forallb_forall in Heqb. apply Heqb. by apply list_elem_of_In.
Qed.

Lemma link_free_mono link new new' : link_free new link → new ⊆ new' → link_free new' link.
Proof. intros (Hd & o & info & Ho & ?) Hs. split; [done|]. exists o, info. split; [by apply Hs|done]. Qed.
Lemma route_free_mono previous route new new' :
  route_free previous new route → new ⊆ new' → route_free previous new' route.
Proof. intros (o & l & Ho & ?) Hs. exists o, l. split; [by apply Hs|done]. Qed.
Lemma rule_free_mono rule new new' : rule_free new rule → new ⊆ new' → rule_free new' rule.
Proof. intros (o & l & Ho & ?) Hs. exists o, l. split; [by apply Hs|done]. Qed.

Lemma Check_looks previous target :
  issues looks (Check e previous target) (λ new _, fp_Active target = true → checked previous target new).
Proof.
  unfold Check. destruct (fp_Active target); cbn [negb]; [|by apply issues_ret].
  issues_step; [apply issues_fail|]. eapply issues_bind; [apply sysctlValue_looks|]. intros new0 fw _.
  issues_step; [apply issues_fail|]. eapply (issues_bind _ _ _ (λ _ _, True)).
  { destruct (programUsesWireGuard target); [|by apply issues_ret].
    eapply issues_bind; [apply load_key_looks|]. intros ? ? _. by apply issues_ret. }
  intros new1 [] _.
  eapply issues_bind; [apply (issues_each _ _ _ (λ link new, direct link = false → link_free new link))|].
  { intros link new new'. cbn. intros Hf Hs Hd. eapply link_free_mono; [by apply Hf|done]. }
  { intros link _. apply check_link_looks. }
  cbn. intros new2 [] Hlinks.
  eapply issues_bind; [apply (issues_each _ _ _ (λ r new, route_free (fp_Routes previous) new r))|].
  { intros route new new'. apply route_free_mono. }
  { intros route _. apply checkRoute_looks. }
  intros new3 [] Hroutes. eapply issues_weaken; [apply (issues_each _ _ _ (λ r new, rule_free new r))|].
  { intros rule new new'. apply rule_free_mono. }
  { intros rule _. apply checkRule_looks. }
  cbn. intros new4 [] Hrules _. split.
  - intros link Hl Hd. eapply link_free_mono; [by apply Hlinks|set_solver].
  - intros route Hr. eapply route_free_mono; [by apply Hroutes|set_solver].
  - intros rule Hr. eapply rule_free_mono; [by apply Hrules|set_solver].
Qed.

(** * What [Prepare] and [Cleanup] change *)
Definition cleared (previous target : Program) (seen : history) (line : ip_line) : Prop :=
  match line with
  | LinkAddWireGuard dev | LinkAddGRE dev _ | LinkSetGRE dev _ | AddressFlush dev | AddressAdd dev _
  | LinkSetAlias dev _ | LinkSetUp dev _ =>
      ∃ link, link ∈ fp_Links target ∧ lp_Interface link = dev ∧ link_free seen link
  | RouteReplace route => route ∈ fp_Routes target ∧ route_free (fp_Routes previous) seen route
  | RuleAdd rule => rule ∈ fp_Rules target ∧ rule_free seen rule
  | LinkDel _ | RouteDel _ | RuleDel _ => False
  end.
Inductive change (previous target : Program) (seen : history) : command → Prop :=
  | changes_ip batch :
      Forall (cleared previous target seen) batch → change previous target seen (ip_batch e (batch_text batch))
  | changes_wireguard link configuration :
      link ∈ fp_Links target → link_free seen link →
      change previous target seen (syncconf e (lp_Interface link) configuration)
  | changes_sysctl links :
      Forall (λ link, link ∈ fp_Links target ∧ link_free seen link) links →
      change previous target seen
        (sysctl_write e (map (λ link, rpFilterKey (lp_Interface link) +:+ "=0") links)).

(** What is left of the previous program and not of the target *)
Definition removable (previous target : Program) (seen : history) (line : ip_line) : Prop :=
  match line with
  | RouteDel route => route ∈ fp_Routes previous ∧ routeKey route ∉ map routeKey (fp_Routes target)
  | RuleDel rule =>
      rule ∈ fp_Rules previous
      ∧ (rule ∈ fp_Rules target →
         ∃ other, other ∈ fp_Rules target ∧ other ≠ rule ∧ rp_Priority other = rp_Priority rule)
  | LinkDel dev =>
      dev ∉ map lp_Interface (fp_Links target) ∧
      ∃ link o info, link ∈ fp_Links previous ∧ lp_Interface link = dev ∧ direct link = false
        ∧ (link_show e dev, o) ∈ seen ∧ read_link dev o = inr (Some info) ∧ own_link link info
  | _ => False
  end.

Section prepare.
Context (previous target : Program) (seen : history) (Hck : checked previous target seen).
Definition allowed (c : command * output) : Prop := inspection c.1 ∨ change previous target seen c.1.

Lemma issues_looks_allowed {A} (m : Exec A) Q : issues looks m Q → issues allowed m Q.
Proof.
  intros Hm h. destruct (Hm h) as (new & H1 & HP & HQ). exists new. split_and!; [done| |done].
  eapply Forall_impl; [exact HP|]. intros c Hc. by left.
Qed.

Lemma prepare_link_allowed link :
  link ∈ fp_Links target →
  issues allowed (prepare_link e link) (λ _ batch, Forall (cleared previous target seen) batch).
Proof.
  intros Hin. unfold prepare_link. eapply issues_bind; [apply issues_looks_allowed, linkInfo_looks|].
  intros new info _. destruct (direct link) eqn:Hd.
  - eapply (issues_bind _ _ _ (λ _ created, created = [])); [|intros ? ? ->; by apply issues_ret].
    assert (lp_Transport link = FabricDirectL3) as Ht by by apply bool_decide_eq_true in Hd.
    rewrite Ht. repeat issues_step; try done.
  - assert (∃ l, l ∈ fp_Links target ∧ lp_Interface l = lp_Interface link ∧ link_free seen l) as Hfree.
    { exists link. split_and!; [done..|]. by apply (ck_links _ _ _ Hck). }
    eapply (issues_bind _ _ _ (λ _ created, Forall (cleared previous target seen) created)).
    { repeat issues_step; repeat constructor; done. }
    intros new1 created Hc. eapply (issues_bind _ _ _ (λ _ updated, Forall (cleared previous target seen) updated)).
    { repeat issues_step; repeat constructor; done. }
    intros new2 updated Hu. apply issues_ret. rewrite !Forall_app. split_and!; [done..|]. by repeat constructor.
Qed.
Lemma ruleExists_looks rule : issues looks (ruleExists e rule) (λ _ _, True).
Proof. unfold ruleExists. eapply issues_bind; [apply rules_looks|]. intros. by apply issues_ret. Qed.
Lemma prepare_rule_allowed rule :
  rule ∈ fp_Rules target →
  issues allowed (prepare_rule e rule) (λ _ batch, Forall (cleared previous target seen) batch).
Proof.
  intros Hin. unfold prepare_rule. eapply issues_bind; [apply issues_looks_allowed, ruleExists_looks|].
  intros new there _. apply issues_ret. destruct there; [done|]. repeat constructor; [done|].
  by apply (ck_rules _ _ _ Hck).
Qed.
Lemma runIPBatch_issues P batch b :
  (∀ o, P (ip_batch e (batch_text batch), o)) → issues P (runIPBatch e batch b) (λ _ _, True).
Proof.
  intros HP. unfold runIPBatch. issues_step; [by apply issues_ret|].
  eapply (issues_bind _ _ _ (λ _ _, True)); [by apply issues_run|]. intros new o _. by repeat issues_step.
Qed.
Lemma configure_allowed key link :
  link ∈ fp_Links target → issues allowed (configure_wireguard e key link) (λ _ _, True).
Proof.
  intros Hin. unfold configure_wireguard. issues_step; [by apply issues_ret|].
  apply negb_false_iff, bool_decide_eq_true in Heqb. destruct (lp_WireGuard link) as [w|]; [|apply issues_fail].
  eapply (issues_bind _ _ _ (λ _ _, True)); [apply issues_must; [|done]|intros; by apply issues_ret].
  intros o. right. constructor; [done|]. apply (ck_links _ _ _ Hck); [done|].
  unfold direct. by rewrite Heqb.
Qed.

Lemma Prepare_allowed : issues allowed (Prepare e target) (λ _ _, True).
Proof.
  unfold Prepare. issues_step; [by apply issues_ret|]. issues_step; [apply issues_fail|].
  eapply (issues_bind _ _ _ (λ _ _, True)).
  { issues_step; [apply load_key_looks|by apply issues_ret]. }
  intros new0 key _. eapply issues_bind.
  { apply (issues_collect _ _ _ (λ _, cleared previous target seen)); [done|]. apply prepare_link_allowed. }
  intros new1 links Hlinks. eapply issues_bind.
  { apply (issues_collect _ _ _ (λ _, cleared previous target seen)); [done|]. apply prepare_rule_allowed. }
  intros new2 rules Hrules. eapply issues_bind.
  { apply runIPBatch_issues. intros o. right. constructor. rewrite !Forall_app. split_and!; [done| |done].
    apply Forall_map, Forall_forall. intros route Hr. split; [done|]. by apply (ck_routes _ _ _ Hck). }
  intros new3 [] _. eapply issues_bind.
  { apply (issues_each _ _ _ (λ _ _, True)); [done|]. apply configure_allowed. }
  intros new4 [] _. destruct (map _ _) as [|arg args] eqn:Hargs; [by apply issues_ret|].
  eapply (issues_bind _ _ _ (λ _ _, True)); [apply issues_must; [|done]|intros; by apply issues_ret].
  intros o. right. rewrite <- Hargs. constructor. apply Forall_forall. intros link [Hd Hl]%list_elem_of_filter.
  split; [done|]. by apply (ck_links _ _ _ Hck).
Qed.
End prepare.

(** ** Cleanup *)
Lemma targetRules_spec target rule :
  obsolete_rule target rule = true → rule ∈ fp_Rules target →
  ∃ other, other ∈ fp_Rules target ∧ other ≠ rule ∧ rp_Priority other = rp_Priority rule.
Proof.
  unfold obsolete_rule, targetRules. intros Ho%negb_true_iff%bool_decide_eq_false Hin.
  assert (∀ l (m : gmap N RulePlan), (∃ other, other ∈ l ∧ rp_Priority other = rp_Priority rule
            ∧ foldl (λ m r, <[rp_Priority r := r]> m) m l !! rp_Priority rule = Some other)
          ∨ rule ∉ l) as Hl.
  { induction l as [|r l IH] using rev_ind; intros m; [right; apply not_elem_of_nil|].
    rewrite foldl_app. cbn. destruct (decide (rp_Priority r = rp_Priority rule)) as [Heq|Hne].
    - left. exists r. rewrite Heq, lookup_insert_eq. split_and!; [set_solver|done..].
    - rewrite lookup_insert_ne by done. destruct (IH m) as [(other & Hi & ? & ?)|Hni].
      + left. exists other. split_and!; [set_solver|done..].
      + right. rewrite elem_of_app, list_elem_of_singleton. intros [?|<-]; [done|]. by apply Hne. }
  destruct (Hl (fp_Rules target) ∅) as [(other & Hi & Hp & Hm)|Hni]; [|done].
  exists other. split_and!; [done| |done]. intros ->. by apply Ho.
Qed.

Lemma cleanup_link_looks previous target link :
  link ∈ fp_Links previous →
  issues looks (cleanup_link e target link) (λ new batch, Forall (removable previous target new) batch).
Proof.
  intros Hin. unfold cleanup_link. issues_step; [by apply issues_ret|].
  apply negb_false_iff, andb_true_iff in Heqb as [Hn%negb_true_iff%bool_decide_eq_false Hd%negb_true_iff].
  eapply issues_bind; [apply linkInfo_looks|]. intros new [info|] (o & Ho & Hi); [|by apply issues_ret].
  issues_step; [apply issues_fail|].
  apply orb_false_iff in Heqb as [H1%negb_false_iff%bool_decide_eq_true H2%negb_false_iff%bool_decide_eq_true].
  apply issues_ret. rewrite app_nil_r. repeat constructor; [done|]. by exists link, o, info.
Qed.
Lemma removable_mono previous target line new new' :
  removable previous target new line → new ⊆ new' → removable previous target new' line.
Proof.
  destruct line; cbn; try done. intros [Hd (link & o & info & H1 & H2 & H3 & Hs & H4)] Hn. split; [done|].
  exists link, o, info. apply Hn in Hs. auto 6.
Qed.

Lemma runIPBatch_once batch b h :
  let h' := (runIPBatch e batch b h).1 in h' = h ∨ ∃ o, h' = h ++ [(ip_batch e (batch_text batch), o)].
Proof.
  unfold runIPBatch. destruct (bool_decide _); [by left|]. right. exists (Run h (ip_batch e (batch_text batch))).
  unfold mbind, Exec_bind, run. destruct (out_err _); [|done]. by destruct (_ && _).
Qed.

(** It looks, and then runs at most one batch. *)
Lemma Cleanup_removes previous target h :
  ∃ looked last, (Cleanup e previous target h).1 = h ++ looked ++ last ∧ Forall looks looked
    ∧ (last = [] ∨ ∃ batch o, last = [(ip_batch e (batch_text batch), o)]
                              ∧ Forall (removable previous target looked) batch).
Proof.
  unfold Cleanup. destruct (fp_Active previous); cbn [negb]; [|exists [], []; rewrite !app_nil_r; auto].
  destruct (issues_collect looks (cleanup_link e target) (fp_Links previous) (removable previous target)
              (λ b new new', removable_mono previous target b new new')
              (cleanup_link_looks previous target) h) as (looked & Hh & Hl & Hb).
  unfold mbind, Exec_bind. destruct (Executors.collect _ _ h) as [h1 [err|links]]; cbn in Hh; subst h1.
  { exists looked, []. rewrite app_nil_r. auto. }
  set (batch := _ ++ _ ++ links).
  destruct (runIPBatch_once batch true (h ++ looked)) as [->|[o ->]].
  { exists looked, []. rewrite app_nil_r. auto. }
  exists looked, [(ip_batch e (batch_text batch), o)]. rewrite <- app_assoc. split_and!; [done..|]. right.
  exists batch, o. split; [done|]. unfold batch. rewrite !Forall_app. split_and!; [| |by apply Hb].
  - apply Forall_map, Forall_forall. intros route [Ho Hin]%list_elem_of_filter. split; [done|].
    by apply negb_true_iff, bool_decide_eq_false in Ho.
  - apply Forall_map, Forall_forall. intros rule [Ho Hin]%list_elem_of_filter. split; [done|].
    by apply targetRules_spec.
Qed.

(** C14. The executor of the fabric changes what is Flux's and nothing else,
    whatever [ip], [wg] and [sysctl] answer. [Check] only looks. When it accepts a
    target, every command of the [Prepare] that follows looks, or changes a link
    that [Check] was shown to be absent or to bear the kind and the mark of this
    very link, replaces a route of the target whose place held no route but the
    executor's own, or adds a rule of the target at a priority no other rule had.
    [Cleanup] looks, and then runs at most one batch, whose lines delete what the
    target does not use: routes and rules of the previous program, and links it
    had just been shown to bear the mark; never a device Flux did not make. *)
Theorem fabric_changes_only_its_own previous target h0 h1 h2 r h3 :
  Check e previous target h0 = (h1, inr tt) → Prepare e target h1 = (h2, r) →
  (∃ checks prepares, h1 = h0 ++ checks ∧ h2 = h1 ++ prepares ∧ Forall looks checks
     ∧ Forall (λ c, inspection c.1 ∨ change previous target checks c.1) prepares)
  ∧ ∃ looked last, (Cleanup e previous target h3).1 = h3 ++ looked ++ last ∧ Forall looks looked
      ∧ (last = [] ∨ ∃ batch o, last = [(ip_batch e (batch_text batch), o)]
                                ∧ Forall (removable previous target looked) batch).
Proof.
  intros Hcheck Hprepare. split; [|apply Cleanup_removes].
  destruct (Check_looks previous target h0) as (checks & H1 & Hl & Hck). rewrite Hcheck in H1, Hck. cbn in *. subst h1.
  exists checks. destruct (fp_Active target) eqn:Ha.
  - destruct (Prepare_allowed previous target checks (Hck tt eq_refl eq_refl) (h0 ++ checks))
      as (prepares & H2 & Hp & _). rewrite Hprepare in H2. cbn in H2. by exists prepares.
  - unfold Prepare in Hprepare. rewrite Ha in Hprepare. injection Hprepare as <- _. exists [].
    by rewrite !app_nil_r.
Qed.
End fabric.

(** * A machine without a fabric, and one with another's link *)
Section sample.
Definition sample_gre : LinkPlan :=
  Build_LinkPlan "to-b" "node-b" FabricGRE "fx-b" (MkPrefix (Addr4 0x0a000001) 30) (Addr4 0x0a000002) 1400 7 None
    (Some (MkGRESpec (Addr4 0xc0000201) (Addr4 0xc0000202) 7)) [].
Definition sample_fabric : Program :=
  Build_Program true 1 "" "" [sample_gre] [peer_route sample_gre] [link_rule sample_gre].
Definition sample_executor : Config := MkConfig "ip" "wg" "sysctl" "/key" true.
#[local] Instance no_key : KeyFile := λ _ _, NoFile.

Definition says (text : string) (v : option json) : output := MkOutput text v "" None.
Definition link_json (alias : string) : json :=
  JArr [JObj [("ifname", JStr "fx-b"); ("mtu", JNum 1400); ("ifalias", JStr alias);
              ("linkinfo", JObj [("info_kind", JStr "gre")])]].
(** [ip link] answers [link] when there is one; the tables of routes and rules are empty. *)
Definition machine (link : option json) : Runner := λ _ c,
  if bool_decide (cm_path c = "sysctl") then says "1" None
  else if bool_decide (cm_args c = ["-d"; "-j"; "link"; "show"; "dev"; "fx-b"]) then
    match link with
    | None => MkOutput "" None "Device does not exist." (Some (Plain "exit status 1"))
    | Some v => says "" (Some v)
    end
  else says "" (Some (JArr [])).

Definition machine_checked : history * (error + unit) :=
  Check (H := machine None) sample_executor ProgramZero sample_fabric [].
Definition machine_prepared : history * (error + unit) :=
  Prepare (H := machine None) sample_executor sample_fabric machine_checked.1.

Example machine_batch :
  (λ c, cm_stdin c.1) <$> filter (λ c, cm_stdin c.1 ≠ "") machine_prepared.1
  = [lines ["link add dev fx-b type gre local 192.0.2.1 remote 192.0.2.2 key 7";
            "address flush dev fx-b scope global"; "address add 10.0.0.1/30 dev fx-b";
            "link set dev fx-b alias managed-by=flux;fabric=to-b"; "link set dev fx-b mtu 1400 up";
            "route replace 10.0.0.2/32 dev fx-b table 47007 proto 186 scope link";
            "rule add priority 20007 fwmark 0x47000007/0xffffffff lookup 47007"]].
Proof. vm_compute. reflexivity. Qed.

Example another_link :
  (Check (H := machine (Some (link_json "mine"))) sample_executor ProgramZero sample_fabric []).2
  = inl (conflict "interface fx-b is not marked as Flux fabric to-b")
  ∧ (Cleanup (H := machine (Some (link_json "mine"))) sample_executor sample_fabric ProgramZero []).2
    = inl (conflict "refuse to delete unowned interface fx-b").
Proof. vm_compute. done. Qed.

(** [ip -batch] closes the message of each failure with the number of its line, as
    the executor of tc expects; a route that is gone already makes [Cleanup] fail. *)
Definition gone_route : string :=
  "RTNETLINK answers: No such process" +:+ newline +:+ "Command failed -:1" +:+ newline.
Definition forgetful : Runner := λ h c,
  if bool_decide (cm_stdin c = "") then machine None h c
  else MkOutput "" None gone_route (Some (Plain "exit status 1")).
Example gone_route_not_tolerated :
  (Cleanup (H := forgetful) sample_executor sample_fabric ProgramZero []).2
  = inl (commandError "apply fabric ip batch" (Plain "exit status 1"))
  ∧ outputOnlyMissing "RTNETLINK answers: No such process" = true.
Proof. vm_compute. done. Qed.

Lemma fabric_changes_only_its_own_witness :
  (∃ checks prepares, machine_checked.1 = [] ++ checks ∧ machine_prepared.1 = machine_checked.1 ++ prepares
     ∧ Forall (looks sample_executor) checks
     ∧ Forall (λ c, inspection sample_executor c.1 ∨ change sample_executor ProgramZero sample_fabric checks c.1)
         prepares)
  ∧ ∃ looked last, (Cleanup (H := machine None) sample_executor ProgramZero sample_fabric []).1 = [] ++ looked ++ last
      ∧ Forall (looks sample_executor) looked
      ∧ (last = [] ∨ ∃ batch o, last = [(ip_batch sample_executor (batch_text batch), o)]
                                ∧ Forall (removable sample_executor ProgramZero sample_fabric looked) batch).
Proof.
  apply (fabric_changes_only_its_own (H := machine None) sample_executor ProgramZero sample_fabric []
           machine_checked.1 machine_prepared.1 machine_prepared.2 []).
  - vm_compute. reflexivity.
  - unfold machine_prepared. by rewrite <- surjective_pairing.
Defined.
End sample.
