(* ===== verification/ExecutorNft.v ===== *)
(** What the executor of nft reads back from a kernel that holds a compiled
    program: [NftExecutor.Inspect] and the marks of [Nft.CompileAt]. *)
From S2P Require Import Prelude.
From S2P Require Import GoNet.
From S2P Require Import GoCrypto.
From S2P Require Import SpecTypes.
From S2P Require Import SpecCanonical.
From S2P Require Import SpecValidate.
From S2P Require Import SpecTheorems.
From S2P Require Import SpecChecksum.
From S2P Require Import SpecSamples.
From S2P Require Import DataplaneFacts.
From S2P Require Import FabricCompiler.
From S2P Require Import NftCompiler.
From S2P Require Import NftFacts.
From S2P Require Import Reconciler.
From S2P Require Import Executors.
Import Nft NftExecutor.

(** * The metadata counters *)

(** Their order does not matter. *)
Lemma read_metadata_swap x y m :
  (read_metadata x m ≫= read_metadata y) = (read_metadata y m ≫= read_metadata x).
Proof.
  unfold read_metadata. destruct m as [g d p].
  destruct (has_prefix "flux_generation_" x), (has_prefix "flux_generation_" y),
    (has_prefix "flux_desired_" x), (has_prefix "flux_desired_" y),
    (has_prefix "flux_program_" x), (has_prefix "flux_program_" y); cbn;
  repeat match goal with
    | |- context [match ?o with Some _ => _ | None => _ end] => is_var o; destruct o; cbn
    | |- context [ParseUint 64 ?s] => destruct (ParseUint 64 s); cbn
    | |- context [ValidChecksum ?s] => destruct (ValidChecksum s); cbn
    | |- context [?n =? 0] => destruct (n =? 0); cbn
    end; done.
Qed.
Lemma read_all_perm l l' m : l ≡ₚ l' → read_all l m = read_all l' m.
Proof.
  intros Hl. revert m. induction Hl as [|x l l' _ IH|x y l|l1 l2 l3 _ IH1 _ IH2]; intros m; cbn; [done| | |].
  - destruct (read_metadata x m); [apply IH|done].
  - pose proof (read_metadata_swap y x m) as Hs.
    destruct (read_metadata x m) as [mx|] eqn:Hx, (read_metadata y m) as [my|] eqn:Hy; cbn in *.
    + by rewrite Hs.
    + by rewrite <- Hs.
    + by rewrite Hs.
    + done.
  - by rewrite IH1.
Qed.

Lemma has_prefix_app prefix s : has_prefix prefix (prefix +:+ s) = true.
Proof.
  unfold has_prefix. induction prefix as [|c prefix IH]; [by destruct s|].
  change (String.String c prefix +:+ s) with (String.String c (prefix +:+ s)). cbn.
  rewrite IH. by destruct (Ascii.ascii_dec c c).
Qed.
Lemma trim_prefix_app prefix s : trim_prefix prefix (prefix +:+ s) = s.
Proof.
  unfold trim_prefix. rewrite has_prefix_app, chars_app, drop_app_length'; [apply of_chars_chars|]. unfold chars.
  induction prefix; cbn; congruence.
Qed.

(** The names of the counters of a program are no marks. *)
Lemma counter_names_plain names m :
  Forall (λ name, ∃ s, name = "c_" +:+ s) names → read_all names m = Some m.
Proof. induction 1 as [|name names [s ->] _ IH]; [done|exact IH]. Qed.

Lemma read_generation g d p :
  0 < g → g < 2 ^ 64 → read_metadata ("flux_generation_" +:+ show g) (MkMetadata None d p) = Some (MkMetadata (Some g) d p).
Proof.
  intros Hg Hlt. unfold read_metadata. rewrite has_prefix_app, trim_prefix_app, ParseUint_show by done. cbn.
  by destruct (N.eqb_spec g 0); [lia|].
Qed.
Lemma read_desired g d p :
  ValidChecksum d = true → read_metadata ("flux_desired_" +:+ d) (MkMetadata g None p) = Some (MkMetadata g (Some d) p).
Proof.
  intros Hd. unfold read_metadata.
  replace (has_prefix "flux_generation_" ("flux_desired_" +:+ d)) with false by done.
  by rewrite has_prefix_app, trim_prefix_app, Hd.
Qed.
Lemma read_program g d p :
  ValidChecksum p = true → read_metadata ("flux_program_" +:+ p) (MkMetadata g d None) = Some (MkMetadata g d (Some p)).
Proof.
  intros Hp. unfold read_metadata.
  replace (has_prefix "flux_generation_" ("flux_program_" +:+ p)) with false by done.
  replace (has_prefix "flux_desired_" ("flux_program_" +:+ p)) with false by done.
  by rewrite has_prefix_app, trim_prefix_app, Hp.
Qed.
Lemma read_marks generation desired program names others :
  0 < generation → generation < 2 ^ 64 → ValidChecksum desired = true → ValidChecksum program = true →
  Forall (λ name, ∃ s, name = "c_" +:+ s) others →
  names ≡ₚ metadata_names generation desired program ++ others →
  read_all names (MkMetadata None None None) = Some (MkMetadata (Some generation) (Some desired) (Some program)).
Proof.
  intros Hg Hlt Hd Hp Ho Hn. rewrite (read_all_perm _ _ _ Hn). unfold metadata_names. simpl app.
  cbn [read_all]. rewrite read_generation by done. cbn [mbind option_bind].
  rewrite read_desired by done. cbn [mbind option_bind].
  rewrite read_program by done. cbn [mbind option_bind]. by apply counter_names_plain.
Qed.

(** The compiler's own marks and names *)
Lemma emit_names fabrics isIngress classID effective forward protocol em :
  emit fabrics isIngress classID effective forward protocol = inr em →
  Forall (λ b, ∃ s, cb_Name b = "c_" +:+ s) (em_counters em).
Proof.
  unfold emit. destruct (_ && _); [done|]. destruct (match_point _ _), (target_point _ _). intros [= <-]. cbn.
  destruct isIngress; repeat constructor; unfold stableCounterName; eauto.
Qed.

Lemma compiled_parts s c tableExists now p :
  CompileAt s c tableExists now = inr p →
  Valid s ∧ ValidChecksum c = true ∧ np_Generation p = ds_Generation s ∧ np_DesiredChecksum p = c
  ∧ ValidChecksum (np_ProgramChecksum p) = true
  ∧ Forall (λ name, ∃ t, name = "c_" +:+ t) (map cb_Name (np_Counters p)).
Proof.
  unfold CompileAt. destruct (Fabric.check_snapshot s c) eqn:Hs; [done|].
  apply check_snapshot_None in Hs as [Hv Hc]. destruct (compile_forwards (Canonical s) now) as [|a] eqn:Ha; [done|].
  intros [= <-]. cbn -[ProgramChecksumAt]. split_and!; try done.
  - by apply Checksum_canonical_valid in Hc.
  - unfold ProgramChecksumAt, ProgramChecksum, ValidChecksum.
    destruct (bool_decide _); apply andb_true_iff; rewrite Nat.eqb_eq; apply sha256_hex_spec.
  - destruct (NftFacts.compiled s now a Ha) as (cs & _ & -> & Hsrc & _). apply Forall_map, Forall_flat_map.
    eapply Forall_impl; [exact Hsrc|]. intros [[f q] em] [He _]. unfold emission_of in He. cbn in He.
    destruct (class_of (ds_NodeID s) _ f); [done|]. by apply emit_names in He.
Qed.

(** * Reading an installed table *)
Section inspect.
Context `{!Runner} (e : Executor).

Definition list_tables : command := nft e ["-j"; "list"; "tables"] "".
Definition list_counters : command := nft e ["-j"; "list"; "counters"] "".
(** What [nft] prints of a kernel with the table of the program, which has no
    comment, after the tables [others]; and of its counters, in any order, with
    those of other tables *)
Definition shows_table (o : output) : Prop :=
  out_err o = None ∧ ∃ others table rest, entries o = Some (others ++ table :: rest)
    ∧ Forall (λ t, table_entry t = Some None) others ∧ table_entry table = Some (Some "").
Definition shows_counters (names : list string) (o : output) : Prop :=
  out_err o = None ∧ ∃ l counters, entries o = Some l ∧ mapM counter_entry l = Some counters
    ∧ map rc_Name (omap id counters) ≡ₚ names.

Lemma find_table_shown others table rest h :
  Forall (λ t, table_entry t = Some None) others → table_entry table = Some (Some "") →
  find_table e (others ++ table :: rest) h = found_table e "" h.
Proof. intros Ho Ht. induction Ho as [|t others Hn _ IH]; cbn; [by rewrite Ht|by rewrite Hn]. Qed.

(** C34. A kernel that holds a compiled program is recognised. When [nft] lists the
    program's table, and the table has the counters of the program and the marks
    the compiler wrote, in any order and among the counters of other tables,
    [Inspect] answers with the generation and the two checksums that were
    compiled, and that the table is managed. *)
Theorem Inspect_recognises s c tableExists now p h :
  ds_Generation s < 2 ^ 64 → CompileAt s c tableExists now = inr p →
  shows_table (Run h list_tables) →
  shows_counters (metadata_names (np_Generation p) c (np_ProgramChecksum p) ++ map cb_Name (np_Counters p))
    (Run (h ++ [(list_tables, Run h list_tables)]) list_counters) →
  (Inspect e h).2 = inr (Build_InstalledState true true (ds_Generation s) c (np_ProgramChecksum p)).
Proof.
  intros Hlt (Hv & Hc & Hg & _ & Hpc & Hnames)%compiled_parts (He & others & table & rest & Hl & Ho & Ht)
    (Hec & l & counters & Hcl & Hm & Hperm).
  unfold Inspect, must, mbind, Exec_bind, run. fold list_tables. cbn. rewrite He. cbn. rewrite Hl.
  rewrite find_table_shown by done. unfold found_table. cbn [parseTableComment].
  change (parseTableComment "") with (@None (N * string * string)). cbn iota.
  unfold ReadCounters, must, mbind, Exec_bind, run. fold list_counters. cbn. rewrite Hec. cbn. rewrite Hcl, Hm. cbn.
  unfold parseMetadataCounters. erewrite read_marks; [|..|exact Hperm]; rewrite ?Hg; try done.
  apply Valid_header in Hv. unfold validate_header in Hv. apply app_nil_iff in Hv as [_ Hv].
  apply app_nil_iff in Hv as [_ Hv]. apply app_nil_iff in Hv as [Hv _]. apply when_nil, N.eqb_neq in Hv. lia.
Qed.
End inspect.

(** * A kernel that holds the sample program *)
Section sample.
Definition nft_document (l : list json) : output :=
  MkOutput "" (Some (JObj [("nftables", JArr (JObj [("metainfo", JObj [("version", JStr "1.0.9")])] :: l))])) "" None.
Definition shown_counter (table name : string) : json :=
  JObj [("counter", JObj [("family", JStr "inet"); ("name", JStr name); ("table", JStr table);
                          ("handle", JNum 4); ("packets", JNum 0); ("bytes", JNum 0)])].
Definition kernel_of (names : list string) : Runner := λ _ c,
  if bool_decide (cm_args c = ["-j"; "list"; "tables"])
  then nft_document [JObj [("table", JObj [("family", JStr "ip"); ("name", JStr "nat")])];
                     JObj [("table", JObj [("family", JStr "inet"); ("name", JStr "flux"); ("handle", JNum 2)])]]
  else nft_document (shown_counter "other" "flux_generation_9" :: map (shown_counter "flux") (rev names)).

Definition names_of (p : Program) : list string :=
  metadata_names (np_Generation p) sample_checksum (np_ProgramChecksum p) ++ map cb_Name (np_Counters p).
Lemma shown_counters names :
  mapM counter_entry (map (shown_counter "flux") names) = Some (map (λ name, Some (Build_RawCounter name 0 0)) names).
Proof. induction names as [|name names IH]; [done|]. cbn -[counter_entry shown_counter]. by rewrite IH. Qed.
Lemma raw_names names :
  map rc_Name (omap id (map (λ name, Some (Build_RawCounter name 0 0)) names)) = names.
Proof. induction names as [|name names IH]; cbn; by f_equal. Qed.

Lemma Inspect_recognises_witness :
  ∃ p, sample_program = inr p
  ∧ (Inspect (H := kernel_of (names_of p)) (MkExecutor "nft") []).2
    = inr (Build_InstalledState true true (ds_Generation sample_state) sample_checksum (np_ProgramChecksum p)).
Proof.
  assert (match sample_program with inl _ => false | inr _ => true end = true) as Hok
    by (vm_compute; reflexivity).
  destruct sample_program as [err|p] eqn:E; [discriminate|]. clear Hok. exists p. split; [reflexivity|].
  apply (Inspect_recognises (H := kernel_of (names_of p)) (MkExecutor "nft") sample_state sample_checksum false 600%Z p []).
  - reflexivity.
  - exact E.
  - split; [reflexivity|]. eexists [_; _], _, [].
    split; [reflexivity|]. split; [by repeat constructor|reflexivity].
  - split; [reflexivity|]. eexists _, (None :: None :: _). split; [reflexivity|].
    split; [cbn -[counter_entry]; rewrite shown_counters; reflexivity|].
    change (map rc_Name (omap id (map (λ name, Some (Build_RawCounter name 0 0)) (rev (names_of p)))) ≡ₚ names_of p).
    rewrite raw_names. symmetry. apply Permutation_rev.
Defined.
End sample.
