(* ===== verification/Maintenance.v ===== *)
(** Upgrade and removal of an Agent on its own node,
    [internal/agent/maintenance/maintenance.go] and [apply_linux.go], and the
    upgrade command that starts it ([executeUpgrade] of
    [internal/agent/controlclient/commands.go]).

    What an upgrade can leave on a node, whatever the servers answer and whichever
    calls fail, follows the model.

    The machine is its files and a count of the calls made of the operating
    system, any of which may fail ([Os]). A temporary file is its contents, since
    nobody else knows its name. What a server answers, what an archive holds, how
    an address is taken apart and what a program prints are parameters. *)
From S2P Require Import Prelude.
From S2P Require Import GoNet.
From S2P Require Import GoCrypto.
From S2P Require Import SpecValidate.
From S2P Require Import Hostname.
From S2P Require Import Rollout.
From S2P Require Import NftCompiler.
From S2P Require Import Executors.

(** * Paths: [path.Clean] and [filepath.Join] on Linux *)
Fixpoint clean_segments (rooted : bool) (l out : list string) : list string :=
  match l with
  | [] => rev out
  | s :: l =>
      if bool_decide (s = "") || bool_decide (s = ".") then clean_segments rooted l out
      else if bool_decide (s = "..") then
        match out with
        | top :: rest => if bool_decide (top = "..") then clean_segments rooted l (s :: out)
                         else clean_segments rooted l rest
        | [] => if rooted then clean_segments rooted l [] else clean_segments rooted l [s]
        end
      else clean_segments rooted l (s :: out)
  end.
Definition IsAbs (p : string) : bool := has_prefix "/" p.
Definition segments (p : string) : list string := clean_segments (IsAbs p) (split "/"%char p) [].
Definition Clean (p : string) : string :=
  if IsAbs p then "/" +:+ join "/" (segments p)
  else match segments p with [] => "." | l => join "/" l end.
Definition Join (l : list string) : string :=
  match filter (λ s, s ≠ "") l with [] => "" | l => Clean (join "/" l) end.
Definition contains_any (codes : list N) (s : string) : bool :=
  existsb (λ b, bool_decide (b ∈ codes)) (bytes_of s).

Definition safeAbsolutePath (value : string) : bool :=
  negb (bool_decide (value = "")) && IsAbs value && negb (contains_any [13; 10; 0] value)
  && bool_decide (Clean value = value).
(** [filepath.Rel] of absolute paths leads out of the root unless the root is a
    prefix; it is "." for the root itself. *)
Definition pathWithin (root candidate : string) : bool :=
  let r := segments root in
  let c := segments candidate in
  bool_decide (take (length r) c = r) && negb (bool_decide (c = r)).

(** * Requests *)
Definition RequestVersion : Z := 1.
Definition ActionUpgrade : string := "upgrade".
Definition ActionUninstall : string := "uninstall".
Definition DefaultExecutable : string := "/usr/local/bin/flux-agent".
Definition DefaultAgentUnitPath : string := "/etc/systemd/system/flux-agent.service".
Definition DefaultMaintenanceUnitPath : string := "/etc/systemd/system/flux-agent-maintenance.service".
Definition DefaultIdentityDirectory : string := "/var/lib/flux-agent/identity".
Definition DefaultStateDirectory : string := "/var/lib/flux-agent".
Definition DefaultForwardingSysctl : string := "/etc/sysctl.d/90-flux-forwarding.conf".
Definition maxArchiveBytes : N := N.shiftl 512 20.
Definition maxBinaryBytes : N := N.shiftl 256 20.
Definition maxChecksumBytes : N := N.shiftl 16 10.

Record Request := MkRequest {
  rq_Version : Z;
  rq_Action : string;
  rq_StagedBinary : string;
  rq_DestinationExecutable : string;
  rq_AgentUnitPath : string;
  rq_MaintenanceUnitPath : string;
  rq_IdentityDirectory : string;
  rq_StateDirectory : string;
}.
Definition RequestPath (stateDirectory : string) : string := Join [stateDirectory; "maintenance"; "request.json"].

Definition path_of (r : Request) (name : string) : string :=
  if bool_decide (name = "destination executable") then rq_DestinationExecutable r
  else if bool_decide (name = "Agent unit") then rq_AgentUnitPath r
  else if bool_decide (name = "maintenance unit") then rq_MaintenanceUnitPath r
  else if bool_decide (name = "identity directory") then rq_IdentityDirectory r
  else rq_StateDirectory r.
Definition path_names : gset string :=
  {["destination executable"; "Agent unit"; "maintenance unit"; "identity directory"; "state directory"]}.
Definition standard (r : Request) : bool :=
  bool_decide (rq_DestinationExecutable r = DefaultExecutable) && bool_decide (rq_AgentUnitPath r = DefaultAgentUnitPath)
  && bool_decide (rq_MaintenanceUnitPath r = DefaultMaintenanceUnitPath)
  && bool_decide (rq_IdentityDirectory r = DefaultIdentityDirectory) && bool_decide (rq_StateDirectory r = DefaultStateDirectory).
Definition Request_Validate `{!StringRange} (r : Request) : option string :=
  if negb (rq_Version r =? RequestVersion)%Z then Some "maintenance request version is unsupported"
  else if negb (bool_decide (rq_Action r = ActionUpgrade)) && negb (bool_decide (rq_Action r = ActionUninstall))
  then Some "maintenance action is unsupported"
  else
    match list_find (λ name, safeAbsolutePath (path_of r name) = false) (range_strings path_names) with
    | Some (_, name) => Some (name +:+ " path is invalid")
    | None =>
        if negb (standard r) then Some "online maintenance is restricted to the standard Flux installation paths"
        else if bool_decide (rq_Action r = ActionUpgrade) then
          if negb (safeAbsolutePath (rq_StagedBinary r)) || negb (pathWithin (rq_StateDirectory r) (rq_StagedBinary r))
          then Some "staged Agent must be inside the Agent state directory" else None
        else if negb (bool_decide (rq_StagedBinary r = "")) then Some "uninstall request must not include a staged binary"
        else None
    end.

(** * Checksums *)
Definition normalizeChecksum (value : string) : string + string :=
  if negb (String.length value =? 64)%nat then inl "SHA-256 value has an invalid length"
  else if negb (forallb (λ c, bool_decide (is_Some (hex_val c))) (chars value)) then inl "SHA-256 value is not hexadecimal"
  else inr (ToLower value).
Definition parseFirstChecksum (encoded : list N) : string + string :=
  match fields (to_string encoded) with
  | [] => inl "checksum file is empty"
  | first :: _ => normalizeChecksum first
  end.
Fixpoint find_checksum (name : string) (lines : list string) : string + string :=
  match lines with
  | [] => inl ("release checksum manifest does not contain " +:+ name)
  | line :: lines =>
      match fields line with
      | sum :: entry :: _ => if bool_decide (trim_prefix "*" entry = name) then normalizeChecksum sum
                             else find_checksum name lines
      | _ => find_checksum name lines
      end
  end.
Definition checksumFor (manifest : list N) (name : string) : string + string :=
  find_checksum name (split line_break (to_string manifest)).
(** The digest of a file, as it is compared *)
Definition contentChecksum (content : list N) : string := hex_encode (SHA256.Sum256 content).

(** * Releases *)
Definition size_of (content : list N) : N := N.of_nat (length content).

(** [url.ParseRequestURI]: scheme, host, whether there are credentials, fragment *)
Record URL := MkURL { url_Scheme : string; url_Host : string; url_User : bool; url_Fragment : string }.
Class UrlParser := ParseRequestURI : string → option URL.
Definition validateHTTPSURL `{!UrlParser} (value : string) : option string :=
  if negb (bool_decide (TrimSpace value = value)) || contains_any [39; 34; 35; 92; 13; 10; 9; 32; 0] value
  then Some "URL contains unsafe characters"
  else
    match ParseRequestURI value with
    | Some parsed =>
        if negb (bool_decide (url_Scheme parsed = "https")) || bool_decide (url_Host parsed = "") || url_User parsed
           || negb (bool_decide (url_Fragment parsed = ""))
        then Some "URL must be an HTTPS address without credentials or fragments" else None
    | None => Some "URL must be an HTTPS address without credentials or fragments"
    end.

(** An entry of a tar archive; reading it may end before its last *)
Record entry := MkEntry { en_Name : string; en_Regular : bool; en_Content : list N }.
Class Archive := read_archive : list N → list entry * bool.

Definition clean_name (e : entry) : string := Clean (trim_prefix "./" (en_Name e)).
Definition has_suffix (suffix s : string) : bool :=
  (String.length suffix <=? String.length s)%nat
  && bool_decide (drop (String.length s - String.length suffix) (chars s) = chars suffix).
Definition is_named (name clean : string) : bool := has_suffix ("/" +:+ name) clean || bool_decide (clean = name).

(** What [extractAgent] has found: the manifest, the version, the binary *)
Record found_files := MkFound { ff_checksums : option (list N); ff_version : string; ff_binary : option (list N) }.
Definition read_entry (binaryName : string) (e : entry) (f : found_files) : string + found_files :=
  let clean := clean_name e in
  let size := size_of (en_Content e) in
  if bool_decide (clean = ".") || has_prefix "../" clean || IsAbs clean then inl "release archive contains an unsafe path"
  else if negb (en_Regular e) then inr f
  else if is_named "SHA256SUMS" clean then
    if bool_decide (is_Some (ff_checksums f)) || (size <? 1) || (maxChecksumBytes <? size)
    then inl "release checksum manifest is missing or duplicated"
    else inr (MkFound (Some (en_Content e)) (ff_version f) (ff_binary f))
  else if is_named "VERSION" clean then
    if 256 <? size then inl "release version file is too large"
    else inr (MkFound (ff_checksums f) (TrimSpace (to_string (en_Content e))) (ff_binary f))
  else if is_named ("bin/" +:+ binaryName) clean then
    if bool_decide (is_Some (ff_binary f)) || (size <? 1) || (maxBinaryBytes <? size)
    then inl "release Agent binary is missing, duplicated, or too large"
    else inr (MkFound (ff_checksums f) (ff_version f) (Some (en_Content e)))
  else inr f.
Fixpoint read_entries (binaryName : string) (l : list entry) (f : found_files) : string + found_files :=
  match l with
  | [] => inr f
  | e :: l => match read_entry binaryName e f with inl why => inl why | inr f => read_entries binaryName l f end
  end.
(** The manifest, the version and the binary *)
Definition extractAgent `{!Archive} (archive : list N) (binaryName : string) : string + (list N * string * list N) :=
  let '(entries, ended) := read_archive archive in
  match read_entries binaryName entries (MkFound None "" None) with
  | inl why => inl why
  | inr f =>
      if negb ended then inl "read release archive"
      else
        match ff_checksums f, ff_binary f with
        | Some checksums, Some binary => inr (checksums, ff_version f, binary)
        | _, _ => inl "release does not contain the required Agent binary and checksum manifest"
        end
  end.

(** * The machine *)
Record World := MkWorld {
  w_files : gmap string (list N);
  w_request : option Request;     (** what the request file holds *)
  w_calls : nat;
}.
(** Whether the call of this number fails *)
Class Os := fails : nat → bool.
Definition Io (A : Type) : Type := World → World * (string + A).
#[export] Instance Io_ret : MRet Io := λ A a w, (w, inr a).
#[export] Instance Io_bind : MBind Io := λ A B f m w,
  match m w with (w, inl e) => (w, inl e) | (w, inr a) => f a w end.
Definition stop {A} (why : string) : Io A := λ w, (w, inl why).
Definition or_stop {A} (r : string + A) : Io A := λ w, (w, r).
Definition set_files (f : gmap string (list N) → gmap string (list N)) (w : World) : World :=
  MkWorld (f (w_files w)) (w_request w) (w_calls w).
Definition set_request (r : option Request) (w : World) : World := MkWorld (w_files w) r (w_calls w).
Definition changed (f : World → World) : Io unit := λ w, (f w, inr tt).

Section machine.
Context `{!Os}.

Definition syscall (what : string) : Io unit := λ w,
  let w' := MkWorld (w_files w) (w_request w) (S (w_calls w)) in
  (w', if fails (w_calls w) then inl what else inr tt).
(** Several calls in order, of which the first that fails ends the operation *)
Fixpoint syscalls (l : list string) : Io unit :=
  match l with [] => mret tt | what :: l => syscall what ≫= λ _, syscalls l end.
Definition open_file (path : string) : Io (list N) := λ w,
  match w_files w !! path with
  | Some content => (syscall ("open " +:+ path) ≫= λ _, mret content) w
  | None => stop "file does not exist" w
  end.
(** An error that is not looked at *)
Definition ignoring (m : Io unit) : Io unit := λ w, ((m w).1, inr tt).
Definition remove_file (path : string) : Io unit :=
  syscall ("remove " +:+ path) ≫= λ _, changed (set_files (delete path)).

(** The temporary file is complete before it takes the name. *)
Definition copyAtomic (source destination : string) : Io unit :=
  content ← open_file source;
  _ ← syscalls ["mkdir"; "create temporary"; "chmod"; "copy"];
  if maxBinaryBytes <? size_of content then stop "Agent executable exceeds the allowed size"
  else _ ← syscalls ["sync"; "close"; "rename"]; changed (set_files <[destination := content]>).

(** [replaceFile] of a temporary file *)
Definition replaceFile (content : list N) (destination : string) : Io unit :=
  _ ← remove_file destination; _ ← syscall "rename"; changed (set_files <[destination := content]>).

(** ** Staging *)
(** What a GET of an address brings: the body, when the status is a success. Every
    redirect goes to an address that [validateHTTPSURL] accepts. *)
Class Web := fetch : nat → string → option (list N).
Context `{!Web} `{!UrlParser} `{!Archive} `{!StringRange}.

Definition download (source : string) (limit : N) : Io (list N) := λ w,
  match fetch (w_calls w) source with
  | None => stop "download failed" w
  | Some body => if limit <? size_of body then stop "download exceeds the allowed size" w
                 else (syscall "download" ≫= λ _, mret body) w
  end.

Definition maintenance_directory (stateDirectory : string) : string := Join [stateDirectory; "maintenance"].
Definition valid_url (what value : string) : Io unit :=
  match validateHTTPSURL value with Some e => stop (what +:+ ": " +:+ e) | None => mret tt end.
(** On Linux; [arch] is the architecture. *)
Definition stageUpgrade (arch releaseURL checksumURL stateDirectory : string) : Io (string * string) :=
  if negb (bool_decide (arch = "amd64")) && negb (bool_decide (arch = "arm64"))
  then stop "online Agent upgrade supports Linux amd64 and arm64 only"
  else
    _ ← valid_url "release URL" releaseURL;
    _ ← valid_url "checksum URL" checksumURL;
    _ ← syscalls ["create maintenance directory"; "create upgrade staging directory"];
    checksumBytes ← download checksumURL maxChecksumBytes;
    expectedOuter ← or_stop (parseFirstChecksum checksumBytes);
    archive ← download releaseURL maxArchiveBytes;
    _ ← syscall "hash release archive";
    if negb (bool_decide (contentChecksum archive = expectedOuter)) then stop "release archive SHA-256 does not match"
    else
      let binaryName := "flux-agent-linux-" +:+ arch in
      '(internalChecksums, version, binary) ← or_stop (extractAgent archive binaryName);
      _ ← syscall "extract Agent binary";
      expectedInner ← or_stop (checksumFor internalChecksums ("bin/" +:+ binaryName));
      _ ← syscall "hash staged Agent";
      if negb (bool_decide (contentChecksum binary = expectedInner))
      then stop "Agent binary does not match the archive checksum manifest"
      else
        _ ← syscall "set staged Agent permissions";
        let stagedPath := Join [maintenance_directory stateDirectory; "flux-agent.new"] in
        _ ← replaceFile binary stagedPath;
        mret (stagedPath, version).

(** [WriteRequest] and [LoadRequest]; the file holds what was encoded, which is
    within the size [LoadRequest] allows. *)
Definition WriteRequest (request : Request) : Io string :=
  match Request_Validate request with
  | Some e => stop e
  | None =>
      let destination := RequestPath (rq_StateDirectory request) in
      _ ← syscalls ["create maintenance request directory"; "create temporary"; "chmod"; "write"; "sync"; "close"];
      _ ← syscall "remove"; _ ← changed (set_request None);
      _ ← syscall "rename"; _ ← changed (set_request (Some request));
      mret destination
  end.
Definition LoadRequest (requestPath : string) : Io Request := λ w,
  match w_request w with
  | None => stop "read maintenance request" w
  | Some request =>
      (_ ← syscall "read maintenance request";
       match Request_Validate request with
       | Some e => stop e
       | None =>
           if negb (bool_decide (Clean requestPath = Clean (RequestPath (rq_StateDirectory request))))
           then stop "maintenance request is outside its state directory" else mret request
       end) w
  end.

(** ** The privileged helper *)
(** What a program prints when it is run with [version]; [None] when it fails *)
Class Program := prints : list N → option (list N).
Context `{!Program}.

Definition version_fine (output : option (list N)) : bool :=
  match output with
  | Some l => negb (size_of l =? 0) && (size_of l <=? 4096)
  | None => false
  end.
(** The program at a path is run. *)
Definition runs_well (path : string) : Io bool := λ w,
  match w_files w !! path with
  | None => (w, inr false)
  | Some content => match syscall "run" w with
                    | (w, inl _) => (w, inr false)
                    | (w, inr tt) => (w, inr (version_fine (prints content)))
                    end
  end.
Definition Dir (path : string) : string := Clean (path +:+ "/..").
Definition previous_path (requestPath : string) : string := Join [Dir requestPath; "flux-agent.previous"].
Definition applyUpgrade (request : Request) (requestPath : string) : Io unit :=
  let destination := rq_DestinationExecutable request in
  _ ← open_file (rq_StagedBinary request);
  _ ← copyAtomic destination (previous_path requestPath);
  _ ← copyAtomic (rq_StagedBinary request) destination;
  fine ← runs_well destination;
  if negb fine then
    _ ← copyAtomic (previous_path requestPath) destination; stop "new Agent verification failed"
  else
    _ ← ignoring (remove_file (rq_StagedBinary request));
    _ ← ignoring (syscall "remove" ≫= λ _, changed (set_request None));
    mret tt.

Fixpoint remove_all (paths : list string) : Io unit :=
  match paths with [] => mret tt | path :: paths => remove_file path ≫= λ _, remove_all paths end.
Definition applyUninstall (request : Request) : Io unit :=
  _ ← syscall "disable Agent service";
  _ ← remove_all [rq_AgentUnitPath request; rq_MaintenanceUnitPath request; rq_DestinationExecutable request;
                  DefaultForwardingSysctl];
  _ ← syscall "reload systemd after Agent uninstall";
  ignoring (syscall "remove" ≫= λ _, changed (set_request None)).
Definition Apply (requestPath : string) (root : bool) : Io unit :=
  request ← LoadRequest requestPath;
  if negb root then stop "Agent maintenance must run as root"
  else
    _ ← syscall "systemctl is required";
    if bool_decide (rq_Action request = ActionUpgrade) then applyUpgrade request requestPath
    else if bool_decide (rq_Action request = ActionUninstall) then applyUninstall request
    else stop "unsupported maintenance action".
(** [Start]: systemd runs the helper as root, on the request of the standard
    directory, and answers with its result. *)
Definition Start : Io unit :=
  _ ← syscalls ["systemctl is required"; "start Agent maintenance service"];
  Apply (RequestPath DefaultStateDirectory) true.

(** ** The command *)
Definition upgrade_request (staged : string) : Request :=
  MkRequest RequestVersion ActionUpgrade staged DefaultExecutable DefaultAgentUnitPath DefaultMaintenanceUnitPath
    DefaultIdentityDirectory DefaultStateDirectory.
(** The error code of a step that fails *)
Definition coded {A} (code : string) (m : Io A) : Io A := λ w,
  match m w with (w, inl _) => (w, inl code) | r => r end.
Definition executeUpgrade (arch stateDirectory releaseURL checksumURL : string) : Io unit :=
  if negb (bool_decide (stateDirectory = DefaultStateDirectory)) then stop "nonstandard_installation"
  else
    stage ← coded "upgrade_verification_failed" (stageUpgrade arch releaseURL checksumURL stateDirectory);
    _ ← coded "upgrade_prepare_failed" (WriteRequest (upgrade_request stage.1));
    coded "upgrade_apply_failed" Start.
End machine.

(** * Specifications

    [does m P Q E]: from a machine of which [P] holds, [m] ends with a result and
    [Q], or with an error and [E]. Machines are their files and their request;
    the count of calls does not matter. *)
Definition state : Type := gmap string (list N) * option Request.
Definition state_of (w : World) : state := (w_files w, w_request w).
Definition ends {A} (r : World * (string + A)) (Q : A → state → Prop) (E : state → Prop) : Prop :=
  match r.2 with inr a => Q a (state_of r.1) | inl _ => E (state_of r.1) end.
Definition does {A} (m : Io A) (P : state → Prop) (Q : A → state → Prop) (E : state → Prop) : Prop :=
  ∀ w, P (state_of w) → ends (m w) Q E.

(** Nothing changes. *)
Definition idle {A} (m : Io A) : Prop := ∀ w, state_of (m w).1 = state_of w.

Lemma ends_bind {A B} (m : Io A) (f : A → Io B) w (R : B → state → Prop) (E : state → Prop) :
  match m w with (w1, inl _) => E (state_of w1) | (w1, inr a) => ends (f a w1) R E end → ends ((m ≫= f) w) R E.
Proof. unfold mbind, Io_bind, ends. by destruct (m w) as [w1 [e|a]]. Qed.

Lemma does_ret {A} (a : A) (Q : A → state → Prop) E : does (mret a) (Q a) Q E.
Proof. by intros w Hw. Qed.
Lemma does_stop {A} why (Q : A → state → Prop) E : does (stop why) E Q E.
Proof. by intros w Hw. Qed.
Lemma does_or_stop {A} (r : string + A) (P : state → Prop) : does (or_stop r) P (λ a s, P s ∧ r = inr a) P.
Proof. intros w Hw. unfold or_stop, ends. by destruct r; cbn. Qed.
Lemma does_stop' {A} why (P : state → Prop) (Q : A → state → Prop) (E : state → Prop) :
  (∀ s, P s → E s) → does (stop why) P Q E.
Proof. intros H w Hw. by apply H. Qed.
Lemma does_idle {A} (m : Io A) (P : state → Prop) (Q : A → state → Prop) (E : state → Prop) :
  idle m → (∀ a s, P s → Q a s) → (∀ s, P s → E s) → does m P Q E.
Proof. intros Hm HQ HE w Hw. unfold ends. destruct (m w).2; rewrite Hm; auto. Qed.
Lemma does_changed f P (Q : unit → state → Prop) E :
  (∀ w, P (state_of w) → Q tt (state_of (f w))) → does (changed f) P Q E.
Proof. intros H w Hw. by apply (H w). Qed.
Lemma does_bind {A B} (m : Io A) (f : A → Io B) P Q R E :
  does m P Q E → (∀ a, does (f a) (Q a) R E) → does (m ≫= f) P R E.
Proof.
  intros Hm Hf w Hw. specialize (Hm w Hw). unfold mbind, Io_bind, ends in *.
  destruct (m w) as [w1 [e|a]]; cbn in *; [done|]. by apply Hf.
Qed.
(** What is learnt without a change of the state *)
Lemma bind_learns {A B} (m : Io A) (f : A → Io B) P (T : A → Prop) (R : B → state → Prop) (E : state → Prop) :
  does m P (λ a s, P s ∧ T a) P → (∀ s, P s → E s) → (∀ a, T a → does (f a) P R E) → does (m ≫= f) P R E.
Proof.
  intros Hm HE Hf w Hw. specialize (Hm w Hw). unfold mbind, Io_bind, ends in *.
  destruct (m w) as [w1 [e|a]]; cbn in *; [by apply HE|]. destruct Hm as [HP HT]. by apply (Hf a HT).
Qed.
Lemma bind_idle {B} (m : Io unit) (f : unit → Io B) P (R : B → state → Prop) (E : state → Prop) :
  idle m → (∀ s, P s → E s) → does (f tt) P R E → does (m ≫= f) P R E.
Proof.
  intros Hm HE Hf. apply (bind_learns _ _ _ (λ _, True)); [|done|by intros []].
  intros w Hw. unfold ends. rewrite Hm. by destruct (m w).2.
Qed.
Lemma does_weaken {A} (m : Io A) P P' (Q Q' : A → state → Prop) (E E' : state → Prop) :
  does m P' Q' E' → (∀ s, P s → P' s) → (∀ a s, Q' a s → Q a s) → (∀ s, E' s → E s) → does m P Q E.
Proof. intros Hm HP HQ HE w Hw. specialize (Hm w (HP _ Hw)). unfold ends in *. destruct (m w) as [w1 [e|a]]; cbn in *; auto. Qed.
Lemma does_coded {A} code (m : Io A) P Q E : does m P Q E → does (coded code m) P Q E.
Proof. intros Hm w Hw. specialize (Hm w Hw). unfold coded, ends in *. by destruct (m w) as [w1 [e|a]]. Qed.
Lemma does_ignoring (m : Io unit) P Q E : does m P Q E → (∀ s, Q tt s → E s) → does (ignoring m) P (λ _, E) E.
Proof. intros Hm HQ w Hw. specialize (Hm w Hw). unfold ignoring, ends in *. destruct (m w) as [w1 [e|[]]]; cbn in *; auto. Qed.

Lemma idle_does {A} (m : Io A) P : idle m → does m P (λ _, P) P.
Proof. intros Hm w Hw. unfold ends. destruct (m w).2; by rewrite Hm. Qed.
Lemma idle_bind {A B} (m : Io A) (f : A → Io B) : idle m → (∀ a, idle (f a)) → idle (m ≫= f).
Proof.
  intros Hm Hf w. specialize (Hm w). unfold mbind, Io_bind. destruct (m w) as [w1 [e|a]]; [done|].
  by rewrite Hf.
Qed.

Section facts.
Context `{!Os} `{!Web} `{!UrlParser} `{!Archive} `{!StringRange} `{!Program}.

Lemma syscall_idle what : idle (syscall what).
Proof. by intros w. Qed.
Lemma syscalls_idle l : idle (syscalls l).
Proof. induction l; [by intros w|]. apply idle_bind; [apply syscall_idle|done]. Qed.
Lemma valid_url_idle what value : idle (valid_url what value).
Proof. unfold valid_url. by destruct (validateHTTPSURL value). Qed.

Lemma open_file_idle path : idle (open_file path).
Proof.
  intros w. unfold open_file. destruct (w_files w !! path); [|done]. unfold mbind, Io_bind, syscall. cbn.
  by destruct (fails _).
Qed.
Lemma open_file_does path P :
  does (open_file path) P (λ content s, P s ∧ s.1 !! path = Some content) P.
Proof.
  intros w Hw. unfold open_file. destruct (w_files w !! path) as [content|] eqn:Hp; [|done].
  unfold mbind, Io_bind, syscall. cbn. by destruct (fails _).
Qed.
Lemma download_does source limit P :
  does (download source limit) P (λ body s, P s ∧ ∃ n, fetch n source = Some body) P.
Proof.
  intros w Hw. unfold download. destruct (fetch _ source) as [body|] eqn:Hf; [|done].
  destruct (limit <? size_of body); [done|]. unfold mbind, Io_bind, syscall. cbn. destruct (fails _); cbn; eauto.
Qed.

(** A copy either takes place or not. *)
Lemma copyAtomic_does source destination fs rq :
  does (copyAtomic source destination) (λ s, s = (fs, rq))
    (λ _ s, ∃ content, fs !! source = Some content ∧ size_of content <= maxBinaryBytes
                       ∧ s = (<[destination := content]> fs, rq))
    (λ s, s = (fs, rq)).
Proof.
  unfold copyAtomic. eapply does_bind; [apply open_file_does|]. intros content.
  eapply (does_bind _ _ _ (λ _ s, s = (fs, rq) ∧ s.1 !! source = Some content)).
  { apply does_idle; [apply syscalls_idle|done|by intros s [-> _]]. }
  intros []. destruct (N.ltb_spec maxBinaryBytes (size_of content)) as [|Hsize].
  { apply does_stop'. by intros s [-> _]. }
  eapply (does_bind _ _ _ (λ _ s, s = (fs, rq) ∧ s.1 !! source = Some content)).
  { apply does_idle; [apply syscalls_idle|done|by intros s [-> _]]. }
  intros []. apply does_changed. intros w [Hs Hc]. unfold state_of in *. cbn in *. simplify_eq. eauto.
Qed.
Lemma remove_file_does path fs rq :
  does (remove_file path) (λ s, s = (fs, rq)) (λ _ s, s = (delete path fs, rq)) (λ s, s = (fs, rq)).
Proof.
  unfold remove_file. eapply does_bind; [apply idle_does, syscall_idle|]. intros [].
  apply does_changed. intros w Hs. unfold state_of in *. cbn in *. by simplify_eq.
Qed.

(** The files but one *)
Definition agrees (except : gset string) (fs fs' : gmap string (list N)) : Prop :=
  ∀ path, path ∉ except → fs' !! path = fs !! path.

Lemma replaceFile_does content destination fs rq :
  does (replaceFile content destination) (λ s, s = (fs, rq))
    (λ _ s, s = (<[destination := content]> fs, rq))
    (λ s, agrees {[destination]} fs s.1 ∧ s.2 = rq).
Proof.
  unfold replaceFile. eapply (does_bind _ _ _ (λ _ s, s = (delete destination fs, rq))).
  { eapply does_weaken; [apply (remove_file_does destination fs rq)|done|done|]. intros s ->. by split. }
  intros []. cbn. eapply (does_bind _ _ _ (λ _ s, s = (delete destination fs, rq))).
  { apply does_idle; [apply syscall_idle|done|]. intros s ->. split; [|done].
    intros path Hp. cbn. apply lookup_delete_ne. set_solver. }
  intros []. cbn. apply does_changed. intros w Hs. unfold state_of in *. cbn in *. injection Hs as Hfiles <-.
  f_equal. rewrite Hfiles. apply insert_delete_eq.
Qed.

(** * Staging *)
Definition binary_name (arch : string) : string := "flux-agent-linux-" +:+ arch.
(** A release: the archive the checksum file names, and in it a binary the manifest
    names *)
Definition released (arch releaseURL checksumURL : string) (binary : list N) : Prop :=
  ∃ n sums m archive manifest version,
    fetch n checksumURL = Some sums ∧ fetch m releaseURL = Some archive
    ∧ parseFirstChecksum sums = inr (contentChecksum archive)
    ∧ extractAgent archive (binary_name arch) = inr (manifest, version, binary)
    ∧ checksumFor manifest ("bin/" +:+ binary_name arch) = inr (contentChecksum binary).

Definition staged_path (stateDirectory : string) : string :=
  Join [maintenance_directory stateDirectory; "flux-agent.new"].

(** The binary is a regular entry of the archive, under its name and a safe path. *)
Lemma read_entries_binary name l f f' binary :
  read_entries name l f = inr f' → ff_binary f' = Some binary →
  ff_binary f = Some binary
  ∨ ∃ e, e ∈ l ∧ en_Regular e = true ∧ en_Content e = binary ∧ is_named ("bin/" +:+ name) (clean_name e) = true
         ∧ has_prefix "../" (clean_name e) = false ∧ IsAbs (clean_name e) = false.
Proof.
  revert f. induction l as [|e l IH]; intros f; cbn; [intros [= ->]; auto|].
  destruct (read_entry name e f) as [|f1] eqn:He; [done|]. intros Hl Hb.
  destruct (IH f1 Hl Hb) as [Hf1|(e' & Hin & Hrest)]; [|right; exists e'; split; [by right|done]].
  unfold read_entry in He. destruct (_ || _ || IsAbs _) eqn:Hsafe; [done|].
  apply orb_false_iff in Hsafe as [[_ Hup]%orb_false_iff Habs].
  destruct (en_Regular e) eqn:Hreg; cbn [negb] in He; [|injection He as <-; by left].
  destruct (is_named "SHA256SUMS" _); [destruct (_ || _ || _); [done|]; injection He as <-; by left|].
  destruct (is_named "VERSION" _); [destruct (_ <? _); [done|]; injection He as <-; by left|].
  destruct (is_named ("bin/" +:+ name) _) eqn:Hn; [|injection He as <-; by left].
  destruct (_ || _ || _); [done|]. injection He as <-. cbn in Hf1. injection Hf1 as <-.
  right. exists e. split_and!; try done. left.
Qed.
Theorem extractAgent_entry archive name manifest version binary :
  extractAgent archive name = inr (manifest, version, binary) →
  ∃ e, e ∈ (read_archive archive).1 ∧ en_Regular e = true ∧ en_Content e = binary
       ∧ is_named ("bin/" +:+ name) (clean_name e) = true
       ∧ has_prefix "../" (clean_name e) = false ∧ IsAbs (clean_name e) = false.
Proof.
  unfold extractAgent. destruct (read_archive archive) as [entries ended].
  destruct (read_entries _ _ _) as [|f] eqn:He; [done|]. destruct ended; [|done]. cbn.
  destruct (ff_checksums f) as [c|]; [|done]. destruct (ff_binary f) as [b|] eqn:Hb; [|done].
  intros [= <- <- <-]. by destruct (read_entries_binary _ _ _ _ _ He Hb).
Qed.

#[local] Hint Resolve syscall_idle syscalls_idle valid_url_idle : flux.

Lemma stageUpgrade_does arch releaseURL checksumURL dir fs rq :
  does (stageUpgrade arch releaseURL checksumURL dir) (λ s, s = (fs, rq))
    (λ a s, a.1 = staged_path dir
            ∧ ∃ binary, released arch releaseURL checksumURL binary ∧ s = (<[staged_path dir := binary]> fs, rq))
    (λ s, agrees {[staged_path dir]} fs s.1 ∧ s.2 = rq).
Proof.
  set (P := λ s : state, s = (fs, rq)).
  assert (∀ s, P s → agrees {[staged_path dir]} fs s.1 ∧ s.2 = rq) as Hsame by by intros ? ->.
  unfold stageUpgrade. destruct (_ && _); [by apply does_stop'|].
  do 3 (apply bind_idle; [auto with flux|done|]).
  eapply bind_learns; [apply download_does|done|]. intros sums [n Hn].
  eapply bind_learns; [apply does_or_stop|done|]. intros outer Hp.
  eapply bind_learns; [apply download_does|done|]. intros archive [m Hm].
  apply bind_idle; [auto with flux|done|].
  destruct (bool_decide (contentChecksum archive = outer)) eqn:Ho; cbn [negb]; [|by apply does_stop'].
  apply bool_decide_eq_true in Ho as <-. fold (binary_name arch).
  eapply bind_learns; [apply does_or_stop|done|]. intros [[manifest version] binary] He.
  apply bind_idle; [auto with flux|done|].
  eapply bind_learns; [apply does_or_stop|done|]. intros inner Hc.
  apply bind_idle; [auto with flux|done|].
  destruct (bool_decide (contentChecksum binary = inner)) eqn:Hi; cbn [negb]; [|by apply does_stop'].
  apply bool_decide_eq_true in Hi as <-.
  apply bind_idle; [auto with flux|done|]. fold (staged_path dir).
  eapply does_bind; [apply replaceFile_does|]. intros []. intros w Hw. split; [done|].
  exists binary. split; [|done]. by exists n, sums, m, archive, manifest, version.
Qed.

Lemma WriteRequest_does request fs rq :
  does (WriteRequest request) (λ s, s = (fs, rq)) (λ _ s, s = (fs, Some request)) (λ s, s.1 = fs).
Proof.
  unfold WriteRequest. destruct (Request_Validate request); [apply does_stop'; by intros ? ->|].
  do 2 (apply bind_idle; [auto with flux|by intros ? ->|]).
  apply (does_bind _ _ _ (λ _ s, s = (fs, None))).
  { apply does_changed. intros w Hs. unfold state_of in *. cbn. by injection Hs as -> _. }
  intros []. apply bind_idle; [auto with flux|by intros ? ->|].
  apply (does_bind _ _ _ (λ _ s, s = (fs, Some request))); [|intros []; by intros w].
  apply does_changed. intros w Hs. unfold state_of in *. cbn. by injection Hs as -> _.
Qed.
Lemma LoadRequest_does path fs rq :
  does (LoadRequest path) (λ s, s = (fs, rq)) (λ request s, s = (fs, rq) ∧ rq = Some request) (λ s, s = (fs, rq)).
Proof.
  intros w Hw. unfold LoadRequest. assert (w_request w = rq) as -> by by injection Hw.
  destruct rq as [request|]; [|done]. unfold mbind, Io_bind, syscall. cbn. destruct (fails _); [done|].
  destruct (Request_Validate request); [done|]. by destruct (negb _).
Qed.

(** * Installing *)

(** The old program stays, or a rollback fails and the new one does; a success is
    the new one, which runs. *)
Lemma runs_well_does path fs rq :
  does (runs_well path) (λ s, s = (fs, rq))
    (λ fine s, s = (fs, rq)
       ∧ (fine = true → ∃ content, fs !! path = Some content ∧ version_fine (prints content) = true))
    (λ s, s = (fs, rq)).
Proof.
  intros w Hw. unfold runs_well. assert (w_files w = fs) as Hf by by injection Hw.
  rewrite Hf. destruct (fs !! path) as [content|] eqn:Hp; [|done]. unfold syscall. cbn.
  destruct (fails _); cbn; [by split|]. split; [done|]. eauto.
Qed.
Lemma runs_well_total path w : match (runs_well path w).2 with inl _ => False | inr _ => True end.
Proof. unfold runs_well, syscall. destruct (w_files w !! path); [|done]. by destruct (fails _). Qed.
Lemma syscalls_failed l w : match (syscalls l w).2 with inl _ => ∃ n, fails n = true | inr _ => True end.
Proof.
  revert w. induction l as [|what l IH]; intros w; cbn; [done|]. unfold mbind, Io_bind, syscall.
  destruct (fails (w_calls w)) eqn:Hf; cbn; [by eexists|]. apply IH.
Qed.
(** A copy of a file that is there and not too large fails only when a call does. *)
Lemma copyAtomic_failed source destination content w :
  w_files w !! source = Some content → size_of content <= maxBinaryBytes →
  match (copyAtomic source destination w).2 with inl _ => ∃ n, fails n = true | inr _ => True end.
Proof.
  intros Hs Hsize. unfold copyAtomic, open_file, mbind at 1, Io_bind at 1. rewrite Hs.
  unfold mbind at 1, Io_bind at 1, syscall at 1. destruct (fails (w_calls w)) eqn:Hf; cbn -[syscalls]; [by eexists|].
  unfold mbind at 1, Io_bind at 1. set (l1 := ["mkdir"; _; _; _]). set (w1 := MkWorld _ _ _).
  pose proof (syscalls_failed l1 w1) as Hl1. destruct (syscalls l1 w1) as [w2 [e|[]]]; [done|].
  destruct (N.ltb_spec maxBinaryBytes (size_of content)); [lia|].
  unfold mbind, Io_bind. set (l2 := ["sync"; _; _]). pose proof (syscalls_failed l2 w2) as Hl2.
  by destruct (syscalls l2 w2) as [w3 [e|[]]].
Qed.

Definition new_program (arch releaseURL checksumURL : string) (fs : gmap string (list N)) : Prop :=
  ∃ binary, fs !! DefaultExecutable = Some binary ∧ released arch releaseURL checksumURL binary.
Definition maintained : gset string :=
  {[DefaultExecutable; staged_path DefaultStateDirectory; previous_path (RequestPath DefaultStateDirectory)]}.

(** [applyUpgrade] of the request of [executeUpgrade], on the files [fs] *)
Section apply.
Context (fs : gmap string (list N)) (binary : list N)
  (Hstaged : fs !! staged_path DefaultStateDirectory = Some binary).
Abbreviation staged := (staged_path DefaultStateDirectory).
Abbreviation previous := (previous_path (RequestPath DefaultStateDirectory)).
Abbreviation request := (upgrade_request staged).

(** The program was replaced, after a copy of the old one *)
Definition replaced (s : state) : Prop :=
  ∃ old, fs !! DefaultExecutable = Some old ∧ size_of old <= maxBinaryBytes
         ∧ s.1 = <[DefaultExecutable := binary]> (<[previous := old]> fs).
Definition left_old (s : state) : Prop :=
  agrees maintained fs s.1 ∧ s.1 !! DefaultExecutable = fs !! DefaultExecutable.
Definition left_new (s : state) : Prop :=
  agrees maintained fs s.1 ∧ s.1 !! DefaultExecutable = Some binary.

Lemma paths_differ : previous ≠ staged ∧ previous ≠ DefaultExecutable ∧ staged ≠ DefaultExecutable.
Proof. split_and!; vm_compute; discriminate. Qed.

Lemma replaced_left_new s : replaced s → left_new s.
Proof.
  intros (old & _ & _ & Hs). unfold left_new, agrees. rewrite Hs. split; [|apply lookup_insert_eq].
  intros path Hp. rewrite !lookup_insert_ne by (unfold maintained in Hp; set_solver). done.
Qed.

Lemma does_ignoring_remove E : does (ignoring (remove_file staged)) left_new (λ _, left_new) E.
Proof.
  destruct paths_differ as (_ & _ & Hes).
  intros w [Ha Hn]. unfold ends, ignoring, remove_file, mbind, Io_bind, syscall, changed. cbn.
  destruct (fails _); cbn; [by split|]. split; cbn; [|by rewrite lookup_delete_ne].
  intros path Hp. cbn. rewrite lookup_delete_ne by (unfold maintained in Hp; set_solver). by apply Ha.
Qed.
Lemma does_ignoring_request E :
  does (ignoring (syscall "remove" ≫= λ _, changed (set_request None))) left_new (λ _, left_new) E.
Proof.
  intros w Hw. unfold ends, ignoring, mbind, Io_bind, syscall, changed. cbn. by destruct (fails _).
Qed.
Lemma applyUpgrade_installs rq :
  does (applyUpgrade request (RequestPath DefaultStateDirectory)) (λ s, s = (fs, rq))
    (λ _ s, left_new s ∧ version_fine (prints binary) = true)
    (λ s, left_old s ∨ left_new s ∧ ∃ n, fails n = true).
Proof.
  destruct paths_differ as (Hsp & Hep & Hes).
  assert (∀ rq, left_old (fs, rq)) as Hold by by intros.
  unfold applyUpgrade. cbn [upgrade_request rq_DestinationExecutable rq_StagedBinary].
  apply (does_bind _ _ _ (λ _ s, s = (fs, rq))).
  { apply does_idle; [apply open_file_idle|done|]. intros ? ->. left. apply Hold. }
  intros _. eapply does_bind.
  { eapply does_weaken; [apply (copyAtomic_does _ _ fs rq)|done|by intros ? ? Hx; exact Hx|]. intros ? ->. left. apply Hold. }
  intros [] w (old & He & Hsize & Hw). apply ends_bind.
  pose proof (copyAtomic_does staged DefaultExecutable _ _ w Hw) as Hc.
  destruct (copyAtomic staged DefaultExecutable w) as [w1 [e|[]]]; cbn -[state_of] in Hc.
  { left. rewrite Hc. unfold left_old, agrees. cbn. split; [|by rewrite lookup_insert_ne].
    intros path Hp. rewrite lookup_insert_ne by (unfold maintained in Hp; set_solver). done. }
  destruct Hc as (content & Hcontent & _ & Hc).
  rewrite lookup_insert_ne in Hcontent by done. rewrite Hstaged in Hcontent. injection Hcontent as <-.
  set (fs1 := <[DefaultExecutable := binary]> (<[previous := old]> fs)) in *.
  assert (∀ rq, left_new (fs1, rq)) as Hnew by (intros rq'; apply replaced_left_new; by exists old).
  assert (fs1 !! DefaultExecutable = Some binary) as Hexe by apply lookup_insert_eq.
  assert (fs1 !! previous = Some old) as Hprev by (unfold fs1; by rewrite lookup_insert_ne, lookup_insert_eq).
  clearbody fs1. apply ends_bind.
  pose proof (runs_well_does DefaultExecutable _ _ w1 Hc) as Hr. pose proof (runs_well_total DefaultExecutable w1) as Ht.
  destruct (runs_well DefaultExecutable w1) as [w2 [e|fine]]; [done|]. cbn -[state_of] in Hr.
  destruct Hr as [Hw2 Hfine]. destruct fine; cbn [negb].
  - destruct (Hfine eq_refl) as (c & Hc' & Hv). rewrite Hexe in Hc'. injection Hc' as <-.
    assert (left_new (state_of w2)) as Hl by (rewrite Hw2; apply Hnew).
    apply (does_bind _ _ left_new (λ _, left_new)); [by apply does_ignoring_remove| |done]. intros [].
    apply (does_bind _ _ _ (λ _, left_new)); [by apply does_ignoring_request|]. intros []. intros w3 Hw3. by split.
  - apply ends_bind. pose proof (copyAtomic_does previous DefaultExecutable _ _ w2 Hw2) as Hback.
    pose proof (copyAtomic_failed previous DefaultExecutable old w2) as Hfail.
    destruct (copyAtomic previous DefaultExecutable w2) as [w3 [e|[]]]; cbn -[state_of] in Hback, Hfail.
    + right. rewrite Hback. split; [apply Hnew|]. apply Hfail; [|done]. by injection Hw2 as ->.
    + left. destruct Hback as (c & Hc' & _ & Hs). rewrite Hprev in Hc'. injection Hc' as <-. cbn -[state_of].
      rewrite Hs. destruct (Hnew rq) as [Ha _]. split; cbn in *; [|by rewrite lookup_insert_eq].
      intros path Hp. rewrite lookup_insert_ne by (unfold maintained in Hp; set_solver). by apply Ha.
Qed.

Lemma Start_installs :
  does Start (λ s, s = (fs, Some request))
    (λ _ s, left_new s ∧ version_fine (prints binary) = true)
    (λ s, left_old s ∨ left_new s ∧ ∃ n, fails n = true).
Proof.
  assert (∀ s, s = (fs, Some request) → left_old s ∨ left_new s ∧ ∃ n, fails n = true) as Hold by by intros ? ->; left.
  unfold Start. apply bind_idle; [auto with flux|done|]. unfold Apply.
  eapply bind_learns; [|exact Hold|].
  { eapply does_weaken; [apply (LoadRequest_does _ fs (Some request))|done| |done].
    intros req s [-> Hreq]. split; [done|exact Hreq]. }
  intros req [= <-]. cbn [negb]. apply bind_idle; [auto with flux|done|].
  rewrite bool_decide_eq_true_2 by done. apply applyUpgrade_installs.
Qed.
End apply.

(** C15. An upgrade leaves nothing on the node but a released program. Whatever the
    servers answer, whatever the archive holds and whichever calls fail: a command
    that succeeds has installed a binary from an archive with the digest of the
    checksum file, with the digest of the archive's own manifest, and the binary
    runs. A command that fails leaves the old program; or such a released one, but
    then only because a call of the operating system failed. No other file of the
    node changes, but the staged program and the copy of the old one. *)
Theorem upgrade_installs_released arch stateDirectory releaseURL checksumURL w :
  let '(w', r) := executeUpgrade arch stateDirectory releaseURL checksumURL w in
  agrees maintained (w_files w) (w_files w')
  ∧ match r with
    | inr _ => ∃ binary, w_files w' !! DefaultExecutable = Some binary
                 ∧ released arch releaseURL checksumURL binary ∧ version_fine (prints binary) = true
    | inl _ => w_files w' !! DefaultExecutable = w_files w !! DefaultExecutable
               ∨ (∃ n, fails n = true) ∧ new_program arch releaseURL checksumURL (w_files w')
    end.
Proof.
  set (fs := w_files w).
  enough (ends (executeUpgrade arch stateDirectory releaseURL checksumURL w)
            (λ _ s, agrees maintained fs s.1 ∧ ∃ binary, s.1 !! DefaultExecutable = Some binary
               ∧ released arch releaseURL checksumURL binary ∧ version_fine (prints binary) = true)
            (λ s, agrees maintained fs s.1 ∧ (s.1 !! DefaultExecutable = fs !! DefaultExecutable
               ∨ (∃ n, fails n = true) ∧ new_program arch releaseURL checksumURL s.1))) as He.
  { unfold ends in He. by destruct (executeUpgrade _ _ _ _ w) as [w' [e|[]]]. }
  assert (∀ fs', agrees {[staged_path DefaultStateDirectory]} fs fs' →
            agrees maintained fs fs' ∧ fs' !! DefaultExecutable = fs !! DefaultExecutable) as Hsame.
  { intros fs' Ha. split; [intros path Hp; apply Ha; unfold maintained in Hp; set_solver|].
    apply Ha. apply not_elem_of_singleton. destruct paths_differ as (_ & _ & Hd). congruence. }
  unfold executeUpgrade. destruct (bool_decide _) eqn:Hdir; cbn [negb]; [|by split; [|left]].
  apply bool_decide_eq_true in Hdir as ->. apply ends_bind.
  pose proof (does_coded "upgrade_verification_failed" _ _ _ _
                (stageUpgrade_does arch releaseURL checksumURL DefaultStateDirectory fs (w_request w)) w eq_refl) as Hs.
  destruct (coded _ _ w) as [w1 [e|stage]]; unfold ends in Hs; cbn in Hs.
  { destruct Hs as [Ha _]. apply Hsame in Ha as [? ?]. auto. }
  destruct Hs as (Hpath & binary & Hrel & Hw1). apply ends_bind.
  set (fs1 := <[staged_path DefaultStateDirectory := binary]> fs) in *.
  assert (agrees {[staged_path DefaultStateDirectory]} fs fs1) as Ha1.
  { intros path Hp. apply lookup_insert_ne. set_solver. }
  pose proof (does_coded "upgrade_prepare_failed" _ _ _ _
                (WriteRequest_does (upgrade_request stage.1) fs1 (w_request w)) w1 Hw1) as Hr.
  destruct (coded _ _ w1) as [w2 [e|path]]; unfold ends in Hr; cbn in Hr.
  { apply Hsame in Ha1 as [? ?]. rewrite <- Hr in *. auto. }
  rewrite Hpath in Hr. apply Hsame in Ha1 as [Hm Hexe].
  eapply does_weaken; [apply does_coded, (Start_installs fs1 binary), lookup_insert_eq|by intros ? Hx; exact Hx| | |exact Hr].
  - intros _ s [[Ha Hn] Hv]. split; [|by exists binary]. intros p Hp. rewrite Ha by done. by apply Hm.
  - intros s [[Ha Hn]|[[Ha Hn] Hf]]; (split; [intros p Hp; rewrite Ha by done; by apply Hm|]).
    + left. by rewrite Hn.
    + right. split; [done|]. by exists binary.
Qed.
End facts.

(** * A release *)
Section sample.
Definition sample_archive : list N := [1; 2; 3].
Definition sample_binary : list N := [127; 69; 76; 70].
Definition sample_manifest : list N :=
  bytes_of (contentChecksum sample_binary +:+ "  bin/flux-agent-linux-amd64").
Definition sample_entries (manifest : list N) : list entry :=
  [MkEntry "./flux-1/" false []; MkEntry "./flux-1/SHA256SUMS" true manifest;
   MkEntry "./flux-1/VERSION" true (bytes_of "1.2"); MkEntry "./flux-1/bin/flux-agent-linux-amd64" true sample_binary].
#[local] Instance no_faults : Os := λ _, false.
#[local] Instance sample_web : Web := λ _ source,
  if bool_decide (source = "https://get.example/flux.tar.gz") then Some sample_archive
  else if bool_decide (source = "https://get.example/flux.tar.gz.sha256")
  then Some (bytes_of (contentChecksum sample_archive +:+ "  flux.tar.gz")) else None.
#[local] Instance sample_urls : UrlParser := λ value,
  if has_prefix "https://" value then Some (MkURL "https" "get.example" false "") else None.
#[local] Instance sample_names : StringRange := elements.
Definition sample_machine : World := MkWorld {[DefaultExecutable := [0]]} None 0.
Definition upgraded (archive : Archive) (program : Program) : World * (string + unit) :=
  executeUpgrade "amd64" DefaultStateDirectory "https://get.example/flux.tar.gz"
    "https://get.example/flux.tar.gz.sha256" sample_machine.
Definition holds (manifest : list N) : Archive := λ _, (sample_entries manifest, true).
Definition machine_after (r : World * (string + unit)) : option (list N) * (string + unit) :=
  (w_files r.1 !! DefaultExecutable, r.2).

Example upgrades :
  machine_after (upgraded (holds sample_manifest) (λ _, Some (bytes_of "1.2"))) = (Some sample_binary, inr tt).
Proof. vm_compute. reflexivity. Qed.
Example does_not_run :
  machine_after (upgraded (holds sample_manifest) (λ _, None)) = (Some [0], inl "upgrade_apply_failed").
Proof. vm_compute. reflexivity. Qed.
Example other_digest :
  machine_after (upgraded (holds (bytes_of (contentChecksum [0] +:+ "  bin/flux-agent-linux-amd64"))) (λ _, Some [49]))
  = (Some [0], inl "upgrade_verification_failed").
Proof. vm_compute. reflexivity. Qed.
End sample.
